(* ===== verification/_CoqProject ===== *)
-Q . S2P
Prelude.v
JsNum.v
Regex.v
Json.v
JsonParse.v
Scanner.v
Policy.v
Network.v
Plan.v
Capability.v
Broker.v
Org.v
Budget.v
Deploy.v
Egress.v
Bridge.v
Adapters.v
Strategy.v
Events.v
Control.v
DeployPlan.v
DeployApproval.v
Orchestrator.v
Release.v
Alerts.v
Runtime.v
AgentRuntime.v
Studio.v
Workflow.v
Blueprint.v
Simulation.v
Monitor.v
Reality.v
Shadow.v
Lab.v
AttackLab.v
