(* ===== verification/Prelude.v ===== *)
(** * ContextLock: a verification of the authorization core

    ContextLock lets an autonomous agent move value only through a decision it does not control.  An
    agent sends a typed request to a broker; the broker resolves the agent's identity, builds the
    transaction itself, has a private policy evaluated, and signs a single-use capability only when
    the verdict is ALLOW.  Around that core, a studio composes agents into organizations with a shared
    treasury, compiles strategies into multi-step execution plans, deploys the result, and reaches the
    user's own machine through a bridge that performs bounded operations and never gives access.

    This library is a shallow embedding of the parts of [src/] that decide: pure functions are Rocq
    functions, code that changes state takes the state and returns it, code that throws returns a
    [result].  Definitions keep the source's names and its order of guards and are executable; the
    [Samples] modules run them.

    ** The files, and the code each models

    - [Prelude]: the result type and its [let*] and [throw ... when] notations, strings, [includes],
      [some], [every], [find], and the [bool_prop] automation.
    - [JsNum]: JavaScript numbers: doubles with their rounding, infinities, NaN.  [Regex]: regular expressions by
      derivatives.  [Json]: JavaScript values, [JSON.stringify], sorted-key serialization, decimal text.
      [JsonParse]: the grammar of JSON texts and [JSON.parse], with the theorem that it reads back what is
      printed.  [Scanner]: the walk over a document that looks for secrets.
    - [Policy]: [packages/policy/src/index.ts], the decision function.
    - [Network]: [packages/studio-network/src], the approved networks and the write guard ([Roles]), the
      fences each writer calls ([Fences]), the broadcast flag and burner ([Broadcast]), CRE modes and
      privacy evidence ([CreModes]).
    - [Plan]: [packages/studio-plan/src], the plan document ([Schema]), its hashes and the capability
      scope of a step ([Hash]), the execution guard and derived state ([Machine]), cross-chain arrivals
      ([Arrival]).
    - [Capability]: [packages/protocol/src/capability.ts], what a capability commits to.
    - [Broker]: [apps/broker/src] with [packages/adapters/src], the request life cycle ([States]), the
      typed adapter ([Adapters]) and request handling over the tables ([Requests]).
    - [Org]: [packages/studio-org/src], organizations ([Schema], [Validator]), the blast radius of one
      compromised agent ([Blast]), messages ([Messaging]).  [Budget]: its shared-treasury ledger.
    - [Deploy]: [packages/studio-orchestrator/src], the deployment state machine ([Machine]) and what is
      known of a sent transaction ([Receipts]).
    - [Egress]: [packages/studio-openapi/src/egress.ts], which URLs may be called.
    - [Bridge]: [packages/bridge/src], signed requests ([Protocol]) and the local daemon ([Local]).
    - [Adapters]: [packages/studio-adapters/src/core], data adapters: trust classes, manifests, the
      registry, the resolver and committed observations.
    - [Strategy]: [packages/studio-strategy/src], the strategy document ([Ir]), its units ([Units]) and
      the compiler that derives types, trust and order ([Compiler]).
    - [Events]: [packages/studio-events/src], events, redaction, the append-only store, traces.
    - [Control], [Alerts]: [packages/studio-control-plane/src], freshness, commands and the emergency
      lock; observed chain state, reconciliation and alerts.
    - [DeployPlan], [DeployApproval]: [packages/studio-deploy/src], environments, reuse, the plan, costs
      and signing; the manifest, its hash and what an approval pins.
    - [Orchestrator], [Release]: [packages/studio-orchestrator/src], the run of an approved plan and the
      activation ceremony; verification, image promotion, receipts and recovery.
    - [Runtime]: [packages/studio-runtime/src], runtime tokens ([Identity]), the four gateways
      ([Gateways]), revisions ([Revision]) and container hardening ([Hardening]).
    - [AgentRuntime]: [apps/agent-runtime/src], the runtime process: its environment, its vocabulary, its
      event cursor and its health.
    - [Studio]: [apps/studio/src], the quotas of a build ([Quota]) and the steps of its pipeline that spend
      them ([Pipeline]).
    - [Workflow]: [workflows/cre-policy/contextlock-policy/workflow.ts], the conversions of parsed JSON
      ([Conv]) and the enclave's handler ([Handler]).
    - [Blueprint]: [packages/studio-blueprint/src], values that may be unknown ([Unknown]), the document
      ([Schema]), its checks ([Validator]), its score ([Score]) and its picture ([Graph]).
    - [Simulation]: [packages/studio-simulation/src/engine.ts], the built-in scenarios ([Fixtures]) and the
      six stages of a run ([Engine]).
    - [Monitor]: [packages/studio-control-plane/src], adapter and runtime health, the revision fence, the
      live badge and the CRE panel ([AdapterHealth], [RuntimeHealth], [Fence], [Liveness], [Cre]).
    - [Reality], [Shadow]: [packages/studio-reality/src], the read-only transport ([Rpc]), market sources
      ([Sources]), assets ([Assets]) and snapshots ([Snapshot]); scenario overlays ([Overlay]), replays
      ([Replay]), local forks ([Fork]), the shadow agent ([Agent]) and its audit ([Audit]).
    - [Lab], [AttackLab]: [packages/studio-lab/src], the projected state ([Lifecycle]), revisions and their
      diff ([Revisions], [SecurityDiff]), the deploy and activation gates ([DeployGate]); security paths
      ([Path]), the attacks ([Runner]) and the safety report ([Report]).

    ** How the parts meet

    [Broker.Requests] builds its transactions with [Broker.Adapters], hashes what it asks the evaluator
    and what it signs with [Capability], and calls [Network.Fences]; the verdicts it receives are
    [Policy]'s.  [Plan.Machine] calls [Network.Fences] for every step and [Plan.Hash] for the scope a
    step must present.  [Budget] enforces at run time the limits [Org.Validator] checks, and its last
    theorem joins it with [Org.Blast].  [Bridge.Local] checks the URLs it calls with [Egress].
    [Strategy] selects its data with [Adapters] and is scanned, as events and artifacts are, by
    [Scanner].  [DeployPlan] and [DeployApproval] make the plan that [Orchestrator] runs with the state
    machine and receipts of [Deploy]; [Release] verifies the result against the manifest of
    [DeployApproval], and [Alerts] compares it later with what the chain says.  A running agent reaches
    all of this through [Runtime.Gateways], which call the fences of [Network]; [AgentRuntime] is the
    other end of those gateways.
    [Workflow] reads its policy with [JsonParse], decides with [Policy] and decodes the calldata that
    [Broker.Adapters] encodes.  [Simulation] runs [Policy] for the document of [Blueprint], and
    [Blueprint] fences its networks with [Network] and reports with [Org.Validator]'s issues.  [Monitor]
    presents its readings with [Control.Freshness].  [Reality] reads the registry of [Network] and the
    trust classes of [Adapters]; [Shadow] decides on the snapshots of [Reality], under the write guard of
    [Network].  [Lab] projects the states of [Deploy], [Monitor] and [Blueprint], and [AttackLab] puts its
    attacks to [Policy], [Network], [Reality] and [Capability].
    [Capability.AbiCodec], [Bridge.Protocol.Crypto] and [Runtime.Identity.TokenCodec] are the classes that
    state what is used of the cryptographic libraries; the theorems are proved against the classes.

    ** What the theorems show

    - Decisions: [evaluatePolicy] refines a specification of the three verdicts, is monotone in the
      amount and the market, and never masks an unauthorized agent; the write guard passes exactly on
      registered, writable networks of the claimed role, and every refusal has a truthful reason.
    - Authority: over every interleaving of broker segments a capability belongs to a request whose only
      verdict is ALLOW, is for the transaction that was evaluated, and has a nonce of its own; equal plan
      hashes mean equal executable content and equal scopes the same step of the same plan, or a
      collision is exhibited; a step runs exactly when all its conditions hold.
    - Exactly once: arrivals, idempotency keys, nonces, bridge requests and pairing codes.
    - Money: every sliding window of the ledger stays within the caps, and the blast radius shown for an
      agent bounds what it can spend.
    - Deployment: readiness only through verification, exactly when a send of unknown fate is retried, waits that end; a run
      sends only the approved calldata, each step once, and finishes when its world answers; what passes
      the approval check is what was approved, and verification passes exactly when every reading agrees.
    - Strategies and data: a compiled strategy launders no trust, types its units and is ordered; a
      requirement resolves to the best compatible adapter or to none.
    - Operation: the event log only grows, commands run once per key, the emergency lock attempts every
      step, alerts stay one per subject and close only with evidence.
    - The runtime: an accepted token was minted for this agent, deployment, image and gateway, and an
      issued one is accepted; requests stay within quota and rate; no intent is decided under a disabled
      policy; a replayed event is processed once.
    - The studio: what a build spends stays within its limits up to what calls used beyond their
      reservations, one idempotency key is one build, and the repair loop ends.
    - The workflow: what is reported is the verdict on the transaction's own calldata, nothing is approved
      without a context, and no secret leaves the enclave but through the commitment.
    - Design: a document is buildable exactly when it is sound, no wire of its picture bypasses the broker,
      a simulated execution is an authorized one, and the table of the built-in scenarios is proved.
    - The watched market: nothing but a read goes on the wire, a snapshot's hash binds what it says and it
      may be acted on exactly when it is coherent and young; a scenario changes what it names and nothing
      else; a transaction goes only to a fork whose anchor was verified, and the shadow agent never to a
      production chain.
    - The lab: authority is claimed exactly when the chain grants it and nothing forbids it, the policy is
      enabled last, a superseded runtime can do nothing, and of every attack it is said what stops it.
    - Boundaries: no URL with an unsafe address, no bridge call without a live session's permission, no
      published payload with a secret.

    Some theorems also state where the code stops short of its documentation (for instance the
    amount-insensitive risk score, thresholds that are not numbers, spellings of private IPv6 addresses, a
    recipient the policy never reads, a report hash that leaves the report out).

    ** Fuel and bounds

    [Deploy.Receipts.receiptLoop] and [finalityLoop] are loops over time: [waits_return] proves that
    [timeout / interval + 2] turns suffice when a turn takes at least the interval, and the orchestrator
    reports a wait that has not ended.  [Strategy.Compiler.settle] takes one pass per transform:
    [resolve_complete] proves that no more are needed.  [Orchestrator.Run.runSteps] takes the source's own
    bound on steps.  [JsonParse.value] takes twice the length of the text and one: [syntax_stringify]
    proves it enough for every printed value.  [Studio.Pipeline.repairLoop] runs a turn per repair the
    build has left and one: [repair_terminates].  [Egress.isPrivateFuel] is recursive on a shorter text:
    [isPrivateFuel_enough] proves that two calls suffice for every address.  [Shadow.Replay.search] takes
    the number of bits of the number of blocks and two: [resolve_terminates].  [Lab.Revisions.growAll]
    takes a turn per kind of revision and one: [markStale_spec].  Everything else is
    structural.  Amounts ([bigint]) are [Z] without bounds, as in the source; the bounds the source checks
    (2^128 in the adapter, for instance) are checked in the model.

    ** What is not modelled

    Message texts of errors and issues, only their codes and data; letter case outside ASCII.  Outside
    [Policy], [Workflow] and the cost comparisons of [Deploy], which round as [JsNum] does, numbers are taken
    for exact integers: those beyond 2^53 and, in hashed documents and bridge payloads, those that are not
    integers are not modelled.
    Cryptography, ABI encoding, URL parsing and name resolution are parameters.  A segment of the broker
    reads the clock once.  Objects are values: a caller that keeps a reference to a session or a
    permission list and changes it later is outside the model.  The Solidity contracts and the user
    interface are other languages.  In [Workflow] the documents are read with all their numbers
    and escapes; they are texts of characters up to U+00FF, and a text of the policy that has another one by
    an escape is reported as outside the model where it is kept or compared.  [Simulation]'s fixture hash is on bytes.  [Reality]'s [hash_binds] is for
    identifiers without an ampersand.  The fork provider's process and its node, and what a node or a
    source answers, are arguments.  Of an attack's differences the names of the fields are kept.

    Whole parts that are left out: the HTTP servers, databases, command lines and container or cloud
    drivers (input and output around the modelled parts); the generated project templates; the lab's other
    screens, the graphs and scenario catalogues of organizations and plans (texts and layouts for the user
    interface); telemetry; the deployment preflight, the import of OpenAPI documents with its transforms and
    response checks, the CRE scheduler, the fork service of the studio and the secret scan of the safety
    report, which decide something and have no model yet. *)

From Stdlib Require Export ZArith Lia.
From stdpp Require Export prelude gmap strings list.
From Stdlib Require Import Ascii.

(** ** Results of fallible code: a value, or the error the source throws *)

Inductive result (E A : Type) : Type :=
| Ok (a : A)
| Err (e : E).
Arguments Ok {E A} a.
Arguments Err {E A} e.

Declare Scope ctx_scope.
Delimit Scope ctx_scope with ctx.
Open Scope ctx_scope.

Definition rbind {E A B : Type} (m : result E A) (k : A -> result E B) : result E B :=
  match m with
  | Ok a => k a
  | Err e => Err e
  end.

Notation "'let*' x ':=' m 'in' k" := (rbind m (fun x => k))
  (at level 10, x name, m at level 100, k at level 200) : ctx_scope.
(** [if (c) throw e;] followed by the rest of the body. *)
Notation "'throw' e 'when' c ';;' k" := (if (c : bool) then Err e else k)
  (at level 10, e at level 99, c at level 99, k at level 200) : ctx_scope.

Definition is_ok {E A : Type} (r : result E A) : bool :=
  match r with Ok _ => true | Err _ => false end.

Lemma rbind_ok {E A B : Type} (m : result E A) (k : A -> result E B) (b : B) :
  rbind m k = Ok b <-> exists a, m = Ok a /\ k a = Ok b.
Proof. destruct m as [x|e]; simpl; naive_solver. Qed.

Lemma throw_ok {E A : Type} (c : bool) (e : E) (k : result E A) (a : A) :
  (throw e when c ;; k) = Ok a <-> c = false /\ k = Ok a.
Proof. destruct c; naive_solver. Qed.

Lemma throw_err {E A : Type} (c : bool) (e x : E) (k : result E A) :
  (throw e when c ;; k) = Err x <-> (c = true /\ e = x) \/ (c = false /\ k = Err x).
Proof. destruct c; naive_solver. Qed.

#[export] Instance result_eq_dec {E A : Type} `{EqDecision E, EqDecision A} : EqDecision (result E A).
Proof. solve_decision. Defined.

(** ** Strings: equality, case folding, prefixes, substrings *)

Definition streq (a b : string) : bool := String.eqb a b.

Lemma streq_true (a b : string) : streq a b = true <-> a = b.
Proof. apply String.eqb_eq. Qed.

Lemma streq_refl (a : string) : streq a a = true.
Proof. by apply streq_true. Qed.

Lemma streq_false (a b : string) : streq a b = false <-> a <> b.
Proof. apply String.eqb_neq. Qed.

(** [toLowerCase] on the ASCII range. *)
Definition ascii_lower (a : ascii) : ascii :=
  let n := N_of_ascii a in
  if ((65 <=? n) && (n <=? 90))%N then ascii_of_N (n + 32) else a.

Fixpoint to_lower (s : string) : string :=
  match s with
  | EmptyString => EmptyString
  | String a s' => String (ascii_lower a) (to_lower s')
  end.

(** [toUpperCase] on the ASCII range. *)
Definition ascii_upper (a : ascii) : ascii :=
  let n := N_of_ascii a in if ((97 <=? n) && (n <=? 122))%N then ascii_of_N (n - 32) else a.

Fixpoint to_upper (s : string) : string :=
  match s with
  | EmptyString => EmptyString
  | String a s' => String (ascii_upper a) (to_upper s')
  end.

Lemma ascii_lower_idemp (a : ascii) : ascii_lower (ascii_lower a) = ascii_lower a.
Proof. destruct a as [[] [] [] [] [] [] [] []]; reflexivity. Qed.

Lemma to_lower_idemp (s : string) : to_lower (to_lower s) = to_lower s.
Proof. induction s as [|a s IH]; simpl; [done|]. by rewrite ascii_lower_idemp, IH. Qed.

(** [s.split(".")]. *)
Fixpoint splitDot (s : string) : list string :=
  match s with
  | EmptyString => [""]
  | String c s' =>
      if Ascii.eqb c "." then "" :: splitDot s'
      else match splitDot s' with
           | [] => [String c ""]
           | u :: l => String c u :: l
           end
  end.

(** Case-insensitive equality, as the source compares addresses. *)
Definition eq_ci (a b : string) : bool := streq (to_lower a) (to_lower b).

Lemma eq_ci_true (a b : string) : eq_ci a b = true <-> to_lower a = to_lower b.
Proof. apply streq_true. Qed.

Lemma eq_ci_refl (a : string) : eq_ci a a = true.
Proof. by apply eq_ci_true. Qed.

Definition starts_with (p s : string) : bool := String.prefix p s.

(** [s.endsWith(suf)]. *)
Definition ends_with (suf s : string) : bool :=
  (String.length suf <=? String.length s)%nat &&
  streq (String.substring (String.length s - String.length suf) (String.length suf) s) suf.

(** Does [s] contain [p]? *)
Fixpoint str_contains (p s : string) : bool :=
  starts_with p s ||
  match s with
  | EmptyString => false
  | String _ s' => str_contains p s'
  end.

(** ** Lists: [includes], [find], [some], [every] *)

Definition includes {A : Type} `{EqDecision A} (l : list A) (x : A) : bool := bool_decide (x ∈ l).

Lemma includes_true {A : Type} `{EqDecision A} (l : list A) (x : A) : includes l x = true <-> x ∈ l.
Proof. apply bool_decide_eq_true. Qed.

Lemma includes_false {A : Type} `{EqDecision A} (l : list A) (x : A) : includes l x = false <-> x ∉ l.
Proof. apply bool_decide_eq_false. Qed.

Definition some {A : Type} (f : A -> bool) (l : list A) : bool := existsb f l.
Definition every {A : Type} (f : A -> bool) (l : list A) : bool := forallb f l.

Lemma some_true {A : Type} (f : A -> bool) (l : list A) :
  some f l = true <-> exists x, x ∈ l /\ f x = true.
Proof. unfold some. rewrite existsb_exists. by setoid_rewrite list_elem_of_In. Qed.

Lemma some_false {A : Type} (f : A -> bool) (l : list A) :
  some f l = false <-> forall x, x ∈ l -> f x = false.
Proof.
  split.
  - intros H x Hx. destruct (f x) eqn:E; [|done].
    enough (some f l = true) by congruence. apply some_true. eauto.
  - intros H. destruct (some f l) eqn:E; [|done].
    apply some_true in E as (x & Hx & Hf). by rewrite (H x Hx) in Hf.
Qed.

Lemma some_app {A : Type} (f : A -> bool) (l l' : list A) : some f (l ++ l') = some f l || some f l'.
Proof. apply existsb_app. Qed.

Lemma some_flat_map {A B : Type} (f : B -> bool) (g : A -> list B) (l : list A) :
  some f (flat_map g l) = false <-> forall x, x ∈ l -> some f (g x) = false.
Proof.
  induction l as [|a l IH]; simpl; [split; [by intros _ x ?%elem_of_nil|done]|].
  rewrite some_app, orb_false_iff, IH. setoid_rewrite elem_of_cons. naive_solver.
Qed.

Lemma every_true {A : Type} (f : A -> bool) (l : list A) :
  every f l = true <-> forall x, x ∈ l -> f x = true.
Proof. unfold every. rewrite forallb_forall. by setoid_rewrite list_elem_of_In. Qed.

Lemma every_false {A : Type} (f : A -> bool) (l : list A) :
  every f l = false <-> exists x, x ∈ l /\ f x = false.
Proof.
  induction l as [|a l IH]; simpl; [split; [done|intros (x & Hx & _); set_solver]|].
  destruct (f a) eqn:E; simpl.
  - fold (every f l). rewrite IH. split; intros (x & Hx & Hf); exists x; split; try done; [by right|].
    apply elem_of_cons in Hx as [->|Hx]; [congruence|done].
  - split; [|done]. intros _. exists a. split; [left|done].
Qed.

Lemma find_true {A : Type} (f : A -> bool) (l : list A) (x : A) :
  List.find f l = Some x -> x ∈ l /\ f x = true.
Proof. intros H. apply find_some in H as [H1 H2]. by rewrite <- list_elem_of_In in H1. Qed.

Lemma find_none_iff {A : Type} (f : A -> bool) (l : list A) :
  List.find f l = None <-> forall x, x ∈ l -> f x = false.
Proof.
  split.
  - intros H x Hx. apply list_elem_of_In in Hx. by apply (List.find_none f l H).
  - intros H. destruct (List.find f l) as [x|] eqn:E; [|done].
    apply find_true in E as [Hx Hf]. by rewrite (H x Hx) in Hf.
Qed.

Lemma NoDup_map_inj {A B : Type} (f : A -> B) (l : list A) x y :
  NoDup (map f l) -> x ∈ l -> y ∈ l -> f x = f y -> x = y.
Proof.
  intros Hnd Hx Hy E. apply list_elem_of_lookup in Hx as [i Hi], Hy as [j Hj].
  assert (i = j) as ->; [|congruence].
  apply (NoDup_lookup _ i j (f x) Hnd); rewrite list_lookup_fmap, ?Hi, ?Hj; simpl; congruence.
Qed.

Lemma flat_map_nil {A B : Type} (f : A -> list B) l : flat_map f l = [] <-> forall x, x ∈ l -> f x = [].
Proof.
  induction l as [|x l IH]; simpl; [by split; [intros _ x ?%not_elem_of_nil|]|]. setoid_rewrite elem_of_cons. split.
  - intros [H1 H2]%app_eq_nil y [->|Hy]; [done|by apply IH].
  - intros H. rewrite (H x), (proj2 IH) by auto. done.
Qed.

(** [if (c) out.push(x)] on a list of its own. *)
Definition flag {A : Type} (c : bool) (x : A) : list A := if c then [x] else [].
Lemma flag_nil {A : Type} c (x : A) : flag c x = [] <-> c = false.
Proof. by destruct c. Qed.

#[export] Hint Rewrite @rbind_ok @throw_ok : ctx.
#[export] Hint Rewrite andb_true_iff orb_true_iff negb_true_iff andb_false_iff orb_false_iff
  negb_false_iff : bool_prop.
#[export] Hint Rewrite streq_true streq_false eq_ci_true @includes_true @includes_false
  @some_true @every_true : bool_prop.
#[export] Hint Rewrite Z.leb_le Z.ltb_lt Z.eqb_eq Z.leb_gt Z.ltb_ge Z.eqb_neq : bool_prop.

(** Turn boolean guards in the context and goal into propositions. *)
Ltac bool_prop := autorewrite with bool_prop in *.

(** Split every [if] and [match] on a guard, closing the branches that disagree on a constructor. *)
Ltac split_guards :=
  repeat (case_match; simplify_eq/=; try done).
