(* ===== verification/JsNum.v ===== *)
(** * JavaScript numbers

    A [number] of the source is a finite rational, one of the two infinities or NaN.  Comparison,
    [Number.isFinite], [===] and [Math.floor] are exact; the sum and the multiple of finite numbers, and
    [Number] of a bigint, are rounded to binary64 ([toDouble]).  The two zeros are one, since nothing modelled
    tells them apart.  [toDouble_mono] and [jnum_exact] are what the theorems use of rounding. *)

From S2P Require Import Prelude.
From Stdlib Require Export QArith Qround.
From Stdlib Require Import Qpower Lqa.

Inductive jsnum : Type :=
| Fin (q : Q)
| PInf
| NInf
| NaN.
#[export] Instance Q_eq_dec : EqDecision Q.
Proof. solve_decision. Defined.
#[export] Instance jsnum_eq_dec : EqDecision jsnum.
Proof. solve_decision. Defined.

Definition jint (z : Z) : jsnum := Fin (inject_Z z).

(** ** Doubles

    Rounding to binary64: the nearest multiple of a power of two, ties to the even one, with 53 bits of precision down to the
    exponent -1074, and infinite from 2^1024. *)

Definition pow2 (e : Z) : Q := Qpower 2 e.

(** The exponent of the leading bit of a positive number. *)
Definition ilog2 (q : Q) : Z :=
  let k := (Z.log2 (Qnum q) - Z.log2 (Zpos (Qden q)))%Z in if Qle_bool (pow2 k) q then k else (k - 1)%Z.
(** The exponent of its last place. *)
Definition lastPlace (q : Q) : Z := Z.max (ilog2 q - 52) (-1074).

(** The nearest integer, of two the even one. *)
Definition nearest (q : Q) : Z :=
  let f := Qfloor q in
  match Qcompare (q - inject_Z f) (1 # 2) with
  | Lt => f
  | Gt => (f + 1)%Z
  | Eq => if Z.even f then f else (f + 1)%Z
  end.

Definition roundPos (q : Q) : Q := inject_Z (nearest (q / pow2 (lastPlace q))) * pow2 (lastPlace q).

Definition toDouble (q : Q) : jsnum :=
  match Qnum q with
  | Z0 => Fin 0
  | Zpos _ => let r := roundPos q in if Qle_bool (pow2 1024) r then PInf else Fin (Qred r)
  | Zneg _ => let r := roundPos (- q) in if Qle_bool (pow2 1024) r then NInf else Fin (Qred (- r))
  end.

Arguments toDouble : simpl never.

(** [Number] of a bigint. *)
Definition jnum (z : Z) : jsnum := toDouble (inject_Z z).

Definition isFinite (n : jsnum) : bool :=
  match n with Fin _ => true | _ => false end.

Definition Qltb (p q : Q) : bool := negb (Qle_bool q p).

(** [a < b]: false whenever either side is NaN. *)
Definition jlt (a b : jsnum) : bool :=
  match a, b with
  | Fin p, Fin q => Qltb p q
  | Fin _, PInf | NInf, Fin _ | NInf, PInf => true
  | _, _ => false
  end.

Definition jgt (a b : jsnum) : bool := jlt b a.

(** [a === b]: NaN is not equal to itself. *)
Definition jeqb (a b : jsnum) : bool :=
  match a, b with
  | Fin p, Fin q => Qeq_bool p q
  | PInf, PInf | NInf, NInf => true
  | _, _ => false
  end.

Definition jneg (a : jsnum) : jsnum :=
  match a with Fin q => Fin (- q)%Q | PInf => NInf | NInf => PInf | NaN => NaN end.

Definition jadd (a b : jsnum) : jsnum :=
  match a, b with
  | Fin p, Fin q => toDouble (p + q)%Q
  | NaN, _ | _, NaN | PInf, NInf | NInf, PInf => NaN
  | PInf, _ | _, PInf => PInf
  | NInf, _ | _, NInf => NInf
  end.

Definition jsub (a b : jsnum) : jsnum := jadd a (jneg b).

(** Multiplication by a positive constant [c]; division by 4 is [jscale (1#4)]. *)
Definition jscale (c : Q) (a : jsnum) : jsnum :=
  match a with Fin q => toDouble (c * q)%Q | _ => a end.

Definition jfloor (a : jsnum) : jsnum :=
  match a with Fin q => jint (Qfloor q) | _ => a end.

(** ** Rounding keeps the order *)

Local Open Scope Q_scope.

Lemma pow2_pos (e : Z) : (0 < pow2 e)%Q.
Proof. by apply Qpower_0_lt. Qed.
#[local] Hint Resolve pow2_pos : core.

Lemma pow2_add (a b : Z) : pow2 (a + b) == pow2 a * pow2 b.
Proof. by apply Qpower_plus. Qed.

Lemma pow2_le (a b : Z) : (a <= b)%Z -> (pow2 a <= pow2 b)%Q.
Proof. intros H. by apply Qpower_le_compat_l. Qed.

Lemma pow2_Z (a : Z) : (0 <= a)%Z -> inject_Z (2 ^ a) == pow2 a.
Proof. intros H. by apply Zpower_Qpower. Qed.

Lemma Qmake_div (n : Z) (d : positive) : n # d == inject_Z n / inject_Z (Zpos d).
Proof. apply Qmake_Qdiv. Qed.

Lemma log2_bounds (z : Z) : (0 < z)%Z -> (pow2 (Z.log2 z) <= inject_Z z < pow2 (Z.log2 z + 1))%Q.
Proof.
  intros Hz. pose proof (Z.log2_nonneg z). rewrite <- !pow2_Z by lia. rewrite <- Zle_Qle, <- Zlt_Qlt.
  apply Z.log2_spec in Hz. unfold Z.succ in Hz. lia.
Qed.

Lemma ilog2_spec (q : Q) : (0 < q)%Q -> (pow2 (ilog2 q) <= q < pow2 (ilog2 q + 1))%Q.
Proof.
  destruct q as [n d]. intros Hq. assert (0 < n)%Z as Hn by (unfold Qlt in Hq; simpl in Hq; lia).
  unfold ilog2. cbn [Qnum Qden]. set (a := Z.log2 n). set (b := Z.log2 (Zpos d)).
  destruct (log2_bounds n Hn) as [Ha Ha'], (log2_bounds (Zpos d) eq_refl) as [Hb Hb']. fold a in Ha, Ha'. fold b in Hb, Hb'.
  assert (n # d == inject_Z n / inject_Z (Zpos d)) as E by apply Qmake_div.
  assert (0 < inject_Z (Zpos d))%Q as Hd by done.
  pose proof (pow2_pos b). pose proof (pow2_pos (a - b - 1)). pose proof (pow2_pos (a - b + 1)).
  assert (pow2 (a - b - 1) <= n # d)%Q as Hlo.
  { rewrite E. apply Qle_shift_div_l; [done|]. apply Qle_trans with (pow2 (a - b - 1) * pow2 (b + 1))%Q; [nra|].
    rewrite <- pow2_add. by replace (a - b - 1 + (b + 1))%Z with a by lia. }
  assert (n # d < pow2 (a - b + 1))%Q as Hhi.
  { rewrite E. apply Qlt_shift_div_r; [done|]. apply Qlt_le_trans with (pow2 (a - b + 1) * pow2 b)%Q; [|nra].
    rewrite <- pow2_add. by replace (a - b + 1 + b)%Z with (a + 1)%Z by lia. }
  destruct (Qle_bool (pow2 (a - b)) (n # d)) eqn:T.
  - apply Qle_bool_iff in T. done.
  - split; [done|]. replace (a - b - 1 + 1)%Z with (a - b)%Z by lia. apply Qnot_le_lt. by rewrite <- Qle_bool_iff, T.
Qed.

Lemma ilog2_mono (p q : Q) : (0 < p)%Q -> (p <= q)%Q -> (ilog2 p <= ilog2 q)%Z.
Proof.
  intros Hp Hpq. destruct (ilog2_spec p Hp) as [H _], (ilog2_spec q ltac:(lra)) as [_ H'].
  apply Z.le_ngt. intros Hlt. pose proof (pow2_le (ilog2 q + 1) (ilog2 p) ltac:(lia)). lra.
Qed.

Lemma nearest_bounds (q : Q) : (Qfloor q <= nearest q <= Qfloor q + 1)%Z.
Proof. unfold nearest. destruct (Qcompare _ _); [destruct (Z.even _)|..]; lia. Qed.

Lemma nearest_mono (p q : Q) : (p <= q)%Q -> (nearest p <= nearest q)%Z.
Proof.
  intros H. pose proof (nearest_bounds p). pose proof (nearest_bounds q).
  destruct (Z.lt_ge_cases (Qfloor p) (Qfloor q)); [lia|].
  assert (Qfloor p = Qfloor q) as E by (apply Qfloor_resp_le in H; lia).
  unfold nearest. rewrite E. set (f := Qfloor q).
  destruct (Qcompare (p - inject_Z f) (1 # 2)) eqn:C; [apply Qeq_alt in C|apply Qlt_alt in C|apply Qgt_alt in C];
    (destruct (Qcompare (q - inject_Z f) (1 # 2)) eqn:D; [apply Qeq_alt in D|apply Qlt_alt in D|apply Qgt_alt in D]);
    try destruct (Z.even f); try lia; exfalso; lra.
Qed.

#[export] Instance nearest_proper : Proper (Qeq ==> eq) nearest.
Proof. intros p q E. apply Z.le_antisymm; apply nearest_mono; lra. Qed.

Lemma nearest_int (z : Z) : nearest (inject_Z z) = z.
Proof.
  unfold nearest. rewrite Qfloor_Z. destruct (Qcompare _ _) eqn:C; [apply Qeq_alt in C|done|apply Qgt_alt in C]; exfalso; lra.
Qed.

Lemma roundPos_mono (p q : Q) : (0 < p)%Q -> (p <= q)%Q -> (roundPos p <= roundPos q)%Q.
Proof.
  intros Hp Hpq. pose proof (ilog2_mono p q Hp Hpq) as Hl. unfold roundPos.
  set (u := lastPlace p). set (v := lastPlace q). pose proof (pow2_pos u). pose proof (pow2_pos v).
  assert (u <= v)%Z as Huv by (unfold u, v, lastPlace; lia).
  destruct (Z.eq_dec u v) as [->|Hne].
  - apply Qmult_le_compat_r; [|lra]. rewrite <- Zle_Qle. apply nearest_mono.
    apply Qmult_le_compat_r; [done|]. apply Qlt_le_weak. by apply Qinv_lt_0_compat.
  - (* a power of two lies between them *)
    destruct (ilog2_spec p Hp) as [_ H1], (ilog2_spec q ltac:(lra)) as [H2 _].
    assert (v = ilog2 q - 52)%Z as Ev by (unfold u, v, lastPlace in *; lia).
    assert (ilog2 p - 52 <= u)%Z as Eu by (unfold u, lastPlace; lia).
    apply Qle_trans with (pow2 (v + 52)).
    + replace (v + 52)%Z with (v + 52 - u + u)%Z by lia. rewrite pow2_add. apply Qmult_le_compat_r; [|lra].
      rewrite <- (pow2_Z (v + 52 - u)) by lia. rewrite <- Zle_Qle, <- (nearest_int (2 ^ _)). apply nearest_mono.
      apply Qle_shift_div_r; [done|]. rewrite pow2_Z, <- pow2_add by lia.
      pose proof (pow2_le (ilog2 p + 1) (v + 52 - u + u) ltac:(lia)). lra.
    + replace (v + 52)%Z with (52 + v)%Z by lia. rewrite pow2_add. apply Qmult_le_compat_r; [|lra].
      rewrite <- (pow2_Z 52) by lia. rewrite <- Zle_Qle, <- (nearest_int (2 ^ _)). apply nearest_mono.
      apply Qle_shift_div_l; [done|]. rewrite pow2_Z, <- pow2_add by lia.
      by replace (52 + v)%Z with (ilog2 q) by lia.
Qed.

Lemma roundPos_nonneg (q : Q) : (0 < q)%Q -> (0 <= roundPos q)%Q.
Proof.
  intros Hq. unfold roundPos. pose proof (pow2_pos (lastPlace q)). apply Qmult_le_0_compat; [|lra].
  change 0%Q with (inject_Z 0). rewrite <- Zle_Qle, <- (nearest_int 0). apply nearest_mono.
  apply Qle_shift_div_l; [done|]. change (0 * pow2 (lastPlace q) <= q)%Q. lra.
Qed.

(** A number with no bits below the last place is kept. *)
Lemma roundPos_exact (q : Q) (m : Z) : q / pow2 (lastPlace q) == inject_Z m -> roundPos q == q.
Proof.
  intros E. unfold roundPos. rewrite E, nearest_int, <- E. field. pose proof (pow2_pos (lastPlace q)). lra.
Qed.

(** ** The order used by the monotonicity arguments *)

(** [b] exceeds every threshold that [a] exceeds. *)
Definition jle (a b : jsnum) : Prop :=
  match a, b with
  | NInf, _ | NaN, _ => True
  | Fin p, Fin q => (p <= q)%Q
  | Fin _, PInf | PInf, PInf => True
  | _, _ => False
  end.

Lemma Qltb_lt (p q : Q) : Qltb p q = true <-> (p < q)%Q.
Proof.
  unfold Qltb. rewrite negb_true_iff, <- not_true_iff_false, Qle_bool_iff. lra.
Qed.

Lemma Qltb_ge (p q : Q) : Qltb p q = false <-> (q <= p)%Q.
Proof. unfold Qltb. by rewrite negb_false_iff, Qle_bool_iff. Qed.

#[export] Hint Rewrite Qltb_lt Qltb_ge : bool_prop.

Lemma jle_refl (a : jsnum) : jle a a.
Proof. destruct a; simpl; [lra|done..]. Qed.

(** A larger number exceeds every threshold a smaller one exceeds, NaN and infinities included. *)
Lemma jgt_mono (a b t : jsnum) : jle a b -> jgt a t = true -> jgt b t = true.
Proof.
  unfold jgt. destruct a as [p| | |], b as [q| | |], t as [r| | |]; simpl; try done.
  rewrite !Qltb_lt. lra.
Qed.

(** What the sign of the numerator says. *)
Variant signs (q : Q) : Z -> Prop :=
| SZero : q == 0 -> signs q 0
| SPos n : (0 < q)%Q -> signs q (Zpos n)
| SNeg n : (q < 0)%Q -> signs q (Zneg n).

Lemma sign_cases (q : Q) : signs q (Qnum q).
Proof. destruct q as [[|n|n] d]; constructor; unfold Qeq, Qlt; simpl; lia. Qed.

Lemma toDouble_mono (p q : Q) : (p <= q)%Q -> jle (toDouble p) (toDouble q).
Proof.
  intros H. unfold toDouble. destruct (sign_cases p) as [Hp|n Hp|n Hp], (sign_cases q) as [Hq|m Hq|m Hq]; cbv zeta.
  all: try (exfalso; lra).
  - simpl. lra.
  - pose proof (roundPos_nonneg q Hq). destruct (Qle_bool _ _); simpl; [done|]. by rewrite Qred_correct.
  - pose proof (roundPos_mono p q Hp H). destruct (Qle_bool _ (roundPos p)) eqn:E1, (Qle_bool _ (roundPos q)) eqn:E2; simpl; try done.
    + apply Qle_bool_iff in E1. apply not_true_iff_false in E2. rewrite Qle_bool_iff in E2. lra.
    + by rewrite !Qred_correct.
  - pose proof (roundPos_nonneg (- p) ltac:(lra)). destruct (Qle_bool _ _); simpl; [done|]. rewrite Qred_correct. lra.
  - pose proof (roundPos_nonneg (- p) ltac:(lra)). pose proof (roundPos_nonneg q Hq).
    destruct (Qle_bool _ _), (Qle_bool _ _); simpl; try done. rewrite !Qred_correct. lra.
  - pose proof (roundPos_mono (- q) (- p) ltac:(lra) ltac:(lra)).
    destruct (Qle_bool _ (roundPos (- p))) eqn:E1, (Qle_bool _ (roundPos (- q))) eqn:E2; simpl; try done.
    + apply Qle_bool_iff in E2. apply not_true_iff_false in E1. rewrite Qle_bool_iff in E1. lra.
    + rewrite !Qred_correct. lra.
Qed.

#[export] Instance toDouble_proper : Proper (Qeq ==> eq) toDouble.
Proof.
  intros p q E. unfold toDouble.
  assert (forall x y, x == y -> (0 < x)%Q -> roundPos x == roundPos y) as Hr.
  { intros x y Exy Hx. apply Qle_antisym; apply roundPos_mono; lra. }
  destruct (sign_cases p) as [Hp|n Hp|n Hp], (sign_cases q) as [Hq|m Hq|m Hq]; cbv zeta; try done; try (exfalso; lra).
  - pose proof (Hr p q E Hp) as R. rewrite (Qred_complete _ _ R). by rewrite R.
  - pose proof (Hr (- p)%Q (- q)%Q ltac:(lra) ltac:(lra)) as R.
    rewrite (Qred_complete (- roundPos (- p)) (- roundPos (- q))) by (by rewrite R). by rewrite R.
Qed.

Lemma jnum_mono (a b : Z) : (a <= b)%Z -> jle (jnum a) (jnum b).
Proof. intros H. apply toDouble_mono. by rewrite <- Zle_Qle. Qed.

(** Integers of at most 2^53 are doubles. *)
Lemma roundPos_int (z : Z) : (0 < z <= 2 ^ 53)%Z -> roundPos (inject_Z z) == inject_Z z.
Proof.
  intros Hz. set (u := lastPlace (inject_Z z)).
  assert (0 < inject_Z z)%Q as Hq by (change 0%Q with (inject_Z 0); rewrite <- Zlt_Qlt; lia).
  destruct (ilog2_spec _ Hq) as [H1 H2].
  assert (0 <= ilog2 (inject_Z z))%Z as H0.
  { apply Z.le_ngt. intros Hlt. pose proof (pow2_le (ilog2 (inject_Z z) + 1) 0 ltac:(lia)) as H. change (pow2 0) with (inject_Z 1) in H.
    assert (inject_Z z < inject_Z 1)%Q as H' by lra. rewrite <- Zlt_Qlt in H'. lia. }
  destruct (Z.le_gt_cases (ilog2 (inject_Z z)) 52) as [Hs|Hs].
  - assert (u <= 0)%Z as Hu by (unfold u, lastPlace; lia).
    apply (roundPos_exact _ (z * 2 ^ (- u))). fold u. rewrite inject_Z_mult, pow2_Z by lia.
    unfold pow2. rewrite Qpower_opp. by unfold Qdiv.
  - assert (z = 2 ^ 53)%Z as ->; [|by vm_compute].
    assert (pow2 53 <= pow2 (ilog2 (inject_Z z)))%Q as H by (apply pow2_le; lia).
    pose proof (Qle_trans _ _ _ H H1) as H'. rewrite <- (pow2_Z 53), <- Zle_Qle in H' by lia. lia.
Qed.

Lemma Qred_int (z : Z) : Qred (inject_Z z) = inject_Z z.
Proof.
  unfold Qred, inject_Z. pose proof (Z.ggcd_gcd z 1) as G. pose proof (Z.ggcd_correct_divisors z 1) as C.
  destruct (Z.ggcd z 1) as [g [a b]]. simpl in *. rewrite Z.gcd_1_r in G. subst g. f_equal; lia.
Qed.

Lemma jnum_exact (z : Z) : (Z.abs z <= 2 ^ 53)%Z -> jnum z = jint z.
Proof.
  intros Hz. unfold jnum, toDouble, jint. destruct (Z.compare_spec z 0) as [->|Hlt|Hgt]; [done| |].
  - destruct z as [|n|n]; [lia|lia|]. cbn [inject_Z Qnum]. cbv zeta.
    change (- (inject_Z (Zneg n)))%Q with (inject_Z (Zpos n)). change (- (Zneg n # 1))%Q with (inject_Z (Zpos n)).
    rewrite (roundPos_int (Zpos n)) by lia.
    destruct (Qle_bool _ _) eqn:E.
    + apply Qle_bool_iff in E. change (pow2 1024) with (pow2 (Z.of_N 1024)) in E. rewrite <- pow2_Z, <- Zle_Qle in E by done.
      pose proof (Z.pow_lt_mono_r 2 53 (Z.of_N 1024) ltac:(lia) ltac:(lia) ltac:(lia)). lia.
    + f_equal. rewrite (Qred_complete _ (inject_Z (Zneg n))) by (by rewrite roundPos_int by lia).
      apply Qred_int.
  - destruct z as [|n|n]; [lia| |lia]. cbn [inject_Z Qnum]. cbv zeta. change (Zpos n # 1) with (inject_Z (Zpos n)).
    rewrite (roundPos_int (Zpos n)) by lia.
    destruct (Qle_bool _ _) eqn:E.
    + apply Qle_bool_iff in E. change (pow2 1024) with (pow2 (Z.of_N 1024)) in E. rewrite <- pow2_Z, <- Zle_Qle in E by done.
      pose proof (Z.pow_lt_mono_r 2 53 (Z.of_N 1024) ltac:(lia) ltac:(lia) ltac:(lia)). lia.
    + f_equal. rewrite (Qred_complete _ (inject_Z (Zpos n))) by (by rewrite roundPos_int by lia).
      apply Qred_int.
Qed.

Lemma jadd_int (a b : Z) : (Z.abs (a + b) <= 2 ^ 53)%Z -> jadd (jint a) (jint b) = jint (a + b).
Proof. intros H. cbn [jadd jint]. rewrite <- jnum_exact by done. unfold jnum. by rewrite inject_Z_plus. Qed.

Lemma jsub_int (a b : Z) : (Z.abs (a - b) <= 2 ^ 53)%Z -> jsub (jint a) (jint b) = jint (a - b).
Proof. intros H. unfold jsub. change (jneg (jint b)) with (jint (- b)). by apply jadd_int. Qed.

Lemma jadd_mono (a b c d : jsnum) : jle a b -> jle c d -> jle (jadd a c) (jadd b d).
Proof. destruct a, b, c, d; simpl; try done; intros; try (apply toDouble_mono; lra); by destruct (toDouble _). Qed.

Lemma jscale_mono (k : Q) (a b : jsnum) : (0 <= k)%Q -> jle a b -> jle (jscale k a) (jscale k b).
Proof. destruct a, b; simpl; try done; intros; try (apply toDouble_mono; nra); by destruct (toDouble _). Qed.

Lemma jfloor_mono (a b : jsnum) : jle a b -> jle (jfloor a) (jfloor b).
Proof.
  destruct a, b; simpl; try done. intros H. rewrite <- Zle_Qle. by apply Qfloor_resp_le.
Qed.

Lemma jint_mono (a b : Z) : (a <= b)%Z -> jle (jint a) (jint b).
Proof. simpl. by rewrite <- Zle_Qle. Qed.

Lemma jgt_fin (p q : Q) : jgt (Fin p) (Fin q) = false <-> (p <= q)%Q.
Proof. apply Qltb_ge. Qed.

Lemma jlt_fin (p q : Q) : jlt (Fin p) (Fin q) = false <-> (q <= p)%Q.
Proof. apply Qltb_ge. Qed.

(** A third, a tie, the largest double and what is beyond it, and the smallest. *)
Example doubles :
  toDouble (1 # 3) = Fin (6004799503160661 # 18014398509481984) /\ jnum 9007199254740993 = jint 9007199254740992 /\
  jnum 9007199254740995 = jint 9007199254740996 /\ jnum (2 ^ 1024 - 2 ^ 970) = PInf /\
  jnum (2 ^ 1024 - 2 ^ 970 - 1) = jint (2 ^ 1024 - 2 ^ 971) /\ toDouble (Qpower 2 (-1075)) = Fin 0 /\
  toDouble (- (3 # 1) * Qpower 2 (-1075)) = Fin (Qred (- Qpower 2 (-1073))).
Proof. repeat split; vm_compute; reflexivity. Qed.

#[export] Hint Resolve jle_refl jgt_mono jadd_mono jscale_mono jfloor_mono jint_mono jnum_mono : jsnum.
