(* ===== verification/Regex.v ===== *)
(** * Anchored regular expressions

    The source validates identifiers with anchored expressions ([/^...$/]) and classifies names
    with unanchored case-insensitive ones.  An expression is matched here by Brzozowski
    derivatives, and [matches_lang] states that this decides the language the expression
    denotes. *)

From S2P Require Import Prelude.
From Stdlib Require Import Ascii.

Inductive re : Type :=
| Void
| Eps
| Chr (p : ascii -> bool)
| Cat (a b : re)
| Alt (a b : re)
| Star (a : re).

(** The words an expression denotes. *)
Inductive lang : re -> string -> Prop :=
| lang_eps : lang Eps EmptyString
| lang_chr p c : p c = true -> lang (Chr p) (String c EmptyString)
| lang_cat a b u v : lang a u -> lang b v -> lang (Cat a b) (u +:+ v)
| lang_alt_l a b u : lang a u -> lang (Alt a b) u
| lang_alt_r a b u : lang b u -> lang (Alt a b) u
| lang_star_nil a : lang (Star a) EmptyString
| lang_star_cons a u v : lang a u -> lang (Star a) v -> lang (Star a) (u +:+ v).
#[export] Hint Constructors lang : regex.

(** Constructors that drop [Void] and [Eps], so that derivatives stay small. *)
Definition cat (a b : re) : re :=
  match a, b with
  | Void, _ | _, Void => Void
  | Eps, _ => b
  | _, _ => Cat a b
  end.
Definition alt (a b : re) : re :=
  match a, b with
  | Void, _ => b
  | _, Void => a
  | _, _ => Alt a b
  end.

Fixpoint nullable (r : re) : bool :=
  match r with
  | Void | Chr _ => false
  | Eps | Star _ => true
  | Cat a b => nullable a && nullable b
  | Alt a b => nullable a || nullable b
  end.

Fixpoint deriv (c : ascii) (r : re) : re :=
  match r with
  | Void | Eps => Void
  | Chr p => if p c then Eps else Void
  | Cat a b => if nullable a then alt (cat (deriv c a) b) (deriv c b) else cat (deriv c a) b
  | Alt a b => alt (deriv c a) (deriv c b)
  | Star a => cat (deriv c a) (Star a)
  end.

Fixpoint matches (r : re) (s : string) : bool :=
  match s with
  | EmptyString => nullable r
  | String c s' => matches (deriv c r) s'
  end.

(** ** Building blocks *)

Definition chr (c : ascii) : re := Chr (Ascii.eqb c).
Definition range (lo hi : ascii) (c : ascii) : bool :=
  (N_of_ascii lo <=? N_of_ascii c)%N && (N_of_ascii c <=? N_of_ascii hi)%N.
Fixpoint lit (s : string) : re :=
  match s with EmptyString => Eps | String c s' => Cat (chr c) (lit s') end.
Fixpoint rep (n : nat) (r : re) : re :=
  match n with O => Eps | S n' => Cat r (rep n' r) end.
Definition plus (r : re) : re := Cat r (Star r).

Definition is_digit (c : ascii) : bool := range "0" "9" c.
Definition is_hex (c : ascii) : bool := is_digit c || range "a" "f" c.
Definition is_hex_ci (c : ascii) : bool := is_hex c || range "A" "F" c.
Definition is_lower_alnum (c : ascii) : bool := is_digit c || range "a" "z" c.

(** ** Correctness of the matcher *)

Lemma lang_void s : lang Void s <-> False.
Proof. split; [inversion 1|done]. Qed.

Lemma lang_Eps s : lang Eps s <-> s = EmptyString.
Proof. split; [by inversion 1|by intros ->; constructor]. Qed.

Lemma lang_Alt a b s : lang (Alt a b) s <-> lang a s \/ lang b s.
Proof. split; [inversion 1; auto|intros [?|?]; auto with regex]. Qed.

Lemma lang_Cat a b s : lang (Cat a b) s <-> exists u v, s = u +:+ v /\ lang a u /\ lang b v.
Proof. split; [inversion 1; eauto|intros (u & v & -> & ? & ?); by constructor]. Qed.

Lemma str_app_cons c (u v : string) : String c u +:+ v = String c (u +:+ v).
Proof. reflexivity. Qed.

Lemma str_app_nil (v : string) : EmptyString +:+ v = v.
Proof. reflexivity. Qed.

Lemma str_app_empty (u v : string) : EmptyString = u +:+ v -> u = EmptyString /\ v = EmptyString.
Proof. destruct u; rewrite ?str_app_nil, ?str_app_cons; [auto|done]. Qed.

Lemma lang_cat_void_l b s : lang (Cat Void b) s <-> lang Void s.
Proof. rewrite lang_Cat, lang_void. setoid_rewrite lang_void. naive_solver. Qed.

Lemma lang_cat_void_r a s : lang (Cat a Void) s <-> lang Void s.
Proof. rewrite lang_Cat, lang_void. setoid_rewrite lang_void. naive_solver. Qed.

Lemma lang_cat_eps_l b s : lang (Cat Eps b) s <-> lang b s.
Proof.
  rewrite lang_Cat. setoid_rewrite lang_Eps. split.
  - by intros (u & v & -> & -> & Hv).
  - intros H. by exists EmptyString, s.
Qed.

Lemma lang_cat_smart a b s : lang (cat a b) s <-> lang (Cat a b) s.
Proof.
  destruct a, b; try reflexivity; simpl; symmetry;
    first [apply lang_cat_void_l|apply lang_cat_void_r|apply lang_cat_eps_l].
Qed.

Lemma lang_alt_smart a b s : lang (alt a b) s <-> lang (Alt a b) s.
Proof. destruct a, b; try reflexivity; rewrite lang_Alt; simpl; rewrite ?lang_void; tauto. Qed.

Lemma nullable_lang r : nullable r = true <-> lang r EmptyString.
Proof.
  induction r as [| | |a IHa b IHb|a IHa b IHb|a IHa]; simpl.
  - by rewrite lang_void.
  - split; [constructor|done].
  - split; [done|inversion 1].
  - rewrite andb_true_iff, IHa, IHb, lang_Cat. split.
    + intros [??]. by exists EmptyString, EmptyString.
    + intros (u & v & E & ? & ?). apply str_app_empty in E as [-> ->]. done.
  - by rewrite orb_true_iff, IHa, IHb, lang_Alt.
  - split; [constructor|done].
Qed.

Lemma star_inv a s :
  lang (Star a) s -> s = EmptyString \/
  exists c u v, s = String c (u +:+ v) /\ lang a (String c u) /\ lang (Star a) v.
Proof.
  remember (Star a) as r eqn:Er. induction 1 as [| | | | | |a' u v Hu _ Hv IHv]; try done; [by left|].
  injection Er as ->. destruct u as [|c u].
  - by apply IHv.
  - right. by exists c, u, v.
Qed.

Lemma deriv_lang c r s : lang (deriv c r) s <-> lang r (String c s).
Proof.
  revert s. induction r as [| |p|a IHa b IHb|a IHa b IHb|a IHa]; intros s; simpl.
  - by rewrite !lang_void.
  - rewrite lang_void, lang_Eps. done.
  - destruct (p c) eqn:E; [rewrite lang_Eps|rewrite lang_void]; split.
    + intros ->. by constructor.
    + by inversion 1.
    + done.
    + inversion 1; congruence.
  - assert (forall s, lang (cat (deriv c a) b) s <->
              exists u v, s = u +:+ v /\ lang a (String c u) /\ lang b v) as Hcat.
    { intros s'. rewrite lang_cat_smart, lang_Cat. by setoid_rewrite IHa. }
    rewrite lang_Cat. destruct (nullable a) eqn:E.
    + rewrite lang_alt_smart, lang_Alt, Hcat, IHb. apply nullable_lang in E. split.
      * intros [(u & v & -> & ? & ?)|?]; [by exists (String c u), v|by exists EmptyString, (String c s)].
      * intros ([|c' u] & v & Es & ? & ?); rewrite ?str_app_cons, ?str_app_nil in Es; simplify_eq;
          [by right|left; eauto].
    + rewrite Hcat. split.
      * intros (u & v & -> & ? & ?). by exists (String c u), v.
      * intros ([|c' u] & v & Es & Hu & ?); rewrite ?str_app_cons, ?str_app_nil in Es; simplify_eq; [|eauto].
        apply nullable_lang in Hu. congruence.
  - by rewrite lang_alt_smart, !lang_Alt, IHa, IHb.
  - rewrite lang_cat_smart, lang_Cat. setoid_rewrite IHa. split.
    + intros (u & v & -> & ? & ?). by apply (lang_star_cons a (String c u) v).
    + intros H. apply star_inv in H as [?|(c' & u & v & E & ? & ?)]; simplify_eq. eauto.
Qed.

Lemma matches_lang r s : matches r s = true <-> lang r s.
Proof.
  revert r. induction s as [|c s IH]; intros r; simpl; [apply nullable_lang|].
  by rewrite IH, deriv_lang.
Qed.

Lemma lang_Chr p s : lang (Chr p) s <-> exists c, s = String c EmptyString /\ p c = true.
Proof. split; [inversion 1; eauto|intros (c & -> & ?); by constructor]. Qed.

Lemma lang_lit w s : lang (lit w) s <-> s = w.
Proof.
  revert s. induction w as [|c w IH]; intros s; simpl; [apply lang_Eps|].
  rewrite lang_Cat. unfold chr. setoid_rewrite lang_Chr. setoid_rewrite IH. split.
  - intros (u & v & -> & (c' & -> & E) & ->). by apply Ascii.eqb_eq in E as ->.
  - intros ->. exists (String c EmptyString), w. split_and!; [done|..|done].
    exists c. split; [done|]. apply Ascii.eqb_refl.
Qed.

Fixpoint all_chars (p : ascii -> bool) (s : string) : bool :=
  match s with EmptyString => true | String c s' => p c && all_chars p s' end.

Lemma lang_rep_chr n p s :
  lang (rep n (Chr p)) s <-> String.length s = n /\ all_chars p s = true.
Proof.
  revert s. induction n as [|n IH]; intros s; simpl.
  - rewrite lang_Eps. destruct s; simpl; naive_solver.
  - rewrite lang_Cat. setoid_rewrite IH. setoid_rewrite lang_Chr. split.
    + intros (u & v & -> & (c & -> & Hc) & <- & Hv). rewrite str_app_cons, str_app_nil. simpl. by rewrite Hc, Hv.
    + destruct s as [|c s]; simpl; [by intros []|]. intros [[= <-] H].
      apply andb_true_iff in H as [Hc Hs]. exists (String c EmptyString), s.
      split_and!; [done|by exists c|done|done].
Qed.

(** *** The characters of the words of an expression *)

Definition all_ascii : list ascii := map ascii_of_nat (seq 0 256).

Lemma all_ascii_elem (c : ascii) : c ∈ all_ascii.
Proof.
  apply list_elem_of_In, in_map_iff. exists (nat_of_ascii c). split; [apply ascii_nat_embedding|].
  apply in_seq. pose proof (nat_ascii_bounded c). lia.
Qed.

(** Decide a property of characters by testing all 256. *)
Lemma ascii_forall (p : ascii -> bool) : forallb p all_ascii = true -> forall c, p c = true.
Proof. rewrite forallb_forall. intros H c. apply H. rewrite <- list_elem_of_In. apply all_ascii_elem. Qed.

Fixpoint re_within (p : ascii -> bool) (r : re) : bool :=
  match r with
  | Void | Eps => true
  | Chr q => forallb (fun c => implb (q c) (p c)) all_ascii
  | Cat a b | Alt a b => re_within p a && re_within p b
  | Star a => re_within p a
  end.

Lemma all_chars_app p u v : all_chars p (u +:+ v) = all_chars p u && all_chars p v.
Proof.
  induction u as [|c u IH]; [by rewrite str_app_nil|]. rewrite str_app_cons. cbn [all_chars]. rewrite IH.
  by destruct (p c).
Qed.

Lemma re_chars p r s : lang r s -> re_within p r = true -> all_chars p s = true.
Proof.
  induction 1 as [|q c Hc| | | | |]; cbn [re_within]; rewrite ?andb_true_iff; try done; try tauto.
  - intros H. apply (ascii_forall _) with (c := c) in H. rewrite Hc in H. simpl in *. by rewrite H.
  - intros [Ha Hb]. rewrite all_chars_app. by rewrite IHlang1, IHlang2.
  - intros Ha. rewrite all_chars_app. by rewrite IHlang1, IHlang2.
Qed.

Lemma matched_chars p r s : re_within p r = true -> matches r s = true -> all_chars p s = true.
Proof. intros Hw Hm. exact (re_chars p r s (proj1 (matches_lang r s) Hm) Hw). Qed.

(** [[a-z][a-z0-9-]{lo,hi}] and the like: a first class, then [lo] to [hi] of a second. *)
Fixpoint upTo (n : nat) (r : re) : re :=
  match n with O => Eps | S n' => Alt Eps (Cat r (upTo n' r)) end.
Definition repBetween (lo hi : nat) (r : re) : re := Cat (rep lo r) (upTo (hi - lo) r).
Definition lower (c : ascii) : bool := range "a" "z" c.
Definition upper (c : ascii) : bool := range "A" "Z" c.

(** ** Texts without a dot *)

Definition dotless (c : ascii) : bool := negb (Ascii.eqb c ".").

Lemma splitDot_app u : all_chars dotless u = true -> forall v, splitDot (u +:+ String "." v) = u :: splitDot v.
Proof.
  intros Hu v. induction u as [|c u IH]; [by rewrite str_app_nil|]. rewrite str_app_cons. simpl in *.
  apply andb_true_iff in Hu as [Hc Hu]. rewrite (IH Hu). unfold dotless in Hc. by destruct (Ascii.eqb c ".").
Qed.

Lemma splitDot_dotless u : all_chars dotless u = true -> splitDot u = [u].
Proof.
  induction u as [|c u IH]; simpl; [done|]. intros [Hc Hu]%andb_true_iff. rewrite (IH Hu).
  unfold dotless in Hc. by destruct (Ascii.eqb c ".").
Qed.

Lemma all_chars_impl (p q : ascii -> bool) u : (forall c, p c = true -> q c = true) -> all_chars p u = true -> all_chars q u = true.
Proof.
  intros H. induction u as [|c u IH]; simpl; [done|]. intros [Hc Hu]%andb_true_iff. by rewrite (H _ Hc), IH.
Qed.

Lemma digit_dotless c : is_digit c = true -> dotless c = true.
Proof. unfold dotless. destruct (Ascii.eqb_spec c "."); [by subst|done]. Qed.

(** ** Texts inside texts *)

Lemma starts_with_iff p s : starts_with p s = true <-> exists v, s = p +:+ v.
Proof.
  unfold starts_with. revert s. induction p as [|c p IH]; intros s; [split; [by exists s|by destruct s]|].
  destruct s as [|d s]; cbn [String.prefix].
  - split; [done|]. intros (v & E). by rewrite str_app_cons in E.
  - destruct (ascii_dec c d) as [->|Hn].
    + rewrite IH. split; intros (v & E); exists v; rewrite str_app_cons in *; congruence.
    + split; [done|]. intros (v & E). rewrite str_app_cons in E. congruence.
Qed.

Lemma str_contains_iff p s : str_contains p s = true <-> exists u v, s = u +:+ p +:+ v.
Proof.
  induction s as [|c s IH]; cbn [str_contains]; rewrite orb_true_iff, starts_with_iff.
  - split; [intros [(v & E)|H]; [by exists "", v|done]|].
    intros (u & v & E). left. destruct (str_app_empty _ _ E) as [_ E']. by exists v.
  - rewrite IH. split.
    + intros [(v & E)|(u & v & E)]; [by exists "", v|]. exists (String c u), v. by rewrite str_app_cons, E.
    + intros ([|d u] & v & E); [left; by exists v|]. right. exists u, v. rewrite str_app_cons in E. congruence.
Qed.
