(* ===== verification/Json.v ===== *)
(** * JavaScript values, JSON text and canonical serialization

    The hashes of the source are taken over a canonical text: keys sorted at every level, no
    whitespace.  [jsv] is a value as the program holds it ([undefined] and bigints included),
    [json] a value [JSON.stringify] prints.  Object properties are a list in property order.
    Strings are byte strings, so key order is by code unit and every character up to U+00FF is
    covered; numbers are the integers (the schemas of the hashed documents only admit integers).

    [stringify_inj] states that the printed text determines the value, and
    [normalize_perm] that sorting makes the order of the properties irrelevant. *)

From S2P Require Import Prelude Regex.
From stdpp Require Import pretty sorting.
From Stdlib Require Import Ascii.

Inductive jsv : Type :=
| VNull
| VUndef
| VBool (b : bool)
| VNum (n : Z)
| VBig (n : Z)
| VStr (s : string)
| VArr (l : list jsv)
| VObj (l : list (string * jsv)).

Inductive json : Type :=
| JNull
| JBool (b : bool)
| JNum (n : Z)
| JStr (s : string)
| JArr (l : list json)
| JObj (l : list (string * json)).

(** ** [JSON.stringify] *)

Definition hex_digit (n : N) : ascii :=
  ascii_of_N (if (n <? 10)%N then n + 48 else n + 87)%N.

(** One character of a JSON string literal. *)
Definition escape_char (c : ascii) : string :=
  let n := N_of_ascii c in
  if (n =? 34)%N then String "\" (String c EmptyString)
  else if (n =? 92)%N then "\\"
  else if (n =? 8)%N then "\b"
  else if (n =? 9)%N then "\t"
  else if (n =? 10)%N then "\n"
  else if (n =? 12)%N then "\f"
  else if (n =? 13)%N then "\r"
  else if (n <? 32)%N then
    "\u00" +:+ String (hex_digit (n / 16)) (String (hex_digit (n mod 16)) EmptyString)
  else String c EmptyString.

Fixpoint escape (s : string) : string :=
  match s with
  | EmptyString => EmptyString
  | String c s' => escape_char c +:+ escape s'
  end.

Definition dquote : ascii := ascii_of_N 34.
Definition quoted (s : string) : string := String dquote (escape s +:+ String dquote EmptyString).

Fixpoint commas (l : list string) : string :=
  match l with
  | [] => EmptyString
  | [x] => x
  | x :: l' => x +:+ "," +:+ commas l'
  end.

Fixpoint stringify (v : json) : string :=
  match v with
  | JNull => "null"
  | JBool true => "true"
  | JBool false => "false"
  | JNum n => pretty n
  | JStr s => quoted s
  | JArr l => "[" +:+ commas (map stringify l) +:+ "]"
  | JObj l => "{" +:+ commas (map (fun '(k, v) => quoted k +:+ ":" +:+ stringify v) l) +:+ "}"
  end.

(** ** Key order *)

Fixpoint str_leb (s t : string) : bool :=
  match s, t with
  | EmptyString, _ => true
  | String _ _, EmptyString => false
  | String a s', String b t' =>
      (N_of_ascii a <? N_of_ascii b)%N || ((N_of_ascii a =? N_of_ascii b)%N && str_leb s' t')
  end.

Definition key_le {A : Type} (p q : string * A) : Prop := str_leb p.1 q.1 = true.
#[export] Instance key_le_dec {A : Type} : RelDecision (@key_le A).
Proof. unfold key_le. intros p q. apply _. Defined.

(** [Object.keys(o).sort()], the values carried along. *)
Definition sortKeys {A : Type} (l : list (string * A)) : list (string * A) := merge_sort key_le l.

(** A canonical array index: its decimal value, below 2^32 - 1, without leading zeros. *)
Fixpoint decimal (acc : N) (s : string) : option N :=
  match s with
  | EmptyString => Some acc
  | String c s' =>
      if is_digit c then decimal (10 * acc + (N_of_ascii c - 48)) s' else None
  end.
Definition arrayIndex (k : string) : option N :=
  match k with
  | EmptyString => None
  | String c s' =>
      if Ascii.eqb c "0" && negb (streq s' EmptyString) then None
      else match decimal 0 k with
           | Some n => if (n <? 4294967295)%N then Some n else None
           | None => None
           end
  end.

Definition is_index {A : Type} (p : string * A) : bool :=
  match arrayIndex p.1 with Some _ => true | None => false end.
Definition index_le {A : Type} (p q : string * A) : Prop :=
  (default 0 (arrayIndex p.1) <= default 0 (arrayIndex q.1))%N.
#[export] Instance index_le_dec {A : Type} : RelDecision (@index_le A).
Proof. unfold index_le. intros p q. apply _. Defined.

(** The property order of an object whose properties were added in the order of [l]: array
    indices first, in ascending order, then the other keys as added. *)
Definition propertyOrder {A : Type} (l : list (string * A)) : list (string * A) :=
  merge_sort index_le (List.filter is_index l) ++ List.filter (fun p => negb (is_index p)) l.

(** ** Sorting is canonical *)

Lemma str_leb_total s t : str_leb s t = true \/ str_leb t s = true.
Proof.
  revert t. induction s as [|a s IH]; intros [|b t]; simpl; auto.
  destruct (N.lt_trichotomy (N_of_ascii a) (N_of_ascii b)) as [H|[H|H]].
  - left. by apply orb_true_iff; left; apply N.ltb_lt.
  - rewrite H, N.ltb_irrefl, N.eqb_refl. simpl. apply IH.
  - right. by apply orb_true_iff; left; apply N.ltb_lt.
Qed.

Lemma str_leb_cons a b s t :
  str_leb (String a s) (String b t) = true <->
  (N_of_ascii a < N_of_ascii b)%N \/ (N_of_ascii a = N_of_ascii b /\ str_leb s t = true).
Proof. simpl. by rewrite orb_true_iff, andb_true_iff, N.ltb_lt, N.eqb_eq. Qed.

Lemma str_leb_trans s t u : str_leb s t = true -> str_leb t u = true -> str_leb s u = true.
Proof.
  revert t u. induction s as [|a s IH]; intros [|b t] [|c u]; try done.
  rewrite !str_leb_cons. intros [?|[? ?]] [?|[? ?]]; [left; lia..|right].
  split; [congruence|]. by eapply IH.
Qed.

Lemma str_leb_antisym s t : str_leb s t = true -> str_leb t s = true -> s = t.
Proof.
  revert t. induction s as [|a s IH]; intros [|b t]; try done.
  rewrite !str_leb_cons. intros [?|[? ?]] [?|[? ?]]; try lia.
  f_equal; [|by apply IH]. rewrite <- (ascii_N_embedding a), <- (ascii_N_embedding b). congruence.
Qed.

#[export] Instance key_le_trans {A : Type} : Transitive (@key_le A).
Proof. intros p q r. apply str_leb_trans. Qed.
#[export] Instance key_le_total {A : Type} : Total (@key_le A).
Proof. intros p q. apply str_leb_total. Qed.
#[export] Instance index_le_trans {A : Type} : Transitive (@index_le A).
Proof. intros p q r. unfold index_le. lia. Qed.
#[export] Instance index_le_total {A : Type} : Total (@index_le A).
Proof. intros p q. unfold index_le. lia. Qed.

(** [Array.prototype.sort] on strings: by code unit. *)
Definition str_le (s t : string) : Prop := str_leb s t = true.
#[export] Instance str_le_dec : RelDecision str_le.
Proof. intros s t. unfold str_le. apply _. Defined.

#[export] Instance str_le_total : Total str_le.
Proof. intros s t. apply str_leb_total. Qed.
#[export] Instance str_le_trans : Transitive str_le.
Proof. intros s t u. apply str_leb_trans. Qed.
#[export] Instance str_le_antisymm : AntiSymm (=) str_le.
Proof. intros s t. apply str_leb_antisym. Qed.

(** Two listings of the same strings sort to the same list. *)
Lemma sort_strings_perm (l l' : list string) : l ≡ₚ l' -> merge_sort str_le l = merge_sort str_le l'.
Proof.
  intros Hp. apply (StronglySorted_unique str_le).
  - apply StronglySorted_merge_sort; apply _.
  - apply StronglySorted_merge_sort; apply _.
  - by rewrite !merge_sort_Permutation.
Qed.

Lemma sortKeys_perm {A : Type} (l : list (string * A)) : sortKeys l ≡ₚ l.
Proof. apply merge_sort_Permutation. Qed.

Lemma NoDup_keys_inj {A : Type} (l : list (string * A)) p q :
  NoDup l.*1 -> p ∈ l -> q ∈ l -> p.1 = q.1 -> p = q.
Proof.
  intros Hnd Hp Hq E. apply list_elem_of_lookup in Hp as [i Hi], Hq as [j Hj].
  assert (i = j) as ->.
  { apply (NoDup_lookup l.*1 i j p.1); [done|..]; rewrite list_lookup_fmap, ?Hi, ?Hj; simpl;
      congruence. }
  congruence.
Qed.

(** Two listings of the same properties sort to the same list. *)
Lemma sortKeys_canonical {A : Type} (l l' : list (string * A)) :
  NoDup l.*1 -> l ≡ₚ l' -> sortKeys l = sortKeys l'.
Proof.
  intros Hnd Hp. apply (StronglySorted_unique_strong key_le).
  - intros p q Hpin Hqin Hpq Hqp. unfold sortKeys in *.
    rewrite merge_sort_Permutation in Hpin, Hqin. rewrite <- Hp in Hqin.
    eapply NoDup_keys_inj; [done..|]. by apply str_leb_antisym.
  - apply Sorted_StronglySorted; [apply _|]. apply Sorted_merge_sort; apply _.
  - apply Sorted_StronglySorted; [apply _|]. apply Sorted_merge_sort; apply _.
  - by rewrite !sortKeys_perm.
Qed.

Lemma filter_split {A : Type} (f : A -> bool) (l : list A) :
  List.filter f l ++ List.filter (fun x => negb (f x)) l ≡ₚ l.
Proof.
  induction l as [|x l IH]; simpl; [done|]. destruct (f x); simpl; [by rewrite IH|].
  by rewrite <- Permutation_middle, IH.
Qed.

Lemma propertyOrder_perm {A : Type} (l : list (string * A)) : propertyOrder l ≡ₚ l.
Proof. unfold propertyOrder. rewrite merge_sort_Permutation. apply filter_split. Qed.

(** Looking a property up by its key. *)
Fixpoint getKey {A : Type} (k : string) (l : list (string * A)) : option A :=
  match l with
  | [] => None
  | (k', v) :: l' => if streq k k' then Some v else getKey k l'
  end.

(** [Map.set]: in the place of the key's entry, or at the end. *)
Fixpoint mapSet {A : Type} (k : string) (v : A) (l : list (string * A)) : list (string * A) :=
  match l with
  | [] => [(k, v)]
  | p :: l' => if streq k p.1 then (p.1, v) :: l' else p :: mapSet k v l'
  end.

(** [Map.delete]. *)
Definition delKey {A : Type} (k : string) (l : list (string * A)) : list (string * A) := List.filter (fun p => negb (streq p.1 k)) l.

Lemma getKey_mapSet {A : Type} k k' (v : A) l : getKey k (mapSet k' v l) = if streq k k' then Some v else getKey k l.
Proof.
  induction l as [|[x w] l IH]; simpl; [done|]. destruct (streq k' x) eqn:E; simpl.
  - apply streq_true in E as <-. by destruct (streq k k').
  - rewrite IH. destruct (streq k x) eqn:Ex; [|done]. apply streq_true in Ex as ->.
    destruct (streq x k') eqn:E'; [|done]. apply streq_true in E' as ->. by rewrite streq_refl in E.
Qed.

Lemma getKey_delKey {A : Type} k k' (l : list (string * A)) : getKey k (delKey k' l) = if streq k k' then None else getKey k l.
Proof.
  induction l as [|[x v] l IH]; simpl; [by destruct (streq k k')|]. destruct (streq x k') eqn:E; simpl; rewrite IH.
  - apply streq_true in E as ->. by destruct (streq k k').
  - destruct (streq k x) eqn:Ex; [|done]. apply streq_true in Ex as ->. by rewrite E.
Qed.

Lemma getKey_elem {A : Type} (k : string) (l : list (string * A)) (v : A) :
  getKey k l = Some v -> (k, v) ∈ l.
Proof.
  induction l as [|[k' v'] l IH]; simpl; [done|]. destruct (streq k k') eqn:E.
  - apply streq_true in E as ->. intros [= ->]. left.
  - intros H. right. auto.
Qed.

Lemma getKey_Some {A : Type} (k : string) (l : list (string * A)) (v : A) :
  NoDup l.*1 -> getKey k l = Some v <-> (k, v) ∈ l.
Proof.
  intros Hnd. split; [apply getKey_elem|]. induction l as [|[k' v'] l IH]; simpl; [set_solver|].
  apply NoDup_cons in Hnd as [Hk Hnd]. rewrite elem_of_cons. intros [[= -> ->]|H].
  - by rewrite streq_refl.
  - destruct (streq k k') eqn:E; [|auto]. apply streq_true in E as ->.
    destruct Hk. apply list_elem_of_fmap. by exists (k', v).
Qed.

Lemma getKey_perm {A : Type} (k : string) (l l' : list (string * A)) :
  NoDup l.*1 -> l ≡ₚ l' -> getKey k l = getKey k l'.
Proof.
  intros Hnd Hp. assert (NoDup l'.*1) as Hnd' by by rewrite <- Hp.
  destruct (getKey k l) as [v|] eqn:E.
  - symmetry. apply getKey_Some; [done|]. rewrite <- Hp. by apply getKey_elem.
  - destruct (getKey k l') as [v|] eqn:E'; [|done].
    apply getKey_elem in E'. rewrite <- Hp in E'. apply getKey_Some in E'; [|done]. congruence.
Qed.

(** ** The printed text determines the value *)

Lemma str_app_assoc (u v w : string) : (u +:+ v) +:+ w = u +:+ (v +:+ w).
Proof. induction u as [|c u IH]; rewrite ?str_app_nil, ?str_app_cons; [done|]. by rewrite IH. Qed.

Lemma str_app_nil_r (u : string) : u +:+ EmptyString = u.
Proof. induction u as [|c u IH]; [done|]. by rewrite str_app_cons, IH. Qed.

Lemma str_length_app (u v : string) :
  String.length (u +:+ v) = (String.length u + String.length v)%nat.
Proof. induction u as [|c u IH]; rewrite ?str_app_nil, ?str_app_cons; simpl; [done|]. by rewrite IH. Qed.

(** Equal texts with equally long ends have the same end. *)
Lemma app_inv_tail_length (u u' v v' : string) :
  String.length v = String.length v' -> u +:+ v = u' +:+ v' -> v = v'.
Proof.
  intros Hl H. assert (String.length u = String.length u') as Hu.
  { apply (f_equal String.length) in H. rewrite !str_length_app in H. lia. }
  revert u' Hu H. induction u as [|c u IH]; intros [|c' u']; try done.
  rewrite !str_app_cons. intros [= Hu] [= _ H]. eauto.
Qed.

#[export] Hint Rewrite str_app_cons str_app_nil str_app_assoc : strings.

Lemma app_prefix (u v r s : string) :
  u +:+ r = v +:+ s -> String.prefix u v = true \/ String.prefix v u = true.
Proof.
  revert v. induction u as [|a u IH]; intros [|b v]; rewrite ?str_app_nil, ?str_app_cons; simpl; auto.
  intros [= -> H]. destruct (ascii_dec b b); [auto|done].
Qed.

Definition numchar (c : ascii) : bool := is_digit c || Ascii.eqb c "-".

Lemma pretty_N_char_numchar n : (n < 10)%N -> numchar (pretty_N_char n) = true.
Proof. intros H. by destruct n as [|[[[|[]|]|[|[]|]|]|[[|[]|]|[|[]|]|]|]]. Qed.

Lemma pretty_N_go_chars n s : all_chars numchar s = true -> all_chars numchar (pretty_N_go n s) = true.
Proof.
  revert s. induction (N.lt_wf_0 n) as [n _ IH]. intros s Hs.
  destruct (decide (n = 0)%N) as [->|Hn]; [by rewrite pretty_N_go_0|].
  rewrite pretty_N_go_step by lia. apply IH; [apply N.div_lt; lia|].
  simpl. rewrite Hs, pretty_N_char_numchar; [done|]. apply N.mod_lt. lia.
Qed.

Lemma pretty_N_chars (n : N) : all_chars numchar (pretty n) = true.
Proof. unfold pretty, pretty_N. case_decide; [done|]. by apply pretty_N_go_chars. Qed.

Lemma pretty_Z_chars (z : Z) : all_chars numchar (pretty z) = true.
Proof. destruct z as [|p|p]; [done|apply (pretty_N_chars (Npos p))|]. apply (pretty_N_chars (Npos p)). Qed.

Lemma pretty_N_go_nonempty n s : s <> EmptyString -> pretty_N_go n s <> EmptyString.
Proof.
  revert s. induction (N.lt_wf_0 n) as [n _ IH]. intros s Hs.
  destruct (decide (n = 0)%N) as [->|Hn]; [by rewrite pretty_N_go_0|].
  rewrite pretty_N_go_step by lia. apply IH; [apply N.div_lt; lia|done].
Qed.

Lemma pretty_N_nonempty (n : N) : pretty n <> EmptyString.
Proof.
  unfold pretty, pretty_N. case_decide as Hn; [done|]. rewrite pretty_N_go_step by lia.
  by apply pretty_N_go_nonempty.
Qed.

Lemma pretty_Z_nonempty (z : Z) : pretty z <> EmptyString.
Proof. destruct z as [|p|p]; [done|apply (pretty_N_nonempty (Npos p))|done]. Qed.

Lemma digit_char n : (n < 10)%N ->
  is_digit (pretty_N_char n) = true /\ (N_of_ascii (pretty_N_char n) - 48 = n)%N.
Proof.
  intros H. destruct n as [|[[[|[]|]|[|[]|]|]|[[|[]|]|[|[]|]|]|]]; first [split; vm_compute; reflexivity|lia].
Qed.

Lemma decimal_go n s : decimal 0 (pretty_N_go n s) = decimal n s.
Proof.
  revert s. induction (N.lt_wf_0 n) as [n _ IH]. intros s.
  destruct (decide (n = 0)%N) as [->|Hn]; [by rewrite pretty_N_go_0|].
  rewrite pretty_N_go_step by lia. rewrite IH by (apply N.div_lt; lia). simpl.
  destruct (digit_char (n mod 10)) as [-> ->]; [apply N.mod_lt; lia|].
  f_equal. rewrite (N.div_mod n 10) at 3 by lia. lia.
Qed.

(** Printing a number and reading it back. *)
Lemma decimal_pretty (n : N) : decimal 0 (pretty n) = Some n.
Proof. unfold pretty, pretty_N. case_decide; [by subst|]. by rewrite decimal_go. Qed.

Lemma decimal_digits acc s n : decimal acc s = Some n -> all_chars is_digit s = true.
Proof.
  revert acc. induction s as [|c s IH]; intros acc; simpl; [done|]. destruct (is_digit c); [apply IH|done].
Qed.

Lemma all_chars_star p s : all_chars p s = true -> lang (Star (Chr p)) s.
Proof.
  induction s as [|c s IH]; simpl; [constructor|]. intros [Hc Hs]%andb_true_iff.
  change (String c s) with (String c EmptyString +:+ s). constructor; [by constructor|auto].
Qed.

Definition DIGITS : re := Regex.plus (Chr is_digit).

Lemma pretty_matches (n : N) : matches DIGITS (pretty n) = true.
Proof.
  pose proof (decimal_digits _ _ _ (decimal_pretty n)) as H. apply matches_lang.
  pose proof (pretty_N_nonempty n). destruct (pretty n) as [|c s]; [done|]. simpl in H.
  apply andb_true_iff in H as [Hc Hs]. change (String c s) with (String c EmptyString +:+ s).
  constructor; [by constructor|by apply all_chars_star].
Qed.

(** What follows a printed number is not a character of a number. *)
Definition stops (r : string) : bool :=
  match r with EmptyString => true | String c _ => negb (numchar c) end.

Lemma span_unique u v r s :
  all_chars numchar u = true -> all_chars numchar v = true -> stops r = true -> stops s = true ->
  u +:+ r = v +:+ s -> u = v /\ r = s.
Proof.
  revert v. induction u as [|a u IH]; intros [|b v]; autorewrite with strings; simpl.
  - auto.
  - intros _ [Hb _]%andb_true_iff Hr _ ->. simpl in Hr. by rewrite Hb in Hr.
  - intros [Ha _]%andb_true_iff _ _ Hs <-. simpl in Hs. by rewrite Ha in Hs.
  - intros [_ Hu]%andb_true_iff [_ Hv]%andb_true_iff Hr Hs [= -> H].
    by destruct (IH v Hu Hv Hr Hs H) as [-> ->].
Qed.

Lemma escape_char_code c d : escape_char c = escape_char d \/
  String.prefix (escape_char c) (escape_char d) = false.
Proof.
  enough (forall c, forallb (fun d => streq (escape_char c) (escape_char d)
    || negb (String.prefix (escape_char c) (escape_char d))) all_ascii = true) as H.
  { pose proof (ascii_forall _ (H c) d) as Hd.
    rewrite orb_true_iff, negb_true_iff, streq_true in Hd. done. }
  apply (ascii_forall (fun c => forallb _ all_ascii)). vm_compute. reflexivity.
Qed.

Lemma escape_char_inj c d : escape_char c = escape_char d -> c = d.
Proof.
  intros E. enough (forall c, forallb (fun d => negb (streq (escape_char c) (escape_char d))
    || Ascii.eqb c d) all_ascii = true) as H.
  { pose proof (ascii_forall _ (H c) d) as Hd. rewrite E, streq_refl in Hd.
    by apply Ascii.eqb_eq in Hd. }
  apply (ascii_forall (fun c => forallb _ all_ascii)). vm_compute. reflexivity.
Qed.

Lemma app_inv_head (u v w : string) : u +:+ v = u +:+ w -> v = w.
Proof. induction u as [|c u IH]; autorewrite with strings; [done|]. intros [= H]. auto. Qed.

Lemma escape_char_split c d r s : escape_char c +:+ r = escape_char d +:+ s -> c = d /\ r = s.
Proof.
  intros H. assert (escape_char c = escape_char d) as E.
  { destruct (escape_char_code c d) as [?|H1]; [done|].
    destruct (escape_char_code d c) as [?|H2]; [done|].
    apply app_prefix in H as [H|H]; congruence. }
  pose proof (escape_char_inj c d E) as ->. split; [done|]. by eapply app_inv_head.
Qed.

Lemma escape_char_head c : exists a s, escape_char c = String a s /\ a <> dquote.
Proof.
  pose proof (ascii_forall (fun c => match escape_char c with
    | EmptyString => false | String a _ => negb (Ascii.eqb a dquote) end)) as H.
  specialize (H ltac:(vm_compute; reflexivity) c). simpl in H.
  destruct (escape_char c) as [|a s]; [done|]. exists a, s. split; [done|].
  intros ->. by rewrite Ascii.eqb_refl in H.
Qed.

Lemma escape_split s t r r' :
  escape s +:+ String dquote r = escape t +:+ String dquote r' -> s = t /\ r = r'.
Proof.
  revert t. induction s as [|c s IH]; intros [|d t]; simpl; autorewrite with strings.
  - intros [= H]. done.
  - destruct (escape_char_head d) as (a & u & -> & Ha). autorewrite with strings. by intros [= <- _].
  - destruct (escape_char_head c) as (a & u & -> & Ha). autorewrite with strings. by intros [= -> _].
  - intros [-> H]%escape_char_split. by apply IH in H as [-> ->].
Qed.

Lemma quoted_split s t r r' : quoted s +:+ r = quoted t +:+ r' -> s = t /\ r = r'.
Proof. unfold quoted. autorewrite with strings. intros [= H]. by apply escape_split in H. Qed.

(** An element printer: its output determines the element wherever the text is followed by a
    delimiter, and never starts with the closing bracket [cl]. *)
Section Elements.
Context {A : Type} (f : A -> string) (cl : ascii).

Definition splits (x : A) : Prop := forall y r s,
  stops r = true -> stops s = true -> f x +:+ r = f y +:+ s -> x = y /\ r = s.

Context (Hhead : forall x, exists c u, f x = String c u /\ c <> cl).
Context (Hstop : numchar cl = false) (Hcl : cl <> ","%char).

Definition commas_tail (l : list string) : string :=
  match l with [] => EmptyString | _ => "," +:+ commas l end.

Lemma commas_cons x l : commas (x :: l) = x +:+ commas_tail l.
Proof.
  destruct l; simpl; [|done]. induction x as [|c x IH]; [done|].
  rewrite str_app_cons. by rewrite <- IH.
Qed.

Lemma commas_tail_stops l r : stops (commas_tail l +:+ String cl r) = true.
Proof. destruct l; simpl; autorewrite with strings; simpl; [by rewrite Hstop|done]. Qed.

Lemma commas_tail_split (l l' : list A) r s :
  Forall splits l ->
  commas_tail (map f l) +:+ String cl r = commas_tail (map f l') +:+ String cl s ->
  l = l' /\ r = s.
Proof.
  intros Hl. revert l' r s. induction Hl as [|x l Hx Hl IH]; intros [|y l'] r s;
    cbn [map commas_tail]; rewrite ?commas_cons; autorewrite with strings.
  - intros [= ->]. done.
  - intros [= E _]. done.
  - intros [= E _]. done.
  - intros [= H].
    apply Hx in H as [-> H]; [|apply commas_tail_stops..]. by apply IH in H as [-> ->].
Qed.

Lemma commas_split (l l' : list A) r s :
  Forall splits l ->
  commas (map f l) +:+ String cl r = commas (map f l') +:+ String cl s -> l = l' /\ r = s.
Proof.
  intros Hl. destruct l as [|x l], l' as [|y l']; cbn [map]; rewrite ?commas_cons;
    cbn [commas]; autorewrite with strings.
  - intros [= ->]. done.
  - destruct (Hhead y) as (c & u & -> & Hc). autorewrite with strings. by intros [= <- _].
  - destruct (Hhead x) as (c & u & -> & Hc). autorewrite with strings. by intros [= -> _].
  - apply Forall_cons in Hl as [Hx Hl]. intros H.
    apply Hx in H as [-> H]; [|apply commas_tail_stops..].
    by apply commas_tail_split in H as [-> ->].
Qed.
End Elements.

Section json_ind.
Context (P : json -> Prop).
Context (Hnull : P JNull) (Hbool : forall b, P (JBool b)) (Hnum : forall n, P (JNum n))
  (Hstr : forall s, P (JStr s)) (Harr : forall l, Forall P l -> P (JArr l))
  (Hobj : forall l, Forall (fun p => P p.2) l -> P (JObj l)).

(** Induction through the arrays and objects. *)
Fixpoint json_nested_ind (v : json) : P v :=
  match v with
  | JNull => Hnull
  | JBool b => Hbool b
  | JNum n => Hnum n
  | JStr s => Hstr s
  | JArr l => Harr l ((fix go l : Forall P l :=
      match l with [] => Forall_nil_2 P | x :: l' => Forall_cons_2 P x l' (json_nested_ind x) (go l') end) l)
  | JObj l => Hobj l ((fix go l : Forall (fun p => P p.2) l :=
      match l with
      | [] => Forall_nil_2 _
      | p :: l' => Forall_cons_2 _ p l' (json_nested_ind p.2) (go l')
      end) l)
  end.
End json_ind.

(** The kind of value a first character announces. *)
Definition kind_of_char (c : ascii) : option nat :=
  if numchar c then Some 3%nat
  else if Ascii.eqb c "n" then Some 0%nat
  else if Ascii.eqb c "t" then Some 1%nat
  else if Ascii.eqb c "f" then Some 2%nat
  else if Ascii.eqb c dquote then Some 4%nat
  else if Ascii.eqb c "[" then Some 5%nat
  else if Ascii.eqb c "{" then Some 6%nat
  else None.

Definition kind (v : json) : nat :=
  match v with
  | JNull => 0 | JBool true => 1 | JBool false => 2 | JNum _ => 3 | JStr _ => 4 | JArr _ => 5 | JObj _ => 6
  end.

Lemma stringify_head v : exists c u, stringify v = String c u /\ kind_of_char c = Some (kind v).
Proof.
  destruct v as [|[]|n|s|l|l]; simpl.
  1-3: by eexists _, _.
  - pose proof (pretty_Z_chars n) as Hc. pose proof (pretty_Z_nonempty n) as Hne.
    destruct (pretty n) as [|c u]; [done|]. simpl in Hc. apply andb_true_iff in Hc as [Hc _].
    exists c, u. split; [done|]. unfold kind_of_char. by rewrite Hc.
  - unfold quoted. by eexists _, _.
  - autorewrite with strings. by eexists _, _.
  - autorewrite with strings. by eexists _, _.
Qed.

Lemma stringify_kind v w r s : stringify v +:+ r = stringify w +:+ s -> kind v = kind w.
Proof.
  destruct (stringify_head v) as (c & u & -> & Hv), (stringify_head w) as (d & t & -> & Hw).
  autorewrite with strings. intros [= -> _]. congruence.
Qed.

Lemma stringify_not_close v cl : kind_of_char cl = None ->
  exists c u, stringify v = String c u /\ c <> cl.
Proof.
  intros Hcl. destruct (stringify_head v) as (c & u & E & Hk). exists c, u. split; [done|].
  intros ->. congruence.
Qed.

Lemma stringify_splits v : splits stringify v.
Proof.
  induction v as [|b|n|s|l IH|l IH] using json_nested_ind; intros w r r' Hr Hr' H;
    pose proof (stringify_kind _ _ _ _ H) as Hk.
  - destruct w as [|[]| | | |]; try done. split; [done|]. by eapply app_inv_head.
  - destruct b, w as [|[]| | | |]; try done; (split; [done|]); by eapply app_inv_head.
  - destruct w as [|[]|m| | |]; try done. simpl in H.
    apply span_unique in H as [E ->]; [|apply pretty_Z_chars..|done|done].
    by apply (inj pretty) in E as ->.
  - destruct w as [|[]| |t| |]; try done. simpl in H. by apply quoted_split in H as [-> ->].
  - destruct w as [|[]| | |l'|]; try done. simpl in H. autorewrite with strings in H.
    injection H as H. eapply commas_split in H as [-> ->]; try done.
    intros x. by apply stringify_not_close.
  - destruct w as [|[]| | | |l']; try done. simpl in H. autorewrite with strings in H.
    injection H as H. eapply commas_split in H as [-> ->]; try done.
    + intros [k x]. unfold quoted. autorewrite with strings. by eexists _, _.
    + eapply Forall_impl; [exact IH|]. intros [k x] Hx [k' x'] u u' Hu Hu'. simpl in *.
      autorewrite with strings. intros [-> E]%quoted_split. autorewrite with strings in E.
      injection E as E. by apply Hx in E as [-> ->].
Qed.

(** Distinct JSON values have distinct texts. *)
Lemma stringify_inj v w : stringify v = stringify w -> v = w.
Proof.
  intros H. apply (stringify_splits v w EmptyString EmptyString); [done..|]. by rewrite H.
Qed.

(** ** Canonical serialization

    The walk both hashing modules perform before [JSON.stringify]: keys sorted at every level,
    [undefined] read as null, bigints refused (by the walk itself, or by [JSON.stringify]).  The
    properties of the sorted copy are those [keep] retains: assigning [out["__proto__"]] sets the
    prototype and adds no property, [Object.fromEntries] adds them all. *)

Inductive JsonError := BigIntNotSerializable.

Definition mapR {A B E : Type} (f : A -> result E B) : list A -> result E (list B) :=
  fix go l :=
    match l with
    | [] => Ok []
    | x :: l' => let* y := f x in let* ys := go l' in Ok (y :: ys)
    end.

Section Canonical.
Context (keep : string -> bool).

Definition normalize {A : Type} (l : list (string * A)) : list (string * A) :=
  propertyOrder (List.filter (fun p => keep p.1) (sortKeys l)).

Fixpoint canonWalk (v : jsv) : result JsonError json :=
  match v with
  | VNull | VUndef => Ok JNull
  | VBool b => Ok (JBool b)
  | VNum n => Ok (JNum n)
  | VBig _ => Err BigIntNotSerializable
  | VStr s => Ok (JStr s)
  | VArr l => let* l' := mapR canonWalk l in Ok (JArr l')
  | VObj l =>
      let* l' := mapR (fun '(k, x) => let* y := canonWalk x in Ok (k, y)) l in
      Ok (JObj (normalize l'))
  end.

Definition canonText (v : jsv) : result JsonError string :=
  let* j := canonWalk v in Ok (stringify j).

(** Two values with the same canonical form. *)
Definition same (v w : jsv) : Prop := exists j, canonWalk v = Ok j /\ canonWalk w = Ok j.

Lemma canonText_same v w t : canonText v = Ok t -> canonText w = Ok t -> same v w.
Proof.
  unfold canonText. intros (j & Hj & E)%rbind_ok (j' & Hj' & E')%rbind_ok.
  exists j. split; [done|]. enough (j = j') as -> by done. apply stringify_inj. congruence.
Qed.

Lemma mapR_ok {A B E : Type} (f : A -> result E B) l l' :
  mapR f l = Ok l' <-> Forall2 (fun x y => f x = Ok y) l l'.
Proof.
  revert l'. induction l as [|x l IH]; intros l'; simpl.
  - split; [intros [= <-]; constructor|by inversion 1].
  - rewrite rbind_ok. setoid_rewrite rbind_ok. setoid_rewrite IH. split.
    + intros (y & Hy & ys & Hys & [= <-]). by constructor.
    + inversion 1 as [|? y ? ys]; subst. eauto.
Qed.

Lemma normalize_perm {A : Type} (l l' : list (string * A)) :
  NoDup l.*1 -> l ≡ₚ l' -> normalize l = normalize l'.
Proof. intros Hnd Hp. unfold normalize. by rewrite (sortKeys_canonical l l' Hnd Hp). Qed.

Lemma filter_keys_NoDup {A : Type} (f : string * A -> bool) (l : list (string * A)) :
  NoDup l.*1 -> NoDup (List.filter f l).*1.
Proof.
  induction l as [|p l IH]; simpl; [done|]. intros [Hp Hnd]%NoDup_cons.
  destruct (f p); simpl; [|auto]. apply NoDup_cons. split; [|auto].
  intros Hin. apply Hp. apply list_elem_of_fmap in Hin as (q & E & Hq).
  apply list_elem_of_In, filter_In in Hq as [Hq _].
  apply list_elem_of_fmap. exists q. split; [done|]. by apply list_elem_of_In.
Qed.

Lemma getKey_filter {A : Type} (k : string) (l : list (string * A)) :
  keep k = true -> getKey k (List.filter (fun p => keep p.1) l) = getKey k l.
Proof.
  intros Hk. induction l as [|[k' v] l IH]; simpl; [done|].
  destruct (keep k') eqn:E; simpl; [by rewrite IH|].
  destruct (streq k k') eqn:Ek; [|done]. apply streq_true in Ek as ->. congruence.
Qed.

Lemma getKey_normalize {A : Type} (k : string) (l : list (string * A)) :
  NoDup l.*1 -> keep k = true -> getKey k (normalize l) = getKey k l.
Proof.
  intros Hnd Hk. unfold normalize.
  assert (NoDup (sortKeys l).*1) as Hs by by rewrite sortKeys_perm.
  rewrite <- (getKey_perm k _ _ (filter_keys_NoDup _ _ Hs) (symmetry (propertyOrder_perm _))).
  rewrite getKey_filter by done. symmetry. apply getKey_perm; [done|].
  symmetry. apply sortKeys_perm.
Qed.

Definition walkEntry : string * jsv -> result JsonError (string * json) :=
  fun '(k, x) => let* y := canonWalk x in Ok (k, y).

Lemma walkEntries_keys l l' : mapR walkEntry l = Ok l' -> l'.*1 = l.*1.
Proof.
  rewrite mapR_ok. induction 1 as [|[k x] [k' y] l l' H _ IH]; [done|].
  unfold walkEntry in H. apply rbind_ok in H as (z & _ & [= <- <-]). cbn. f_equal. exact IH.
Qed.

Lemma walkEntries_get l l' k :
  mapR walkEntry l = Ok l' ->
  match getKey k l with
  | Some v => exists j, canonWalk v = Ok j /\ getKey k l' = Some j
  | None => getKey k l' = None
  end.
Proof.
  rewrite mapR_ok. induction 1 as [|[k1 x] [k2 y] l l' H _ IH]; simpl; [done|].
  unfold walkEntry in H. apply rbind_ok in H as (z & Hz & [= <- <-]).
  destruct (streq k k1); [by exists z|done].
Qed.

Lemma canonWalk_obj l j :
  canonWalk (VObj l) = Ok j -> exists l', mapR walkEntry l = Ok l' /\ j = JObj (normalize l').
Proof. simpl. intros (l' & H & [= <-])%rbind_ok. by exists l'. Qed.

(** Equal canonical objects agree on every kept key. *)
Lemma same_obj l1 l2 k :
  NoDup l1.*1 -> NoDup l2.*1 -> keep k = true -> same (VObj l1) (VObj l2) ->
  option_Forall2 same (getKey k l1) (getKey k l2).
Proof.
  intros Hn1 Hn2 Hk (j & (m1 & H1 & ->)%canonWalk_obj & (m2 & H2 & E)%canonWalk_obj).
  injection E as E.
  assert (getKey k m1 = getKey k m2) as Em.
  { rewrite <- (getKey_normalize k m1), <- (getKey_normalize k m2), E; try done;
      by erewrite walkEntries_keys by eassumption. }
  pose proof (walkEntries_get l1 m1 k H1) as G1. pose proof (walkEntries_get l2 m2 k H2) as G2.
  destruct (getKey k l1) as [v1|], (getKey k l2) as [v2|].
  - destruct G1 as (j1 & W1 & G1), G2 as (j2 & W2 & G2). constructor. exists j1.
    split; congruence.
  - destruct G1 as (j1 & W1 & G1). congruence.
  - destruct G2 as (j2 & W2 & G2). congruence.
  - constructor.
Qed.

Lemma same_arr l1 l2 : same (VArr l1) (VArr l2) -> Forall2 same l1 l2.
Proof.
  intros (j & H1 & H2). simpl in H1, H2.
  apply rbind_ok in H1 as (m1 & H1 & [= <-]), H2 as (m2 & H2 & [= <-]).
  rewrite mapR_ok in H1, H2. revert l2 H2. induction H1 as [|x y l1 m1 H1 _ IH]; intros l2 H2;
    inversion H2; subst; constructor; [by exists y|auto].
Qed.

Lemma same_num n m : same (VNum n) (VNum m) -> n = m.
Proof. intros (j & [= <-] & [= ->]). done. Qed.
Lemma same_str s t : same (VStr s) (VStr t) -> s = t.
Proof. intros (j & [= <-] & [= ->]). done. Qed.
Lemma same_bool b c : same (VBool b) (VBool c) -> b = c.
Proof. intros (j & [= <-] & [= ->]). done. Qed.

Lemma mapR_perm {A B E : Type} (f : A -> result E B) l1 l2 m1 :
  l1 ≡ₚ l2 -> mapR f l1 = Ok m1 -> exists m2, mapR f l2 = Ok m2 /\ m1 ≡ₚ m2.
Proof.
  setoid_rewrite mapR_ok. intros Hp. revert m1.
  induction Hp as [|x l1 l2 _ IH|x y l|l1 l2 l3 _ IH1 _ IH2]; intros m1 H.
  - inversion H. exists []. done.
  - inversion H as [|? y ? m]; subst. edestruct IH as (m2 & ? & Hm); [done|].
    exists (y :: m2). split; [by constructor|by rewrite Hm].
  - inversion H as [|? b ? m Hb Hm]; subst. inversion Hm as [|? a ? m' Ha Hm']; subst.
    exists (a :: b :: m'). split; [by repeat constructor|]. apply Permutation_swap.
  - edestruct IH1 as (m2 & ? & ?); [done|]. edestruct IH2 as (m3 & ? & ?); [done|].
    exists m3. split; [done|]. by etrans.
Qed.

(** The text does not depend on the order in which an object's properties were added. *)
Lemma canonText_perm l1 l2 :
  NoDup l1.*1 -> l1 ≡ₚ l2 -> canonText (VObj l1) = canonText (VObj l2).
Proof.
  intros Hnd Hp. unfold canonText. simpl. fold walkEntry.
  destruct (mapR walkEntry l1) as [m1|[]] eqn:E1.
  - destruct (mapR_perm _ _ _ _ Hp E1) as (m2 & E2 & Hm). rewrite E2. simpl.
    rewrite (normalize_perm m1 m2); [done| |done].
    by rewrite (walkEntries_keys _ _ E1).
  - destruct (mapR walkEntry l2) as [m2|[]] eqn:E2; [|done].
    destruct (mapR_perm _ _ _ _ (symmetry Hp) E2) as (m1 & ? & _). congruence.
Qed.
End Canonical.

(** ** Hashed documents

    The canonical form of the hashing modules, optional and nullable properties, and how agreement of
    two documents is read back property by property. *)

(** An optional property is absent when it has no value. *)
Definition optProp {A : Type} (k : string) (f : A -> jsv) (o : option A) : list (string * jsv) :=
  match o with Some x => [(k, f x)] | None => [] end.
Definition orNull {A : Type} (f : A -> jsv) (o : option A) : jsv :=
  match o with Some x => f x | None => VNull end.

(** [canonicalize]: a property named [__proto__] is assigned to the prototype of the copy. *)
Definition keptKey (k : string) : bool := negb (streq k "__proto__").
Definition canonicalize (v : jsv) : result JsonError string := canonText keptKey v.

Abbreviation sameC := (same keptKey).

(** *** What a document says *)

Lemma jsv_induction (P : jsv -> Prop) :
  (forall v, (forall l, v = VArr l -> Forall P l) -> (forall l, v = VObj l -> Forall (fun q => P q.2) l) -> P v) ->
  forall v, P v.
Proof.
  intros H. fix IH 1. intros [| | | | | |l|l]; apply H; try done.
  - intros l' [= <-]. induction l as [|x l IHl]; constructor; [apply IH|exact IHl].
  - intros l' [= <-]. induction l as [|[k x] l IHl]; constructor; [apply IH|exact IHl].
Qed.

(** The ownProperties of an object, as they were added, but those named [__proto__]. *)
Definition ownProperties (l : list (string * jsv)) : list (string * jsv) :=
  List.filter (fun p => negb (streq p.1 "__proto__")) l.

(** Two documents say the same, whatever the hashing code does: absent and null are alike, plain values are equal, lists agree place
    by place, and the properties of two objects, the one name aside, are the same up to their order. *)
Inductive alike : jsv -> jsv -> Prop :=
| alike_absent v w : v ∈ [VUndef; VNull] -> w ∈ [VUndef; VNull] -> alike v w
| alike_bool b : alike (VBool b) (VBool b)
| alike_num n : alike (VNum n) (VNum n)
| alike_str s : alike (VStr s) (VStr s)
| alike_arr l l' : Forall2 alike l l' -> alike (VArr l) (VArr l')
| alike_obj l l' m : ownProperties l' ≡ₚ m -> Forall2 (fun p q => p.1 = q.1 /\ alike p.2 q.2) (ownProperties l) m -> alike (VObj l) (VObj l').

Lemma Forall2_perm_r {A B : Type} (R : A -> B -> Prop) l m m' : Forall2 R l m -> m ≡ₚ m' -> exists l', l ≡ₚ l' /\ Forall2 R l' m'.
Proof.
  intros H Hp. revert l H. induction Hp as [|x m m' _ IH|x y m|m1 m2 m3 _ IH1 _ IH2]; intros l H.
  - inversion H; subst. by exists [].
  - inversion H as [|a ? l0 ? Ha Hl]; subst. destruct (IH _ Hl) as (l' & Hl' & H'). exists (a :: l'). split; [by rewrite Hl'|by constructor].
  - inversion H as [|a ? l0 ? Ha Hl]; subst. inversion Hl as [|b ? l1 ? Hb Hl1]; subst. exists (b :: a :: l1).
    split; [apply Permutation_swap|by repeat constructor].
  - destruct (IH1 _ H) as (l' & Hl' & H'). destruct (IH2 _ H') as (l2 & Hl2 & H2). exists l2. split; [by rewrite Hl'|done].
Qed.

Lemma normalize_filter {A : Type} keep (l : list (string * A)) : normalize keep l ≡ₚ List.filter (fun p => keep p.1) l.
Proof.
  unfold normalize. etransitivity; [apply propertyOrder_perm|].
  assert (forall l l' : list (string * A), l ≡ₚ l' -> List.filter (fun p => keep p.1) l ≡ₚ List.filter (fun p => keep p.1) l') as Hf.
  { clear. intros l l' H. induction H as [|x l l' _ IH|x y l|l1 l2 l3 _ IH1 _ IH2]; simpl; [done| | |by rewrite IH1].
    - destruct (keep x.1); [by rewrite IH|done].
    - destruct (keep x.1), (keep y.1); try done. apply Permutation_swap. }
  apply Hf, sortKeys_perm.
Qed.

Lemma same_alike v w : sameC v w -> alike v w.
Proof.
  revert w. induction v as [v IHa IHo] using jsv_induction. intros w (j & Hv & Hw).
  destruct v as [| |b|n|n|s|l|l]; simpl in Hv.
  1-2: injection Hv as <-; destruct w; simpl in Hw; try done;
    try (by apply rbind_ok in Hw as (? & _ & ?)); apply alike_absent; set_solver.
  - injection Hv as <-. destruct w; simpl in Hw; try done; try (by apply rbind_ok in Hw as (? & _ & ?)). injection Hw as <-. apply alike_bool.
  - injection Hv as <-. destruct w; simpl in Hw; try done; try (by apply rbind_ok in Hw as (? & _ & ?)). injection Hw as <-. apply alike_num.
  - done.
  - injection Hv as <-. destruct w; simpl in Hw; try done; try (by apply rbind_ok in Hw as (? & _ & ?)). injection Hw as <-. apply alike_str.
  - apply rbind_ok in Hv as (m & Hm & [= <-]). destruct w as [| | | | | |l'|l']; simpl in Hw; try done;
      apply rbind_ok in Hw as (m' & Hm' & [= E]). subst m'. apply alike_arr. specialize (IHa l eq_refl).
    apply mapR_ok in Hm, Hm'. clear IHo. revert l' Hm'. induction Hm as [|x y l m Hx _ IH]; intros l' Hm'; inversion Hm' as [|x' ? l0 ? Hx']; subst; [constructor|].
    inversion IHa; subst. constructor; [|by apply IH]. match goal with H : forall w, _ -> alike x w |- _ => apply H end. by exists y.
  - apply canonWalk_obj in Hv as (m & Hm & ->). destruct w as [| | | | | |l'|l']; simpl in Hw; try done;
      [by apply rbind_ok in Hw as (? & _ & ?)|]. apply rbind_ok in Hw as (m' & Hm' & [= E]).
    specialize (IHo l eq_refl). apply mapR_ok in Hm, Hm'.
    set (W := fun (p : string * jsv) (q : string * json) => p.1 = q.1 /\ canonWalk keptKey p.2 = Ok q.2).
    assert (Hf : forall (l : list (string * jsv)) m, Forall2 (fun x y => walkEntry keptKey x = Ok y) l m -> Forall2 W (ownProperties l) (List.filter (fun p => keptKey p.1) m)).
    { clear. intros l0 m0. induction 1 as [|[k x] [k' y] l0 m0 H _ IH]; [constructor|]. unfold walkEntry in H. apply rbind_ok in H as (z & Hz & [= <- <-]).
      unfold ownProperties. cbn [List.filter fst]. unfold keptKey at 1. destruct (negb (streq k "__proto__")); [constructor; [done|exact IH]|exact IH]. }
    pose proof (Hf _ _ Hm) as H1. pose proof (Hf _ _ Hm') as H2.
    assert (Hp : List.filter (fun p => keptKey p.1) m' ≡ₚ List.filter (fun p => keptKey p.1) m).
    { rewrite <- !(normalize_filter keptKey). by rewrite E. }
    destruct (Forall2_perm_r _ _ _ _ H2 Hp) as (l2 & Hl2 & H3).
    apply (alike_obj l l' l2); [done|]. clear Hl2.
    assert (HI : Forall (fun q => forall w, sameC q.2 w -> alike q.2 w) (ownProperties l)).
    { apply Forall_forall. intros q Hq. unfold ownProperties in Hq. rewrite list_elem_of_In, filter_In, <- list_elem_of_In in Hq. destruct Hq as [Hq _].
      by apply (proj1 (Forall_forall _ _) IHo). }
    revert l2 H3 HI. clear -H1. induction H1 as [|p q ps qs [Hk Hw] _ IH]; intros l2 H3 HI;
      inversion H3 as [|p' ? l3 ? [Hk' Hw'] H4]; subst; [constructor|].
    inversion HI; subst. constructor; [split; [congruence|]|by apply IH].
    match goal with H : forall w, _ -> alike p.2 w |- _ => apply H end. by exists q.2.
Qed.

(** The two values agree on property [k], in canonical form. *)
Ltac prop_of H k :=
  lazymatch type of H with
  | same _ (VObj ?l) (VObj ?l') =>
      let R := fresh "R" in
      assert (R : option_Forall2 (same keptKey) (getKey k l) (getKey k l'));
      [ apply same_obj; [apply (bool_decide_unpack _); vm_compute; exact I..|reflexivity|exact H]
      | simpl in R; inversion R; subst; clear R ]
  end.

Lemma same_map {A : Type} (f : A -> jsv) (Q : A -> A -> Prop) l l' :
  (forall x y, sameC (f x) (f y) -> Q x y) ->
  sameC (VArr (map f l)) (VArr (map f l')) -> Forall2 Q l l'.
Proof.
  intros Hf H%same_arr. revert l' H.
  induction l as [|x l IH]; intros [|y l'] H; inversion H; subst; constructor; auto.
Qed.

Lemma same_map_eq {A : Type} (f : A -> jsv) l l' :
  (forall x y, sameC (f x) (f y) -> x = y) ->
  sameC (VArr (map f l)) (VArr (map f l')) -> l = l'.
Proof. intros Hf H. apply list_eq_Forall2. by eapply same_map. Qed.

Lemma same_orNull {A : Type} (f : A -> jsv) o o' :
  (forall x, canonWalk keptKey (f x) <> Ok JNull) -> (forall x y, sameC (f x) (f y) -> x = y) ->
  sameC (orNull f o) (orNull f o') -> o = o'.
Proof.
  intros Hn Hf. destruct o as [x|], o' as [y|]; simpl; intros H; [by rewrite (Hf x y)|..|done];
    destruct H as (j & H1 & H2); simpl in *; [injection H2 as <-|injection H1 as <-];
    by edestruct Hn.
Qed.

Lemma getKey_app {A : Type} k (l1 l2 : list (string * A)) :
  getKey k (l1 ++ l2) = match getKey k l1 with Some v => Some v | None => getKey k l2 end.
Proof. induction l1 as [|[k' v] l1 IH]; simpl; [done|]. by destruct (streq k k'). Qed.

Lemma getKey_optProp {A : Type} k k' (f : A -> jsv) o :
  getKey k (optProp k' f o) = if streq k k' then f <$> o else None.
Proof. destruct o; simpl; [done|by destruct (streq k k')]. Qed.

Lemma same_option {A : Type} (f : A -> jsv) (o o' : option A) :
  (forall x y, sameC (f x) (f y) -> x = y) ->
  option_Forall2 sameC (f <$> o) (f <$> o') -> o = o'.
Proof.
  intros Hf. destruct o as [x|], o' as [y|]; simpl; intros H; inversion H; subst; [|done].
  f_equal. auto.
Qed.

Lemma match_option_id {A : Type} (o : option A) :
  match o with Some v => Some v | None => None end = o.
Proof. by destruct o. Qed.

(** As [prop_of], for a value some of whose properties are optional. *)
Ltac optprop_of H nd k :=
  let R := fresh "R" in
  pose proof (same_obj keptKey _ _ k (nd _) (nd _) eq_refl H) as R;
  rewrite !getKey_app, !getKey_optProp in R; simpl in R; rewrite ?match_option_id in R.

#[export] Hint Resolve same_num same_str same_bool : canon.

(** A hash of the canonical text binds the document, up to a collision. *)
Definition collides (digest : string -> string) : Prop := exists t t', t <> t' /\ digest t = digest t'.

Lemma digest_same (digest : string -> string) v w t t' :
  canonicalize v = Ok t -> canonicalize w = Ok t' -> digest t = digest t' -> sameC v w \/ collides digest.
Proof.
  intros Hv Hw E. destruct (decide (t = t')) as [<-|Hne]; [left; by eapply canonText_same|].
  right. by exists t, t'.
Qed.

(** [{ ...o, k: v }]. *)
Fixpoint setProp (k : string) (v : jsv) (o : list (string * jsv)) : list (string * jsv) :=
  match o with
  | [] => [(k, v)]
  | p :: o' => if streq p.1 k then (k, v) :: o' else p :: setProp k v o'
  end.
