(* ===== verification/JsonParse.v ===== *)
(** * JSON.parse

    The parser of JSON texts, as the source uses it on documents that arrive as text (runtime tokens, the
    policy and the market context of the confidential workflow).  [grammar] is the grammar: it reads every
    JSON text, into a [tree] whose strings are lists of code units and whose numbers are still decimals.
    [Workflow.Conv] takes the documents of the workflow from there, with all of their numbers and texts.

    [syntax] and [parse] give the values of [Json]: a tree that has a character above U+00FF, or a number
    that is not an integer of at most 2^53, where doubles are exact, is not one of these and is refused.
    [parse] keeps the last of two members of one name and lists array indices first, as [JSON.parse] does.

    [syntax_stringify] states that a printed value is read back as itself, whatever its nesting and
    strings. *)

From S2P Require Import Prelude Regex Json.
From stdpp Require Import pretty.
From Stdlib Require Import Ascii.
Local Open Scope N_scope.

Definition isWs (c : ascii) : bool :=
  let n := N_of_ascii c in (n =? 32) || (n =? 9) || (n =? 10) || (n =? 13).

Fixpoint skipWs (s : string) : string :=
  match s with String c s' => if isWs c then skipWs s' else s | EmptyString => EmptyString end.

(** ** Strings *)

Definition hexVal (c : ascii) : option N :=
  let n := N_of_ascii c in
  if is_digit c then Some (n - 48)
  else if range "a" "f" c then Some (n - 87)
  else if range "A" "F" c then Some (n - 55)
  else None.

Definition hex4 (a b c d : ascii) : option N :=
  w ← hexVal a; x ← hexVal b; y ← hexVal c; z ← hexVal d; Some (((w * 16 + x) * 16 + y) * 16 + z).

(** The code unit an escape letter stands for. *)
Definition simpleEscape (e : ascii) : option N :=
  let n := N_of_ascii e in
  if (n =? 34) || (n =? 92) || (n =? 47) then Some n
  else if n =? 98 then Some 8
  else if n =? 102 then Some 12
  else if n =? 110 then Some 10
  else if n =? 114 then Some 13
  else if n =? 116 then Some 9
  else None.

Definition consUnit (n : N) (o : option (list N * string)) : option (list N * string) :=
  match o with Some (u, r) => Some (n :: u, r) | None => None end.

(** The rest of a string literal after its opening quote, in code units, and what follows it. *)
Fixpoint strBody (s : string) : option (list N * string) :=
  match s with
  | EmptyString => None
  | String c s' =>
      if N_of_ascii c =? 34 then Some ([], s')
      else if N_of_ascii c =? 92 then
        match s' with
        | EmptyString => None
        | String e s2 =>
            match simpleEscape e with
            | Some x => consUnit x (strBody s2)
            | None =>
                if N_of_ascii e =? 117 then
                  match s2 with
                  | String h1 (String h2 (String h3 (String h4 s3))) =>
                      match hex4 h1 h2 h3 h4 with
                      | Some n => consUnit n (strBody s3)
                      | None => None
                      end
                  | _ => None
                  end
                else None
            end
        end
      else if N_of_ascii c <? 32 then None
      else consUnit (N_of_ascii c) (strBody s')
  end.

(** ** Numbers *)

(** The longest run of digits. *)
Fixpoint digits (s : string) : string * string :=
  match s with
  | String c s' => if is_digit c then let p := digits s' in (String c p.1, p.2) else (EmptyString, s)
  | EmptyString => (EmptyString, EmptyString)
  end.

Definition digitsOf (s : string) : N := default 0 (decimal 0 s).

(** The part after the integer digits: a fraction, as its digits, and an exponent. *)
Definition fraction (s : string) : option (string * string) :=
  match s with
  | String c s' =>
      if Ascii.eqb c "." then
        let p := digits s' in if streq p.1 EmptyString then None else Some p
      else Some (EmptyString, s)
  | EmptyString => Some (EmptyString, EmptyString)
  end.

Definition exponent (s : string) : option (Z * string) :=
  match s with
  | String c s' =>
      if Ascii.eqb c "e" || Ascii.eqb c "E" then
        let '(neg, t) := match s' with
                         | String d t => if Ascii.eqb d "-" then (true, t) else if Ascii.eqb d "+" then (false, t) else (false, s')
                         | EmptyString => (false, EmptyString)
                         end in
        let p := digits t in
        if streq p.1 EmptyString then None
        else Some ((if neg then - Z.of_N (digitsOf p.1) else Z.of_N (digitsOf p.1))%Z, p.2)
      else Some (0%Z, s)
  | EmptyString => Some (0%Z, EmptyString)
  end.

(** A number without a sign, as an integer and a power of ten: no leading zero but in "0" itself. *)
Definition unsigned (s : string) : option (Z * Z * string) :=
  let p := digits s in
  match p.1 with
  | EmptyString => None
  | String c rest =>
      if Ascii.eqb c "0" && negb (streq rest EmptyString) then None
      else
        f ← fraction p.2;
        x ← exponent f.2;
        Some (Z.of_N (digitsOf (p.1 +:+ f.1)), (x.1 - Z.of_nat (String.length f.1))%Z, x.2)
  end.

Definition number (s : string) : option (Z * Z * string) :=
  match s with
  | String c s' =>
      if Ascii.eqb c "-" then match unsigned s' with Some (m, e, r) => Some ((- m)%Z, e, r) | None => None end
      else unsigned s
  | EmptyString => None
  end.

(** ** Values *)

(** A JSON text: [TNum m e] is [m * 10 ^ e], and the members of an object are all those written. *)
Inductive tree : Type :=
| TNull
| TBool (b : bool)
| TNum (m e : Z)
| TStr (u : list N)
| TArr (l : list tree)
| TObj (l : list (list N * tree)).

(** [w] is a prefix of [s]: what follows it. *)
Fixpoint after (w s : string) : option string :=
  match w, s with
  | EmptyString, _ => Some s
  | String a w', String b s' => if Ascii.eqb a b then after w' s' else None
  | _, _ => None
  end.

Definition starts (c : ascii) (s : string) : option string :=
  match s with String d s' => if Ascii.eqb c d then Some s' else None | EmptyString => None end.

Fixpoint value (fuel : nat) (s : string) : option (tree * string) :=
  match fuel with
  | O => None
  | S n =>
      let t := skipWs s in
      match t with
      | EmptyString => None
      | String c r =>
          if Ascii.eqb c dquote then match strBody r with Some (u, r') => Some (TStr u, r') | None => None end
          else if Ascii.eqb c "[" then
            match starts "]" (skipWs r) with
            | Some r' => Some (TArr [], r')
            | None => match elements n r with Some (l, r') => Some (TArr l, r') | None => None end
            end
          else if Ascii.eqb c "{" then
            match starts "}" (skipWs r) with
            | Some r' => Some (TObj [], r')
            | None => match members n r with Some (l, r') => Some (TObj l, r') | None => None end
            end
          else if Ascii.eqb c "n" then r' ← after "null" t; Some (TNull, r')
          else if Ascii.eqb c "t" then r' ← after "true" t; Some (TBool true, r')
          else if Ascii.eqb c "f" then r' ← after "false" t; Some (TBool false, r')
          else match number t with Some (m, e, r') => Some (TNum m e, r') | None => None end
      end
  end
with elements (fuel : nat) (s : string) : option (list tree * string) :=
  match fuel with
  | O => None
  | S n =>
      match value n s with
      | None => None
      | Some (x, r) =>
          match starts "]" (skipWs r) with
          | Some r' => Some ([x], r')
          | None =>
              match starts "," (skipWs r) with
              | Some r' => match elements n r' with Some (l, r2) => Some (x :: l, r2) | None => None end
              | None => None
              end
          end
      end
  end
with members (fuel : nat) (s : string) : option (list (list N * tree) * string) :=
  match fuel with
  | O => None
  | S n =>
      match starts dquote (skipWs s) ≫= strBody with
      | None => None
      | Some (k, r) =>
          match starts ":" (skipWs r) ≫= value n with
          | None => None
          | Some (x, r1) =>
              match starts "}" (skipWs r1) with
              | Some r' => Some ([(k, x)], r')
              | None =>
                  match starts "," (skipWs r1) with
                  | Some r' => match members n r' with Some (l, r2) => Some ((k, x) :: l, r2) | None => None end
                  | None => None
                  end
              end
          end
      end
  end.

(** The fuel is spent once per value, element and member, each of which has a character of its own. *)
Definition grammar (s : string) : option tree :=
  match value (S (2 * String.length s)) s with
  | Some (j, r) => if streq (skipWs r) EmptyString then Some j else None
  | None => None
  end.

(** ** The values of [Json] *)

(** A text of code units, when they are all of at most U+00FF. *)
Fixpoint narrow (u : list N) : option string :=
  match u with
  | [] => Some EmptyString
  | n :: u' => if n <? 256 then String (ascii_of_N n) <$> narrow u' else None
  end.

Fixpoint units (s : string) : list N :=
  match s with EmptyString => [] | String c s' => N_of_ascii c :: units s' end.

Definition safe (z : Z) : bool := (Z.abs z <=? 9007199254740992)%Z.
Definition checked (z : Z) : option Z := if safe z then Some z else None.

(** [m * 10 ^ e], when it is an integer that a double holds exactly. *)
Definition scaled (m e : Z) : option Z :=
  if (m =? 0)%Z then Some 0%Z
  else if (15 <? e)%Z then None
  else if (0 <=? e)%Z then checked (m * 10 ^ e)%Z
  else if (m mod 10 ^ (- e) =? 0)%Z then checked (m / 10 ^ (- e))%Z else None.

Fixpoint toJson (t : tree) : option json :=
  match t with
  | TNull => Some JNull
  | TBool b => Some (JBool b)
  | TNum m e => JNum <$> scaled m e
  | TStr u => JStr <$> narrow u
  | TArr l => JArr <$> mapM toJson l
  | TObj l => JObj <$> mapM (fun p => k ← narrow p.1; x ← toJson p.2; Some (k, x)) l
  end.

Definition syntax (s : string) : option json := grammar s ≫= toJson.

(** The object of a list of members: the last of one name counts, at the place of the first. *)
Fixpoint toValue (j : json) : jsv :=
  match j with
  | JNull => VNull
  | JBool b => VBool b
  | JNum n => VNum n
  | JStr s => VStr s
  | JArr l => VArr (map toValue l)
  | JObj l => VObj (propertyOrder (foldl (fun o p => setProp p.1 p.2 o) [] (map (fun p => (p.1, toValue p.2)) l)))
  end.

Definition parse (s : string) : option jsv := toValue <$> syntax s.

(** ** Reading back what was printed *)

Lemma strBody_escape_char c t : strBody (escape_char c +:+ t) = consUnit (N_of_ascii c) (strBody t).
Proof. destruct c as [[] [] [] [] [] [] [] []]; reflexivity. Qed.

Lemma strBody_escape s r : strBody (escape s +:+ String dquote r) = Some (units s, r).
Proof.
  induction s as [|c s IH]; [done|]. simpl escape. by rewrite str_app_assoc, strBody_escape_char, IH.
Qed.

(** What may follow a value: nothing, or the punctuation of an array or object. *)
Definition closing (r : string) : bool :=
  match r with EmptyString => true | String c _ => Ascii.eqb c "," || Ascii.eqb c "]" || Ascii.eqb c "}" end.

Lemma closing_cases r : closing r = true ->
  r = EmptyString \/ exists c r', r = String c r' /\ (c = "," \/ c = "]" \/ c = "}")%char.
Proof.
  destruct r as [|c r]; [by left|]. simpl. rewrite !orb_true_iff, !Ascii.eqb_eq. intros H. right. exists c, r. tauto.
Qed.

Lemma digits_closing r : closing r = true -> digits r = (EmptyString, r).
Proof. intros [->|(c & r' & -> & [->|[->| ->]])]%closing_cases; reflexivity. Qed.

Lemma digits_app u r : all_chars is_digit u = true -> closing r = true -> digits (u +:+ r) = (u, r).
Proof.
  intros Hu Hr. induction u as [|c u IH]; [by apply digits_closing|]. simpl in Hu.
  apply andb_true_iff in Hu as [Hc Hu]. rewrite str_app_cons. simpl. by rewrite Hc, IH.
Qed.

Lemma fraction_closing r : closing r = true -> fraction r = Some (EmptyString, r).
Proof. intros [->|(c & r' & -> & [->|[->| ->]])]%closing_cases; reflexivity. Qed.

Lemma exponent_closing r : closing r = true -> exponent r = Some (0%Z, r).
Proof. intros [->|(c & r' & -> & [->|[->| ->]])]%closing_cases; reflexivity. Qed.

Lemma pretty_N_go_head n s : 0 < n -> exists c t, pretty_N_go n s = String c t /\ Ascii.eqb c "0" = false.
Proof.
  revert s. induction (N.lt_wf_0 n) as [n _ IH]. intros s Hn. rewrite pretty_N_go_step by done.
  destruct (decide (n / 10 = 0)) as [E|E].
  - rewrite E, pretty_N_go_0. eexists _, _. split; [done|]. apply N.div_small_iff in E; [|done].
    rewrite N.mod_small by done.
    by destruct n as [|[[[|[]|]|[|[]|]|]|[[|[]|]|[|[]|]|]|]].
  - apply IH; [apply N.div_lt; [done|reflexivity]|by apply N.neq_0_lt_0].
Qed.

(** A printed number has no leading zero. *)
Lemma pretty_N_head (n : N) c t : pretty n = String c t -> Ascii.eqb c "0" && negb (streq t EmptyString) = false.
Proof.
  unfold pretty, pretty_N. case_decide as E; [by intros [= <- <-]|].
  destruct (pretty_N_go_head n EmptyString) as (c' & t' & -> & Hc); [by apply N.neq_0_lt_0|]. intros [= <- <-]. by rewrite Hc.
Qed.

Lemma scaled_0 z : safe z = true -> scaled z 0 = Some z.
Proof.
  intros Hz. unfold scaled, checked. destruct (z =? 0)%Z eqn:E; [apply Z.eqb_eq in E; by subst|].
  change (15 <? 0)%Z with false. change (0 <=? 0)%Z with true. rewrite Z.pow_0_r, Z.mul_1_r. simpl. by rewrite Hz.
Qed.

Lemma unsigned_pretty (n : N) r : closing r = true -> unsigned (pretty n +:+ r) = Some (Z.of_N n, 0%Z, r).
Proof.
  intros Hr. unfold unsigned. rewrite digits_app; [|by eapply decimal_digits, decimal_pretty|done]. simpl.
  pose proof (pretty_N_nonempty n) as Hne. destruct (pretty n) as [|c t] eqn:E; [done|].
  rewrite (pretty_N_head _ _ _ E), fraction_closing by done. simpl. rewrite exponent_closing by done. simpl.
  assert (digitsOf (String c t +:+ EmptyString) = n) as ->.
  { unfold digitsOf. rewrite <- E, str_app_nil_r, decimal_pretty. done. }
  done.
Qed.

Lemma pretty_neg p : pretty (Zneg p) = String "-" (pretty (Npos p)).
Proof. reflexivity. Qed.
Lemma pretty_pos p : pretty (Zpos p) = pretty (Npos p).
Proof. reflexivity. Qed.

Lemma number_minus s : number (String "-" s) = match unsigned s with Some (m, e, r) => Some ((- m)%Z, e, r) | None => None end.
Proof. reflexivity. Qed.
Lemma number_digit c s : is_digit c = true -> number (String c s) = unsigned (String c s).
Proof. intros Hc. unfold number. destruct (Ascii.eqb c "-") eqn:E; [|done]. apply Ascii.eqb_eq in E. by subst c. Qed.

Lemma number_nat (n : N) r : closing r = true -> number (pretty n +:+ r) = Some (Z.of_N n, 0%Z, r).
Proof.
  intros Hr. rewrite <- (unsigned_pretty n r Hr). pose proof (pretty_N_nonempty n).
  pose proof (decimal_digits _ _ _ (decimal_pretty n)) as Hd. destruct (pretty n) as [|c t]; [done|].
  simpl in Hd. apply andb_true_iff in Hd as [Hc _]. rewrite str_app_cons. by apply number_digit.
Qed.

Lemma number_pretty (z : Z) r : closing r = true -> number (pretty z +:+ r) = Some (z, 0%Z, r).
Proof.
  intros Hr. destruct z as [|p|p].
  - exact (number_nat 0 r Hr).
  - rewrite pretty_pos. exact (number_nat (Npos p) r Hr).
  - rewrite pretty_neg, str_app_cons, number_minus. by rewrite (unsigned_pretty (Npos p) r Hr).
Qed.

(** No number of the value is beyond the integers a double holds exactly. *)
Fixpoint exact (j : json) : bool :=
  match j with
  | JNum z => safe z
  | JArr l => forallb exact l
  | JObj l => forallb (fun p => exact p.2) l
  | _ => true
  end.

Lemma kind_not_ws c k : kind_of_char c = Some k -> isWs c = false.
Proof. destruct c as [[] [] [] [] [] [] [] []]; first [discriminate|reflexivity]. Qed.

Lemma skipWs_stringify j r : skipWs (stringify j +:+ r) = stringify j +:+ r.
Proof.
  destruct (stringify_head j) as (c & u & -> & Hk). rewrite str_app_cons. simpl. by rewrite (kind_not_ws c _ Hk).
Qed.

Lemma skipWs_closing r : closing r = true -> skipWs r = r.
Proof. intros [->|(c & r' & -> & [->|[->| ->]])]%closing_cases; reflexivity. Qed.

Lemma starts_stringify c j r : kind_of_char c = None -> starts c (skipWs (stringify j +:+ r)) = None.
Proof.
  intros Hc. rewrite skipWs_stringify. destruct (stringify_not_close j c Hc) as (d & u & -> & Hd).
  rewrite str_app_cons. simpl. destruct (Ascii.eqb c d) eqn:E; [|done]. apply Ascii.eqb_eq in E. by subst.
Qed.

Lemma starts_same c r : isWs c = false -> starts c (skipWs (String c r)) = Some r.
Proof. intros H. simpl. rewrite H. simpl. by rewrite Ascii.eqb_refl. Qed.

Lemma after_self w r : after w (w +:+ r) = Some r.
Proof. induction w as [|a w IH]; [done|]. rewrite str_app_cons. simpl. by rewrite Ascii.eqb_refl. Qed.

(** The tree of a printed value. *)
Fixpoint embed (j : json) : tree :=
  match j with
  | JNull => TNull
  | JBool b => TBool b
  | JNum z => TNum z 0
  | JStr s => TStr (units s)
  | JArr l => TArr (map embed l)
  | JObj l => TObj (map (fun p => (units p.1, embed p.2)) l)
  end.

(** Reading a value with enough fuel. *)
Definition reads (j : json) : Prop := forall r fuel, closing r = true ->
  (2 * String.length (stringify j) <= fuel)%nat -> value fuel (stringify j +:+ r) = Some (embed j, r).

Lemma stringify_length j : (1 <= String.length (stringify j))%nat.
Proof. destruct (stringify_head j) as (c & u & -> & _). simpl. lia. Qed.

Definition member (p : string * json) : string := quoted p.1 +:+ ":" +:+ stringify p.2.

Lemma member_app k x t :
  member (k, x) +:+ t = String dquote (escape k +:+ String dquote (String ":" (stringify x +:+ t))).
Proof. unfold member, quoted. cbn [fst snd]. by autorewrite with strings. Qed.

Lemma member_length p : (String.length (stringify p.2) < String.length (member p))%nat.
Proof. unfold member. rewrite !str_length_app. simpl. lia. Qed.

Lemma commas_tail_length l : (String.length (commas_tail l) = match l with [] => 0 | _ => S (String.length (commas l)) end)%nat.
Proof. destruct l as [|x l]; [done|]. unfold commas_tail. by rewrite str_app_cons, str_app_nil. Qed.

(** The separator decides between the end and a further item. *)
Lemma tail_cases (l : list string) e r : (e = "]" \/ e = "}")%char ->
  let t := commas_tail l +:+ String e r in
  closing t = true /\ match l with
                      | [] => starts e (skipWs t) = Some r
                      | _ => starts e (skipWs t) = None /\ starts "," (skipWs t) = Some (commas l +:+ String e r)
                      end.
Proof.
  intros He. destruct l as [|x l]; cbv zeta.
  - by destruct He as [->| ->].
  - change (commas_tail (x :: l)) with ("," +:+ commas (x :: l)). rewrite str_app_assoc, str_app_cons, str_app_nil.
    by destruct He as [->| ->].
Qed.

Lemma elements_read (l : list json) : l <> [] -> Forall reads l ->
  forall r fuel, (S (2 * String.length (commas (map stringify l))) <= fuel)%nat ->
  elements fuel (commas (map stringify l) +:+ String "]" r) = Some (map embed l, r).
Proof.
  intros Hne Hl r. induction Hl as [|x l Hx Hl IH]; [done|].
  cbn [map]. rewrite commas_cons. intros [|n] Hf; [lia|]. rewrite str_length_app, commas_tail_length in Hf.
  rewrite str_app_assoc. destruct (tail_cases (map stringify l) "]" r (or_introl eq_refl)) as [Ht Hs].
  cbn [elements]. rewrite Hx by (done || lia). destruct l as [|y l]; [by rewrite Hs|]. destruct Hs as [-> ->].
  rewrite IH; [done|done|]. cbn [map] in *. lia.
Qed.

Lemma members_read (l : list (string * json)) : l <> [] -> Forall (fun p => reads p.2) l ->
  forall r fuel, (S (2 * String.length (commas (map member l))) <= fuel)%nat ->
  members fuel (commas (map member l) +:+ String "}" r) = Some (map (fun p => (units p.1, embed p.2)) l, r).
Proof.
  intros Hne Hl r. induction Hl as [|[k x] l Hx Hl IH]; [done|]. simpl in Hx.
  cbn [map]. rewrite commas_cons. intros [|n] Hf; [lia|]. rewrite str_length_app, commas_tail_length in Hf.
  rewrite str_app_assoc. destruct (tail_cases (map member l) "}" r (or_intror eq_refl)) as [Ht Hs].
  pose proof (member_length (k, x)) as Hm. cbn [snd] in Hm. rewrite member_app. cbn [members].
  rewrite starts_same by done. cbn [mbind option_bind]. rewrite strBody_escape.
  rewrite starts_same by done. cbn [mbind option_bind].
  rewrite Hx by (done || lia). destruct l as [|y l]; [by rewrite Hs|]. destruct Hs as [-> ->].
  rewrite IH; [done|done|]. cbn [map] in *. lia.
Qed.

Lemma eqb_refl_if {A : Type} c (x y : A) : (if Ascii.eqb c c then x else y) = x.
Proof. by rewrite Ascii.eqb_refl. Qed.

(** A first character that is no other token starts a number. *)
Lemma value_number n c s : numchar c = true ->
  value (S n) (String c s) = match number (String c s) with Some (m, e, r) => Some (TNum m e, r) | None => None end.
Proof.
  intros Hc. cbn [value skipWs]. destruct c as [[] [] [] [] [] [] [] []]; first [discriminate|reflexivity].
Qed.

Lemma value_array l n r : Forall reads l ->
  (S (2 * String.length (commas (map stringify l))) <= n)%nat -> value (S n) (stringify (JArr l) +:+ r) = Some (embed (JArr l), r).
Proof.
  intros Hl Hn. cbn [stringify]. autorewrite with strings. destruct l as [|x l]; [done|].
  cbn [value]. change (skipWs (String "[" ?s)) with (String "[" s). cbv iota.
  change (Ascii.eqb "[" dquote) with false. rewrite eqb_refl_if. cbv iota.
  pose proof (elements_read (x :: l) ltac:(done) Hl r n Hn) as E. cbn [map] in *. rewrite commas_cons in *.
  autorewrite with strings in *. rewrite starts_stringify by done. by rewrite E.
Qed.

Lemma stringify_obj l : stringify (JObj l) = "{" +:+ commas (map member l) +:+ "}".
Proof. cbn [stringify]. do 2 f_equal. f_equal. apply map_ext. by intros [k x]. Qed.

Lemma value_object l n r : Forall (fun p => reads p.2) l ->
  (S (2 * String.length (commas (map member l))) <= n)%nat -> value (S n) (stringify (JObj l) +:+ r) = Some (embed (JObj l), r).
Proof.
  intros Hl Hn. rewrite stringify_obj. autorewrite with strings. destruct l as [|[k x] l]; [done|].
  cbn [value]. change (skipWs (String "{" ?s)) with (String "{" s). cbv iota.
  change (Ascii.eqb "{" dquote) with false. change (Ascii.eqb "{" "[") with false. rewrite eqb_refl_if. cbv iota.
  pose proof (members_read ((k, x) :: l) ltac:(done) Hl r n Hn) as E. cbn [map] in *. rewrite commas_cons in *.
  rewrite str_app_assoc, member_app in *. change (starts "}" (skipWs (String dquote ?s))) with (@None string). by rewrite E.
Qed.

Lemma value_read j : reads j.
Proof.
  induction j as [|b|z|s|l IH|l IH] using json_nested_ind; intros r [|n] Hr Hf;
    try (match type of Hf with context [stringify ?j] => pose proof (stringify_length j); lia end).
  - done.
  - by destruct b.
  - pose proof (pretty_Z_chars z) as Hc. pose proof (pretty_Z_nonempty z).
    pose proof (number_pretty z r Hr) as E. cbn [stringify]. destruct (pretty z) as [|c u]; [done|].
    simpl in Hc. apply andb_true_iff in Hc as [Hc _]. rewrite str_app_cons in *. by rewrite value_number, E.
  - cbn [stringify]. unfold quoted. autorewrite with strings. cbn [value]. change (skipWs (String dquote ?s)) with (String dquote s).
    cbv iota. rewrite Ascii.eqb_refl, strBody_escape. done.
  - apply value_array; [done|]. cbn [stringify] in Hf. rewrite !str_length_app in Hf. simpl in Hf. lia.
  - apply value_object; [done|]. rewrite stringify_obj, !str_length_app in Hf. simpl in Hf. lia.
Qed.

(** Every printed value is a JSON text, of the tree of the value. *)
Lemma grammar_stringify j : grammar (stringify j) = Some (embed j).
Proof.
  unfold grammar. pose proof (value_read j EmptyString (S (2 * String.length (stringify j)))) as H.
  rewrite str_app_nil_r in H. rewrite H by (done || lia). done.
Qed.

Lemma narrow_units s : narrow (units s) = Some s.
Proof.
  induction s as [|c s IH]; [done|]. simpl. pose proof (N_ascii_bounded c) as H. apply N.ltb_lt in H. rewrite H, IH. simpl.
  by rewrite ascii_N_embedding.
Qed.

Lemma toJson_embed j : exact j = true -> toJson (embed j) = Some j.
Proof.
  induction j as [|b|z|s|l IH|l IH] using json_nested_ind; intros He; try done.
  - simpl in *. by rewrite scaled_0.
  - simpl. by rewrite narrow_units.
  - simpl in *. assert (mapM toJson (map embed l) = Some l) as ->; [|done].
    induction IH as [|x l Hx _ IH]; [done|]. simpl in *. apply andb_true_iff in He as [Hex Hel]. by rewrite Hx, IH.
  - simpl in *. rewrite fmap_Some. exists l. split; [|done].
    induction IH as [|[k x] l Hx _ IH]; [done|]. simpl in *. apply andb_true_iff in He as [Hex Hel].
    by rewrite narrow_units, Hx, IH.
Qed.

(** [JSON.parse] reads back every text [JSON.stringify] prints: whatever the nesting, the order of the
    members and the characters of the strings, the value is the one printed, provided its numbers are in
    the range in which doubles are exact. *)
Theorem syntax_stringify j : exact j = true -> syntax (stringify j) = Some j.
Proof. intros He. unfold syntax. rewrite grammar_stringify. by apply toJson_embed. Qed.

Definition sampleJson : json :=
  JObj [("b", JArr [JNum (-9007199254740992); JNum 0; JStr (String dquote (String "\" (String (ascii_of_N 1) "é")))]);
        ("a", JObj [("", JNull); ("a", JBool true)]); ("b", JArr [])].

Lemma syntax_stringify_witness : exact sampleJson = true /\ syntax (stringify sampleJson) = Some sampleJson.
Proof. split; [reflexivity|]. apply (syntax_stringify sampleJson). reflexivity. Defined.

(** Whitespace, the second of two members of one name, and what is refused. *)
Example parse_samples :
  parse " { 'k' : [ 1 , 2.50e1 ], '0' : null, 'k' : true } " = None /\
  parse "[1, 2.50e1, -0]" = Some (VArr [VNum 1; VNum 25; VNum 0]) /\ parse "[1,]" = None /\ parse "01" = None /\
  parse "1.5" = None /\ parse "" = None.
Proof. repeat split; vm_compute; reflexivity. Qed.

(** Fractions, exponents and escapes above U+00FF are in the grammar. *)
Example grammar_samples :
  grammar " [ 12.5 , -1e-7, 1E400 ] " = Some (TArr [TNum 125 (-1); TNum (-1) (-7); TNum 1 400]) /\
  grammar (String dquote ("\u00e9\uD83D\ude00" +:+ String dquote EmptyString)) = Some (TStr [233; 55357; 56832]) /\
  grammar "1.e5" = None /\ grammar "-" = None /\ grammar "{}," = None.
Proof. repeat split; vm_compute; reflexivity. Qed.
