(* ===== verification/Scanner.v ===== *)
(** * The secret scanner

    Two packages of the repository scan values for secrets before they leave: [studio-events/src/redaction.ts]
    and [studio-deploy/src/secrets.ts].  They differ in their lists: the names of fields, the patterns,
    and the names under which a 32-byte value is that of a hash.  Here is what they share: patterns with
    word boundaries, the walk over a value, and what it means that the walk finds nothing. *)

From S2P Require Import Prelude Regex Json.
From stdpp Require Import pretty.
From Stdlib Require Import Ascii.

Definition isWord (c : ascii) : bool :=
  lower c || upper c || is_digit c || Ascii.eqb c "_".
Definition tokenChar (c : ascii) : bool := isWord c || Ascii.eqb c "-".
Definition anyText : re := Star (Chr (fun _ => true)).
(** What may follow a match that ends in [\b] after a word character. *)
Definition boundary : re := Alt Eps (Cat (Chr (fun c => negb (isWord c))) anyText).
Definition atLeast (n : nat) (r : re) : re := Cat (rep n r) (Star r).
Definition isSpace (c : ascii) : bool :=
  let n := N_of_ascii c in ((9 <=? n) && (n <=? 13))%N || (n =? 32)%N || (n =? 160)%N.

Record ValuePattern := {
  patternKind : string;
  wordStart : bool;      (* begins with [\b], before a word character *)
  body : re;             (* the pattern *)
  rest : re              (* what may follow the match *)
}.

(** The patterns both scanners have. *)
Definition openaiKey : ValuePattern :=
  {| patternKind := "openai-api-key"; wordStart := true;
     body := Cat (lit "sk-") (Cat (Alt Eps (lit "proj-")) (rep 20 (Chr tokenChar))); rest := anyText |}.
Definition jwt : ValuePattern :=
  let token8 := atLeast 8 (Chr tokenChar) in
  {| patternKind := "jwt"; wordStart := true;
     body := Cat (lit "eyJ") (Cat token8 (Cat (lit ".") (Cat token8 (Cat (lit ".") (rep 8 (Chr tokenChar))))));
     rest := anyText |}.
Definition pemPrivateKey : ValuePattern :=
  {| patternKind := "pem-private-key"; wordStart := false;
     body := Cat (lit "-----BEGIN ")
       (Cat (Alt Eps (Alt (lit "RSA ") (Alt (lit "EC ") (Alt (lit "OPENSSH ") (lit "PGP "))))) (lit "PRIVATE KEY-----"));
     rest := anyText |}.
Definition awsAccessKeyId : ValuePattern :=
  {| patternKind := "aws-access-key-id"; wordStart := true;
     body := Cat (Alt (lit "AKIA") (lit "ASIA")) (rep 16 (Chr (fun c => is_digit c || upper c))); rest := boundary |}.
Definition e2bApiKey : ValuePattern :=
  {| patternKind := "e2b-api-key"; wordStart := true;
     body := Cat (lit "e2b_") (rep 20 (Chr (fun c => lower c || upper c || is_digit c))); rest := anyText |}.
Definition bip39Mnemonic : ValuePattern :=
  let word := Cat (rep 3 (Chr lower)) (upTo 5 (Chr lower)) in
  let w := Cat word (Regex.plus (Chr isSpace)) in
  {| patternKind := "bip39-mnemonic"; wordStart := true;
     body := Cat (rep 11 w) (Cat (upTo 12 w) word); rest := boundary |}.

(** [p.re.test(v)]: a match at some position, with its word boundaries. *)
Fixpoint searchFrom (p : ValuePattern) (afterWord : bool) (v : string) : bool :=
  (negb (wordStart p && afterWord) && matches (Cat (body p) (rest p)) v) ||
  match v with
  | EmptyString => false
  | String c v' => searchFrom p (isWord c) v'
  end.

Definition test (p : ValuePattern) (v : string) : bool := searchFrom p false v.

(** [w] stands in [t] as a word of its own: no word character next to it. *)
Definition standsIn (w t : string) : Prop := exists u v, t = u +:+ w +:+ v /\
  (u = EmptyString \/ exists u' c, u = u' +:+ String c EmptyString /\ isWord c = false) /\
  (v = EmptyString \/ exists c v', v = String c v' /\ isWord c = false).

Lemma lang_anyText s : lang anyText s.
Proof.
  unfold anyText. induction s as [|c s IH]; [constructor|].
  change (String c s) with (String c EmptyString +:+ s). apply lang_star_cons; [by constructor|done].
Qed.

Lemma lang_boundary s : lang boundary s <-> s = EmptyString \/ exists c s', s = String c s' /\ isWord c = false.
Proof.
  unfold boundary. rewrite lang_Alt, lang_Eps, lang_Cat. apply or_iff_compat_l. split.
  - intros (u & v & -> & (c & -> & Hc)%lang_Chr & _). exists c, v. split; [done|by apply negb_true_iff].
  - intros (c & s' & -> & Hc). exists (String c EmptyString), s'. split; [done|].
    split; [apply lang_Chr; exists c; split; [done|by rewrite Hc]|apply lang_anyText].
Qed.

(** A search with [\b] on both sides: a match of the body that stands alone. *)
Lemma searchFrom_iff p b t : wordStart p = true -> rest p = boundary ->
  searchFrom p b t = true <-> exists u w v, t = u +:+ w +:+ v /\ matches (body p) w = true /\
    (u = EmptyString /\ b = false \/ exists u' c, u = u' +:+ String c EmptyString /\ isWord c = false) /\
    (v = EmptyString \/ exists c v', v = String c v' /\ isWord c = false).
Proof.
  intros Hs Hr. setoid_rewrite <- lang_boundary.
  assert (Hhere : forall s, matches (Cat (body p) (rest p)) s = true <->
    exists w v, s = w +:+ v /\ matches (body p) w = true /\ lang boundary v).
  { intros s. rewrite matches_lang, lang_Cat, Hr. by setoid_rewrite matches_lang. }
  assert (Hfirst : forall s, negb (wordStart p && b) && matches (Cat (body p) (rest p)) s = true <->
    exists w v, s = w +:+ v /\ matches (body p) w = true /\ b = false /\ lang boundary v).
  { intros s. rewrite Hs, andb_true_iff, Hhere. cbn [andb]. destruct b; naive_solver. }
  revert b Hfirst. induction t as [|c t IH]; intros b Hfirst; cbn [searchFrom]; rewrite orb_true_iff, Hfirst.
  - split.
    + intros [(w & v & E & Hm & Hb & Hv)|H]; [|done]. exists EmptyString, w, v. split_and!; [done|done|by left|done].
    + intros (u & w & v & E & Hm & Hu & Hv). destruct (str_app_empty _ _ E) as [-> E']. left. exists w, v.
      destruct Hu as [[_ ->]|(u' & d & E2 & _)]; [done|]. by destruct u'.
  - rewrite IH.
    2: { intros s. rewrite Hs, andb_true_iff, Hhere. cbn [andb]. destruct (isWord c); naive_solver. }
    split.
    + intros [(w & v & E & Hm & Hb & Hv)|(u & w & v & -> & Hm & Hu & Hv)]; [exists EmptyString, w, v; split_and!; [done|done|by left|done]|].
      exists (String c u), w, v. split; [done|]. split; [done|]. split; [|done]. right.
      destruct Hu as [[-> Hc]|(u' & d & -> & Hd)]; [by exists EmptyString, c|by exists (String c u'), d].
    + intros ([|d u] & w & v & E & Hm & Hu & Hv).
      * left. exists w, v. destruct Hu as [[_ ->]|(u' & d & E2 & _)]; [done|by destruct u'].
      * right. rewrite str_app_cons in E. injection E as <- ->. exists u, w, v. split; [done|]. split; [done|]. split; [|done].
        destruct Hu as [[? _]|(u' & d & E2 & Hd)]; [done|].
        destruct u' as [|e u']; [injection E2 as -> ->; by left|].
        rewrite str_app_cons in E2. injection E2 as -> ->. right. by exists u', d.
Qed.

Definition HEX64 : re := Cat (lit "0x") (rep 64 (Chr is_hex_ci)).

Record RedactionHit := { hitPath : string; hitKind : string }.

(** The strings and property names at any depth, each with the nearest property name around it. *)
Inductive within : jsv -> string -> jsv -> string -> Prop :=
| within_self v key : within v key v key
| within_arr l x key w key' : x ∈ l -> within x key w key' -> within (VArr l) key w key'
| within_obj l k x key w key' : (k, x) ∈ l -> within x k w key' -> within (VObj l) key w key'.

Section jsv_ind.
Variable (Q : jsv -> Prop).
Hypothesis (Hleaf : forall v, match v with VArr _ | VObj _ => False | _ => True end -> Q v)
  (Harr : forall l, Forall Q l -> Q (VArr l)) (Hobj : forall l, Forall (fun p => Q p.2) l -> Q (VObj l)).
Fixpoint jsv_nested_ind (v : jsv) : Q v :=
  match v return Q v with
  | VArr l => Harr l ((fix go (l : list jsv) : Forall Q l :=
      match l with [] => Forall_nil_2 Q | x :: l' => Forall_cons_2 Q x l' (jsv_nested_ind x) (go l') end) l)
  | VObj l => Hobj l ((fix go (l : list (string * jsv)) : Forall (fun p => Q p.2) l :=
      match l with
      | [] => Forall_nil_2 _
      | p :: l' => Forall_cons_2 (fun p => Q p.2) p l' (jsv_nested_ind p.2) (go l')
      end) l)
  | VNull => Hleaf VNull I
  | VUndef => Hleaf VUndef I
  | VBool b => Hleaf (VBool b) I
  | VNum n => Hleaf (VNum n) I
  | VBig n => Hleaf (VBig n) I
  | VStr s => Hleaf (VStr s) I
  end.
End jsv_ind.

Lemma within_arr_iff l key w k' : within (VArr l) key w k' <->
  (w = VArr l /\ k' = key) \/ exists x, x ∈ l /\ within x key w k'.
Proof.
  split; [|intros [[-> ->]|(x & ? & ?)]; [constructor|by eapply within_arr]].
  inversion 1; subst; [by left|right; eauto].
Qed.

Lemma within_obj_iff l key w k' : within (VObj l) key w k' <->
  (w = VObj l /\ k' = key) \/ exists k x, (k, x) ∈ l /\ within x k w k'.
Proof.
  split; [|intros [[-> ->]|(k & x & ? & ?)]; [constructor|by eapply within_obj]].
  inversion 1; subst; [by left|right; eauto].
Qed.

Section scanner.
(** The lists: forbidden field names, patterns of values, and whether a name is that of a hash. *)
Context (forbidden : list string) (patterns : list ValuePattern) (hashKey : string -> bool).


Definition stringHits (v path keyName : string) : list RedactionHit :=
  map (fun p => {| hitPath := path; hitKind := patternKind p |}) (List.filter (fun p => test p v) patterns) ++
  if matches HEX64 v && negb (hashKey keyName)
  then [{| hitPath := path; hitKind := "possible-32-byte-key" |}] else [].

Definition fieldHit (path k : string) : list RedactionHit :=
  if includes forbidden k
  then [{| hitPath := path +:+ "." +:+ k; hitKind := "forbidden-field-name" |}] else [].

Fixpoint walk (v : jsv) (path keyName : string) : list RedactionHit :=
  match v with
  | VStr s => stringHits s path keyName
  | VArr l =>
      (fix go (i : nat) (l : list jsv) : list RedactionHit :=
         match l with
         | [] => []
         | x :: l' => walk x (path +:+ "[" +:+ pretty i +:+ "]") keyName ++ go (S i) l'
         end) O l
  | VObj l =>
      (fix go (l : list (string * jsv)) : list RedactionHit :=
         match l with
         | [] => []
         | (k, x) :: l' => (fieldHit path k ++ walk x (path +:+ "." +:+ k) k) ++ go l'
         end) l
  | _ => []
  end.

(** *** What a value that passes contains *)

Lemma fieldHit_none path k : fieldHit path k = [] <-> k ∉ forbidden.
Proof.
  unfold fieldHit. destruct (includes forbidden k) eqn:E;
    [apply includes_true in E|apply includes_false in E]; naive_solver.
Qed.

Lemma stringHits_none v path key : stringHits v path key = [] <->
  (forall p, p ∈ patterns -> test p v = false) /\ (matches HEX64 v = true -> hashKey key = true).
Proof.
  unfold stringHits. split.
  - intros [H1 H2]%app_nil. split.
    + intros p Hp. destruct (test p v) eqn:E; [|done].
      assert (Hin : p ∈ List.filter (fun p => test p v) patterns)
        by (rewrite list_elem_of_In, filter_In, <- list_elem_of_In; done).
      destruct (List.filter _ _); [by apply not_elem_of_nil in Hin|done].
    + intros Hm. rewrite Hm in H2. by destruct (hashKey key).
  - intros [H1 H2]. replace (List.filter (fun p => test p v) patterns) with (@nil ValuePattern).
    + simpl. destruct (matches HEX64 v); [|done]. by rewrite H2.
    + symmetry. revert H1. generalize patterns. intros l. induction l as [|p l IH]; intros H1; [done|].
      simpl. rewrite (H1 p) by left. apply IH. intros q Hq. apply H1. by right.
Qed.

(** A value is clean below [key]: no forbidden name, no secret pattern, no 32-byte value whose nearest
    property name is not that of a hash. *)
Definition clean (v : jsv) (key : string) : Prop :=
  (forall l k' k, within v key (VObj l) k' -> k ∈ l.*1 -> k ∉ forbidden) /\
  (forall s k', within v key (VStr s) k' ->
     (forall p, p ∈ patterns -> test p s = false) /\ (matches HEX64 s = true -> hashKey k' = true)).

Lemma clean_arr l key : clean (VArr l) key <-> forall x, x ∈ l -> clean x key.
Proof.
  unfold clean. setoid_rewrite within_arr_iff. split.
  - intros [H1 H2] x Hx. split; intros; [eapply H1|eapply H2]; eauto.
  - intros H. split.
    + intros l0 k' k [[? _]|(x & Hx & Hw)] Hk; [done|]. by eapply (H x Hx).
    + intros s k' [[? _]|(x & Hx & Hw)]; [done|]. by apply (H x Hx).
Qed.

Lemma clean_obj l key : clean (VObj l) key <->
  forall k x, (k, x) ∈ l -> k ∉ forbidden /\ clean x k.
Proof.
  unfold clean. setoid_rewrite within_obj_iff. split.
  - intros [H1 H2] k x Hx. split; [|split; intros; [eapply H1|eapply H2]; eauto].
    eapply H1; [by left|]. by apply (list_elem_of_fmap_2 fst l (k, x)).
  - intros H. split.
    + intros l0 k' k [[[= ->] _]|(k0 & x & Hx & Hw)] Hk.
      * apply list_elem_of_fmap in Hk as ([k1 x1] & -> & Hkx). by apply (H k1 x1).
      * by eapply (proj2 (H k0 x Hx)).
    + intros s k' [[? _]|(k0 & x & Hx & Hw)]; [done|]. by apply (proj2 (H k0 x Hx)).
Qed.

Lemma walk_none v : forall path key, walk v path key = [] <-> clean v key.
Proof.
  induction v as [v Hv|l IH|l IH] using jsv_nested_ind; intros path key.
  - destruct v as [| | | | |s| |]; try done; simpl.
    6: rewrite stringHits_none.
    all: unfold clean; split; try done; intros Hs.
    all: try (split; intros; match goal with H : within _ _ _ _ |- _ => by inversion H; subst end).
    by apply Hs; constructor.
  - rewrite clean_arr. simpl. generalize O as i. induction IH as [|x l Hx _ IHl]; intros i.
    { split; [by intros _ x ?%not_elem_of_nil|done]. }
    split.
    + intros [H1 H2]%app_nil y [->|Hy]%elem_of_cons; [by eapply Hx|]. revert y Hy. by eapply IHl.
    + intros H. apply app_nil. split; [apply Hx, H; left|apply IHl]. intros y Hy. apply H. by right.
  - rewrite clean_obj. simpl. induction IH as [|[k x] l Hx _ IHl].
    { split; [by intros _ k x ?%not_elem_of_nil|done]. }
    simpl in Hx. split.
    + intros [[H0 H1]%app_nil H2]%app_nil k' y [[= -> ->]|Hy]%elem_of_cons.
      * split; [by eapply fieldHit_none|by eapply Hx].
      * revert k' y Hy. by eapply IHl.
    + intros H. apply app_nil. split; [apply app_nil; split|].
      * apply fieldHit_none. by apply (H k x); left.
      * apply Hx. by apply (H k x); left.
      * apply IHl. intros k' y Hy. apply H. by right.
Qed.

End scanner.
