(* ===== verification/Policy.v ===== *)
(** * The policy decision function

    [packages/policy/src/index.ts]: the pure function from an evaluation request, the private
    policy and the observed market context to a verdict, a reason code, a risk band and a time to
    live.  [bigint] is [Z], [number] is [jsnum], strings are byte strings. *)

From S2P Require Import Prelude JsNum.
From Stdlib Require Import Lqa.
Local Open Scope Z_scope.

Inductive Verdict := ALLOW | ESCALATE | DENY.

Inductive ReasonCode :=
| ALLOW_POLICY_MATCH
| DENY_AGENT_NOT_AUTHORIZED
| DENY_TARGET_NOT_ALLOWED
| DENY_ACTION_NOT_ALLOWED
| DENY_AMOUNT_TOO_HIGH
| DENY_CONTEXT_STALE
| DENY_SLIPPAGE
| DENY_VOLATILITY
| DENY_LIQUIDITY
| DENY_POLICY_DISABLED
| DENY_MALFORMED_CONTEXT
| ESCALATE_AMOUNT
| ESCALATE_RISK
| ESCALATE_POLICY_RULE.

Inductive RiskBand := LOW | MEDIUM | HIGH.

Record PrivatePolicy := {
  policyId : string;
  policyVersion : jsnum;
  enabled : bool;
  autoLimit : Z;
  escalationLimit : Z;
  maxSlippageBps : jsnum;
  maxVolatilityBps : jsnum;
  minLiquidity : Z;
  targetEthAllocationBps : jsnum;
  rebalanceDriftBps : jsnum;
  minHealthFactorBps : jsnum;
  targetHealthFactorBps : jsnum;
  proprietaryRiskThreshold : jsnum;
  canary : string;
  allowedActionKinds : list string;
  allowedTargets : list string;
  authorizedAgentIdentityHashes : list string
}.

Record EvaluationRequest := {
  requestHash : string;
  agentIdentityHash : string;
  ensNode : string;
  agent : string;
  chainId : jsnum;
  target : string;
  value : Z;
  calldataHash : string;
  selector : string;
  decodedRecipient : string;
  decodedAmount : Z;
  intentHash : string;
  req_policyId : string;
  req_policyVersion : jsnum;
  actionKind : string
}.

Record MarketContext := {
  observedAtUnix : jsnum;
  slippageBps : jsnum;
  volatilityBps : jsnum;
  liquidity : Z;
  healthFactorBps : jsnum
}.

Record PolicyDecision := {
  verdict : Verdict;
  reasonCode : ReasonCode;
  riskBand : RiskBand;
  ttlSeconds : Z
}.

#[export] Instance Verdict_eq_dec : EqDecision Verdict.
Proof. solve_decision. Defined.
#[export] Instance ReasonCode_eq_dec : EqDecision ReasonCode.
Proof. solve_decision. Defined.

Definition MAX_CONTEXT_AGE_SECONDS : Z := 120.
Definition DEFAULT_TTL_SECONDS : Z := 60.

Definition decide_as (v : Verdict) (r : ReasonCode) (b : RiskBand) (ttl : Z) : PolicyDecision :=
  {| verdict := v; reasonCode := r; riskBand := b; ttlSeconds := ttl |}.

Definition malformed (ctx : MarketContext) : bool :=
  negb (isFinite (slippageBps ctx)) || negb (isFinite (volatilityBps ctx)) ||
  negb (isFinite (healthFactorBps ctx)) || negb (isFinite (observedAtUnix ctx)) ||
  jlt (slippageBps ctx) (jint 0) || jlt (volatilityBps ctx) (jint 0) ||
  (liquidity ctx <? 0) || jlt (healthFactorBps ctx) (jint 0).

Definition stale (ctx : MarketContext) (nowUnix : jsnum) : bool :=
  jgt (jsub nowUnix (observedAtUnix ctx)) (jint MAX_CONTEXT_AGE_SECONDS) ||
  jgt (observedAtUnix ctx) (jadd nowUnix (jint 30)).

(** [Math.floor((slippage * 3 + volatility) / 4 + Number(amount / max(autoLimit, 1)) * 10)];
    [/] on bigints truncates, and each operation on numbers rounds. *)
Definition compositeRisk (policy : PrivatePolicy) (ctx : MarketContext) (amount : Z) : jsnum :=
  jfloor (jadd (jscale (1 # 4) (jadd (jscale 3 (slippageBps ctx)) (volatilityBps ctx)))
               (jscale 10 (jnum (amount ÷ (if 0 <? autoLimit policy then autoLimit policy else 1))))).

Definition evaluatePolicy (req : EvaluationRequest) (policy : PrivatePolicy) (ctx : MarketContext)
    (nowUnix : jsnum) : PolicyDecision :=
  if negb (enabled policy) then decide_as DENY DENY_POLICY_DISABLED HIGH 0
  else if malformed ctx then decide_as DENY DENY_MALFORMED_CONTEXT HIGH 0
  else if stale ctx nowUnix then decide_as DENY DENY_CONTEXT_STALE HIGH 0
  else if negb (includes (map to_lower (authorizedAgentIdentityHashes policy))
                  (to_lower (agentIdentityHash req)))
  then decide_as DENY DENY_AGENT_NOT_AUTHORIZED HIGH 0
  else if negb (includes (allowedActionKinds policy) (actionKind req))
  then decide_as DENY DENY_ACTION_NOT_ALLOWED HIGH 0
  else if negb (includes (map to_lower (allowedTargets policy)) (to_lower (target req)))
  then decide_as DENY DENY_TARGET_NOT_ALLOWED HIGH 0
  else if negb (streq (req_policyId req) (policyId policy))
          || negb (jeqb (req_policyVersion req) (policyVersion policy))
  then decide_as DENY DENY_POLICY_DISABLED HIGH 0
  else
    let amount := decodedAmount req in
    if escalationLimit policy <? amount then decide_as DENY DENY_AMOUNT_TOO_HIGH HIGH 0
    else if liquidity ctx <? minLiquidity policy then decide_as DENY DENY_LIQUIDITY HIGH 0
    else if jgt (slippageBps ctx) (maxSlippageBps policy) then decide_as DENY DENY_SLIPPAGE HIGH 0
    else if jgt (volatilityBps ctx) (maxVolatilityBps policy)
    then decide_as ESCALATE ESCALATE_RISK HIGH DEFAULT_TTL_SECONDS
    else if jgt (healthFactorBps ctx) (jint 0)
            && jlt (healthFactorBps ctx) (minHealthFactorBps policy)
    then decide_as ESCALATE ESCALATE_RISK HIGH DEFAULT_TTL_SECONDS
    else if autoLimit policy <? amount
    then decide_as ESCALATE ESCALATE_AMOUNT MEDIUM DEFAULT_TTL_SECONDS
    else if jgt (compositeRisk policy ctx amount) (proprietaryRiskThreshold policy)
    then decide_as ESCALATE ESCALATE_POLICY_RULE MEDIUM DEFAULT_TTL_SECONDS
    else decide_as ALLOW ALLOW_POLICY_MATCH LOW DEFAULT_TTL_SECONDS.

Definition verdictToUint (v : Verdict) : Z :=
  match v with ALLOW => 1 | ESCALATE => 2 | DENY => 3 end.

(** ** The specification: who, what and where first, then amount, then market risk *)

(** The structural part of a request: policy on, context well formed and fresh, agent, action,
    target and policy version all as the policy names them. *)
Definition structurallyAuthorized (req : EvaluationRequest) (policy : PrivatePolicy)
    (ctx : MarketContext) (nowUnix : jsnum) : Prop :=
  enabled policy = true /\ malformed ctx = false /\ stale ctx nowUnix = false /\
  to_lower (agentIdentityHash req) ∈ map to_lower (authorizedAgentIdentityHashes policy) /\
  actionKind req ∈ allowedActionKinds policy /\
  to_lower (target req) ∈ map to_lower (allowedTargets policy) /\
  req_policyId req = policyId policy /\
  jeqb (req_policyVersion req) (policyVersion policy) = true.

(** The limits no human may override. *)
Definition withinHardLimits (req : EvaluationRequest) (policy : PrivatePolicy)
    (ctx : MarketContext) : Prop :=
  decodedAmount req <= escalationLimit policy /\ minLiquidity policy <= liquidity ctx /\
  jgt (slippageBps ctx) (maxSlippageBps policy) = false.

(** The limits below which no human is needed. *)
Definition withinAutonomousLimits (req : EvaluationRequest) (policy : PrivatePolicy)
    (ctx : MarketContext) : Prop :=
  jgt (volatilityBps ctx) (maxVolatilityBps policy) = false /\
  (jgt (healthFactorBps ctx) (jint 0) && jlt (healthFactorBps ctx) (minHealthFactorBps policy))
    = false /\
  decodedAmount req <= autoLimit policy /\
  jgt (compositeRisk policy ctx (decodedAmount req)) (proprietaryRiskThreshold policy) = false.

Definition strictness (v : Verdict) : nat :=
  match v with ALLOW => 0 | ESCALATE => 1 | DENY => 2 end.

#[export] Instance structurallyAuthorized_dec req policy ctx nowUnix :
  Decision (structurallyAuthorized req policy ctx nowUnix).
Proof. unfold structurallyAuthorized. apply _. Defined.
#[export] Instance withinHardLimits_dec req policy ctx :
  Decision (withinHardLimits req policy ctx).
Proof. unfold withinHardLimits. apply _. Defined.
#[export] Instance withinAutonomousLimits_dec req policy ctx :
  Decision (withinAutonomousLimits req policy ctx).
Proof. unfold withinAutonomousLimits. apply _. Defined.

(** The verdict the three tiers of limits promise. *)
Definition specVerdict (req : EvaluationRequest) (policy : PrivatePolicy) (ctx : MarketContext)
    (nowUnix : jsnum) : Verdict :=
  if decide (structurallyAuthorized req policy ctx nowUnix /\ withinHardLimits req policy ctx)
  then if decide (withinAutonomousLimits req policy ctx) then ALLOW else ESCALATE
  else DENY.

(** Take the ladder of guards of [evaluatePolicy] in the goal one rule at a time. *)
Ltac ladder := unfold evaluatePolicy; cbv zeta; repeat (case_match; cbn [verdict decide_as]; try done).

(** The branch equations of [evaluatePolicy] as propositions. *)
Ltac ladder_props :=
  repeat match goal with
  | H : negb _ = true |- _ => apply negb_true_iff in H
  | H : negb _ = false |- _ => apply negb_false_iff in H
  | H : (_ || _) = false |- _ => apply orb_false_iff in H as [? ?]
  | H : (_ <? _)%Z = true |- _ => apply Z.ltb_lt in H
  | H : (_ <? _)%Z = false |- _ => apply Z.ltb_ge in H
  | H : includes _ _ = true |- _ => apply includes_true in H
  | H : streq _ _ = true |- _ => apply streq_true in H
  end.

Lemma not_deny_tiers req policy ctx nowUnix :
  verdict (evaluatePolicy req policy ctx nowUnix) <> DENY ->
  structurallyAuthorized req policy ctx nowUnix /\ withinHardLimits req policy ctx.
Proof.
  unfold structurallyAuthorized, withinHardLimits. ladder; intros _; ladder_props; tauto.
Qed.

(** Past the structural and the hard limits, what is left of the ladder. *)
Lemma evaluatePolicy_autonomous_tail req policy ctx nowUnix :
  structurallyAuthorized req policy ctx nowUnix -> withinHardLimits req policy ctx ->
  verdict (evaluatePolicy req policy ctx nowUnix) =
    if decide (withinAutonomousLimits req policy ctx) then ALLOW else ESCALATE.
Proof.
  intros (He & Hm & Hs & Ha & Hk & Ht & Hp & Hv) (Hamt & Hliq & Hslip).
  apply includes_true in Ha, Hk, Ht. apply streq_true in Hp.
  apply Z.ltb_ge in Hamt, Hliq.
  unfold evaluatePolicy. rewrite He, Hm, Hs, Ha, Hk, Ht, Hp, Hv, Hamt, Hliq, Hslip. cbn [negb orb].
  destruct (decide _) as [(Hvol & Hhf & Hauto & Hrisk)|Hn].
  - apply Z.ltb_ge in Hauto. by rewrite Hvol, Hhf, Hauto, Hrisk.
  - unfold withinAutonomousLimits in Hn. repeat (case_match; cbn [verdict decide_as]; try done).
    ladder_props. tauto.
Qed.

Lemma evaluatePolicy_tiers req policy ctx nowUnix :
  verdict (evaluatePolicy req policy ctx nowUnix) = specVerdict req policy ctx nowUnix.
Proof.
  unfold specVerdict. destruct (decide _) as [[Hs Hh]|Hn].
  - by apply evaluatePolicy_autonomous_tail.
  - destruct (decide (verdict (evaluatePolicy req policy ctx nowUnix) = DENY)) as [?|Hd]; [done|].
    by apply not_deny_tiers in Hd.
Qed.

(** C1: the ladder of early returns of [evaluatePolicy] refines the three-tier specification: the
    verdict is ALLOW exactly when the request is structurally authorized, within the hard limits
    and within the autonomous limits; ESCALATE exactly when only the autonomous limits fail; and
    DENY in every other case. *)
Theorem evaluatePolicy_refines_spec (req : EvaluationRequest) (policy : PrivatePolicy)
    (ctx : MarketContext) (nowUnix : jsnum) :
  verdict (evaluatePolicy req policy ctx nowUnix) = specVerdict req policy ctx nowUnix.
Proof. apply evaluatePolicy_tiers. Qed.

(** ** Monotonicity in the amount and in the market *)

(** [ctx'] is no worse than [ctx] in slippage, volatility and liquidity, and agrees with it on the
    rest. *)
Definition noWorse (ctx' ctx : MarketContext) : Prop :=
  observedAtUnix ctx' = observedAtUnix ctx /\ healthFactorBps ctx' = healthFactorBps ctx /\
  jle (slippageBps ctx') (slippageBps ctx) /\ jle (volatilityBps ctx') (volatilityBps ctx) /\
  liquidity ctx <= liquidity ctx'.

Definition withAmount (req : EvaluationRequest) (amount : Z) : EvaluationRequest :=
  {| requestHash := requestHash req; agentIdentityHash := agentIdentityHash req;
     ensNode := ensNode req; agent := agent req; chainId := chainId req; target := target req;
     value := value req; calldataHash := calldataHash req; selector := selector req;
     decodedRecipient := decodedRecipient req; decodedAmount := amount;
     intentHash := intentHash req; req_policyId := req_policyId req;
     req_policyVersion := req_policyVersion req; actionKind := actionKind req |}.

Lemma jgt_false_mono (a b t : jsnum) : jle a b -> jgt b t = false -> jgt a t = false.
Proof.
  intros Hle Hb. destruct (jgt a t) eqn:E; [|done]. by rewrite (jgt_mono a b t Hle E) in Hb.
Qed.

Lemma compositeRisk_mono policy ctx ctx' a a' :
  noWorse ctx' ctx -> a' <= a -> jle (compositeRisk policy ctx' a') (compositeRisk policy ctx a).
Proof.
  intros (_ & _ & Hs & Hv & _) Ha. unfold compositeRisk.
  apply jfloor_mono, jadd_mono.
  - apply jscale_mono; [done|]. apply jadd_mono; [|done]. by apply jscale_mono.
  - apply jscale_mono; [done|]. apply jnum_mono.
    destruct (0 <? autoLimit policy) eqn:E; bool_prop; apply Z.quot_le_mono; lia.
Qed.

Lemma tiers_mono req policy ctx ctx' nowUnix a :
  noWorse ctx' ctx -> malformed ctx' = false -> a <= decodedAmount req ->
  (structurallyAuthorized req policy ctx nowUnix ->
   structurallyAuthorized (withAmount req a) policy ctx' nowUnix) /\
  (withinHardLimits req policy ctx -> withinHardLimits (withAmount req a) policy ctx') /\
  (withinAutonomousLimits req policy ctx -> withinAutonomousLimits (withAmount req a) policy ctx').
Proof.
  intros Hw Hm Ha. pose proof Hw as (Ho & Hh & Hs & Hv & Hl).
  split_and!.
  - intros (? & ? & Hst & ?). unfold structurallyAuthorized, stale in *. rewrite Ho. tauto.
  - intros (? & ? & ?). unfold withinHardLimits. simpl. split_and!; [lia..|].
    by eapply jgt_false_mono.
  - intros (? & ? & ? & ?). unfold withinAutonomousLimits. rewrite Hh. simpl.
    split_and!; [by eapply jgt_false_mono|done|lia|].
    eapply jgt_false_mono; [|done]. by apply compositeRisk_mono.
Qed.

(** The decision is monotone.  Lowering the decoded amount, or observing a market that is no
    worse (less slippage, less volatility, more liquidity), never makes the verdict stricter. *)
Theorem evaluatePolicy_monotone (req : EvaluationRequest) (policy : PrivatePolicy)
    (ctx ctx' : MarketContext) (nowUnix : jsnum) (amount : Z) :
  noWorse ctx' ctx -> malformed ctx' = false -> amount <= decodedAmount req ->
  (strictness (verdict (evaluatePolicy (withAmount req amount) policy ctx' nowUnix)) <=
   strictness (verdict (evaluatePolicy req policy ctx nowUnix)))%nat.
Proof.
  intros Hw Hm Ha. destruct (tiers_mono req policy ctx ctx' nowUnix amount Hw Hm Ha) as (H1 & H2 & H3).
  rewrite !evaluatePolicy_tiers. unfold specVerdict.
  repeat destruct (decide _); simpl; try lia; naive_solver.
Qed.

(** ** Reasons, bands and times to live *)

(** Structure is ruled on before amount and market.  Whatever the amount, the thresholds and
    the market values, a request from an agent the policy does not list is refused with
    DENY_AGENT_NOT_AUTHORIZED once the context is well formed and fresh: no ESCALATE for the
    amount and no other denial masks it. *)
Theorem evaluatePolicy_agent_not_masked (req : EvaluationRequest) (policy : PrivatePolicy)
    (ctx : MarketContext) (nowUnix : jsnum) (amount : Z) :
  enabled policy = true -> malformed ctx = false -> stale ctx nowUnix = false ->
  (forall h, h ∈ authorizedAgentIdentityHashes policy -> eq_ci h (agentIdentityHash req) = false) ->
  evaluatePolicy (withAmount req amount) policy ctx nowUnix =
    decide_as DENY DENY_AGENT_NOT_AUTHORIZED HIGH 0.
Proof.
  intros He Hm Hs Hno. unfold evaluatePolicy. rewrite He, Hm, Hs. simpl.
  destruct (includes _ _) eqn:E; [|done].
  apply includes_true, list_elem_of_In, in_map_iff in E as (h & Hh & Hin).
  apply list_elem_of_In, Hno in Hin. unfold eq_ci in Hin. rewrite Hh, streq_refl in Hin. done.
Qed.

(** Every decision is coherent: the reason code belongs to the verdict's family, only ALLOW
    carries the LOW band, DENY is always HIGH, and the time to live is 0 exactly for DENY and 60
    seconds otherwise. *)
Theorem evaluatePolicy_coherent (req : EvaluationRequest) (policy : PrivatePolicy)
    (ctx : MarketContext) (nowUnix : jsnum) :
  let d := evaluatePolicy req policy ctx nowUnix in
  match verdict d with
  | ALLOW => reasonCode d = ALLOW_POLICY_MATCH /\ riskBand d = LOW /\ ttlSeconds d = 60
  | ESCALATE => reasonCode d ∈ [ESCALATE_AMOUNT; ESCALATE_RISK; ESCALATE_POLICY_RULE] /\
      riskBand d <> LOW /\ ttlSeconds d = 60
  | DENY => reasonCode d ∈ [DENY_AGENT_NOT_AUTHORIZED; DENY_TARGET_NOT_ALLOWED;
      DENY_ACTION_NOT_ALLOWED; DENY_AMOUNT_TOO_HIGH; DENY_CONTEXT_STALE; DENY_SLIPPAGE;
      DENY_LIQUIDITY; DENY_POLICY_DISABLED; DENY_MALFORMED_CONTEXT] /\
      riskBand d = HIGH /\ ttlSeconds d = 0
  end.
Proof.
  cbv zeta. unfold evaluatePolicy; cbv zeta.
  repeat case_match; cbn; split_and?; try done; repeat (left || right); try done.
Qed.

(** The composite score ignores the amount below the autonomous limit: the bigint quotient
    [amount / autoLimit] is 0 for every amount from 0 up to the limit, so two such requests get
    the same decision, reason, band and time to live. *)
Theorem evaluatePolicy_amount_insensitive (req : EvaluationRequest) (policy : PrivatePolicy)
    (ctx : MarketContext) (nowUnix : jsnum) (a b : Z) :
  0 <= a < autoLimit policy -> 0 <= b < autoLimit policy ->
  autoLimit policy <= escalationLimit policy ->
  evaluatePolicy (withAmount req a) policy ctx nowUnix =
  evaluatePolicy (withAmount req b) policy ctx nowUnix.
Proof.
  intros Ha Hb Hlim. unfold evaluatePolicy, compositeRisk; simpl.
  rewrite (proj2 (Z.ltb_ge (escalationLimit policy) a)), (proj2 (Z.ltb_ge (escalationLimit policy) b)),
    (proj2 (Z.ltb_ge (autoLimit policy) a)), (proj2 (Z.ltb_ge (autoLimit policy) b)) by lia.
  rewrite (proj2 (Z.ltb_lt 0 (autoLimit policy))), !Z.quot_small by lia. done.
Qed.

(** A threshold that is not a number disables its gate.  [parsePrivatePolicy] reads the
    thresholds with [Number(...)], which gives NaN for a missing field; with NaN for the four
    numeric market thresholds the verdict depends on the amount, the liquidity and the structure
    alone, whatever finite slippage, volatility and health factor are observed. *)
Theorem evaluatePolicy_nan_threshold_open (req : EvaluationRequest) (policy : PrivatePolicy)
    (ctx : MarketContext) (nowUnix : jsnum) :
  maxSlippageBps policy = NaN -> maxVolatilityBps policy = NaN ->
  minHealthFactorBps policy = NaN -> proprietaryRiskThreshold policy = NaN ->
  structurallyAuthorized req policy ctx nowUnix ->
  decodedAmount req <= autoLimit policy -> decodedAmount req <= escalationLimit policy ->
  minLiquidity policy <= liquidity ctx ->
  verdict (evaluatePolicy req policy ctx nowUnix) = ALLOW.
Proof.
  intros E1 E2 E3 E4 Hs Ha He Hl. rewrite evaluatePolicy_tiers. unfold specVerdict.
  assert (forall x, jgt x NaN = false) as Hgt by (by intros []).
  assert (forall x, jlt x NaN = false) as Hlt by (by intros []).
  rewrite !decide_True; [done|..].
  - unfold withinAutonomousLimits. rewrite E2, E3, E4, !Hgt, Hlt, andb_false_r. done.
  - unfold withinHardLimits. rewrite E1, Hgt. done.
Qed.

(** ** Witnesses *)

Definition samplePolicy (slip vol hf risk : jsnum) : PrivatePolicy :=
  {| policyId := "treasury"; policyVersion := jint 3; enabled := true; autoLimit := 1000;
     escalationLimit := 5000; maxSlippageBps := slip; maxVolatilityBps := vol;
     minLiquidity := 100; targetEthAllocationBps := jint 5000; rebalanceDriftBps := jint 500;
     minHealthFactorBps := hf; targetHealthFactorBps := jint 18000;
     proprietaryRiskThreshold := risk; canary := "c"; allowedActionKinds := ["MOCK_TRANSFER"];
     allowedTargets := ["0xAB"]; authorizedAgentIdentityHashes := ["0xCD"] |}.

Definition sampleRequest (who : string) (amount : Z) : EvaluationRequest :=
  {| requestHash := "0x1"; agentIdentityHash := who; ensNode := "0x2"; agent := "0x3";
     chainId := jint 11155111; target := "0xab"; value := 0; calldataHash := "0x4";
     selector := "0x5"; decodedRecipient := "0x6"; decodedAmount := amount; intentHash := "0x7";
     req_policyId := "treasury"; req_policyVersion := jint 3; actionKind := "MOCK_TRANSFER" |}.

Definition sampleContext (slip vol : Z) : MarketContext :=
  {| observedAtUnix := jint 1000; slippageBps := jint slip; volatilityBps := jint vol;
     liquidity := 500; healthFactorBps := jint 20000 |}.

Definition plainPolicy : PrivatePolicy := samplePolicy (jint 100) (jint 300) (jint 15000) (jint 200).

Example evaluatePolicy_runs :
  map (fun '(who, amt, slip, vol) =>
         reasonCode (evaluatePolicy (sampleRequest who amt) plainPolicy (sampleContext slip vol)
           (jint 1010)))
    [("0xcd", 10, 10, 10); ("0xcd", 1500, 10, 10); ("0xcd", 9000, 10, 10); ("0xcd", 10, 900, 10);
     ("0xcd", 10, 10, 5000); ("0xee", 9000, 900, 10)]
  = [ALLOW_POLICY_MATCH; ESCALATE_AMOUNT; DENY_AMOUNT_TOO_HIGH; DENY_SLIPPAGE; ESCALATE_RISK;
     DENY_AGENT_NOT_AUTHORIZED].
Proof. vm_compute. reflexivity. Qed.

Lemma evaluatePolicy_monotone_witness :
  (strictness (verdict (evaluatePolicy (withAmount (sampleRequest "0xcd" 1500) 10) plainPolicy
     (sampleContext 5 5) (jint 1010))) <=
   strictness (verdict (evaluatePolicy (sampleRequest "0xcd" 1500) plainPolicy
     (sampleContext 10 10) (jint 1010))))%nat.
Proof.
  apply evaluatePolicy_monotone; [|reflexivity|simpl; lia].
  repeat split; simpl; try lia; unfold Qle; simpl; lia.
Defined.

Lemma evaluatePolicy_agent_not_masked_witness :
  evaluatePolicy (withAmount (sampleRequest "0xee" 10) 9000) plainPolicy (sampleContext 900 10)
    (jint 1010) = decide_as DENY DENY_AGENT_NOT_AUTHORIZED HIGH 0.
Proof.
  apply evaluatePolicy_agent_not_masked; [reflexivity..|].
  intros h Hh. apply list_elem_of_singleton in Hh as ->. reflexivity.
Defined.

Lemma evaluatePolicy_amount_insensitive_witness :
  evaluatePolicy (withAmount (sampleRequest "0xcd" 0) 1) plainPolicy (sampleContext 10 10) (jint 1010)
  = evaluatePolicy (withAmount (sampleRequest "0xcd" 0) 999) plainPolicy (sampleContext 10 10)
      (jint 1010).
Proof. apply evaluatePolicy_amount_insensitive; simpl; lia. Defined.

Lemma evaluatePolicy_nan_threshold_open_witness :
  verdict (evaluatePolicy (sampleRequest "0xcd" 10) (samplePolicy NaN NaN NaN NaN)
    (sampleContext 9900 9900) (jint 1010)) = ALLOW.
Proof.
  apply evaluatePolicy_nan_threshold_open; try reflexivity; try (simpl; lia).
  repeat split; try reflexivity; simpl; left.
Defined.
