(* ===== verification/Network.v ===== *)
(** * The network role model and the write fences

    [packages/studio-network/src]: [roles.ts] (Module [Roles]), [fences.ts] (Module [Fences]),
    [broadcast.ts] (Module [Broadcast]) and [cre-modes.ts] (Module [CreModes]).  An error is its
    reason code and chain id; the sentence for the operator is not modelled.  A [ReadonlySet] is
    the boolean function of its [has]; the registry's [Map] is a [gmap]. *)

From S2P Require Import Prelude Regex.
From stdpp Require Import pretty.
From Stdlib Require Import Ascii.
Local Open Scope Z_scope.

Module Roles.

Inductive NetworkRole := READ_ONLY_SOURCE | TESTNET_EXECUTION | LOCAL_FORK.
#[export] Instance NetworkRole_eq_dec : EqDecision NetworkRole.
Proof. solve_decision. Defined.

Definition WRITE_CAPABLE_ROLES (r : NetworkRole) : bool := includes [TESTNET_EXECUTION; LOCAL_FORK] r.
Definition PUBLIC_WRITE_ROLES (r : NetworkRole) : bool := includes [TESTNET_EXECUTION] r.

Record NetworkRef := {
  ref_chainId : Z;
  ref_role : NetworkRole;
  forkedFrom : option Z;
  forkBlock : option string
}.

Inductive ApprovedNetworkReason :=
| PRODUCTION_WRITE
| NOT_APPROVED
| ROLE_MISMATCH
| READ_ONLY_WRITE
| FORK_PUBLIC_WRITE
| UNKNOWN_NETWORK.
#[export] Instance ApprovedNetworkReason_eq_dec : EqDecision ApprovedNetworkReason.
Proof. solve_decision. Defined.

Record NetworkGuardError := { err_reason : ApprovedNetworkReason; err_chainId : option Z }.

Inductive RpcCapability := READ_ONLY | READ_WRITE.
Inductive NetworkEnvironment := PRODUCTION | TESTNET | LOCAL.

Record ApprovedNetwork := {
  chainId : Z;
  name : string;
  canonicalName : string;
  role : NetworkRole;
  environment : NetworkEnvironment;
  rpcCapability : RpcCapability;
  chainSelector : option string;
  nativeSymbol : string;
  explorer : option string;
  verifiedBy : string
}.

Definition APPROVED : list ApprovedNetwork :=
  [ {| chainId := 11155111; name := "Ethereum Sepolia"; canonicalName := "ethereum-testnet-sepolia";
       role := TESTNET_EXECUTION; environment := TESTNET; rpcCapability := READ_WRITE;
       chainSelector := Some "16015286601757825753"; nativeSymbol := "ETH";
       explorer := Some "https://sepolia.etherscan.io";
       verifiedBy := "ContextLock P23 live deployment; CRE supported-chains as ethereum-testnet-sepolia" |};
    {| chainId := 84532; name := "Base Sepolia"; canonicalName := "ethereum-testnet-sepolia-base-1";
       role := TESTNET_EXECUTION; environment := TESTNET; rpcCapability := READ_WRITE;
       chainSelector := Some "10344971235874465080"; nativeSymbol := "ETH";
       explorer := Some "https://sepolia.basescan.org";
       verifiedBy := "ContextLock P19 CCIP lane verification; CRE supported-chains as ethereum-testnet-sepolia-base-1" |};
    {| chainId := 31337; name := "Local Anvil fork"; canonicalName := "local-anvil-fork";
       role := LOCAL_FORK; environment := LOCAL; rpcCapability := READ_WRITE;
       chainSelector := None; nativeSymbol := "ETH"; explorer := None;
       verifiedBy := "local process; not a public network" |};
    {| chainId := 1; name := "Ethereum Mainnet"; canonicalName := "ethereum-mainnet";
       role := READ_ONLY_SOURCE; environment := PRODUCTION; rpcCapability := READ_ONLY;
       chainSelector := Some "5009297550715157269"; nativeSymbol := "ETH";
       explorer := Some "https://etherscan.io";
       verifiedBy := "P27 live read: eth_blockNumber agreed across two independent providers; CRE supported-chains as ethereum-mainnet" |} ].

(** [new Map(APPROVED.map((n) => [n.chainId, n]))]: a later entry replaces an earlier one. *)
Definition BY_CHAIN_ID : gmap Z ApprovedNetwork :=
  foldl (fun m n => <[chainId n := n]> m) ∅ APPROVED.

Definition executionNetworks : list ApprovedNetwork :=
  List.filter (fun n => WRITE_CAPABLE_ROLES (role n)) APPROVED.

Definition readOnlySources : list ApprovedNetwork :=
  List.filter (fun n => bool_decide (role n = READ_ONLY_SOURCE)) APPROVED.

Definition PRODUCTION_CHAIN_IDS : list Z :=
  [1; 10; 56; 100; 130; 137; 146; 250; 252; 324; 480; 1101; 1329; 5000; 8453; 34443; 42161; 42220;
   43114; 59144; 81457; 534352].

Definition isProductionChain (cid : Z) : bool := includes PRODUCTION_CHAIN_IDS cid.

Definition approvedNetworks : list ApprovedNetwork := APPROVED.

Definition lookupNetwork (cid : Z) : option ApprovedNetwork := BY_CHAIN_ID !! cid.

Inductive WriteIntent := PUBLIC_WRITE | LOCAL_WRITE.
#[export] Instance WriteIntent_eq_dec : EqDecision WriteIntent.
Proof. solve_decision. Defined.

Definition guardError (r : ApprovedNetworkReason) (cid : Z) : NetworkGuardError :=
  {| err_reason := r; err_chainId := Some cid |}.

(** The write guard. *)
Definition assertExecutionAllowed (ref : NetworkRef) (intent : WriteIntent) (context : string)
    : result NetworkGuardError ApprovedNetwork :=
  throw guardError PRODUCTION_WRITE (ref_chainId ref)
    when isProductionChain (ref_chainId ref) && negb (bool_decide (ref_role ref = LOCAL_FORK)) ;;
  throw guardError READ_ONLY_WRITE (ref_chainId ref)
    when bool_decide (ref_role ref = READ_ONLY_SOURCE) ;;
  match BY_CHAIN_ID !! ref_chainId ref with
  | None => Err (guardError NOT_APPROVED (ref_chainId ref))
  | Some network =>
      throw guardError ROLE_MISMATCH (ref_chainId ref)
        when negb (bool_decide (role network = ref_role ref)) ;;
      throw guardError FORK_PUBLIC_WRITE (ref_chainId ref)
        when bool_decide (intent = PUBLIC_WRITE) && negb (PUBLIC_WRITE_ROLES (role network)) ;;
      throw guardError NOT_APPROVED (ref_chainId ref)
        when negb (WRITE_CAPABLE_ROLES (role network)) ;;
      Ok network
  end.

(** Reading is unrestricted: the source's body is empty. *)
Definition assertReadAllowed (ref : NetworkRef) (context : string) : result NetworkGuardError unit :=
  Ok tt.

Definition assertWalletNetworkSafe (walletChainId : Z) (tgt : NetworkRef) (context : string)
    : result NetworkGuardError unit :=
  throw guardError PRODUCTION_WRITE walletChainId when isProductionChain walletChainId ;;
  throw guardError ROLE_MISMATCH walletChainId when negb (walletChainId =? ref_chainId tgt) ;;
  Ok tt.

Definition networkLabel (ref : NetworkRef) : string :=
  match ref_role ref with
  | READ_ONLY_SOURCE => "MAINNET DATA — READ ONLY"
  | TESTNET_EXECUTION => "TESTNET"
  | LOCAL_FORK => "LOCAL MAINNET FORK — NO PUBLIC TRANSACTIONS"
  end.

Definition FORBIDDEN_LABELS : list string :=
  ["Live Mainnet Agent"; "Mainnet Agent"; "Production Agent"; "Live Trading"; "Real Money";
   "Mainnet Execution"].

(** ** The registry as a table *)

Lemma BY_CHAIN_ID_lookup (cid : Z) (n : ApprovedNetwork) :
  BY_CHAIN_ID !! cid = Some n -> n ∈ APPROVED /\ chainId n = cid.
Proof.
  unfold BY_CHAIN_ID, APPROVED. cbn [foldl chainId].
  rewrite !lookup_insert_Some, lookup_empty.
  intros [[<- <-]|[_ [[<- <-]|[_ [[<- <-]|[_ [[<- <-]|[_ ?]]]]]]]]; [..|done];
    (split; [repeat constructor|reflexivity]).
Qed.

Lemma APPROVED_cases (n : ApprovedNetwork) (P : ApprovedNetwork -> Prop) :
  n ∈ APPROVED -> Forall P APPROVED -> P n.
Proof. intros Hn HP. rewrite Forall_forall in HP. auto. Qed.

(** Prove a fact of every registered network by evaluating it on each entry of the table. *)
Ltac each_approved :=
  unfold APPROVED; repeat (apply Forall_cons; split); [..|apply Forall_nil]; vm_compute;
  intros; try done; auto.

(** Every registered network round-trips through the map, so no two entries share a chain id. *)
Lemma APPROVED_registered (n : ApprovedNetwork) :
  n ∈ APPROVED -> BY_CHAIN_ID !! chainId n = Some n.
Proof.
  intros Hn. apply (APPROVED_cases n (fun n => BY_CHAIN_ID !! chainId n = Some n) Hn).
  each_approved.
Qed.

(** The registry grants no write role to a production chain. *)
Lemma APPROVED_not_production (n : ApprovedNetwork) :
  n ∈ APPROVED -> WRITE_CAPABLE_ROLES (role n) = true -> isProductionChain (chainId n) = false.
Proof.
  intros Hn. apply (APPROVED_cases n (fun n => WRITE_CAPABLE_ROLES (role n) = true ->
    isProductionChain (chainId n) = false) Hn).
  each_approved.
Qed.

Lemma WRITE_CAPABLE_ROLES_iff (r : NetworkRole) :
  WRITE_CAPABLE_ROLES r = true <-> r <> READ_ONLY_SOURCE.
Proof. destruct r; vm_compute; split; done. Qed.

Lemma PUBLIC_WRITE_ROLES_iff (r : NetworkRole) :
  PUBLIC_WRITE_ROLES r = true <-> r = TESTNET_EXECUTION.
Proof. destruct r; vm_compute; split; done. Qed.

(** What the write guard promises: an allowed write is a write on a registered network, under the
    role the registry gives it. *)
Definition executionAllowed (ref : NetworkRef) (intent : WriteIntent) (n : ApprovedNetwork) : Prop :=
  n ∈ APPROVED /\ chainId n = ref_chainId ref /\ role n = ref_role ref /\
  match intent with PUBLIC_WRITE => role n = TESTNET_EXECUTION | LOCAL_WRITE => role n <> READ_ONLY_SOURCE end.

Lemma assertExecutionAllowed_ok (ref : NetworkRef) (intent : WriteIntent) (context : string) n :
  assertExecutionAllowed ref intent context = Ok n <-> executionAllowed ref intent n.
Proof.
  unfold assertExecutionAllowed, executionAllowed. rewrite !throw_ok. split.
  - intros (_ & Hro & H). destruct (BY_CHAIN_ID !! ref_chainId ref) as [m|] eqn:E; [|done].
    rewrite !throw_ok in H. destruct H as (Hrole & Hpub & Hw & [= <-]).
    apply BY_CHAIN_ID_lookup in E as [Hin Hid].
    apply negb_false_iff, bool_decide_eq_true in Hrole.
    apply negb_false_iff, WRITE_CAPABLE_ROLES_iff in Hw.
    split_and!; try done. destruct intent; [|done].
    by apply negb_false_iff, PUBLIC_WRITE_ROLES_iff in Hpub.
  - intros (Hin & Hid & Hrole & Hint).
    assert (role n <> READ_ONLY_SOURCE) as Hro by (destruct intent; congruence).
    assert (Hw : WRITE_CAPABLE_ROLES (role n) = true) by by apply WRITE_CAPABLE_ROLES_iff.
    rewrite <- Hid, <- Hrole. rewrite (APPROVED_registered n Hin), (APPROVED_not_production n Hin Hw).
    rewrite (bool_decide_eq_false_2 _ Hro), (bool_decide_eq_true_2 (role n = role n) eq_refl), Hw.
    split_and!; [done..|]. destruct intent; simpl; [|done].
    apply PUBLIC_WRITE_ROLES_iff in Hint. by rewrite Hint.
Qed.

Lemma public_write_chains (n : ApprovedNetwork) :
  n ∈ APPROVED -> role n = TESTNET_EXECUTION -> chainId n = 11155111 \/ chainId n = 84532.
Proof.
  intros Hn. apply (APPROVED_cases n (fun n => role n = TESTNET_EXECUTION ->
    chainId n = 11155111 \/ chainId n = 84532) Hn).
  each_approved.
Qed.

(** C8: the write guard allows a write exactly on a registered network claimed under the role the
    registry records for it: TESTNET_EXECUTION for a public write, any role but READ_ONLY_SOURCE
    for a local one.  In particular a public write only ever reaches Sepolia or Base Sepolia, and
    no production chain is written to, whatever role the caller claims. *)
Theorem assertExecutionAllowed_spec (ref : NetworkRef) (intent : WriteIntent) (context : string)
    (n : ApprovedNetwork) :
  (assertExecutionAllowed ref intent context = Ok n <-> executionAllowed ref intent n) /\
  (assertExecutionAllowed ref intent context = Ok n ->
   isProductionChain (ref_chainId ref) = false /\
   (intent = PUBLIC_WRITE -> ref_chainId ref = 11155111 \/ ref_chainId ref = 84532)).
Proof.
  split; [apply assertExecutionAllowed_ok|].
  intros (Hin & <- & Hrole & Hint)%assertExecutionAllowed_ok. split.
  - apply APPROVED_not_production; [done|]. apply WRITE_CAPABLE_ROLES_iff.
    destruct intent; congruence.
  - intros ->. by apply public_write_chains.
Qed.

(** The reason names the boundary that was hit.  A production chain is refused with
    PRODUCTION_WRITE unless the caller claims LOCAL_FORK; a read-only claim elsewhere with
    READ_ONLY_WRITE; an unregistered chain with NOT_APPROVED; a role other than the registry's
    with ROLE_MISMATCH; and a public write to a fork with FORK_PUBLIC_WRITE.  Every refusal
    carries the chain id of the reference. *)
Theorem assertExecutionAllowed_reason (ref : NetworkRef) (intent : WriteIntent) (context : string)
    (e : NetworkGuardError) :
  assertExecutionAllowed ref intent context = Err e ->
  err_chainId e = Some (ref_chainId ref) /\
  match err_reason e with
  | PRODUCTION_WRITE => isProductionChain (ref_chainId ref) = true /\ ref_role ref <> LOCAL_FORK
  | READ_ONLY_WRITE => ref_role ref = READ_ONLY_SOURCE
  | NOT_APPROVED => lookupNetwork (ref_chainId ref) = None
  | ROLE_MISMATCH => exists n, lookupNetwork (ref_chainId ref) = Some n /\ role n <> ref_role ref
  | FORK_PUBLIC_WRITE => intent = PUBLIC_WRITE /\ ref_role ref = LOCAL_FORK
  | UNKNOWN_NETWORK => False
  end.
Proof.
  unfold assertExecutionAllowed, lookupNetwork. rewrite throw_err.
  intros [[H <-]|[_ H]]; [rewrite andb_true_iff, negb_true_iff, bool_decide_eq_false in H; done|].
  rewrite throw_err in H. destruct H as [[H <-]|[Hro H]]; [by apply bool_decide_eq_true in H|].
  apply bool_decide_eq_false in Hro.
  destruct (BY_CHAIN_ID !! ref_chainId ref) as [n|] eqn:E; [|by injection H as <-].
  rewrite !throw_err in H. destruct H as [[H <-]|[Hr [[H <-]|[_ [[H _]|[_ H]]]]]]; [..|done].
  - apply negb_true_iff, bool_decide_eq_false in H. split; [done|]. by exists n.
  - apply andb_true_iff in H as [Hi Hp]. apply bool_decide_eq_true in Hi.
    apply negb_false_iff, bool_decide_eq_true in Hr. rewrite Hr in Hp. split_and!; [done..|].
    destruct (ref_role ref); [done|by vm_compute in Hp|done].
  - apply negb_false_iff, bool_decide_eq_true in Hr. rewrite Hr in H.
    destruct (ref_role ref); by vm_compute in H.
Qed.

Lemma assertExecutionAllowed_reason_witness :
  let ref := {| ref_chainId := 1; ref_role := TESTNET_EXECUTION; forkedFrom := None; forkBlock := None |} in
  err_chainId (guardError PRODUCTION_WRITE 1) = Some 1 /\
  isProductionChain 1 = true /\ ref_role ref <> LOCAL_FORK.
Proof.
  intros ref. exact (assertExecutionAllowed_reason ref PUBLIC_WRITE "relayer"
    (guardError PRODUCTION_WRITE 1) ltac:(vm_compute; reflexivity)).
Defined.

End Roles.

Module Fences.
Import Roles.

Inductive WriteFence :=
| BLUEPRINT_VALIDATOR
| STRATEGY_COMPILER
| EXECUTION_PLAN_VALIDATOR
| ADAPTER_RESOLVER
| DEPLOYMENT_PREFLIGHT
| CONTEXTLOCK_BROKER
| SIGNER
| RELAYER
| AGENT_RUNTIME
| CRE_BROADCAST.

(** The fence's own name, which the guard receives as its context. *)
Definition fenceName (f : WriteFence) : string :=
  match f with
  | BLUEPRINT_VALIDATOR => "BLUEPRINT_VALIDATOR"
  | STRATEGY_COMPILER => "STRATEGY_COMPILER"
  | EXECUTION_PLAN_VALIDATOR => "EXECUTION_PLAN_VALIDATOR"
  | ADAPTER_RESOLVER => "ADAPTER_RESOLVER"
  | DEPLOYMENT_PREFLIGHT => "DEPLOYMENT_PREFLIGHT"
  | CONTEXTLOCK_BROKER => "CONTEXTLOCK_BROKER"
  | SIGNER => "SIGNER"
  | RELAYER => "RELAYER"
  | AGENT_RUNTIME => "AGENT_RUNTIME"
  | CRE_BROADCAST => "CRE_BROADCAST"
  end.

Definition fenceWrite (fence : WriteFence) (ref : NetworkRef) (intent : WriteIntent)
    : result NetworkGuardError unit :=
  let* _ := assertExecutionAllowed ref intent (fenceName fence) in Ok tt.

Definition fenceWriteByChain (fence : WriteFence) (cid : Z) (forkedFrom : option Z)
    (forkBlock : option string) : result NetworkGuardError unit :=
  let known := lookupNetwork cid in
  let role := match known with Some n => role n | None => TESTNET_EXECUTION end in
  let intent := if bool_decide (role = LOCAL_FORK) then LOCAL_WRITE else PUBLIC_WRITE in
  let* _ := assertExecutionAllowed
    {| ref_chainId := cid; ref_role := role; forkedFrom := forkedFrom; forkBlock := forkBlock |}
    intent (fenceName fence) in
  Ok tt.

(** One reference of a plan; an absent intent is a public write. *)
Record PlanRef := { pr_id : string; pr_network : NetworkRef; pr_intent : option WriteIntent }.

Definition pr_effectiveIntent (r : PlanRef) : WriteIntent := default PUBLIC_WRITE (pr_intent r).

(** Every rejection, in the order of the references: id and reason. *)
Fixpoint fencePlan (fence : WriteFence) (refs : list PlanRef)
    : list (string * ApprovedNetworkReason) :=
  match refs with
  | [] => []
  | r :: refs' =>
      match fenceWrite fence (pr_network r) (pr_effectiveIntent r) with
      | Ok _ => fencePlan fence refs'
      | Err e => (pr_id r, err_reason e) :: fencePlan fence refs'
      end
  end.

(** The networks a decision read from are taken and not consulted. *)
Definition assertDataCannotGrantExecution (readSources : list NetworkRef)
    (executionTarget : NetworkRef) (fence : WriteFence) : result NetworkGuardError unit :=
  fenceWrite fence executionTarget PUBLIC_WRITE.

Lemma fenceWrite_ok (fence : WriteFence) (ref : NetworkRef) (intent : WriteIntent) :
  fenceWrite fence ref intent = Ok tt <-> exists n, executionAllowed ref intent n.
Proof.
  unfold fenceWrite. rewrite rbind_ok. setoid_rewrite assertExecutionAllowed_ok. naive_solver.
Qed.

Lemma fenceWrite_err (fence : WriteFence) (ref : NetworkRef) (intent : WriteIntent) e :
  fenceWrite fence ref intent = Err e <-> assertExecutionAllowed ref intent (fenceName fence) = Err e.
Proof. unfold fenceWrite. destruct (assertExecutionAllowed _ _ _); simpl; naive_solver. Qed.

(** A public write under the claim TESTNET_EXECUTION: the reference most callers build. *)
Definition testnetRef (cid : Z) : NetworkRef :=
  {| ref_chainId := cid; ref_role := TESTNET_EXECUTION; forkedFrom := None; forkBlock := None |}.

Lemma fenceWrite_testnet (fence : WriteFence) (cid : Z) :
  is_ok (fenceWrite fence (testnetRef cid) PUBLIC_WRITE) = true <-> cid = 11155111 \/ cid = 84532.
Proof.
  split; [|by intros [-> | ->]; destruct fence].
  destruct (fenceWrite _ _ _) as [[]|] eqn:E; [intros _|done].
  apply fenceWrite_ok in E as (n & Hin & Hid & _ & Hr). rewrite <- (Hid : chainId n = cid). by apply public_write_chains.
Qed.

(** The chains the registry lets a subsystem write to, knowing only the chain id. *)
Definition writableChains : list Z := [11155111; 84532; 31337].

Lemma lookup_writable (cid : Z) (n : ApprovedNetwork) :
  lookupNetwork cid = Some n -> role n <> READ_ONLY_SOURCE -> cid ∈ writableChains.
Proof.
  intros [Hin <-]%BY_CHAIN_ID_lookup.
  apply (APPROVED_cases n (fun n => role n <> READ_ONLY_SOURCE -> chainId n ∈ writableChains) Hin).
  unfold APPROVED. repeat (apply Forall_cons; split); [..|apply Forall_nil]; simpl; intros;
    try done; unfold writableChains; set_solver.
Qed.

Lemma lookup_readonly (cid : Z) (n : ApprovedNetwork) :
  lookupNetwork cid = Some n -> role n = READ_ONLY_SOURCE -> isProductionChain cid = true.
Proof.
  intros [Hin <-]%BY_CHAIN_ID_lookup.
  apply (APPROVED_cases n (fun n => role n = READ_ONLY_SOURCE ->
    isProductionChain (chainId n) = true) Hin).
  each_approved.
Qed.

Lemma fenceWriteByChain_ok (fence : WriteFence) (cid : Z) ff fb :
  cid ∈ writableChains -> fenceWriteByChain fence cid ff fb = Ok tt.
Proof.
  intros Hc. unfold writableChains in Hc. rewrite !elem_of_cons, elem_of_nil in Hc.
  destruct Hc as [->|[->|[->|[]]]]; vm_compute; reflexivity.
Qed.

Lemma fenceWriteByChain_refused (fence : WriteFence) (cid : Z) ff fb :
  cid ∉ writableChains -> fenceWriteByChain fence cid ff fb =
    Err (guardError (if isProductionChain cid then PRODUCTION_WRITE else NOT_APPROVED) cid).
Proof.
  intros Hn. unfold fenceWriteByChain, assertExecutionAllowed. simpl ref_chainId. simpl ref_role.
  destruct (lookupNetwork cid) as [n|] eqn:E.
  - destruct (decide (role n = READ_ONLY_SOURCE)) as [Hr|Hr].
    + by rewrite Hr, (lookup_readonly cid n E Hr).
    + by destruct Hn; eapply lookup_writable.
  - unfold lookupNetwork in E. rewrite E. by destruct (isProductionChain cid).
Qed.

(** Knowing only a chain id, a fence lets exactly Sepolia, Base Sepolia and the local fork
    through.  Every other chain is refused: with PRODUCTION_WRITE when it is a production chain,
    with NOT_APPROVED when nobody registered it. *)
Theorem fenceWriteByChain_spec (fence : WriteFence) (cid : Z) (ff : option Z) (fb : option string) :
  (fenceWriteByChain fence cid ff fb = Ok tt <-> cid ∈ writableChains) /\
  (fenceWriteByChain fence cid ff fb <> Ok tt ->
   fenceWriteByChain fence cid ff fb =
     Err (guardError (if isProductionChain cid then PRODUCTION_WRITE else NOT_APPROVED) cid)).
Proof.
  destruct (decide (cid ∈ writableChains)) as [Hc|Hc].
  - by rewrite fenceWriteByChain_ok.
  - by rewrite fenceWriteByChain_refused.
Qed.

(** Fencing a whole plan reports every rejection and nothing else, in the plan's order, with
    the reason the guard gives for that reference alone; the plan passes exactly when every
    reference does. *)
Theorem fencePlan_complete (fence : WriteFence) (refs : list PlanRef) :
  fencePlan fence refs =
    omap (fun r => match fenceWrite fence (pr_network r) (pr_effectiveIntent r) with
                   | Ok _ => None | Err e => Some (pr_id r, err_reason e) end) refs /\
  (fencePlan fence refs = [] <->
   forall r, r ∈ refs -> exists n, executionAllowed (pr_network r) (pr_effectiveIntent r) n).
Proof.
  split.
  - induction refs as [|r refs IH]; simpl; [done|]. rewrite IH. by destruct (fenceWrite _ _ _).
  - setoid_rewrite <- (fenceWrite_ok fence). induction refs as [|r refs IH]; simpl.
    + split; [intros _ r Hr; by apply not_elem_of_nil in Hr|done].
    + destruct (fenceWrite fence _ _) as [[]|e] eqn:E.
      * rewrite IH. setoid_rewrite elem_of_cons. naive_solver.
      * split; [done|]. intros H. rewrite (H r) in E; [done|left].
Qed.

End Fences.

Module Broadcast.
Import Roles Fences.

(** The mode arrives as a string and is checked against the two members at run time. *)
Definition BROADCAST_MODES : list string := ["DRY_RUN"; "TESTNET_BROADCAST"].

Inductive BroadcastReason :=
| DRY_RUN_CANNOT_BROADCAST
| BROADCAST_NETWORK_NOT_APPROVED
| UNKNOWN_MODE
| BURNER_REQUIRED
| USER_WALLET_REFUSED.

(** What these functions throw: their own error, or the guard's. *)
Inductive BroadcastFailure :=
| BroadcastError (r : BroadcastReason)
| GuardFailure (e : NetworkGuardError).

Definition liftGuard {A : Type} (r : result NetworkGuardError A) : result BroadcastFailure A :=
  match r with Ok a => Ok a | Err e => Err (GuardFailure e) end.

Definition BROADCAST_SIGNERS : list string := ["EPHEMERAL_TESTNET_BURNER"; "LOCAL_BRIDGE_TESTNET"].

Record BroadcastRequest := {
  mode : string;
  network : NetworkRef;
  signer : string;
  req_context : string
}.

Record BroadcastPlan := { flags : list string; broadcasting : bool; networkText : string }.

Definition broadcastFlags (req : BroadcastRequest) : result BroadcastFailure BroadcastPlan :=
  throw BroadcastError UNKNOWN_MODE when negb (includes BROADCAST_MODES (mode req)) ;;
  if streq (mode req) "DRY_RUN" then
    Ok {| flags := []; broadcasting := false;
          networkText := pretty (ref_chainId (network req)) +:+ " (no transaction will be sent)" |}
  else
    let* _ := liftGuard (fenceWrite CRE_BROADCAST (network req) PUBLIC_WRITE) in
    let* approved := liftGuard (assertExecutionAllowed (network req) PUBLIC_WRITE
                       ("CRE broadcast (" +:+ req_context req +:+ ")")) in
    Ok {| flags := ["--broadcast"]; broadcasting := true;
          networkText := name approved +:+ " (" +:+ pretty (chainId approved) +:+ ")" |}.

Record EphemeralBurner := {
  deploymentId : string;
  address : string;
  burner_chainId : Z;
  createdAtMs : Z;
  expiresAtMs : Z;
  keyRef : string
}.

Definition assertBurnerUsable (burner : EphemeralBurner) (net : NetworkRef) (nowMs : Z)
    : result BroadcastFailure unit :=
  throw BroadcastError BROADCAST_NETWORK_NOT_APPROVED
    when negb (burner_chainId burner =? ref_chainId net) ;;
  throw BroadcastError BURNER_REQUIRED when expiresAtMs burner <? nowMs ;;
  let* _ := liftGuard (assertExecutionAllowed net PUBLIC_WRITE ("burner " +:+ address burner)) in
  Ok tt.

(** The second [if] of the source returns early from a function that ends there anyway. *)
Definition assertNotUserWallet (signer : string) (userWalletAddress : option string)
    : result BroadcastFailure unit :=
  throw BroadcastError USER_WALLET_REFUSED when negb (includes BROADCAST_SIGNERS signer) ;;
  Ok tt.

Inductive LimitsMode := PRODUCTION_DEFAULT | PRODUCTION_FILE | NONE.
#[export] Instance LimitsMode_eq_dec : EqDecision LimitsMode.
Proof. solve_decision. Defined.

Inductive LimitsReason := LIMITS_FILE_REQUIRED | NO_LIMITS_CANNOT_GATE.

(** An absent and an empty path are both falsy. *)
Definition limitsFlags (m : LimitsMode) (limitsFile : option string)
    : result LimitsReason (list string) :=
  match m with
  | PRODUCTION_DEFAULT => Ok ["--limits"; "default"]
  | PRODUCTION_FILE =>
      match limitsFile with
      | None | Some EmptyString => Err LIMITS_FILE_REQUIRED
      | Some f => Ok ["--limits"; f]
      end
  | NONE => Ok ["--limits"; "none"]
  end.

Definition assertLimitsSatisfyGate (m : LimitsMode) (gate : string) : result LimitsReason unit :=
  throw NO_LIMITS_CANNOT_GATE when bool_decide (m = NONE) ;; Ok tt.

(** The [--broadcast] flag is produced in one place only: exactly when the mode is
    TESTNET_BROADCAST and the network is a registered public testnet.  A dry run succeeds on any
    network and emits no flag at all; any other mode string is refused. *)
Theorem broadcastFlags_spec (req : BroadcastRequest) :
  match broadcastFlags req with
  | Ok p => (broadcasting p = true <-> flags p = ["--broadcast"]) /\
      (broadcasting p = true -> mode req = "TESTNET_BROADCAST" /\
         exists n, executionAllowed (network req) PUBLIC_WRITE n) /\
      (broadcasting p = false -> flags p = [] /\ mode req = "DRY_RUN")
  | Err (BroadcastError r) => r = UNKNOWN_MODE /\ mode req ∉ BROADCAST_MODES
  | Err (GuardFailure e) => mode req = "TESTNET_BROADCAST" /\
      forall n, ~ executionAllowed (network req) PUBLIC_WRITE n
  end.
Proof.
  unfold broadcastFlags. destruct (includes BROADCAST_MODES (mode req)) eqn:Em; simpl;
    [apply includes_true in Em|by apply includes_false in Em].
  destruct (streq (mode req) "DRY_RUN") eqn:Ed; simpl; [apply streq_true in Ed; done|].
  apply streq_false in Ed.
  assert (mode req = "TESTNET_BROADCAST") as Ht by (unfold BROADCAST_MODES in Em; set_solver).
  destruct (fenceWrite CRE_BROADCAST (network req) PUBLIC_WRITE) as [[]|e] eqn:Ef; simpl.
  - apply fenceWrite_ok in Ef as [n Hn].
    rewrite (proj2 (assertExecutionAllowed_ok _ _ _ n) Hn). simpl. naive_solver.
  - split; [done|]. intros n Hn. apply fenceWrite_err in Ef.
    by rewrite (proj2 (assertExecutionAllowed_ok _ _ _ n) Hn) in Ef.
Qed.

End Broadcast.

Module CreModes.

Inductive CreExecutionMode := SIMULATED_PLATFORM | SIMULATED_USER | DEPLOYED_USER.
#[export] Instance CreExecutionMode_eq_dec : EqDecision CreExecutionMode.
Proof. solve_decision. Defined.

Definition SIMULATED_MODES : list CreExecutionMode := [SIMULATED_PLATFORM; SIMULATED_USER].
Definition isSimulated (m : CreExecutionMode) : bool := includes SIMULATED_MODES m.

Definition PLATFORM_SIMULATION_AVAILABILITY : string := "INTERNAL_ONLY".

Inductive CreModeReason :=
| SIMULATION_IS_NOT_DEPLOYMENT
| PLATFORM_NOT_PUBLIC
| DEPLOY_ACCESS_REQUIRED
| WRONG_MODE_OPERATION
| FALSE_DON_CLAIM
| FALSE_TEE_CLAIM.

Definition assertPlatformSimulationAllowed (internalUse : bool) : result CreModeReason unit :=
  throw PLATFORM_NOT_PUBLIC
    when streq PLATFORM_SIMULATION_AVAILABILITY "INTERNAL_ONLY" && negb internalUse ;;
  Ok tt.

(** [/^cre-sim:\/\/[a-z0-9][a-z0-9_-]*\/session\/<uuid>$/]. *)
Definition CreSimulationIdSchema : re :=
  Cat (lit "cre-sim://") (Cat (Chr is_lower_alnum)
    (Cat (Star (Chr (fun c => is_lower_alnum c || Ascii.eqb c "_"%char || Ascii.eqb c "-"%char)))
      (Cat (lit "/session/") (Cat (rep 8 (Chr is_hex)) (Cat (chr "-") (Cat (rep 4 (Chr is_hex))
        (Cat (chr "-") (Cat (rep 4 (Chr is_hex)) (Cat (chr "-") (Cat (rep 4 (Chr is_hex))
          (Cat (chr "-") (rep 12 (Chr is_hex))))))))))))).

(** [/^[0-9a-f]{64}$/]. *)
Definition CreWorkflowIdSchema : re := rep 64 (Chr is_hex).

Definition isSimulationId (s : string) : bool := matches CreSimulationIdSchema s.
Definition isWorkflowId (s : string) : bool := matches CreWorkflowIdSchema s.

Definition assertRealWorkflowId (id context : string) : result CreModeReason string :=
  throw SIMULATION_IS_NOT_DEPLOYMENT when isSimulationId id ;;
  throw SIMULATION_IS_NOT_DEPLOYMENT when negb (isWorkflowId id) ;;
  Ok id.

Record PrivacyEvidence := {
  agentCannotReadSecret : bool;
  privatePolicyNotShownToAgent : bool;
  officialCreSimulation : bool;
  realDonConsensus : bool;
  realTeeExecution : bool;
  teeAttestation : bool
}.

Definition privacyEvidenceFor (m : CreExecutionMode) (officialSimulationRan : bool) : PrivacyEvidence :=
  {| agentCannotReadSecret := true;
     privatePolicyNotShownToAgent := true;
     officialCreSimulation := isSimulated m && officialSimulationRan;
     realDonConsensus := bool_decide (m = DEPLOYED_USER);
     realTeeExecution := false;
     teeAttestation := false |}.

Definition assertPrivacyEvidenceHonest (m : CreExecutionMode) (e : PrivacyEvidence)
    : result CreModeReason unit :=
  throw FALSE_DON_CLAIM when isSimulated m && realDonConsensus e ;;
  throw FALSE_TEE_CLAIM when realTeeExecution e && negb (teeAttestation e) ;;
  throw FALSE_TEE_CLAIM when isSimulated m && realTeeExecution e ;;
  Ok tt.

Record CreModeLabel := { headline : string; don : string; tee : string; provider : string }.

Definition creModeLabel (m : CreExecutionMode) : CreModeLabel :=
  match m with
  | SIMULATED_PLATFORM =>
      {| headline := "SIMULATED (ContextLock simulator)"; don := "NOT DEPLOYED"; tee := "NOT ACTIVE";
         provider := "Official Chainlink CRE CLI" |}
  | SIMULATED_USER =>
      {| headline := "SIMULATED (your CRE CLI)"; don := "NOT DEPLOYED"; tee := "NOT ACTIVE";
         provider := "Official Chainlink CRE CLI, via your Local Bridge" |}
  | DEPLOYED_USER =>
      {| headline := "DEPLOYED"; don := "DEPLOYED"; tee := "NOT ESTABLISHED";
         provider := "Chainlink DON" |}
  end.

Lemma simulation_not_workflow (s : string) : isSimulationId s = true -> isWorkflowId s = false.
Proof.
  unfold isSimulationId, isWorkflowId. rewrite matches_lang.
  unfold CreSimulationIdSchema. rewrite lang_Cat. intros (u & v & -> & Hu & _).
  apply lang_lit in Hu as ->. destruct (matches _ _) eqn:E; [|done].
  apply matches_lang, lang_rep_chr in E as [_ E]. by rewrite !str_app_cons in E.
Qed.

(** A simulation session can never be recorded as a deployed workflow.  The two identifier
    languages are disjoint, and [assertRealWorkflowId] returns exactly the 64-hex-digit
    identifiers, unchanged. *)
Theorem assertRealWorkflowId_spec (id context : string) :
  (isSimulationId id = true -> assertRealWorkflowId id context = Err SIMULATION_IS_NOT_DEPLOYMENT /\
     isWorkflowId id = false) /\
  (forall w, assertRealWorkflowId id context = Ok w <->
     w = id /\ String.length id = 64%nat /\ all_chars is_hex id = true).
Proof.
  unfold assertRealWorkflowId. split.
  - intros H. rewrite H. split; [done|]. by apply simulation_not_workflow.
  - intros w. rewrite !throw_ok, negb_false_iff.
    assert (isWorkflowId id = true <-> String.length id = 64%nat /\ all_chars is_hex id = true) as Hw
      by (unfold isWorkflowId; by rewrite matches_lang, <- lang_rep_chr).
    rewrite <- Hw. split; [intros (_ & ? & [= ->]); done|].
    intros [-> H]. split; [|done].
    destruct (isSimulationId id) eqn:E; [|done]. apply simulation_not_workflow in E. congruence.
Qed.

(** The privacy evidence the code produces always passes the honesty check, and evidence that
    passes it never claims DON consensus or TEE execution for a simulated mode, nor TEE execution
    anywhere without an attestation. *)
Theorem privacyEvidence_honest (m : CreExecutionMode) (ran : bool) (e : PrivacyEvidence) :
  assertPrivacyEvidenceHonest m (privacyEvidenceFor m ran) = Ok tt /\
  (assertPrivacyEvidenceHonest m e = Ok tt <->
     (isSimulated m = true -> realDonConsensus e = false /\ realTeeExecution e = false) /\
     (realTeeExecution e = true -> teeAttestation e = true)).
Proof.
  split; [by destruct m|]. unfold assertPrivacyEvidenceHonest.
  rewrite !throw_ok, !andb_false_iff, negb_false_iff.
  destruct (isSimulated m), (realDonConsensus e), (realTeeExecution e), (teeAttestation e);
    naive_solver.
Qed.

End CreModes.
