(* ===== verification/Plan.v ===== *)
(** * Execution plans

    [packages/studio-plan/src]: the plan document ([schema.ts], Module [Schema]), canonical plan
    and step hashes and the capability scope ([hash.ts], Module [Hash]), the plan state machine
    ([machine.ts], Module [Machine]) and the cross-chain arrival registry ([arrival.ts], Module
    [Arrival]).  [keccak256(toHex(text))] is viem's: the parameter [keccakText] of the sections
    that hash.  Where a statement needs its collision resistance it says instead that the
    conclusion holds or two distinct texts with one hash are exhibited. *)

From S2P Require Import Prelude Regex Json Network.
From stdpp Require Import pretty.
Local Open Scope Z_scope.

Module Schema.

Inductive PlanStepStatus :=
| PENDING | AUTHORIZED | SUBMITTED | CONFIRMED | WAITING_EXTERNAL | FAILED | TIMED_OUT | SKIPPED.
#[export] Instance PlanStepStatus_eq_dec : EqDecision PlanStepStatus.
Proof. solve_decision. Defined.

Inductive EffectKind := TOKEN_OUT | TOKEN_IN | MESSAGE_SENT | MESSAGE_DELIVERED | APPROVAL_SET.
#[export] Instance EffectKind_eq_dec : EqDecision EffectKind.
Proof. solve_decision. Defined.

Record ExpectedEffect := {
  effect_kind : EffectKind;
  effect_chainId : Z;
  effect_token : option string;
  effect_amount : option string;
  effect_party : option string
}.

Inductive PreconditionKind := STEP_CONFIRMED | ARRIVAL_PROVEN | BALANCE_AT_LEAST | TIME_AFTER.
#[export] Instance PreconditionKind_eq_dec : EqDecision PreconditionKind.
Proof. solve_decision. Defined.

Record Precondition := {
  pre_kind : PreconditionKind;
  pre_stepId : option string;
  pre_token : option string;
  pre_amount : option string;
  pre_unixSeconds : option Z
}.

Inductive Disposition := AUTONOMOUS | REQUIRES_HUMAN | DENY.
#[export] Instance Disposition_eq_dec : EqDecision Disposition.
Proof. solve_decision. Defined.

Record AuthorizationRequirement := {
  disposition : Disposition;
  valueUsdCents : option Z;
  capabilityScope : option string
}.

Record PlanStep := {
  stepId : string;
  chainId : Z;
  adapterId : string;
  adapterVersion : string;
  action : string;
  normalizedIntent : list (string * jsv);
  dependencies : list string;
  preconditions : list Precondition;
  expectedEffects : list ExpectedEffect;
  timeoutMs : Z;
  authorizationRequirement : AuthorizationRequirement;
  status : PlanStepStatus
}.

Inductive OnStepFailure := HOLD_AND_ESCALATE | RETRY_SAME_STEP | ABORT_REMAINING.
#[export] Instance OnStepFailure_eq_dec : EqDecision OnStepFailure.
Proof. solve_decision. Defined.

Record FailurePolicy := {
  onStepFailure : OnStepFailure;
  maxRetries : Z;
  protocolRefundAvailable : bool
}.

Inductive PlanState :=
| DRAFT | VALIDATED | AWAITING_AUTHORIZATION | READY | STEP_PENDING | STEP_SUBMITTED
| STEP_CONFIRMED_STATE | WAITING_EXTERNAL_STATE | STEP_FAILED | TIMED_OUT_STATE | PARTIAL
| COMPLETED | ABORTED.
#[export] Instance PlanState_eq_dec : EqDecision PlanState.
Proof. solve_decision. Defined.

Record Invariant_ := { inv_id : string; inv_statement : string }.
Record TimeoutPolicy := { totalMs : Z; perStepDefaultMs : Z }.

Record ExecutionPlan := {
  schemaVersion : string;
  planId : string;
  revision : Z;
  strategyId : string;
  organizationId : option string;
  sourceChainId : Z;
  steps : list PlanStep;
  invariants : list Invariant_;
  timeoutPolicy : TimeoutPolicy;
  failurePolicy : FailurePolicy;
  requiredStepIds : list string;
  state : PlanState
}.

(** [plan.steps.find((x) => x.stepId === id)]. *)
Definition findStep (plan : ExecutionPlan) (id : string) : option PlanStep :=
  List.find (fun s => streq (stepId s) id) (steps plan).

Lemma findStep_Some (plan : ExecutionPlan) (id : string) (s : PlanStep) :
  findStep plan id = Some s -> s ∈ steps plan /\ stepId s = id.
Proof. intros [H E]%find_true. by apply streq_true in E. Qed.

End Schema.

Module Hash.
Import Schema.

Definition effectKindText (k : EffectKind) : string :=
  match k with
  | TOKEN_OUT => "TOKEN_OUT" | TOKEN_IN => "TOKEN_IN" | MESSAGE_SENT => "MESSAGE_SENT"
  | MESSAGE_DELIVERED => "MESSAGE_DELIVERED" | APPROVAL_SET => "APPROVAL_SET"
  end.
Definition preconditionKindText (k : PreconditionKind) : string :=
  match k with
  | STEP_CONFIRMED => "STEP_CONFIRMED" | ARRIVAL_PROVEN => "ARRIVAL_PROVEN"
  | BALANCE_AT_LEAST => "BALANCE_AT_LEAST" | TIME_AFTER => "TIME_AFTER"
  end.
Definition dispositionText (d : Disposition) : string :=
  match d with AUTONOMOUS => "AUTONOMOUS" | REQUIRES_HUMAN => "REQUIRES_HUMAN" | DENY => "DENY" end.
Definition onStepFailureText (o : OnStepFailure) : string :=
  match o with
  | HOLD_AND_ESCALATE => "HOLD_AND_ESCALATE" | RETRY_SAME_STEP => "RETRY_SAME_STEP"
  | ABORT_REMAINING => "ABORT_REMAINING"
  end.

Definition effectValue (e : ExpectedEffect) : jsv :=
  VObj ([("kind", VStr (effectKindText (effect_kind e))); ("chainId", VNum (effect_chainId e))]
    ++ optProp "token" VStr (effect_token e) ++ optProp "amount" VStr (effect_amount e)
    ++ optProp "party" VStr (effect_party e)).

Definition preconditionValue (p : Precondition) : jsv :=
  VObj ([("kind", VStr (preconditionKindText (pre_kind p)))]
    ++ optProp "stepId" VStr (pre_stepId p) ++ optProp "token" VStr (pre_token p)
    ++ optProp "amount" VStr (pre_amount p) ++ optProp "unixSeconds" VNum (pre_unixSeconds p)).

Definition stepIdentity (s : PlanStep) : jsv :=
  VObj [("stepId", VStr (stepId s)); ("chainId", VNum (chainId s));
        ("adapterId", VStr (adapterId s)); ("adapterVersion", VStr (adapterVersion s));
        ("action", VStr (action s)); ("normalizedIntent", VObj (normalizedIntent s));
        ("dependencies", VArr (map VStr (dependencies s)));
        ("preconditions", VArr (map preconditionValue (preconditions s)));
        ("expectedEffects", VArr (map effectValue (expectedEffects s)));
        ("timeoutMs", VNum (timeoutMs s));
        ("authorizationRequirement",
          VObj [("disposition", VStr (dispositionText (disposition (authorizationRequirement s))));
                ("valueUsdCents", orNull VNum (valueUsdCents (authorizationRequirement s)))])].

Definition planIdentity (p : ExecutionPlan) : jsv :=
  VObj [("schemaVersion", VStr (schemaVersion p)); ("planId", VStr (planId p));
        ("revision", VNum (revision p)); ("strategyId", VStr (strategyId p));
        ("organizationId", orNull VStr (organizationId p));
        ("sourceChainId", VNum (sourceChainId p));
        ("invariants", VArr (map (fun i => VObj [("id", VStr (inv_id i));
           ("statement", VStr (inv_statement i))]) (invariants p)));
        ("timeoutPolicy", VObj [("totalMs", VNum (totalMs (timeoutPolicy p)));
           ("perStepDefaultMs", VNum (perStepDefaultMs (timeoutPolicy p)))]);
        ("failurePolicy", VObj [("onStepFailure", VStr (onStepFailureText (onStepFailure (failurePolicy p))));
           ("maxRetries", VNum (maxRetries (failurePolicy p)));
           ("protocolRefundAvailable", VBool (protocolRefundAvailable (failurePolicy p)))]);
        ("completionPolicy", VObj [("requiredStepIds", VArr (map VStr (requiredStepIds p)))]);
        ("steps", VArr (map stepIdentity (steps p)))].

Inductive HashError := PLAN_HASH_BIGINT | PLAN_HASH_NO_STEP.

Section Hashing.
Context (keccakText : string -> string).

Definition hashOf (v : jsv) : result HashError string :=
  match canonicalize v with Ok t => Ok (keccakText t) | Err _ => Err PLAN_HASH_BIGINT end.

Definition planHash (plan : ExecutionPlan) : result HashError string := hashOf (planIdentity plan).

Definition stepHash (plan : ExecutionPlan) (id : string) : result HashError string :=
  match findStep plan id with
  | None => Err PLAN_HASH_NO_STEP
  | Some step =>
      let* ph := planHash plan in
      hashOf (VObj [("planHash", VStr ph); ("stepId", VStr id); ("step", stepIdentity step)])
  end.

Definition capabilityScopeFor (plan : ExecutionPlan) (id : string) : result HashError string :=
  match findStep plan id with
  | None => Err PLAN_HASH_NO_STEP
  | Some step =>
      let* ph := planHash plan in
      let* sh := stepHash plan id in
      Ok ("contextlock:plan:" +:+ ph +:+ ":step:" +:+ id +:+ ":chain:" +:+ pretty (chainId step)
            +:+ ":hash:" +:+ sh)
  end.

(** ** What the hashes leave out: execution progress *)

(** The same step at another point of its execution. *)
Definition withProgress (s : PlanStep) (st : PlanStepStatus) (scope : option string) : PlanStep :=
  {| stepId := stepId s; chainId := chainId s; adapterId := adapterId s;
     adapterVersion := adapterVersion s; action := action s;
     normalizedIntent := normalizedIntent s; dependencies := dependencies s;
     preconditions := preconditions s; expectedEffects := expectedEffects s;
     timeoutMs := timeoutMs s;
     authorizationRequirement :=
       {| disposition := disposition (authorizationRequirement s);
          valueUsdCents := valueUsdCents (authorizationRequirement s);
          capabilityScope := scope |};
     status := st |}.

(** The same plan with its steps and state at another point of its execution. *)
Definition withExecution (p : ExecutionPlan) (ss : list PlanStep) (st : PlanState) : ExecutionPlan :=
  {| schemaVersion := schemaVersion p; planId := planId p; revision := revision p;
     strategyId := strategyId p; organizationId := organizationId p;
     sourceChainId := sourceChainId p; steps := ss; invariants := invariants p;
     timeoutPolicy := timeoutPolicy p; failurePolicy := failurePolicy p;
     requiredStepIds := requiredStepIds p; state := st |}.

Definition progressed (s s' : PlanStep) : Prop := exists st scope, s' = withProgress s st scope.

Lemma progressed_identity s s' : progressed s s' -> stepIdentity s' = stepIdentity s.
Proof. by intros (st & sc & ->). Qed.

Lemma progressed_planIdentity p ss st :
  Forall2 progressed (steps p) ss -> planIdentity (withExecution p ss st) = planIdentity p.
Proof.
  intros H. unfold planIdentity. simpl. do 10 f_equal.
  enough (map stepIdentity ss = map stepIdentity (steps p)) as -> by done.
  induction H as [|s s' l l' Hs _ IH]; simpl; [done|].
  by rewrite IH, (progressed_identity s s' Hs).
Qed.

Lemma progressed_find ss ss' id :
  Forall2 progressed ss ss' ->
  option_Forall2 progressed (List.find (fun s => streq (stepId s) id) ss)
    (List.find (fun s => streq (stepId s) id) ss').
Proof.
  induction 1 as [|s s' l l' Hs _ IH]; simpl; [constructor|].
  pose proof Hs as (st & sc & ->). simpl. destruct (streq (stepId s) id); [by constructor|done].
Qed.

Lemma progressed_planHash p ss st :
  Forall2 progressed (steps p) ss -> planHash (withExecution p ss st) = planHash p.
Proof. intros H. unfold planHash. by rewrite progressed_planIdentity. Qed.

Lemma progressed_stepHash p ss st id :
  Forall2 progressed (steps p) ss -> stepHash (withExecution p ss st) id = stepHash p id.
Proof.
  intros H. unfold stepHash, findStep. rewrite progressed_planHash by done. simpl.
  destruct (progressed_find _ _ id H) as [s s' Hs|]; [|done].
  by rewrite (progressed_identity s s' Hs).
Qed.

(** ** What the hashes cover *)

Definition stepContent (s s' : PlanStep) : Prop :=
  stepId s = stepId s' /\ chainId s = chainId s' /\ adapterId s = adapterId s' /\
  adapterVersion s = adapterVersion s' /\ action s = action s' /\
  alike (VObj (normalizedIntent s)) (VObj (normalizedIntent s')) /\
  dependencies s = dependencies s' /\ preconditions s = preconditions s' /\
  expectedEffects s = expectedEffects s' /\ timeoutMs s = timeoutMs s' /\
  disposition (authorizationRequirement s) = disposition (authorizationRequirement s') /\
  valueUsdCents (authorizationRequirement s) = valueUsdCents (authorizationRequirement s').

Definition planContent (p p' : ExecutionPlan) : Prop :=
  schemaVersion p = schemaVersion p' /\ planId p = planId p' /\ revision p = revision p' /\
  strategyId p = strategyId p' /\ organizationId p = organizationId p' /\
  sourceChainId p = sourceChainId p' /\ invariants p = invariants p' /\
  timeoutPolicy p = timeoutPolicy p' /\ failurePolicy p = failurePolicy p' /\
  requiredStepIds p = requiredStepIds p' /\ Forall2 stepContent (steps p) (steps p').

(** Two distinct texts with one hash. *)
Definition collision : Prop := collides keccakText.

Lemma effect_keys e : NoDup (match effectValue e with VObj l => l.*1 | _ => [] end).
Proof.
  destruct e as [k c [t|] [a|] [q|]]; apply (bool_decide_unpack _); vm_compute; exact I.
Qed.

Lemma precondition_keys p : NoDup (match preconditionValue p with VObj l => l.*1 | _ => [] end).
Proof.
  destruct p as [k [s|] [t|] [a|] [u|]]; apply (bool_decide_unpack _); vm_compute; exact I.
Qed.

Hint Resolve same_num same_str same_bool : core.

Lemma effectValue_inj e e' : sameC (effectValue e) (effectValue e') -> e = e'.
Proof.
  intros H. pose proof effect_keys as nd.
  optprop_of H nd "token". optprop_of H nd "amount". optprop_of H nd "party".
  optprop_of H nd "kind". optprop_of H nd "chainId".
  apply same_option in R, R0, R1; [|eauto..].
  inversion R2 as [? ? Hk|]; subst. inversion R3 as [? ? Hc|]; subst.
  apply same_str in Hk. apply same_num in Hc.
  destruct e as [k c t a q], e' as [k' c' t' a' q']; simpl in *; subst.
  f_equal. by destruct k, k'.
Qed.

Lemma preconditionValue_inj p p' : sameC (preconditionValue p) (preconditionValue p') -> p = p'.
Proof.
  intros H. pose proof precondition_keys as nd.
  optprop_of H nd "stepId". optprop_of H nd "token". optprop_of H nd "amount".
  optprop_of H nd "unixSeconds". optprop_of H nd "kind".
  apply same_option in R, R0, R1, R2; [|eauto..].
  inversion R3 as [? ? Hk|]; subst. apply same_str in Hk.
  destruct p as [k s t a u], p' as [k' s' t' a' u']; simpl in *; subst.
  f_equal. by destruct k, k'.
Qed.

Lemma dispositionText_inj d d' : dispositionText d = dispositionText d' -> d = d'.
Proof. by destruct d, d'. Qed.
Lemma onStepFailureText_inj o o' : onStepFailureText o = onStepFailureText o' -> o = o'.
Proof. by destruct o, o'. Qed.

Lemma stepIdentity_content s s' : sameC (stepIdentity s) (stepIdentity s') -> stepContent s s'.
Proof.
  intros H. unfold stepIdentity in H. unfold stepContent.
  prop_of H "stepId". prop_of H "chainId". prop_of H "adapterId". prop_of H "adapterVersion".
  prop_of H "action". prop_of H "normalizedIntent". prop_of H "dependencies".
  prop_of H "preconditions". prop_of H "expectedEffects". prop_of H "timeoutMs".
  prop_of H "authorizationRequirement".
  match goal with Ha : sameC (VObj [("disposition", _); _]) _ |- _ =>
    prop_of Ha "disposition"; prop_of Ha "valueUsdCents" end.
  split_and!; eauto using same_map_eq, same_alike, effectValue_inj, preconditionValue_inj, dispositionText_inj.
  eapply (same_orNull VNum); eauto.
Qed.

Lemma invariant_inj i i' :
  sameC (VObj [("id", VStr (inv_id i)); ("statement", VStr (inv_statement i))])
        (VObj [("id", VStr (inv_id i')); ("statement", VStr (inv_statement i'))]) -> i = i'.
Proof.
  intros H. prop_of H "id". prop_of H "statement". destruct i, i'; simpl in *.
  f_equal; eauto.
Qed.

Lemma planIdentity_content p p' : sameC (planIdentity p) (planIdentity p') -> planContent p p'.
Proof.
  intros H. unfold planIdentity in H. unfold planContent.
  prop_of H "schemaVersion". prop_of H "planId". prop_of H "revision". prop_of H "strategyId".
  prop_of H "organizationId". prop_of H "sourceChainId". prop_of H "invariants".
  prop_of H "timeoutPolicy". prop_of H "failurePolicy". prop_of H "completionPolicy".
  prop_of H "steps".
  match goal with Ha : sameC (VObj [("totalMs", _); _]) _ |- _ =>
    prop_of Ha "totalMs"; prop_of Ha "perStepDefaultMs" end.
  match goal with Ha : sameC (VObj [("onStepFailure", _); _; _]) _ |- _ =>
    prop_of Ha "onStepFailure"; prop_of Ha "maxRetries"; prop_of Ha "protocolRefundAvailable" end.
  match goal with Ha : sameC (VObj [("requiredStepIds", _)]) _ |- _ =>
    prop_of Ha "requiredStepIds" end.
  split_and!; eauto using same_map, same_map_eq, invariant_inj, stepIdentity_content.
  - eapply (same_orNull VStr); eauto.
  - eapply same_map_eq; [apply invariant_inj|done].
  - destruct (timeoutPolicy p), (timeoutPolicy p'); simpl in *. f_equal; eauto.
  - destruct (failurePolicy p), (failurePolicy p'); simpl in *.
    f_equal; eauto using onStepFailureText_inj.
Qed.

Lemma hashOf_same v w h : hashOf v = Ok h -> hashOf w = Ok h -> sameC v w \/ collision.
Proof.
  unfold hashOf. destruct (canonicalize v) as [t|] eqn:Ev; [|done].
  destruct (canonicalize w) as [t'|] eqn:Ew; [|done]. intros [= <-] [= E].
  by apply (digest_same keccakText v w t t').
Qed.

Lemma stepHash_same p p' id id' h :
  stepHash p id = Ok h -> stepHash p' id' = Ok h -> (planContent p p' /\ id = id') \/ collision.
Proof.
  unfold stepHash. destruct (findStep p id) as [s|]; [|done].
  destruct (findStep p' id') as [s'|]; [|done].
  intros (ph & Hp & H)%rbind_ok (ph' & Hp' & H')%rbind_ok.
  destruct (hashOf_same _ _ _ H H') as [Hs|]; [|auto].
  prop_of Hs "planHash". prop_of Hs "stepId".
  assert (id = id') as <- by eauto. assert (ph = ph') as <- by eauto.
  destruct (hashOf_same _ _ _ Hp Hp') as [Hs'|]; auto using planIdentity_content.
Qed.

(** Running a plan does not invalidate its own approval.  However the steps progress (their
    statuses and recorded capability scopes) and whatever the plan's state, the plan hash, every
    step hash and every capability scope stay what they were. *)
Theorem hashes_ignore_progress (p : ExecutionPlan) (ss : list PlanStep) (st : PlanState) (id : string) :
  Forall2 progressed (steps p) ss ->
  planHash (withExecution p ss st) = planHash p /\
  stepHash (withExecution p ss st) id = stepHash p id /\
  capabilityScopeFor (withExecution p ss st) id = capabilityScopeFor p id.
Proof.
  intros H. assert (stepHash (withExecution p ss st) id = stepHash p id) as Hs
    by by apply progressed_stepHash.
  split_and!; [by apply progressed_planHash|done|].
  unfold capabilityScopeFor. rewrite Hs, progressed_planHash by done. unfold findStep. simpl.
  by destruct (progressed_find _ _ id H) as [s s' (st' & sc & ->)|].
Qed.

(** C14: an approval is of one plan, but for what hangs on a name.  Two plans with one hash agree on every field that says what would
    execute, or the hash function has a collision.  The normalized intents are arbitrary documents; they say the same up to the
    order of their keys, at every level ([alike]), except for properties named "__proto__": assigning one to the copy that is
    hashed sets its prototype, so the hash covers none of them, and two plans may differ there ([intent_proto_unhashed]). *)
Theorem planHash_binds (p p' : ExecutionPlan) (h : string) :
  planHash p = Ok h -> planHash p' = Ok h -> planContent p p' \/ collision.
Proof.
  intros H H'. destruct (hashOf_same _ _ _ H H') as [Hs|]; auto using planIdentity_content.
Qed.

(** keccak256 prints 32 bytes: every hash has the same number of characters. *)
Context (keccak_length : forall t, String.length (keccakText t) = 66%nat).

Lemma hashOf_length v h : hashOf v = Ok h -> String.length h = 66%nat.
Proof. unfold hashOf. destruct (canonicalize v); [|done]. by intros [= <-]. Qed.

Lemma stepHash_length p id h : stepHash p id = Ok h -> String.length h = 66%nat.
Proof.
  unfold stepHash. destruct (findStep p id); [|done]. intros (ph & _ & H)%rbind_ok.
  by apply hashOf_length in H.
Qed.

(** A step capability is not portable.  A scope that two derivations share was derived for
    the same step id of plans with the same content, or the hash function has a collision; step
    ids are arbitrary strings here, so a crafted id cannot imitate another scope. *)
Theorem capabilityScope_binds (p p' : ExecutionPlan) (id id' scope : string) :
  capabilityScopeFor p id = Ok scope -> capabilityScopeFor p' id' = Ok scope ->
  (planContent p p' /\ id = id') \/ collision.
Proof.
  unfold capabilityScopeFor. destruct (findStep p id) as [s|]; [|done].
  destruct (findStep p' id') as [s'|]; [|done].
  intros (ph & _ & (sh & H & [= <-])%rbind_ok)%rbind_ok
         (ph' & _ & (sh' & H' & [= E])%rbind_ok)%rbind_ok.
  assert (sh' = sh) as ->.
  { rewrite <- !str_app_assoc in E. eapply app_inv_tail_length; [|exact E].
    by rewrite (stepHash_length _ _ _ H), (stepHash_length _ _ _ H'). }
  by eapply stepHash_same.
Qed.
End Hashing.

End Hash.

Module Machine.
Import Network.Roles Network.Fences Schema Hash.

Inductive PlanReason :=
| DEPENDENCY_NOT_SATISFIED
| STEP_NOT_AUTHORIZED
| SCOPE_MISMATCH
| PLAN_MUTATED
| UNKNOWN_STEP
| STEP_NOT_PENDING
| TIMED_OUT
| HUMAN_APPROVAL_REQUIRED
| DENIED
| UNKNOWN_VALUE.

(** What the plan machine throws: its own error, the network guard's, or a hashing error. *)
Inductive PlanFailure :=
| PlanError (r : PlanReason)
| GuardFailure (e : NetworkGuardError)
| HashFailure (e : HashError).

Definition liftGuard {A : Type} (r : result NetworkGuardError A) : result PlanFailure A :=
  match r with Ok a => Ok a | Err e => Err (GuardFailure e) end.
Definition liftHash {A : Type} (r : result HashError A) : result PlanFailure A :=
  match r with Ok a => Ok a | Err e => Err (HashFailure e) end.

Definition stepOf (plan : ExecutionPlan) (id : string) : result PlanFailure PlanStep :=
  match findStep plan id with Some s => Ok s | None => Err (PlanError UNKNOWN_STEP) end.

Definition isStatus (st : PlanStepStatus) (s : PlanStep) : bool := bool_decide (status s = st).

(** The dependencies of [step] that no confirmed step of the plan carries. *)
Definition missingDependencies (plan : ExecutionPlan) (step : PlanStep) : list string :=
  List.filter (fun d => match findStep plan d with
                        | None => true
                        | Some dep => negb (isStatus CONFIRMED dep) end) (dependencies step).

(** [Ok []] is the source's [{ ok: true }]. *)
Definition dependenciesSatisfied (plan : ExecutionPlan) (id : string) : result PlanFailure (list string) :=
  let* step := stepOf plan id in Ok (missingDependencies plan step).

Record StepAuthorization := { presentedScope : string; humanApproved : bool }.

Definition waiting (s : PlanStep) : bool := isStatus PENDING s || isStatus AUTHORIZED s.

Section Execution.
Context (keccakText : string -> string).

(** [plan.steps.some((s) => s.stepId !== stepId && capabilityScopeFor(plan, s.stepId) === scope)]. *)
Fixpoint forAnotherStep (plan : ExecutionPlan) (id scope : string) (ss : list PlanStep)
    : result PlanFailure bool :=
  match ss with
  | [] => Ok false
  | s :: ss' =>
      if streq (stepId s) id then forAnotherStep plan id scope ss'
      else
        let* sc := liftHash (capabilityScopeFor keccakText plan (stepId s)) in
        if streq sc scope then Ok true else forAnotherStep plan id scope ss'
  end.

Definition assertStepExecutable (plan : ExecutionPlan) (id : string) (auth : StepAuthorization)
    (nowMs startedAtMs : Z) : result PlanFailure unit :=
  let* step := stepOf plan id in
  let* _ := liftGuard (fenceWriteByChain EXECUTION_PLAN_VALIDATOR (chainId step) None None) in
  throw PlanError STEP_NOT_PENDING when negb (isStatus PENDING step) && negb (isStatus AUTHORIZED step) ;;
  let* missing := dependenciesSatisfied plan id in
  throw PlanError DEPENDENCY_NOT_SATISFIED when negb (bool_decide (missing = [])) ;;
  throw PlanError TIMED_OUT when nowMs - startedAtMs >? timeoutMs step ;;
  let req := authorizationRequirement step in
  throw PlanError DENIED when bool_decide (disposition req = DENY) ;;
  throw PlanError UNKNOWN_VALUE when bool_decide (valueUsdCents req = None) ;;
  throw PlanError HUMAN_APPROVAL_REQUIRED
    when bool_decide (disposition req = REQUIRES_HUMAN) && negb (humanApproved auth) ;;
  throw PlanError STEP_NOT_AUTHORIZED when streq (presentedScope auth) EmptyString ;;
  let* expected := liftHash (capabilityScopeFor keccakText plan id) in
  if streq (presentedScope auth) expected then Ok tt
  else
    let* other := forAnotherStep plan id (presentedScope auth) (steps plan) in
    Err (PlanError (if other then SCOPE_MISMATCH else PLAN_MUTATED)).
End Execution.

Definition movesValue (s : PlanStep) : bool :=
  isStatus CONFIRMED s && some (fun e => bool_decide (effect_kind e = TOKEN_OUT)
    || bool_decide (effect_kind e = MESSAGE_DELIVERED)) (expectedEffects s).

Definition derivePlanState (plan : ExecutionPlan) : result PlanFailure PlanState :=
  let* required := mapR (stepOf plan) (requiredStepIds plan) in
  let all := steps plan in
  let anyValueMoved := some movesValue all in
  if every (isStatus CONFIRMED) required then Ok COMPLETED
  else
    let failed := List.filter (isStatus FAILED) all in
    let timedOut := List.filter (isStatus Schema.TIMED_OUT) all in
    if (0 <? length failed)%nat || (0 <? length timedOut)%nat then
      if anyValueMoved then Ok PARTIAL
      else Ok (if (0 <? length timedOut)%nat && (length failed =? 0)%nat then TIMED_OUT_STATE else STEP_FAILED)
    else if some (isStatus WAITING_EXTERNAL) all then Ok WAITING_EXTERNAL_STATE
    else if some (isStatus SUBMITTED) all then Ok STEP_SUBMITTED
    else if some (isStatus CONFIRMED) all then Ok STEP_CONFIRMED_STATE
    else if every (isStatus PENDING) all then Ok (if bool_decide (state plan = DRAFT) then DRAFT else READY)
    else Ok STEP_PENDING.

(** [dependenciesSatisfied] runs only on waiting steps, as [&&] does. *)
Definition runnable (plan : ExecutionPlan) (s : PlanStep) : bool :=
  waiting s && match dependenciesSatisfied plan (stepId s) with Ok [] => true | _ => false end.
Definition runnableSteps (plan : ExecutionPlan) : list PlanStep :=
  List.filter (runnable plan) (steps plan).

(** ** What the machine decides *)

Lemma isStatus_true st s : isStatus st s = true <-> status s = st.
Proof. apply bool_decide_eq_true. Qed.

Lemma waiting_true s : waiting s = true <-> status s = PENDING \/ status s = AUTHORIZED.
Proof. unfold waiting. by rewrite orb_true_iff, !isStatus_true. Qed.

(** Dependency [d] has arrived. *)
Definition confirmed (plan : ExecutionPlan) (d : string) : Prop :=
  exists dep, findStep plan d = Some dep /\ status dep = CONFIRMED.

Lemma missingDependencies_nil plan step :
  missingDependencies plan step = [] <-> forall d, d ∈ dependencies step -> confirmed plan d.
Proof.
  unfold missingDependencies, confirmed. split.
  - intros H d Hd. destruct (findStep plan d) as [dep|] eqn:E.
    + exists dep. split; [done|]. apply isStatus_true. destruct (isStatus CONFIRMED dep) eqn:Es; [done|].
      enough (d ∈ []) by (by apply not_elem_of_nil in H0). rewrite <- H.
      apply list_elem_of_In, filter_In. rewrite <- list_elem_of_In, E, Es. done.
    + enough (d ∈ []) by (by apply not_elem_of_nil in H0). rewrite <- H.
      apply list_elem_of_In, filter_In. rewrite <- list_elem_of_In, E. done.
  - intros H. induction (dependencies step) as [|d ds IH]; simpl; [done|].
    destruct (H d) as (dep & -> & Hs); [left|]. apply isStatus_true in Hs. rewrite Hs. simpl.
    apply IH. intros d' Hd'. apply H. by right.
Qed.

Section Executable.
Context (keccakText : string -> string).
Abbreviation scopeFor := (capabilityScopeFor keccakText).

Lemma forAnotherStep_ok plan id scope ss b :
  forAnotherStep keccakText plan id scope ss = Ok b ->
  b = true <-> exists s, s ∈ ss /\ stepId s <> id /\ scopeFor plan (stepId s) = Ok scope.
Proof.
  induction ss as [|s ss IH]; simpl.
  - intros [= <-]. split; [done|]. intros (s & Hs & _). by apply not_elem_of_nil in Hs.
  - setoid_rewrite elem_of_cons. destruct (streq (stepId s) id) eqn:E.
    + apply streq_true in E. intros ->%IH. split; [naive_solver|].
      intros (x & [->|Hx] & Hne & Hsc); [done|eauto].
    + apply streq_false in E. unfold liftHash.
      destruct (scopeFor plan (stepId s)) as [sc|e] eqn:Es; simpl; [|done].
      destruct (streq sc scope) eqn:Ec.
      * apply streq_true in Ec as ->. intros [= <-]. split; [|done]. intros _. exists s. auto.
      * apply streq_false in Ec. intros ->%IH. split; [naive_solver|].
        intros (x & [->|Hx] & Hne & Hsc); [|eauto]. congruence.
Qed.

(** Everything that must hold for a step to run now. *)
Definition mayExecute (plan : ExecutionPlan) (id : string) (auth : StepAuthorization)
    (nowMs startedAtMs : Z) : Prop :=
  exists step, findStep plan id = Some step /\ chainId step ∈ writableChains /\
    (status step = PENDING \/ status step = AUTHORIZED) /\
    (forall d, d ∈ dependencies step -> confirmed plan d) /\
    nowMs - startedAtMs <= timeoutMs step /\
    disposition (authorizationRequirement step) <> DENY /\
    (exists v, valueUsdCents (authorizationRequirement step) = Some v) /\
    (disposition (authorizationRequirement step) = REQUIRES_HUMAN -> humanApproved auth = true) /\
    scopeFor plan id = Ok (presentedScope auth).

(** What each refusal says of the plan and the step. *)
Definition refusalMeans (plan : ExecutionPlan) (id : string) (auth : StepAuthorization)
    (nowMs startedAtMs : Z) (f : PlanFailure) : Prop :=
  match f with
  | PlanError UNKNOWN_STEP => findStep plan id = None
  | HashFailure e => exists i, scopeFor plan i = Err e
  | GuardFailure e => exists step, findStep plan id = Some step /\ chainId step ∉ writableChains /\
      e = guardError (if isProductionChain (chainId step) then PRODUCTION_WRITE else NOT_APPROVED) (chainId step)
  | PlanError r => exists step, findStep plan id = Some step /\ chainId step ∈ writableChains /\
      match r with
      | STEP_NOT_PENDING => status step <> PENDING /\ status step <> AUTHORIZED
      | DEPENDENCY_NOT_SATISFIED => exists d, d ∈ dependencies step /\ ~ confirmed plan d
      | TIMED_OUT => timeoutMs step < nowMs - startedAtMs
      | DENIED => disposition (authorizationRequirement step) = DENY
      | UNKNOWN_VALUE => valueUsdCents (authorizationRequirement step) = None
      | HUMAN_APPROVAL_REQUIRED =>
          disposition (authorizationRequirement step) = REQUIRES_HUMAN /\ humanApproved auth = false
      | STEP_NOT_AUTHORIZED => presentedScope auth = EmptyString
      | SCOPE_MISMATCH => exists s, s ∈ steps plan /\ stepId s <> id /\
          scopeFor plan (stepId s) = Ok (presentedScope auth)
      | PLAN_MUTATED => forall s, s ∈ steps plan -> scopeFor plan (stepId s) <> Ok (presentedScope auth)
      | UNKNOWN_STEP => False
      end
  end.

Lemma scope_nonempty plan id s : scopeFor plan id = Ok s -> s <> EmptyString.
Proof.
  unfold capabilityScopeFor. destruct (findStep plan id); [|done].
  intros (? & _ & (? & _ & [= <-])%rbind_ok)%rbind_ok. by rewrite str_app_cons.
Qed.

Lemma forAnotherStep_err plan id scope ss f :
  forAnotherStep keccakText plan id scope ss = Err f ->
  exists e i, f = HashFailure e /\ scopeFor plan i = Err e.
Proof.
  induction ss as [|s ss IH]; simpl; [done|]. destruct (streq (stepId s) id); [done|].
  destruct (scopeFor plan (stepId s)) as [sc|e] eqn:Es; simpl; [by destruct (streq sc scope)|].
  intros [= <-]. eauto.
Qed.

Lemma fence_cases (cid : Z) :
  (cid ∈ writableChains /\ liftGuard (fenceWriteByChain EXECUTION_PLAN_VALIDATOR cid None None) = Ok tt) \/
  (cid ∉ writableChains /\ liftGuard (fenceWriteByChain EXECUTION_PLAN_VALIDATOR cid None None) =
     Err (GuardFailure (guardError (if isProductionChain cid then PRODUCTION_WRITE else NOT_APPROVED) cid))).
Proof.
  destruct (decide (cid ∈ writableChains)) as [H|H]; [left|right]; (split; [done|]);
    unfold liftGuard; [by rewrite fenceWriteByChain_ok|by rewrite fenceWriteByChain_refused].
Qed.

(** The result is the allowance or a refusal whose reason holds. *)
Lemma assertStepExecutable_cases plan id auth nowMs startedAtMs :
  match assertStepExecutable keccakText plan id auth nowMs startedAtMs with
  | Ok _ => mayExecute plan id auth nowMs startedAtMs
  | Err f => refusalMeans plan id auth nowMs startedAtMs f
  end.
Proof.
  unfold assertStepExecutable, dependenciesSatisfied, stepOf.
  destruct (findStep plan id) as [step|] eqn:Ef; [|done]. cbn [rbind].
  destruct (fence_cases (chainId step)) as [[Hc ->]|[Hc ->]]; cbn [rbind]; [|by exists step].
  destruct (isStatus PENDING step || isStatus AUTHORIZED step) eqn:Hs.
  2:{ rewrite <- negb_orb, Hs. cbn [negb refusalMeans]. exists step.
      apply orb_false_iff in Hs as [H1%bool_decide_eq_false H2%bool_decide_eq_false]. done. }
  pose proof (proj1 (waiting_true step) Hs) as Hw. rewrite <- negb_orb, Hs. cbn [negb].
  case_bool_decide as Hm; cbn [negb].
  2:{ exists step. split_and!; [done..|].
      destruct (missingDependencies plan step) as [|d l] eqn:El; [done|].
      assert (d ∈ missingDependencies plan step) as Hd by (rewrite El; left).
      apply list_elem_of_In, filter_In in Hd as [Hd He]. rewrite <- list_elem_of_In in Hd.
      exists d. split; [done|]. intros (dep & Hdep & Hst). rewrite Hdep in He.
      apply isStatus_true in Hst. by rewrite Hst in He. }
  destruct (nowMs - startedAtMs >? timeoutMs step) eqn:Ht; rewrite Z.gtb_ltb in Ht;
    [apply Z.ltb_lt in Ht; by exists step|apply Z.ltb_ge in Ht].
  case_bool_decide as Hd; [by exists step|]. case_bool_decide as Hv; [by exists step|].
  destruct (bool_decide (disposition (authorizationRequirement step) = REQUIRES_HUMAN)
    && negb (humanApproved auth)) eqn:Hh.
  { apply andb_true_iff in Hh as [H1%bool_decide_eq_true H2%negb_true_iff]. by exists step. }
  destruct (streq (presentedScope auth) EmptyString) eqn:He; [apply streq_true in He; by exists step|].
  destruct (scopeFor plan id) as [sc|e] eqn:Es; cbn [liftHash rbind]; [|by exists id].
  destruct (streq (presentedScope auth) sc) eqn:Ep.
  - apply streq_true in Ep as <-. exists step. split_and!; try done.
    + by apply missingDependencies_nil.
    + destruct (valueUsdCents _) as [v|]; [by exists v|done].
    + intros Hr. apply andb_false_iff in Hh as [Hh%bool_decide_eq_false|Hh%negb_false_iff]; done.
  - apply streq_false in Ep. destruct (forAnotherStep _ _ _ _ _) as [b|f] eqn:Eo; cbn [rbind].
    + apply forAnotherStep_ok in Eo. destruct b; exists step; (split_and!; [done..|]).
      * by apply Eo.
      * intros s Hin Hsc. destruct (decide (stepId s = id)) as [<-|Hne]; [congruence|].
        by discriminate (proj2 Eo (ex_intro _ s (conj Hin (conj Hne Hsc)))).
    + apply forAnotherStep_err in Eo as (e & i & -> & Hi). by exists i.
Qed.

(** C15: a step runs exactly when every condition holds at once: it is of this plan and on a
    writable chain, still waiting, all its dependencies CONFIRMED (a submitted one is not
    arrived), within its timeout, not denied, of known value, approved by a person where its
    disposition asks for one, and presented with the scope the current plan derives for it. *)
Theorem assertStepExecutable_spec (plan : ExecutionPlan) (id : string) (auth : StepAuthorization)
    (nowMs startedAtMs : Z) :
  assertStepExecutable keccakText plan id auth nowMs startedAtMs = Ok tt <->
  mayExecute plan id auth nowMs startedAtMs.
Proof.
  split.
  - pose proof (assertStepExecutable_cases plan id auth nowMs startedAtMs) as Hc.
    intros H. by rewrite H in Hc.
  - intros (s & Ef & Hc & Hst & Hd & Ht & Hdi & [v Hv] & Hh & Hsc).
    unfold assertStepExecutable, dependenciesSatisfied, stepOf. rewrite Ef. cbn [rbind].
    rewrite (fenceWriteByChain_ok _ _ None None Hc). cbn [liftGuard rbind].
    apply waiting_true in Hst. unfold waiting in Hst. rewrite <- negb_orb, Hst. cbn [negb].
    rewrite (proj2 (missingDependencies_nil plan s) Hd), Z.gtb_ltb, Hv, Hsc.
    rewrite (proj2 (Z.ltb_ge _ _) Ht), (bool_decide_eq_false_2 _ Hdi).
    apply scope_nonempty, streq_false in Hsc. rewrite Hsc. simpl. rewrite streq_refl.
    by case_bool_decide as Hr; [rewrite (Hh Hr)|].
Qed.

(** Every refusal is honest.  A production or unregistered chain is refused by the fence
    before anything else is looked at; the reasons that follow state what is wrong with the step;
    SCOPE_MISMATCH says the presented scope is another step's of this very plan, PLAN_MUTATED
    that no step of the current plan has it. *)
Theorem assertStepExecutable_refusal (plan : ExecutionPlan) (id : string) (auth : StepAuthorization)
    (nowMs startedAtMs : Z) (f : PlanFailure) :
  assertStepExecutable keccakText plan id auth nowMs startedAtMs = Err f ->
  refusalMeans plan id auth nowMs startedAtMs f.
Proof.
  pose proof (assertStepExecutable_cases plan id auth nowMs startedAtMs) as Hc.
  intros H. by rewrite H in Hc.
Qed.
End Executable.

Lemma mapR_stepOf plan ids :
  match mapR (stepOf plan) ids with
  | Ok ss => Forall2 (fun i s => findStep plan i = Some s) ids ss
  | Err f => f = PlanError UNKNOWN_STEP /\ exists i, i ∈ ids /\ findStep plan i = None
  end.
Proof.
  induction ids as [|i ids IH]; simpl; [constructor|]. unfold stepOf at 1.
  destruct (findStep plan i) as [s|] eqn:E; simpl; [|split; [done|exists i; split; [left|done]]].
  destruct (mapR (stepOf plan) ids) as [ss|f]; simpl; [by constructor|].
  destruct IH as (-> & j & Hj & Hn). split; [done|]. exists j. split; [by right|done].
Qed.

Lemma required_confirmed plan ids ss :
  Forall2 (fun i s => findStep plan i = Some s) ids ss ->
  every (isStatus CONFIRMED) ss = true <-> forall i, i ∈ ids -> confirmed plan i.
Proof.
  unfold confirmed. induction 1 as [|i s ids ss Hi _ IH]; simpl.
  - split; [intros _ i Hi; by apply not_elem_of_nil in Hi|done].
  - setoid_rewrite elem_of_cons. fold (every (isStatus CONFIRMED) ss).
    rewrite andb_true_iff, IH, isStatus_true. naive_solver.
Qed.

Lemma filter_none {A : Type} (f : A -> bool) l : (0 <? length (List.filter f l))%nat = some f l.
Proof. induction l as [|x l IH]; simpl; [done|]. by destruct (f x). Qed.

Lemma movesValue_confirmed ss : some movesValue ss = true -> some (isStatus CONFIRMED) ss = true.
Proof.
  rewrite !some_true. intros (s & Hs & H). exists s. split; [done|].
  by apply andb_true_iff in H as [H _].
Qed.

(** Rewrite the conditions of a headline into propositions and decide them. *)
Ltac finish Hreq Hf Hl := rewrite <- Hreq, Hf, Hl; clear; intuition congruence.

(** The headline matches the detail.  The derived state is COMPLETED exactly when every
    required step is CONFIRMED; it is PARTIAL exactly when it is not, some step failed or timed out
    and some confirmed step moved value; and once value has moved it is never a state that reads
    "nothing happened".  The only error is a required id that names no step. *)
Theorem derivePlanState_honest (plan : ExecutionPlan) :
  match derivePlanState plan with
  | Ok st =>
      (st = COMPLETED <-> forall i, i ∈ requiredStepIds plan -> confirmed plan i) /\
      (st = PARTIAL <-> st <> COMPLETED /\ some movesValue (steps plan) = true /\
         exists s, s ∈ steps plan /\ (status s = FAILED \/ status s = Schema.TIMED_OUT)) /\
      (some movesValue (steps plan) = true ->
         st ∉ [DRAFT; READY; STEP_PENDING; STEP_FAILED; TIMED_OUT_STATE])
  | Err f => f = PlanError UNKNOWN_STEP /\ exists i, i ∈ requiredStepIds plan /\ findStep plan i = None
  end.
Proof.
  unfold derivePlanState. pose proof (mapR_stepOf plan (requiredStepIds plan)) as Hr.
  destruct (mapR _ _) as [req|f]; cbn [rbind]; cbv zeta; [|done].
  pose proof (required_confirmed _ _ _ Hr) as Hreq.
  assert ((exists s, s ∈ steps plan /\ (status s = FAILED \/ status s = Schema.TIMED_OUT)) <->
    some (isStatus FAILED) (steps plan) || some (isStatus Schema.TIMED_OUT) (steps plan) = true) as Hf.
  { rewrite orb_true_iff, !some_true. setoid_rewrite isStatus_true. naive_solver. }
  rewrite !filter_none. pose proof (movesValue_confirmed (steps plan)) as Hmv.
  assert (forall st : PlanState, st ∉ [DRAFT; READY; STEP_PENDING; STEP_FAILED; TIMED_OUT_STATE] <->
    st <> DRAFT /\ st <> READY /\ st <> STEP_PENDING /\ st <> STEP_FAILED /\ st <> TIMED_OUT_STATE) as Hl.
  { intros st. rewrite !not_elem_of_cons. pose proof (not_elem_of_nil st). tauto. }
  destruct (every (isStatus CONFIRMED) req); [finish Hreq Hf Hl|].
  destruct (some (isStatus FAILED) (steps plan) || some (isStatus Schema.TIMED_OUT) (steps plan)).
  - destruct (some movesValue (steps plan)); [|destruct (_ && _)]; finish Hreq Hf Hl.
  - destruct (some (isStatus WAITING_EXTERNAL) _); [finish Hreq Hf Hl|].
    destruct (some (isStatus SUBMITTED) _); [finish Hreq Hf Hl|].
    destruct (some movesValue (steps plan)); [rewrite Hmv by done; finish Hreq Hf Hl|].
    destruct (some (isStatus CONFIRMED) _); [finish Hreq Hf Hl|].
    destruct (every (isStatus PENDING) _); [case_bool_decide|]; finish Hreq Hf Hl.
Qed.

(** Every dependency names an earlier step. *)
Definition ordered (ss : list PlanStep) : Prop :=
  forall pre s post, ss = pre ++ s :: post -> forall d, d ∈ dependencies s -> d ∈ map stepId pre.

Lemma findStep_unique plan s :
  NoDup (map stepId (steps plan)) -> s ∈ steps plan -> findStep plan (stepId s) = Some s.
Proof.
  unfold findStep. induction (steps plan) as [|x l IH]; simpl; [intros _ H; by apply not_elem_of_nil in H|].
  intros [Hx Hnd]%NoDup_cons [->|Hs]%elem_of_cons; [by rewrite streq_refl|].
  destruct (streq (stepId x) (stepId s)) eqn:E; [|auto]. apply streq_true in E. destruct Hx.
  rewrite E. apply list_elem_of_In, in_map. by apply list_elem_of_In.
Qed.

Lemma first_unconfirmed ss :
  (exists s, s ∈ ss /\ status s <> CONFIRMED) ->
  exists pre s post, ss = pre ++ s :: post /\ status s <> CONFIRMED /\
    forall x, x ∈ pre -> status x = CONFIRMED.
Proof.
  induction ss as [|x ss IH]; intros (s & Hs & Hn); [by apply not_elem_of_nil in Hs|].
  destruct (decide (status x = CONFIRMED)) as [Hx|Hx].
  - apply elem_of_cons in Hs as [->|Hs]; [done|].
    destruct IH as (pre & y & post & -> & Hy & Hpre); [by exists s|].
    exists (x :: pre), y, post. split_and!; [done..|]. intros z [->|Hz]%elem_of_cons; auto.
  - exists [], x, ss. split_and!; [done..|]. intros z Hz. by apply not_elem_of_nil in Hz.
Qed.

Lemma runnable_true plan s :
  NoDup (map stepId (steps plan)) -> s ∈ steps plan ->
  runnable plan s = true <->
  (status s = PENDING \/ status s = AUTHORIZED) /\ forall d, d ∈ dependencies s -> confirmed plan d.
Proof.
  intros Hnd Hs. unfold runnable, dependenciesSatisfied, stepOf.
  rewrite (findStep_unique plan s Hnd Hs), andb_true_iff, waiting_true, <- missingDependencies_nil.
  simpl. destruct (missingDependencies plan s); intuition congruence.
Qed.

(** A well-ordered plan never deadlocks.  While no step has failed, expired, been skipped or is
    in flight and some step is not yet CONFIRMED, there is a runnable step; and every runnable step
    is waiting with all its dependencies CONFIRMED. *)
Theorem runnableSteps_progress (plan : ExecutionPlan) :
  NoDup (map stepId (steps plan)) -> ordered (steps plan) ->
  (forall s, s ∈ steps plan -> status s ∈ [PENDING; AUTHORIZED; CONFIRMED]) ->
  (exists s, s ∈ steps plan /\ status s <> CONFIRMED) ->
  runnableSteps plan <> [] /\
  forall s, s ∈ runnableSteps plan ->
    (status s = PENDING \/ status s = AUTHORIZED) /\ forall d, d ∈ dependencies s -> confirmed plan d.
Proof.
  intros Hnd Hord Hst Hex.
  assert (forall s, s ∈ runnableSteps plan <-> s ∈ steps plan /\ runnable plan s = true) as Hin.
  { intros s. unfold runnableSteps. by rewrite !list_elem_of_In, filter_In. }
  split; [|intros s [Hs Hr]%Hin; by apply runnable_true in Hr].
  destruct (first_unconfirmed _ Hex) as (pre & s & post & E & Hs & Hpre).
  assert (s ∈ steps plan) as Hmem by (rewrite E; set_solver).
  enough (s ∈ runnableSteps plan) as H by (intros H0; rewrite H0 in H; by apply not_elem_of_nil in H).
  apply Hin. split; [done|]. apply runnable_true; [done..|]. split.
  - specialize (Hst s Hmem). rewrite !elem_of_cons, elem_of_nil in Hst. naive_solver.
  - intros d Hd. specialize (Hord pre s post E d Hd).
    apply list_elem_of_In, in_map_iff in Hord as (dep & <- & Hdep%list_elem_of_In).
    exists dep. split; [|auto]. apply findStep_unique; [done|]. rewrite E. set_solver.
Qed.

End Machine.

Module Arrival.
Import Schema Hash.

Inductive ArrivalReason :=
| DUPLICATE
| WRONG_SOURCE_CHAIN
| WRONG_SENDER
| WRONG_DESTINATION
| WRONG_RECEIVER
| TOKEN_MISMATCH
| AMOUNT_MISMATCH
| UNKNOWN_PLAN
| UNKNOWN_STEP
| STEP_HASH_MISMATCH
| DEPENDENCY_NOT_SATISFIED.

(** What the caller knows of the wire; the rest of an expectation comes from the plan. *)
Record Wire := {
  w_sourceChainSelector : string;
  w_sender : string;
  w_destinationChainId : Z;
  w_receiver : string;
  w_token : string;
  w_amount : string
}.

Record ArrivalExpectation := {
  x_planHash : string;
  x_stepId : string;
  x_stepHash : string;
  x_sourceChainId : Z;
  x_wire : Wire
}.

Record ObservedArrival := {
  messageId : string;
  o_planHash : string;
  o_stepId : string;
  o_stepHash : string;
  o_sourceChainSelector : string;
  o_sender : string;
  o_destinationChainId : Z;
  o_receiver : string;
  o_token : string;
  o_amount : string
}.

Inductive ArrivalOutcome := accepted (id : string) | refused (r : ArrivalReason).

(** messageId -> plan hash and step id of the arrival that used it. *)
Definition ArrivalRegistry : Type := gmap string (string * string).

Definition expectationFor (keccakText : string -> string) (plan : ExecutionPlan) (id : string) (w : Wire)
    : result HashError ArrivalExpectation :=
  let* ph := planHash keccakText plan in
  let* sh := stepHash keccakText plan id in
  Ok {| x_planHash := ph; x_stepId := id; x_stepHash := sh; x_sourceChainId := sourceChainId plan;
        x_wire := w |}.

Definition has (reg : ArrivalRegistry) (id : string) : bool := bool_decide (is_Some (reg !! id)).

Definition record (reg : ArrivalRegistry) (e : ArrivalExpectation) (o : ObservedArrival)
    : ArrivalOutcome * ArrivalRegistry :=
  if has reg (messageId o) then (refused DUPLICATE, reg)
  else if negb (streq (o_planHash o) (x_planHash e)) then (refused UNKNOWN_PLAN, reg)
  else if negb (streq (o_stepId o) (x_stepId e)) then (refused UNKNOWN_STEP, reg)
  else if negb (streq (o_stepHash o) (x_stepHash e)) then (refused STEP_HASH_MISMATCH, reg)
  else if negb (streq (o_sourceChainSelector o) (w_sourceChainSelector (x_wire e))) then
    (refused WRONG_SOURCE_CHAIN, reg)
  else if negb (eq_ci (o_sender o) (w_sender (x_wire e))) then (refused WRONG_SENDER, reg)
  else if negb (o_destinationChainId o =? w_destinationChainId (x_wire e)) then
    (refused WRONG_DESTINATION, reg)
  else if negb (eq_ci (o_receiver o) (w_receiver (x_wire e))) then (refused WRONG_RECEIVER, reg)
  else if negb (eq_ci (o_token o) (w_token (x_wire e))) then (refused TOKEN_MISMATCH, reg)
  else if negb (streq (o_amount o) (w_amount (x_wire e))) then (refused AMOUNT_MISMATCH, reg)
  else (accepted (messageId o), <[messageId o := (o_planHash o, o_stepId o)]> reg).

(** The arrival is the one the plan expects. *)
Definition expectedArrival (e : ArrivalExpectation) (o : ObservedArrival) : Prop :=
  o_planHash o = x_planHash e /\ o_stepId o = x_stepId e /\ o_stepHash o = x_stepHash e /\
  o_sourceChainSelector o = w_sourceChainSelector (x_wire e) /\
  to_lower (o_sender o) = to_lower (w_sender (x_wire e)) /\
  o_destinationChainId o = w_destinationChainId (x_wire e) /\
  to_lower (o_receiver o) = to_lower (w_receiver (x_wire e)) /\
  to_lower (o_token o) = to_lower (w_token (x_wire e)) /\
  o_amount o = w_amount (x_wire e).

(** The field a refusal blames differs, and the message was not seen before. *)
Definition refusalHolds (reg : ArrivalRegistry) (e : ArrivalExpectation) (o : ObservedArrival)
    (r : ArrivalReason) : Prop :=
  match r with
  | DUPLICATE => is_Some (reg !! messageId o)
  | _ => reg !! messageId o = None /\
      match r with
      | UNKNOWN_PLAN => o_planHash o <> x_planHash e
      | UNKNOWN_STEP => o_stepId o <> x_stepId e
      | STEP_HASH_MISMATCH => o_stepHash o <> x_stepHash e
      | WRONG_SOURCE_CHAIN => o_sourceChainSelector o <> w_sourceChainSelector (x_wire e)
      | WRONG_SENDER => to_lower (o_sender o) <> to_lower (w_sender (x_wire e))
      | WRONG_DESTINATION => o_destinationChainId o <> w_destinationChainId (x_wire e)
      | WRONG_RECEIVER => to_lower (o_receiver o) <> to_lower (w_receiver (x_wire e))
      | TOKEN_MISMATCH => to_lower (o_token o) <> to_lower (w_token (x_wire e))
      | AMOUNT_MISMATCH => o_amount o <> w_amount (x_wire e)
      | _ => False
      end
  end.

Lemma has_true reg id : has reg id = true <-> is_Some (reg !! id).
Proof. apply bool_decide_eq_true. Qed.
Lemma has_false reg id : has reg id = false <-> reg !! id = None.
Proof. unfold has. by rewrite bool_decide_eq_false, <- eq_None_not_Some. Qed.

Lemma record_cases reg e o :
  match record reg e o with
  | (accepted id, reg') => id = messageId o /\ reg !! messageId o = None /\ expectedArrival e o /\
      reg' = <[messageId o := (o_planHash o, o_stepId o)]> reg
  | (refused r, reg') => reg' = reg /\ refusalHolds reg e o r
  end.
Proof.
  unfold record, expectedArrival, refusalHolds.
  destruct (has reg (messageId o)) eqn:Eh; [by apply has_true in Eh|apply has_false in Eh].
  repeat match goal with
  | |- context [if negb (?f ?a ?b) then _ else _] =>
      let E := fresh "E" in destruct (f a b) eqn:E; cbn [negb];
      [|first [apply streq_false in E|apply Z.eqb_neq in E]; done];
      first [apply streq_true in E|apply Z.eqb_eq in E]
  end.
  done.
Qed.

(** A run of the registry: the accepted message ids, in order, and the registry it ends in. *)
Fixpoint recordAll (reg : ArrivalRegistry) (l : list (ArrivalExpectation * ObservedArrival))
    : list string * ArrivalRegistry :=
  match l with
  | [] => ([], reg)
  | (e, o) :: l' =>
      let '(out, reg1) := record reg e o in
      let '(ids, reg2) := recordAll reg1 l' in
      (match out with accepted id => id :: ids | refused _ => ids end, reg2)
  end.

(** An arrival is accepted exactly when its message id is new and every field is the one the
    plan expects; then, and only then, the registry records it.  A refusal names a field that
    differs, and a replay is refused as DUPLICATE whatever its fields are. *)
Theorem record_spec (reg : ArrivalRegistry) (e : ArrivalExpectation) (o : ObservedArrival) :
  (fst (record reg e o) = accepted (messageId o) <->
     reg !! messageId o = None /\ expectedArrival e o) /\
  match record reg e o with
  | (accepted id, reg') => id = messageId o /\ reg' = <[messageId o := (o_planHash o, o_stepId o)]> reg
  | (refused r, reg') => reg' = reg /\ refusalHolds reg e o r
  end.
Proof.
  pose proof (record_cases reg e o) as H. destruct (record reg e o) as [[id|r] reg']; simpl.
  - destruct H as (-> & Hn & He & ->). done.
  - destruct H as [-> H]. split; [|done]. split; [done|]. intros [Hn He]. exfalso.
    unfold expectedArrival in He. destruct r; simpl in H; try rewrite Hn in H; try by destruct H.
    all: destruct H as [_ H]; tauto.
Qed.

Lemma recordAll_fresh l reg ids reg' :
  recordAll reg l = (ids, reg') ->
  NoDup ids /\ (forall id, id ∈ ids -> reg !! id = None /\ is_Some (reg' !! id)) /\
  (forall id, is_Some (reg !! id) -> is_Some (reg' !! id)).
Proof.
  revert reg ids reg'. induction l as [|[e o] l IH]; intros reg ids reg'; simpl.
  - intros [= <- <-]. split_and!; [constructor|intros id H; by apply not_elem_of_nil in H|done].
  - pose proof (record_cases reg e o) as Hc. destruct (record reg e o) as [out reg1].
    destruct (recordAll reg1 l) as [ids' reg2] eqn:E. intros [= <- <-].
    destruct (IH _ _ _ E) as (Hnd & Hin & Hkeep). destruct out as [id|r].
    + destruct Hc as (-> & Hn & _ & ->). split_and!.
      * constructor; [|done]. intros Hm. destruct (Hin _ Hm) as [Hx _]. by apply lookup_insert_None in Hx as [_ []].
      * intros id [->|Hid]%elem_of_cons; [split; [done|]; apply Hkeep, lookup_insert_is_Some'; by left|].
        destruct (Hin _ Hid) as [Hx ?]. split; [|done]. by apply lookup_insert_None in Hx as [? _].
      * intros id Hid. apply Hkeep, lookup_insert_is_Some'. by right.
    + destruct Hc as [-> _]. done.
Qed.

(** C31: one message funds one execution.  Over any sequence of observations, whatever is expected
    at each, every message id is accepted at most once, none that the registry already held is
    accepted again, and an accepted one stays recorded. *)
Theorem recordAll_once (reg : ArrivalRegistry) (l : list (ArrivalExpectation * ObservedArrival)) :
  NoDup (fst (recordAll reg l)) /\
  forall id, id ∈ fst (recordAll reg l) -> reg !! id = None /\ is_Some (snd (recordAll reg l) !! id).
Proof.
  destruct (recordAll reg l) as [ids reg'] eqn:E. apply recordAll_fresh in E as (? & ? & _). done.
Qed.

End Arrival.

Module Samples.
Import Schema Hash Machine.

(** A stand-in for the hash: the text's first characters, padded to the width of a hash. *)
Fixpoint takePad (n : nat) (t : string) : string :=
  match n with
  | O => EmptyString
  | S n' => match t with
            | EmptyString => String (Ascii.ascii_of_nat 48) (takePad n' EmptyString)
            | String c t' => String c (takePad n' t')
            end
  end.
Definition padHash (t : string) : string := takePad 66 t.

Lemma padHash_length (t : string) : String.length (padHash t) = 66%nat.
Proof.
  unfold padHash. generalize 66%nat. intros n. revert t.
  induction n as [|n IH]; intros t; simpl; [done|]. destruct t; simpl; by rewrite IH.
Qed.

Definition sampleStep (id : string) (cid : Z) (deps : list string) (st : PlanStepStatus) : PlanStep :=
  {| stepId := id; chainId := cid; adapterId := "ccip"; adapterVersion := "1.0.0"; action := "bridge";
     normalizedIntent := [("amount", VStr "500"); ("token", VStr "0xusdc")]; dependencies := deps;
     preconditions := [];
     expectedEffects := [{| effect_kind := TOKEN_OUT; effect_chainId := cid; effect_token := None;
                            effect_amount := Some "500"; effect_party := None |}];
     timeoutMs := 60000;
     authorizationRequirement :=
       {| disposition := AUTONOMOUS; valueUsdCents := Some 50000; capabilityScope := None |};
     status := st |}.

Definition samplePlan (st1 st2 : PlanStepStatus) : ExecutionPlan :=
  {| schemaVersion := "contextlock.execution-plan/v1"; planId := "plan-1"; revision := 1;
     strategyId := "strategy-1"; organizationId := None; sourceChainId := 11155111;
     steps := [sampleStep "send" 11155111 [] st1; sampleStep "deposit" 84532 ["send"] st2];
     invariants := []; timeoutPolicy := {| totalMs := 120000; perStepDefaultMs := 60000 |};
     failurePolicy := {| onStepFailure := HOLD_AND_ESCALATE; maxRetries := 0;
                         protocolRefundAvailable := false |};
     requiredStepIds := ["send"; "deposit"]; state := VALIDATED |}.

(** The plan with one intent for both steps. *)
Definition intended (l : list (string * jsv)) : ExecutionPlan :=
  let p := samplePlan PENDING PENDING in
  {| schemaVersion := schemaVersion p; planId := planId p; revision := revision p; strategyId := strategyId p;
     organizationId := organizationId p; sourceChainId := sourceChainId p;
     steps := map (fun s => {| stepId := stepId s; chainId := chainId s; adapterId := adapterId s; adapterVersion := adapterVersion s;
                               action := action s; normalizedIntent := l; dependencies := dependencies s;
                               preconditions := preconditions s; expectedEffects := expectedEffects s; timeoutMs := timeoutMs s;
                               authorizationRequirement := authorizationRequirement s; status := status s |}) (steps p);
     invariants := invariants p; timeoutPolicy := timeoutPolicy p; failurePolicy := failurePolicy p;
     requiredStepIds := requiredStepIds p; state := state p |}.
Definition paying (l : list (string * jsv)) : ExecutionPlan :=
  intended [("recipient", VStr "0xbob"); ("limits", VObj (("max", VNum 5) :: l))].
(** The same, the keys in another order. *)
Definition payingReordered : ExecutionPlan := intended [("limits", VObj [("max", VNum 5)]); ("recipient", VStr "0xbob")].
(** The text itself for its hash. *)
Definition textHash (t : string) : string := t.

(** A property named "__proto__" is in the plan and not in the hash; any other is. *)
Example intent_proto_unhashed : planHash textHash (paying [("__proto__", VStr "0xeve")]) = planHash textHash (paying []) /\
  paying [("__proto__", VStr "0xeve")] <> paying [] /\
  planHash textHash (paying [("proto", VStr "0xeve")]) <> planHash textHash (paying []) /\
  planHash textHash payingReordered = planHash textHash (paying []) /\ payingReordered <> paying [].
Proof. vm_compute. split_and!; first [reflexivity|discriminate]. Qed.

(** The second step cannot run while the first is only submitted; it can when it is confirmed. *)
Example submitted_is_not_arrived :
  runnableSteps (samplePlan SUBMITTED PENDING) = [] /\
  map stepId (runnableSteps (samplePlan CONFIRMED PENDING)) = ["deposit"] /\
  derivePlanState (samplePlan CONFIRMED FAILED) = Ok PARTIAL.
Proof. vm_compute. done. Qed.

End Samples.

Module Witnesses.
Import Schema Hash Machine Samples.

Lemma hashes_ignore_progress_witness :
  Forall2 progressed (steps (samplePlan PENDING PENDING)) (steps (samplePlan CONFIRMED SUBMITTED)) /\
  planHash padHash (withExecution (samplePlan PENDING PENDING)
    (steps (samplePlan CONFIRMED SUBMITTED)) STEP_SUBMITTED) = planHash padHash (samplePlan PENDING PENDING) /\
  is_ok (planHash padHash (samplePlan PENDING PENDING)) = true.
Proof.
  assert (Forall2 progressed (steps (samplePlan PENDING PENDING)) (steps (samplePlan CONFIRMED SUBMITTED)))
    as H by (repeat constructor; eexists _, None; reflexivity).
  split_and!; [exact H| |vm_compute; reflexivity].
  exact (proj1 (hashes_ignore_progress padHash _ _ STEP_SUBMITTED "send" H)).
Defined.

Lemma planHash_binds_witness :
  exists h, planHash textHash (paying []) = Ok h /\ planHash textHash payingReordered = Ok h /\
    (planContent (paying []) payingReordered \/ collision textHash).
Proof.
  eexists. split; [vm_compute; reflexivity|]. split; [vm_compute; reflexivity|].
  eapply (planHash_binds textHash); vm_compute; reflexivity.
Defined.

Lemma capabilityScope_binds_witness :
  exists sc, capabilityScopeFor padHash (samplePlan PENDING PENDING) "deposit" = Ok sc /\
    capabilityScopeFor padHash (samplePlan CONFIRMED PENDING) "deposit" = Ok sc /\
    ((planContent (samplePlan PENDING PENDING) (samplePlan CONFIRMED PENDING) /\ "deposit" = "deposit")
     \/ collision padHash).
Proof.
  eexists. split; [vm_compute; reflexivity|]. split; [vm_compute; reflexivity|].
  eapply (capabilityScope_binds padHash padHash_length); vm_compute; reflexivity.
Defined.

(** Presenting the first step's scope for the second. *)
Lemma assertStepExecutable_refusal_witness :
  exists sc, capabilityScopeFor padHash (samplePlan CONFIRMED PENDING) "send" = Ok sc /\
    refusalMeans padHash (samplePlan CONFIRMED PENDING) "deposit"
      {| presentedScope := sc; humanApproved := false |} 0 0 (PlanError SCOPE_MISMATCH).
Proof.
  eexists. split; [vm_compute; reflexivity|].
  apply (assertStepExecutable_refusal padHash). vm_compute. reflexivity.
Defined.

Lemma runnableSteps_progress_witness :
  runnableSteps (samplePlan CONFIRMED AUTHORIZED) <> [] /\
  forall s, s ∈ runnableSteps (samplePlan CONFIRMED AUTHORIZED) ->
    (status s = PENDING \/ status s = AUTHORIZED) /\
    forall d, d ∈ dependencies s -> confirmed (samplePlan CONFIRMED AUTHORIZED) d.
Proof.
  apply runnableSteps_progress.
  - apply (bool_decide_unpack _). vm_compute. exact I.
  - intros [|x [|y [|z pre]]] s post [= <- E]; simplify_eq; simpl; intros d Hd;
      [by apply not_elem_of_nil in Hd|done|..].
  - simpl. set_solver.
  - eexists. split; [right; left|done].
Defined.

End Witnesses.
