(* ===== verification/Capability.v ===== *)
(** * Capabilities and evaluation requests

    [packages/protocol/src/capability.ts]: the capability, its EIP-712 types, and the hash of the
    evaluation request the policy evaluator rules on.  [keccak256], [encodeAbiParameters] and
    [hashTypedData] are viem's and are parameters.  The encoder's documented behaviour is the one
    hypothesis: of two value lists of the same types it encodes to the same bytes only those that
    agree, hexadecimal text being read without regard to letter case. *)

From S2P Require Import Prelude Json.
Local Open Scope Z_scope.

(** ** ABI values, as the callers of [encodeAbiParameters] type them *)

Inductive AbiType := TUint8 | TUint64 | TUint256 | TBytes32 | TAddress.
#[export] Instance AbiType_eq_dec : EqDecision AbiType.
Proof. solve_decision. Defined.

Inductive AbiValue := AInt (n : Z) | AHex (s : string).

(** Bytes and addresses are hexadecimal text whose letter case carries no information. *)
Definition abiCanon (v : AbiValue) : AbiValue :=
  match v with AInt n => AInt n | AHex s => AHex (to_lower s) end.

Inductive AbiError := EncodeRefused.

Class AbiCodec := {
  encodeAbiParameters : list AbiType -> list AbiValue -> result AbiError string;
  keccak256 : string -> string;
  encode_inj : forall ts l l' b,
    encodeAbiParameters ts l = Ok b -> encodeAbiParameters ts l' = Ok b ->
    map abiCanon l = map abiCanon l'
}.

(** Two distinct texts with one hash. *)
Definition collision `{AbiCodec} : Prop := exists t t', t <> t' /\ keccak256 t = keccak256 t'.

Record Capability := {
  version : Z;
  agentIdentityHash : string;
  agent : string;
  chainId : Z;
  executor : string;
  tgt : string;
  value : Z;
  calldataHash : string;
  intentHash : string;
  policyHash : string;
  authorizationId : string;
  contextCommitment : string;
  issuedAt : Z;
  expiresAt : Z;
  nonce : Z
}.

(** The EIP-712 type: field names and types in schema order. *)
Definition CAPABILITY_TYPES : list (string * AbiType) :=
  [("version", TUint8); ("agentIdentityHash", TBytes32); ("agent", TAddress); ("chainId", TUint256);
   ("executor", TAddress); ("target", TAddress); ("value", TUint256); ("calldataHash", TBytes32);
   ("intentHash", TBytes32); ("policyHash", TBytes32); ("authorizationId", TBytes32);
   ("contextCommitment", TBytes32); ("issuedAt", TUint64); ("expiresAt", TUint64); ("nonce", TUint256)].

Definition abiTypeName (t : AbiType) : string :=
  match t with
  | TUint8 => "uint8" | TUint64 => "uint64" | TUint256 => "uint256" | TBytes32 => "bytes32"
  | TAddress => "address"
  end.

(** The EIP-712 encoding of a struct type. *)
Definition encodeType (name : string) (fields : list (string * AbiType)) : string :=
  name +:+ "(" +:+ String.concat "," (map (fun '(n, t) => abiTypeName t +:+ " " +:+ n) fields) +:+ ")".

Definition CAPABILITY_TYPE_STRING : string :=
  "Capability(uint8 version,bytes32 agentIdentityHash,address agent,uint256 chainId,address executor,address target,uint256 value,bytes32 calldataHash,bytes32 intentHash,bytes32 policyHash,bytes32 authorizationId,bytes32 contextCommitment,uint64 issuedAt,uint64 expiresAt,uint256 nonce)".

Definition REQUEST_TYPE_STRING : string :=
  "EvaluationRequest(bytes32 agentIdentityHash,address agent,uint256 chainId,address executor,address target,uint256 value,bytes32 calldataHash,bytes32 intentHash,bytes32 policyHash)".

Record Eip712Domain := {
  domain_name : string;
  domain_version : string;
  domain_chainId : Z;
  verifyingContract : string
}.

Definition domain (cid : Z) (exec : string) : Eip712Domain :=
  {| domain_name := "ContextLock"; domain_version := "1"; domain_chainId := cid;
     verifyingContract := exec |}.

(** The fields of a capability in schema order. *)
Definition capabilityValues (c : Capability) : list AbiValue :=
  [AInt (version c); AHex (agentIdentityHash c); AHex (agent c); AInt (chainId c); AHex (executor c);
   AHex (tgt c); AInt (value c); AHex (calldataHash c); AHex (intentHash c); AHex (policyHash c);
   AHex (authorizationId c); AHex (contextCommitment c); AInt (issuedAt c); AInt (expiresAt c);
   AInt (nonce c)].

Section Hashes.
Context `{AbiCodec}.

Definition CAPABILITY_TYPEHASH : string := keccak256 CAPABILITY_TYPE_STRING.
Definition REQUEST_TYPEHASH : string := keccak256 REQUEST_TYPE_STRING.

Definition domainSeparator (cid : Z) (exec : string) : result AbiError string :=
  let* b := encodeAbiParameters [TBytes32; TBytes32; TBytes32; TUint256; TAddress]
    [AHex (keccak256 "EIP712Domain(string name,string version,uint256 chainId,address verifyingContract)");
     AHex (keccak256 "ContextLock"); AHex (keccak256 "1"); AInt cid; AHex exec] in
  Ok (keccak256 b).

Definition hashStruct (cap : Capability) : result AbiError string :=
  let* b := encodeAbiParameters
    [TBytes32; TUint8; TBytes32; TAddress; TUint256; TAddress; TAddress; TUint256; TBytes32; TBytes32;
     TBytes32; TBytes32; TBytes32; TUint64; TUint64; TUint256]
    [AHex CAPABILITY_TYPEHASH; AInt (version cap); AHex (agentIdentityHash cap); AHex (agent cap);
     AInt (chainId cap); AHex (executor cap); AHex (tgt cap); AInt (value cap);
     AHex (calldataHash cap); AHex (intentHash cap); AHex (policyHash cap); AHex (authorizationId cap);
     AHex (contextCommitment cap); AInt (issuedAt cap); AInt (expiresAt cap); AInt (nonce cap)] in
  Ok (keccak256 b).

Definition requestHash (cap : Capability) : result AbiError string :=
  let* b := encodeAbiParameters
    [TBytes32; TBytes32; TAddress; TUint256; TAddress; TAddress; TUint256; TBytes32; TBytes32; TBytes32]
    [AHex REQUEST_TYPEHASH; AHex (agentIdentityHash cap); AHex (agent cap); AInt (chainId cap);
     AHex (executor cap); AHex (tgt cap); AInt (value cap); AHex (calldataHash cap);
     AHex (intentHash cap); AHex (policyHash cap)] in
  Ok (keccak256 b).

(** The transaction identity two capabilities share: everything the evaluator ruled on. *)
Definition sameRequest (c c' : Capability) : Prop :=
  chainId c = chainId c' /\ value c = value c' /\
  Forall2 (fun s s' => to_lower s = to_lower s')
    [agentIdentityHash c; agent c; executor c; tgt c; calldataHash c; intentHash c; policyHash c]
    [agentIdentityHash c'; agent c'; executor c'; tgt c'; calldataHash c'; intentHash c'; policyHash c'].

(** The rest of a capability: what belongs to an authorization of the request. *)
Definition sameIssue (c c' : Capability) : Prop :=
  version c = version c' /\ issuedAt c = issuedAt c' /\ expiresAt c = expiresAt c' /\
  nonce c = nonce c' /\ to_lower (authorizationId c) = to_lower (authorizationId c') /\
  to_lower (contextCommitment c) = to_lower (contextCommitment c').

Lemma hash_encode_same ts l l' h :
  (let* b := encodeAbiParameters ts l in Ok (keccak256 b)) = Ok h ->
  (let* b := encodeAbiParameters ts l' in Ok (keccak256 b)) = Ok h ->
  map abiCanon l = map abiCanon l' \/ collision.
Proof.
  intros (b & Hb & [= E])%rbind_ok (b' & Hb' & [= E'])%rbind_ok.
  destruct (decide (b = b')) as [<-|Hne]; [left; by eapply encode_inj|].
  right. exists b, b'. split; [done|congruence].
Qed.

(** The request hash ignores what an issue adds. *)
Lemma requestHash_issue c c' :
  chainId c = chainId c' -> value c = value c' -> agentIdentityHash c = agentIdentityHash c' ->
  agent c = agent c' -> executor c = executor c' -> tgt c = tgt c' ->
  calldataHash c = calldataHash c' -> intentHash c = intentHash c' -> policyHash c = policyHash c' ->
  requestHash c = requestHash c'.
Proof. unfold requestHash. by intros -> -> -> -> -> -> -> -> ->. Qed.

(** [hashTypedData] of viem, given a domain, a type table, the primary type and the field values. *)
Context (hashTypedData : Eip712Domain -> list (string * AbiType) -> string -> list AbiValue -> string).

Definition capabilityDigest (cap : Capability) : string :=
  hashTypedData (domain (chainId cap) (executor cap)) CAPABILITY_TYPES "Capability"
    (capabilityValues cap).

(** An ALLOW granted for one transaction is worthless for another.  Two capabilities with one
    request hash agree on chain, executor, target, value, calldata, intent, agent and policy (up to
    the letter case of hexadecimal text), or keccak256 has a collision; with one struct hash they
    agree on every field, nonce and lifetime included. *)
Theorem capability_hashes_bind (c c' : Capability) (h : string) :
  (requestHash c = Ok h -> requestHash c' = Ok h -> sameRequest c c' \/ collision) /\
  (hashStruct c = Ok h -> hashStruct c' = Ok h -> (sameRequest c c' /\ sameIssue c c') \/ collision).
Proof.
  unfold requestHash, hashStruct. split; intros H1 H2;
    destruct (hash_encode_same _ _ _ _ H1 H2) as [E|]; auto; left; simpl in E; injection E;
    intros; unfold sameRequest, sameIssue; split_and!; auto 10.
Qed.

End Hashes.

(** The type string is the EIP-712 encoding of the type table, so a capability's struct hash and the
    digest viem computes from [CAPABILITY_TYPES] speak of one schema. *)
Example type_string_matches_types :
  encodeType "Capability" CAPABILITY_TYPES = CAPABILITY_TYPE_STRING /\
  length (capabilityValues (Build_Capability 0 "" "" 0 "" "" 0 "" "" "" "" "" 0 0 0))
    = length CAPABILITY_TYPES.
Proof. vm_compute. done. Qed.

(** ** A codec *)

(** The encoder of a model: the JSON text of the canonical values, and the identity for a hash. *)
Definition abiJson (v : AbiValue) : json :=
  match abiCanon v with AInt n => JNum n | AHex s => JStr s end.

Lemma abiJson_inj l l' : map abiJson l = map abiJson l' -> map abiCanon l = map abiCanon l'.
Proof.
  revert l'. induction l as [|v l IH]; intros [|v' l'] E; simpl in *; try done.
  injection E as Ev E. f_equal; [|auto]. unfold abiJson in Ev.
  destruct v, v'; simpl in *; congruence.
Qed.

Lemma jsonCodec_inj (ts : list AbiType) (l l' : list AbiValue) (b : string) :
  Ok (E := AbiError) (stringify (JArr (map abiJson l))) = Ok b ->
  Ok (E := AbiError) (stringify (JArr (map abiJson l'))) = Ok b ->
  map abiCanon l = map abiCanon l'.
Proof.
  intros E E'. assert (stringify (JArr (map abiJson l)) = stringify (JArr (map abiJson l'))) as Es
    by congruence.
  apply stringify_inj in Es. injection Es. apply abiJson_inj.
Qed.

Definition jsonCodec : AbiCodec :=
  {| encodeAbiParameters := fun _ l => Ok (stringify (JArr (map abiJson l)));
     keccak256 := fun t => t; encode_inj := jsonCodec_inj |}.

Definition sampleCapability (amount n : Z) : Capability :=
  {| version := 1; agentIdentityHash := "0xaa"; agent := "0xA1"; chainId := 11155111;
     executor := "0xE1"; tgt := "0xT1"; value := amount; calldataHash := "0xc0"; intentHash := "0x1e";
     policyHash := "0x90"; authorizationId := "0xa0"; contextCommitment := "0xc7";
     issuedAt := 100; expiresAt := 160; nonce := n |}.

Lemma capability_hashes_bind_witness :
  requestHash (H := jsonCodec) (sampleCapability 5 1) = requestHash (H := jsonCodec) (sampleCapability 5 2) /\
  requestHash (H := jsonCodec) (sampleCapability 5 1) <> requestHash (H := jsonCodec) (sampleCapability 6 1) /\
  exists h, requestHash (H := jsonCodec) (sampleCapability 5 1) = Ok h /\
    (sameRequest (sampleCapability 5 1) (sampleCapability 5 2) \/ collision (H := jsonCodec)).
Proof.
  split; [vm_compute; reflexivity|]. split; [vm_compute; discriminate|].
  eexists. split; [vm_compute; reflexivity|].
  eapply (proj1 (capability_hashes_bind (H := jsonCodec) _ _ _)); vm_compute; reflexivity.
Defined.
