(* ===== verification/Broker.v ===== *)
(** * The broker

    [apps/broker/src]: the documented life cycle of a request ([state-machine.ts], Module [States]),
    the typed adapter that alone builds transactions ([packages/adapters/src/index.ts], Module
    [Adapters]), and request handling over the broker's tables ([broker.ts], [db.ts], Module
    [Requests]).

    [createRequest] awaits three providers.  Between two awaits it runs without interruption, so the
    broker is a state (tables, nonce counter, requests in progress) and one handler per segment;
    a run is any sequence of segments of any number of requests, interleaved as the providers
    answer.  Provider answers, clock readings (one per segment) and the random request ids arrive in
    the events. *)

From S2P Require Import Prelude Regex Json Network Capability.
From stdpp Require Import pretty.
Local Open Scope Z_scope.

Module States.

Inductive RequestState :=
| RECEIVED | IDENTITY_VALIDATED | POLICY_EVALUATING
| DENIED | ESCALATION_REQUIRED | AUTHORIZED
| CAPABILITY_ISSUED | SUBMITTED
| EXECUTED | REVERTED | EXPIRED | FAILED.
#[export] Instance RequestState_eq_dec : EqDecision RequestState.
Proof. solve_decision. Defined.

Definition TRANSITIONS (s : RequestState) : list RequestState :=
  match s with
  | RECEIVED => [IDENTITY_VALIDATED; DENIED; FAILED]
  | IDENTITY_VALIDATED => [POLICY_EVALUATING; DENIED; FAILED]
  | POLICY_EVALUATING => [AUTHORIZED; ESCALATION_REQUIRED; DENIED; FAILED]
  | AUTHORIZED => [CAPABILITY_ISSUED; EXPIRED; FAILED]
  | ESCALATION_REQUIRED => [EXPIRED; FAILED]
  | CAPABILITY_ISSUED => [SUBMITTED; EXPIRED]
  | SUBMITTED => [EXECUTED; REVERTED]
  | DENIED => []
  | EXECUTED => []
  | REVERTED => []
  | EXPIRED => []
  | FAILED => []
  end.

Record InvalidTransitionError := { from_ : RequestState; to_ : RequestState }.

Definition canTransition (a b : RequestState) : bool := includes (TRANSITIONS a) b.
Definition assertTransition (a b : RequestState) : result InvalidTransitionError unit :=
  throw {| from_ := a; to_ := b |} when negb (canTransition a b) ;; Ok tt.
Definition isTerminal (s : RequestState) : bool := (length (TRANSITIONS s) =? 0)%nat.
Definition mayExecute (s : RequestState) : bool :=
  bool_decide (s = CAPABILITY_ISSUED) || bool_decide (s = SUBMITTED).

(** The states visited from [s], each transition asserted. *)
Fixpoint walk (s : RequestState) (l : list RequestState) : result InvalidTransitionError RequestState :=
  match l with
  | [] => Ok s
  | t :: l' => let* _ := assertTransition s t in walk t l'
  end.

(** Every walk of at most [n] transitions. *)
Fixpoint walks (n : nat) (s : RequestState) : list (list RequestState) :=
  [] :: match n with
        | O => []
        | S n' => flat_map (fun t => map (cons t) (walks n' t)) (TRANSITIONS s)
        end.

(** How many transitions a state has left at most. *)
Definition rank (s : RequestState) : nat :=
  match s with
  | RECEIVED => 6 | IDENTITY_VALIDATED => 5 | POLICY_EVALUATING => 4 | AUTHORIZED => 3
  | CAPABILITY_ISSUED => 2 | ESCALATION_REQUIRED | SUBMITTED => 1
  | DENIED | EXECUTED | REVERTED | EXPIRED | FAILED => 0
  end.

Lemma canTransition_rank a b : canTransition a b = true -> (rank b < rank a)%nat.
Proof.
  unfold canTransition. rewrite includes_true. destruct a; simpl;
    rewrite ?elem_of_cons, elem_of_nil; intuition subst; simpl; lia.
Qed.

Lemma walk_ok s t l e : walk s (t :: l) = Ok e <-> canTransition s t = true /\ walk t l = Ok e.
Proof.
  simpl. unfold assertTransition. destruct (canTransition s t); simpl; intuition congruence.
Qed.

Lemma walk_bounded s l e : walk s l = Ok e -> (length l + rank e <= rank s)%nat.
Proof.
  revert s. induction l as [|t l IH]; intros s; [intros [= ->]; simpl; lia|].
  intros [H%canTransition_rank Hw%IH]%walk_ok. simpl. lia.
Qed.

Lemma walk_walks s l e n : walk s l = Ok e -> (length l <= n)%nat -> l ∈ walks n s.
Proof.
  revert s n. induction l as [|t l IH]; intros s n H Hn; [destruct n; left|].
  destruct n as [|n]; simpl in Hn; [lia|]. apply walk_ok in H as [Ht Hw]. simpl. right.
  apply list_elem_of_In, in_flat_map. exists t. split.
  - apply list_elem_of_In. by apply includes_true.
  - apply in_map, list_elem_of_In. eapply IH; [done|lia].
Qed.

(** Decide a property of every walk from [RECEIVED] by listing them. *)
Lemma every_walk (p : list RequestState -> bool) :
  forallb p (walks 6 RECEIVED) = true -> forall l e, walk RECEIVED l = Ok e -> p l = true.
Proof.
  rewrite forallb_forall. intros H l e Hw. apply H, list_elem_of_In.
  eapply walk_walks; [done|]. pose proof (walk_bounded _ _ _ Hw). simpl in *. lia.
Qed.

Definition executionPath : list RequestState :=
  [IDENTITY_VALIDATED; POLICY_EVALUATING; AUTHORIZED; CAPABILITY_ISSUED; SUBMITTED; EXECUTED].
Definition onlyExecution (l : list RequestState) : bool :=
  negb (includes l EXECUTED) || bool_decide (l = executionPath).
Definition refusedStays (l : list RequestState) : bool :=
  negb (includes l DENIED || includes l ESCALATION_REQUIRED) || every (fun s => negb (mayExecute s)) l.

(** A denial can never be walked forward.  From RECEIVED every walk has at most six
    transitions; a walk that reaches EXECUTED is the one that passes AUTHORIZED, CAPABILITY_ISSUED
    and SUBMITTED; and one that visits DENIED or ESCALATION_REQUIRED visits no state in which a
    capability exists. *)
Theorem lifecycle_safe (l : list RequestState) (e : RequestState) :
  walk RECEIVED l = Ok e ->
  (length l <= 6)%nat /\
  (EXECUTED ∈ l -> l = executionPath) /\
  (DENIED ∈ l \/ ESCALATION_REQUIRED ∈ l -> forall s, s ∈ l -> mayExecute s = false) /\
  (isTerminal e = true <-> forall t, canTransition e t = false).
Proof.
  intros Hw. split_and!.
  - pose proof (walk_bounded _ _ _ Hw). simpl in *. lia.
  - assert (onlyExecution l = true) as H by (eapply every_walk; [vm_compute; reflexivity|exact Hw]).
    unfold onlyExecution, executionPath in H. rewrite orb_true_iff, negb_true_iff, includes_false, bool_decide_eq_true in H. tauto.
  - assert (refusedStays l = true) as H by (eapply every_walk; [vm_compute; reflexivity|exact Hw]).
    unfold refusedStays in H. rewrite orb_true_iff, negb_true_iff, orb_false_iff, !includes_false, every_true in H.
    intros Hv s Hs. apply negb_true_iff. destruct H as [H|H]; [tauto|auto].
  - unfold isTerminal, canTransition. destruct e; simpl; (split; [done|]);
      intros H; try done; (match type of H with forall t, includes (?x :: _) _ = false =>
        pose proof (H x) as Hx end; apply includes_false in Hx; by destruct Hx; left).
Qed.

Lemma lifecycle_safe_witness :
  walk RECEIVED [IDENTITY_VALIDATED; POLICY_EVALUATING; DENIED] = Ok DENIED /\
  forall s, s ∈ [IDENTITY_VALIDATED; POLICY_EVALUATING; DENIED] -> mayExecute s = false.
Proof.
  split; [vm_compute; reflexivity|].
  apply (lifecycle_safe [IDENTITY_VALIDATED; POLICY_EVALUATING; DENIED] DENIED);
    [vm_compute; reflexivity|left; repeat constructor].
Defined.

End States.

(** viem's address checks, call encoder and typed-data hash. *)
Class Evm := {
  isAddress : string -> bool;
  getAddress : string -> string;
  encodeFunctionData : string -> list AbiValue -> result AbiError string;
  hashTypedData : Eip712Domain -> list (string * AbiType) -> string -> list AbiValue -> string
}.

Module Adapters.

Inductive ActionKind := MOCK_TRANSFER | REPAY_VIRTUAL_DEBT.
#[export] Instance ActionKind_eq_dec : EqDecision ActionKind.
Proof. solve_decision. Defined.

Definition actionKindText (k : ActionKind) : string :=
  match k with MOCK_TRANSFER => "MOCK_TRANSFER" | REPAY_VIRTUAL_DEBT => "REPAY_VIRTUAL_DEBT" end.

Definition ZERO_ADDRESS : string := "0x0000000000000000000000000000000000000000".

(** [/^[0-9]+$/] and the two bounds; the value is the text itself. *)
Definition baseUnitsSchema (v : string) : option string :=
  if matches (Regex.plus (Chr is_digit)) v then
    match decimal 0 v with
    | Some n => if (0 <? n)%N && (n <=? 2 ^ 128)%N then Some v else None
    | None => None
    end
  else None.

(** [BigInt(v)] of a decimal string. *)
Definition bigintOf (v : string) : Z := Z.of_N (default 0%N (decimal 0 v)).

Record MockTransferParams := { recipient : string; amount : string }.

Record CandidateTransaction := {
  tx_chainId : Z;
  tx_target : string;
  tx_value : Z;
  tx_calldata : string;
  tx_calldataHash : string;
  tx_actionKind : ActionKind;
  tx_actionKindHash : string;
  tx_semanticSummary : list (string * string)
}.

Record AdapterContext := { ctx_chainId : Z; ctx_target : string }.

Section Adapter.
Context `{AbiCodec} `{Evm}.

Definition actionKindHash (k : ActionKind) : string := keccak256 (actionKindText k).

Definition addressSchema (v : string) : option string :=
  if isAddress v then Some (getAddress v) else None.

Definition recipientSchema (v : string) : option string :=
  match addressSchema v with
  | Some a => if streq (to_lower a) ZERO_ADDRESS then None else Some a
  | None => None
  end.

Definition asString (v : option jsv) : option string :=
  match v with Some (VStr s) => Some s | _ => None end.

(** A strict object: exactly the two keys, each of its schema. *)
Definition mockTransferParams (v : jsv) : option MockTransferParams :=
  match v with
  | VObj l =>
      if every (fun k => includes ["recipient"; "amount"] k) l.*1 then
        match asString (getKey "recipient" l), asString (getKey "amount" l) with
        | Some r, Some a =>
            match recipientSchema r, baseUnitsSchema a with
            | Some r', Some a' => Some {| recipient := r'; amount := a' |}
            | _, _ => None
            end
        | _, _ => None
        end
      else None
  | _ => None
  end.

Definition mockTransferBuild (params : MockTransferParams) (ctx : AdapterContext)
    : result AbiError CandidateTransaction :=
  let n := bigintOf (amount params) in
  let* calldata := encodeFunctionData "transferTo" [AHex (recipient params); AInt n] in
  Ok {| tx_chainId := ctx_chainId ctx; tx_target := ctx_target ctx; tx_value := 0;
        tx_calldata := calldata; tx_calldataHash := keccak256 calldata;
        tx_actionKind := MOCK_TRANSFER; tx_actionKindHash := actionKindHash MOCK_TRANSFER;
        tx_semanticSummary := [("action", "Transfer treasury units"); ("recipient", recipient params);
          ("amount", pretty n); ("target", ctx_target ctx); ("value", "0")] |}.

Record TransactionAdapter := {
  actionKind : ActionKind;
  schema : jsv -> option MockTransferParams;
  build : MockTransferParams -> AdapterContext -> result AbiError CandidateTransaction
}.

Definition mockTransferAdapter : TransactionAdapter :=
  {| actionKind := MOCK_TRANSFER; schema := mockTransferParams; build := mockTransferBuild |}.

Definition registry : list (string * TransactionAdapter) :=
  [(actionKindText MOCK_TRANSFER, mockTransferAdapter)].

(** [None] is the source's [UnknownActionKindError]. *)
Definition getAdapter (kind : string) : option TransactionAdapter := getKey kind registry.

Definition supportedActionKinds : list string := registry.*1.

(** The arguments the bytes are encoded from and the summary a person reads are one derivation. *)
Definition summarized (tx : CandidateTransaction) (r : string) (n : Z) : Prop :=
  encodeFunctionData "transferTo" [AHex r; AInt n] = Ok (tx_calldata tx) /\
  getKey "recipient" (tx_semanticSummary tx) = Some r /\
  getKey "amount" (tx_semanticSummary tx) = Some (pretty n) /\
  getKey "target" (tx_semanticSummary tx) = Some (tx_target tx).

Lemma baseUnitsSchema_ok v v' :
  baseUnitsSchema v = Some v' -> v' = v /\ 0 < bigintOf v <= 2 ^ 128.
Proof.
  unfold baseUnitsSchema, bigintOf. destruct (matches _ v); [|done].
  destruct (decimal 0 v) as [n|]; [|done].
  destruct ((0 <? n)%N && (n <=? 2 ^ 128)%N) eqn:E; [|done]. intros [= <-].
  apply andb_true_iff in E as [E1%N.ltb_lt E2%N.leb_le]. simpl. split; [done|]. lia.
Qed.

Lemma mockTransferParams_ok v p :
  mockTransferParams v = Some p ->
  to_lower (recipient p) <> ZERO_ADDRESS /\ 0 < bigintOf (amount p) <= 2 ^ 128.
Proof.
  unfold mockTransferParams. destruct v; try done. destruct (every _ _); [|done].
  destruct (asString _) as [r|]; [|done]. destruct (asString _) as [a|]; [|done].
  destruct (recipientSchema r) as [r'|] eqn:Er; [|done].
  destruct (baseUnitsSchema a) as [a'|] eqn:Ea; [|done]. intros [= <-]. simpl.
  apply baseUnitsSchema_ok in Ea as [-> ?]. split; [|done].
  unfold recipientSchema in Er. destruct (addressSchema r); [|done].
  destruct (streq _ _) eqn:E; [done|]. injection Er as <-. by apply streq_false in E.
Qed.

(** The agent cannot burn or overflow, and the display cannot lie.  Whatever parameters the
    adapter's schema accepts, the recipient is not the zero address and the amount is between 1 and
    2^128; the transaction it builds goes to the policy's target with no native value, and the
    summary's recipient and amount are exactly those its calldata was encoded from. *)
Theorem mockTransfer_faithful (v : jsv) (p : MockTransferParams) (ctx : AdapterContext)
    (tx : CandidateTransaction) :
  schema mockTransferAdapter v = Some p -> build mockTransferAdapter p ctx = Ok tx ->
  to_lower (recipient p) <> ZERO_ADDRESS /\ 0 < bigintOf (amount p) <= 2 ^ 128 /\
  tx_target tx = ctx_target ctx /\ tx_chainId tx = ctx_chainId ctx /\ tx_value tx = 0 /\
  tx_calldataHash tx = keccak256 (tx_calldata tx) /\
  summarized tx (recipient p) (bigintOf (amount p)).
Proof.
  intros Hs Hb. destruct (mockTransferParams_ok v p Hs) as [Hr Ha].
  simpl in Hb. unfold mockTransferBuild in Hb.
  apply rbind_ok in Hb as (cd & Hcd & [= <-]). done.
Qed.

End Adapter.
End Adapters.

Module Requests.
Import Network.Fences Adapters.

(** [packages/protocol/src/errors.ts]. *)
Inductive ReasonCode :=
| IDENTITY_NOT_FOUND | IDENTITY_EXPIRED | IDENTITY_REBOUND | IDENTITY_UNAVAILABLE
| POLICY_DISABLED | POLICY_ACTION_DENIED | POLICY_TARGET_DENIED | POLICY_VALUE_EXCEEDS_CAP
| CRE_PENDING | CRE_DENIED | CRE_ESCALATE | CRE_STALE | CRE_UNAVAILABLE
| CAP_BAD_SIG | CAP_EXPIRED | CAP_NONCE_USED | CAP_CALL_MISMATCH
| LEDGER_REJECTED | LEDGER_UNAVAILABLE
| CHAIN_RPC_FAILURE | CHAIN_WRONG_NETWORK
| INTERNAL_STORAGE | INTERNAL_INVARIANT
| API_VALIDATION | API_ARBITRARY_CALLDATA_REJECTED.

Definition reasonText (c : ReasonCode) : string :=
  match c with
  | IDENTITY_NOT_FOUND => "CTX_IDENTITY_NOT_FOUND"
  | IDENTITY_EXPIRED => "CTX_IDENTITY_EXPIRED"
  | IDENTITY_REBOUND => "CTX_IDENTITY_REBOUND"
  | IDENTITY_UNAVAILABLE => "CTX_IDENTITY_UNAVAILABLE"
  | POLICY_DISABLED => "CTX_POLICY_DISABLED"
  | POLICY_ACTION_DENIED => "CTX_POLICY_ACTION_DENIED"
  | POLICY_TARGET_DENIED => "CTX_POLICY_TARGET_DENIED"
  | POLICY_VALUE_EXCEEDS_CAP => "CTX_POLICY_VALUE_EXCEEDS_CAP"
  | CRE_PENDING => "CTX_CRE_PENDING"
  | CRE_DENIED => "CTX_CRE_DENIED"
  | CRE_ESCALATE => "CTX_CRE_ESCALATE"
  | CRE_STALE => "CTX_CRE_STALE"
  | CRE_UNAVAILABLE => "CTX_CRE_UNAVAILABLE"
  | CAP_BAD_SIG => "CTX_CAP_BAD_SIG"
  | CAP_EXPIRED => "CTX_CAP_EXPIRED"
  | CAP_NONCE_USED => "CTX_CAP_NONCE_USED"
  | CAP_CALL_MISMATCH => "CTX_CAP_CALL_MISMATCH"
  | LEDGER_REJECTED => "CTX_LEDGER_REJECTED"
  | LEDGER_UNAVAILABLE => "CTX_LEDGER_UNAVAILABLE"
  | CHAIN_RPC_FAILURE => "CTX_CHAIN_RPC_FAILURE"
  | CHAIN_WRONG_NETWORK => "CTX_CHAIN_WRONG_NETWORK"
  | INTERNAL_STORAGE => "CTX_INTERNAL_STORAGE"
  | INTERNAL_INVARIANT => "CTX_INTERNAL_INVARIANT"
  | API_VALIDATION => "CTX_API_VALIDATION"
  | API_ARBITRARY_CALLDATA_REJECTED => "CTX_API_ARBITRARY_CALLDATA_REJECTED"
  end.

Inductive Verdict := ALLOW | ESCALATE | DENY.
#[export] Instance Verdict_eq_dec : EqDecision Verdict.
Proof. solve_decision. Defined.
Definition verdictText (v : Verdict) : string :=
  match v with ALLOW => "ALLOW" | ESCALATE => "ESCALATE" | DENY => "DENY" end.

(** What [createRequest] throws. *)
Inductive BrokerError :=
| PolicyDenial (code : ReasonCode)
| OperationalError (code : ReasonCode)
| GuardError (e : Network.Roles.NetworkGuardError)
| StorageError
| EncodingError
| OtherThrown.

(** ** Tables *)

Inductive RowStatus := PENDING | ALLOWED | ESCALATED | DENIED_ | FAILED_.
#[export] Instance RowStatus_eq_dec : EqDecision RowStatus.
Proof. solve_decision. Defined.

Record RequestRow := {
  r_id : string;
  r_idempotencyKey : string;
  r_agentEnsName : string;
  r_agentAddress : string;
  r_agentIdentityHash : option string;
  r_policyHash : string;
  r_actionKind : string;
  r_intentHash : string;
  r_target : string;
  r_value : string;
  r_calldata : string;
  r_calldataHash : string;
  r_amount : string;
  r_status : RowStatus;
  r_reasonCode : option string;
  r_identitySource : option string;
  r_createdAt : Z;
  r_updatedAt : Z
}.

Record AuthorizationRow := {
  a_authorizationId : string;
  a_requestId : string;
  a_requestHash : string;
  a_verdict : Verdict;
  a_reasonCode : string;
  a_contextCommitment : string;
  a_evaluatedAt : Z;
  a_approvedUntil : Z;
  a_source : string
}.

Record CapabilityRow := {
  k_digest : string;
  k_requestId : string;
  k_nonce : Z;
  k_issuedAt : Z;
  k_expiresAt : Z;
  k_status : string
}.

Inductive AuditType :=
| REQUEST_RECEIVED | REQUEST_REJECTED_VALIDATION | IDEMPOTENT_REPLAY | ENS_IDENTITY_VALIDATED
| ENS_IDENTITY_FAILED | POLICY_CHECK_PASSED | POLICY_CHECK_FAILED | EVALUATION_REQUESTED
| AUTHORIZATION_OBSERVED | AUTHORIZATION_RECORDED_ONCHAIN | CAPABILITY_MINTED | ESCALATION_CREATED
| DENIED | OPERATIONAL_FAILURE.

Record AuditEvent := {
  e_requestId : option string;
  e_type : AuditType;
  e_detail : jsv;
  e_createdAt : Z
}.

Record DB := {
  capability_requests : list RequestRow;
  cre_authorizations : list AuthorizationRow;
  capabilities : list CapabilityRow;
  audit_events : list AuditEvent
}.

Definition emptyDB : DB :=
  {| capability_requests := []; cre_authorizations := []; capabilities := []; audit_events := [] |}.

Definition setRequests (db : DB) (l : list RequestRow) : DB :=
  {| capability_requests := l; cre_authorizations := cre_authorizations db;
     capabilities := capabilities db; audit_events := audit_events db |}.

Definition audit (db : DB) (id : option string) (t : AuditType) (detail : list (string * jsv)) (now : Z) : DB :=
  {| capability_requests := capability_requests db; cre_authorizations := cre_authorizations db;
     capabilities := capabilities db;
     audit_events := audit_events db ++
       [{| e_requestId := id; e_type := t; e_detail := VObj detail; e_createdAt := now |}] |}.

(** INSERT: a primary or unique key already present throws. *)
Definition insertRequest (db : DB) (row : RequestRow) : result BrokerError DB :=
  throw StorageError when some (fun r => streq (r_id r) (r_id row)
    || streq (r_idempotencyKey r) (r_idempotencyKey row)) (capability_requests db) ;;
  Ok (setRequests db (capability_requests db ++ [row])).

(** INSERT with the primary key and the foreign key to the request. *)
Definition insertAuthorization (db : DB) (row : AuthorizationRow) : result BrokerError DB :=
  throw StorageError when some (fun a => streq (a_authorizationId a) (a_authorizationId row))
    (cre_authorizations db) ;;
  throw StorageError when negb (some (fun r => streq (r_id r) (a_requestId row)) (capability_requests db)) ;;
  Ok {| capability_requests := capability_requests db;
        cre_authorizations := cre_authorizations db ++ [row];
        capabilities := capabilities db; audit_events := audit_events db |}.

Definition insertCapability (db : DB) (row : CapabilityRow) : result BrokerError DB :=
  throw StorageError when some (fun k => streq (k_digest k) (k_digest row)) (capabilities db) ;;
  throw StorageError when negb (some (fun r => streq (r_id r) (k_requestId row)) (capability_requests db)) ;;
  Ok {| capability_requests := capability_requests db; cre_authorizations := cre_authorizations db;
        capabilities := capabilities db ++ [row]; audit_events := audit_events db |}.

(** UPDATE ... WHERE id = ?. *)
Definition updateRequest (db : DB) (id : string) (f : RequestRow -> RequestRow) : DB :=
  setRequests db (map (fun r => if streq (r_id r) id then f r else r) (capability_requests db)).

Definition withStatus (st : RowStatus) (code : string) (now : Z) (r : RequestRow) : RequestRow :=
  {| r_id := r_id r; r_idempotencyKey := r_idempotencyKey r; r_agentEnsName := r_agentEnsName r;
     r_agentAddress := r_agentAddress r; r_agentIdentityHash := r_agentIdentityHash r;
     r_policyHash := r_policyHash r; r_actionKind := r_actionKind r; r_intentHash := r_intentHash r;
     r_target := r_target r; r_value := r_value r; r_calldata := r_calldata r;
     r_calldataHash := r_calldataHash r; r_amount := r_amount r; r_status := st;
     r_reasonCode := Some code; r_identitySource := r_identitySource r;
     r_createdAt := r_createdAt r; r_updatedAt := now |}.

Definition setStatus (db : DB) (id : string) (st : RowStatus) (code : string) (now : Z) : DB :=
  updateRequest db id (withStatus st code now).

(** ** Providers *)

Record AgentIdentity := {
  i_ensName : string;
  i_node : string;
  i_agent : string;
  i_bindingVersion : Z;
  i_agentIdentityHash : string;
  i_source : string
}.

Record EvaluationInput := {
  v_requestId : string;
  v_requestHash : string;
  v_calldata : string;
  v_identity : AgentIdentity;
  v_policyHash : string;
  v_target : string;
  v_value : Z;
  v_calldataHash : string;
  v_intentHash : string;
  v_actionKind : string;
  v_amount : Z
}.

Record EvaluationResult := {
  ev_authorizationId : string;
  ev_requestHash : string;
  ev_verdict : Verdict;
  ev_reasonCode : string;
  ev_contextCommitment : string;
  ev_evaluatedAt : Z;
  ev_approvedUntil : Z;
  ev_source : string
}.

(** A provider's exception: an [OperationalError] with its code, or anything else. *)
Inductive Thrown := ThrownOperational (code : ReasonCode) | ThrownOther.
Definition rethrow (t : Thrown) : BrokerError :=
  match t with ThrownOperational c => OperationalError c | ThrownOther => OtherThrown end.

(** ** Configuration, input, result *)

Record PublicPolicy := {
  p_policyId : string;
  p_policyHash : string;
  p_enabled : bool;
  p_allowedActionKinds : list string;
  p_allowedTargets : list string;
  p_maxValueHardCap : Z;
  p_target : string
}.

Record BrokerConfig := {
  cfg_chainId : Z;
  cfg_executor : string;
  cfg_capabilityTtlSeconds : Z;
  cfg_policies : gmap string PublicPolicy
}.

Record CreateRequestInput := {
  in_agentEnsName : string;
  in_actionKind : string;
  in_adapterParams : jsv;
  in_policyId : string;
  in_idempotencyKey : string
}.

Record RequestRecord := {
  rr_requestId : string;
  rr_status : RowStatus;
  rr_reasonCode : string;
  rr_capability : option Capability;
  rr_signature : option string;
  rr_calldata : option string;
  rr_actionKindHash : option string;
  rr_capabilityDigest : option string;
  rr_authorizationId : option string;
  rr_approvedUntil : option string;
  rr_identitySource : option string;
  rr_evaluationSource : option string
}.

(** An empty string is falsy. *)
Definition truthy (o : option string) : option string :=
  match o with Some EmptyString => None | _ => o end.

Definition getRequest (db : DB) (id : string) : option RequestRecord :=
  match List.find (fun r => streq (r_id r) id) (capability_requests db) with
  | None => None
  | Some r =>
      let a := List.find (fun a => streq (a_requestId a) id) (cre_authorizations db) in
      Some {| rr_requestId := r_id r; rr_status := r_status r;
              rr_reasonCode := default "PENDING" (r_reasonCode r);
              rr_capability := None; rr_signature := None; rr_calldata := None;
              rr_actionKindHash := None; rr_capabilityDigest := None;
              rr_authorizationId := a_authorizationId <$> a;
              rr_approvedUntil := (fun a => pretty (a_approvedUntil a)) <$> a;
              rr_identitySource := truthy (r_identitySource r);
              rr_evaluationSource := truthy (a_source <$> a) |}
  end.

(** ** [createRequest], segment by segment *)

(** What the locals of a request hold from its creation on. *)
Record Progress := {
  g_requestId : string;
  g_input : CreateRequestInput;
  g_policy : PublicPolicy;
  g_tx : CandidateTransaction;
  g_amount : Z;
  g_intentHash : string
}.

(** The await a request is suspended at. *)
Inductive Pending :=
| AwaitIdentity (g : Progress)
| AwaitEvaluation (g : Progress) (identity : AgentIdentity) (asked : EvaluationInput)
| AwaitSignature (g : Progress) (identity : AgentIdentity) (asked : EvaluationInput)
    (ev : EvaluationResult) (cap : Capability).

Inductive Outcome :=
| Respond (r : result BrokerError (option RequestRecord))
| Continue (p : Pending).

Definition liftGuard {A : Type} (r : result Network.Roles.NetworkGuardError A) : result BrokerError A :=
  match r with Ok a => Ok a | Err e => Err (GuardError e) end.
Definition liftAbi {A : Type} (r : result AbiError A) : result BrokerError A :=
  match r with Ok a => Ok a | Err _ => Err EncodingError end.

Definition ZERO_BYTES32 : string := "0x0000000000000000000000000000000000000000000000000000000000000000".

Section Handlers.
Context `{AbiCodec} `{Evm}.
Context (cfg : BrokerConfig).

(** The checks before anything is stored: policy, adapter, fence, target and value. *)
Definition prepare (requestId : string) (input : CreateRequestInput) : result BrokerError Progress :=
  match cfg_policies cfg !! in_policyId input with
  | None => Err (PolicyDenial POLICY_DISABLED)
  | Some policy =>
      throw PolicyDenial POLICY_DISABLED when negb (p_enabled policy) ;;
      throw PolicyDenial POLICY_ACTION_DENIED
        when negb (includes (p_allowedActionKinds policy) (in_actionKind input)) ;;
      match getAdapter (in_actionKind input) with
      | None => Err (PolicyDenial POLICY_ACTION_DENIED)
      | Some adapter =>
          match schema adapter (in_adapterParams input) with
          | None => Err (PolicyDenial API_VALIDATION)
          | Some params =>
              let* _ := liftGuard (fenceWriteByChain RELAYER (cfg_chainId cfg) None None) in
              let* tx := liftAbi (build adapter params
                {| ctx_chainId := cfg_chainId cfg; ctx_target := p_target policy |}) in
              throw PolicyDenial POLICY_TARGET_DENIED
                when negb (includes (p_allowedTargets policy) (tx_target tx)) ;;
              throw PolicyDenial POLICY_VALUE_EXCEEDS_CAP
                when tx_value tx >? p_maxValueHardCap policy ;;
              Ok {| g_requestId := requestId; g_input := input; g_policy := policy; g_tx := tx;
                    g_amount := bigintOf (amount params);
                    g_intentHash := keccak256 (in_actionKind input +:+ ":" +:+
                      stringify (JObj (map (fun '(k, v) => (k, JStr v)) (tx_semanticSummary tx)))) |}
          end
      end
  end.

Definition newRow (g : Progress) (now : Z) : RequestRow :=
  let tx := g_tx g in
  {| r_id := g_requestId g; r_idempotencyKey := in_idempotencyKey (g_input g);
     r_agentEnsName := in_agentEnsName (g_input g); r_agentAddress := EmptyString;
     r_agentIdentityHash := None; r_policyHash := p_policyHash (g_policy g);
     r_actionKind := in_actionKind (g_input g); r_intentHash := g_intentHash g;
     r_target := tx_target tx; r_value := pretty (tx_value tx); r_calldata := tx_calldata tx;
     r_calldataHash := tx_calldataHash tx; r_amount := pretty (g_amount g); r_status := PENDING;
     r_reasonCode := None; r_identitySource := None; r_createdAt := now; r_updatedAt := now |}.

(** Up to [ens.resolve]. *)
Definition receive (db : DB) (requestId : string) (input : CreateRequestInput) (now : Z) : DB * Outcome :=
  match List.find (fun r => streq (r_idempotencyKey r) (in_idempotencyKey input)) (capability_requests db) with
  | Some existing =>
      let db1 := audit db (Some (r_id existing)) IDEMPOTENT_REPLAY
        [("idempotencyKey", VStr (in_idempotencyKey input))] now in
      (db1, Respond (Ok (getRequest db1 (r_id existing))))
  | None =>
      match prepare requestId input with
      | Err e => (db, Respond (Err e))
      | Ok g =>
          match insertRequest db (newRow g now) with
          | Err e => (db, Respond (Err e))
          | Ok db1 =>
              (audit db1 (Some requestId) REQUEST_RECEIVED
                 [("agentEnsName", VStr (in_agentEnsName input)); ("actionKind", VStr (in_actionKind input));
                  ("summary", VObj (map (fun '(k, v) => (k, VStr v)) (tx_semanticSummary (g_tx g))))] now,
               Continue (AwaitIdentity g))
          end
      end
  end.

(** The capability fields the evaluation request is taken from; the issue is not known yet. *)
Definition requestShape (g : Progress) (identity : AgentIdentity) : Capability :=
  {| version := 1; agentIdentityHash := i_agentIdentityHash identity; agent := i_agent identity;
     chainId := cfg_chainId cfg; executor := cfg_executor cfg; tgt := tx_target (g_tx g);
     value := tx_value (g_tx g); calldataHash := tx_calldataHash (g_tx g);
     intentHash := g_intentHash g; policyHash := p_policyHash (g_policy g);
     authorizationId := ZERO_BYTES32; contextCommitment := ZERO_BYTES32; issuedAt := 0;
     expiresAt := 0; nonce := 0 |}.

Definition evaluationInput (g : Progress) (identity : AgentIdentity) (h : string) : EvaluationInput :=
  {| v_requestId := g_requestId g; v_requestHash := h; v_calldata := tx_calldata (g_tx g);
     v_identity := identity; v_policyHash := p_policyHash (g_policy g); v_target := tx_target (g_tx g);
     v_value := tx_value (g_tx g); v_calldataHash := tx_calldataHash (g_tx g);
     v_intentHash := g_intentHash g; v_actionKind := in_actionKind (g_input g);
     v_amount := g_amount g |}.

Definition withIdentity (identity : AgentIdentity) (now : Z) (r : RequestRow) : RequestRow :=
  {| r_id := r_id r; r_idempotencyKey := r_idempotencyKey r; r_agentEnsName := r_agentEnsName r;
     r_agentAddress := i_agent identity; r_agentIdentityHash := Some (i_agentIdentityHash identity);
     r_policyHash := r_policyHash r; r_actionKind := r_actionKind r; r_intentHash := r_intentHash r;
     r_target := r_target r; r_value := r_value r; r_calldata := r_calldata r;
     r_calldataHash := r_calldataHash r; r_amount := r_amount r; r_status := r_status r;
     r_reasonCode := r_reasonCode r; r_identitySource := Some (i_source identity);
     r_createdAt := r_createdAt r; r_updatedAt := now |}.

(** From [ens.resolve] to [evaluator.evaluate]. *)
Definition onIdentity (db : DB) (g : Progress) (answer : result Thrown AgentIdentity) (now : Z)
    : DB * Outcome :=
  let id := g_requestId g in
  match answer with
  | Err t =>
      let code := reasonText (match t with ThrownOperational c => c | ThrownOther => IDENTITY_NOT_FOUND end) in
      (setStatus (audit db (Some id) ENS_IDENTITY_FAILED [("code", VStr code)] now) id FAILED_ code now,
       Respond (Err (rethrow t)))
  | Ok identity =>
      let db1 := audit db (Some id) ENS_IDENTITY_VALIDATED
        [("ensName", VStr (i_ensName identity)); ("node", VStr (i_node identity));
         ("agent", VStr (i_agent identity)); ("bindingVersion", VStr (pretty (i_bindingVersion identity)));
         ("source", VStr (i_source identity))] now in
      let db2 := updateRequest db1 id (withIdentity identity now) in
      let db3 := audit db2 (Some id) EVALUATION_REQUESTED [("amount", VStr (pretty (g_amount g)))] now in
      match liftAbi (requestHash (requestShape g identity)) with
      | Err e => (db3, Respond (Err e))
      | Ok h => (db3, Continue (AwaitEvaluation g identity (evaluationInput g identity h)))
      end
  end.

Definition authorizationRow (id : string) (ev : EvaluationResult) : AuthorizationRow :=
  {| a_authorizationId := ev_authorizationId ev; a_requestId := id; a_requestHash := ev_requestHash ev;
     a_verdict := ev_verdict ev; a_reasonCode := ev_reasonCode ev;
     a_contextCommitment := ev_contextCommitment ev; a_evaluatedAt := ev_evaluatedAt ev;
     a_approvedUntil := ev_approvedUntil ev; a_source := ev_source ev |}.

(** [nextNonce] after the counter was incremented. *)
Definition nextNonce (counter now : Z) : Z := now * 1000 + counter.

Definition mintedCapability (g : Progress) (identity : AgentIdentity) (ev : EvaluationResult)
    (counter now : Z) : Capability :=
  let issued := now / 1000 in
  {| version := 1; agentIdentityHash := i_agentIdentityHash identity; agent := i_agent identity;
     chainId := cfg_chainId cfg; executor := cfg_executor cfg; tgt := tx_target (g_tx g);
     value := tx_value (g_tx g); calldataHash := tx_calldataHash (g_tx g);
     intentHash := g_intentHash g; policyHash := p_policyHash (g_policy g);
     authorizationId := ev_authorizationId ev; contextCommitment := ev_contextCommitment ev;
     issuedAt := issued; expiresAt := issued + cfg_capabilityTtlSeconds cfg;
     nonce := nextNonce counter now |}.

(** From [evaluator.evaluate] to [signTypedData]; the counter is the broker's [nonceCounter]. *)
Definition onEvaluation (db : DB) (counter : Z) (g : Progress) (identity : AgentIdentity)
    (asked : EvaluationInput) (answer : result Thrown EvaluationResult) (now : Z) : DB * Z * Outcome :=
  let id := g_requestId g in
  match answer with
  | Err t => (db, counter, Respond (Err (rethrow t)))
  | Ok ev =>
      match insertAuthorization db (authorizationRow id ev) with
      | Err e => (db, counter, Respond (Err e))
      | Ok db1 =>
          let db2 := audit db1 (Some id) AUTHORIZATION_OBSERVED
            [("authorizationId", VStr (ev_authorizationId ev)); ("verdict", VStr (verdictText (ev_verdict ev)));
             ("source", VStr (ev_source ev))] now in
          let reason := [("reasonCode", VStr (ev_reasonCode ev))] in
          match ev_verdict ev with
          | DENY =>
              let db3 := setStatus (audit db2 (Some id) DENIED reason now) id DENIED_ (ev_reasonCode ev) now in
              (db3, counter, Respond (Ok (getRequest db3 id)))
          | ESCALATE =>
              let db3 := setStatus (audit db2 (Some id) ESCALATION_CREATED reason now) id ESCALATED
                           (ev_reasonCode ev) now in
              (db3, counter, Respond (Ok (getRequest db3 id)))
          | ALLOW =>
              (db2, counter + 1,
               Continue (AwaitSignature g identity asked ev (mintedCapability g identity ev (counter + 1) now)))
          end
      end
  end.

(** From [signTypedData] to the response. *)
Definition onSignature (db : DB) (g : Progress) (identity : AgentIdentity) (ev : EvaluationResult)
    (cap : Capability) (answer : result Thrown string) (now : Z) : DB * Outcome :=
  let id := g_requestId g in
  match answer with
  | Err t => (db, Respond (Err (rethrow t)))
  | Ok signature =>
      let digest := capabilityDigest hashTypedData cap in
      match insertCapability db {| k_digest := digest; k_requestId := id; k_nonce := nonce cap;
              k_issuedAt := issuedAt cap; k_expiresAt := expiresAt cap; k_status := "MINTED" |} with
      | Err e => (db, Respond (Err e))
      | Ok db1 =>
          match liftAbi (requestHash cap) with
          | Err e => (db1, Respond (Err e))
          | Ok h =>
              let db2 := audit db1 (Some id) CAPABILITY_MINTED
                [("digest", VStr digest); ("nonce", VStr (pretty (nonce cap)));
                 ("expiresAt", VStr (pretty (expiresAt cap))); ("onChainRequestHash", VStr h)] now in
              (setStatus db2 id ALLOWED (ev_reasonCode ev) now,
               Respond (Ok (Some
                 {| rr_requestId := id; rr_status := ALLOWED; rr_reasonCode := ev_reasonCode ev;
                    rr_capability := Some cap; rr_signature := Some signature;
                    rr_calldata := Some (tx_calldata (g_tx g));
                    rr_actionKindHash := Some (tx_actionKindHash (g_tx g));
                    rr_capabilityDigest := Some digest;
                    rr_authorizationId := Some (ev_authorizationId ev);
                    rr_approvedUntil := Some (pretty (ev_approvedUntil ev));
                    rr_identitySource := Some (i_source identity);
                    rr_evaluationSource := Some (ev_source ev) |})))
          end
      end
  end.

(** ** The broker as a whole *)

Record Broker := { db_ : DB; nonceCounter : Z; running : gmap string Pending }.
Definition newBroker : Broker := {| db_ := emptyDB; nonceCounter := 0; running := ∅ |}.

Inductive Event :=
| Receive (requestId : string) (input : CreateRequestInput)
| IdentityAnswer (requestId : string) (answer : result Thrown AgentIdentity)
| EvaluationAnswer (requestId : string) (answer : result Thrown EvaluationResult)
| SignatureAnswer (requestId : string) (answer : result Thrown string).

(** The request suspends again, or its caller gets the response. *)
Definition settle (b : Broker) (id : string) (db : DB) (counter : Z) (o : Outcome)
    : Broker * option (result BrokerError (option RequestRecord)) :=
  match o with
  | Continue p => ({| db_ := db; nonceCounter := counter; running := <[id := p]> (running b) |}, None)
  | Respond r => ({| db_ := db; nonceCounter := counter; running := delete id (running b) |}, Some r)
  end.

(** One segment.  An answer for a request that is not waiting for it does not occur. *)
Definition handle (b : Broker) (now : Z) (e : Event)
    : Broker * option (result BrokerError (option RequestRecord)) :=
  match e with
  | Receive id input =>
      let '(db, o) := receive (db_ b) id input now in
      match o with
      | Continue _ => settle b id db (nonceCounter b) o
      | Respond r => ({| db_ := db; nonceCounter := nonceCounter b; running := running b |}, Some r)
      end
  | IdentityAnswer id answer =>
      match running b !! id with
      | Some (AwaitIdentity g) =>
          let '(db, o) := onIdentity (db_ b) g answer now in settle b id db (nonceCounter b) o
      | _ => (b, None)
      end
  | EvaluationAnswer id answer =>
      match running b !! id with
      | Some (AwaitEvaluation g i asked) =>
          let '(db, counter, o) := onEvaluation (db_ b) (nonceCounter b) g i asked answer now in
          settle b id db counter o
      | _ => (b, None)
      end
  | SignatureAnswer id answer =>
      match running b !! id with
      | Some (AwaitSignature g i asked ev cap) =>
          let '(db, o) := onSignature (db_ b) g i ev cap answer now in settle b id db (nonceCounter b) o
      | _ => (b, None)
      end
  end.

(** A run: events at clock readings, in order. *)
Definition run (es : list (Z * Event)) (b : Broker) : Broker :=
  foldl (fun b '(now, e) => fst (handle b now e)) b es.

(** ** What the segments do to the tables *)

Definition rowIds (db : DB) : list string := map r_id (capability_requests db).
Definition rowKeys (db : DB) : list string := map r_idempotencyKey (capability_requests db).

(** An update that keeps a row's identity. *)
Definition keepsIdentity (f : RequestRow -> RequestRow) : Prop :=
  forall r, r_id (f r) = r_id r /\ r_idempotencyKey (f r) = r_idempotencyKey r.

Lemma withStatus_keeps st code now : keepsIdentity (withStatus st code now).
Proof. done. Qed.
Lemma withIdentity_keeps i now : keepsIdentity (withIdentity i now).
Proof. done. Qed.

Lemma update_ids db id f : keepsIdentity f -> rowIds (updateRequest db id f) = rowIds db.
Proof.
  intros Hf. unfold rowIds. simpl. rewrite map_map. apply map_ext. intros r.
  destruct (streq (r_id r) id); [apply Hf|done].
Qed.

Lemma update_keys db id f : keepsIdentity f -> rowKeys (updateRequest db id f) = rowKeys db.
Proof.
  intros Hf. unfold rowKeys. simpl. rewrite map_map. apply map_ext. intros r.
  destruct (streq (r_id r) id); [apply Hf|done].
Qed.

Lemma update_row db id f r :
  r ∈ capability_requests (updateRequest db id f) ->
  exists r0, r0 ∈ capability_requests db /\
    ((r_id r0 = id /\ r = f r0) \/ (r_id r0 <> id /\ r = r0)).
Proof.
  simpl. intros (r0 & <- & Hr)%list_elem_of_In%in_map_iff. exists r0.
  split; [by apply list_elem_of_In|]. destruct (streq (r_id r0) id) eqn:E.
  - left. by apply streq_true in E.
  - right. by apply streq_false in E.
Qed.

Lemma insertRequest_ok db row db' :
  insertRequest db row = Ok db' <->
  r_id row ∉ rowIds db /\ r_idempotencyKey row ∉ rowKeys db /\
  db' = setRequests db (capability_requests db ++ [row]).
Proof.
  unfold insertRequest, rowIds, rowKeys. rewrite throw_ok, some_false.
  split.
  - intros [Hs [= <-]]. split_and!; [..|done];
      intros (r & E & Hr%list_elem_of_In)%list_elem_of_In%in_map_iff;
      apply Hs in Hr; apply orb_false_iff in Hr as [H1 H2];
      rewrite !streq_false in *; congruence.
  - intros (Hi & Hk & ->). split; [|done]. intros r Hr. apply orb_false_iff.
    rewrite !streq_false. split; intros E; [apply Hi|apply Hk]; rewrite <- E;
      by apply list_elem_of_In, in_map, list_elem_of_In.
Qed.

Lemma insertAuthorization_ok db row db' :
  insertAuthorization db row = Ok db' ->
  db' = {| capability_requests := capability_requests db;
           cre_authorizations := cre_authorizations db ++ [row];
           capabilities := capabilities db; audit_events := audit_events db |}.
Proof. unfold insertAuthorization. rewrite !throw_ok. by intros (_ & _ & [= <-]). Qed.

Lemma insertCapability_ok db row db' :
  insertCapability db row = Ok db' ->
  db' = {| capability_requests := capability_requests db; cre_authorizations := cre_authorizations db;
           capabilities := capabilities db ++ [row]; audit_events := audit_events db |}.
Proof. unfold insertCapability. rewrite !throw_ok. by intros (_ & _ & [= <-]). Qed.

(** ** The invariant of every run *)

Definition authIds (db : DB) : list string := map a_requestId (cre_authorizations db).
Definition capIds (db : DB) : list string := map k_requestId (capabilities db).

(** Request [id] was evaluated with verdict [v]. *)
Definition evaluated (db : DB) (id : string) (v : Verdict) : Prop :=
  exists a, a ∈ cre_authorizations db /\ a_requestId a = id /\ a_verdict a = v.

(** The row's status is backed by the other tables. *)
Definition statusBacked (db : DB) (r : RequestRow) : Prop :=
  match r_status r with
  | ALLOWED => r_id r ∈ capIds db
  | DENIED_ => evaluated db (r_id r) DENY
  | ESCALATED => evaluated db (r_id r) ESCALATE
  | PENDING | FAILED_ => True
  end.

(** A suspended request [id] is at the point its tables say. *)
Definition pendingOk (db : DB) (id : string) (p : Pending) : Prop :=
  id ∈ rowIds db /\ id ∉ capIds db /\
  match p with
  | AwaitIdentity g => g_requestId g = id /\ id ∉ authIds db
  | AwaitEvaluation g i asked => g_requestId g = id /\ id ∉ authIds db /\
      asked = evaluationInput g i (v_requestHash asked) /\
      requestHash (requestShape g i) = Ok (v_requestHash asked)
  | AwaitSignature g i asked ev cap => g_requestId g = id /\
      authorizationRow id ev ∈ cre_authorizations db /\ ev_verdict ev = ALLOW /\
      authorizationId cap = ev_authorizationId ev /\ calldataHash cap = tx_calldataHash (g_tx g) /\
      asked = evaluationInput g i (v_requestHash asked) /\ requestHash cap = Ok (v_requestHash asked)
  end.

Record DBInv (db : DB) : Prop := {
  inv_ids : NoDup (rowIds db);
  inv_keys : NoDup (rowKeys db);
  inv_auths : NoDup (authIds db);
  inv_caps : NoDup (capIds db);
  inv_known : forall id, id ∈ authIds db \/ id ∈ capIds db -> id ∈ rowIds db;
  inv_allow : forall id, id ∈ capIds db -> evaluated db id ALLOW;
  inv_status : forall r, r ∈ capability_requests db -> statusBacked db r
}.

Definition Inv (b : Broker) : Prop :=
  DBInv (db_ b) /\ forall id p, running b !! id = Some p -> pendingOk (db_ b) id p.

(** From [db] to [db'] rows are only added, and only requests in [ids] are evaluated or issued. *)
Definition Frame (ids : list string) (db db' : DB) : Prop :=
  rowIds db ⊆ rowIds db' /\ cre_authorizations db ⊆ cre_authorizations db' /\
  forall id, id ∉ ids -> (id ∈ authIds db' -> id ∈ authIds db) /\ (id ∈ capIds db' -> id ∈ capIds db).

Lemma evaluated_elem db id v : evaluated db id v -> id ∈ authIds db.
Proof. intros (a & Ha & <- & _). by apply list_elem_of_In, in_map, list_elem_of_In. Qed.

(** A request has one evaluation, so one verdict. *)
Lemma evaluated_unique db id v w :
  NoDup (authIds db) -> evaluated db id v -> evaluated db id w -> v = w.
Proof.
  unfold authIds. intros Hnd (a & Ha & <- & <-) (a' & Ha' & E & <-).
  f_equal. apply list_elem_of_lookup in Ha as [i Hi], Ha' as [j Hj].
  assert (i = j) as ->; [|congruence].
  apply (NoDup_lookup _ i j (a_requestId a) Hnd); rewrite list_lookup_fmap, ?Hi, ?Hj; simpl; congruence.
Qed.

Lemma Inv_new : Inv newBroker.
Proof. split; [split; simpl; try constructor; set_solver|].
  intros id p. simpl. rewrite lookup_empty. done.
Qed.

Lemma evaluated_mono db db' id v :
  cre_authorizations db ⊆ cre_authorizations db' -> evaluated db id v -> evaluated db' id v.
Proof. intros Hs (a & Ha & H1 & H2). exists a. auto. Qed.

Lemma pendingOk_frame ids db db' id p :
  Frame ids db db' -> id ∉ ids -> pendingOk db id p -> pendingOk db' id p.
Proof.
  intros (Hr & Ha & Hf) Hid (H1 & H2 & H3). destruct (Hf id Hid) as [Hfa Hfc].
  split_and!; [auto..|]. destruct p; simpl in *; naive_solver.
Qed.

Lemma DBInv_audit db id t d now : DBInv db -> DBInv (audit db id t d now).
Proof. intros []. by constructor. Qed.

Lemma DBInv_update db id f :
  keepsIdentity f -> (forall r, r_id r = id -> statusBacked db r -> statusBacked db (f r)) ->
  DBInv db -> DBInv (updateRequest db id f).
Proof.
  intros Hf Hs []. constructor; rewrite ?update_ids, ?update_keys by done; try assumption.
  intros r (r0 & Hr & [[E ->]|[_ ->]])%update_row; [by apply Hs; auto|by apply (inv_status0 r0)].
Qed.

Lemma NoDup_snoc {A : Type} (l : list A) x : NoDup l -> x ∉ l -> NoDup (l ++ [x]).
Proof. intros Hl Hx. apply NoDup_app. split_and!; [done| |apply NoDup_singleton]. set_solver. Qed.

Lemma DBInv_insertRequest db row :
  r_id row ∉ rowIds db -> r_idempotencyKey row ∉ rowKeys db -> r_status row = PENDING ->
  DBInv db -> DBInv (setRequests db (capability_requests db ++ [row])).
Proof.
  intros Hi Hk Hs []. constructor; unfold rowIds, rowKeys in *; simpl; rewrite ?map_app; simpl;
    try assumption; try by apply NoDup_snoc.
  - intros id Hid. apply elem_of_app. left. by apply inv_known0.
  - intros r [Hr| ->%list_elem_of_singleton]%elem_of_app; [by apply inv_status0|].
    unfold statusBacked. by rewrite Hs.
Qed.

Lemma DBInv_insertAuthorization db row :
  a_requestId row ∉ authIds db -> a_requestId row ∈ rowIds db ->
  DBInv db -> DBInv {| capability_requests := capability_requests db;
    cre_authorizations := cre_authorizations db ++ [row]; capabilities := capabilities db;
    audit_events := audit_events db |}.
Proof.
  intros Ha Hr0 []. assert (forall id v, evaluated db id v -> evaluated
    {| capability_requests := capability_requests db; cre_authorizations := cre_authorizations db ++ [row];
       capabilities := capabilities db; audit_events := audit_events db |} id v) as Hm.
  { intros id v. apply evaluated_mono. simpl. set_solver. }
  constructor; unfold authIds, capIds, rowIds, rowKeys in *; simpl; rewrite ?map_app; simpl;
    try assumption; try by apply NoDup_snoc.
  - intros id [[Hid| ->%list_elem_of_singleton]%elem_of_app|Hid]; auto.
  - intros id Hid. by apply Hm, inv_allow0.
  - intros r Hr. specialize (inv_status0 r Hr). unfold statusBacked, capIds in *. simpl.
    destruct (r_status r); auto.
Qed.

Lemma DBInv_insertCapability db row :
  k_requestId row ∉ capIds db -> k_requestId row ∈ rowIds db -> evaluated db (k_requestId row) ALLOW ->
  DBInv db -> DBInv {| capability_requests := capability_requests db;
    cre_authorizations := cre_authorizations db; capabilities := capabilities db ++ [row];
    audit_events := audit_events db |}.
Proof.
  intros Hk Hr He [].
  constructor; unfold authIds, capIds, rowIds, rowKeys in *; simpl; rewrite ?map_app; simpl;
    try assumption; try by apply NoDup_snoc.
  - intros id [Hid|[Hid| ->%list_elem_of_singleton]%elem_of_app]; auto.
  - intros id [Hid| ->%list_elem_of_singleton]%elem_of_app; [by apply inv_allow0|done].
  - intros r Hr'. specialize (inv_status0 r Hr'). unfold statusBacked, capIds in *. simpl.
    destruct (r_status r); auto. rewrite map_app. apply elem_of_app. by left.
Qed.

(** ** Each segment keeps the invariant *)

Lemma Frame_same db db' :
  rowIds db ⊆ rowIds db' -> cre_authorizations db' = cre_authorizations db ->
  capabilities db' = capabilities db -> Frame [] db db'.
Proof. intros Hr Ha Hc. unfold Frame, authIds, capIds. rewrite Ha, Hc. done. Qed.

Lemma receive_spec db id input now db' o :
  DBInv db -> receive db id input now = (db', o) ->
  DBInv db' /\ Frame [] db db' /\ match o with Continue p => pendingOk db' id p | Respond _ => True end.
Proof.
  intros Hi. unfold receive. destruct (List.find _ _) as [r|].
  { intros [= <- <-]. split_and!; [by apply DBInv_audit|by apply Frame_same|done]. }
  destruct (prepare id input) as [g|e] eqn:Ep; [|intros [= <- <-]; split_and!; [done|by apply Frame_same|done]].
  assert (g_requestId g = id) as Hg.
  { unfold prepare in Ep. repeat (case_match; simplify_eq/=; try done).
    apply rbind_ok in Ep as (? & _ & Ep). apply rbind_ok in Ep as (? & _ & Ep).
    rewrite !throw_ok in Ep. by destruct Ep as (_ & _ & [= <-]). }
  destruct (insertRequest db (newRow g now)) as [db1|e] eqn:Ei;
    [|intros [= <- <-]; split_and!; [done|by apply Frame_same|done]].
  apply insertRequest_ok in Ei as (Hid & Hkey & ->). intros [= <- <-].
  assert (rowIds db ⊆ rowIds (setRequests db (capability_requests db ++ [newRow g now]))) as Hsub.
  { unfold rowIds. simpl. rewrite map_app. set_solver. }
  split_and!; [by apply DBInv_audit, DBInv_insertRequest|by apply Frame_same|].
  simpl in Hid. rewrite Hg in Hid. unfold pendingOk. split_and!; [..|done|].
  - change (id ∈ rowIds (setRequests db (capability_requests db ++ [newRow g now]))).
    unfold rowIds. simpl. rewrite map_app. simpl. rewrite Hg. set_solver.
  - intros Hc. apply Hid, (inv_known _ Hi). by right.
  - intros Hc. apply Hid, (inv_known _ Hi). by left.
Qed.

Lemma onIdentity_spec db id g answer now db' o :
  DBInv db -> pendingOk db id (AwaitIdentity g) -> onIdentity db g answer now = (db', o) ->
  DBInv db' /\ Frame [] db db' /\ match o with Continue p => pendingOk db' id p | Respond _ => True end.
Proof.
  intros Hi (Hr & Hc & <- & Ha). unfold onIdentity. destruct answer as [identity|t].
  - set (f := withIdentity identity now). destruct (requestHash _) as [h|e] eqn:Eh; intros [= <- <-];
      (split_and!; [by apply DBInv_audit, DBInv_update; [| |apply DBInv_audit]| |]).
    + apply Frame_same; try done. change (rowIds db ⊆ rowIds (updateRequest db (g_requestId g) f)).
      by rewrite update_ids.
    + unfold pendingOk. split_and!; try done.
      change (g_requestId g ∈ rowIds (updateRequest db (g_requestId g) f)). by rewrite update_ids.
    + apply Frame_same; try done. change (rowIds db ⊆ rowIds (updateRequest db (g_requestId g) f)).
      by rewrite update_ids.
    + done.
  - intros [= <- <-]. split_and!; [|apply Frame_same; try done|done].
    + apply DBInv_update; [done|done|by apply DBInv_audit].
    + unfold setStatus. by rewrite update_ids.
Qed.

Lemma onEvaluation_spec db counter id g i asked answer now db' counter' o :
  DBInv db -> pendingOk db id (AwaitEvaluation g i asked) ->
  onEvaluation db counter g i asked answer now = (db', counter', o) ->
  DBInv db' /\ Frame [id] db db' /\ match o with Continue p => pendingOk db' id p | Respond _ => True end.
Proof.
  intros Hi (Hr & Hc & <- & Ha & Hask & Hh). unfold onEvaluation.
  assert (Frame [g_requestId g] db db) as Hrefl by done.
  destruct answer as [ev|t]; [|by intros [= <- <- <-]].
  destruct (insertAuthorization db _) as [db1|e] eqn:Ei; [|by intros [= <- <- <-]].
  apply insertAuthorization_ok in Ei as ->.
  set (db1 := {| capability_requests := capability_requests db; cre_authorizations := _ |}).
  assert (DBInv db1) as Hi1 by by apply DBInv_insertAuthorization.
  assert (authorizationRow (g_requestId g) ev ∈ cre_authorizations db1) as Hin by (simpl; set_solver).
  assert (evaluated db1 (g_requestId g) (ev_verdict ev)) as Hev by (eexists; eauto).
  assert (forall db2, rowIds db2 = rowIds db -> cre_authorizations db2 = cre_authorizations db1 ->
    capabilities db2 = capabilities db -> Frame [g_requestId g] db db2) as Hframe.
  { intros db2 E1 E2 E3. unfold Frame, authIds, capIds. rewrite E1, E2, E3. simpl.
    rewrite map_app. simpl. set_solver. }
  destruct (ev_verdict ev) eqn:Ev; intros [= <- <- <-].
  - split_and!; [by apply DBInv_audit|by apply Hframe|]. unfold pendingOk.
    split_and!; [exact Hr|exact Hc|done|exact Hin|exact Ev|done|done|exact Hask|]. by rewrite <- Hh.
  - split_and!; [|apply Hframe; [|done..]; unfold setStatus; by rewrite update_ids|done].
    apply DBInv_update; [done| |by do 2 apply DBInv_audit].
    intros r E _. unfold statusBacked. simpl. rewrite E. exact Hev.
  - split_and!; [|apply Hframe; [|done..]; unfold setStatus; by rewrite update_ids|done].
    apply DBInv_update; [done| |by do 2 apply DBInv_audit].
    intros r E _. unfold statusBacked. simpl. rewrite E. exact Hev.
Qed.

Lemma onSignature_spec db id g i asked ev cap answer now db' o :
  DBInv db -> pendingOk db id (AwaitSignature g i asked ev cap) ->
  onSignature db g i ev cap answer now = (db', o) ->
  DBInv db' /\ Frame [id] db db' /\ match o with Continue p => pendingOk db' id p | Respond _ => True end.
Proof.
  intros Hi (Hr & Hc & <- & Hin & Hev & Hid & Hcd & Hask & Hh). unfold onSignature.
  assert (Frame [g_requestId g] db db) as Hrefl by done.
  destruct answer as [sg|t]; [|by intros [= <- <-]].
  destruct (insertCapability db _) as [db1|e] eqn:Ei; [|by intros [= <- <-]].
  apply insertCapability_ok in Ei as ->. rewrite Hh. simpl.
  set (db1 := {| capability_requests := capability_requests db; capabilities := _ |}).
  assert (DBInv db1) as Hi1.
  { apply DBInv_insertCapability; try done. exists (authorizationRow (g_requestId g) ev). done. }
  intros [= <- <-]. split_and!; [| |done].
  - apply DBInv_update; [done| |by apply DBInv_audit].
    intros r E _. unfold statusBacked, capIds. simpl. rewrite E, map_app. apply elem_of_app. right. left.
  - unfold Frame, authIds, capIds, setStatus. rewrite update_ids by done. simpl.
    rewrite map_app. simpl. set_solver.
Qed.

Lemma settle_inv ids b id db counter o :
  Inv b -> DBInv db -> Frame ids (db_ b) db -> (forall x, x ∈ ids -> x = id) ->
  match o with Continue p => pendingOk db id p | Respond _ => True end ->
  Inv (fst (settle b id db counter o)).
Proof.
  intros [Hi Hp] Hdb Hf Hids Ho. split; [by destruct o|].
  intros id' p' Hp'. destruct (decide (id = id')) as [<-|Hne].
  - destruct o as [r|p]; simpl in Hp'; [by rewrite lookup_delete_eq in Hp'|].
    rewrite lookup_insert_eq in Hp'. by injection Hp' as <-.
  - assert (id' ∉ ids) as Hn by (intros H'; by apply Hids in H').
    assert (pendingOk (db_ b) id' p') as Hok.
    { apply Hp. destruct o; simpl in Hp'; by simplify_map_eq. }
    eapply pendingOk_frame in Hok; [|done..]. by destruct o.
Qed.

Lemma handle_inv b now e : Inv b -> Inv (fst (handle b now e)).
Proof.
  intros HI. pose proof HI as [Hi Hp]. destruct e as [id input|id answer|id answer|id answer]; simpl.
  - destruct (receive (db_ b) id input now) as [db o] eqn:E.
    apply receive_spec in E as (Hdb & Hf & Ho); [|done]. destruct o as [r|p].
    + split; [done|]. intros id' p' Hp'%Hp. eapply pendingOk_frame; [done| |done]. set_solver.
    + eapply settle_inv; try done; set_solver.
  - destruct (running b !! id) as [[g|g i asked|g i asked ev cap]|] eqn:Er; try done. apply Hp in Er.
    destruct (onIdentity (db_ b) g answer now) as [db o] eqn:E.
    apply (onIdentity_spec _ id) in E as (Hdb & Hf & Ho); [|done..]. eapply settle_inv; try done; set_solver.
  - destruct (running b !! id) as [[g|g i asked|g i asked ev cap]|] eqn:Er; try done. apply Hp in Er.
    destruct (onEvaluation (db_ b) (nonceCounter b) g i asked answer now) as [[db c] o] eqn:E.
    apply (onEvaluation_spec _ _ id) in E as (Hdb & Hf & Ho); [|done..]. eapply settle_inv; try done; set_solver.
  - destruct (running b !! id) as [[g|g i asked|g i asked ev cap]|] eqn:Er; try done. apply Hp in Er.
    destruct (onSignature (db_ b) g i ev cap answer now) as [db o] eqn:E.
    apply (onSignature_spec _ id _ _ asked) in E as (Hdb & Hf & Ho); [|done..].
    eapply settle_inv; try done; set_solver.
Qed.

Lemma run_inv es b : Inv b -> Inv (run es b).
Proof.
  revert b. induction es as [|[now e] es IH]; intros b HI; simpl; [done|].
  apply IH, handle_inv, HI.
Qed.

(** C2: no capability without an ALLOW.  Whatever requests arrive and however the providers' answers
    interleave, a stored capability belongs to a request that was evaluated, whose only verdict is
    ALLOW, which is neither DENIED nor ESCALATED, and which has no other capability. *)
Theorem capability_requires_allow (es : list (Z * Event)) (k : CapabilityRow) :
  k ∈ capabilities (db_ (run es newBroker)) ->
  evaluated (db_ (run es newBroker)) (k_requestId k) ALLOW /\
  (forall v, evaluated (db_ (run es newBroker)) (k_requestId k) v -> v = ALLOW) /\
  (forall k', k' ∈ capabilities (db_ (run es newBroker)) -> k_requestId k' = k_requestId k -> k' = k) /\
  (forall r, r ∈ capability_requests (db_ (run es newBroker)) -> r_id r = k_requestId k ->
     r_status r <> DENIED_ /\ r_status r <> ESCALATED).
Proof.
  destruct (run_inv es newBroker Inv_new) as [[] _]. intros Hk.
  assert (k_requestId k ∈ capIds (db_ (run es newBroker))) as Hid
    by (by apply list_elem_of_In, in_map, list_elem_of_In).
  pose proof (inv_allow0 _ Hid) as He. split_and!; [done|..].
  - intros v Hv. by eapply evaluated_unique.
  - intros k' Hk' E. apply list_elem_of_lookup in Hk as [i Hi], Hk' as [j Hj].
    assert (j = i) as ->; [|congruence]. unfold capIds in inv_caps0.
    apply (NoDup_lookup _ j i (k_requestId k) inv_caps0); rewrite list_lookup_fmap, ?Hi, ?Hj; simpl; congruence.
  - intros r Hr E. specialize (inv_status0 r Hr). unfold statusBacked in inv_status0. rewrite E in inv_status0.
    destruct (r_status r); (split; [|]); try done;
      by pose proof (evaluated_unique _ _ _ _ inv_auths0 He inv_status0).
Qed.

Lemma getRequest_no_capability db id r : getRequest db id = Some r -> rr_capability r = None.
Proof. unfold getRequest. destruct (List.find _ _); [|done]. by intros [= <-]. Qed.

(** A capability is for the transaction the evaluator allowed.  Whenever a response carries a
    capability, the evaluator had been asked about this very request and answered ALLOW under the
    capability's authorization id; the hash it was asked about is the request hash the executor
    recomputes from the capability; and the calldata returned is the calldata it was shown. *)
Theorem response_capability (es : list (Z * Event)) (now : Z) (e : Event) (b' : Broker)
    (r : RequestRecord) (cap : Capability) :
  handle (run es newBroker) now e = (b', Some (Ok (Some r))) -> rr_capability r = Some cap ->
  exists g i asked ev,
    running (run es newBroker) !! rr_requestId r = Some (AwaitSignature g i asked ev cap) /\
    v_requestId asked = rr_requestId r /\ ev_verdict ev = ALLOW /\
    authorizationId cap = ev_authorizationId ev /\ requestHash cap = Ok (v_requestHash asked) /\
    rr_calldata r = Some (v_calldata asked) /\ calldataHash cap = v_calldataHash asked /\
    rr_status r = ALLOWED.
Proof.
  destruct (run_inv es newBroker Inv_new) as [_ Hp]. set (b := run es newBroker) in *.
  intros Hh Hc. destruct e as [id input|id answer|id answer|id answer]; simpl in Hh.
  - unfold receive in Hh. repeat (case_match; simplify_eq/=; try done);
      by erewrite getRequest_no_capability in Hc.
  - destruct (running b !! id) as [[g|g i asked|g i asked ev c]|] eqn:Er; try done.
    unfold onIdentity in Hh. repeat (case_match; simplify_eq/=; try done).
  - destruct (running b !! id) as [[g|g i asked|g i asked ev c]|] eqn:Er; try done.
    unfold onEvaluation in Hh. repeat (case_match; simplify_eq/=; try done);
      by erewrite getRequest_no_capability in Hc.
  - destruct (running b !! id) as [[g|g i asked|g i asked ev c]|] eqn:Er; try done.
    pose proof (Hp _ _ Er) as (_ & _ & <- & _ & Hv & Ha & Hcd & Hask & Hrh).
    unfold onSignature in Hh. repeat (case_match; simplify_eq/=; try done).
    exists g, i, asked, ev. rewrite Er, Hcd, Hask. split_and!; done.
Qed.

(** One key, one request.  In every run the idempotency keys are distinct, and a request under a
    key already used creates nothing: it evaluates, issues and suspends nothing, and answers with
    the request the key belongs to, whatever else its input says. *)
Theorem idempotent_replay (es : list (Z * Event)) (now : Z) (id : string) (input : CreateRequestInput) :
  NoDup (rowKeys (db_ (run es newBroker))) /\
  (in_idempotencyKey input ∈ rowKeys (db_ (run es newBroker)) ->
   let b := run es newBroker in let '(b', resp) := handle b now (Receive id input) in
   capability_requests (db_ b') = capability_requests (db_ b) /\
   cre_authorizations (db_ b') = cre_authorizations (db_ b) /\
   capabilities (db_ b') = capabilities (db_ b) /\
   nonceCounter b' = nonceCounter b /\ running b' = running b /\
   exists row r, row ∈ capability_requests (db_ b) /\ r_idempotencyKey row = in_idempotencyKey input /\
     resp = Some (Ok (Some r)) /\ rr_requestId r = r_id row).
Proof.
  destruct (run_inv es newBroker Inv_new) as [[] _]. split; [done|]. intros Hk. cbv zeta.
  set (b := run es newBroker) in *. simpl. unfold receive.
  destruct (List.find _ _) as [row|] eqn:E.
  - apply find_true in E as [Hrow E]. apply streq_true in E. split_and!; try done.
    unfold getRequest. simpl.
    destruct (List.find (fun r => streq (r_id r) (r_id row)) (capability_requests (db_ b))) as [row'|] eqn:E'.
    + apply find_true in E' as [_ E']. apply streq_true in E'. eauto 10.
    + rewrite find_none_iff in E'. specialize (E' row Hrow). by rewrite streq_refl in E'.
  - rewrite find_none_iff in E. apply list_elem_of_In, in_map_iff in Hk as (row & Ek & Hrow%list_elem_of_In).
    apply E in Hrow. by rewrite Ek, streq_refl in Hrow.
Qed.

(** ** Nonces *)

(** Nonce [n] was handed out to request [id]: it is stored, or waiting for its signature. *)
Definition issued (b : Broker) (id : string) (n : Z) : Prop :=
  (exists k, k ∈ capabilities (db_ b) /\ k_requestId k = id /\ k_nonce k = n) \/
  (exists g i asked ev cap, running b !! id = Some (AwaitSignature g i asked ev cap) /\ nonce cap = n).

(** The clock never runs backwards from [t] on. *)
Fixpoint monotone (t : Z) (es : list (Z * Event)) : Prop :=
  match es with
  | [] => True
  | (now, _) :: es' => t <= now /\ monotone now es'
  end.

(** Every nonce is below the next one the counter gives at time [t], and of one request. *)
Definition NonceInv (t : Z) (b : Broker) : Prop :=
  (forall id n, issued b id n -> n <= nextNonce (nonceCounter b) t) /\
  (forall id id' n, issued b id n -> issued b id' n -> id = id').

(** A segment hands out nothing, or one new nonce. *)
Definition handsOut (b b' : Broker) (now : Z) : Prop :=
  nonceCounter b <= nonceCounter b' /\
  ((forall id n, issued b' id n -> issued b id n) \/
   (nonceCounter b' = nonceCounter b + 1 /\ exists id0, forall id n, issued b' id n ->
      issued b id n \/ (id = id0 /\ n = nextNonce (nonceCounter b') now))).

Lemma NonceInv_step t now b b' :
  t <= now -> NonceInv t b -> handsOut b b' now -> NonceInv now b'.
Proof.
  unfold NonceInv, nextNonce. intros Ht [Hmax Huniq] [Hc [Hsame|[Hn [id0 Hnew]]]].
  - split; [|eauto]. intros id n H1%Hsame%Hmax. lia.
  - split.
    + intros id n [H1%Hmax|[_ ->]]%Hnew; unfold nextNonce; lia.
    + intros id id' n [H1|[-> H1]]%Hnew [H2|[-> H2]]%Hnew; unfold nextNonce in *; [eauto|..|done];
        [apply Hmax in H1|apply Hmax in H2]; lia.
Qed.

(** Suspending or finishing without a new capability hands out nothing. *)
Lemma settle_issued b id db counter o i n :
  capabilities db = capabilities (db_ b) ->
  match o with Continue (AwaitSignature _ _ _ _ _) => False | _ => True end ->
  issued (fst (settle b id db counter o)) i n -> issued b i n.
Proof.
  intros Hcap Ho [(k & Hk & H1)|(g & ii & asked & ev & cap & Hr & H1)].
  - left. exists k. split; [|done]. rewrite <- Hcap. by destruct o.
  - right. exists g, ii, asked, ev, cap. split; [|done]. destruct (decide (id = i)) as [<-|Hne].
    + destruct o as [r|p]; simpl in Hr; simplify_map_eq. done.
    + destruct o; simpl in Hr; by simplify_map_eq.
Qed.

(** A segment that goes on to no signature and stores no capability hands out nothing. *)
Lemma settle_handsOut b now id db counter o :
  nonceCounter b <= counter -> capabilities db = capabilities (db_ b) ->
  match o with Continue (AwaitSignature _ _ _ _ _) => False | _ => True end ->
  handsOut b (fst (settle b id db counter o)) now.
Proof.
  intros Hc Hcap Ho. split; [by destruct o|]. left. intros i n. by apply settle_issued.
Qed.

Lemma receive_issued b id input now db o : receive (db_ b) id input now = (db, o) ->
  capabilities db = capabilities (db_ b) /\
  match o with Continue (AwaitSignature _ _ _ _ _) => False | _ => True end.
Proof.
  unfold receive. intros E. repeat (case_match; simplify_eq/=; try done).
  all: match goal with H : insertRequest _ _ = Ok _ |- _ =>
         apply insertRequest_ok in H as (_ & _ & ->); done end.
Qed.

Lemma onIdentity_issued b g answer now db o : onIdentity (db_ b) g answer now = (db, o) ->
  capabilities db = capabilities (db_ b) /\
  match o with Continue (AwaitSignature _ _ _ _ _) => False | _ => True end.
Proof. unfold onIdentity. intros E. repeat (case_match; simplify_eq/=; try done). Qed.

Lemma onEvaluation_issued b id g i asked answer now db c o :
  onEvaluation (db_ b) (nonceCounter b) g i asked answer now = (db, c, o) ->
  handsOut b (fst (settle b id db c o)) now.
Proof.
  intros E. unfold onEvaluation in E. destruct answer as [ev|t].
  2:{ injection E as <- <- <-. apply settle_handsOut; [lia|done|done]. }
  destruct (insertAuthorization (db_ b) _) as [db1|er] eqn:Ei.
  2:{ injection E as <- <- <-. apply settle_handsOut; [lia|done|done]. }
  apply insertAuthorization_ok in Ei as ->. destruct (ev_verdict ev); injection E as <- <- <-.
  - split; [simpl; lia|]. right. split; [done|]. exists id.
    intros j n [(k & Hk & H1)|(g' & i' & a' & ev' & cap & Hr & H1)]; [by left; left; exists k|].
    simpl in Hr. destruct (decide (id = j)) as [<-|Hne]; simplify_map_eq; [by right|].
    left. right. by exists g', i', a', ev', cap.
  - apply settle_handsOut; [lia|done|done].
  - apply settle_handsOut; [lia|done|done].
Qed.

Lemma onSignature_issued db0 g i ev cap answer now db o : onSignature db0 g i ev cap answer now = (db, o) ->
  match o with Continue _ => False | _ => True end /\
  forall k, k ∈ capabilities db ->
    k ∈ capabilities db0 \/ (k_requestId k = g_requestId g /\ k_nonce k = nonce cap).
Proof.
  unfold onSignature. intros E. destruct answer as [sg|t]; [|injection E as <- <-; auto].
  destruct (insertCapability _ _) as [db1|er] eqn:Ei; [|injection E as <- <-; auto].
  apply insertCapability_ok in Ei as ->.
  destruct (liftAbi _); injection E as <- <-; (split; [done|]); simpl;
    intros k [Hk| ->%list_elem_of_singleton]%elem_of_app; auto.
Qed.

Lemma handle_issued b now e :
  (forall id p, running b !! id = Some p -> pendingOk (db_ b) id p) -> handsOut b (fst (handle b now e)) now.
Proof.
  intros Hp. assert (handsOut b b now) as Hrefl by (split; [lia|by left]).
  destruct e as [id input|id answer|id answer|id answer]; simpl; try done.
  - destruct (receive (db_ b) id input now) as [db o] eqn:E. apply receive_issued in E as [Hcap Ho].
    destruct o as [r|p]; [|by apply settle_handsOut]. split; [simpl; lia|]. left. intros i n.
    unfold issued. simpl. by rewrite Hcap.
  - destruct (running b !! id) as [[g|g i asked|g i asked ev c]|] eqn:Er; try done.
    destruct (onIdentity (db_ b) g answer now) as [db o] eqn:E. apply onIdentity_issued in E as [Hcap Ho].
    by apply settle_handsOut.
  - destruct (running b !! id) as [[g|g i asked|g i asked ev c]|] eqn:Er; try done.
    destruct (onEvaluation (db_ b) (nonceCounter b) g i asked answer now) as [[db c] o] eqn:E.
    by eapply onEvaluation_issued.
  - destruct (running b !! id) as [[g|g i asked|g i asked ev cap]|] eqn:Er; try done.
    pose proof (Hp _ _ Er) as (_ & _ & <- & _).
    destruct (onSignature (db_ b) g i ev cap answer now) as [db o] eqn:E. apply onSignature_issued in E as [Ho Hk].
    destruct o as [r|p]; [|done]. split; [simpl; lia|]. left.
    intros j n [(k & Hkin & Hj & Hn)|(g' & i' & a' & ev' & cap' & Hr & H1)]; simpl in *.
    + apply Hk in Hkin as [Hkin|[E1 E2]]; [left; by exists k|]. right.
      exists g, i, asked, ev, cap. split; [|congruence]. by rewrite <- Hj, E1.
    + right. exists g', i', a', ev', cap'. split; [|done].
      destruct (decide (g_requestId g = j)) as [<-|]; by simplify_map_eq.
Qed.

Lemma run_nonces t es b :
  monotone t es -> Inv b -> NonceInv t b -> exists t', NonceInv t' (run es b).
Proof.
  revert t b. induction es as [|[now e] es IH]; intros t b Hm HI HN; simpl; [by exists t|].
  destruct Hm as [Ht Hm]. eapply IH; [exact Hm|by apply handle_inv|].
  eapply NonceInv_step; [exact Ht|done|]. apply handle_issued, HI.
Qed.

(** A nonce is used once.  While the clock does not run backwards, no two capabilities the broker
    has issued, stored or still being signed, carry one nonce, however many are issued within one
    millisecond. *)
Theorem nonces_unique (t : Z) (es : list (Z * Event)) :
  monotone t es ->
  NoDup (map k_nonce (capabilities (db_ (run es newBroker)))) /\
  forall id id' n, issued (run es newBroker) id n -> issued (run es newBroker) id' n -> id = id'.
Proof.
  intros Hm. destruct (run_nonces t es newBroker Hm Inv_new) as (t' & _ & Hu).
  { split; [intros id n|intros id id' n]; intros [(k & Hk & _)|(? & ? & ? & ? & ? & Hr & _)];
      simpl in *; first [by apply not_elem_of_nil in Hk|by rewrite lookup_empty in Hr]. }
  split; [|done]. destruct (run_inv es newBroker Inv_new) as [[] _].
  apply NoDup_alt. intros i j n Hi Hj. rewrite list_lookup_fmap in Hi, Hj.
  apply fmap_Some in Hi as (k & Hi & ->), Hj as (k' & Hj & E).
  assert (k_requestId k = k_requestId k') as Eid.
  { apply (Hu _ _ (k_nonce k)); left; [exists k|exists k']; split_and!; try done;
      by eapply list_elem_of_lookup_2. }
  apply (NoDup_lookup _ i j (k_requestId k) inv_caps0); unfold capIds;
    rewrite list_lookup_fmap, ?Hi, ?Hj; simpl; congruence.
Qed.

End Handlers.

End Requests.

Module Samples.
Import Adapters Requests.

(** viem's functions, as text builders. *)
Definition textEvm : Evm :=
  {| isAddress := fun s => starts_with "0x" s; getAddress := fun s => s;
     encodeFunctionData := fun f l => Ok (f +:+ stringify (JArr (map abiJson l)));
     hashTypedData := fun d _ n l => n +:+ verifyingContract d +:+ stringify (JArr (map abiJson l)) |}.

#[local] Existing Instance jsonCodec.
#[local] Existing Instance textEvm.

Definition samplePolicy : PublicPolicy :=
  {| p_policyId := "treasury"; p_policyHash := "0x90"; p_enabled := true;
     p_allowedActionKinds := ["MOCK_TRANSFER"]; p_allowedTargets := ["0xtreasury"];
     p_maxValueHardCap := 0; p_target := "0xtreasury" |}.

Definition sampleConfig : BrokerConfig :=
  {| cfg_chainId := 11155111; cfg_executor := "0xexecutor"; cfg_capabilityTtlSeconds := 120;
     cfg_policies := {["treasury" := samplePolicy]} |}.

Definition sampleParams : jsv := VObj [("recipient", VStr "0xbob"); ("amount", VStr "500")].

Definition sampleInput (key : string) : CreateRequestInput :=
  {| in_agentEnsName := "agent.eth"; in_actionKind := "MOCK_TRANSFER"; in_adapterParams := sampleParams;
     in_policyId := "treasury"; in_idempotencyKey := key |}.

Definition sampleIdentity : AgentIdentity :=
  {| i_ensName := "agent.eth"; i_node := "0x01"; i_agent := "0xagent"; i_bindingVersion := 1;
     i_agentIdentityHash := "0x1d"; i_source := "stub" |}.

Definition sampleEvaluation (auth : string) (v : Verdict) : EvaluationResult :=
  {| ev_authorizationId := auth; ev_requestHash := "0x00"; ev_verdict := v;
     ev_reasonCode := "WITHIN_AUTONOMOUS_LIMIT"; ev_contextCommitment := "0xc7"; ev_evaluatedAt := 1;
     ev_approvedUntil := 61; ev_source := "stub" |}.

(** Two requests, interleaved: the first is allowed, the second denied. *)
Definition sampleEvents : list (Z * Event) :=
  [(1000, Receive "r1" (sampleInput "key-1")); (1001, Receive "r2" (sampleInput "key-2"));
   (1002, IdentityAnswer "r2" (Ok sampleIdentity)); (1003, IdentityAnswer "r1" (Ok sampleIdentity));
   (1004, EvaluationAnswer "r1" (Ok (sampleEvaluation "a1" ALLOW)));
   (1005, EvaluationAnswer "r2" (Ok (sampleEvaluation "a2" DENY)))].

Definition sampleBroker : Broker := run sampleConfig sampleEvents newBroker.
Definition signedEvents : list (Z * Event) := sampleEvents ++ [(1006, SignatureAnswer "r1" (Ok "0x519"))].

Example statuses :
  map (fun r => (r_id r, r_status r)) (capability_requests (db_ (run sampleConfig signedEvents newBroker)))
    = [("r1", ALLOWED); ("r2", DENIED_)] /\
  map k_requestId (capabilities (db_ (run sampleConfig signedEvents newBroker))) = ["r1"].
Proof. vm_compute. done. Qed.

Lemma mockTransfer_faithful_witness :
  exists p tx, schema mockTransferAdapter sampleParams = Some p /\
    build mockTransferAdapter p {| ctx_chainId := 11155111; ctx_target := "0xtreasury" |} = Ok tx /\
    tx_target tx = "0xtreasury" /\ tx_value tx = 0 /\ 0 < bigintOf (amount p) <= 2 ^ 128.
Proof.
  do 2 eexists. split; [vm_compute; reflexivity|]. split; [vm_compute; reflexivity|].
  edestruct (mockTransfer_faithful sampleParams {| recipient := "0xbob"; amount := "500" |}
    {| ctx_chainId := 11155111; ctx_target := "0xtreasury" |}) as (_ & H1 & H2 & _ & H3 & _);
    [vm_compute; reflexivity|vm_compute; reflexivity|]. split; [exact H2|]. split; [exact H3|exact H1].
Defined.

Lemma capability_requires_allow_witness :
  exists k, k ∈ capabilities (db_ (run sampleConfig signedEvents newBroker)) /\
    evaluated (db_ (run sampleConfig signedEvents newBroker)) (k_requestId k) ALLOW.
Proof.
  assert (exists k, k ∈ capabilities (db_ (run sampleConfig signedEvents newBroker))) as [k Hk]
    by (eexists; vm_compute; left).
  exists k. split; [exact Hk|]. exact (proj1 (capability_requires_allow sampleConfig signedEvents k Hk)).
Defined.

Lemma response_capability_witness :
  exists b' r cap,
    handle sampleConfig sampleBroker 1006 (SignatureAnswer "r1" (Ok "0x519")) = (b', Some (Ok (Some r))) /\
    rr_capability r = Some cap /\ rr_status r = ALLOWED.
Proof.
  do 3 eexists. split; [vm_compute; reflexivity|]. split; [reflexivity|].
  edestruct (response_capability sampleConfig sampleEvents 1006 (SignatureAnswer "r1" (Ok "0x519")))
    as (g & i & asked & ev & _ & _ & _ & _ & _ & _ & _ & H);
    [vm_compute; reflexivity|reflexivity|exact H].
Defined.

(** The same key with another amount: the first request answers. *)
Lemma idempotent_replay_witness :
  in_idempotencyKey (sampleInput "key-1") ∈ rowKeys (db_ sampleBroker) /\
  capability_requests (db_ (fst (handle sampleConfig sampleBroker 2000 (Receive "r9" (sampleInput "key-1")))))
    = capability_requests (db_ sampleBroker).
Proof.
  assert (in_idempotencyKey (sampleInput "key-1") ∈ rowKeys (db_ sampleBroker)) as Hk by (vm_compute; left).
  split; [exact Hk|].
  pose proof (proj2 (idempotent_replay sampleConfig sampleEvents 2000 "r9" (sampleInput "key-1")) Hk) as H.
  cbv zeta in H. unfold sampleBroker.
  destruct (handle sampleConfig (run sampleConfig sampleEvents newBroker) 2000 _) as [b' resp]. exact (proj1 H).
Defined.

Lemma nonces_unique_witness :
  monotone 0 signedEvents /\ NoDup (map k_nonce (capabilities (db_ (run sampleConfig signedEvents newBroker)))).
Proof.
  assert (monotone 0 signedEvents) as Hm by (vm_compute; repeat split; discriminate).
  split; [exact Hm|]. exact (proj1 (nonces_unique sampleConfig 0 signedEvents Hm)).
Defined.

End Samples.
