(* ===== verification/Org.v ===== *)
(** * Organizations of agents

    [packages/studio-org/src]: the organization document ([schema.ts], Module [Schema]), its
    validation ([validator.ts], Module [Validator]), the blast radius of one compromised agent
    ([blast.ts], Module [Blast]) and inter-agent messages ([messaging.ts], Module [Messaging]).  An
    issue is its code, severity and path; message and remediation texts are not modelled.  The
    ledger the executing agents spend from is in [Budget]. *)

From S2P Require Import Prelude Regex Json.
From stdpp Require Import pretty sorting.
From Stdlib Require Import Ascii.
Local Open Scope Z_scope.

Module Schema.

Inductive ExecutionClass := NONE | READ_ONLY | EXECUTE.
#[export] Instance ExecutionClass_eq_dec : EqDecision ExecutionClass.
Proof. solve_decision. Defined.
Definition executionClassText (c : ExecutionClass) : string :=
  match c with NONE => "NONE" | READ_ONLY => "READ_ONLY" | EXECUTE => "EXECUTE" end.

Record OrgAgent := {
  id : string;
  displayName : string;
  ensLabel : string;
  ensName : string;
  executionClass : ExecutionClass;
  executionCapabilities : list string;
  dataCapabilities : list string;
  autonomousMaxUsdCents : option Z;
  escalationMaxUsdCents : option Z;
  dailyMaxUsdCents : option Z;
  deniedActions : list string;
  executionDomain : string;
  policyId : string
}.

Inductive ResourceKind := treasury | data_source | credential.
#[export] Instance ResourceKind_eq_dec : EqDecision ResourceKind.
Proof. solve_decision. Defined.

Record SharedResource := {
  res_id : string;
  res_kind : ResourceKind;
  res_description : string;
  res_agentIds : list string
}.

Record AggregateLimit := {
  lim_id : string;
  maxUsdCents : Z;
  windowMs : Z;
  lim_description : string
}.

Inductive MessageKind := observation | request | status.
#[export] Instance MessageKind_eq_dec : EqDecision MessageKind.
Proof. solve_decision. Defined.

Record CommunicationRule := { from : string; to : string; messageKinds : list MessageKind }.

(** [schemaVersion] and [delegationEnabled] are literals of the document's type. *)
Record Organization := {
  orgId : string;
  revision : Z;
  rootEns : string;
  agentNamespace : string;
  agents : list OrgAgent;
  sharedResources : list SharedResource;
  aggregateLimits : list AggregateLimit;
  communicationRules : list CommunicationRule
}.
Definition delegationEnabled (org : Organization) : bool := false.

Definition is_lower (c : ascii) : bool := range "a" "z" c.
Definition is_kebab (c : ascii) : bool := is_lower_alnum c || Ascii.eqb c "-"%char.

(** [/^[a-z][a-z0-9-]{1,31}$/] and [/^[a-z0-9][a-z0-9-]{0,62}$/]. *)
Definition agentIdValid (s : string) : bool :=
  match s with
  | String c s' => is_lower c && all_chars is_kebab s' && (1 <=? String.length s')%nat
      && (String.length s' <=? 31)%nat
  | EmptyString => false
  end.
Definition ensLabelValid (s : string) : bool :=
  match s with
  | String c s' => is_lower_alnum c && all_chars is_kebab s' && (String.length s' <=? 62)%nat
  | EmptyString => false
  end.

Definition minLength (n : nat) (s : string) : bool := (n <=? String.length s)%nat.
Definition nonnegative (o : option Z) : bool := match o with Some n => 0 <=? n | None => true end.

Definition agentValid (a : OrgAgent) : bool :=
  agentIdValid (id a) && minLength 1 (displayName a) && ensLabelValid (ensLabel a)
  && minLength 3 (ensName a) && nonnegative (autonomousMaxUsdCents a)
  && nonnegative (escalationMaxUsdCents a) && nonnegative (dailyMaxUsdCents a)
  && minLength 1 (executionDomain a) && minLength 1 (policyId a).

(** What [OrganizationSchema] checks of a document of the right shape. *)
Definition schemaValid (org : Organization) : bool :=
  minLength 1 (orgId org) && (0 <? revision org) && minLength 3 (rootEns org)
  && minLength 3 (agentNamespace org) && (1 <=? length (agents org))%nat
  && every agentValid (agents org)
  && every (fun r => minLength 1 (res_id r) && every agentIdValid (res_agentIds r)) (sharedResources org)
  && every (fun l => minLength 1 (lim_id l) && (0 <=? maxUsdCents l) && (0 <? windowMs l)) (aggregateLimits org)
  && every (fun c => agentIdValid (from c) && agentIdValid (to c)) (communicationRules org).

Definition buildEnsName (label namespace : string) : string := label +:+ "." +:+ namespace.

(** [org.agents.find((a) => a.id === agentId)]. *)
Definition findAgent (org : Organization) (agentId : string) : option OrgAgent :=
  List.find (fun a => streq (id a) agentId) (agents org).

Definition isExecutor (a : OrgAgent) : bool := bool_decide (executionClass a = EXECUTE).

(** [[...limits].sort((a, b) => a.maxUsdCents - b.maxUsdCents)[0]]: the first of the smallest. *)
Fixpoint tightest (l : list AggregateLimit) : option AggregateLimit :=
  match l with
  | [] => None
  | x :: l' => match tightest l' with
               | Some y => if maxUsdCents x <=? maxUsdCents y then Some x else Some y
               | None => Some x
               end
  end.

Lemma tightest_least l x :
  tightest l = Some x -> x ∈ l /\ forall y, y ∈ l -> maxUsdCents x <= maxUsdCents y.
Proof.
  revert x. induction l as [|y l IH]; intros x; simpl; [done|].
  destruct (tightest l) as [z|] eqn:E.
  - destruct (IH z eq_refl) as [Hz Hl]. destruct (maxUsdCents y <=? maxUsdCents z) eqn:Eb;
      [apply Z.leb_le in Eb|apply Z.leb_gt in Eb]; intros [= <-]; (split; [set_solver|]);
      intros w [->|Hw]%elem_of_cons; try lia; specialize (Hl w Hw); lia.
  - intros [= <-]. split; [left|]. intros w [->|Hw]%elem_of_cons; [lia|].
    destruct l as [|u l]; [by apply not_elem_of_nil in Hw|]. simpl in E.
    destruct (tightest l) as [v|]; [by destruct (_ <=? _)|done].
Qed.

Lemma findAgent_Some org i a : findAgent org i = Some a -> a ∈ agents org /\ id a = i.
Proof. intros [H E]%find_true. by apply streq_true in E. Qed.

End Schema.

Module Validator.
Import Schema.

Inductive Severity := CRITICAL | HIGH | MEDIUM | LOW | INFO.
#[export] Instance Severity_eq_dec : EqDecision Severity.
Proof. solve_decision. Defined.

Record OrgIssue := { code : string; severity : Severity; path : string }.
Record OrgValidationResult := { ok : bool; buildable : bool; issues : list OrgIssue }.

Definition issue (c : string) (s : Severity) (p : string) : OrgIssue :=
  {| code := c; severity := s; path := p |}.

(** [if (c) issues.push(issue(...))]. *)
Definition reportIf (c : bool) (i : OrgIssue) : list OrgIssue := if c then [i] else [].

Definition VALUE_MOVING (s : string) : bool :=
  some (fun w => str_contains w (to_lower s))
    ["withdraw"; "borrow"; "transfer"; "send"; "swap"; "approve"; "repay"; "supply"; "execute"].

Definition at_ (list_ : string) (i : nat) : string := list_ +:+ "[" +:+ pretty i +:+ "]".

Definition unknownLimit (p field : string) (v : option Z) : list OrgIssue :=
  reportIf (bool_decide (v = None)) (issue "ORG-V-UNKNOWN-LIMIT" HIGH (p +:+ "." +:+ field)).

(** [a !== null && b !== null && a < b]. *)
Definition below (x y : option Z) : bool :=
  match x, y with Some n, Some m => n <? m | _, _ => false end.

(** One agent, after the agents of [seen]. *)
Definition agentIssues (org : Organization) (seen : list OrgAgent) (i : nat) (a : OrgAgent) : list OrgIssue :=
  let p := at_ "agents" i in
  reportIf (includes (map id seen) (id a)) (issue "ORG-V-DUP-AGENT-ID" CRITICAL (p +:+ ".id"))
  ++ reportIf (negb (streq (ensName a) (buildEnsName (ensLabel a) (agentNamespace org))))
       (issue "ORG-V-ENS-MISMATCH" HIGH (p +:+ ".ensName"))
  ++ reportIf (streq (ensName a) (rootEns org) || streq (ensName a) (agentNamespace org))
       (issue "ORG-V-ROOT-IDENTITY" CRITICAL (p +:+ ".ensName"))
  ++ reportIf (includes (map ensName seen) (ensName a)) (issue "ORG-V-DUP-ENS" CRITICAL (p +:+ ".ensName"))
  ++ reportIf (includes (map policyId seen) (policyId a))
       (issue "ORG-V-SHARED-POLICY" CRITICAL (p +:+ ".policyId"))
  ++ reportIf (includes (map executionDomain seen) (executionDomain a))
       (issue "ORG-V-SHARED-DOMAIN" CRITICAL (p +:+ ".executionDomain"))
  ++ reportIf (negb (isExecutor a) && (0 <? length (executionCapabilities a))%nat)
       (issue "ORG-V-NONEXEC-HAS-EXECUTION" CRITICAL (p +:+ ".executionCapabilities"))
  ++ reportIf (negb (isExecutor a) && (0 <? length (List.filter VALUE_MOVING (dataCapabilities a)))%nat)
       (issue "ORG-V-VALUE-CAP-MISCLASSED" HIGH (p +:+ ".dataCapabilities"))
  ++ (if isExecutor a then
        unknownLimit p "autonomousMaxUsdCents" (autonomousMaxUsdCents a)
        ++ unknownLimit p "escalationMaxUsdCents" (escalationMaxUsdCents a)
        ++ unknownLimit p "dailyMaxUsdCents" (dailyMaxUsdCents a)
        ++ reportIf (below (escalationMaxUsdCents a) (autonomousMaxUsdCents a))
             (issue "ORG-V-BAND-INVERTED" HIGH (p +:+ ".escalationMaxUsdCents"))
        ++ reportIf (below (dailyMaxUsdCents a) (autonomousMaxUsdCents a))
             (issue "ORG-V-DAILY-BELOW-SINGLE" MEDIUM (p +:+ ".dailyMaxUsdCents"))
      else []).

(** [org.agents.forEach]; a [seen] map has a key exactly when an earlier agent carried the value. *)
Fixpoint agentsIssues (org : Organization) (seen : list OrgAgent) (i : nat) (l : list OrgAgent)
    : list OrgIssue :=
  match l with
  | [] => []
  | a :: l' => agentIssues org seen i a ++ agentsIssues org (seen ++ [a]) (S i) l'
  end.

Definition known (org : Organization) (i : string) : bool := includes (map id (agents org)) i.

Definition resourceIssues (org : Organization) (i : nat) (r : SharedResource) : list OrgIssue :=
  flat_map (fun a => reportIf (negb (known org a))
    (issue "ORG-V-RESOURCE-UNKNOWN-AGENT" HIGH (at_ "sharedResources" i +:+ ".agentIds"))) (res_agentIds r)
  ++ reportIf (bool_decide (res_kind r = credential) && (1 <? length (res_agentIds r))%nat)
       (issue "ORG-V-SHARED-CREDENTIAL" CRITICAL (at_ "sharedResources" i)).

(** The sum of the daily caps, when every one is known. *)
Fixpoint sumCaps (l : list (option Z)) : option Z :=
  match l with
  | [] => Some 0
  | None :: _ => None
  | Some n :: l' => match sumCaps l' with Some s => Some (n + s) | None => None end
  end.

Definition executingAgents (org : Organization) : list OrgAgent := List.filter isExecutor (agents org).

Definition aggregateIssues (org : Organization) : list OrgIssue :=
  let treasuries := List.filter (fun r => bool_decide (res_kind r = treasury)) (sharedResources org) in
  let executors := executingAgents org in
  reportIf ((0 <? length treasuries)%nat && (length (aggregateLimits org) =? 0)%nat && (1 <? length executors)%nat)
    (issue "ORG-V-AGGREGATE-MISSING" CRITICAL "aggregateLimits")
  ++ match sumCaps (map dailyMaxUsdCents executors) with
     | Some sum => concat (imap (fun i l => reportIf ((sum <=? maxUsdCents l) && (1 <? length executors)%nat)
         (issue "ORG-V-AGGREGATE-VACUOUS" MEDIUM (at_ "aggregateLimits" i +:+ ".maxUsdCents")))
         (aggregateLimits org))
     | None => []
     end.

Definition ruleIssues (org : Organization) (i : nat) (c : CommunicationRule) : list OrgIssue :=
  let p := at_ "communicationRules" i in
  reportIf (negb (known org (from c))) (issue "ORG-V-COMM-UNKNOWN-AGENT" HIGH (p +:+ ".from"))
  ++ reportIf (negb (known org (to c))) (issue "ORG-V-COMM-UNKNOWN-AGENT" HIGH (p +:+ ".to"))
  ++ reportIf (streq (from c) (to c)) (issue "ORG-V-COMM-SELF" LOW p).

Definition orgIssues (org : Organization) : list OrgIssue :=
  reportIf (negb (ends_with ("." +:+ rootEns org) (agentNamespace org)))
    (issue "ORG-V-NAMESPACE-ROOT" HIGH "agentNamespace")
  ++ agentsIssues org [] 0 (agents org)
  ++ concat (imap (resourceIssues org) (sharedResources org))
  ++ aggregateIssues org
  ++ concat (imap (ruleIssues org) (communicationRules org)).

Definition hasSeverity (s : Severity) (l : list OrgIssue) : bool :=
  some (fun i => bool_decide (severity i = s)) l.

(** A document the schema refuses has one issue per parse error, all CRITICAL; one stands for them. *)
Definition validateOrganization (org : Organization) : OrgValidationResult :=
  if schemaValid org then
    let l := orgIssues org in
    {| ok := (length l =? 0)%nat; buildable := negb (hasSeverity CRITICAL l) && negb (hasSeverity HIGH l);
       issues := l |}
  else {| ok := false; buildable := false; issues := [issue "ORG-SCHEMA" CRITICAL EmptyString] |}.

(** ** What a buildable organization is *)

(** No issue of [l] blocks a build. *)
Definition clean (l : list OrgIssue) : bool := negb (hasSeverity CRITICAL l) && negb (hasSeverity HIGH l).

Definition blocking (i : OrgIssue) : bool := bool_decide (severity i = CRITICAL) || bool_decide (severity i = HIGH).

Lemma clean_every l : clean l = every (fun i => negb (blocking i)) l.
Proof.
  unfold clean, hasSeverity, blocking. induction l as [|i l IH]; [done|]. simpl. rewrite <- IH.
  destruct (bool_decide (severity i = CRITICAL)), (bool_decide (severity i = HIGH)),
    (some _ l); simpl; try done; by rewrite ?andb_false_r.
Qed.

Lemma clean_app l l' : clean (l ++ l') = true <-> clean l = true /\ clean l' = true.
Proof.
  rewrite !clean_every, !every_true. setoid_rewrite elem_of_app. naive_solver.
Qed.

Lemma clean_reportIf c i : clean (reportIf c i) = true <-> c = false \/ blocking i = false.
Proof. rewrite clean_every. destruct c; simpl; [|naive_solver]. destruct (blocking i); naive_solver. Qed.

(** A blocking issue is reported or the organization is clean of it. *)
Lemma clean_block c k p s : s = CRITICAL \/ s = HIGH -> clean (reportIf c (issue k s p)) = true <-> c = false.
Proof. intros Hs. rewrite clean_reportIf. unfold blocking. destruct Hs as [-> | ->]; simpl; naive_solver. Qed.

Lemma clean_warn c k p s : s <> CRITICAL -> s <> HIGH -> clean (reportIf c (issue k s p)) = true.
Proof.
  intros H1 H2. rewrite clean_reportIf. right. unfold blocking. simpl. by destruct s.
Qed.

Lemma clean_imap {A : Type} (f : nat -> A -> list OrgIssue) (P : A -> Prop) l :
  (forall i x, clean (f i x) = true <-> P x) ->
  clean (concat (imap f l)) = true <-> forall x, x ∈ l -> P x.
Proof.
  revert f. induction l as [|x l IH]; intros f Hf.
  - split; [intros _ x Hx; by apply not_elem_of_nil in Hx|done].
  - rewrite imap_cons. simpl. rewrite clean_app, Hf, (IH (f ∘ S)); [|intros; apply Hf].
    setoid_rewrite elem_of_cons. naive_solver.
Qed.

Lemma clean_flat_map {A : Type} (f : A -> list OrgIssue) l :
  clean (flat_map f l) = true <-> forall x, x ∈ l -> clean (f x) = true.
Proof.
  induction l as [|x l IH]; simpl.
  - split; [intros _ x Hx; by apply not_elem_of_nil in Hx|done].
  - rewrite clean_app, IH. setoid_rewrite elem_of_cons. naive_solver.
Qed.

Lemma length_pos {A : Type} (l : list A) : (0 <? length l)%nat = false <-> l = [].
Proof. destruct l; simpl; [done|]. split; done. Qed.

Lemma filter_nil {A : Type} (f : A -> bool) (l : list A) :
  List.filter f l = [] <-> forall x, x ∈ l -> f x = false.
Proof.
  induction l as [|x l IH]; simpl; [split; [intros _ x Hx; by apply not_elem_of_nil in Hx|done]|].
  setoid_rewrite elem_of_cons. destruct (f x) eqn:E; [|rewrite IH; naive_solver].
  split; [done|]. intros H. rewrite (H x) in E; [done|by left].
Qed.

Lemma isExecutor_true a : isExecutor a = true <-> executionClass a = EXECUTE.
Proof. apply bool_decide_eq_true. Qed.
Lemma isExecutor_false a : isExecutor a = false <-> executionClass a <> EXECUTE.
Proof. apply bool_decide_eq_false. Qed.

(** An agent on its own, whatever the others are. *)
Definition agentSound (org : Organization) (a : OrgAgent) : Prop :=
  ensName a = buildEnsName (ensLabel a) (agentNamespace org) /\
  ensName a <> rootEns org /\ ensName a <> agentNamespace org /\
  (executionClass a <> EXECUTE ->
     executionCapabilities a = [] /\ forall c, c ∈ dataCapabilities a -> VALUE_MOVING c = false) /\
  (executionClass a = EXECUTE -> exists auto esc daily,
     autonomousMaxUsdCents a = Some auto /\ escalationMaxUsdCents a = Some esc /\
     dailyMaxUsdCents a = Some daily /\ auto <= esc).

(** Several principals, not one with several names. *)
Record Separated (org : Organization) : Prop := {
  sep_namespace : ends_with ("." +:+ rootEns org) (agentNamespace org) = true;
  sep_ids : NoDup (map id (agents org));
  sep_ens : NoDup (map ensName (agents org));
  sep_policies : NoDup (map policyId (agents org));
  sep_domains : NoDup (map executionDomain (agents org));
  sep_agents : forall a, a ∈ agents org -> agentSound org a;
  sep_resources : forall r, r ∈ sharedResources org ->
    (forall a, a ∈ res_agentIds r -> a ∈ map id (agents org)) /\
    (res_kind r = credential -> (length (res_agentIds r) <= 1)%nat);
  sep_aggregate : (exists r, r ∈ sharedResources org /\ res_kind r = treasury) ->
    (1 < length (executingAgents org))%nat -> aggregateLimits org <> [];
  sep_rules : forall c, c ∈ communicationRules org ->
    from c ∈ map id (agents org) /\ to c ∈ map id (agents org)
}.

Lemma blocking_high c p : blocking (issue c HIGH p) = true.
Proof. reflexivity. Qed.
Lemma blocking_medium c p : blocking (issue c MEDIUM p) = false.
Proof. reflexivity. Qed.

Lemma agentIssues_clean org seen i a :
  clean (agentIssues org seen i a) = true <->
  agentSound org a /\ id a ∉ map id seen /\ ensName a ∉ map ensName seen /\
  policyId a ∉ map policyId seen /\ executionDomain a ∉ map executionDomain seen.
Proof.
  unfold agentIssues, agentSound. rewrite !clean_app, !clean_reportIf.
  unfold blocking. simpl. rewrite !includes_false, negb_false_iff, orb_false_iff, streq_true, !streq_false,
    !andb_false_iff, !negb_false_iff, isExecutor_true, !length_pos, filter_nil.
  destruct (isExecutor a) eqn:E.
  - apply isExecutor_true in E. unfold unknownLimit. rewrite !clean_app, !clean_reportIf. simpl.
    rewrite !bool_decide_eq_false, !blocking_high, blocking_medium.
    destruct (autonomousMaxUsdCents a) as [n|], (escalationMaxUsdCents a) as [m|], (dailyMaxUsdCents a) as [d|];
      simpl; rewrite ?Z.ltb_ge; naive_solver.
  - apply isExecutor_false in E. naive_solver.
Qed.

Lemma NoDup_map_snoc {A B : Type} (f : A -> B) (seen l : list A) a :
  NoDup (map f (seen ++ a :: l)) <-> NoDup (map f ((seen ++ [a]) ++ l)).
Proof. by rewrite <- app_assoc. Qed.

Lemma NoDup_map_fresh {A B : Type} (f : A -> B) (seen l : list A) a :
  NoDup (map f (seen ++ a :: l)) -> f a ∉ map f seen.
Proof. rewrite map_app. simpl. intros (_ & H & _)%NoDup_app Hin. apply (H _ Hin). left. Qed.

(** Clean of agent issues: each agent sound on its own, and no value carried twice. *)
Lemma agentsIssues_clean org seen i l :
  NoDup (map id seen) -> NoDup (map ensName seen) -> NoDup (map policyId seen) ->
  NoDup (map executionDomain seen) ->
  clean (agentsIssues org seen i l) = true <->
  (forall a, a ∈ l -> agentSound org a) /\ NoDup (map id (seen ++ l)) /\ NoDup (map ensName (seen ++ l)) /\
  NoDup (map policyId (seen ++ l)) /\ NoDup (map executionDomain (seen ++ l)).
Proof.
  revert seen i. induction l as [|a l IH]; intros seen i H1 H2 H3 H4; simpl.
  - rewrite app_nil_r. split; [intros _; split_and!; try done; intros a Ha; by apply not_elem_of_nil in Ha|done].
  - rewrite clean_app, agentIssues_clean.
    assert (forall (B : Type) (f : OrgAgent -> B), NoDup (map f seen) -> f a ∉ map f seen ->
      NoDup (map f (seen ++ [a]))) as Hs.
    { intros B f Hnd Hf. rewrite map_app. apply NoDup_app. split_and!; [done| |apply NoDup_singleton].
      simpl. set_solver. }
    setoid_rewrite elem_of_cons. split.
    + intros [(Ha & ? & ? & ? & ?) Hl].
      apply IH in Hl as (Hl & ? & ? & ? & ?); [|by apply Hs..].
      rewrite !(NoDup_map_snoc _ seen l a). split_and!; try done. intros b [->|Hb]; auto.
    + intros (Ha & N1 & N2 & N3 & N4).
      split; [split_and!; [by apply Ha; left|by eapply NoDup_map_fresh..]|].
      apply IH; [apply Hs; [done|by eapply NoDup_map_fresh]..|].
      rewrite <- !NoDup_map_snoc. split_and!; try done. intros b Hb. apply Ha. by right.
Qed.

Lemma known_false org i : negb (known org i) = false <-> i ∈ map id (agents org).
Proof. unfold known. by rewrite negb_false_iff, includes_true. Qed.

Lemma aggregateIssues_clean org :
  clean (aggregateIssues org) = true <->
  ((exists r, r ∈ sharedResources org /\ res_kind r = treasury) ->
   (1 < length (executingAgents org))%nat -> aggregateLimits org <> []).
Proof.
  unfold aggregateIssues. rewrite clean_app, clean_reportIf.
  assert (forall (o : option Z) (f : Z -> list OrgIssue), (forall x, clean (f x) = true) ->
    clean (match o with Some x => f x | None => [] end) = true) as Hm by (by intros [x|] f Hf).
  rewrite Hm by (intros sum; apply (clean_imap _ (fun _ => True)); [|done];
    intros; rewrite clean_reportIf; simpl; naive_solver).
  simpl. rewrite !andb_false_iff, length_pos, filter_nil, Nat.eqb_neq, Nat.ltb_ge.
  setoid_rewrite bool_decide_eq_false.
  split.
  - intros [[[[H|H]|H]|H] _] (r & Hr & Hk) Hex Hl; [by apply (H r)|by rewrite Hl in H|lia|done].
  - intros H. split; [|done]. left. destruct (decide (aggregateLimits org = [])) as [E|E].
    2:{ left. right. by destruct (aggregateLimits org). }
    destruct (decide (1 < length (executingAgents org))%nat) as [Hx|Hx]; [|right; lia].
    left. left. intros r Hr Hk. apply (H ltac:(eauto) Hx E).
Qed.

Lemma orgIssues_clean org : clean (orgIssues org) = true <-> Separated org.
Proof.
  unfold orgIssues. rewrite !clean_app, clean_reportIf, agentsIssues_clean by constructor.
  rewrite aggregateIssues_clean.
  rewrite (clean_imap _ (fun r => (forall a, a ∈ res_agentIds r -> a ∈ map id (agents org)) /\
    (res_kind r = credential -> (length (res_agentIds r) <= 1)%nat))).
  2:{ intros i r. unfold resourceIssues. rewrite clean_app, clean_flat_map, clean_block by auto.
      setoid_rewrite clean_block; [|by auto]. setoid_rewrite known_false.
      rewrite andb_false_iff, bool_decide_eq_false, Nat.ltb_ge.
      destruct (decide (res_kind r = credential)); intuition. }
  rewrite (clean_imap _ (fun c => from c ∈ map id (agents org) /\ to c ∈ map id (agents org))).
  2:{ intros i c. unfold ruleIssues. rewrite !clean_app, !clean_reportIf, !known_false. simpl.
      unfold blocking. simpl. naive_solver. }
  unfold blocking. simpl. rewrite negb_false_iff.
  split.
  - intros ([H|H] & (Ha & ? & ? & ? & ?) & ? & ? & ?); [|done]. by constructor.
  - intros []. split_and!; try done. by left.
Qed.

(** An organization builds exactly when it is what it claims to be: schema-valid, every agent a
    principal of its own (distinct id, ENS name, policy and execution domain; its own name under the
    organization's namespace), only executing agents able to move value and those with known and
    ordered limits, no credential shared, every reference to a declared agent, and a cap over any
    treasury that several executors draw on. *)
Theorem validateOrganization_buildable (org : Organization) :
  buildable (validateOrganization org) = true <-> schemaValid org = true /\ Separated org.
Proof.
  unfold validateOrganization. destruct (schemaValid org); simpl; [|naive_solver].
  fold (clean (orgIssues org)). rewrite orgIssues_clean. naive_solver.
Qed.

End Validator.

Module Blast.
Import Schema.

Inductive Via := SHARED_POLICY | SHARED_DOMAIN | SHARED_CREDENTIAL.
Record Reach := { agentId : string; via : Via }.

Record BlastRadius := {
  compromisedAgentId : string;
  directCapabilities : list string;
  maxAutonomousUsdCents : option Z;
  maxWindowUsdCents : option Z;
  authorityReachesAgents : list Reach;
  canMessageAgents : list string;
  containedBy : list string
}.

Definition bindingWindowCap (org : Organization) (agent : OrgAgent) : option Z :=
  let agg := tightest (aggregateLimits org) in
  match dailyMaxUsdCents agent with
  | None => maxUsdCents <$> agg
  | Some daily => Some (match agg with Some l => Z.min daily (maxUsdCents l) | None => daily end)
  end.

(** Agents that hold the same policy or execution domain. *)
Definition sharedAuthority (agent : OrgAgent) (l : list OrgAgent) : list Reach :=
  omap (fun other =>
    if streq (id other) (id agent) then None
    else if streq (policyId other) (policyId agent) then Some {| agentId := id other; via := SHARED_POLICY |}
    else if streq (executionDomain other) (executionDomain agent) then
      Some {| agentId := id other; via := SHARED_DOMAIN |}
    else None) l.

Definition addCredential (agent : OrgAgent) (reaches : list Reach) (other : string) : list Reach :=
  if streq other (id agent) then reaches
  else if some (fun x => streq (agentId x) other) reaches then reaches
  else reaches ++ [{| agentId := other; via := SHARED_CREDENTIAL |}].

(** The holders of one credential, if [agent] is among them. *)
Definition sharedCredential (agent : OrgAgent) (reaches : list Reach) (r : SharedResource) : list Reach :=
  if negb (bool_decide (res_kind r = credential)) then reaches
  else if negb (includes (res_agentIds r) (id agent)) then reaches
  else foldl (addCredential agent) reaches (res_agentIds r).

Definition reachedAgents (org : Organization) (agent : OrgAgent) : list Reach :=
  foldl (sharedCredential agent) (sharedAuthority agent (agents org)) (sharedResources org).

Inductive BlastError := ORG_BLAST_UNKNOWN_AGENT.

Section Computation.
(** [localeCompare] is the runtime's collation. *)
Context (localeCompare : string -> string -> Z).

Definition locale_le (x y : Reach) : Prop := localeCompare (agentId x) (agentId y) <= 0.
#[local] Instance locale_le_dec : RelDecision locale_le.
Proof. unfold locale_le. intros x y. apply _. Defined.

Definition computeBlastRadius (org : Organization) (compromised : string) : result BlastError BlastRadius :=
  match findAgent org compromised with
  | None => Err ORG_BLAST_UNKNOWN_AGENT
  | Some agent =>
      let reaches := reachedAgents org agent in
      let executes := isExecutor agent in
      Ok {| compromisedAgentId := compromised;
            directCapabilities := if executes then executionCapabilities agent else [];
            maxAutonomousUsdCents := if executes then autonomousMaxUsdCents agent else Some 0;
            maxWindowUsdCents := if executes then bindingWindowCap org agent else Some 0;
            authorityReachesAgents := merge_sort locale_le reaches;
            canMessageAgents := merge_sort str_le (map to
              (List.filter (fun r => streq (from r) (id agent)) (communicationRules org)));
            containedBy :=
              (if executes then [] else
                 ["Agent holds no execution capability, so no value can move through it."])
              ++ (match reaches with
                  | [] => ["No other agent shares its policy, execution domain, or credentials."]
                  | _ => [] end)
              ++ (match tightest (aggregateLimits org) with
                  | Some agg => ["Organization aggregate cap of " +:+ pretty (maxUsdCents agg) +:+ " cents per "
                      +:+ pretty (windowMs agg) +:+ " ms bounds total loss regardless of per-agent limits."]
                  | None => [] end)
              ++ ["Messages it sends carry no authority; a recipient still has to pass its own policy."]
              ++ (if delegationEnabled org then [] else
                 ["Delegation is not representable, so it cannot grant itself another agent's authority."]) |}
  end.

End Computation.

(** ** Containment *)

Lemma sharedAuthority_separated org a :
  Validator.Separated org -> a ∈ agents org -> sharedAuthority a (agents org) = [].
Proof.
  intros HS Ha. unfold sharedAuthority. destruct (omap _ _) as [|r l] eqn:E; [done|].
  assert (r ∈ r :: l) as Hr by left. rewrite <- E in Hr.
  apply list_elem_of_omap in Hr as (b & Hb & Hf).
  destruct (streq (id b) (id a)) eqn:Ei; [done|]. apply streq_false in Ei.
  destruct (streq (policyId b) (policyId a)) eqn:Ep.
  { apply streq_true in Ep. by rewrite (NoDup_map_inj policyId _ b a (Validator.sep_policies _ HS) Hb Ha Ep) in Ei. }
  destruct (streq (executionDomain b) (executionDomain a)) eqn:Ed; [|done].
  apply streq_true in Ed.
  by rewrite (NoDup_map_inj executionDomain _ b a (Validator.sep_domains _ HS) Hb Ha Ed) in Ei.
Qed.

Lemma sharedCredential_separated agent r :
  (res_kind r = credential -> (length (res_agentIds r) <= 1)%nat) -> sharedCredential agent [] r = [].
Proof.
  intros Hl. unfold sharedCredential. case_bool_decide as Hk; simpl; [|done].
  destruct (includes (res_agentIds r) (id agent)) eqn:Ei; simpl; [|done]. apply includes_true in Ei.
  specialize (Hl Hk). destruct (res_agentIds r) as [|x [|y l]]; simpl in Hl; [done| |lia].
  apply list_elem_of_singleton in Ei as <-. simpl. unfold addCredential. by rewrite streq_refl.
Qed.

(** Compromising one agent of a separated organization yields no other agent's authority. *)
Lemma reachedAgents_separated org a :
  Validator.Separated org -> a ∈ agents org -> reachedAgents org a = [].
Proof.
  intros HS Ha. unfold reachedAgents. rewrite sharedAuthority_separated by done.
  assert (forall r, r ∈ sharedResources org -> res_kind r = credential ->
    (length (res_agentIds r) <= 1)%nat) as Hres by (intros r Hr; apply (Validator.sep_resources _ HS r Hr)).
  induction (sharedResources org) as [|r l IH]; simpl; [done|].
  rewrite sharedCredential_separated by (apply Hres; left). apply IH. intros r' Hr'. apply Hres. by right.
Qed.

End Blast.

Module Messaging.
Import Schema.

Inductive OrgMessageReason :=
| NO_RULE | UNKNOWN_SENDER | UNKNOWN_RECIPIENT | KIND_NOT_PERMITTED | SENDER_REVOKED.

Record InterAgentMessage := { m_from : string; m_to : string; m_kind : MessageKind; m_body : string }.

(** [conveysAuthority: false] and [trustClass: "USER_UNTRUSTED"] are literals of the type. *)
Record DeliveredMessage := { d_from : string; d_kind : MessageKind; d_body : string }.
Definition conveysAuthority (m : DeliveredMessage) : bool := false.
Definition trustClass (m : DeliveredMessage) : string := "USER_UNTRUSTED".

Definition deliverMessage (org : Organization) (msg : InterAgentMessage) (isRevoked : string -> bool)
    : result OrgMessageReason DeliveredMessage :=
  throw UNKNOWN_SENDER when negb (some (fun a => streq (id a) (m_from msg)) (agents org)) ;;
  throw UNKNOWN_RECIPIENT when negb (some (fun a => streq (id a) (m_to msg)) (agents org)) ;;
  throw SENDER_REVOKED when isRevoked (m_from msg) ;;
  match List.find (fun r => streq (from r) (m_from msg) && streq (to r) (m_to msg)) (communicationRules org) with
  | None => Err NO_RULE
  | Some rule =>
      throw KIND_NOT_PERMITTED when negb (includes (messageKinds rule) (m_kind msg)) ;;
      Ok {| d_from := m_from msg; d_kind := m_kind msg; d_body := m_body msg |}
  end.

(** Only a declared rule delivers: the kind is one the first rule between the two agents lists, and
    the body arrives as sent. *)
Lemma deliverMessage_ok org msg isRevoked d :
  deliverMessage org msg isRevoked = Ok d ->
  isRevoked (m_from msg) = false /\ d_body d = m_body msg /\
  exists r, r ∈ communicationRules org /\ from r = m_from msg /\ to r = m_to msg /\ m_kind msg ∈ messageKinds r.
Proof.
  unfold deliverMessage. rewrite !throw_ok. intros (_ & _ & Hr & H).
  destruct (List.find _ _) as [r|] eqn:E; [|done]. rewrite throw_ok, negb_false_iff, includes_true in H.
  destruct H as [Hk [= <-]]. apply find_true in E as [Hin E].
  rewrite andb_true_iff, !streq_true in E. destruct E. eauto 10.
Qed.

End Messaging.
