(* ===== verification/Budget.v ===== *)
(** * The shared-treasury ledger

    [packages/studio-org/src/budget.ts]: executing agents reserve budget, act, then settle or
    release.  The SQLite tables are the state; each public method is one immediate transaction, so a
    run of the ledger is a sequence of whole operations, whichever agents make them.  [reserve] reads
    the clock twice, for the totals and for the new row, so it takes two readings.  The theorems are
    about sliding windows of time and, with [Org.Blast], about what one compromised agent can spend. *)

From S2P Require Import Prelude Org.
Import Org.Schema Org.Blast.
Local Open Scope Z_scope.

Inductive OrgBudgetReason :=
| UNKNOWN_AGENT | NOT_EXECUTOR | REVOKED | UNKNOWN_LIMIT | PER_ACTION | AGENT_DAILY | AGGREGATE
| OVERSPEND | NO_RESERVATION.
#[export] Instance OrgBudgetReason_eq_dec : EqDecision OrgBudgetReason.
Proof. solve_decision. Defined.

Inductive SpendState := HELD | SETTLED | RELEASED.
#[export] Instance SpendState_eq_dec : EqDecision SpendState.
Proof. solve_decision. Defined.

Record SpendRow := {
  s_id : Z;
  s_orgId : string;
  s_agentId : string;
  s_usdCents : Z;
  s_state : SpendState;
  s_actionRef : string;
  s_createdAtMs : Z
}.

(** The two tables; a revocation is keyed by organization and agent. *)
Record Ledger := { org_spend : list SpendRow; org_revocations : gmap (string * string) (Z * string) }.
Definition emptyLedger : Ledger := {| org_spend := []; org_revocations := ∅ |}.

Definition sumOf (f : SpendRow -> bool) (rows : list SpendRow) : Z :=
  foldr (fun r acc => if f r then s_usdCents r + acc else acc) 0 rows.

(** [state IN ('HELD','SETTLED')]. *)
Definition counted (r : SpendRow) : bool := includes [HELD; SETTLED] (s_state r).

(** AUTOINCREMENT: one more than the largest id; rows are never deleted. *)
Definition nextId (rows : list SpendRow) : Z := 1 + foldr (fun r m => Z.max (s_id r) m) 0 rows.

Section OrgLedger.
Context (org : Organization).

Definition DAY_MS : Z := 24 * 60 * 60 * 1000.
Definition aggregate : option AggregateLimit := tightest (aggregateLimits org).
Definition window : Z := match aggregate with Some agg => windowMs agg | None => DAY_MS end.

Definition ofOrg (r : SpendRow) : bool := streq (s_orgId r) (orgId org) && counted r.

Record BudgetWindowTotals := { agentUsdCents : Z; orgUsdCents : Z }.

Definition totals (db : Ledger) (agent : string) (w now : Z) : BudgetWindowTotals :=
  let since := now - w in
  {| agentUsdCents := sumOf (fun r => ofOrg r && (since <? s_createdAtMs r) && streq (s_agentId r) agent)
       (org_spend db);
     orgUsdCents := sumOf (fun r => ofOrg r && (since <? s_createdAtMs r)) (org_spend db) |}.

Definition isRevoked (db : Ledger) (agent : string) : bool :=
  bool_decide (is_Some (org_revocations db !! (orgId org, agent))).

Definition revoke (db : Ledger) (agent reason : string) (now : Z) : Ledger :=
  {| org_spend := org_spend db;
     org_revocations := <[(orgId org, agent) := (now, reason)]> (org_revocations db) |}.

Definition withSpend (db : Ledger) (rows : list SpendRow) : Ledger :=
  {| org_spend := rows; org_revocations := org_revocations db |}.

Definition newSpend (db : Ledger) (agent : string) (usdCents : Z) (actionRef : string) (now : Z) : SpendRow :=
  {| s_id := nextId (org_spend db); s_orgId := orgId org; s_agentId := agent; s_usdCents := usdCents;
     s_state := HELD; s_actionRef := actionRef; s_createdAtMs := now |}.

Definition reserve (db : Ledger) (agentId_ : string) (usdCents : Z) (actionRef : string) (t1 t2 : Z)
    : result OrgBudgetReason (Z * Ledger) :=
  match findAgent org agentId_ with
  | None => Err UNKNOWN_AGENT
  | Some agent =>
      throw NOT_EXECUTOR when negb (isExecutor agent) ;;
      match escalationMaxUsdCents agent, dailyMaxUsdCents agent with
      | Some perAction, Some agentDaily =>
          throw REVOKED when isRevoked db agentId_ ;;
          throw PER_ACTION when usdCents >? perAction ;;
          let t := totals db agentId_ window t1 in
          throw AGENT_DAILY when agentUsdCents t + usdCents >? agentDaily ;;
          throw AGGREGATE when (match aggregate with
            | Some agg => orgUsdCents t + usdCents >? maxUsdCents agg | None => false end) ;;
          let row := newSpend db agentId_ usdCents actionRef t2 in
          Ok (s_id row, withSpend db (org_spend db ++ [row]))
      | _, _ => Err UNKNOWN_LIMIT
      end
  end.

Definition settled (actual : Z) (r : SpendRow) : SpendRow :=
  {| s_id := s_id r; s_orgId := s_orgId r; s_agentId := s_agentId r; s_usdCents := actual;
     s_state := SETTLED; s_actionRef := s_actionRef r; s_createdAtMs := s_createdAtMs r |}.
Definition released (r : SpendRow) : SpendRow :=
  {| s_id := s_id r; s_orgId := s_orgId r; s_agentId := s_agentId r; s_usdCents := s_usdCents r;
     s_state := RELEASED; s_actionRef := s_actionRef r; s_createdAtMs := s_createdAtMs r |}.

Definition settle (db : Ledger) (reservationId actual : Z) : result OrgBudgetReason Ledger :=
  match List.find (fun r => (s_id r =? reservationId) && streq (s_orgId r) (orgId org)) (org_spend db) with
  | None => Err NO_RESERVATION
  | Some row =>
      throw NO_RESERVATION when negb (bool_decide (s_state row = HELD)) ;;
      throw OVERSPEND when actual >? s_usdCents row ;;
      Ok (withSpend db (map (fun r => if s_id r =? reservationId then settled actual r else r) (org_spend db)))
  end.

Definition release (db : Ledger) (reservationId : Z) : Ledger :=
  withSpend db (map (fun r => if (s_id r =? reservationId) && streq (s_orgId r) (orgId org)
      && bool_decide (s_state r = HELD) then released r else r) (org_spend db)).

(** ** Runs *)

Inductive Op :=
| Reserve (agent : string) (usdCents : Z) (actionRef : string) (t1 t2 : Z)
| Settle (reservationId actual : Z)
| Release (reservationId : Z)
| Revoke (agent reason : string) (now : Z).

(** A refused operation's transaction is rolled back. *)
Definition apply (db : Ledger) (op : Op) : Ledger :=
  match op with
  | Reserve a n r t1 t2 => match reserve db a n r t1 t2 with Ok (_, db') => db' | Err _ => db end
  | Settle i n => match settle db i n with Ok db' => db' | Err _ => db end
  | Release i => release db i
  | Revoke a r t => revoke db a r t
  end.
Definition run (ops : list Op) (db : Ledger) : Ledger := foldl apply db ops.

(** Amounts are not negative and the clock does not run backwards inside one transaction. *)
Definition opOk (op : Op) : Prop :=
  match op with
  | Reserve _ n _ t1 t2 => 0 <= n /\ t1 <= t2
  | Settle _ n => 0 <= n
  | _ => True
  end.

(** What the rows of [p] count for within [(until - w, until]]. *)
Definition spentIn (p : SpendRow -> bool) (db : Ledger) (w until : Z) : Z :=
  sumOf (fun r => p r && (until - w <? s_createdAtMs r) && (s_createdAtMs r <=? until)) (org_spend db).

Definition ofAgent (agent : string) (r : SpendRow) : bool := ofOrg r && streq (s_agentId r) agent.

(** ** Sums over rows *)

Definition amountsOk (rows : list SpendRow) : Prop := forall r, r ∈ rows -> 0 <= s_usdCents r.

Lemma amountsOk_cons r rows : amountsOk (r :: rows) <-> 0 <= s_usdCents r /\ amountsOk rows.
Proof. unfold amountsOk. setoid_rewrite elem_of_cons. naive_solver. Qed.

Lemma sumOf_nonneg f rows : amountsOk rows -> 0 <= sumOf f rows.
Proof.
  induction rows as [|r rows IH]; simpl; [lia|]. intros [? ?]%amountsOk_cons.
  destruct (f r); [|auto]. specialize (IH ltac:(done)). lia.
Qed.

Lemma sumOf_le f g rows :
  amountsOk rows -> (forall r, f r = true -> g r = true) -> sumOf f rows <= sumOf g rows.
Proof.
  intros Ha Hfg. induction rows as [|r rows IH]; simpl; [lia|].
  apply amountsOk_cons in Ha as [? Ha]. specialize (IH Ha). pose proof (sumOf_nonneg g rows Ha).
  destruct (f r) eqn:E; [rewrite (Hfg r E); lia|]. destruct (g r); lia.
Qed.

Lemma sumOf_snoc f rows r : sumOf f (rows ++ [r]) = sumOf f rows + (if f r then s_usdCents r else 0).
Proof. induction rows as [|x rows IH]; simpl; [destruct (f r); lia|]. rewrite IH. destruct (f x), (f r); lia. Qed.

(** Changing rows so that none counts anew and no amount grows does not grow the sum. *)
Lemma sumOf_map_le f h rows :
  amountsOk rows ->
  (forall r, r ∈ rows -> f (h r) = true -> f r = true /\ s_usdCents (h r) <= s_usdCents r) ->
  sumOf f (map h rows) <= sumOf f rows.
Proof.
  intros Ha Hh. induction rows as [|r rows IH]; simpl; [lia|].
  apply amountsOk_cons in Ha as [? Ha].
  assert (sumOf f (map h rows) <= sumOf f rows) by (apply IH; [done|]; intros x Hx; apply Hh; by right).
  destruct (f (h r)) eqn:E; [|destruct (f r); lia].
  destruct (Hh r ltac:(left) E) as [-> ?]. lia.
Qed.

Lemma sumOf_none f rows : (forall r, r ∈ rows -> f r = false) -> sumOf f rows = 0.
Proof.
  intros H. induction rows as [|r rows IH]; simpl; [done|]. rewrite (H r) by left.
  apply IH. intros x Hx. apply H. by right.
Qed.

Lemma nextId_fresh rows r : r ∈ rows -> s_id r < nextId rows.
Proof.
  unfold nextId. induction rows as [|x rows IH]; intros Hr; [by apply not_elem_of_nil in Hr|].
  simpl. apply elem_of_cons in Hr as [->|Hr]; [lia|]. specialize (IH Hr). lia.
Qed.

(** ** The invariant of the ledger *)

Record LedgerInv (db : Ledger) : Prop := {
  l_amounts : amountsOk (org_spend db);
  l_ids : NoDup (map s_id (org_spend db));
  l_aggregate : forall agg, aggregate = Some agg -> forall until,
    spentIn ofOrg db (windowMs agg) until <= maxUsdCents agg;
  l_agents : forall i a d, findAgent org i = Some a -> dailyMaxUsdCents a = Some d -> forall until,
    spentIn (ofAgent i) db window until <= d;
  l_executors : forall r, r ∈ org_spend db -> ofOrg r = true -> exists a,
    findAgent org (s_agentId r) = Some a /\ isExecutor a = true /\ is_Some (dailyMaxUsdCents a)
}.

(** A new row whose amount still fits above the totals keeps every window within the cap. *)
Lemma spentIn_insert p db row w cap t1 until :
  amountsOk (org_spend db) -> 0 <= s_usdCents row -> t1 <= s_createdAtMs row ->
  spentIn p db w until <= cap ->
  (p row = true -> sumOf (fun r => p r && (t1 - w <? s_createdAtMs r)) (org_spend db) + s_usdCents row <= cap) ->
  spentIn p (withSpend db (org_spend db ++ [row])) w until <= cap.
Proof.
  unfold spentIn. simpl. intros Ha Hu Ht Hold Hnew. rewrite sumOf_snoc.
  destruct (p row && (until - w <? s_createdAtMs row) && (s_createdAtMs row <=? until)) eqn:E; [|lia].
  rewrite !andb_true_iff in E. destruct E as [[Hp _] Hle%Z.leb_le]. specialize (Hnew Hp).
  enough (sumOf (fun r => p r && (until - w <? s_createdAtMs r) && (s_createdAtMs r <=? until)) (org_spend db)
    <= sumOf (fun r => p r && (t1 - w <? s_createdAtMs r)) (org_spend db)) by lia.
  apply sumOf_le; [done|]. intros r. rewrite !andb_true_iff, !Z.ltb_lt. intros [[? ?] _].
  split; [done|lia].
Qed.

Lemma spentIn_map_le p db h w until :
  amountsOk (org_spend db) ->
  (forall r, r ∈ org_spend db -> s_createdAtMs (h r) = s_createdAtMs r /\
     (p (h r) = true -> p r = true /\ s_usdCents (h r) <= s_usdCents r)) ->
  spentIn p (withSpend db (map h (org_spend db))) w until <= spentIn p db w until.
Proof.
  intros Ha Hh. apply sumOf_map_le; [done|]. intros r Hr. destruct (Hh r Hr) as [-> Hp].
  rewrite !andb_true_iff. intros [[Hq ?] ?]. destruct (Hp Hq). done.
Qed.

(** An update that keeps a row's identity and only lowers what it counts for. *)
Definition lowers (r r' : SpendRow) : Prop :=
  s_id r' = s_id r /\ s_orgId r' = s_orgId r /\ s_agentId r' = s_agentId r /\
  s_createdAtMs r' = s_createdAtMs r /\ 0 <= s_usdCents r' /\
  (counted r' = true -> counted r = true /\ s_usdCents r' <= s_usdCents r).

Lemma LedgerInv_map db h :
  (forall r, r ∈ org_spend db -> lowers r (h r)) -> LedgerInv db ->
  LedgerInv (withSpend db (map h (org_spend db))).
Proof.
  intros Hh [].
  assert (forall p w until, (forall r, r ∈ org_spend db -> p (h r) = true -> counted (h r) = true /\
      (counted r = true -> p r = true)) ->
    spentIn p (withSpend db (map h (org_spend db))) w until <= spentIn p db w until) as Hs.
  { intros p w until Hp. apply spentIn_map_le; [done|]. intros r Hr.
    destruct (Hh r Hr) as (_ & _ & _ & Ht & _ & Hc). split; [done|]. intros Hpr.
    destruct (Hp r Hr Hpr) as [Hcr Hpr']. destruct (Hc Hcr). auto. }
  assert (forall r, r ∈ org_spend db -> ofOrg (h r) = true ->
    counted (h r) = true /\ (counted r = true -> ofOrg r = true)) as Ho.
  { intros r Hr. destruct (Hh r Hr) as (_ & E & _). unfold ofOrg. rewrite E, !andb_true_iff. tauto. }
  constructor; simpl.
  - intros r (x & <- & Hx%list_elem_of_In)%list_elem_of_In%in_map_iff. by apply Hh.
  - rewrite map_map. rewrite (map_ext_in _ s_id); [done|]. intros r Hr%list_elem_of_In. by apply Hh.
  - intros agg Hagg until. etrans; [apply (Hs ofOrg); exact Ho|by apply l_aggregate0].
  - intros i a d Hi Hd until. etrans; [apply (Hs (ofAgent i))|by eapply l_agents0].
    intros r Hr. unfold ofAgent. destruct (Hh r Hr) as (_ & _ & E & _). rewrite E, !andb_true_iff.
    intros [Hor ?]. destruct (Ho r Hr Hor). auto.
  - intros r (x & <- & Hx%list_elem_of_In)%list_elem_of_In%in_map_iff Hor.
    destruct (Hh x Hx) as (_ & _ & E & _ & _ & Hc). rewrite E. apply l_executors0; [done|].
    destruct (Ho x Hx Hor) as [Hcr Hox]. apply Hox. by apply Hc.
Qed.

(** Everything that must hold for a reservation, and what it then does. *)
Definition reservable (db : Ledger) (agentId_ : string) (usdCents t1 : Z) : Prop :=
  exists agent perAction daily, findAgent org agentId_ = Some agent /\ executionClass agent = EXECUTE /\
    escalationMaxUsdCents agent = Some perAction /\ dailyMaxUsdCents agent = Some daily /\
    isRevoked db agentId_ = false /\ usdCents <= perAction /\
    agentUsdCents (totals db agentId_ window t1) + usdCents <= daily /\
    (forall agg, aggregate = Some agg -> orgUsdCents (totals db agentId_ window t1) + usdCents <= maxUsdCents agg).

Lemma reserve_ok db i n ref t1 t2 rid db' :
  reserve db i n ref t1 t2 = Ok (rid, db') <->
  reservable db i n t1 /\ rid = nextId (org_spend db) /\
  db' = withSpend db (org_spend db ++ [newSpend db i n ref t2]).
Proof.
  unfold reserve, reservable. destruct (findAgent org i) as [agent|] eqn:Ef; [|naive_solver].
  rewrite throw_ok, negb_false_iff.
  assert (isExecutor agent = true <-> executionClass agent = EXECUTE) as -> by apply bool_decide_eq_true.
  destruct (escalationMaxUsdCents agent) as [m|] eqn:Em; [|naive_solver].
  destruct (dailyMaxUsdCents agent) as [d|] eqn:Ed; [|naive_solver].
  rewrite !throw_ok, !Z.gtb_ltb, !Z.ltb_ge. split.
  - intros (Hx & Hr & Hp & Hd & Ha & [= <- <-]). split; [|done]. exists agent, m, d. split_and!; try done.
    intros agg Eagg. rewrite Eagg in Ha. rewrite Z.gtb_ltb in Ha. by apply Z.ltb_ge in Ha.
  - intros ((a & p & d' & [= <-] & Hx & Hp & Hd & Hr & Hp' & Hd' & Ha) & -> & ->). simplify_eq.
    split_and!; try done. destruct aggregate as [agg|]; [|done]. rewrite Z.gtb_ltb.
    by apply Z.ltb_ge, Ha.
Qed.

Lemma sumOf_ext f g rows : (forall r, f r = g r) -> sumOf f rows = sumOf g rows.
Proof. intros H. induction rows as [|r rows IH]; simpl; [done|]. by rewrite H, IH. Qed.

Lemma LedgerInv_reserve db i n ref t1 t2 rid db' :
  0 <= n -> t1 <= t2 -> LedgerInv db -> reserve db i n ref t1 t2 = Ok (rid, db') -> LedgerInv db'.
Proof.
  intros Hn Ht [] (Hres & _ & ->)%reserve_ok.
  destruct Hres as (agent & m & d & Hf & Hx & Hm & Hd & _ & _ & Hday & Hagg).
  constructor; simpl.
  - intros r [Hr| ->%list_elem_of_singleton]%elem_of_app; [by apply l_amounts0|done].
  - rewrite map_app. apply NoDup_app. split_and!; [done| |apply NoDup_singleton].
    intros x (r & <- & Hr%list_elem_of_In)%list_elem_of_In%in_map_iff E%list_elem_of_singleton.
    apply nextId_fresh in Hr. simpl in *. lia.
  - intros agg Ea until. apply (spentIn_insert _ _ _ _ _ t1); try done; [by apply l_aggregate0|].
    intros _. specialize (Hagg agg Ea). unfold window in Hagg. rewrite Ea in Hagg. exact Hagg.
  - intros j a d' Hj Hd' until. apply (spentIn_insert _ _ _ _ _ t1); try done; [by eapply l_agents0|].
    unfold ofAgent at 1. rewrite andb_true_iff, streq_true. simpl. intros [_ <-].
    rewrite Hf in Hj. injection Hj as <-. rewrite Hd in Hd'. injection Hd' as <-. simpl in *.
    erewrite sumOf_ext; [exact Hday|]. intros r. unfold ofAgent.
    by destruct (ofOrg r), (streq (s_agentId r) i), (_ <? _).
  - intros r [Hr| ->%list_elem_of_singleton]%elem_of_app; [by apply l_executors0|].
    intros _. exists agent. split; [done|]. split; [by apply bool_decide_eq_true|]. by exists d.
Qed.

Lemma LedgerInv_apply db op : opOk op -> LedgerInv db -> LedgerInv (apply db op).
Proof.
  intros Hop HI. destruct op as [i n ref t1 t2|rid n|rid|i why t]; simpl.
  - destruct (reserve db i n ref t1 t2) as [[rid db']|e] eqn:E; [|done].
    destruct Hop. by eapply LedgerInv_reserve.
  - unfold settle. destruct (List.find _ _) as [row|] eqn:Ef; [|done].
    apply find_true in Ef as [Hrow Ef]. apply andb_true_iff in Ef as [Eid%Z.eqb_eq _].
    case_bool_decide as Hheld; simpl; [|done]. destruct (n >? s_usdCents row) eqn:En; [done|].
    rewrite Z.gtb_ltb in En. apply Z.ltb_ge in En. simpl in Hop.
    apply LedgerInv_map; [|done]. intros r Hr. pose proof (l_amounts _ HI r Hr).
    destruct (s_id r =? rid) eqn:E; [|done]. apply Z.eqb_eq in E.
    assert (r = row) as -> by (apply (NoDup_map_inj s_id _ _ _ (l_ids _ HI) Hr Hrow); congruence).
    unfold lowers. split_and!; try done. intros _. unfold counted. by rewrite Hheld.
  - apply LedgerInv_map; [|done]. intros r Hr. pose proof (l_amounts _ HI r Hr).
    destruct (_ && _); done.
  - by destruct HI.
Qed.

Lemma LedgerInv_run ops db : Forall opOk ops -> LedgerInv db -> LedgerInv (run ops db).
Proof. intros H. revert db. induction H; intros db HI; simpl; [done|]. by apply IHForall, LedgerInv_apply. Qed.

Lemma LedgerInv_empty : schemaValid org = true -> LedgerInv emptyLedger.
Proof.
  unfold schemaValid. rewrite !andb_true_iff, !every_true. intros [[[[_ Ha] _] Hl] _].
  constructor; simpl.
  - intros r Hr. by apply not_elem_of_nil in Hr.
  - constructor.
  - intros agg [Hin _]%tightest_least until. specialize (Hl agg Hin).
    rewrite !andb_true_iff in Hl. destruct Hl as [[_ Hl%Z.leb_le] _]. done.
  - intros i a d [Hin _]%findAgent_Some Hd until. specialize (Ha a Hin). unfold agentValid in Ha.
    rewrite !andb_true_iff, Hd in Ha. destruct Ha as [[[_ Hd'%Z.leb_le] _] _]. done.
  - intros r Hr. by apply not_elem_of_nil in Hr.
Qed.

(** C6: the caps hold over every sliding window, as long as no amount is negative.  For an organization that
    satisfies its schema, whatever operations the ledger performs and in whatever order: if every amount
    reserved or settled is at least 0 and the clock does not run back between the two readings of one
    reservation ([opOk]; the code checks neither, and a negative row does break the caps, see
    [negative_row_breaks_caps]), then at no moment have the actions held or settled within the last window
    summed to more than the tightest aggregate limit, nor an agent's own to more than its daily cap. *)
Theorem ledger_windows_bounded (ops : list Op) (until : Z) :
  schemaValid org = true -> Forall opOk ops ->
  (forall agg, aggregate = Some agg -> spentIn ofOrg (run ops emptyLedger) (windowMs agg) until <= maxUsdCents agg) /\
  (forall i a d, findAgent org i = Some a -> dailyMaxUsdCents a = Some d ->
     spentIn (ofAgent i) (run ops emptyLedger) window until <= d).
Proof.
  intros Hv Hops. destruct (LedgerInv_run ops emptyLedger Hops (LedgerInv_empty Hv)) as [_ _ Ha Hi _].
  split; [intros agg H; by apply Ha|intros i a d H1 H2; by eapply Hi].
Qed.

(** A reservation succeeds exactly when the agent is a declared executor with known limits, not
    revoked, and the amount fits its action limit, its own window and the aggregate one; then, and
    only then, one HELD row with a fresh id is added.  Once revoked an agent reserves nothing more,
    whatever happens next, and its history stays. *)
Theorem reserve_spec (db : Ledger) (i : string) (n : Z) (ref : string) (t1 t2 : Z) :
  (forall rid db', reserve db i n ref t1 t2 = Ok (rid, db') <->
     reservable db i n t1 /\ rid = nextId (org_spend db) /\
     db' = withSpend db (org_spend db ++ [newSpend db i n ref t2])) /\
  (forall why t ops, is_ok (reserve (run ops (revoke db i why t)) i n ref t1 t2) = false) /\
  (forall why t, org_spend (revoke db i why t) = org_spend db).
Proof.
  split_and!; [intros rid db'; apply reserve_ok| |done]. intros why t ops.
  assert (forall db0, isRevoked db0 i = true -> isRevoked (run ops db0) i = true) as Hkeep.
  { induction ops as [|op ops IH]; intros db0 H0; simpl; [done|]. apply IH.
    destruct op as [j m r u1 u2|rid m|rid|j w u]; simpl; [..|done|].
    - destruct (reserve db0 j m r u1 u2) as [[rid db1]|e] eqn:E; [|done].
      by apply reserve_ok in E as (_ & _ & ->).
    - unfold settle. destruct (List.find _ _); [|done]. destruct (negb _); [done|].
      by destruct (_ >? _).
    - unfold isRevoked in *. simpl. apply bool_decide_eq_true. apply bool_decide_eq_true in H0.
      apply lookup_insert_is_Some'. by right. }
  destruct (reserve _ _ _ _ _ _) as [[rid db1]|e] eqn:E; [|done].
  apply reserve_ok in E as [(? & ? & ? & _ & _ & _ & _ & Hr & _) _].
  rewrite Hkeep in Hr; [done|]. unfold isRevoked. simpl. apply bool_decide_eq_true.
  by rewrite lookup_insert_eq.
Qed.

(** The blast radius is an honest bound.  In a buildable organization a compromised agent
    reaches no other agent's authority; and in any organization, whatever the ledger performs, the
    agent never has more held or settled within a window than the worst case shown for it. *)
Theorem blast_radius_sound (localeCompare : string -> string -> Z) (i : string) (b : BlastRadius) :
  computeBlastRadius localeCompare org i = Ok b ->
  (Validator.buildable (Validator.validateOrganization org) = true -> authorityReachesAgents b = []) /\
  (forall ops until v, schemaValid org = true -> Forall opOk ops -> maxWindowUsdCents b = Some v ->
     spentIn (ofAgent i) (run ops emptyLedger) window until <= v).
Proof.
  unfold computeBlastRadius. destruct (findAgent org i) as [a|] eqn:Ef; [|done]. intros [= <-]. simpl.
  split.
  - intros Hb. unfold Validator.validateOrganization in Hb. destruct (schemaValid org); [|done].
    apply Validator.orgIssues_clean in Hb. apply findAgent_Some in Ef as [Hin _].
    by rewrite reachedAgents_separated.
  - intros ops until v Hv Hops Hw.
    destruct (LedgerInv_run ops emptyLedger Hops (LedgerInv_empty Hv)) as [Ham _ Hagg Hag Hex].
    set (db := run ops emptyLedger) in *.
    assert (isExecutor a = false \/ dailyMaxUsdCents a = None -> spentIn (ofAgent i) db window until = 0) as Hzero.
    { intros Hno. apply sumOf_none. intros r Hr. destruct (ofAgent i r) eqn:Eo; [|done].
      apply andb_true_iff in Eo as [Ho Ei%streq_true]. destruct (Hex r Hr Ho) as (a' & Ha' & Hx & [d Hd]).
      rewrite Ei, Ef in Ha'. injection Ha' as <-. destruct Hno; congruence. }
    destruct (isExecutor a) eqn:Ex; [|injection Hw as <-; rewrite Hzero by auto; lia].
    unfold bindingWindowCap in Hw. destruct (dailyMaxUsdCents a) as [d|] eqn:Ed.
    + injection Hw as <-. pose proof (Hag i a d Ef Ed until) as Hd. fold aggregate.
      destruct aggregate as [agg|] eqn:Ea; [|done]. apply Z.min_glb; [done|].
      etrans; [|apply (Hagg agg eq_refl until)]. unfold window. rewrite Ea. apply sumOf_le; [done|].
      intros r. unfold ofAgent. rewrite !andb_true_iff. tauto.
    + rewrite Hzero by auto. apply fmap_Some in Hw as (agg & Ea & ->).
      unfold schemaValid in Hv. rewrite !andb_true_iff, !every_true in Hv. destruct Hv as [[_ Hl] _].
      apply tightest_least in Ea as [Hin _]. specialize (Hl agg Hin).
      rewrite !andb_true_iff in Hl. by destruct Hl as [[_ ?%Z.leb_le] _].
Qed.

End OrgLedger.

Module Samples.

Definition sampleAgent (n : string) (cls : ExecutionClass) (daily : Z) : OrgAgent :=
  {| id := n; displayName := n; ensLabel := n; ensName := n +:+ ".agents.acme.eth";
     executionClass := cls;
     executionCapabilities := if bool_decide (cls = EXECUTE) then ["swap"] else [];
     dataCapabilities := ["price"]; autonomousMaxUsdCents := Some 1000;
     escalationMaxUsdCents := Some 5000; dailyMaxUsdCents := Some daily; deniedActions := [];
     executionDomain := n +:+ ":domain"; policyId := n +:+ ":policy" |}.

Definition sampleOrg : Organization :=
  {| orgId := "acme"; revision := 1; rootEns := "acme.eth"; agentNamespace := "agents.acme.eth";
     agents := [sampleAgent "guardian" EXECUTE 8000; sampleAgent "trader" EXECUTE 9000;
                sampleAgent "reporter" READ_ONLY 0];
     sharedResources := [{| res_id := "pot"; res_kind := treasury; res_description := EmptyString;
                            res_agentIds := ["guardian"; "trader"] |}];
     aggregateLimits := [{| lim_id := "org"; maxUsdCents := 10000; windowMs := 3600000;
                            lim_description := EmptyString |}];
     communicationRules := [{| from := "reporter"; to := "guardian"; messageKinds := [observation] |}] |}.

Definition sampleOps : list Op :=
  [Reserve "guardian" 5000 "a1" 10 11; Reserve "trader" 4000 "a2" 12 12; Settle 1 3000;
   Reserve "trader" 4000 "a3" 13 13; Release 2; Revoke "trader" "compromised" 14;
   Reserve "trader" 1 "a4" 15 15].

(** The third reservation would take the organization from 7000 past its 10000, and is refused. *)
Example sample_run :
  map (fun r => (s_id r, s_usdCents r, s_state r)) (org_spend (run sampleOrg sampleOps emptyLedger)) =
    [(1, 3000, SETTLED); (2, 4000, RELEASED)].
Proof. vm_compute. done. Qed.

(** A row of -9000 lets 18000 through; once it has left the window, the 10000 of the organization are exceeded. *)
Definition negativeOps : list Op :=
  [Reserve "trader" (-9000) "n" 0 0; Reserve "guardian" 5000 "a" 3000000 3000000; Reserve "guardian" 3000 "b" 3000000 3000000;
   Reserve "trader" 5000 "c" 3000000 3000000; Reserve "trader" 5000 "d" 3000000 3000000].

Example negative_row_breaks_caps : schemaValid sampleOrg = true /\
  spentIn (ofOrg sampleOrg) (run sampleOrg negativeOps emptyLedger) 3600000 3600001 = 18000.
Proof. split; vm_compute; reflexivity. Qed.

Lemma sampleOps_ok : Forall opOk sampleOps.
Proof. repeat constructor; simpl; lia. Qed.

Lemma ledger_windows_bounded_witness :
  schemaValid sampleOrg = true /\ Forall opOk sampleOps /\
  spentIn (ofOrg sampleOrg) (run sampleOrg sampleOps emptyLedger) 3600000 20 <= 10000.
Proof.
  assert (schemaValid sampleOrg = true) as Hv by (vm_compute; reflexivity).
  split; [exact Hv|]. split; [exact sampleOps_ok|].
  exact (proj1 (ledger_windows_bounded sampleOrg sampleOps 20 Hv sampleOps_ok) _ eq_refl).
Defined.

Lemma blast_radius_sound_witness :
  exists b, computeBlastRadius (fun _ _ => 0) sampleOrg "guardian" = Ok b /\
    authorityReachesAgents b = [] /\ maxWindowUsdCents b = Some 8000 /\
    spentIn (ofAgent sampleOrg "guardian") (run sampleOrg sampleOps emptyLedger) (window sampleOrg) 20 <= 8000.
Proof.
  eexists. split; [reflexivity|].
  destruct (blast_radius_sound sampleOrg (fun _ _ => 0) "guardian" _ eq_refl) as [H1 H2].
  split; [apply H1; vm_compute; reflexivity|]. split; [reflexivity|].
  apply H2; [vm_compute; reflexivity|exact sampleOps_ok|reflexivity].
Defined.

End Samples.
