(* ===== verification/Deploy.v ===== *)
(** * Deployment: the state machine and transaction certainty

    [packages/studio-orchestrator/src]: the deployment states and their transitions ([machine.ts],
    Module [Machine]), and what is known of a transaction after it was sent ([receipts.ts], Module
    [Receipts]).  The chain reader's answers and the clock readings of a wait are a stream of polls;
    a wait is a loop with fuel, and a theorem says how much fuel always suffices.  The human-readable
    detail of a record is kept as its kind and data, not as text. *)

From S2P Require Import Prelude JsNum Regex Json.
From stdpp Require Import pretty.
From Stdlib Require Import Ascii.
Local Open Scope Z_scope.

Module Machine.

Inductive DeploymentState :=
| DEPLOYMENT_APPROVED
| DEPLOYING_CHAIN_COMPONENTS
| CONFIGURING_POLICY_DISABLED
| DEPLOYING_CRE
| PAUSING_OR_CONFIRMING_CRE_STATE
| BUILDING_RUNTIME_IMAGE
| VERIFYING_DEPLOYMENT
| READY_TO_ACTIVATE
| DEPLOYMENT_PAUSED_USER
| DEPLOYMENT_PAUSED_SIGNER
| DEPLOYMENT_PAUSED_CRE_AUTH
| DEPLOYMENT_PARTIAL
| DEPLOYMENT_FAILED_RECOVERABLE
| DEPLOYMENT_FAILED_TERMINAL.
#[export] Instance DeploymentState_eq_dec : EqDecision DeploymentState.
Proof. solve_decision. Defined.

Definition DEPLOYMENT_STATES : list DeploymentState :=
  [DEPLOYMENT_APPROVED; DEPLOYING_CHAIN_COMPONENTS; CONFIGURING_POLICY_DISABLED; DEPLOYING_CRE;
   PAUSING_OR_CONFIRMING_CRE_STATE; BUILDING_RUNTIME_IMAGE; VERIFYING_DEPLOYMENT; READY_TO_ACTIVATE;
   DEPLOYMENT_PAUSED_USER; DEPLOYMENT_PAUSED_SIGNER; DEPLOYMENT_PAUSED_CRE_AUTH; DEPLOYMENT_PARTIAL;
   DEPLOYMENT_FAILED_RECOVERABLE; DEPLOYMENT_FAILED_TERMINAL].

Definition RESUMABLE_STATES : list DeploymentState :=
  [DEPLOYMENT_APPROVED; DEPLOYING_CHAIN_COMPONENTS; CONFIGURING_POLICY_DISABLED; DEPLOYING_CRE;
   PAUSING_OR_CONFIRMING_CRE_STATE; BUILDING_RUNTIME_IMAGE; VERIFYING_DEPLOYMENT;
   DEPLOYMENT_PAUSED_USER; DEPLOYMENT_PAUSED_SIGNER; DEPLOYMENT_PAUSED_CRE_AUTH;
   DEPLOYMENT_FAILED_RECOVERABLE; DEPLOYMENT_PARTIAL].

Definition HAPPY_PATH : list DeploymentState :=
  [DEPLOYMENT_APPROVED; DEPLOYING_CHAIN_COMPONENTS; CONFIGURING_POLICY_DISABLED; DEPLOYING_CRE;
   PAUSING_OR_CONFIRMING_CRE_STATE; BUILDING_RUNTIME_IMAGE; VERIFYING_DEPLOYMENT; READY_TO_ACTIVATE].

Definition PAUSES : list DeploymentState :=
  [DEPLOYMENT_PAUSED_USER; DEPLOYMENT_PAUSED_SIGNER; DEPLOYMENT_PAUSED_CRE_AUTH;
   DEPLOYMENT_FAILED_RECOVERABLE; DEPLOYMENT_PARTIAL].

(** What comes after [s] in [l]. *)
Fixpoint after (s : DeploymentState) (l : list DeploymentState) : list DeploymentState :=
  match l with
  | [] => []
  | x :: l' => if decide (x = s) then l' else after s l'
  end.

Definition isReady (s : DeploymentState) : bool := bool_decide (s = READY_TO_ACTIVATE).

(** The edges [buildTransitions] adds from [s]: the loop over the happy path, then over the pauses. *)
Definition happyEdges (s : DeploymentState) : list DeploymentState :=
  if includes HAPPY_PATH s then
    List.filter (fun t => negb (isReady t && negb (bool_decide (s = VERIFYING_DEPLOYMENT)))) (after s HAPPY_PATH)
    ++ (if isReady s then [] else PAUSES ++ [DEPLOYMENT_FAILED_TERMINAL])
  else [].
Definition pauseEdges (s : DeploymentState) : list DeploymentState :=
  if includes PAUSES s then
    List.filter (fun t => negb (isReady t)) HAPPY_PATH ++ [DEPLOYMENT_FAILED_TERMINAL]
    ++ List.filter (fun q => negb (bool_decide (q = s))) PAUSES
  else [].
Definition DEPLOYMENT_TRANSITIONS (s : DeploymentState) : list DeploymentState := happyEdges s ++ pauseEdges s.

Inductive MachineReason := ILLEGAL_TRANSITION | NOT_RESUMABLE | TERMINAL.

Definition assertTransition (a b : DeploymentState) : result MachineReason unit :=
  throw ILLEGAL_TRANSITION when negb (includes (DEPLOYMENT_TRANSITIONS a) b) ;; Ok tt.

Definition isTerminal (s : DeploymentState) : bool := (length (DEPLOYMENT_TRANSITIONS s) =? 0)%nat.

Definition phaseFor (stepType : string) : result MachineReason DeploymentState :=
  if includes ["VERIFY_CHAIN"; "VERIFY_CORE"; "DEPLOY_CONTRACT"] stepType then Ok DEPLOYING_CHAIN_COMPONENTS
  else if includes ["CONFIGURE_CONTRACT"; "REGISTER_POLICY_DISABLED"; "REGISTER_ENS_IDENTITY"] stepType then
    Ok CONFIGURING_POLICY_DISABLED
  else if includes ["CHECK_CRE_ACCESS"; "BUILD_CRE_WASM"; "VERIFY_CRE_HASH"; "DEPLOY_CRE_PRIVATE"] stepType then
    Ok DEPLOYING_CRE
  else if includes ["PAUSE_CRE"] stepType then Ok PAUSING_OR_CONFIRMING_CRE_STATE
  else if includes ["BUILD_RUNTIME_IMAGE"; "SCAN_RUNTIME_IMAGE"; "PUBLISH_RUNTIME_IMAGE";
                    "CREATE_RUNTIME_DISABLED"] stepType then Ok BUILDING_RUNTIME_IMAGE
  else if includes ["POST_DEPLOY_VERIFY"] stepType then Ok VERIFYING_DEPLOYMENT
  else Err ILLEGAL_TRANSITION.

(** A deployment's states from [s] on, each transition asserted. *)
Inductive deploys : DeploymentState -> list DeploymentState -> DeploymentState -> Prop :=
| deploys_nil s : deploys s [] s
| deploys_snoc s l t u : deploys s l t -> assertTransition t u = Ok tt -> deploys s (l ++ [u]) u.

Lemma all_states (s : DeploymentState) : s ∈ DEPLOYMENT_STATES.
Proof. apply list_elem_of_In. destruct s; simpl; tauto. Qed.

(** Decide a property of states, or of pairs of states, by evaluating it on each. *)
Lemma states_forall (p : DeploymentState -> bool) : forallb p DEPLOYMENT_STATES = true -> forall s, p s = true.
Proof. rewrite forallb_forall. intros H s. apply H, list_elem_of_In, all_states. Qed.

Lemma edges_forall (p : DeploymentState -> DeploymentState -> bool) :
  forallb (fun s => forallb (p s) (DEPLOYMENT_TRANSITIONS s)) DEPLOYMENT_STATES = true ->
  forall s t, assertTransition s t = Ok tt -> p s t = true.
Proof.
  intros H s t Ht. unfold assertTransition in Ht. rewrite throw_ok, negb_false_iff, includes_true in Ht.
  destruct Ht as [Ht _]. apply (states_forall (fun s => forallb (p s) (DEPLOYMENT_TRANSITIONS s))) with (s := s) in H.
  rewrite forallb_forall in H. by apply H, list_elem_of_In.
Qed.

Definition entersReady (s t : DeploymentState) : bool :=
  negb (isReady t) || bool_decide (s = VERIFYING_DEPLOYMENT).

(** A direct edge between two phases goes forward. *)
Definition forward (s t : DeploymentState) : bool :=
  negb (includes HAPPY_PATH s && includes HAPPY_PATH t) || includes (after s HAPPY_PATH) t.

(** From [s] to [READY_TO_ACTIVATE] in one or two transitions. *)
Definition nearReady (s : DeploymentState) : bool :=
  isTerminal s || includes (DEPLOYMENT_TRANSITIONS s) READY_TO_ACTIVATE
  || (includes (DEPLOYMENT_TRANSITIONS s) VERIFYING_DEPLOYMENT
      && includes (DEPLOYMENT_TRANSITIONS VERIFYING_DEPLOYMENT) READY_TO_ACTIVATE).

Definition terminalStates (s : DeploymentState) : bool :=
  Bool.eqb (isTerminal s) (isReady s || bool_decide (s = DEPLOYMENT_FAILED_TERMINAL)).

Lemma assertTransition_ok a b : assertTransition a b = Ok tt <-> includes (DEPLOYMENT_TRANSITIONS a) b = true.
Proof. unfold assertTransition. rewrite throw_ok, negb_false_iff. naive_solver. Qed.

(** Verification cannot be skipped.  Every deployment that becomes READY_TO_ACTIVATE does so from
    VERIFYING_DEPLOYMENT; it and DEPLOYMENT_FAILED_TERMINAL are the only terminal states, and from
    every other state readiness is still reachable; between two phases there are only forward
    transitions.  Through a pause, however, a deployment can return to an earlier phase. *)
Theorem ready_requires_verification :
  (forall s l, s <> READY_TO_ACTIVATE -> deploys s l READY_TO_ACTIVATE ->
     exists l', deploys s l' VERIFYING_DEPLOYMENT /\ l = l' ++ [READY_TO_ACTIVATE]) /\
  (forall s, isTerminal s = true <-> s = READY_TO_ACTIVATE \/ s = DEPLOYMENT_FAILED_TERMINAL) /\
  (forall s, isTerminal s = false -> exists l, (length l <= 2)%nat /\ deploys s l READY_TO_ACTIVATE) /\
  (forall s t, s ∈ HAPPY_PATH -> t ∈ HAPPY_PATH -> assertTransition s t = Ok tt -> t ∈ after s HAPPY_PATH) /\
  deploys VERIFYING_DEPLOYMENT [DEPLOYMENT_PAUSED_USER; DEPLOYING_CHAIN_COMPONENTS] DEPLOYING_CHAIN_COMPONENTS.
Proof.
  split_and!.
  - intros s l Hs Hd. inversion Hd as [|? l' t ? Hd' Ht]; subst; [done|]. exists l'. split; [|done].
    assert (entersReady t READY_TO_ACTIVATE = true) as H by (revert Ht; apply edges_forall; vm_compute; reflexivity).
    unfold entersReady in H. by apply bool_decide_eq_true in H as <-.
  - intros s. pose proof (states_forall terminalStates ltac:(vm_compute; reflexivity) s) as H.
    apply Bool.eqb_prop in H. rewrite H, orb_true_iff. unfold isReady. by rewrite !bool_decide_eq_true.
  - intros s Hs. pose proof (states_forall nearReady ltac:(vm_compute; reflexivity) s) as H.
    unfold nearReady in H. rewrite Hs in H. cbn [orb] in H.
    rewrite orb_true_iff, andb_true_iff, <- !assertTransition_ok in H.
    destruct H as [H|[H1 H2]].
    + exists [READY_TO_ACTIVATE]. split; [simpl; lia|]. exact (deploys_snoc s [] s _ (deploys_nil s) H).
    + exists [VERIFYING_DEPLOYMENT; READY_TO_ACTIVATE]. split; [simpl; lia|].
      exact (deploys_snoc s [_] _ _ (deploys_snoc s [] s _ (deploys_nil s) H1) H2).
  - intros s t Hs Ht H. assert (forward s t = true) as Hf by (revert H; apply edges_forall; vm_compute; reflexivity).
    unfold forward in Hf. apply includes_true in Hs, Ht. rewrite Hs, Ht in Hf. by apply includes_true in Hf.
  - apply (deploys_snoc _ [_] DEPLOYMENT_PAUSED_USER _); [|vm_compute; reflexivity].
    apply (deploys_snoc _ [] VERIFYING_DEPLOYMENT _); [constructor|vm_compute; reflexivity].
Qed.

End Machine.

Module Receipts.

(** ** The chain reader ([studio-deploy/src/chain.ts]) *)

Inductive RpcKind := TIMEOUT | RATE_LIMITED | TRANSPORT | REVERTED_CALL.
#[export] Instance RpcKind_eq_dec : EqDecision RpcKind.
Proof. solve_decision. Defined.

Record RpcError := { kind : RpcKind; message : string }.

Definition anyChar : re := Chr (fun c => negb (Ascii.eqb c (ascii_of_N 10) || Ascii.eqb c (ascii_of_N 13))).

(** [/a|b|.../i.test(msg)], unanchored: the pattern somewhere in the lower-cased text. *)
Definition found (r : re) (msg : string) : bool :=
  matches (Cat (Star (Chr (fun _ => true))) (Cat r (Star (Chr (fun _ => true))))) (to_lower msg).

Definition rateLimitPattern : re :=
  Alt (lit "429") (Alt (Cat (lit "rate") (Cat (Alt Eps anyChar) (lit "limit"))) (lit "too many requests")).
Definition timeoutPattern : re :=
  Alt (lit "timeout") (Alt (lit "timed out") (Alt (lit "etimedout") (Alt (lit "esockettimedout") (lit "aborted")))).
Definition revertPattern : re := Alt (lit "revert") (lit "execution reverted").

Definition classifyRpcError (msg : string) : RpcError :=
  if found rateLimitPattern msg then {| kind := RATE_LIMITED; message := "RPC-RATE_LIMITED: " +:+ msg |}
  else if found timeoutPattern msg then {| kind := TIMEOUT; message := "RPC-TIMEOUT: " +:+ msg |}
  else if found revertPattern msg then {| kind := REVERTED_CALL; message := "RPC-REVERTED: " +:+ msg |}
  else {| kind := TRANSPORT; message := "RPC-TRANSPORT: " +:+ msg |}.

Inductive ReceiptStatus := success | reverted.

Record Receipt := {
  status : ReceiptStatus;
  receiptBlock : N;
  receiptGasUsed : N;
  effectiveGasPrice : N;
  receiptContract : option string
}.

(** What the reader answers at one moment; each call may also throw. *)
Record Answers := {
  getTransactionReceipt : result RpcError (option Receipt);
  getBlockNumber : result RpcError N;
  getTransactionCount : result RpcError N
}.

(** ** Records ([receipts.ts]) *)

Inductive SubmissionState :=
| NOT_SUBMITTED
| SUBMITTED
| UNKNOWN_SUBMISSION_STATE
| MINED_SUCCESS
| MINED_REVERTED
| CONFIRMED_ABSENT.
#[export] Instance SubmissionState_eq_dec : EqDecision SubmissionState.
Proof. solve_decision. Defined.

(** What [revertDetail] says. *)
Inductive Detail :=
| SendError (message : string)
| RevertedIn (block : N)
| NoReceipt (txHash : string) (at_ms : Z)
| NonceUnused
| NonceConsumed (next : N).

Record TransactionRecord := {
  deploymentStepId : string;
  chainId : Z;
  sender : string;
  nonce : Z;
  txHash : option string;
  submittedAtMs : option Z;
  state : SubmissionState;
  blockNumber : option string;
  confirmations : Z;
  contractAddress : option string;
  gasUsed : option string;
  effectiveGasPriceWei : option string;
  actualNativeCostWei : option string;
  estimatedNativeCostWei : option string;
  revertDetail : option Detail
}.

Definition ADDRESS : re := Cat (lit "0x") (rep 40 (Chr is_hex_ci)).
Definition TXHASH : re := Cat (lit "0x") (rep 64 (Chr is_hex)).

(** [z.X.nullable()] *)
Definition nullable_ok {A : Type} (p : A -> bool) (o : option A) : bool :=
  match o with None => true | Some a => p a end.

Definition TransactionRecordSchema (r : TransactionRecord) : bool :=
  (1 <=? String.length (deploymentStepId r))%nat && (0 <? chainId r) && matches ADDRESS (sender r)
  && (0 <=? nonce r) && nullable_ok (matches TXHASH) (txHash r) && nullable_ok (Z.ltb 0) (submittedAtMs r)
  && nullable_ok (matches DIGITS) (blockNumber r) && (0 <=? confirmations r)
  && nullable_ok (matches ADDRESS) (contractAddress r) && nullable_ok (matches DIGITS) (gasUsed r)
  && nullable_ok (matches DIGITS) (effectiveGasPriceWei r)
  && nullable_ok (matches DIGITS) (actualNativeCostWei r)
  && nullable_ok (matches DIGITS) (estimatedNativeCostWei r).

Inductive ReceiptReason := UNKNOWN_STATE | UNSAFE_RETRY | REVERTED | NOT_FINAL.

Definition DEFAULT_CONFIRMATIONS : Z := 2.

Definition newTransactionRecord (stepId : string) (chain : Z) (from : string) (n : Z)
    (estimate : option string) : TransactionRecord :=
  {| deploymentStepId := stepId; chainId := chain; sender := from; nonce := n;
     txHash := None; submittedAtMs := None; state := NOT_SUBMITTED; blockNumber := None;
     confirmations := 0; contractAddress := None; gasUsed := None; effectiveGasPriceWei := None;
     actualNativeCostWei := None; estimatedNativeCostWei := estimate; revertDetail := None |}.

Definition assertSafeToRetry (record : TransactionRecord) : result ReceiptReason unit :=
  throw UNSAFE_RETRY when bool_decide (state record = UNKNOWN_SUBMISSION_STATE) ;;
  throw UNSAFE_RETRY when bool_decide (state record = MINED_SUCCESS) ;;
  Ok tt.

(** [{ ...record, state, submittedAtMs, txHash, revertDetail }] *)
Definition withSubmission (r : TransactionRecord) (h : option string) (at_ms : option Z)
    (s : SubmissionState) (d : option Detail) : TransactionRecord :=
  {| deploymentStepId := deploymentStepId r; chainId := chainId r; sender := sender r;
     nonce := nonce r; txHash := h; submittedAtMs := at_ms; state := s; blockNumber := blockNumber r;
     confirmations := confirmations r; contractAddress := contractAddress r; gasUsed := gasUsed r;
     effectiveGasPriceWei := effectiveGasPriceWei r; actualNativeCostWei := actualNativeCostWei r;
     estimatedNativeCostWei := estimatedNativeCostWei r; revertDetail := d |}.

(** The caught value: already classified, or any other error with its text. *)
Inductive SendFailure := Classified (e : RpcError) | Unclassified (msg : string).
Inductive SendOutcome :=
| Sent (hash : string)
| Failed (error : SendFailure) (definitelyRejected : bool).

Definition recordSendOutcome (record : TransactionRecord) (outcome : SendOutcome) (nowMs : Z) : TransactionRecord :=
  match outcome with
  | Sent hash =>
      withSubmission record (Some (to_lower hash)) (Some nowMs) SUBMITTED (revertDetail record)
  | Failed error definitelyRejected =>
      let err := match error with Classified e => e | Unclassified msg => classifyRpcError msg end in
      if definitelyRejected then
        withSubmission record (txHash record) (submittedAtMs record) NOT_SUBMITTED (Some (SendError (message err)))
      else
        withSubmission record (txHash record) (Some nowMs) UNKNOWN_SUBMISSION_STATE
          (Some (SendError (message err)))
  end.

(** A truthy [txHash]: present and not empty. *)
Definition hashOf (r : TransactionRecord) : option string :=
  match txHash r with Some "" | None => None | Some h => Some h end.

(** [{ ...record }] with what a receipt says of it at the block [head]. *)
Definition withReceipt (r : TransactionRecord) (rc : Receipt) (head : N) : TransactionRecord :=
  {| deploymentStepId := deploymentStepId r; chainId := chainId r; sender := sender r;
     nonce := nonce r; txHash := txHash r; submittedAtMs := submittedAtMs r;
     state := match status rc with success => MINED_SUCCESS | reverted => MINED_REVERTED end;
     blockNumber := Some (pretty (receiptBlock rc));
     confirmations := if (receiptBlock rc <=? head)%N then Z.of_N (head - receiptBlock rc + 1) else 0;
     contractAddress := receiptContract rc;
     gasUsed := Some (pretty (receiptGasUsed rc));
     effectiveGasPriceWei := Some (pretty (effectiveGasPrice rc));
     actualNativeCostWei := Some (pretty (receiptGasUsed rc * effectiveGasPrice rc)%N);
     estimatedNativeCostWei := estimatedNativeCostWei r;
     revertDetail := match status rc with reverted => Some (RevertedIn (receiptBlock rc)) | success => None end |}.

Definition withState (r : TransactionRecord) (s : SubmissionState) (d : Detail) : TransactionRecord :=
  withSubmission r (txHash r) (submittedAtMs r) s (Some d).

Definition reconcile (record : TransactionRecord) (reader : Answers) (nowMs : Z) : result RpcError TransactionRecord :=
  match hashOf record with
  | Some h =>
      let* receipt := getTransactionReceipt reader in
      match receipt with
      | Some rc => let* head := getBlockNumber reader in Ok (withReceipt record rc head)
      | None => Ok (withState record UNKNOWN_SUBMISSION_STATE (NoReceipt h nowMs))
      end
  | None =>
      let* next := getTransactionCount reader in
      if Z.of_N next <=? nonce record then Ok (withState record CONFIRMED_ABSENT NonceUnused)
      else Ok (withState record UNKNOWN_SUBMISSION_STATE (NonceConsumed next))
  end.

(** ** Waiting

    The [k]-th turn of the loops: the clock before it, at the reconciliation and after it, and what
    the reader answers. *)

Record Poll := { before_ms : Z; at_ms : Z; answers : Answers; after_ms : Z }.

Definition settled (s : SubmissionState) : bool :=
  includes [MINED_SUCCESS; MINED_REVERTED; CONFIRMED_ABSENT] s.

(** [waitForReceipt]'s loop from the [k]-th turn: the record and the number of turns taken, or [None]
    when the fuel ran out. *)
Fixpoint receiptLoop (fuel : nat) (deadline : Z) (polls : nat -> Poll) (k : nat) (current : TransactionRecord) :
    option (result RpcError (TransactionRecord * nat)) :=
  match fuel with
  | O => None
  | S fuel =>
      let p := polls k in
      match reconcile current (answers p) (at_ms p) with
      | Err e => Some (Err e)
      | Ok current =>
          if settled (state current) then Some (Ok (current, S k))
          else if deadline <=? after_ms p then Some (Ok (current, S k))
          else receiptLoop fuel deadline polls (S k) current
      end
  end.

Definition waitForReceipt (fuel : nat) (timeoutMs start : Z) (polls : nat -> Poll) (record : TransactionRecord) :=
  receiptLoop fuel (start + timeoutMs) polls 0 record.

Fixpoint finalityLoop (fuel : nat) (deadline required : Z) (polls : nat -> Poll) (k : nat)
    (current : TransactionRecord) : option (result RpcError TransactionRecord) :=
  match fuel with
  | O => None
  | S fuel =>
      let p := polls k in
      if bool_decide (state current = MINED_SUCCESS) && (confirmations current <? required)
         && (before_ms p <? deadline)
      then match reconcile current (answers p) (at_ms p) with
           | Err e => Some (Err e)
           | Ok current => finalityLoop fuel deadline required polls (S k) current
           end
      else Some (Ok current)
  end.

(** [start] is the clock when [waitForFinality] begins, [start'] when its [waitForReceipt] does. *)
Definition waitForFinality (fuel : nat) (timeoutMs start start' required : Z) (polls : nat -> Poll)
    (record : TransactionRecord) : option (result RpcError TransactionRecord) :=
  match waitForReceipt fuel timeoutMs start' polls record with
  | None => None
  | Some (Err e) => Some (Err e)
  | Some (Ok (current, k)) => finalityLoop fuel (start + timeoutMs) required polls k current
  end.

Definition isFinal (record : TransactionRecord) (required : Z) : bool :=
  bool_decide (state record = MINED_SUCCESS) && (required <=? confirmations record).

Definition assertMinedSuccessfully (record : TransactionRecord) : result ReceiptReason unit :=
  throw REVERTED when bool_decide (state record = MINED_REVERTED) ;;
  throw NOT_FINAL when negb (bool_decide (state record = MINED_SUCCESS)) ;;
  Ok tt.

Inductive BigIntError := SyntaxError.

(** [BigInt(s)] of a digit string, the only ones the schema admits. *)
Definition BigInt (s : string) : result BigIntError Z :=
  match decimal 0 s with Some n => Ok (Z.of_N n) | None => Err SyntaxError end.

Record Accuracy := { deltaWei : string; ratio : jsnum }.

Definition estimateAccuracy (record : TransactionRecord) : result BigIntError (option Accuracy) :=
  match actualNativeCostWei record, estimatedNativeCostWei record with
  | None, _ | Some "", _ | _, None | _, Some "" => Ok None
  | Some a, Some e =>
      let* actual := BigInt a in
      let* estimated := BigInt e in
      Ok (Some {| deltaWei := pretty (actual - estimated);
                  ratio := if estimated =? 0 then jint 0
                           else jscale (1#10000) (jnum ((actual * 10000) ÷ estimated)) |})
  end.

(** ** Digit strings *)

Lemma BigInt_pretty (n : N) : BigInt (pretty n) = Ok (Z.of_N n).
Proof. unfold BigInt. by rewrite decimal_pretty. Qed.

(** A hash as a node returns it, in either case. *)
Definition HASH_CI : re := Cat (lit "0x") (rep 64 (Chr is_hex_ci)).

Lemma all_chars_lower s : all_chars is_hex_ci s = true -> all_chars is_hex (to_lower s) = true.
Proof.
  assert (forall c, (negb (is_hex_ci c) || is_hex (ascii_lower c)) = true) as Hc
    by (apply ascii_forall; vm_compute; reflexivity).
  induction s as [|c s IH]; simpl; [done|]. intros [H1 H2]%andb_true_iff.
  specialize (Hc c). rewrite H1 in Hc. simpl in Hc. by rewrite Hc, IH.
Qed.

Lemma to_lower_length s : String.length (to_lower s) = String.length s.
Proof. induction s; simpl; congruence. Qed.

Lemma lower_hash h : matches HASH_CI h = true -> matches TXHASH (to_lower h) = true.
Proof.
  rewrite !matches_lang. unfold HASH_CI, TXHASH. rewrite !lang_Cat.
  intros (u & v & -> & ->%lang_lit & [Hl Hv]%lang_rep_chr). exists "0x", (to_lower v).
  split_and!; [done|by apply lang_lit|]. apply lang_rep_chr. split; [by rewrite to_lower_length|by apply all_chars_lower].
Qed.

(** ** Retrying *)

(** Successive reconciliations of one record. *)
Fixpoint reconciles (r : TransactionRecord) (l : list (Answers * Z)) : result RpcError TransactionRecord :=
  match l with
  | [] => Ok r
  | (reader, now) :: l => let* r' := reconcile r reader now in reconciles r' l
  end.

Lemma assertSafeToRetry_ok r : assertSafeToRetry r = Ok tt <->
  state r <> UNKNOWN_SUBMISSION_STATE /\ state r <> MINED_SUCCESS.
Proof. unfold assertSafeToRetry. rewrite !throw_ok, !bool_decide_eq_false. naive_solver. Qed.

(** The fields a reconciliation never changes. *)
Definition sameSubmission (r r' : TransactionRecord) : Prop :=
  txHash r' = txHash r /\ nonce r' = nonce r /\ sender r' = sender r /\ chainId r' = chainId r /\
  deploymentStepId r' = deploymentStepId r /\ submittedAtMs r' = submittedAtMs r /\
  estimatedNativeCostWei r' = estimatedNativeCostWei r.

(** What a reconciliation can find. *)
Lemma reconcile_ok r reader now r' : reconcile r reader now = Ok r' ->
  sameSubmission r r' /\
  match hashOf r with
  | Some h =>
      (exists rc head, getTransactionReceipt reader = Ok (Some rc) /\ getBlockNumber reader = Ok head /\
        r' = withReceipt r rc head)
      \/ getTransactionReceipt reader = Ok None /\ r' = withState r UNKNOWN_SUBMISSION_STATE (NoReceipt h now)
  | None => exists next, getTransactionCount reader = Ok next /\
      r' = if Z.of_N next <=? nonce r then withState r CONFIRMED_ABSENT NonceUnused
           else withState r UNKNOWN_SUBMISSION_STATE (NonceConsumed next)
  end.
Proof.
  unfold reconcile. destruct (hashOf r) as [h|] eqn:Eh; rewrite rbind_ok.
  - intros ([rc|] & Hrc & H); [apply rbind_ok in H as (head & Hh & [= <-])|injection H as <-].
    + split; [repeat split|]. left. eauto.
    + split; [repeat split|]. by right.
  - intros (next & Hn & H). split; [|exists next; split; [done|]]; destruct (_ <=? _); simplify_eq; repeat split.
Qed.

Lemma sameSubmission_trans r1 r2 r3 : sameSubmission r1 r2 -> sameSubmission r2 r3 -> sameSubmission r1 r3.
Proof. unfold sameSubmission. intuition congruence. Qed.

Lemma reconciles_same r l r' : reconciles r l = Ok r' -> sameSubmission r r'.
Proof.
  revert r. induction l as [|[reader now] l IH]; intros r; simpl.
  - intros [= <-]. repeat split.
  - intros (r1 & [H1 _]%reconcile_ok & H2)%rbind_ok. by eapply sameSubmission_trans; [|apply IH].
Qed.

Lemma reconciles_app r l1 l2 r' : reconciles r (l1 ++ l2) = Ok r' ->
  exists r1, reconciles r l1 = Ok r1 /\ reconciles r1 l2 = Ok r'.
Proof.
  revert r. induction l1 as [|[reader now] l1 IH]; intros r; simpl; [eauto|].
  intros (r1 & H1 & (r2 & H2 & H3)%IH)%rbind_ok. exists r2. rewrite H1. eauto.
Qed.

(** What the reader may say for the transaction of [r] to have had no effect: its receipt reverted or, with
    no hash known, the account's transaction count is not past its nonce. *)
Definition provesNoEffect (r : TransactionRecord) (reader : Answers) : Prop :=
  match hashOf r with
  | Some _ => exists rc, getTransactionReceipt reader = Ok (Some rc) /\ status rc = reverted
  | None => exists next, getTransactionCount reader = Ok next /\ Z.of_N next <= nonce r
  end.

Lemma reconcile_retry r reader now r' : reconcile r reader now = Ok r' ->
  (assertSafeToRetry r' = Ok tt <-> provesNoEffect r reader).
Proof.
  intros [_ H]%reconcile_ok. rewrite assertSafeToRetry_ok. unfold provesNoEffect.
  destruct (hashOf r) as [h|].
  - destruct H as [(rc & head & -> & _ & ->)|[-> ->]]; simpl.
    + destruct (status rc) eqn:Es; split.
      * by intros [_ []].
      * intros (rc' & [= <-] & Hr). congruence.
      * intros _. by exists rc.
      * by split.
    + split; [by intros []|by intros (rc & ? & _)].
  - destruct H as (next & -> & ->). destruct (_ <=? _) eqn:E; simpl;
      [apply Z.leb_le in E|apply Z.leb_gt in E]; split; intros Hs.
    + by exists next.
    + by split.
    + by destruct Hs as [[] _].
    + destruct Hs as (n & [= <-] & Hn). lia.
Qed.

(** C27: what lets a send of unknown fate be tried again.  Right after it a retry is refused.  After any
    reconciliations a retry is allowed exactly when the last of them read one of two things: no hash of the
    transaction is known and the account's transaction count is not past the record's nonce; or a hash is
    known and its receipt says that the transaction was mined and reverted.  The guard itself passes in the
    states NOT_SUBMITTED, SUBMITTED, MINED_REVERTED and CONFIRMED_ABSENT and in no other.  Two of these are
    wider than the comment over the guard, which asks for a proof that nothing was mined, by an unused nonce: a
    reverted transaction was mined and did use its nonce, and a send that returned a hash is not refused,
    though nothing is known of it yet. *)
Theorem unknown_send_retry (r0 : TransactionRecord) (e : SendFailure) (now : Z) (h : string) :
  let r := recordSendOutcome r0 (Failed e false) now in
  assertSafeToRetry r = Err UNSAFE_RETRY /\
  (forall l reader at_ms r', reconciles r (l ++ [(reader, at_ms)]) = Ok r' ->
     (assertSafeToRetry r' = Ok tt <->
        (hashOf r0 = None /\ exists next, getTransactionCount reader = Ok next /\ Z.of_N next <= nonce r0) \/
        (exists h0 rc, hashOf r0 = Some h0 /\ getTransactionReceipt reader = Ok (Some rc) /\ status rc = reverted))) /\
  (forall r', assertSafeToRetry r' = Ok tt <-> state r' ∈ [NOT_SUBMITTED; SUBMITTED; MINED_REVERTED; CONFIRMED_ABSENT]) /\
  assertSafeToRetry (recordSendOutcome r0 (Sent h) now) = Ok tt.
Proof.
  intros r. split; [done|]. split; [|split; [|done]].
  - intros l reader at_ms r' (r1 & H1 & (r2 & H2 & [= ->])%rbind_ok)%reconciles_app.
    apply reconciles_same in H1 as (Hh & Hn & _). rewrite (reconcile_retry _ _ _ _ H2).
    assert (hashOf r1 = hashOf r0) as Hr by (unfold hashOf; by rewrite Hh).
    unfold provesNoEffect. rewrite Hr, Hn. destruct (hashOf r0) as [s|]; naive_solver.
  - intros r'. rewrite assertSafeToRetry_ok. destruct (state r'); set_solver.
Qed.

(** ** Waiting *)

Lemma receiptLoop_returns (timeout interval start : Z) (polls : nat -> Poll) :
  0 < interval -> (forall k, start + Z.of_nat k * interval <= after_ms (polls k)) ->
  forall fuel k r, timeout <= (Z.of_nat k + Z.of_nat fuel) * interval ->
  exists o, receiptLoop (S fuel) (start + timeout) polls k r = Some o /\
    forall r' k', o = Ok (r', k') -> (k < k')%nat /\
      (settled (state r') = true \/
       state r' = UNKNOWN_SUBMISSION_STATE /\ start + timeout <= after_ms (polls (pred k'))).
Proof.
  intros Hi Hclock. induction fuel as [|fuel IH]; intros k r Hf; cbn [receiptLoop];
    (destruct (reconcile r _ _) as [r1|e] eqn:Er; [|eexists; split; [done|done]]);
    destruct (settled (state r1)) eqn:Es;
    try (eexists; split; [done|]; intros ? ? [= <- <-]; split; [lia|by left]).
  1: assert ((start + timeout <=? after_ms (polls k)) = true) as Hlate
       by (apply Z.leb_le; specialize (Hclock k); lia); rewrite Hlate.
  2: destruct (start + timeout <=? after_ms (polls k)) eqn:Hlate.
  3: { destruct (IH (S k) r1) as (o & Ho & Hk); [lia|]. exists o. split; [exact Ho|].
       intros r' k' E. destruct (Hk r' k' E) as [Hlt H]. split; [lia|done]. }
  all: eexists; split; [done|]; intros ? ? [= <- <-]; split; [lia|]; right.
  all: apply Z.leb_le in Hlate; split; [|done].
  all: apply reconcile_ok in Er as [_ Er]; destruct (hashOf r);
    [destruct Er as [(rc & head & _ & _ & ->)|[_ ->]]; [|done]
    |destruct Er as (next & _ & ->); by destruct (_ <=? _)].
  all: unfold withReceipt in Es; simpl in Es; by destruct (status rc).
Qed.

Lemma finalityLoop_returns (timeout interval start required : Z) (polls : nat -> Poll) :
  0 < interval -> (forall k, start + Z.of_nat k * interval <= before_ms (polls (S k))) ->
  forall fuel k r, timeout <= (Z.of_nat k + Z.of_nat fuel) * interval ->
  exists o, finalityLoop (S fuel) (start + timeout) required polls (S k) r = Some o /\
    forall r', o = Ok r' -> isFinal r' required = true \/ state r' <> MINED_SUCCESS \/
      exists k', start + timeout <= before_ms (polls k').
Proof.
  intros Hi Hclock. induction fuel as [|fuel IH]; intros k r Hf; cbn [finalityLoop];
    destruct (bool_decide (state r = MINED_SUCCESS)) eqn:Es; cbn [andb];
    try (eexists; split; [done|]; intros ? [= <-]; right; left; by apply bool_decide_eq_false in Es);
    (destruct (confirmations r <? required) eqn:Ec; cbn [andb];
     [|eexists; split; [done|]; intros ? [= <-]; left; unfold isFinal; rewrite Es; simpl;
       apply Z.ltb_ge in Ec; by apply Z.leb_le]);
    destruct (before_ms (polls (S k)) <? start + timeout) eqn:El;
    try (eexists; split; [done|]; intros ? [= <-]; right; right; exists (S k); by apply Z.ltb_ge in El).
  - apply Z.ltb_lt in El. specialize (Hclock k). lia.
  - destruct (reconcile r _ _) as [r1|e]; [|eexists; split; [done|done]].
    apply IH. lia.
Qed.

(** The two waits end.  When each turn takes at least the interval, as the sleep between turns
    makes it, a number of turns fixed by the timeout and the interval is enough for either: the wait
    for a receipt gives a settled record or, past its deadline, one whose state is still
    UNKNOWN_SUBMISSION_STATE, and never a guess; the wait for finality gives a final record, or one
    that is not mined, or its deadline has passed. *)
Theorem waits_return (timeout interval start start' required : Z) (polls : nat -> Poll)
    (record : TransactionRecord) (fuel : nat) :
  0 < interval -> 0 <= timeout ->
  (forall k, start' + Z.of_nat k * interval <= after_ms (polls k)) ->
  (forall k, start + Z.of_nat k * interval <= before_ms (polls (S k))) ->
  (Z.to_nat (timeout / interval) + 2 <= fuel)%nat ->
  (exists o, waitForReceipt fuel timeout start' polls record = Some o /\
    forall r k, o = Ok (r, k) -> settled (state r) = true \/
      state r = UNKNOWN_SUBMISSION_STATE /\ start' + timeout <= after_ms (polls (pred k))) /\
  (exists o, waitForFinality fuel timeout start start' required polls record = Some o /\
    forall r, o = Ok r -> isFinal r required = true \/ state r <> MINED_SUCCESS \/
      exists k, start + timeout <= before_ms (polls k)).
Proof.
  intros Hi Ht Hafter Hbefore Hfuel. destruct fuel as [|fuel]; [lia|].
  assert (timeout <= Z.of_nat fuel * interval) as Hf.
  { pose proof (Z.div_mod timeout interval ltac:(lia)). pose proof (Z.mod_pos_bound timeout interval Hi).
    pose proof (Z.div_pos timeout interval ltac:(lia) Hi). nia. }
  unfold waitForFinality, waitForReceipt.
  destruct (receiptLoop_returns timeout interval start' polls Hi Hafter fuel 0 record) as (o & -> & Ho); [lia|].
  split; [exists o; split; [done|]; intros r k E; by apply Ho|].
  destruct o as [[r k]|e]; [|eexists; split; [done|done]].
  destruct (Ho r k eq_refl) as [Hk _]. destruct k as [|k]; [lia|].
  apply finalityLoop_returns with (interval := interval); [done|done|nia].
Qed.

(** ** Records stay well formed *)

Inductive steps : TransactionRecord -> TransactionRecord -> Prop :=
| steps_refl r : steps r r
| steps_send r r' outcome now : steps r r' -> 0 < now ->
    (forall h, outcome = Sent h -> matches HASH_CI h = true) -> steps r (recordSendOutcome r' outcome now)
| steps_reconcile r r' r'' reader now : steps r r' ->
    (forall rc, getTransactionReceipt reader = Ok (Some rc) ->
       nullable_ok (matches ADDRESS) (receiptContract rc) = true) ->
    reconcile r' reader now = Ok r'' -> steps r r''.

Lemma withSubmission_schema r h t s d : TransactionRecordSchema r = true ->
  nullable_ok (matches TXHASH) h = true -> nullable_ok (Z.ltb 0) t = true ->
  TransactionRecordSchema (withSubmission r h t s d) = true.
Proof.
  unfold TransactionRecordSchema, withSubmission; simpl. rewrite !andb_true_iff. by intuition.
Qed.

Lemma withReceipt_schema r rc head : TransactionRecordSchema r = true ->
  nullable_ok (matches ADDRESS) (receiptContract rc) = true ->
  TransactionRecordSchema (withReceipt r rc head) = true.
Proof.
  unfold TransactionRecordSchema, withReceipt. cbn -[pretty matches]. rewrite !andb_true_iff, !pretty_matches.
  intros H Hc. assert (0 <= (if (receiptBlock rc <=? head)%N then Z.of_N (head - receiptBlock rc + 1) else 0))
    by (destruct (_ <=? _)%N; lia). intuition. by apply Z.leb_le.
Qed.

Lemma schema_fields r : TransactionRecordSchema r = true ->
  nullable_ok (matches TXHASH) (txHash r) = true /\ nullable_ok (Z.ltb 0) (submittedAtMs r) = true.
Proof. unfold TransactionRecordSchema. rewrite !andb_true_iff. tauto. Qed.

Lemma steps_schema r r' : steps r r' -> TransactionRecordSchema r = true -> TransactionRecordSchema r' = true.
Proof.
  induction 1 as [|r r' outcome now _ IH Hnow Hh|r r' r'' reader now _ IH Hc Hr]; intros Hs; [done| |];
    specialize (IH Hs); destruct (schema_fields _ IH) as [Htx Hsub].
  - destruct outcome as [h|e []]; simpl; apply withSubmission_schema; try done; simpl.
    + by apply lower_hash, Hh.
    + by apply Z.ltb_lt.
    + by apply Z.ltb_lt.
  - apply reconcile_ok in Hr as [_ Hr]. destruct (hashOf r').
    + destruct Hr as [(rc & head & Hrc & _ & ->)|[_ ->]]; [by apply withReceipt_schema; eauto|].
      by apply withSubmission_schema.
    + destruct Hr as (next & _ & ->). by destruct (_ <=? _); apply withSubmission_schema.
Qed.

Lemma steps_identity r r' : steps r r' ->
  deploymentStepId r' = deploymentStepId r /\ chainId r' = chainId r /\ sender r' = sender r /\
  nonce r' = nonce r /\ estimatedNativeCostWei r' = estimatedNativeCostWei r.
Proof.
  induction 1 as [|r r' outcome now _ IH _ _|r r' r'' reader now _ IH _ Hr]; [repeat split| |].
  - by destruct outcome as [h|e []].
  - apply reconcile_ok in Hr as [Hr _]. unfold sameSubmission in Hr. intuition congruence.
Qed.

Lemma estimateAccuracy_withReceipt r rc head e : estimatedNativeCostWei r = Some (pretty e) ->
  let cost := Z.of_N (receiptGasUsed rc * effectiveGasPrice rc) in
  estimateAccuracy (withReceipt r rc head) =
    Ok (Some {| deltaWei := pretty (cost - Z.of_N e);
                ratio := if Z.of_N e =? 0 then jint 0
                         else jscale (1#10000) (jnum ((cost * 10000) ÷ Z.of_N e)) |}).
Proof.
  intros He cost. unfold estimateAccuracy, withReceipt. cbn -[pretty]. rewrite He.
  pose proof (BigInt_pretty e) as H1. pose proof (pretty_N_nonempty e) as H2.
  pose proof (BigInt_pretty (receiptGasUsed rc * effectiveGasPrice rc)) as H3.
  pose proof (pretty_N_nonempty (receiptGasUsed rc * effectiveGasPrice rc)) as H4.
  destruct (pretty e) as [|c s]; [done|]. destruct (pretty (receiptGasUsed rc * _)%N) as [|c' s']; [done|].
  by rewrite H3; cbn [rbind]; rewrite H1.
Qed.

(** Whatever sends and reconciliations happen to a new record, it stays valid under the record
    schema, it stays the record of the same step, account, nonce and chain, and its estimate is never
    overwritten: once a receipt is seen, the accuracy report is the exact difference between the
    receipt's cost and that estimate. *)
Theorem records_stay_valid (stepId from : string) (chain n : Z) (e : N) (r : TransactionRecord) :
  let r0 := newTransactionRecord stepId chain from n (Some (pretty e)) in
  TransactionRecordSchema r0 = true -> steps r0 r ->
  TransactionRecordSchema r = true /\
  deploymentStepId r = stepId /\ chainId r = chain /\ sender r = from /\ nonce r = n /\
  estimatedNativeCostWei r = Some (pretty e) /\
  (forall reader now r' rc, reconcile r reader now = Ok r' ->
     hashOf r <> None -> getTransactionReceipt reader = Ok (Some rc) ->
     let cost := Z.of_N (receiptGasUsed rc * effectiveGasPrice rc) in
     exists q, estimateAccuracy r' = Ok (Some {| deltaWei := pretty (cost - Z.of_N e); ratio := q |})).
Proof.
  intros r0 H0 Hs. destruct (steps_identity _ _ Hs) as (H1 & H2 & H3 & H4 & H5).
  split; [by eapply steps_schema|]. repeat (split; [done|]).
  intros reader now r' rc [_ Hr]%reconcile_ok Hh Hrc cost. destruct (hashOf r); [|done].
  destruct Hr as [(rc' & head & E & _ & ->)|[E _]]; [|congruence].
  assert (rc' = rc) as -> by congruence. eexists. by apply estimateAccuracy_withReceipt.
Qed.

End Receipts.

Module Samples.
Import Receipts.

Definition account : string := "0xaAaAaAaAaAaAaAaAaAaAaAaAaAaAaAaAaAaAaAaA".
Definition hash : string := "0xABababababababababababababababababababababababababababababababab".
Definition fresh : TransactionRecord := newTransactionRecord "deploy-core" 11155111 account 7 (Some (pretty 2000%N)).
Definition sent : TransactionRecord := recordSendOutcome fresh (Sent hash) 1000.

(** A chain on which the transaction is mined in block 5 and the head advances with every turn. *)
Definition mined (k : nat) : Answers :=
  {| getTransactionReceipt := Ok (if (k <? 2)%nat then None
       else Some {| status := success; receiptBlock := 5; receiptGasUsed := 21;
                    effectiveGasPrice := 100; receiptContract := None |});
     getBlockNumber := Ok (3 + N.of_nat k)%N; getTransactionCount := Ok 7%N |}.

(** A chain on which nothing ever appears. *)
Definition silent (k : nat) : Answers :=
  {| getTransactionReceipt := Ok None; getBlockNumber := Ok 3%N; getTransactionCount := Ok 7%N |}.

Definition every3s (reader : nat -> Answers) (k : nat) : Poll :=
  {| before_ms := 1000 + 3000 * Z.of_nat k; at_ms := 1000 + 3000 * Z.of_nat k; answers := reader k;
     after_ms := 1000 + 3000 * Z.of_nat k |}.

Example sent_state : map state [fresh; sent] = [NOT_SUBMITTED; SUBMITTED].
Proof. reflexivity. Qed.

Example wait_mined :
  match waitForFinality 70 180000 1000 1000 DEFAULT_CONFIRMATIONS (every3s mined) sent with
  | Some (Ok r) => isFinal r DEFAULT_CONFIRMATIONS
  | _ => false
  end = true.
Proof. vm_compute. reflexivity. Qed.

Example classify_rate : kind (classifyRpcError "HTTP 503: Rate-Limit exceeded") = RATE_LIMITED.
Proof. vm_compute. reflexivity. Qed.
Example classify_timeout : kind (classifyRpcError "request timed out") = TIMEOUT.
Proof. vm_compute. reflexivity. Qed.

Lemma waits_return_witness :
  exists o, waitForReceipt 62 180000 1000 (every3s silent) sent = Some o /\
    forall r k, o = Ok (r, k) -> settled (state r) = true \/
      state r = UNKNOWN_SUBMISSION_STATE /\ 1000 + 180000 <= after_ms (every3s silent (pred k)).
Proof.
  refine (proj1 (waits_return 180000 3000 1000 1000 DEFAULT_CONFIRMATIONS (every3s silent) sent 62 _ _ _ _ _));
    [lia|lia|intros k; simpl; lia|intros k; unfold every3s; cbn [before_ms]; lia|].
  assert (180000 / 3000 = 60) as -> by reflexivity. simpl. lia.
Defined.

Definition lost : TransactionRecord := recordSendOutcome fresh (Failed (Unclassified "socket hang up") false) 1000.

Lemma unknown_send_retry_witness :
  assertSafeToRetry lost = Err UNSAFE_RETRY /\
  exists r, reconciles lost [(silent 0, 2000)] = Ok r /\ assertSafeToRetry r = Ok tt.
Proof.
  destruct (unknown_send_retry fresh (Unclassified "socket hang up") 1000 hash) as (H1 & H2 & _).
  split; [exact H1|]. eexists. split; [reflexivity|].
  apply (H2 [] (silent 0) 2000 _ eq_refl). left. split; [reflexivity|]. exists 7%N. split; [reflexivity|simpl; lia].
Defined.

Lemma records_stay_valid_witness :
  TransactionRecordSchema sent = true /\ estimatedNativeCostWei sent = Some (pretty 2000%N).
Proof.
  destruct (records_stay_valid "deploy-core" account 11155111 7 2000 sent) as (H & _ & _ & _ & _ & He & _).
  - vm_compute. reflexivity.
  - unfold sent. apply steps_send; [apply steps_refl|lia|]. intros h [= <-]. vm_compute. reflexivity.
  - split; [exact H|exact He].
Defined.

End Samples.
