(* ===== verification/Egress.v ===== *)
(** * Egress control

    [packages/studio-openapi/src/egress.ts]: which URLs an imported API may be called at.  The URL
    parser of the platform is the parameter [parseUrl] (and [resolveUrl] for a reference against a
    base URL); the resolver of names is a field of the policy, as in the source.  [net.isIP] is
    modelled by the expressions of the Node.js library. *)

From S2P Require Import Prelude Regex Json.
From stdpp Require Import pretty.
From Stdlib Require Import Ascii.
Local Open Scope Z_scope.

(** ** [net.isIP] *)

Definition v4Seg : re :=
  Alt (Chr is_digit)
    (Alt (Cat (Chr (range "1" "9")) (Chr is_digit))
    (Alt (Cat (chr "1") (Cat (Chr is_digit) (Chr is_digit)))
    (Alt (Cat (chr "2") (Cat (Chr (range "0" "4")) (Chr is_digit)))
         (Cat (chr "2") (Cat (chr "5") (Chr (range "0" "5"))))))).
Definition dot : re := chr ".".
Definition v4Str : re := Cat v4Seg (Cat dot (Cat v4Seg (Cat dot (Cat v4Seg (Cat dot v4Seg))))).
Definition colon : re := chr ":".

(** [r{0,n}] and [r{lo,hi}] *)
Fixpoint upto (n : nat) (r : re) : re :=
  match n with O => Eps | S n' => Alt Eps (Cat r (upto n' r)) end.
Definition v6Seg : re := Cat (Chr is_hex_ci) (upto 3 (Chr is_hex_ci)).
Definition segColon : re := Cat v6Seg colon.
Definition colonSeg : re := Cat colon v6Seg.

(** What follows the leading groups and their colons: at most [m] groups and an embedded IPv4
    address, or at most [n] groups, or the colon that ends [::]. *)
Definition v6Tail (m n : nat) : re :=
  Alt (Cat (upto m colonSeg) (Cat colon v4Str)) (Alt (Cat colonSeg (upto (n - 1) colonSeg)) colon).
Definition v6Body : re :=
  Alt (Cat (rep 7 segColon) (Alt v6Seg colon))
    (Alt (Cat (rep 6 segColon) (Alt v4Str (Alt colonSeg colon)))
    (Alt (Cat (rep 5 segColon) (v6Tail 0 2))
    (Alt (Cat (rep 4 segColon) (v6Tail 1 3))
    (Alt (Cat (rep 3 segColon) (v6Tail 2 4))
    (Alt (Cat (rep 2 segColon) (v6Tail 3 5))
    (Alt (Cat segColon (v6Tail 4 6))
         (Cat colon (v6Tail 5 7)))))))).
Definition zoneChar (c : ascii) : bool :=
  is_digit c || range "a" "z" c || range "A" "Z" c || Ascii.eqb c "-" || Ascii.eqb c "." || Ascii.eqb c ":".
Definition v6Str : re := Cat v6Body (Alt Eps (Cat (chr "%") (Regex.plus (Chr zoneChar)))).

Definition isIP (s : string) : Z :=
  if matches v4Str s then 4 else if matches v6Str s then 6 else 0.

Example isIP_samples :
  map isIP ["10.0.0.1"; "256.0.0.1"; "01.2.3.4"; "::1"; "::ffff:127.0.0.1"; "fe80::1%eth0"; "::ffff:7f00:1";
            "2001:db8:0:0:1:0:0:1"; "1::2::3"; "localhost"; ""] = [4; 0; 0; 6; 6; 6; 6; 6; 0; 0; 0].
Proof. vm_compute. reflexivity. Qed.

(** ** Addresses *)

Inductive EgressReason :=
| NOT_HTTPS | HOST_NOT_ALLOWED | PRIVATE_ADDRESS | METADATA_ENDPOINT | DNS_FAILED
| TOO_MANY_REDIRECTS | MALFORMED_URL | PORT_NOT_ALLOWED | CREDENTIALS_IN_URL.
#[export] Instance EgressReason_eq_dec : EqDecision EgressReason.
Proof. solve_decision. Defined.

Definition METADATA_ADDRESSES : list string :=
  ["169.254.169.254"; "169.254.170.2"; "100.100.100.200"; "192.0.0.192"; "fd00:ec2::254"].

(** [Number(x)] of a digit string; other texts do not occur where [v4] is called. *)
Definition octet (x : string) : option Z :=
  match decimal 0 x with
  | Some n => if (n <=? 255)%N then Some (Z.of_N n) else None
  | None => None
  end.

Definition v4 (a : string) : option (list Z) :=
  let p := splitDot a in
  if (length p =? 4)%nat then mapM octet p else None.

(** [.toLowerCase().replace(/^\[|\]$/g, "")] *)
Definition stripOpen (s : string) : string :=
  match s with String "[" s' => s' | _ => s end.
Fixpoint stripClose (s : string) : string :=
  match s with
  | EmptyString => EmptyString
  | String "]" EmptyString => EmptyString
  | String c s' => String c (stripClose s')
  end.
Definition bare (a : string) : string := stripClose (stripOpen (to_lower a)).

(** The match of [/^::ffff:(\d+\.\d+\.\d+\.\d+)$/]. *)
Definition quad : re := Cat DIGITS (Cat dot (Cat DIGITS (Cat dot (Cat DIGITS (Cat dot DIGITS))))).
Definition mapped (addr : string) : option string :=
  if starts_with "::ffff:" addr then
    let rest := String.substring 7 (String.length addr - 7) addr in
    if matches quad rest then Some rest else None
  else None.

Definition reserved (o : list Z) : bool :=
  match o with
  | a :: b :: _ =>
      (a =? 0) || (a =? 127) || (a =? 10) || ((a =? 172) && (16 <=? b) && (b <=? 31))
      || ((a =? 192) && (b =? 168)) || ((a =? 169) && (b =? 254))
      || ((a =? 100) && (64 <=? b) && (b <=? 127)) || (224 <=? a)
  | _ => true
  end.

(** The recursive call is on the IPv4 part of a mapped address; the fuel is the length of the text,
    and [isPrivateFuel_enough] shows that two calls are all it ever takes. *)
Fixpoint isPrivateFuel (fuel : nat) (address : string) : bool :=
  match fuel with
  | O => true
  | S fuel =>
      let addr := bare address in
      if isIP addr =? 4 then
        match v4 addr with None => true | Some o => reserved o end
      else if isIP addr =? 6 then
        match mapped addr with
        | Some m => isPrivateFuel fuel m
        | None =>
            streq addr "::1" || streq addr "::" || starts_with "fe80" addr || starts_with "fec0" addr
            || starts_with "fc" addr || starts_with "fd" addr || starts_with "ff" addr
        end
      else true
  end.
Definition isPrivateAddress (address : string) : bool := isPrivateFuel (S (String.length address)) address.

Definition isMetadataAddress (a : string) : bool := includes METADATA_ADDRESSES (bare a).

(** ** URLs *)

Record Url := {
  protocol : string;
  username : string;
  password : string;
  hostname : string;
  port : string;
  href : string
}.

Record EgressPolicy := {
  allowedHosts : list string;
  allowedPorts : list Z;
  maxRedirects : nat;
  resolve : string -> option (list string)
}.

Section Check.
Context (parseUrl : string -> option Url) (resolveUrl : string -> Url -> option string).

(** [Number(url.port)], 443 when it is empty; a port that is no number is in no list. *)
Definition portAllowed (policy : EgressPolicy) (url : Url) : bool :=
  if streq (port url) "" then includes (allowedPorts policy) 443
  else match decimal 0 (port url) with
       | Some n => includes (allowedPorts policy) (Z.of_N n)
       | None => false
       end.

Fixpoint checkAddresses (l : list string) : result EgressReason unit :=
  match l with
  | [] => Ok tt
  | a :: l =>
      throw METADATA_ENDPOINT when isMetadataAddress a ;;
      throw PRIVATE_ADDRESS when isPrivateAddress a ;;
      checkAddresses l
  end.

(** The addresses a request to [host] may reach: the literal, or every answer of the resolver. *)
Definition addressesOf (policy : EgressPolicy) (host : string) : result EgressReason (list string) :=
  if negb (isIP host =? 0) then Ok [host]
  else match resolve policy host with
       | None | Some [] => Err DNS_FAILED
       | Some l => Ok l
       end.

Definition checkUrl (raw : string) (policy : EgressPolicy) : result EgressReason Url :=
  match parseUrl raw with
  | None => Err MALFORMED_URL
  | Some url =>
      throw NOT_HTTPS when negb (streq (protocol url) "https:") ;;
      throw CREDENTIALS_IN_URL when negb (streq (username url) "") || negb (streq (password url) "") ;;
      let host := to_lower (hostname url) in
      throw HOST_NOT_ALLOWED when negb (includes (map to_lower (allowedHosts policy)) host) ;;
      throw PORT_NOT_ALLOWED when negb (portAllowed policy url) ;;
      let* addresses := addressesOf policy host in
      let* _ := checkAddresses addresses in
      Ok url
  end.

(** A verdict, or the error that [new URL(hop, base)] throws outside any [try]. *)
Inductive ChainError := Refused (reason : EgressReason) | InvalidUrl.

Fixpoint followHops (last : Url) (hops : list string) (policy : EgressPolicy) : result ChainError Url :=
  match hops with
  | [] => Ok last
  | hop :: hops =>
      match resolveUrl hop last with
      | None => Err InvalidUrl
      | Some absolute =>
          match checkUrl absolute policy with
          | Err e => Err (Refused e)
          | Ok last => followHops last hops policy
          end
      end
  end.

Definition checkRedirectChain (start : string) (hops : list string) (policy : EgressPolicy) : result ChainError Url :=
  throw (Refused TOO_MANY_REDIRECTS) when (maxRedirects policy <? length hops)%nat ;;
  match checkUrl start policy with
  | Err e => Err (Refused e)
  | Ok last => followHops last hops policy
  end.

End Check.

(** ** IPv4 ranges *)

(** A dotted quad. *)
Definition dotted (a b c d : N) : string :=
  pretty a +:+ "." +:+ pretty b +:+ "." +:+ pretty c +:+ "." +:+ pretty d.

(** A CIDR range of 32-bit addresses: its base and the number of leading bits. *)
Definition inCidr (x : Z) (range : (Z * Z * Z * Z) * Z) : bool :=
  let '((a, b, c, d), bits) := range in
  x / 2 ^ (32 - bits) =? (a * 2 ^ 24 + b * 2 ^ 16 + c * 2 ^ 8 + d) / 2 ^ (32 - bits).

(** This network, RFC 1918, loopback, link-local, carrier-grade NAT, multicast and reserved. *)
Definition PRIVATE_RANGES : list ((Z * Z * Z * Z) * Z) :=
  [((0, 0, 0, 0), 8); ((127, 0, 0, 0), 8); ((10, 0, 0, 0), 8); ((172, 16, 0, 0), 12); ((192, 168, 0, 0), 16);
   ((169, 254, 0, 0), 16); ((100, 64, 0, 0), 10); ((224, 0, 0, 0), 3)].

Lemma digits_no_dot u : all_chars is_digit u = true -> forall v, splitDot (u +:+ String "." v) = u :: splitDot v.
Proof. intros Hu. apply splitDot_app. exact (all_chars_impl _ _ u digit_dotless Hu). Qed.

Lemma digits_splitDot u : all_chars is_digit u = true -> splitDot u = [u].
Proof. intros Hu. apply splitDot_dotless. exact (all_chars_impl _ _ u digit_dotless Hu). Qed.

Lemma pretty_digits (n : N) : all_chars is_digit (pretty n) = true.
Proof. eapply decimal_digits, decimal_pretty. Qed.

Lemma octet_pretty (n : N) : (n <= 255)%N -> octet (pretty n) = Some (Z.of_N n).
Proof. intros H. unfold octet. rewrite decimal_pretty. by apply N.leb_le in H as ->. Qed.

Definition octets : list N := map N.of_nat (seq 0 256).

Lemma octets_elem (n : N) : (n <= 255)%N -> In n octets.
Proof. intros H. apply in_map_iff. exists (N.to_nat n). split; [lia|]. apply in_seq. lia. Qed.

Lemma v4Seg_pretty (n : N) : (n <= 255)%N -> lang v4Seg (pretty n).
Proof.
  intros H. apply matches_lang. apply (proj1 (forallb_forall (fun n => matches v4Seg (pretty n)) octets)).
  - vm_compute. reflexivity.
  - by apply octets_elem.
Qed.

Section Quad.
Context (a b c d : N) (Ha : (a <= 255)%N) (Hb : (b <= 255)%N) (Hc : (c <= 255)%N) (Hd : (d <= 255)%N).

Lemma v4_dotted : v4 (dotted a b c d) = Some [Z.of_N a; Z.of_N b; Z.of_N c; Z.of_N d].
Proof.
  unfold v4, dotted.
  rewrite !str_app_cons, !str_app_nil.
  rewrite !digits_no_dot, digits_splitDot by apply pretty_digits.
  simpl. by rewrite !octet_pretty.
Qed.

Lemma lang_dotted : lang v4Str (dotted a b c d).
Proof.
  unfold v4Str, dotted, dot. repeat first [apply lang_cat|by apply v4Seg_pretty|by apply lang_chr].
Qed.

End Quad.

(** A character that [bare] leaves alone wherever it stands. *)
Definition plain (c : ascii) : bool :=
  Ascii.eqb (ascii_lower c) c && negb (Ascii.eqb c "[") && negb (Ascii.eqb c "]").

Lemma plain_lower s : all_chars plain s = true -> to_lower s = s.
Proof.
  induction s as [|c s IH]; simpl; [done|]. unfold plain at 1. rewrite !andb_true_iff.
  intros [[[H _] _] Hs]. apply Ascii.eqb_eq in H. by rewrite H, IH.
Qed.

Lemma plain_stripOpen s : all_chars plain s = true -> stripOpen s = s.
Proof.
  destruct s as [|c s]; [done|]. simpl. intros [Hc _]%andb_true_iff.
  destruct (Ascii.eqb_spec c "["); [by subst|]. by destruct c as [[] [] [] [] [] [] [] []].
Qed.

Lemma plain_stripClose s : all_chars plain s = true -> stripClose s = s.
Proof.
  induction s as [|c s IH]; [done|]. cbn [all_chars]. intros [Hc Hs]%andb_true_iff. specialize (IH Hs).
  destruct (Ascii.eqb_spec c "]"); [by subst|]. destruct s; destruct c as [[] [] [] [] [] [] [] []];
    cbn [stripClose] in *; congruence.
Qed.

Lemma bare_plain s : all_chars plain s = true -> bare s = s.
Proof. intros H. unfold bare. by rewrite (plain_lower s H), (plain_stripOpen s H), (plain_stripClose s H). Qed.

Lemma dotted_plain a b c d : all_chars plain (dotted a b c d) = true.
Proof.
  unfold dotted. assert (forall n : N, all_chars plain (pretty n) = true) as H.
  { intros n. apply (all_chars_impl is_digit); [|apply pretty_digits]. intros x Hx.
    assert ((negb (is_digit x) || plain x) = true) as E
      by (clear Hx; revert x; apply ascii_forall; vm_compute; reflexivity). by rewrite Hx in E. }
  rewrite !all_chars_app. by rewrite !H.
Qed.

Lemma matches_void s : matches Void s = false.
Proof. induction s; [done|exact IHs]. Qed.

Lemma substring_full q : String.substring 0 (String.length q) q = q.
Proof. induction q as [|c q IH]; simpl; [done|]. by rewrite IH. Qed.

Lemma isIP_colon s : matches v6Str (String ":" s) = true -> isIP (String ":" s) = 6.
Proof.
  intros H. unfold isIP. rewrite H.
  assert (matches v4Str (String ":" s) = matches Void s) as -> by reflexivity. by rewrite matches_void.
Qed.

Section Mapped.
Context (a b c d : N) (Ha : (a <= 255)%N) (Hb : (b <= 255)%N) (Hc : (c <= 255)%N) (Hd : (d <= 255)%N).

Definition mappedText : string := "::ffff:" +:+ dotted a b c d.

Lemma mappedText_isIP : isIP mappedText = 6.
Proof.
  apply isIP_colon, matches_lang.
  change (lang v6Str (":" +:+ ((":ffff" +:+ (":" +:+ dotted a b c d))))). rewrite <- (str_app_nil_r (":" +:+ _)).
  apply lang_cat; [|apply lang_alt_l, lang_eps]. unfold v6Body. do 7 apply lang_alt_r. apply lang_cat; [by apply lang_chr|].
  apply lang_alt_l, lang_cat.
  - apply matches_lang. vm_compute. reflexivity.
  - apply lang_cat; [by apply lang_chr|by apply lang_dotted].
Qed.

Lemma mappedText_mapped : mapped mappedText = Some (dotted a b c d).
Proof.
  unfold mapped, mappedText.
  assert (starts_with "::ffff:" ("::ffff:" +:+ dotted a b c d) = true) as -> by (by destruct (dotted a b c d)).
  rewrite str_length_app. replace (_ + _ - 7)%nat with (String.length (dotted a b c d)) by (simpl; lia).
  assert (forall n q, String.substring 7 n ("::ffff:" +:+ q) = String.substring 0 n q) as -> by done.
  rewrite substring_full. assert (matches quad (dotted a b c d) = true) as ->; [|done].
  apply matches_lang. unfold quad, dotted, dot.
  repeat first [apply lang_cat|apply matches_lang, pretty_matches|by apply lang_chr].
Qed.

End Mapped.

Lemma quad_head m : matches quad m = true -> exists c r, m = String c r /\ is_digit c = true.
Proof.
  intros H%matches_lang. unfold quad, DIGITS, Regex.plus in H. rewrite !lang_Cat in H.
  destruct H as (u & v & -> & Hu & _). apply lang_Cat in Hu as (x & y & -> & (c & -> & Hc)%lang_Chr & _).
  exists c, (y +:+ v). by rewrite str_app_cons, str_app_nil, str_app_cons.
Qed.

Lemma quad_not_mapped m : matches quad m = true -> mapped (bare m) = None.
Proof.
  intros (c & r & -> & Hc)%quad_head. unfold bare. cbn [to_lower].
  assert ((negb (is_digit c) || match stripClose (stripOpen (String (ascii_lower c) (to_lower r))) with
                                | String x _ => negb (Ascii.eqb x ":") | EmptyString => true end) = true) as H.
  { destruct c as [[] [] [] [] [] [] [] []]; try reflexivity; simpl; by destruct (to_lower r). }
  rewrite Hc in H. simpl negb in H. cbn [orb] in H.
  destruct (stripClose _) as [|x s]; [done|]. unfold mapped, starts_with.
  destruct (Ascii.eqb_spec x ":"); [done|]. cbn [String.prefix]. by destruct (ascii_dec ":" x); [congruence|].
Qed.

(** Two calls are enough for any address: the recursion never goes deeper. *)
Lemma isPrivateFuel_enough n a : isPrivateFuel (S (S n)) a = isPrivateFuel 2 a.
Proof.
  cbn [isPrivateFuel]. destruct (isIP (bare a) =? 4); [done|]. destruct (isIP (bare a) =? 6); [|done].
  destruct (mapped (bare a)) as [m|] eqn:E; [|done].
  assert (matches quad m = true) as Hm.
  { unfold mapped in E. destruct (starts_with _ _); [|done]. simpl in E. destruct (matches quad _) eqn:Em; [|done].
    by injection E as <-. }
  by rewrite (quad_not_mapped m Hm).
Qed.

Lemma isPrivateAddress_two a : isPrivateAddress a = isPrivateFuel 2 a.
Proof. unfold isPrivateAddress. destruct a as [|c a]; [by vm_compute|]. apply isPrivateFuel_enough. Qed.

Lemma isIP_v4 s : lang v4Str s -> isIP s = 4.
Proof. intros H%matches_lang. unfold isIP. by rewrite H. Qed.

Definition ipv4 (a b c d : Z) : Z := a * 2 ^ 24 + b * 2 ^ 16 + c * 2 ^ 8 + d.

(** An address prefix that ends inside an octet: comparing it is comparing the octets before it and
    the range of that octet. *)
Lemma prefix_eqb (n m a b A B : Z) : 0 < m -> 0 <= b < n * m -> 0 <= B < n ->
  (a * n + b / m =? A * n + B) = (a =? A) && (B * m <=? b) && (b <=? B * m + (m - 1)).
Proof.
  intros Hm Hb HB. pose proof (Z.div_pos b m ltac:(lia) Hm) as Hq.
  pose proof (Z.div_lt_upper_bound b m n Hm ltac:(lia)) as Hq'.
  pose proof (Z.div_mod b m ltac:(lia)) as Hd. pose proof (Z.mod_pos_bound b m Hm) as Hr.
  apply eq_true_iff_eq. rewrite !andb_true_iff, !Z.eqb_eq, !Z.leb_le. split.
  - intros E. assert (a = A) as ->.
    { transitivity ((a * n + b / m) / n); [apply (Z.div_unique _ n a (b / m)); lia|].
      rewrite E. symmetry. apply (Z.div_unique _ n A B); lia. }
    assert (b / m = B) as <- by lia. lia.
  - intros [[-> H1] H2]. f_equal. symmetry. apply (Z.div_unique b m B (b - m * B)); lia.
Qed.

Lemma high_eqb (a : Z) : 0 <= a <= 255 -> (a / 32 =? 7) = (224 <=? a).
Proof.
  intros Ha. pose proof (Z.div_mod a 32 ltac:(lia)) as D. pose proof (Z.mod_pos_bound a 32 ltac:(lia)) as M.
  apply eq_true_iff_eq. rewrite Z.eqb_eq, Z.leb_le. lia.
Qed.

Lemma pair_eqb (a b A B : Z) : 0 <= b <= 255 -> 0 <= B <= 255 ->
  (a * 256 + b =? A * 256 + B) = (a =? A) && (b =? B).
Proof. intros Hb HB. apply eq_true_iff_eq. rewrite andb_true_iff, !Z.eqb_eq. lia. Qed.

Lemma div_prefix (x k q r : Z) : x = k * q + r -> 0 <= r < k -> x / k = q.
Proof. intros -> Hr. symmetry. by apply (Z.div_unique _ k q r); [left|]. Qed.

Lemma reserved_ranges (a b c d : Z) : 0 <= a <= 255 -> 0 <= b <= 255 -> 0 <= c <= 255 -> 0 <= d <= 255 ->
  reserved [a; b; c; d] = existsb (inCidr (ipv4 a b c d)) PRIVATE_RANGES.
Proof.
  intros Ha Hb Hc Hd.
  pose proof (Z.div_mod b 16 ltac:(lia)) as D16. pose proof (Z.mod_pos_bound b 16 ltac:(lia)) as M16.
  pose proof (Z.div_mod b 64 ltac:(lia)) as D64. pose proof (Z.mod_pos_bound b 64 ltac:(lia)) as M64.
  pose proof (Z.div_mod a 32 ltac:(lia)) as D32. pose proof (Z.mod_pos_bound a 32 ltac:(lia)) as M32.
  cbn [existsb PRIVATE_RANGES inCidr reserved]. unfold ipv4. set (x := a * 2 ^ 24 + b * 2 ^ 16 + c * 2 ^ 8 + d).
  change (2 ^ 24) with 16777216 in x. change (2 ^ 16) with 65536 in x. change (2 ^ 8) with 256 in x.
  rewrite (div_prefix x (2 ^ (32 - 8)) a (b * 65536 + c * 256 + d)) by (change (2 ^ (32 - 8)) with 16777216; lia).
  rewrite (div_prefix x (2 ^ (32 - 12)) (a * 16 + b / 16) (b mod 16 * 65536 + c * 256 + d))
    by (change (2 ^ (32 - 12)) with 1048576; lia).
  rewrite (div_prefix x (2 ^ (32 - 16)) (a * 256 + b) (c * 256 + d)) by (change (2 ^ (32 - 16)) with 65536; lia).
  rewrite (div_prefix x (2 ^ (32 - 10)) (a * 4 + b / 64) (b mod 64 * 65536 + c * 256 + d))
    by (change (2 ^ (32 - 10)) with 4194304; lia).
  rewrite (div_prefix x (2 ^ (32 - 3)) (a / 32) (a mod 32 * 16777216 + b * 65536 + c * 256 + d))
    by (change (2 ^ (32 - 3)) with 536870912; lia).
  clear x. cbn [fst snd].
  change ((0 * 2 ^ 24 + 0 * 2 ^ 16 + 0 * 2 ^ 8 + 0) / 2 ^ (32 - 8)) with 0.
  change ((127 * 2 ^ 24 + 0 * 2 ^ 16 + 0 * 2 ^ 8 + 0) / 2 ^ (32 - 8)) with 127.
  change ((10 * 2 ^ 24 + 0 * 2 ^ 16 + 0 * 2 ^ 8 + 0) / 2 ^ (32 - 8)) with 10.
  change ((172 * 2 ^ 24 + 16 * 2 ^ 16 + 0 * 2 ^ 8 + 0) / 2 ^ (32 - 12)) with (172 * 16 + 1).
  change ((192 * 2 ^ 24 + 168 * 2 ^ 16 + 0 * 2 ^ 8 + 0) / 2 ^ (32 - 16)) with (192 * 256 + 168).
  change ((169 * 2 ^ 24 + 254 * 2 ^ 16 + 0 * 2 ^ 8 + 0) / 2 ^ (32 - 16)) with (169 * 256 + 254).
  change ((100 * 2 ^ 24 + 64 * 2 ^ 16 + 0 * 2 ^ 8 + 0) / 2 ^ (32 - 10)) with (100 * 4 + 1).
  change ((224 * 2 ^ 24 + 0 * 2 ^ 16 + 0 * 2 ^ 8 + 0) / 2 ^ (32 - 3)) with 7.
  rewrite (prefix_eqb 16 16 a b 172 1), (prefix_eqb 4 64 a b 100 1), !pair_eqb, high_eqb by lia.
  by rewrite orb_false_r, !orb_assoc.
Qed.

(** The private-address test is exact on IPv4.  For every dotted quad it answers whether the
    address lies in one of the reserved CIDR ranges, and it answers the same for the quad written as an
    IPv4-mapped IPv6 address; a text that is no address is private.  The hexadecimal spelling of a
    mapped address, [fe90::/12] to [feb0::/12] and the long spelling of [::1] are not recognised. *)
Theorem isPrivateAddress_exact (a b c d : N) :
  (a <= 255)%N -> (b <= 255)%N -> (c <= 255)%N -> (d <= 255)%N ->
  let addr := ipv4 (Z.of_N a) (Z.of_N b) (Z.of_N c) (Z.of_N d) in
  isPrivateAddress (dotted a b c d) = existsb (inCidr addr) PRIVATE_RANGES /\
  isPrivateAddress (mappedText a b c d) = existsb (inCidr addr) PRIVATE_RANGES /\
  (forall s, isIP (bare s) = 0 -> isPrivateAddress s = true) /\
  map isPrivateAddress ["::ffff:7f00:1"; "fe90::1"; "0:0:0:0:0:0:0:1"] = [false; false; false].
Proof.
  intros Ha Hb Hc Hd addr.
  assert (forall n, isPrivateFuel (S n) (dotted a b c d) = existsb (inCidr addr) PRIVATE_RANGES) as Hq.
  { intros n. cbn [isPrivateFuel]. rewrite bare_plain by apply dotted_plain.
    rewrite (isIP_v4 _ (lang_dotted a b c d Ha Hb Hc Hd)), (v4_dotted a b c d Ha Hb Hc Hd).
    apply reserved_ranges; lia. }
  split_and!.
  - by rewrite isPrivateAddress_two.
  - rewrite isPrivateAddress_two. cbn [isPrivateFuel].
    rewrite bare_plain by (unfold mappedText; by rewrite all_chars_app, dotted_plain).
    rewrite (mappedText_isIP a b c d Ha Hb Hc Hd), (mappedText_mapped a b c d Ha Hb Hc Hd). cbn [Z.eqb Pos.eqb]. apply (Hq 0%nat).
  - intros s Hs. rewrite isPrivateAddress_two. cbn [isPrivateFuel]. by rewrite Hs.
  - vm_compute. reflexivity.
Qed.

(** ** Checking URLs *)

Section Checked.
Context (parseUrl : string -> option Url).

Abbreviation checkUrl := (checkUrl parseUrl).

Lemma checkAddresses_ok l : checkAddresses l = Ok tt <->
  forall a, a ∈ l -> isMetadataAddress a = false /\ isPrivateAddress a = false.
Proof.
  induction l as [|a l IH]; cbn [checkAddresses]; [split; [set_solver|done]|].
  rewrite !throw_ok, IH. setoid_rewrite elem_of_cons. split.
  - intros (H1 & H2 & H3) x [->|Hx]; auto.
  - intros H. split_and!; [apply H; auto|apply H; auto|auto].
Qed.

Lemma addressesOf_ok policy host l : addressesOf policy host = Ok l <->
  (isIP host <> 0 /\ l = [host]) \/ (isIP host = 0 /\ l <> [] /\ resolve policy host = Some l).
Proof.
  unfold addressesOf. destruct (Z.eqb_spec (isIP host) 0) as [E|E]; simpl.
  - destruct (resolve policy host) as [[|x l']|]; naive_solver.
  - naive_solver.
Qed.

(** A request to [url] is safe under [policy]. *)
Definition safeUrl (policy : EgressPolicy) (url : Url) : Prop :=
  let host := to_lower (hostname url) in
  protocol url = "https:" /\ username url = "" /\ password url = "" /\
  host ∈ map to_lower (allowedHosts policy) /\ portAllowed policy url = true /\
  exists addresses, addressesOf policy host = Ok addresses /\
    forall a, a ∈ addresses -> isMetadataAddress a = false /\ isPrivateAddress a = false.

Lemma checkUrl_ok raw policy url :
  checkUrl raw policy = Ok url <-> parseUrl raw = Some url /\ safeUrl policy url.
Proof.
  unfold Egress.checkUrl, safeUrl. destruct (parseUrl raw) as [u|]; [|naive_solver].
  rewrite !throw_ok, !orb_false_iff, !negb_false_iff, !streq_true, includes_true, rbind_ok.
  setoid_rewrite rbind_ok. setoid_rewrite <- checkAddresses_ok. split.
  - intros (H1 & [H2 H3] & H4 & H5 & l & Hl & [] & Hc & [= ->]). eauto 10.
  - intros ([= ->] & H1 & H2 & H3 & H4 & H5 & l & Hl & Hc). split_and!; try done. eauto.
Qed.

Context (resolveUrl : string -> Url -> option string).

(** The hosts a chain of redirects visits, each checked. *)
Inductive visits (policy : EgressPolicy) : Url -> list string -> Url -> Prop :=
| visits_nil u : visits policy u [] u
| visits_cons u hop hops absolute v w : resolveUrl hop u = Some absolute -> parseUrl absolute = Some v ->
    safeUrl policy v -> visits policy v hops w -> visits policy u (hop :: hops) w.

Lemma followHops_ok policy hops u w :
  followHops parseUrl resolveUrl u hops policy = Ok w <-> visits policy u hops w.
Proof.
  revert u. induction hops as [|hop hops IH]; intros u; simpl.
  - split; [intros [= <-]; constructor|by inversion 1].
  - split.
    + destruct (resolveUrl hop u) as [abs|] eqn:Er; [|done].
      destruct (checkUrl abs policy) as [v|e] eqn:Ec; [|done]. intros H%IH.
      apply checkUrl_ok in Ec as [Hp Hs]. by econstructor.
    + inversion 1 as [|? ? ? abs v ? Hr Hp Hs Hv]; subst. rewrite Hr.
      assert (checkUrl abs policy = Ok v) as -> by by apply checkUrl_ok. by apply IH.
Qed.

(** C26: no request leaves for an unchecked destination.  A redirect chain is accepted exactly when it
    has at most the allowed number of hops and its first URL and the absolute URL of every hop are
    safe: https, without credentials, an allowed host and port, and every address the host can resolve
    to neither a metadata endpoint nor private.  A host or port that is not allowed is refused without
    asking the resolver. *)
Theorem checkRedirectChain_safe (start : string) (hops : list string) (policy : EgressPolicy) (w : Url) :
  (checkRedirectChain parseUrl resolveUrl start hops policy = Ok w <->
     (length hops <= maxRedirects policy)%nat /\
     exists u, parseUrl start = Some u /\ safeUrl policy u /\ visits policy u hops w) /\
  (forall u resolve',
     parseUrl start = Some u ->
     to_lower (hostname u) ∉ map to_lower (allowedHosts policy) \/ portAllowed policy u = false ->
     checkUrl start policy = checkUrl start {| allowedHosts := allowedHosts policy;
       allowedPorts := allowedPorts policy; maxRedirects := maxRedirects policy; resolve := resolve' |} /\
     is_ok (checkUrl start policy) = false).
Proof.
  split.
  - unfold checkRedirectChain. rewrite throw_ok, Nat.ltb_ge. split.
    + intros [Hl H]. split; [done|]. destruct (checkUrl start policy) as [u|] eqn:E; [|done].
      apply checkUrl_ok in E as [Hp Hs]. apply followHops_ok in H. eauto.
    + intros (Hl & u & Hp & Hs & Hv). split; [done|].
      assert (checkUrl start policy = Ok u) as -> by by apply checkUrl_ok. by apply followHops_ok.
  - intros u resolve' Hu Hno. unfold Egress.checkUrl. rewrite Hu.
    destruct (negb _); [done|]. destruct (_ || _); [done|]. cbn [allowedHosts].
    destruct (includes _ _) eqn:Ei; [|done]. destruct Hno as [Hno|Hno].
    + by apply includes_true in Ei.
    + unfold portAllowed in *. cbn [allowedPorts]. by rewrite Hno.
Qed.

End Checked.

Module Samples.

Lemma isPrivateAddress_exact_witness :
  isPrivateAddress (dotted 172 31 0 1) = existsb (inCidr (ipv4 172 31 0 1)) PRIVATE_RANGES.
Proof. exact (proj1 (isPrivateAddress_exact 172 31 0 1 ltac:(lia) ltac:(lia) ltac:(lia) ltac:(lia))). Defined.

Example private_samples :
  map isPrivateAddress ["10.0.0.1"; "172.32.0.1"; "100.63.255.255"; "100.64.0.0"; "8.8.8.8"; "[::1]"; "FE80::1";
                        "::ffff:192.168.1.1"; "2606:4700::1111"; "example.com"] =
  [true; false; false; true; false; true; true; true; false; true].
Proof. vm_compute. reflexivity. Qed.

Definition example (raw : string) : option Url :=
  if streq raw "https://api.example.com/v1" then
    Some {| protocol := "https:"; username := ""; password := ""; hostname := "api.example.com"; port := "";
            href := raw |}
  else None.
Definition policy (answers : list string) : EgressPolicy :=
  {| allowedHosts := ["API.example.com"]; allowedPorts := [443]; maxRedirects := 2;
     resolve := fun _ => Some answers |}.

Example rebinding : checkUrl example "https://api.example.com/v1" (policy ["8.8.8.8"; "127.0.0.1"]) = Err PRIVATE_ADDRESS.
Proof. vm_compute. reflexivity. Qed.
Example resolved : is_ok (checkUrl example "https://api.example.com/v1" (policy ["8.8.8.8"])) = true.
Proof. vm_compute. reflexivity. Qed.

End Samples.
