(* ===== verification/Bridge.v ===== *)
(** * The local bridge

    [packages/bridge/src]: the signed request protocol ([protocol.ts], Module [Protocol]) and the
    daemon that pairs with a hosted Studio and performs bounded operations for it ([bridge.ts],
    Module [Local]).  SHA-256 and HMAC-SHA-256 are the parameters of the class [Crypto]; the random
    bytes a pairing draws, the clock readings and what the local dependencies answer are arguments of
    the operations.  An operation returns its outcome and the list of calls it made to the
    dependencies, in order, so that a theorem can say which calls are ever made. *)

From S2P Require Import Prelude Regex Json Egress.
From stdpp Require Import pretty.
From Stdlib Require Import Ascii.
Local Open Scope Z_scope.

Module Protocol.

Definition BRIDGE_PROTOCOL_VERSION : string := "contextlock.bridge/v1".

Inductive BridgeReason :=
| UNKNOWN_OPERATION | OPERATION_NOT_AVAILABLE | NOT_PERMITTED | BAD_SIGNATURE | PAYLOAD_MUTATED
| REPLAY | EXPIRED | NOT_YET_VALID | WRONG_PROJECT | WRONG_BRIDGE | WRONG_USER | NO_SESSION
| SESSION_REVOKED | PAIRING_USED | PAIRING_EXPIRED | PAIRING_UNKNOWN | CREDENTIAL_NOT_ALLOWED
| BRIDGE_HOST_NOT_ALLOWED | APPROVAL_REQUIRED | HARDWARE_UNAVAILABLE.
#[export] Instance BridgeReason_eq_dec : EqDecision BridgeReason.
Proof. solve_decision. Defined.

Definition BRIDGE_OPERATIONS : list string :=
  ["cre.simulateWorkflow"; "cre.status"; "cre.buildWorkflow"; "cre.deployWorkflow"; "cre.workflowLifecycle";
   "ledger.approveContextLockAction"; "ledger.performProtectedBrokerAction"; "credential.performApiRequest"].

Definition FORBIDDEN_OPERATIONS : list string :=
  ["getSecret"; "credential.get"; "credential.reveal"; "runShell"; "shell.exec"; "readEnv"; "env.read";
   "dumpCRESession"; "cre.exportSession"; "getLedgerSeed"; "ledger.exportSeed"; "ledger.getPin"; "fs.read";
   "cre.runCommand"; "cre.getApiKey"; "cre.readConfig"; "wallet.getPrivateKey"; "wallet.exportKeystore";
   "docker.runCommand"; "docker.socket"].

Record BridgeRequest := {
  protocolVersion : string;
  requestId : string;
  bridgeId : string;
  userId : string;
  projectId : string;
  operationType : string;
  payloadHashField : string;
  issuedAtMs : Z;
  expiresAtMs : Z;
  nonce : string
}.

Definition longer (n : nat) (s : string) : bool := (n <=? String.length s)%nat.

(** A request of the right shape passes the schema. *)
Definition BridgeRequestSchema (r : BridgeRequest) : bool :=
  streq (protocolVersion r) BRIDGE_PROTOCOL_VERSION && longer 8 (requestId r) && longer 8 (bridgeId r)
  && longer 1 (userId r) && longer 1 (projectId r) && longer 1 (operationType r)
  && matches (Cat (lit "sha256:") (rep 64 (Chr is_hex))) (payloadHashField r)
  && (0 <? issuedAtMs r) && (0 <? expiresAtMs r) && longer 16 (nonce r).

(** A JavaScript object: its properties, in property order. *)
Definition Payload : Type := list (string * jsv).

Record SignedBridgeRequest := {
  request : BridgeRequest;
  payload : Payload;
  signature : string
}.

Definition canonical (v : jsv) : result JsonError string := canonText (fun _ => true) v.

Class Crypto := {
  sha256 : string -> string;
  hmacSha256 : string -> string -> string
}.

(** [Buffer.from(s, "hex")]: pairs of digits up to the first that is none. *)
Definition hexValue (c : ascii) : option N :=
  let n := N_of_ascii c in
  if is_digit c then Some (n - 48)%N
  else if range "a" "f" c then Some (n - 87)%N
  else if range "A" "F" c then Some (n - 55)%N
  else None.
Fixpoint hexBytes (s : string) : list N :=
  match s with
  | String a (String b s') =>
      match hexValue a, hexValue b with
      | Some x, Some y => (16 * x + y)%N :: hexBytes s'
      | _, _ => []
      end
  | _ => []
  end.

Definition signedFields (r : BridgeRequest) : list (string * jsv) :=
  [("protocolVersion", VStr (protocolVersion r)); ("requestId", VStr (requestId r));
   ("bridgeId", VStr (bridgeId r)); ("userId", VStr (userId r)); ("projectId", VStr (projectId r));
   ("operationType", VStr (operationType r)); ("payloadHash", VStr (payloadHashField r));
   ("issuedAtMs", VNum (issuedAtMs r)); ("expiresAtMs", VNum (expiresAtMs r)); ("nonce", VStr (nonce r))].

Definition signingInput (r : BridgeRequest) : result JsonError string := canonical (VObj (signedFields r)).

Section Signatures.
Context `{Crypto}.

Definition payloadHash (p : jsv) : result JsonError string :=
  let* t := canonical p in Ok ("sha256:" +:+ sha256 t).

Definition sign (r : BridgeRequest) (key : string) : result JsonError string :=
  let* t := signingInput r in Ok (hmacSha256 key t).

Definition verifySignature (r : BridgeRequest) (key sig : string) : bool :=
  match sign r key with
  | Err _ => false
  | Ok mac =>
      let expected := hexBytes mac in
      let given := hexBytes sig in
      if negb (length given =? length expected)%nat then false else bool_decide (expected = given)
  end.

End Signatures.

(** Signing never fails, so a request that does not verify was not refused by the serializer. *)
Lemma signingInput_total r : exists t, signingInput r = Ok t.
Proof. eexists. reflexivity. Qed.

Lemma signedFields_NoDup r : NoDup (signedFields r).*1.
Proof. change (NoDup (signedFields (Build_BridgeRequest "" "" "" "" "" "" "" 0 0 "")).*1). by vm_compute; repeat constructor; set_solver. Qed.

Lemma signed_field (r r' : BridgeRequest) k v v' :
  same (fun _ => true) (VObj (signedFields r)) (VObj (signedFields r')) ->
  getKey k (signedFields r) = Some v -> getKey k (signedFields r') = Some v' -> same (fun _ => true) v v'.
Proof.
  intros H Hv Hv'. pose proof (same_obj (fun _ => true) _ _ k (signedFields_NoDup r) (signedFields_NoDup r') eq_refl H) as E.
  rewrite Hv, Hv' in E. by inversion E.
Qed.

(** A signature covers every field that decides what happens.  Two requests with one signing
    text are the same request; and two payloads with one payload hash have the same canonical form,
    or SHA-256 has a collision. *)
Theorem signature_binds `{Crypto} (r r' : BridgeRequest) (p p' : jsv) :
  (signingInput r = signingInput r' -> r = r') /\
  (forall h, payloadHash p = Ok h -> payloadHash p' = Ok h ->
     same (fun _ => true) p p' \/ exists t t', t <> t' /\ sha256 t = sha256 t').
Proof.
  split.
  - intros E. destruct (signingInput_total r) as [t Ht]. assert (signingInput r' = Ok t) as Ht' by congruence.
    pose proof (canonText_same _ _ _ _ Ht Ht') as Hs.
    assert (forall k v v', getKey k (signedFields r) = Some v -> getKey k (signedFields r') = Some v' ->
      same (fun _ => true) v v') as F by (intros k v v'; by apply signed_field).
    clear Hs Ht Ht' E t.
    pose proof (same_str _ _ _ (F "protocolVersion" _ _ eq_refl eq_refl)).
    pose proof (same_str _ _ _ (F "requestId" _ _ eq_refl eq_refl)).
    pose proof (same_str _ _ _ (F "bridgeId" _ _ eq_refl eq_refl)).
    pose proof (same_str _ _ _ (F "userId" _ _ eq_refl eq_refl)).
    pose proof (same_str _ _ _ (F "projectId" _ _ eq_refl eq_refl)).
    pose proof (same_str _ _ _ (F "operationType" _ _ eq_refl eq_refl)).
    pose proof (same_str _ _ _ (F "payloadHash" _ _ eq_refl eq_refl)).
    pose proof (same_num _ _ _ (F "issuedAtMs" _ _ eq_refl eq_refl)).
    pose proof (same_num _ _ _ (F "expiresAtMs" _ _ eq_refl eq_refl)).
    pose proof (same_str _ _ _ (F "nonce" _ _ eq_refl eq_refl)).
    clear F. destruct r, r'; simpl in *; congruence.
  - unfold payloadHash. intros h (t & Ht & [= E])%rbind_ok (t' & Ht' & [= E'])%rbind_ok.
    destruct (decide (t = t')) as [->|Hne]; [left; by eapply canonText_same|].
    right. exists t, t'. split; [done|]. rewrite <- E in E'. by injection E'.
Qed.

End Protocol.

Module Local.
Import Protocol.

(** ** State *)

Record BridgePermissions := {
  allowedProjects : list string;
  allowedOperations : list string;
  allowedCredentialRefs : list string;
  allowedApiHosts : list string;
  allowedApiOperationIds : list string;
  allowedCreWorkflows : list string;
  allowedLedgerActionTypes : list string;
  humanApprovalAboveUsdCents : Z
}.

Definition DENY_ALL : BridgePermissions :=
  {| allowedProjects := []; allowedOperations := []; allowedCredentialRefs := []; allowedApiHosts := [];
     allowedApiOperationIds := []; allowedCreWorkflows := []; allowedLedgerActionTypes := [];
     humanApprovalAboveUsdCents := 0 |}.

Record BridgeSession := {
  sessionBridgeId : string;
  sessionUserId : string;
  sessionProjectId : string;
  key : string;
  createdAtMs : Z;
  sessionExpiresAtMs : Z;
  revokedAtMs : option Z;
  permissions : BridgePermissions
}.

Record PairingCode := {
  code : string;
  codeUserId : string;
  codeProjectId : string;
  codeExpiresAtMs : Z;
  usedAtMs : option Z
}.

(** The three maps of a [LocalBridge]. *)
Record State := {
  pairings : gmap string PairingCode;
  sessions : gmap string BridgeSession;
  nonces : gmap string (gset string)
}.
Definition empty : State := {| pairings := ∅; sessions := ∅; nonces := ∅ |}.

(** [{ ok: false, reason }], or an exception that rejects the request's promise. *)
Inductive Failure := Fail (reason : BridgeReason) | Throws.

(** ** Pairing *)

Definition createPairingCode (c userId projectId : string) (now ttlMs : Z) (st : State) : State :=
  let p := {| code := c; codeUserId := userId; codeProjectId := projectId;
              codeExpiresAtMs := now + ttlMs; usedAtMs := None |} in
  {| pairings := <[c := p]> (pairings st); sessions := sessions st; nonces := nonces st |}.

Definition markUsed (p : PairingCode) (now : Z) : PairingCode :=
  {| code := code p; codeUserId := codeUserId p; codeProjectId := codeProjectId p;
     codeExpiresAtMs := codeExpiresAtMs p; usedAtMs := Some now |}.

(** [id] and [k] are the random bytes drawn; [now i] is the [i]-th reading of the clock. *)
Definition pair (c : string) (perms : BridgePermissions) (sessionTtlMs : Z) (id k : string) (now : nat -> Z)
    (st : State) : State * result Failure BridgeSession :=
  match pairings st !! c with
  | None => (st, Err (Fail PAIRING_UNKNOWN))
  | Some p =>
      match usedAtMs p with
      | Some _ => (st, Err (Fail PAIRING_USED))
      | None =>
          if codeExpiresAtMs p <? now 0%nat then (st, Err (Fail PAIRING_EXPIRED))
          else
            let session := {| sessionBridgeId := id; sessionUserId := codeUserId p;
                              sessionProjectId := codeProjectId p; key := k; createdAtMs := now 2%nat;
                              sessionExpiresAtMs := now 3%nat + sessionTtlMs; revokedAtMs := None;
                              permissions := perms |} in
            ({| pairings := <[c := markUsed p (now 1%nat)]> (pairings st);
                sessions := <[id := session]> (sessions st);
                nonces := <[id := ∅]> (nonces st) |}, Ok session)
      end
  end.

Definition withRevoked (s : BridgeSession) (now : Z) : BridgeSession :=
  {| sessionBridgeId := sessionBridgeId s; sessionUserId := sessionUserId s;
     sessionProjectId := sessionProjectId s; key := key s; createdAtMs := createdAtMs s;
     sessionExpiresAtMs := sessionExpiresAtMs s; revokedAtMs := Some now; permissions := permissions s |}.

Definition revoke (id : string) (now : Z) (st : State) : State :=
  match sessions st !! id with
  | Some s => {| pairings := pairings st; sessions := <[id := withRevoked s now]> (sessions st);
                 nonces := nonces st |}
  | None => st
  end.

Definition session (id : string) (st : State) : option BridgeSession := sessions st !! id.

Section Requests.
Context `{Crypto}.

(** ** Authentication *)

(** The checks that follow the signature, up to the nonce. *)
Definition contentCheck (s : BridgeSession) (signed : SignedBridgeRequest) (now : Z) : result Failure unit :=
  let r := request signed in
  throw (Fail WRONG_USER) when negb (streq (userId r) (sessionUserId s)) ;;
  throw (Fail WRONG_PROJECT) when negb (streq (projectId r) (sessionProjectId s)) ;;
  throw (Fail EXPIRED) when (expiresAtMs r <? now) ;;
  throw (Fail NOT_YET_VALID) when (now + 30000 <? issuedAtMs r) ;;
  match payloadHash (VObj (payload signed)) with
  | Err _ => Err Throws
  | Ok h => throw (Fail PAYLOAD_MUTATED) when negb (streq h (payloadHashField r)) ;; Ok tt
  end.

Definition sessionCheck (signed : SignedBridgeRequest) (now : Z) (st : State) : result Failure BridgeSession :=
  let r := request signed in
  throw (Fail BAD_SIGNATURE) when negb (BridgeRequestSchema r) ;;
  match sessions st !! bridgeId r with
  | None => Err (Fail WRONG_BRIDGE)
  | Some s =>
      throw (Fail SESSION_REVOKED) when bool_decide (is_Some (revokedAtMs s)) ;;
      throw (Fail NO_SESSION) when (sessionExpiresAtMs s <? now) ;;
      throw (Fail BAD_SIGNATURE) when negb (verifySignature r (key s) (signature signed)) ;;
      let* _ := contentCheck s signed now in
      Ok s
  end.

Definition authenticate (signed : SignedBridgeRequest) (now : Z) (st : State) : State * result Failure BridgeSession :=
  let r := request signed in
  match sessionCheck signed now st with
  | Err e => (st, Err e)
  | Ok s =>
      match nonces st !! bridgeId r with
      | None => (st, Err Throws)
      | Some seen =>
          if bool_decide (nonce r ∈ seen) then (st, Err (Fail REPLAY))
          else ({| pairings := pairings st; sessions := sessions st;
                   nonces := <[bridgeId r := {[ nonce r ]} ∪ seen]> (nonces st) |}, Ok s)
      end
  end.

End Requests.

(** ** [String(v)] and [JSON.stringify(v)] of data *)

(** An object whose own [toString] is data cannot be converted: [TypeError]. *)
Fixpoint toText (v : jsv) : result Failure string :=
  match v with
  | VNull => Ok "null"
  | VUndef => Ok "undefined"
  | VBool b => Ok (if b then "true" else "false")
  | VNum n | VBig n => Ok (pretty n)
  | VStr s => Ok s
  | VArr l =>
      let* l' := mapR (fun x => match x with VNull | VUndef => Ok "" | _ => toText x end) l in
      Ok (commas l')
  | VObj l => match getKey "toString" l with Some _ => Err Throws | None => Ok "[object Object]" end
  end.

(** [String(payload.k ?? dflt)] *)
Definition textField (k dflt : string) (p : Payload) : result Failure string :=
  match getKey k p with
  | None | Some VNull | Some VUndef => Ok dflt
  | Some v => toText v
  end.

Definition isUndef (v : jsv) : bool := match v with VUndef => true | _ => false end.

(** What [JSON.stringify] prints: undefined properties are dropped, undefined elements are null. *)
Fixpoint toJson (v : jsv) : result Failure json :=
  match v with
  | VNull | VUndef => Ok JNull
  | VBool b => Ok (JBool b)
  | VNum n => Ok (JNum n)
  | VBig _ => Err Throws
  | VStr s => Ok (JStr s)
  | VArr l => let* l' := mapR toJson l in Ok (JArr l')
  | VObj l =>
      let* l' := mapR (fun '(k, x) => if isUndef x then Ok [] else let* y := toJson x in Ok [(k, y)]) l in
      Ok (JObj (concat l'))
  end.

(** ** Local dependencies *)

Record ApprovalPrompt := {
  promptProjectId : string;
  operation : string;
  what : string;
  amountUsdCents : option Z;
  destination : option string;
  policyReason : string;
  promptExpiresAtMs : Z
}.

Record SupportedChain := { chainName : string; chainSelector : string; forwarder : string }.

Record CreStatus := {
  connected : bool;
  organizationId : option string;
  organizationName : option string;
  accountLabel : option string;
  deployAccess : bool;
  registryIds : list string;
  supportedChains : list SupportedChain;
  cliVersion : string
}.

Record CreBuild := {
  wasmPath : string; wasmBytes : Z; wasmSha256 : string; binaryHash : string; configHash : string;
  workflowHash : string; buildCliVersion : string
}.

Record CreDeployment := { workflowId : string; deployRegistry : string; deployStatus : string; deployBinaryHash : string }.

(** Each answer is [None] when the call rejects. *)
Record CreDeploy := {
  creStatusAnswer : option CreStatus;
  buildAnswer : string -> option CreBuild;
  deployAnswer : string -> string -> string -> option CreDeployment;
  lifecycleAnswer : string -> string -> option (string * jsv);
  hashFile : string -> option string
}.

Record BridgeDeps := {
  egress : EgressPolicy;
  performApiCall : option (string -> string -> string -> option (Z * jsv));
  runCreWorkflow : option (string -> jsv -> option (string * jsv));
  creDeploy : option CreDeploy;
  ledger : option (string -> string -> option (bool * string));
  askHuman : option (ApprovalPrompt -> option bool)
}.

(** A call to a dependency. *)
Inductive Effect :=
| ApiCall (url credentialRef operationId : string)
| CreRun (workflow : string) (args : jsv)
| CreStatusCall
| CreBuildCall (workflow : string)
| HashFileCall (path : string)
| CreDeployCall (workflow path registry : string)
| CreLifecycleCall (workflow action : string)
| LedgerApprove (actionType digest : string)
| AskHumanCall (p : ApprovalPrompt).

Inductive Value :=
| ApiResult (status : Z) (body : jsv) (credentialRef : string)
| RunResult (status : string) (res : jsv)
| StatusResult (s : CreStatus)
| BuildResult (b : CreBuild)
| DeployResult (d : CreDeployment) (deployedWasmSha256 : string)
| LifecycleResult (status : string) (detail : jsv)
| LedgerResult (approved : bool) (sig digest : string).

(** ** Programs that call dependencies: the calls made, and the outcome *)

Definition M (A : Type) : Type := list Effect * result Failure A.
Definition lift {A : Type} (r : result Failure A) : M A := ([], r).
Definition bind {A B : Type} (m : M A) (k : A -> M B) : M B :=
  match m.2 with
  | Ok a => (m.1 ++ (k a).1, (k a).2)
  | Err e => (m.1, Err e)
  end.
Definition call {A : Type} (e : Effect) (answer : option A) : M A :=
  ([e], match answer with Some a => Ok a | None => Err Throws end).
Definition refuse {A : Type} (reason : BridgeReason) : M A := ([], Err (Fail reason)).

Notation "'do*' x ':=' m 'in' k" := (bind m (fun x => k))
  (at level 10, x name, m at level 100, k at level 200) : ctx_scope.
Notation "'fail' r 'when' c ';;' k" := (if (c : bool) then refuse r else k)
  (at level 10, r at level 99, c at level 99, k at level 200) : ctx_scope.

Section Operations.
Context `{Crypto} (parseUrl : string -> option Url) (deps : BridgeDeps) (s : BridgeSession) (p : Payload).

(** ** Operations *)

Definition withHosts (e : EgressPolicy) (hosts : list string) : EgressPolicy :=
  {| allowedHosts := hosts; allowedPorts := allowedPorts e; maxRedirects := maxRedirects e; resolve := resolve e |}.

Definition performApiRequest : M Value :=
  do* credentialRef := lift (textField "credentialRef" "" p) in
  do* operationId := lift (textField "operationId" "" p) in
  do* url := lift (textField "url" "" p) in
  fail CREDENTIAL_NOT_ALLOWED when negb (includes (allowedCredentialRefs (permissions s)) credentialRef) ;;
  fail NOT_PERMITTED when negb (includes (allowedApiOperationIds (permissions s)) operationId) ;;
  match checkUrl parseUrl url (withHosts (egress deps) (allowedApiHosts (permissions s))) with
  | Err _ => refuse BRIDGE_HOST_NOT_ALLOWED
  | Ok verdict =>
      match performApiCall deps with
      | None => refuse OPERATION_NOT_AVAILABLE
      | Some f =>
          do* r := call (ApiCall (href verdict) credentialRef operationId) (f (href verdict) credentialRef operationId) in
          lift (Ok (ApiResult r.1 r.2 credentialRef))
      end
  end.

(** [(payload.args) ?? {}] *)
Definition argsOf : jsv :=
  match getKey "args" p with
  | None | Some VNull | Some VUndef => VObj []
  | Some v => v
  end.

Definition simulateWorkflow : M Value :=
  do* workflow := lift (textField "workflow" "" p) in
  fail NOT_PERMITTED when negb (includes (allowedCreWorkflows (permissions s)) workflow) ;;
  match runCreWorkflow deps with
  | None => refuse OPERATION_NOT_AVAILABLE
  | Some f => do* r := call (CreRun workflow argsOf) (f workflow argsOf) in lift (Ok (RunResult r.1 r.2))
  end.

Definition creStatus : M Value :=
  match creDeploy deps with
  | None => refuse OPERATION_NOT_AVAILABLE
  | Some d => do* st := call CreStatusCall (creStatusAnswer d) in lift (Ok (StatusResult st))
  end.

Definition creBuild : M Value :=
  do* workflow := lift (textField "workflow" "" p) in
  fail NOT_PERMITTED when negb (includes (allowedCreWorkflows (permissions s)) workflow) ;;
  match creDeploy deps with
  | None => refuse OPERATION_NOT_AVAILABLE
  | Some d => do* b := call (CreBuildCall workflow) (buildAnswer d workflow) in lift (Ok (BuildResult b))
  end.

Definition SHA256_HEX : re := rep 64 (Chr is_hex).

Definition creDeployWorkflow : M Value :=
  do* workflow := lift (textField "workflow" "" p) in
  do* path := lift (textField "wasmPath" "" p) in
  do* registry := lift (textField "registry" "" p) in
  do* approvedWasmSha256 := lift (textField "approvedWasmSha256" "" p) in
  fail NOT_PERMITTED when negb (includes (allowedCreWorkflows (permissions s)) workflow) ;;
  fail NOT_PERMITTED when starts_with "onchain:" registry ;;
  fail NOT_PERMITTED when negb (matches SHA256_HEX approvedWasmSha256) ;;
  match creDeploy deps with
  | None => refuse OPERATION_NOT_AVAILABLE
  | Some d =>
      do* actual := call (HashFileCall path) (hashFile d path) in
      fail NOT_PERMITTED when negb (streq actual approvedWasmSha256) ;;
      do* r := call (CreDeployCall workflow path registry) (deployAnswer d workflow path registry) in
      lift (Ok (DeployResult r actual))
  end.

Definition LIFECYCLE_ACTIONS : list string := ["get"; "pause"; "activate"; "list"].

Definition creLifecycle : M Value :=
  do* workflow := lift (textField "workflow" "" p) in
  do* action := lift (textField "action" "" p) in
  fail NOT_PERMITTED when negb (includes (allowedCreWorkflows (permissions s)) workflow) ;;
  fail UNKNOWN_OPERATION when negb (includes LIFECYCLE_ACTIONS action) ;;
  match creDeploy deps with
  | None => refuse OPERATION_NOT_AVAILABLE
  | Some d =>
      do* r := call (CreLifecycleCall workflow action) (lifecycleAnswer d workflow action) in
      lift (Ok (LifecycleResult r.1 r.2))
  end.

(** [typeof payload.amountUsdCents === "number"] *)
Definition amountField : option Z :=
  match getKey "amountUsdCents" p with Some (VNum n) => Some n | _ => None end.
Definition destinationField : option string :=
  match getKey "destination" p with Some (VStr d) => Some d | _ => None end.

(** Ask the person at the keyboard, when the amount is above the session's ceiling. *)
Definition humanApproval (op actionType : string) (now : Z) : M unit :=
  match amountField with
  | None => lift (Ok tt)
  | Some amount =>
      if humanApprovalAboveUsdCents (permissions s) <? amount then
        match askHuman deps with
        | None => refuse APPROVAL_REQUIRED
        | Some ask =>
            do* reason := lift (textField "policyReason" "above the bridge's autonomous ceiling" p) in
            let prompt := {| promptProjectId := sessionProjectId s; operation := op; what := actionType;
                             amountUsdCents := Some amount; destination := destinationField;
                             policyReason := reason; promptExpiresAtMs := now + 120000 |} in
            do* approved := call (AskHumanCall prompt) (ask prompt) in
            fail APPROVAL_REQUIRED when negb approved ;;
            lift (Ok tt)
        end
      else lift (Ok tt)
  end.

Definition ledgerAction (op : string) (now : Z) : M Value :=
  do* actionType := lift (textField "actionType" "" p) in
  fail NOT_PERMITTED when negb (includes (allowedLedgerActionTypes (permissions s)) actionType) ;;
  do* ok := humanApproval op actionType now in
  match ledger deps with
  | None => refuse HARDWARE_UNAVAILABLE
  | Some approve =>
      do* j := lift (toJson (VObj p)) in
      let digest := sha256 (stringify j) in
      do* r := call (LedgerApprove actionType digest) (approve actionType digest) in
      lift (Ok (LedgerResult r.1 r.2 digest))
  end.

Definition dispatch (op : string) (now : Z) : M Value :=
  if streq op "credential.performApiRequest" then performApiRequest
  else if streq op "cre.simulateWorkflow" then simulateWorkflow
  else if streq op "cre.status" then creStatus
  else if streq op "cre.buildWorkflow" then creBuild
  else if streq op "cre.deployWorkflow" then creDeployWorkflow
  else if streq op "cre.workflowLifecycle" then creLifecycle
  else ledgerAction op now.

End Operations.

(** [handle]; [now] is the clock at authentication, [later] when a prompt is made. *)
Definition handle `{Crypto} (parseUrl : string -> option Url) (deps : BridgeDeps) (now later : Z)
    (signed : SignedBridgeRequest) (st : State) : State * M Value :=
  let op := operationType (request signed) in
  if includes FORBIDDEN_OPERATIONS op then (st, refuse OPERATION_NOT_AVAILABLE)
  else if negb (includes BRIDGE_OPERATIONS op) then (st, refuse UNKNOWN_OPERATION)
  else
    let '(st', auth) := authenticate signed now st in
    match auth with
    | Err e => (st', lift (Err e))
    | Ok s =>
        if negb (includes (allowedOperations (permissions s)) op) then (st', refuse NOT_PERMITTED)
        else if negb (includes (allowedProjects (permissions s)) (sessionProjectId s)) then
          (st', refuse WRONG_PROJECT)
        else (st', dispatch parseUrl deps s (payload signed) op later)
    end.

(** ** What authentication establishes *)

Definition authentic `{Crypto} (st : State) (now : Z) (signed : SignedBridgeRequest) (s : BridgeSession) : Prop :=
  let r := request signed in
  BridgeRequestSchema r = true /\ sessions st !! bridgeId r = Some s /\ revokedAtMs s = None /\
  now <= sessionExpiresAtMs s /\ verifySignature r (key s) (signature signed) = true /\
  userId r = sessionUserId s /\ projectId r = sessionProjectId s /\ now <= expiresAtMs r /\
  issuedAtMs r <= now + 30000 /\ payloadHash (VObj (payload signed)) = Ok (payloadHashField r) /\
  exists seen, nonces st !! bridgeId r = Some seen /\ nonce r ∉ seen.

Definition consumeNonce (r : BridgeRequest) (st : State) : State :=
  {| pairings := pairings st; sessions := sessions st;
     nonces := <[bridgeId r := {[ nonce r ]} ∪ default ∅ (nonces st !! bridgeId r)]> (nonces st) |}.

Lemma contentCheck_ok `{Crypto} s signed now u : contentCheck s signed now = Ok u <->
  let r := request signed in
  userId r = sessionUserId s /\ projectId r = sessionProjectId s /\ now <= expiresAtMs r /\
  issuedAtMs r <= now + 30000 /\ payloadHash (VObj (payload signed)) = Ok (payloadHashField r).
Proof.
  unfold contentCheck. rewrite !throw_ok, !negb_false_iff, !streq_true, !Z.ltb_ge.
  destruct (payloadHash _) as [h|e]; [rewrite throw_ok, negb_false_iff, streq_true|]; destruct u; naive_solver.
Qed.

Lemma authenticate_ok `{Crypto} signed now st st' s :
  authenticate signed now st = (st', Ok s) <->
  authentic st now signed s /\ st' = consumeNonce (request signed) st.
Proof.
  unfold authenticate, sessionCheck, authentic, consumeNonce. cbn zeta.
  destruct (BridgeRequestSchema _); [|naive_solver]. cbn [negb].
  destruct (sessions st !! _) as [s0|]; [|naive_solver].
  case_bool_decide as Hr.
  { split; [done|]. intros [(_ & [= <-] & E & _) _]. rewrite E in Hr. by destruct Hr. }
  apply eq_None_not_Some in Hr.
  destruct (Z.ltb_spec (sessionExpiresAtMs s0) now) as [Hx|Hx].
  { split; [done|]. intros [(_ & [= <-] & _ & E & _) _]. lia. }
  destruct (verifySignature _ (key s0) _) eqn:Hv; cbn [negb].
  2: { split; [done|]. intros [(_ & [= <-] & _ & _ & E & _) _]. congruence. }
  destruct (contentCheck s0 signed now) as [u|e] eqn:Hc; cbn [rbind].
  - apply contentCheck_ok in Hc. cbn zeta in Hc. destruct (nonces st !! _) as [seen|] eqn:Es.
    2: { split; [done|]. intros [H' _]. decompose [and ex] H'. congruence. }
    cbn [default]. case_bool_decide as Hn.
    + split; [done|]. intros [H' _]. decompose [and ex] H'. congruence.
    + split; [|by intros [(_ & [= <-] & _) ->]]. intros [= <- <-].
      split; [|done]. repeat (split; [tauto|]). eauto.
  - split; [done|]. intros [(_ & [= <-] & _ & _ & _ & Hrest) _].
    assert (contentCheck s0 signed now = Ok tt) by (apply contentCheck_ok; naive_solver). congruence.
Qed.

Lemma authenticate_err `{Crypto} signed now st st' e : authenticate signed now st = (st', Err e) -> st' = st.
Proof. unfold authenticate. intros. repeat case_match; naive_solver. Qed.

(** ** The calls an operation makes *)

Definition allEffects {A : Type} (P : Effect -> Prop) (m : M A) : Prop := Forall P m.1.

Lemma allEffects_bind {A B : Type} P (m : M A) (k : A -> M B) :
  allEffects P m -> (forall a, m.2 = Ok a -> allEffects P (k a)) -> allEffects P (bind m k).
Proof.
  unfold allEffects, bind. intros Hm Hk. destruct m as [l [a|e]]; simpl in *; [|done].
  apply Forall_app. auto.
Qed.

Lemma allEffects_lift {A : Type} P (r : result Failure A) : allEffects P (lift r).
Proof. constructor. Qed.
Lemma allEffects_refuse {A : Type} P reason : allEffects P (refuse (A := A) reason).
Proof. constructor. Qed.
Lemma allEffects_call {A : Type} (P : Effect -> Prop) e (o : option A) : P e -> allEffects P (call e o).
Proof. by repeat constructor. Qed.
Lemma call_ok {A : Type} e (o : option A) a : (call e o).2 = Ok a -> o = Some a.
Proof. destruct o; simpl; congruence. Qed.

Lemma negb_includes (l : list string) x : negb (includes l x) = false -> x ∈ l.
Proof. by rewrite negb_false_iff, includes_true. Qed.

Ltac effects :=
  repeat match goal with
  | |- allEffects _ (bind _ _) => apply allEffects_bind; [|intros ? ?]
  | |- allEffects _ (lift _) => apply allEffects_lift
  | |- allEffects _ (refuse _) => apply allEffects_refuse
  | |- allEffects _ (call _ _) => apply allEffects_call
  | |- allEffects _ (if negb (includes _ _) then _ else _) =>
      let H := fresh "Hin" in destruct (negb (includes _ _)) eqn:H; [|apply negb_includes in H]
  | |- allEffects _ (match ?x with _ => _ end) => destruct x eqn:?
  end.

(** When the session [s] permits a call of the operation [op] with the payload [p]. *)
Definition permitted (parseUrl : string -> option Url) (deps : BridgeDeps) (s : BridgeSession) (p : Payload)
    (op : string) (e : Effect) : Prop :=
  match e with
  | ApiCall url cred opId =>
      op = "credential.performApiRequest" /\ cred ∈ allowedCredentialRefs (permissions s) /\
      opId ∈ allowedApiOperationIds (permissions s) /\
      exists u, href u = url /\ safeUrl (withHosts (egress deps) (allowedApiHosts (permissions s))) u
  | CreRun w _ => op = "cre.simulateWorkflow" /\ w ∈ allowedCreWorkflows (permissions s)
  | CreStatusCall => op = "cre.status"
  | CreBuildCall w => op = "cre.buildWorkflow" /\ w ∈ allowedCreWorkflows (permissions s)
  | HashFileCall _ => op = "cre.deployWorkflow"
  | CreDeployCall w path registry =>
      op = "cre.deployWorkflow" /\ w ∈ allowedCreWorkflows (permissions s) /\
      starts_with "onchain:" registry = false /\
      exists d approved, creDeploy deps = Some d /\ hashFile d path = Some approved /\
        textField "approvedWasmSha256" "" p = Ok approved /\ matches SHA256_HEX approved = true
  | CreLifecycleCall w action =>
      op = "cre.workflowLifecycle" /\ w ∈ allowedCreWorkflows (permissions s) /\ action ∈ LIFECYCLE_ACTIONS
  | LedgerApprove actionType _ =>
      actionType ∈ allowedLedgerActionTypes (permissions s) /\
      forall n, amountField p = Some n -> humanApprovalAboveUsdCents (permissions s) < n ->
        exists ask prompt, askHuman deps = Some ask /\ amountUsdCents prompt = Some n /\
          what prompt = actionType /\ operation prompt = op /\ ask prompt = Some true
  | AskHumanCall prompt =>
      exists n, amountUsdCents prompt = Some n /\ humanApprovalAboveUsdCents (permissions s) < n
  end.

Section Permitted.
Context `{Crypto} (parseUrl : string -> option Url) (deps : BridgeDeps) (s : BridgeSession) (p : Payload).

Lemma performApiRequest_permitted :
  allEffects (permitted parseUrl deps s p "credential.performApiRequest") (performApiRequest parseUrl deps s p).
Proof.
  unfold performApiRequest. effects. split_and!; try done.
  match goal with E : Egress.checkUrl _ _ _ = Ok _ |- _ => apply checkUrl_ok in E as [_ Hs] end. eauto.
Qed.

Lemma simulateWorkflow_permitted :
  allEffects (permitted parseUrl deps s p "cre.simulateWorkflow") (simulateWorkflow deps s p).
Proof. unfold simulateWorkflow. effects. done. Qed.

Lemma creStatus_permitted : allEffects (permitted parseUrl deps s p "cre.status") (creStatus deps).
Proof. unfold creStatus. effects. done. Qed.

Lemma creBuild_permitted : allEffects (permitted parseUrl deps s p "cre.buildWorkflow") (creBuild deps s p).
Proof. unfold creBuild. effects. done. Qed.

Lemma creDeployWorkflow_permitted :
  allEffects (permitted parseUrl deps s p "cre.deployWorkflow") (creDeployWorkflow deps s p).
Proof.
  unfold creDeployWorkflow. effects; try done.
  match goal with E : negb (streq _ _) = false |- _ => apply negb_false_iff, streq_true in E as -> end.
  match goal with E : (call _ _).2 = Ok _ |- _ => apply call_ok in E end.
  match goal with E : negb (matches _ _) = false |- _ => apply negb_false_iff in E end.
  split_and!; try done. eauto 10.
Qed.

Lemma creLifecycle_permitted :
  allEffects (permitted parseUrl deps s p "cre.workflowLifecycle") (creLifecycle deps s p).
Proof. unfold creLifecycle. effects. done. Qed.

Lemma humanApproval_permitted op actionType now :
  allEffects (permitted parseUrl deps s p op) (humanApproval deps s p op actionType now).
Proof.
  unfold humanApproval. effects. match goal with E : (_ <? _) = true |- _ => apply Z.ltb_lt in E end. eexists. eauto.
Qed.

Lemma humanApproval_ok op actionType now u : (humanApproval deps s p op actionType now).2 = Ok u ->
  forall n, amountField p = Some n -> humanApprovalAboveUsdCents (permissions s) < n ->
    exists ask prompt, askHuman deps = Some ask /\ amountUsdCents prompt = Some n /\
      what prompt = actionType /\ operation prompt = op /\ ask prompt = Some true.
Proof.
  unfold humanApproval. intros H' n Hn Hlt. rewrite Hn in H'. apply Z.ltb_lt in Hlt. rewrite Hlt in H'.
  destruct (askHuman deps) as [ask|]; [|done]. unfold bind at 1 in H'.
  destruct (lift _).2 as [reason|e] in H'; [|done]. cbn [snd] in H'. unfold bind in H'.
  set (prompt := {| promptProjectId := _ |}) in H'. destruct (ask prompt) as [[]|] eqn:Ea; try done.
  exists ask, prompt. done.
Qed.

Lemma ledgerAction_permitted op now :
  allEffects (permitted parseUrl deps s p op) (ledgerAction deps s p op now).
Proof.
  unfold ledgerAction. effects; try apply humanApproval_permitted.
  split; [done|]. by eapply humanApproval_ok.
Qed.

Lemma dispatch_permitted op now : op ∈ BRIDGE_OPERATIONS ->
  allEffects (permitted parseUrl deps s p op) (dispatch parseUrl deps s p op now).
Proof.
  intros _. unfold dispatch.
  repeat match goal with
  | |- context [if streq op ?o then _ else _] =>
      let E := fresh in destruct (streq op o) eqn:E; [apply streq_true in E as ->|clear E]
  end;
  auto using performApiRequest_permitted, simulateWorkflow_permitted, creStatus_permitted, creBuild_permitted,
    creDeployWorkflow_permitted, creLifecycle_permitted, ledgerAction_permitted.
Qed.

End Permitted.

Lemma operations_disjoint op : includes FORBIDDEN_OPERATIONS op = true -> includes BRIDGE_OPERATIONS op = false.
Proof.
  assert (every (fun op => negb (includes BRIDGE_OPERATIONS op)) FORBIDDEN_OPERATIONS = true) as H
    by (vm_compute; reflexivity).
  rewrite every_true in H. intros Hf%includes_true%H. by apply negb_true_iff.
Qed.

Lemma handle_ok `{Crypto} parseUrl deps now later signed st st' m :
  handle parseUrl deps now later signed st = (st', m) -> (m.1 <> [] \/ is_ok m.2 = true) ->
  let op := operationType (request signed) in
  op ∈ BRIDGE_OPERATIONS /\ exists s, authenticate signed now st = (st', Ok s) /\
    op ∈ allowedOperations (permissions s) /\ sessionProjectId s ∈ allowedProjects (permissions s) /\
    m = dispatch parseUrl deps s (payload signed) op later.
Proof.
  intros E Hm. unfold handle in E. cbn zeta in E. destruct (includes FORBIDDEN_OPERATIONS _); [naive_solver|].
  destruct (negb (includes BRIDGE_OPERATIONS _)) eqn:Eop; [naive_solver|]. apply negb_includes in Eop.
  destruct (authenticate signed now st) as [st1 [s|e]]; [|naive_solver].
  destruct (negb (includes (allowedOperations _) _)) eqn:E1; [naive_solver|]. apply negb_includes in E1.
  destruct (negb (includes (allowedProjects _) _)) eqn:E2; [naive_solver|]. apply negb_includes in E2.
  injection E as <- <-. split; [done|]. by exists s.
Qed.

(** C9: a call to a local dependency, or a result, takes a live session and its permission.  If
    handling a request makes any call or returns a value, the operation is in the vocabulary and not
    among the forbidden ones, the request is authentic for a stored, unrevoked and unexpired session
    whose permissions name the operation and the project, its nonce was unused and is now consumed,
    and every call made is one the session permits: the credential, host, workflow or ledger action is
    on its list, a deployment is of a file that hashes to the approved digest, and a ledger approval
    above the ceiling followed a person's yes.  Under [DENY_ALL] no call is ever made. *)
Theorem bridge_effects_authorized `{Crypto} (parseUrl : string -> option Url) (deps : BridgeDeps)
    (now later : Z) (signed : SignedBridgeRequest) (st st' : State) (m : M Value) :
  handle parseUrl deps now later signed st = (st', m) -> (m.1 <> [] \/ is_ok m.2 = true) ->
  let op := operationType (request signed) in
  op ∈ BRIDGE_OPERATIONS /\ op ∉ FORBIDDEN_OPERATIONS /\
  exists s, authentic st now signed s /\ st' = consumeNonce (request signed) st /\
    op ∈ allowedOperations (permissions s) /\ sessionProjectId s ∈ allowedProjects (permissions s) /\
    Forall (permitted parseUrl deps s (payload signed) op) m.1 /\ permissions s <> DENY_ALL.
Proof.
  intros E Hm op. destruct (handle_ok _ _ _ _ _ _ _ _ E Hm) as (Hop & s & Ha & H1 & H2 & ->).
  split; [done|]. split.
  { intros Hf%includes_true%operations_disjoint%includes_false. done. }
  exists s. apply authenticate_ok in Ha as [Ha ->]. repeat (split; [done|]).
  split; [by apply dispatch_permitted|]. intros Hd. rewrite Hd in H1. by apply elem_of_nil in H1.
Qed.

(** ** Runs of the daemon *)

Inductive Event :=
| ECreate (c userId projectId : string) (now ttlMs : Z)
| EPair (c : string) (perms : BridgePermissions) (ttlMs : Z) (id k : string) (now : nat -> Z)
| ERevoke (id : string) (now : Z)
| EHandle (parseUrl : string -> option Url) (deps : BridgeDeps) (now later : Z) (signed : SignedBridgeRequest).

Definition step `{Crypto} (st : State) (e : Event) : State :=
  match e with
  | ECreate c u p now ttl => createPairingCode c u p now ttl st
  | EPair c perms ttl id k now => (pair c perms ttl id k now st).1
  | ERevoke id now => revoke id now st
  | EHandle parseUrl deps now later signed => (handle parseUrl deps now later signed st).1
  end.

(** The request that [e] performs in [st], by session and nonce. *)
Definition performed `{Crypto} (st : State) (e : Event) : list (string * string) :=
  match e with
  | EHandle parseUrl deps now later signed =>
      let m := (handle parseUrl deps now later signed st).2 in
      if bool_decide (m.1 <> []) || is_ok m.2 then [(bridgeId (request signed), nonce (request signed))] else []
  | _ => []
  end.

(** The pairing code that [e] turns into a session. *)
Definition consumed (st : State) (e : Event) : list string :=
  match e with
  | EPair c perms ttl id k now => if is_ok (pair c perms ttl id k now st).2 then [c] else []
  | _ => []
  end.

(** A run from the empty state: its events, last first, the state it reaches, the requests performed
    and the codes used. *)
Inductive runs `{Crypto} : list Event -> State -> list (string * string) -> list string -> Prop :=
| runs_nil : runs [] empty [] []
| runs_snoc l st done used e : runs l st done used ->
    runs (e :: l) (step st e) (performed st e ++ done) (consumed st e ++ used).

(** The random identifiers a run draws. *)
Definition sessionIds (l : list Event) : list string :=
  omap (fun e => match e with EPair _ _ _ id _ _ => Some id | _ => None end) l.
Definition createdCodes (l : list Event) : list string :=
  omap (fun e => match e with ECreate c _ _ _ _ => Some c | _ => None end) l.

Section RunInvariant.
Context `{Crypto}.

Lemma handle_state parseUrl deps now later signed st :
  (handle parseUrl deps now later signed st).1 = st \/
  (exists s, authentic st now signed s) /\
  (handle parseUrl deps now later signed st).1 = consumeNonce (request signed) st.
Proof.
  unfold handle. destruct (includes FORBIDDEN_OPERATIONS _); [by left|].
  destruct (negb (includes BRIDGE_OPERATIONS _)); [by left|].
  destruct (authenticate signed now st) as [st' [s|e]] eqn:E.
  - apply authenticate_ok in E as [Ha ->]. right. split; [by exists s|]. by repeat case_match.
  - apply authenticate_err in E as ->. by left.
Qed.

Lemma performed_handle st e x : x ∈ performed st e ->
  exists parseUrl deps now later signed s,
    e = EHandle parseUrl deps now later signed /\ x = (bridgeId (request signed), nonce (request signed)) /\
    authentic st now signed s /\ step st e = consumeNonce (request signed) st.
Proof.
  destruct e as [| | |parseUrl deps now later signed]; try by intros ?%elem_of_nil.
  cbn [performed step]. destruct (handle parseUrl deps now later signed st) as [st' m] eqn:E. cbn [fst snd].
  destruct (bool_decide (m.1 <> []) || is_ok m.2) eqn:Hm; [|by intros ?%elem_of_nil].
  intros ->%list_elem_of_singleton. apply orb_true_iff in Hm. rewrite bool_decide_eq_true in Hm.
  destruct (handle_ok _ _ _ _ _ _ _ _ E Hm) as (_ & s & [Ha ->]%authenticate_ok & _).
  by exists parseUrl, deps, now, later, signed, s.
Qed.

Lemma pair_state c perms ttl id k now st :
  (pair c perms ttl id k now st).1 = st /\ is_ok (pair c perms ttl id k now st).2 = false \/
  exists p, pairings st !! c = Some p /\ usedAtMs p = None /\
    pairings (pair c perms ttl id k now st).1 = <[c := markUsed p (now 1%nat)]> (pairings st) /\
    nonces (pair c perms ttl id k now st).1 = <[id := ∅]> (nonces st).
Proof.
  unfold pair. destruct (pairings st !! c) as [p|]; [|by left]. destruct (usedAtMs p) eqn:E; [by left|].
  destruct (_ <? _); [by left|]. right. by exists p.
Qed.

Definition nonceInv (l : list Event) (st : State) (done : list (string * string)) : Prop :=
  (forall b n, (b, n) ∈ done -> exists seen, nonces st !! b = Some seen /\ n ∈ seen) /\
  (forall b, is_Some (nonces st !! b) -> b ∈ sessionIds l) /\ NoDup done.

Definition codeInv (l : list Event) (st : State) (used : list string) : Prop :=
  (forall c, c ∈ used -> exists p, pairings st !! c = Some p /\ usedAtMs p <> None) /\
  (forall c, is_Some (pairings st !! c) -> c ∈ createdCodes l) /\ NoDup used.

(** No operation forgets a nonce, except a pairing that draws the identifier of a session. *)
Lemma step_keeps_nonce st e b seen n : nonces st !! b = Some seen -> n ∈ seen ->
  (forall c perms ttl k now, e <> EPair c perms ttl b k now) ->
  exists seen', nonces (step st e) !! b = Some seen' /\ n ∈ seen'.
Proof.
  intros Hb Hn Hne. destruct e as [c u p now ttl|c perms ttl id k now|id now|parseUrl deps now later signed]; simpl.
  - eauto.
  - destruct (pair_state c perms ttl id k now st) as [[-> _]|(p & _ & _ & _ & ->)]; [by eauto|].
    rewrite lookup_insert_ne by (intros ->; by eapply Hne). eauto.
  - unfold revoke. destruct (sessions st !! id); simpl; eauto.
  - destruct (handle_state parseUrl deps now later signed st) as [->|[_ ->]]; [by eauto|].
    unfold consumeNonce; cbn [nonces]. destruct (decide (bridgeId (request signed) = b)) as [->|Hd].
    + rewrite lookup_insert_eq, Hb. eexists. split; [done|]. set_solver.
    + rewrite lookup_insert_ne by done. eauto.
Qed.

Lemma step_nonce_dom st e b : is_Some (nonces (step st e) !! b) ->
  is_Some (nonces st !! b) \/ exists c perms ttl k now, e = EPair c perms ttl b k now.
Proof.
  destruct e as [c u p now ttl|c perms ttl id k now|id now|parseUrl deps now later signed]; simpl; [by left| | |].
  - destruct (pair_state c perms ttl id k now st) as [[-> _]|(p & _ & _ & _ & ->)]; [by left|].
    rewrite lookup_insert_is_Some'. intros [->|Hs]; [right; by eauto 10|by left].
  - unfold revoke. destruct (sessions st !! id); by left.
  - destruct (handle_state parseUrl deps now later signed st) as [->|[(s & Ha) ->]]; [by left|].
    unfold consumeNonce; cbn [nonces]. rewrite lookup_insert_is_Some'. intros [<-|Hs]; [|by left].
    left. unfold authentic in Ha. decompose [and ex] Ha. eauto.
Qed.

Lemma sessionIds_cons e l : NoDup (sessionIds (e :: l)) -> NoDup (sessionIds l) /\
  forall c perms ttl b k now, e = EPair c perms ttl b k now -> b ∉ sessionIds l.
Proof.
  unfold sessionIds. destruct e; simpl; try (intros Hl; split; [exact Hl|congruence]).
  intros [Hi Hl]%NoDup_cons. split; [done|]. intros; by simplify_eq.
Qed.

Lemma runs_nonces l st done used : runs l st done used -> NoDup (sessionIds l) -> nonceInv l st done.
Proof.
  induction 1 as [|l st done used e _ IH]; intros Hl.
  { split; [by intros b n ?%elem_of_nil|]. split; [|constructor]. intros b [? Hb]. done. }
  apply sessionIds_cons in Hl as [Hl Hfresh]. destruct (IH Hl) as (Hdone & Hdom & Hnd).
  assert (forall b n, (b, n) ∈ done -> forall c perms ttl k now, e <> EPair c perms ttl b k now) as Hold.
  { intros b n Hin c perms ttl k now ->. destruct (Hdone b n Hin) as (seen & Hs & _).
    by eapply (Hfresh c perms ttl b k now eq_refl), Hdom, mk_is_Some. }
  split; [|split].
  - intros b n [Hp|Hd]%elem_of_app.
    + destruct (performed_handle _ _ _ Hp) as (? & ? & ? & ? & signed & s & _ & [= -> ->] & _ & ->).
      unfold consumeNonce; cbn [nonces]. rewrite lookup_insert_eq. eexists. split; [done|]. set_solver.
    + destruct (Hdone b n Hd) as (seen & Hs & Hn). eapply step_keeps_nonce; eauto.
  - intros b [Hb|(c & perms & ttl & k & now & ->)]%step_nonce_dom; [|by left].
    specialize (Hdom b Hb). unfold sessionIds in *. destruct e; simpl; try done. by right.
  - apply NoDup_app. split_and!; [| |done].
    + destruct e; simpl; try constructor. case_match; [apply NoDup_singleton|constructor].
    + intros [b n] Hp Hd. destruct (performed_handle _ _ _ Hp) as (? & ? & now & ? & signed & s & _ & [= -> ->] & Ha & _).
      destruct (Hdone _ _ Hd) as (seen & Hs & Hn). unfold authentic in Ha.
      destruct Ha as (_ & _ & _ & _ & _ & _ & _ & _ & _ & _ & seen' & Hs' & Hn'). congruence.
Qed.

Lemma createdCodes_cons e l : NoDup (createdCodes (e :: l)) -> NoDup (createdCodes l) /\
  forall c u p now ttl, e = ECreate c u p now ttl -> c ∉ createdCodes l.
Proof.
  unfold createdCodes. destruct e; simpl; try (intros Hl; split; [exact Hl|congruence]).
  intros [Hi Hl]%NoDup_cons. split; [done|]. intros; by simplify_eq.
Qed.

Lemma step_pairings st e : (forall c u p now ttl, e <> ECreate c u p now ttl) ->
  pairings (step st e) = pairings st /\ consumed st e = [] \/
  exists c p now, pairings st !! c = Some p /\ usedAtMs p = None /\
    pairings (step st e) = <[c := markUsed p now]> (pairings st) /\ consumed st e ⊆ [c].
Proof.
  intros Hne. destruct e as [c u p now ttl|c perms ttl id k now|id now|parseUrl deps now later signed]; simpl.
  - by destruct (Hne c u p now ttl).
  - destruct (pair_state c perms ttl id k now st) as [[-> ->]|(p & H1 & H2 & H3 & _)]; [by left|].
    right. exists c, p, (now 1%nat). split_and!; try done. destruct (is_ok _); set_solver.
  - left. unfold revoke. by destruct (sessions st !! id).
  - left. by destruct (handle_state parseUrl deps now later signed st) as [->|[_ ->]].
Qed.

Lemma consumed_NoDup st e : NoDup (consumed st e).
Proof. destruct e; simpl; try constructor. case_match; [apply NoDup_singleton|constructor]. Qed.

Lemma create_or_not e : (forall c u p now ttl, e <> ECreate c u p now ttl) \/
  exists c u p now ttl, e = ECreate c u p now ttl.
Proof. destruct e; [right; by repeat eexists|left; congruence..]. Qed.

Lemma runs_codes l st done used : runs l st done used -> NoDup (createdCodes l) -> codeInv l st used.
Proof.
  induction 1 as [|l st done used e _ IH]; intros Hl.
  { split; [by intros c ?%elem_of_nil|]. split; [|constructor]. intros c [? Hc]. done. }
  apply createdCodes_cons in Hl as [Hl Hfresh]. destruct (IH Hl) as (Hused & Hdom & Hnd).
  destruct (create_or_not e) as [Hne|(c & u & p & now & ttl & ->)].
  - assert (createdCodes (e :: l) = createdCodes l) as El by (destruct e; [by edestruct Hne|..]; done).
    unfold codeInv. rewrite El.
    destruct (step_pairings st e Hne) as [[-> ->]|(c & p & now & Hc & Hu & -> & Hsub)]; [by split_and!|].
    split; [|split].
    + intros c' [Hc'|Hc']%elem_of_app.
      * apply Hsub, list_elem_of_singleton in Hc' as ->. rewrite lookup_insert_eq. by eexists.
      * destruct (Hused c' Hc') as (p' & Hp' & Hu'). assert (c' <> c) by congruence.
        rewrite lookup_insert_ne by done. eauto.
    + intros c'. rewrite lookup_insert_is_Some'. intros [<-|Hs]; apply Hdom; [by eexists|done].
    + apply NoDup_app. split_and!; [apply consumed_NoDup| |done].
      intros c' Hc' Hin. apply Hsub, list_elem_of_singleton in Hc' as ->.
      destruct (Hused c Hin) as (p' & Hp' & Hu'). congruence.
  - pose proof (Hfresh _ _ _ _ _ eq_refl) as Hnew. split; [|split]; [|intros c'|done]; simpl.
    + intros c' Hc'. destruct (Hused c' Hc') as (p' & Hp' & Hu').
      assert (c <> c') as Hd by (intros ->; by apply Hnew, Hdom, (mk_is_Some _ p')).
      rewrite lookup_insert_ne by done. eauto.
    + rewrite lookup_insert_is_Some'. intros [<-|Hs]; [by left|right; by apply Hdom].
Qed.

End RunInvariant.

(** C30: nothing is performed twice.  In any run of the daemon whose random session identifiers and
    pairing codes are distinct, no request is performed twice for one session and nonce, and every
    pairing code becomes at most one session. *)
Theorem bridge_performs_once `{Crypto} (l : list Event) (st : State) (done : list (string * string))
    (used : list string) :
  runs l st done used -> NoDup (sessionIds l) -> NoDup (createdCodes l) -> NoDup done /\ NoDup used.
Proof.
  intros Hr Hi Hc. destruct (runs_nonces _ _ _ _ Hr Hi) as (_ & _ & Hd).
  by destruct (runs_codes _ _ _ _ Hr Hc) as (_ & _ & Hu).
Qed.

End Local.

Module Samples.
Import Protocol Local.

(** A digest of 64 digits: the number of characters, padded. *)
Fixpoint zeros (n : nat) : string := match n with O => "" | S n => String "0" (zeros n) end.
Definition pad64 (s : string) : string := zeros (64 - String.length s) +:+ s.
#[local] Instance lengthCrypto : Crypto :=
  {| sha256 := fun t => pad64 (pretty (N.of_nat (String.length t)));
     hmacSha256 := fun k t => pad64 (pretty (N.of_nat (String.length (k +:+ t)))) |}.

Definition digest : string := pad64 "7f".
Definition noEgress : EgressPolicy :=
  {| Egress.allowedHosts := []; allowedPorts := [443]; maxRedirects := 0; resolve := fun _ => None |}.
Definition cre : CreDeploy :=
  {| creStatusAnswer := None; buildAnswer := fun _ => None;
     deployAnswer := fun w _ r => Some {| workflowId := "id-" +:+ w; deployRegistry := r; deployStatus := "PAUSED";
                                          deployBinaryHash := digest |};
     lifecycleAnswer := fun _ _ => None; hashFile := fun _ => Some digest |}.
Definition deps : BridgeDeps :=
  {| egress := noEgress; performApiCall := None; runCreWorkflow := None; creDeploy := Some cre;
     ledger := None; askHuman := None |}.
Definition perms : BridgePermissions :=
  {| allowedProjects := ["p1"]; allowedOperations := ["cre.deployWorkflow"]; allowedCredentialRefs := [];
     allowedApiHosts := []; allowedApiOperationIds := []; allowedCreWorkflows := ["treasury"];
     allowedLedgerActionTypes := []; humanApprovalAboveUsdCents := 0 |}.

Definition deployPayload : Payload :=
  [("workflow", VStr "treasury"); ("wasmPath", VStr "out/treasury.wasm"); ("registry", VStr "private");
   ("approvedWasmSha256", VStr digest)].
Definition deployRequest (n : string) : BridgeRequest :=
  {| protocolVersion := BRIDGE_PROTOCOL_VERSION; requestId := "request1"; bridgeId := "bridge_01";
     userId := "u1"; projectId := "p1"; operationType := "cre.deployWorkflow";
     payloadHashField := match payloadHash (VObj deployPayload) with Ok h => h | Err _ => "" end;
     issuedAtMs := 1000; expiresAtMs := 9000; nonce := n |}.
Definition signedDeploy (n : string) : SignedBridgeRequest :=
  {| request := deployRequest n; payload := deployPayload;
     signature := match sign (deployRequest n) "k" with Ok m => m | Err _ => "" end |}.

Definition events : list Event :=
  [ECreate "C0DE" "u1" "p1" 100 300000; EPair "C0DE" perms 28800000 "bridge_01" "k" (fun _ => 200);
   EHandle (fun _ => None) deps 2000 2000 (signedDeploy "nonce-0123456789");
   EHandle (fun _ => None) deps 2001 2001 (signedDeploy "nonce-0123456789")].
Definition after (n : nat) : State := fold_left step (take n events) empty.

Example first_performed : performed (after 2) (nth 2 events (ERevoke "" 0)) = [("bridge_01", "nonce-0123456789")].
Proof. vm_compute. reflexivity. Qed.
Example replay_refused :
  (handle (fun _ => None) deps 2001 2001 (signedDeploy "nonce-0123456789") (after 3)).2 = refuse REPLAY.
Proof. vm_compute. reflexivity. Qed.

Lemma bridge_effects_authorized_witness :
  exists st' m, handle (fun _ => None) deps 2000 2000 (signedDeploy "nonce-0123456789") (after 2) = (st', m) /\
    is_ok m.2 = true /\ operationType (request (signedDeploy "nonce-0123456789")) ∉ FORBIDDEN_OPERATIONS.
Proof.
  eexists _, _. split; [apply surjective_pairing|]. split; [vm_compute; reflexivity|].
  refine (proj1 (proj2 (bridge_effects_authorized (fun _ => None) deps 2000 2000 (signedDeploy "nonce-0123456789")
    (after 2) _ _ (surjective_pairing _) _))). right. vm_compute. reflexivity.
Defined.

Lemma bridge_performs_once_witness : exists st done used,
  runs (rev events) st done used /\ (NoDup done /\ NoDup used).
Proof.
  assert (exists st done used, runs (rev events) st done used) as (st & done & used & Hr).
  { eexists _, _, _. cbn [events rev app]. repeat apply runs_snoc. apply runs_nil. }
  exists st, done, used. split; [exact Hr|].
  apply (bridge_performs_once (rev events) st done used Hr); apply (bool_decide_unpack _); vm_compute; reflexivity.
Defined.

End Samples.
