(* ===== verification/Adapters.v ===== *)
(** * Data adapters: trust, manifests, registry, resolution, observations

    [packages/studio-adapters/src/core].  [Trust] is [trust.ts], the strength order of data sources.
    [Manifest] is [manifest.ts], what an adapter says of itself.  [Registry] is [registry.ts]: the
    registration gate and the pinned references.  [Resolver] is [resolver.ts]: which adapter serves a
    data requirement, what a model's suggestion can change, and the check of a value at use time.
    [Observation] is [observation.ts]: the commitment to the data a decision was made over.

    [localeCompare] and the URL check of zod are parameters.  Of a manifest the opaque input and output
    schemas are left out; the schemas' error lists are one error. *)

From S2P Require Import Prelude Regex Json Network.
From stdpp Require Import pretty sorting.
From Stdlib Require Import Ascii.
Local Open Scope Z_scope.

Module Trust.

Inductive DataTrustClass :=
| CONFIDENTIAL_VERIFIED_COMPUTE
| VERIFIED_ORACLE
| INDEXED_CHAIN_DATA
| DIRECT_CHAIN_DATA
| EXTERNAL_API
| USER_UNTRUSTED.
#[export] Instance DataTrustClass_eq_dec : EqDecision DataTrustClass.
Proof. solve_decision. Defined.

Definition trustName (c : DataTrustClass) : string :=
  match c with
  | CONFIDENTIAL_VERIFIED_COMPUTE => "CONFIDENTIAL_VERIFIED_COMPUTE"
  | VERIFIED_ORACLE => "VERIFIED_ORACLE"
  | INDEXED_CHAIN_DATA => "INDEXED_CHAIN_DATA"
  | DIRECT_CHAIN_DATA => "DIRECT_CHAIN_DATA"
  | EXTERNAL_API => "EXTERNAL_API"
  | USER_UNTRUSTED => "USER_UNTRUSTED"
  end.

Definition trustRank (c : DataTrustClass) : Z :=
  match c with
  | CONFIDENTIAL_VERIFIED_COMPUTE => 5
  | VERIFIED_ORACLE => 4
  | INDEXED_CHAIN_DATA => 3
  | DIRECT_CHAIN_DATA => 2
  | EXTERNAL_API => 1
  | USER_UNTRUSTED => 0
  end.

Definition satisfiesTrust (offered required : DataTrustClass) : bool :=
  trustRank required <=? trustRank offered.

Definition isTrustDowngrade (from to : DataTrustClass) : bool := trustRank to <? trustRank from.

Lemma satisfiesTrust_iff (o r : DataTrustClass) : satisfiesTrust o r = true <-> trustRank r <= trustRank o.
Proof. apply Z.leb_le. Qed.

Lemma trustRank_inj (c d : DataTrustClass) : trustRank c = trustRank d -> c = d.
Proof. by destruct c, d. Qed.

Lemma satisfiesTrust_trans (a b c : DataTrustClass) :
  satisfiesTrust a b = true -> satisfiesTrust b c = true -> satisfiesTrust a c = true.
Proof. rewrite !satisfiesTrust_iff. lia. Qed.

End Trust.

Module Manifest.
Import Trust.

Inductive AdapterType :=
| EXECUTION
| STATE_DATA
| VERIFIED_MARKET_DATA
| EXTERNAL_CONTEXT
| TRIGGER
| CROSS_CHAIN.
#[export] Instance AdapterType_eq_dec : EqDecision AdapterType.
Proof. solve_decision. Defined.

Definition DATA_ADAPTER_TYPES : list AdapterType := [STATE_DATA; VERIFIED_MARKET_DATA; EXTERNAL_CONTEXT].
Definition EXECUTION_ADAPTER_TYPES : list AdapterType := [EXECUTION; CROSS_CHAIN].

Record AdapterCapability := {
  capName : string;
  capDescription : string;
  dataKind : option string;
  capTrustClass : option DataTrustClass
}.

Inductive FreshnessKind := sourceTimestamp | blockHeight | reportTimestamp | requestTime | unknown.
#[export] Instance FreshnessKind_eq_dec : EqDecision FreshnessKind.
Proof. solve_decision. Defined.

Record FreshnessSemantics := {
  freshnessKind : FreshnessKind;
  typicalStalenessMs : option Z;
  exposesBlockLag : bool
}.

Inductive AuthMode := none | apiKey | bearer | oauth | x402 | localSession | ledger | creSecret | custom.
#[export] Instance AuthMode_eq_dec : EqDecision AuthMode.
Proof. solve_decision. Defined.

Inductive AuthPlacement := authStudioBackend | generatedAgentServer | authCreConfidential | neverClient.
#[export] Instance AuthPlacement_eq_dec : EqDecision AuthPlacement.
Proof. solve_decision. Defined.

Record AdapterAuth := {
  mode : AuthMode;
  requiredSecretNames : list string;
  placement : AuthPlacement
}.

Record AdapterSafety := {
  decodesPreparedTransactions : bool;
  supportsDryRun : bool;
  allowsArbitraryTarget : bool;
  allowsArbitraryRecipient : bool;
  independentlyValidatesProviderOutput : bool
}.

Inductive ExecutionPlacement := studioBackend | generatedAgent | creConfidential | chainlinkFunctions | onchain.
#[export] Instance ExecutionPlacement_eq_dec : EqDecision ExecutionPlacement.
Proof. solve_decision. Defined.

Record SecurityAssertion := { assertionId : string; statement : string; provenBy : list string }.

Record ContextLockAdapterManifest := {
  schemaVersion : string;
  id : string;
  version : string;
  adapterType : AdapterType;
  name : string;
  description : string;
  provider : string;
  supportedChains : list Z;
  capabilities : list AdapterCapability;
  trustClass : DataTrustClass;
  freshnessSemantics : FreshnessSemantics;
  auth : AdapterAuth;
  executionPlacement : ExecutionPlacement;
  safety : AdapterSafety;
  generatedModules : list string;   (* their paths *)
  simulationProviders : list string;
  securityAssertions : list SecurityAssertion;
  officialDocs : list string
}.

Definition adapterRef (m : ContextLockAdapterManifest) : string := id m +:+ "@" +:+ version m.

Definition kebab (c : ascii) : bool := is_lower_alnum c || Ascii.eqb c "-".
Definition screaming (c : ascii) : bool := upper c || is_digit c || Ascii.eqb c "_".

Definition semver : re :=
  let n := Regex.plus (Chr is_digit) in Cat n (Cat (lit ".") (Cat n (Cat (lit ".") n))).
Definition adapterId : re := Cat (Chr lower) (repBetween 2 63 (Chr kebab)).
Definition SECRET_NAME : re := Cat (Chr upper) (repBetween 2 63 (Chr screaming)).
Definition SCENARIO_NAME : re :=
  Cat (Chr upper) (repBetween 2 63 (Chr (fun c => screaming c || Ascii.eqb c "-"))).
Definition ASSERTION_ID : re :=
  Cat (lit "AS-") (repBetween 2 32 (Chr (fun c => upper c || is_digit c || Ascii.eqb c "-"))).

Definition nonempty {A : Type} (l : list A) : bool := match l with [] => false | _ => true end.
Definition textMin (n : nat) (s : string) : bool := (n <=? String.length s)%nat.
(** [z.number().int()] accepts safe integers only. *)
Definition safeInt (z : Z) : bool := Z.abs z <=? 9007199254740991.
Definition posInt (z : Z) : bool := safeInt z && (0 <? z).
Definition natInt (z : Z) : bool := safeInt z && (0 <=? z).

Definition capabilityOk (c : AdapterCapability) : bool :=
  matches SECRET_NAME (capName c) && textMin 1 (capDescription c).

Definition assertionOk (a : SecurityAssertion) : bool :=
  matches ASSERTION_ID (assertionId a) && textMin 1 (statement a) && nonempty (provenBy a).

(** [ContextLockAdapterManifestSchema] on a document of the right shape. *)
Definition manifestOk (isUrl : string -> bool) (m : ContextLockAdapterManifest) : bool :=
  streq (schemaVersion m) "contextlock.adapter.manifest/v1" &&
  matches adapterId (id m) && matches semver (version m) &&
  textMin 1 (name m) && textMin 20 (description m) && textMin 1 (provider m) &&
  nonempty (supportedChains m) && every posInt (supportedChains m) &&
  nonempty (capabilities m) && every capabilityOk (capabilities m) &&
  match typicalStalenessMs (freshnessSemantics m) with Some t => natInt t | None => true end &&
  every (matches SECRET_NAME) (requiredSecretNames (auth m)) &&
  nonempty (generatedModules m) && every (textMin 1) (generatedModules m) &&
  nonempty (simulationProviders m) && every (matches SCENARIO_NAME) (simulationProviders m) &&
  nonempty (securityAssertions m) && every assertionOk (securityAssertions m) &&
  nonempty (officialDocs m) && every isUrl (officialDocs m).

(** [m.capabilities.find((c) => c.dataKind === kind)]. *)
Definition capabilityFor (kind : string) (m : ContextLockAdapterManifest) : option AdapterCapability :=
  List.find (fun c => bool_decide (dataKind c = Some kind)) (capabilities m).

(** [cap?.trustClass ?? m.trustClass]. *)
Definition offeredTrust (kind : string) (m : ContextLockAdapterManifest) : DataTrustClass :=
  default (trustClass m) (capabilityFor kind m ≫= capTrustClass).

Lemma capabilityFor_in kind m c : capabilityFor kind m = Some c -> c ∈ capabilities m /\ dataKind c = Some kind.
Proof. intros [Hin Hk]%find_true. by apply bool_decide_eq_true in Hk. Qed.

End Manifest.

Module Registry.
Import Trust Manifest.

Section registry.
Context (isUrl : string -> bool) (localeCompare : string -> string -> Z).

Inductive AdapterKind := execution | data.
#[export] Instance AdapterKind_eq_dec : EqDecision AdapterKind.
Proof. solve_decision. Defined.

(** An entry, with what the implementation's own [manifest()] reports of its id and version. *)
Record RegisteredAdapter := {
  kind : AdapterKind;
  manifest : ContextLockAdapterManifest;
  declared : string * string
}.

Inductive RegistrationError :=
| MANIFEST_INVALID
| AUTH_UNDECLARED
| AUTH_PLACEMENT
| TRUST_INCONSISTENT
| NO_DATAKIND
| EXEC_UNVALIDATED
| NO_ASSERTIONS
| NO_SIMULATIONS
| NO_MODULES
| IDENTITY_MISMATCH
| KIND_MISMATCH
| DUPLICATE.

(** [c.trustClass && !satisfiesTrust(m.trustClass, c.trustClass)]. *)
Definition claimsMore (m : ContextLockAdapterManifest) (c : AdapterCapability) : bool :=
  match capTrustClass c with Some t => negb (satisfiesTrust (trustClass m) t) | None => false end.

(** A truthy [c.dataKind]. *)
Definition hasDataKind (c : AdapterCapability) : bool :=
  match dataKind c with Some k => negb (streq k "") | None => false end.

Definition verifyManifest (m : ContextLockAdapterManifest) : result RegistrationError ContextLockAdapterManifest :=
  throw MANIFEST_INVALID when negb (manifestOk isUrl m) ;;
  throw AUTH_UNDECLARED when
    negb (bool_decide (mode (auth m) = none)) && negb (nonempty (requiredSecretNames (auth m))) ;;
  throw AUTH_PLACEMENT when
    negb (bool_decide (mode (auth m) = none)) && bool_decide (placement (auth m) = neverClient) &&
    bool_decide (executionPlacement m = generatedAgent) ;;
  throw TRUST_INCONSISTENT when some (claimsMore m) (capabilities m) ;;
  throw NO_DATAKIND when
    includes DATA_ADAPTER_TYPES (adapterType m) && negb (some hasDataKind (capabilities m)) ;;
  throw EXEC_UNVALIDATED when
    bool_decide (adapterType m = EXECUTION) &&
    (negb (decodesPreparedTransactions (safety m)) ||
     negb (independentlyValidatesProviderOutput (safety m))) ;;
  throw NO_ASSERTIONS when negb (nonempty (securityAssertions m)) ;;
  throw NO_SIMULATIONS when negb (nonempty (simulationProviders m)) ;;
  throw NO_MODULES when negb (nonempty (generatedModules m)) ;;
  Ok m.

(** The map [byRef], in insertion order. *)
Definition AdapterRegistry : Type := list (string * RegisteredAdapter).

Definition getRef (ref : string) (r : AdapterRegistry) : option RegisteredAdapter :=
  snd <$> List.find (fun p => streq p.1 ref) r.

Definition expectedKind (m : ContextLockAdapterManifest) : AdapterKind :=
  if includes EXECUTION_ADAPTER_TYPES (adapterType m) then execution else data.

Definition register (entry : RegisteredAdapter) (r : AdapterRegistry) : result RegistrationError AdapterRegistry :=
  let* m := verifyManifest (manifest entry) in
  throw IDENTITY_MISMATCH when
    negb (streq (declared entry).1 (id m)) || negb (streq (declared entry).2 (version m)) ;;
  throw KIND_MISMATCH when negb (bool_decide (kind entry = expectedKind m)) ;;
  throw DUPLICATE when match getRef (adapterRef m) r with Some _ => true | None => false end ;;
  Ok (r ++ [(adapterRef m, {| kind := kind entry; manifest := m; declared := declared entry |})]).

(** [None]: AdapterNotFoundError. *)
Definition resolve (aid ver : string) (r : AdapterRegistry) : option RegisteredAdapter :=
  getRef (aid +:+ "@" +:+ ver) r.

Definition has (aid ver : string) (r : AdapterRegistry) : bool :=
  match resolve aid ver r with Some _ => true | None => false end.

Definition ref_le (a b : ContextLockAdapterManifest) : Prop := localeCompare (adapterRef a) (adapterRef b) <= 0.
#[export] Instance ref_le_dec : RelDecision ref_le.
Proof. intros a b. unfold ref_le. apply _. Defined.

Definition listed (r : AdapterRegistry) : list ContextLockAdapterManifest :=
  merge_sort ref_le (map (fun p => manifest p.2) r).

Definition versionsOf (aid : string) (r : AdapterRegistry) : list string :=
  merge_sort str_le (map version (List.filter (fun m => streq (id m) aid) (listed r))).

Record CapabilityQuery := {
  q_capability : option string;
  q_dataKind : option string;
  q_adapterType : option AdapterType;
  q_chainId : option Z;
  q_minimumTrustClass : option DataTrustClass;
  q_maxAgeMs : option Z
}.

(** [cap?.trustClass ?? m.trustClass] with [cap] looked up only when a data kind is asked for. *)
Definition queryTrust (q : CapabilityQuery) (m : ContextLockAdapterManifest) : DataTrustClass :=
  match q_dataKind q with
  | Some k => if streq k "" then trustClass m else offeredTrust k m
  | None => trustClass m
  end.

Definition freshEnough (m : ContextLockAdapterManifest) (maxAge : Z) : bool :=
  negb (bool_decide (freshnessKind (freshnessSemantics m) = unknown)) &&
  match typicalStalenessMs (freshnessSemantics m) with Some t => negb (maxAge <? t) | None => true end.

(** An absent (or, for strings, empty) field of the query constrains nothing. *)
Definition matchesQuery (q : CapabilityQuery) (m : ContextLockAdapterManifest) : bool :=
  match q_adapterType q with Some t => bool_decide (adapterType m = t) | None => true end &&
  match q_chainId q with Some c => includes (supportedChains m) c | None => true end &&
  match q_capability q with
  | Some n => streq n "" || some (fun c => streq (capName c) n) (capabilities m)
  | None => true end &&
  match q_dataKind q with
  | Some k => streq k "" || some (fun c => bool_decide (dataKind c = Some k)) (capabilities m)
  | None => true end &&
  match q_minimumTrustClass q with Some t => satisfiesTrust (queryTrust q m) t | None => true end &&
  match q_maxAgeMs q with Some a => freshEnough m a | None => true end.

Definition findByCapability (q : CapabilityQuery) (r : AdapterRegistry) : list ContextLockAdapterManifest :=
  List.filter (matchesQuery q) (listed r).

(** *** What registration guarantees *)

Definition entryOk (p : string * RegisteredAdapter) : Prop :=
  p.1 = adapterRef (manifest p.2) /\ verifyManifest (manifest p.2) = Ok (manifest p.2) /\
  kind p.2 = expectedKind (manifest p.2) /\
  declared p.2 = (id (manifest p.2), version (manifest p.2)).

Definition registryOk (r : AdapterRegistry) : Prop := NoDup r.*1 /\ Forall entryOk r.

(** A sequence of registrations; a refused one throws and leaves the registry as it was. *)
Definition registerAll (es : list RegisteredAdapter) (r : AdapterRegistry) : AdapterRegistry :=
  foldl (fun r e => match register e r with Ok r' => r' | Err _ => r end) r es.

Lemma verifyManifest_ok m m' : verifyManifest m = Ok m' ->
  m' = m /\ manifestOk isUrl m = true /\ (forall c, c ∈ capabilities m -> claimsMore m c = false) /\
  (adapterType m = EXECUTION -> decodesPreparedTransactions (safety m) = true /\
     independentlyValidatesProviderOutput (safety m) = true).
Proof.
  unfold verifyManifest. rewrite !throw_ok, some_false, negb_false_iff.
  intros (H1 & _ & _ & H4 & _ & H6 & _ & _ & _ & [= <-]). split_and!; try done.
  intros Ht. rewrite Ht in H6. simpl in H6. by apply orb_false_iff in H6 as [->%negb_false_iff ->%negb_false_iff].
Qed.

Lemma getRef_app ref r r' :
  getRef ref (r ++ r') = match getRef ref r with Some e => Some e | None => getRef ref r' end.
Proof.
  unfold getRef. induction r as [|p r IH]; simpl; [by destruct (List.find _ r')|].
  destruct (streq p.1 ref); simpl; [done|]. exact IH.
Qed.

Lemma getRef_in ref r e : getRef ref r = Some e -> (ref, e) ∈ r.
Proof.
  unfold getRef. intros (p & [Hin Hk%streq_true]%find_true & ->)%fmap_Some. subst. by destruct p.
Qed.

Lemma getRef_None ref r : getRef ref r = None <-> ref ∉ r.*1.
Proof.
  unfold getRef. rewrite fmap_None, find_none_iff, list_elem_of_fmap. split.
  - intros H (p & -> & Hp). specialize (H p Hp). by rewrite streq_refl in H.
  - intros H p Hp. apply streq_false. intros <-. apply H. eauto.
Qed.

Lemma register_inv e r r' : register e r = Ok r' ->
  exists p, r' = r ++ [p] /\ entryOk p /\ getRef p.1 r = None.
Proof.
  unfold register. intros (m & Hm & H)%rbind_ok. rewrite !throw_ok in H.
  destruct (verifyManifest_ok _ _ Hm) as [-> _].
  destruct H as (Hid & Hk%negb_false_iff%bool_decide_eq_true & Hd & [= <-]).
  apply orb_false_iff in Hid as [H1%negb_false_iff%streq_true H2%negb_false_iff%streq_true].
  eexists. split; [done|]. split; [|by destruct (getRef _ r)].
  split_and!; simpl; try done. destruct (declared e); simpl in *. congruence.
Qed.

Lemma register_ok e r r' : registryOk r -> register e r = Ok r' -> registryOk r'.
Proof.
  intros [Hnd Hf] (p & -> & Hp & Hn)%register_inv. split.
  - rewrite fmap_app. apply NoDup_app. split_and!; [done| |apply NoDup_singleton].
    intros x Hx ->%list_elem_of_singleton. by apply getRef_None in Hn.
  - apply Forall_app. by split; [|apply Forall_singleton].
Qed.

Lemma registerAll_cons e es r :
  registerAll (e :: es) r = registerAll es (match register e r with Ok r' => r' | Err _ => r end).
Proof. reflexivity. Qed.

Lemma registerAll_grows es r : registryOk r ->
  registryOk (registerAll es r) /\ (forall ref e, getRef ref r = Some e -> getRef ref (registerAll es r) = Some e).
Proof.
  revert r. induction es as [|e es IH]; intros r Hr; [done|]. rewrite registerAll_cons.
  destruct (register e r) as [r'|] eqn:E; [|by apply IH].
  destruct (IH r' (register_ok _ _ _ Hr E)) as [H1 H2]. split; [done|].
  intros ref x Hx. apply H2. apply register_inv in E as (p & -> & _). by rewrite getRef_app, Hx.
Qed.

Lemma registryOk_nil : registryOk [].
Proof. split; [apply NoDup_nil_2|constructor]. Qed.

(** *** References read back *)

Definition notAt (c : ascii) : bool := negb (Ascii.eqb c "@").

Lemma at_split a b u v : all_chars notAt u = true -> all_chars notAt v = true ->
  a +:+ "@" +:+ b = u +:+ "@" +:+ v -> a = u /\ b = v.
Proof.
  intros Hu Hv. revert u Hu. induction a as [|c a IH]; intros [|d u] Hu;
    rewrite ?str_app_cons, ?str_app_nil; simpl in Hu.
  - by intros [= ->].
  - intros [= <- _]. done.
  - intros [= -> <-]. exfalso. revert Hv. clear. induction a as [|c a IH]; [done|].
    rewrite str_app_cons. simpl. by destruct (notAt c).
  - apply andb_true_iff in Hu as [_ Hu]. intros [= -> H]. by destruct (IH u Hu H) as [-> ->].
Qed.

Lemma adapterId_notAt : re_within notAt adapterId = true.
Proof. vm_compute. reflexivity. Qed.

Lemma semver_notAt : re_within notAt semver = true.
Proof. vm_compute. reflexivity. Qed.

Lemma manifest_names m : manifestOk isUrl m = true ->
  all_chars notAt (id m) = true /\ all_chars notAt (version m) = true.
Proof.
  intros H. assert (matches adapterId (id m) = true /\ matches semver (version m) = true) as [Hi Hv].
  { unfold manifestOk in H. by repeat (apply andb_true_iff in H as [H ?]). }
  split; [exact (matched_chars _ _ _ adapterId_notAt Hi)|exact (matched_chars _ _ _ semver_notAt Hv)].
Qed.

Lemma offeredTrust_le m m' kd : verifyManifest m = Ok m' -> trustRank (offeredTrust kd m) <= trustRank (trustClass m).
Proof.
  intros (_ & _ & H & _)%verifyManifest_ok. unfold offeredTrust.
  destruct (capabilityFor kd m) as [c|] eqn:E; simpl; [|done].
  apply capabilityFor_in in E as [Hin _]. specialize (H c Hin). unfold claimsMore in H.
  destruct (capTrustClass c) as [t|]; simpl; [|done]. by apply negb_false_iff, satisfiesTrust_iff in H.
Qed.

(** Over any sequence of registrations, a reference resolves to the adapter of exactly the id and
    version it names, the implementation agrees, no capability is more trusted than its adapter, an
    execution adapter decodes and validates what its provider built, and no later registration changes
    what the reference resolves to. *)
Theorem registry_pinned (es es' : list RegisteredAdapter) (aid ver : string) (e : RegisteredAdapter) :
  resolve aid ver (registerAll es []) = Some e ->
  resolve aid ver (registerAll es' (registerAll es [])) = Some e /\
  id (manifest e) = aid /\ version (manifest e) = ver /\ declared e = (aid, ver) /\
  (forall kd, trustRank (offeredTrust kd (manifest e)) <= trustRank (trustClass (manifest e))) /\
  (kind e = execution <-> adapterType (manifest e) ∈ EXECUTION_ADAPTER_TYPES) /\
  (adapterType (manifest e) = EXECUTION -> decodesPreparedTransactions (safety (manifest e)) = true /\
     independentlyValidatesProviderOutput (safety (manifest e)) = true).
Proof.
  intros H. destruct (registerAll_grows es [] registryOk_nil) as [Hr _].
  destruct (registerAll_grows es' _ Hr) as [_ Hg]. split; [by apply Hg|].
  apply getRef_in in H. destruct Hr as [_ Hf]. rewrite Forall_forall in Hf.
  destruct (Hf _ H) as (Href & Hv & Hk & Hd); simpl in *.
  destruct (verifyManifest_ok _ _ Hv) as (_ & Hok & _ & Hx).
  destruct (manifest_names _ Hok) as [Hi Hver].
  destruct (at_split aid ver _ _ Hi Hver Href) as [-> ->].
  split_and!; try done.
  - intros kd. by eapply offeredTrust_le.
  - rewrite Hk. unfold expectedKind, includes. by case_bool_decide.
Qed.

End registry.

End Registry.

(** What is used of [localeCompare]: a total preorder that tells apart texts in the alphabet of adapter
    references and event identities. *)
Definition refChar (c : ascii) : bool :=
  is_lower_alnum c || Ascii.eqb c "-" || Ascii.eqb c "." || Ascii.eqb c "@" || Ascii.eqb c ":".

Class Collation (localeCompare : string -> string -> Z) := {
  collation_total a b : localeCompare a b <= 0 \/ localeCompare b a <= 0;
  collation_trans a b c : localeCompare a b <= 0 -> localeCompare b c <= 0 -> localeCompare a c <= 0;
  collation_refs a b : all_chars refChar a = true -> all_chars refChar b = true ->
    localeCompare a b <= 0 -> localeCompare b a <= 0 -> a = b
}.

(** Comparison by code unit is one. *)
Definition codeUnitCompare (a b : string) : Z := if str_leb a b then (if str_leb b a then 0 else -1) else 1.

#[export] Instance codeUnit_collation : Collation codeUnitCompare.
Proof.
  assert (Hle : forall a b, codeUnitCompare a b <= 0 <-> str_leb a b = true).
  { intros a b. unfold codeUnitCompare. destruct (str_leb a b), (str_leb b a); naive_solver lia. }
  split; intros *; rewrite ?Hle.
  - apply str_leb_total.
  - apply str_leb_trans.
  - intros _ _. apply str_leb_antisym.
Qed.

Module Resolver.
Import Trust Manifest Registry.

Section resolver.
Context (localeCompare : string -> string -> Z).

Record Fallback := {
  f_adapterId : string;
  f_adapterVersion : string;
  allowedTrust : DataTrustClass;
  f_maxAgeMs : Z
}.

Record DataRequirement := {
  key : string;
  reqKind : string;
  subject : option string;
  chainId : Z;
  minimumTrustClass : DataTrustClass;
  maxAgeMs : Z;
  confidential : bool;
  historical : bool;
  fallback : option Fallback
}.

Record AdapterSelection := {
  s_key : string;
  s_adapterId : string;
  s_adapterVersion : string;
  s_trustClass : DataTrustClass;
  s_fallback : option Fallback
}.

Inductive RejectReason :=
| chainUnsupported
| weakerTrust
| freshnessUnknown
| tooStale
| notConfidential
| fallbackUnregistered
| fallbackTooWeak.

Inductive ResolutionOutcome :=
| Selected (selection : AdapterSelection) (rejected : list (string * RejectReason))
| NO_COMPATIBLE_ADAPTER (rejected : list (string * RejectReason)).

(** What the filter makes of one adapter: compatible, rejected with a reason, or silently skipped. *)
Inductive Candidacy := compatible | rejectedFor (r : RejectReason) | outOfScope.

Definition candidacy (req : DataRequirement) (m : ContextLockAdapterManifest) : Candidacy :=
  if includes [EXECUTION; TRIGGER; CROSS_CHAIN] (adapterType m) then outOfScope
  else if negb (includes (supportedChains m) (chainId req)) then rejectedFor chainUnsupported
  else match capabilityFor (reqKind req) m with
  | None => outOfScope
  | Some cap =>
      if negb (satisfiesTrust (default (trustClass m) (capTrustClass cap)) (minimumTrustClass req))
      then rejectedFor weakerTrust
      else if bool_decide (freshnessKind (freshnessSemantics m) = unknown) then rejectedFor freshnessUnknown
      else if match typicalStalenessMs (freshnessSemantics m) with
              | Some t => maxAgeMs req <? t | None => false end then rejectedFor tooStale
      else if confidential req && negb (bool_decide (executionPlacement m = creConfidential))
      then rejectedFor notConfidential
      else compatible
  end.

Definition isCompatible (req : DataRequirement) (m : ContextLockAdapterManifest) : bool :=
  match candidacy req m with compatible => true | _ => false end.

Definition rejection (req : DataRequirement) (m : ContextLockAdapterManifest) : option (string * RejectReason) :=
  match candidacy req m with rejectedFor r => Some (adapterRef m, r) | _ => None end.

Definition typical (m : ContextLockAdapterManifest) : Z :=
  default 9007199254740991 (typicalStalenessMs (freshnessSemantics m)).

(** The comparison function candidates are sorted with. *)
Definition rank (dataKind : string) (a b : ContextLockAdapterManifest) : Z :=
  let t := trustRank (offeredTrust dataKind b) - trustRank (offeredTrust dataKind a) in
  if negb (t =? 0) then t
  else let s := typical a - typical b in
       if negb (s =? 0) then s else localeCompare (adapterRef a) (adapterRef b).

Definition rank_le (dataKind : string) (a b : ContextLockAdapterManifest) : Prop := rank dataKind a b <= 0.
#[export] Instance rank_le_dec dataKind : RelDecision (rank_le dataKind).
Proof. intros a b. unfold rank_le. apply _. Defined.

(** [fenceAdapterExecution]: only a prepared write is fenced. *)
Inductive FencedCapability := READ | PREPARE_WRITE.

Definition fenceAdapterExecution (chain : option Z) (c : FencedCapability)
    : result Roles.NetworkGuardError unit :=
  match c, chain with
  | PREPARE_WRITE, Some cid =>
      Fences.fenceWrite Fences.ADAPTER_RESOLVER
        (Fences.testnetRef cid) Roles.PUBLIC_WRITE
  | _, _ => Ok tt
  end.

(** The declared fallback: what becomes of it, and the rejection it adds. *)
Definition checkFallback (r : AdapterRegistry) (req : DataRequirement)
    : option Fallback * list (string * RejectReason) :=
  match fallback req with
  | None => (None, [])
  | Some f =>
      match resolve (f_adapterId f) (f_adapterVersion f) r with
      | None => (None, [(f_adapterId f +:+ "@" +:+ f_adapterVersion f, fallbackUnregistered)])
      | Some e =>
          if negb (satisfiesTrust (offeredTrust (reqKind req) (manifest e)) (allowedTrust f))
          then (None, [(adapterRef (manifest e), fallbackTooWeak)])
          else (Some f, [])
      end
  end.

Definition resolveDataRequirement (r : AdapterRegistry) (req : DataRequirement) : ResolutionOutcome :=
  let all := listed localeCompare r in
  let rejected := omap (rejection req) all in
  match merge_sort (rank_le (reqKind req)) (List.filter (isCompatible req) all) with
  | [] => NO_COMPATIBLE_ADAPTER rejected
  | chosen :: _ =>
      let fb := checkFallback r req in
      Selected
        {| s_key := key req; s_adapterId := id chosen; s_adapterVersion := version chosen;
           s_trustClass := offeredTrust (reqKind req) chosen; s_fallback := fb.1 |}
        (rejected ++ fb.2)
  end.

(** The reasons of [ModelOverrideRejectedError]. *)
Inductive OverrideReason :=
| notRegistered
| doesNotProvide
| wrongChain
| offersLess
| noFreshness
| stale.

Definition resolveWithSuggestion (r : AdapterRegistry) (req : DataRequirement)
    (suggested : option (string * string)) : result OverrideReason ResolutionOutcome :=
  match suggested with
  | None => Ok (resolveDataRequirement r req)
  | Some (aid, ver) =>
      match resolve aid ver r with
      | None => Err notRegistered
      | Some e =>
          let m := manifest e in
          let offered := offeredTrust (reqKind req) m in
          throw doesNotProvide when match capabilityFor (reqKind req) m with Some _ => false | None => true end ;;
          throw wrongChain when negb (includes (supportedChains m) (chainId req)) ;;
          throw offersLess when negb (satisfiesTrust offered (minimumTrustClass req)) ;;
          throw noFreshness when bool_decide (freshnessKind (freshnessSemantics m) = unknown) ;;
          throw stale when match typicalStalenessMs (freshnessSemantics m) with
                           | Some t => maxAgeMs req <? t | None => false end ;;
          match resolveDataRequirement r req with
          | NO_COMPATIBLE_ADAPTER rejected => Ok (NO_COMPATIBLE_ADAPTER rejected)
          | Selected s rejected =>
              Ok (Selected
                {| s_key := s_key s; s_adapterId := id m; s_adapterVersion := version m;
                   s_trustClass := offered; s_fallback := s_fallback s |} rejected)
          end
      end
  end.

Inductive Enforcement := enforced | TRUST | STALE.

(** The trust class and the age a value may have, for the primary source or the fallback. *)
Definition allowance (req : DataRequirement) (usedFallback : bool) : DataTrustClass * Z :=
  match fallback req with
  | Some f => if usedFallback then (allowedTrust f, f_maxAgeMs f) else (minimumTrustClass req, maxAgeMs req)
  | None => (minimumTrustClass req, maxAgeMs req)
  end.

Definition enforceRequirement (req : DataRequirement) (trust : DataTrustClass) (freshnessMs : option Z)
    (usedFallback : bool) : Enforcement :=
  let a := allowance req usedFallback in
  if negb (satisfiesTrust trust a.1) then TRUST
  else match freshnessMs with
  | None => STALE
  | Some age => if a.2 <? age then STALE else enforced
  end.

(** *** What the resolver promises *)

Definition placed (req : DataRequirement) (m : ContextLockAdapterManifest) : bool :=
  negb (confidential req) || bool_decide (executionPlacement m = creConfidential).

Lemma candidacy_eqb req m : isCompatible req m =
  includes DATA_ADAPTER_TYPES (adapterType m) && includes (supportedChains m) (chainId req) &&
  bool_decide (is_Some (capabilityFor (reqKind req) m)) &&
  satisfiesTrust (offeredTrust (reqKind req) m) (minimumTrustClass req) &&
  freshEnough m (maxAgeMs req) && placed req m.
Proof.
  unfold isCompatible, candidacy, offeredTrust, freshEnough, placed.
  replace (includes [EXECUTION; TRIGGER; CROSS_CHAIN] (adapterType m))
    with (negb (includes DATA_ADAPTER_TYPES (adapterType m))) by (by destruct (adapterType m)).
  destruct (includes DATA_ADAPTER_TYPES _); simpl; [|done].
  destruct (includes (supportedChains m) _); simpl; [|done].
  destruct (capabilityFor (reqKind req) m) as [cap|]; simpl; [|done].
  destruct (satisfiesTrust _ _); simpl; [|done].
  destruct (bool_decide (freshnessKind _ = _)); simpl; [done|].
  destruct (typicalStalenessMs _) as [y|]; [destruct (maxAgeMs req <? y)|]; simpl; try done.
  all: by destruct (confidential req), (bool_decide (executionPlacement m = _)).
Qed.

Definition serves (req : DataRequirement) (m : ContextLockAdapterManifest) : Prop :=
  chainId req ∈ supportedChains m /\ is_Some (capabilityFor (reqKind req) m) /\
  satisfiesTrust (offeredTrust (reqKind req) m) (minimumTrustClass req) = true /\
  freshEnough m (maxAgeMs req) = true.

Lemma isCompatible_iff req m : isCompatible req m = true <->
  adapterType m ∈ DATA_ADAPTER_TYPES /\ serves req m /\
  (confidential req = true -> executionPlacement m = creConfidential).
Proof.
  rewrite candidacy_eqb, !andb_true_iff, !includes_true, bool_decide_eq_true. unfold serves, placed.
  rewrite orb_true_iff, negb_true_iff, bool_decide_eq_true. destruct (confidential req); naive_solver.
Qed.

Context `{!Collation localeCompare}.

#[local] Instance ref_le_total : Total (ref_le localeCompare).
Proof. intros a b. apply collation_total. Qed.
#[local] Instance ref_le_trans : Transitive (ref_le localeCompare).
Proof. intros a b c. apply collation_trans. Qed.

Lemma rank_le_iff dk a b : rank_le dk a b <->
  let ta := trustRank (offeredTrust dk a) in let tb := trustRank (offeredTrust dk b) in
  tb < ta \/ (ta = tb /\ (typical a < typical b \/
    (typical a = typical b /\ localeCompare (adapterRef a) (adapterRef b) <= 0))).
Proof.
  unfold rank_le, rank. simpl.
  destruct (Z.eqb_spec (trustRank (offeredTrust dk b) - trustRank (offeredTrust dk a)) 0); simpl; [|lia].
  destruct (Z.eqb_spec (typical a - typical b) 0); simpl; lia.
Qed.

#[local] Instance rank_le_total dk : Total (rank_le dk).
Proof.
  intros a b. rewrite !rank_le_iff. simpl.
  destruct (collation_total (adapterRef a) (adapterRef b)); lia.
Qed.
#[local] Instance rank_le_trans dk : Transitive (rank_le dk).
Proof.
  intros a b c. rewrite !rank_le_iff. simpl.
  pose proof (collation_trans (adapterRef a) (adapterRef b) (adapterRef c)). lia.
Qed.

Lemma listed_in r m : m ∈ listed localeCompare r <-> exists p, p ∈ r /\ m = manifest p.2.
Proof. unfold listed. rewrite merge_sort_Permutation, list_elem_of_fmap. naive_solver. Qed.

Definition provides (req : DataRequirement) (r : AdapterRegistry) (m : ContextLockAdapterManifest) : Prop :=
  (exists p, p ∈ r /\ m = manifest p.2) /\ isCompatible req m = true.

Lemma provides_iff req r m :
  provides req r m <-> m ∈ List.filter (isCompatible req) (listed localeCompare r).
Proof. unfold provides. rewrite <- listed_in, !list_elem_of_In, filter_In. done. Qed.

Lemma resolve_cases r req :
  (exists rej, resolveDataRequirement r req = NO_COMPATIBLE_ADAPTER rej /\ forall m, ~ provides req r m) \/
  (exists sel rej m, resolveDataRequirement r req = Selected sel rej /\ provides req r m /\
     (forall m', provides req r m' -> rank_le (reqKind req) m m') /\
     sel = {| s_key := key req; s_adapterId := id m; s_adapterVersion := version m;
              s_trustClass := offeredTrust (reqKind req) m; s_fallback := (checkFallback r req).1 |}).
Proof.
  unfold resolveDataRequirement.
  set (l0 := List.filter (isCompatible req) (listed localeCompare r)).
  assert (Hp : forall m, provides req r m <-> m ∈ merge_sort (rank_le (reqKind req)) l0).
  { intros m. rewrite provides_iff. symmetry. apply elem_of_Permutation_proper, merge_sort_Permutation. }
  pose proof (StronglySorted_merge_sort (rank_le (reqKind req)) l0) as Hs.
  setoid_rewrite Hp. clear Hp.
  destruct (merge_sort _ _) as [|m l].
  - left. eexists. split; [done|]. intros m. apply not_elem_of_nil.
  - right. do 3 eexists. split; [done|]. split; [left|]. split; [|done].
    intros m' [->|Hm']%elem_of_cons.
    + destruct (rank_le_total (reqKind req) m m); done.
    + apply StronglySorted_inv in Hs as [_ Hf]. rewrite Forall_forall in Hf. by apply Hf.
Qed.

(** A requirement is resolved exactly when some registered adapter is compatible with it -- a
    data adapter on the chain that produces the data kind with enough trust, known freshness within
    the limit, and a confidential placement where one is required; the adapter chosen is such a one, no
    compatible adapter offers more trust, none of equal trust is typically fresher, and a fallback is
    passed on only if it is registered and trusted enough.  Otherwise the answer is
    NO_COMPATIBLE_ADAPTER. *)
Theorem resolveDataRequirement_spec (r : AdapterRegistry) (req : DataRequirement) :
  match resolveDataRequirement r req with
  | NO_COMPATIBLE_ADAPTER _ => forall m, ~ provides req r m
  | Selected sel _ =>
      exists m, provides req r m /\ s_adapterId sel = id m /\ s_adapterVersion sel = version m /\
        s_trustClass sel = offeredTrust (reqKind req) m /\
        trustRank (minimumTrustClass req) <= trustRank (s_trustClass sel) /\
        (forall m', provides req r m' -> let t' := trustRank (offeredTrust (reqKind req) m') in
           t' <= trustRank (s_trustClass sel) /\ (t' = trustRank (s_trustClass sel) -> typical m <= typical m')) /\
        (forall f, s_fallback sel = Some f -> fallback req = Some f /\
           exists e, resolve (f_adapterId f) (f_adapterVersion f) r = Some e /\
             trustRank (allowedTrust f) <= trustRank (offeredTrust (reqKind req) (manifest e)))
  end.
Proof.
  destruct (resolve_cases r req) as [(rej & -> & Hn)|(sel & rej & m & -> & Hp & Hm & ->)]; [done|].
  exists m. simpl. pose proof (proj2 Hp) as (_ & (_ & _ & Ht%satisfiesTrust_iff & _) & _)%isCompatible_iff.
  split_and!; try done.
  - intros m' Hp'%Hm%rank_le_iff. simpl in Hp'. lia.
  - intros f. unfold checkFallback. destruct (fallback req) as [g|]; [|done].
    destruct (resolve _ _ r) as [e|] eqn:E; [|done].
    destruct (satisfiesTrust _ _) eqn:Et; simpl; [|done]. intros [= <-].
    split; [done|]. exists e. by rewrite satisfiesTrust_iff in Et.
Qed.

(** A model's suggestion is honoured only when some adapter is compatible anyway, and the adapter it
    names is registered, on the chain, produces the kind with enough trust and is fresh enough; without a
    confidentiality requirement and for a data adapter it is compatible itself.  The fallback is
    unchanged. *)
Theorem suggestion_bounded (r : AdapterRegistry) (req : DataRequirement) (aid ver : string) sel rej :
  resolveWithSuggestion r req (Some (aid, ver)) = Ok (Selected sel rej) ->
  exists e base rej', resolve aid ver r = Some e /\ s_adapterId sel = id (manifest e) /\
    s_adapterVersion sel = version (manifest e) /\ serves req (manifest e) /\
    s_trustClass sel = offeredTrust (reqKind req) (manifest e) /\
    (confidential req = false -> adapterType (manifest e) ∈ DATA_ADAPTER_TYPES ->
       isCompatible req (manifest e) = true) /\
    resolveDataRequirement r req = Selected base rej' /\ s_fallback sel = s_fallback base.
Proof.
  unfold resolveWithSuggestion. destruct (resolve aid ver r) as [e|]; [|done].
  rewrite !throw_ok. intros (Hc & Hch & Ht & Hf & Hs & H).
  apply negb_false_iff, includes_true in Hch. apply negb_false_iff in Ht.
  assert (Hserves : serves req (manifest e)).
  { split_and!; try done; [by destruct (capabilityFor _ _)|].
    unfold freshEnough. rewrite Hf. simpl. destruct (typicalStalenessMs _); [by rewrite Hs|done]. }
  destruct (resolveDataRequirement r req) as [base rej'|]; [|done]. injection H as <- <-.
  exists e, base, rej'. split_and!; try done.
  intros Hcf Ht'. apply isCompatible_iff. split_and!; try done. by rewrite Hcf.
Qed.

(** *** Registration order does not matter *)

Lemma adapterId_refChar : re_within refChar adapterId = true.
Proof. vm_compute. reflexivity. Qed.

Lemma semver_refChar : re_within refChar semver = true.
Proof. vm_compute. reflexivity. Qed.

Lemma ref_of_ok isUrl m : manifestOk isUrl m = true -> all_chars refChar (adapterRef m) = true.
Proof.
  intros H. assert (matches adapterId (id m) = true /\ matches semver (version m) = true) as [Hi Hv].
  { unfold manifestOk in H. by repeat (apply andb_true_iff in H as [H ?]). }
  unfold adapterRef. rewrite !all_chars_app.
  rewrite (matched_chars refChar adapterId (id m) adapterId_refChar Hi).
  by rewrite (matched_chars refChar semver (version m) semver_refChar Hv).
Qed.

Lemma getRef_perm ref (r r' : AdapterRegistry) : NoDup r.*1 -> r ≡ₚ r' -> getRef ref r = getRef ref r'.
Proof.
  intros Hnd Hp. assert (Hin : forall l e, NoDup (l : AdapterRegistry).*1 -> (ref, e) ∈ l -> getRef ref l = Some e).
  { intros l e Hl Hle. destruct (getRef ref l) as [e'|] eqn:E.
    - apply getRef_in in E. f_equal. by assert ((ref, e') = (ref, e)) as [= ->]
        by (apply (NoDup_map_inj fst l); done).
    - apply getRef_None in E. destruct E. apply list_elem_of_fmap. by exists (ref, e). }
  destruct (getRef ref r) as [e|] eqn:E; symmetry.
  - apply Hin; [by rewrite <- Hp|]. rewrite <- Hp. by apply getRef_in.
  - apply getRef_None in E. apply getRef_None. by rewrite <- Hp.
Qed.

Lemma listed_perm isUrl r r' : registryOk isUrl r -> r ≡ₚ r' -> listed localeCompare r = listed localeCompare r'.
Proof.
  intros [Hnd Hf] Hp. rewrite Forall_forall in Hf.
  apply (StronglySorted_unique_strong (ref_le localeCompare)).
  - intros a b Ha Hb Hab Hba. apply listed_in in Ha as (p & Hpr & ->), Hb as (q & Hqr & ->).
    rewrite <- Hp in Hqr.
    destruct (Hf p Hpr) as (Hp1 & (_ & Hpm & _)%verifyManifest_ok & _).
    destruct (Hf q Hqr) as (Hq1 & (_ & Hqm & _)%verifyManifest_ok & _).
    assert (p = q) as ->; [|done]. apply (NoDup_map_inj fst r); try done.
    rewrite Hp1, Hq1. apply collation_refs; try done; by eapply ref_of_ok.
  - apply StronglySorted_merge_sort; apply _.
  - apply StronglySorted_merge_sort; apply _.
  - unfold listed. by rewrite !merge_sort_Permutation, Hp.
Qed.

(** The outcome, rejections included, does not depend on the order in which the adapters of a
    registry were registered. *)
Theorem resolve_order_independent (isUrl : string -> bool) (es : list RegisteredAdapter) (r' : AdapterRegistry)
    (req : DataRequirement) (sg : option (string * string)) :
  registerAll isUrl es [] ≡ₚ r' ->
  resolveDataRequirement r' req = resolveDataRequirement (registerAll isUrl es []) req /\
  resolveWithSuggestion r' req sg = resolveWithSuggestion (registerAll isUrl es []) req sg.
Proof.
  intros Hp. destruct (registerAll_grows isUrl es [] (registryOk_nil isUrl)) as [Hr _].
  assert (He : resolveDataRequirement r' req = resolveDataRequirement (registerAll isUrl es []) req).
  { unfold resolveDataRequirement, checkFallback, resolve. rewrite (listed_perm isUrl _ r' Hr Hp).
    destruct (fallback req); [|done]. by rewrite (getRef_perm _ _ r' (proj1 Hr) Hp). }
  split; [done|]. unfold resolveWithSuggestion, resolve. rewrite He.
  destruct sg as [[aid ver]|]; [|done]. by rewrite (getRef_perm _ _ r' (proj1 Hr) Hp).
Qed.

Lemma enforceRequirement_iff (req : DataRequirement) t fresh fb :
  enforceRequirement req t fresh fb = enforced <->
  trustRank (allowance req fb).1 <= trustRank t /\ exists age, fresh = Some age /\ age <= (allowance req fb).2.
Proof.
  unfold enforceRequirement. rewrite <- satisfiesTrust_iff.
  destruct (satisfiesTrust _ _); simpl; [|naive_solver].
  destruct fresh as [age|]; [|naive_solver].
  destruct (Z.ltb_spec (allowance req fb).2 age); split; try done.
  - intros (_ & a & [= <-] & ?). lia.
  - eauto.
Qed.

End resolver.

End Resolver.

Module Observation.
Import Trust Manifest.

Record Provenance := {
  p_provider : string;
  p_adapterId : string;
  p_adapterVersion : string;
  p_trustClass : DataTrustClass;
  p_sourceTimestamp : option string;
  p_freshnessMs : option Z;
  p_chainId : option Z;
  p_blockLag : option Z
}.

Record DataObservation := {
  observationId : string;
  o_dataKind : string;
  o_subject : option string;
  value : string;
  o_unit : string;
  decimals : Z;
  observedAt : string;
  provenance : Provenance
}.

(** The text of one observation. *)
Definition observationText (o : DataObservation) : string :=
  stringify (JObj
    [("k", JStr (o_dataKind o));
     ("s", JStr (default EmptyString (o_subject o)));
     ("v", JStr (value o));
     ("u", JStr (o_unit o));
     ("d", JNum (decimals o));
     ("t", JStr (default (observedAt o) (p_sourceTimestamp (provenance o))));
     ("a", JStr (p_adapterId (provenance o) +:+ "@" +:+ p_adapterVersion (provenance o)));
     ("c", JStr (trustName (p_trustClass (provenance o))))]).

Definition canonText (os : list DataObservation) : string :=
  String.concat "|" (merge_sort str_le (map observationText os)).

(** One round of FNV-1a on 32 bits. *)
Definition fnvStep (h : Z) (c : ascii) : Z :=
  (Z.lxor h (Z.of_N (N_of_ascii c)) * 0x01000193) mod 2 ^ 32.

Fixpoint fnv (h : Z) (s : string) : Z :=
  match s with
  | EmptyString => h
  | String c s' => fnv (fnvStep h c) s'
  end.

Definition hexDigit (z : Z) : ascii :=
  match String.get (Z.to_nat z) "0123456789abcdef" with Some c => c | None => "0"%char end.

(** The eight low hexadecimal digits: [h.toString(16).padStart(8, "0")] for [h < 2^32]. *)
Fixpoint hexPad (n : nat) (h : Z) : string :=
  match n with
  | O => EmptyString
  | S n' => hexPad n' (h / 16) +:+ String (hexDigit (h mod 16)) EmptyString
  end.

Definition commitObservations (os : list DataObservation) : string :=
  "0x" +:+ hexPad 8 (fnv 0x811c9dc5 (canonText os)).

(** [s.slice(n)]. *)
Definition sliceFrom (n : nat) (s : string) : string := String.substring n (String.length s - n) s.

Record ContextBundle := {
  bundleId : string;
  observations : list DataObservation;
  normalizedHash : string;
  createdAt : string
}.

Definition makeBundle (os : list DataObservation) (created : string) : ContextBundle :=
  {| bundleId := "ctx_" +:+ sliceFrom 2 (commitObservations os); observations := os;
     normalizedHash := commitObservations os; createdAt := created |}.

Definition provenanceOk (p : Provenance) : bool :=
  textMin 1 (p_provider p) && textMin 1 (p_adapterId p) && textMin 1 (p_adapterVersion p) &&
  match p_freshnessMs p with Some z => natInt z | None => true end &&
  match p_chainId p with Some z => posInt z | None => true end &&
  match p_blockLag p with Some z => natInt z | None => true end.

Definition observationOk (o : DataObservation) : bool :=
  textMin 1 (observationId o) && textMin 1 (o_dataKind o) &&
  (0 <=? decimals o) && (decimals o <=? 36) && provenanceOk (provenance o).

Inductive MissingProvenance := malformed | claimsAnother.

Definition assertUsableObservation (o : DataObservation) (aid : string)
    : result MissingProvenance DataObservation :=
  throw malformed when negb (observationOk o) ;;
  throw claimsAnother when negb (streq (p_adapterId (provenance o)) aid) ;;
  Ok o.


(** *** The commitment *)

Lemma fnv_range h s : 0 <= h < 2 ^ 32 -> 0 <= fnv h s < 2 ^ 32.
Proof.
  revert h. induction s as [|c s IH]; intros h Hh; [done|]. apply IH.
  unfold fnvStep. apply Z.mod_pos_bound. done.
Qed.

(** [hexPad] reads back: the digits are those of the number. *)
Definition hexValue (c : ascii) : Z :=
  default 0 (Z.of_nat <$> String.index 0 (String c EmptyString) "0123456789abcdef").

Fixpoint parseHex (acc : Z) (s : string) : Z :=
  match s with
  | EmptyString => acc
  | String c s' => parseHex (acc * 16 + hexValue c) s'
  end.

Lemma hexValue_digit z : 0 <= z < 16 -> hexValue (hexDigit z) = z.
Proof.
  intros Hz. assert (Hall : forallb (fun n => Z.eqb (hexValue (hexDigit (Z.of_nat n))) (Z.of_nat n)) (seq 0 16) = true)
    by (vm_compute; reflexivity).
  rewrite forallb_forall in Hall. specialize (Hall (Z.to_nat z)).
  rewrite Z2Nat.id in Hall by lia. apply Z.eqb_eq, Hall, in_seq. lia.
Qed.

Lemma parseHex_app acc u v : parseHex acc (u +:+ v) = parseHex (parseHex acc u) v.
Proof.
  revert acc. induction u as [|c u IH]; intros acc; [by rewrite str_app_nil|].
  rewrite str_app_cons. simpl. apply IH.
Qed.

Lemma parseHex_hexPad n h : 0 <= h < 16 ^ Z.of_nat n -> parseHex 0 (hexPad n h) = h.
Proof.
  revert h. induction n as [|n IH]; intros h Hh; [simpl in *; lia|].
  rewrite Nat2Z.inj_succ, Z.pow_succ_r in Hh by lia. cbn [hexPad]. rewrite parseHex_app, IH.
  - simpl. rewrite hexValue_digit by (apply Z.mod_pos_bound; lia).
    pose proof (Z.div_mod h 16). lia.
  - split; [apply Z.div_pos; lia|apply Z.div_lt_upper_bound; lia].
Qed.

Lemma hexPad_inj n g h : 0 <= g < 16 ^ Z.of_nat n -> 0 <= h < 16 ^ Z.of_nat n -> hexPad n g = hexPad n h -> g = h.
Proof. intros Hg Hh E. by rewrite <- (parseHex_hexPad n g Hg), <- (parseHex_hexPad n h Hh), E. Qed.

Lemma observations_perm os os' : os ≡ₚ os' -> canonText os = canonText os'.
Proof. intros Hp. unfold canonText. f_equal. apply sort_strings_perm. by apply fmap_Permutation. Qed.

(** The commitment to a set of observations has ten characters, does not depend on their order, and
    two sets have one commitment exactly when the 32-bit FNV-1a hashes of their canonical texts agree. *)
Theorem commitObservations_spec (os os' : list DataObservation) :
  String.length (commitObservations os) = 10%nat /\
  (os ≡ₚ os' -> commitObservations os = commitObservations os') /\
  (commitObservations os = commitObservations os' <->
   fnv 0x811c9dc5 (canonText os) = fnv 0x811c9dc5 (canonText os')) /\
  normalizedHash (makeBundle os "now") = commitObservations os.
Proof.
  split; [done|]. split; [|split; [|done]]; unfold commitObservations.
  - intros Hp. by rewrite (observations_perm _ _ Hp).
  - split; [|by intros ->]. intros H%Json.app_inv_head. apply (hexPad_inj 8); try done; apply fnv_range; lia.
Qed.

(** Thirty-two bits do not bind: two observations that differ in nothing but the price. *)
Definition priced (v : string) : DataObservation :=
  {| observationId := "o1"; o_dataKind := "price"; o_subject := Some "ETH"; value := v;
     o_unit := "usd"; decimals := 8; observedAt := "T";
     provenance := {| p_provider := "p"; p_adapterId := "a"; p_adapterVersion := "1";
       p_trustClass := VERIFIED_ORACLE; p_sourceTimestamp := None; p_freshnessMs := Some 10;
       p_chainId := None; p_blockLag := None |} |}.

Lemma commit_collision :
  commitObservations [priced "300000412299"] = commitObservations [priced "300001522232"].
Proof. vm_compute. reflexivity. Qed.

End Observation.

Module Samples.
Import Trust Manifest Registry Resolver.

Definition sample (aid : string) (ty : AdapterType) (t : DataTrustClass) (pl : ExecutionPlacement) : RegisteredAdapter :=
  {| kind := data; declared := (aid, "1.0.0");
     manifest :=
       {| schemaVersion := "contextlock.adapter.manifest/v1"; id := aid; version := "1.0.0";
          adapterType := ty; name := "n"; description := "twenty characters here";
          provider := "p"; supportedChains := [11155111];
          capabilities := [{| capName := "PRICE"; capDescription := "d"; dataKind := Some "price";
                              capTrustClass := None |}];
          trustClass := t;
          freshnessSemantics := {| freshnessKind := reportTimestamp; typicalStalenessMs := Some 1000;
                                   exposesBlockLag := false |};
          auth := {| mode := none; requiredSecretNames := []; placement := authStudioBackend |};
          executionPlacement := pl;
          safety := {| decodesPreparedTransactions := false; supportsDryRun := false;
                       allowsArbitraryTarget := false; allowsArbitraryRecipient := false;
                       independentlyValidatesProviderOutput := false |};
          generatedModules := ["m.ts"]; simulationProviders := ["SIM"];
          securityAssertions := [{| assertionId := "AS-01"; statement := "s"; provenBy := ["t"] |}];
          officialDocs := ["https://d"] |} |}.

Definition anyUrl (s : string) : bool := starts_with "https://" s.

Definition oracle : RegisteredAdapter := sample "oracle" VERIFIED_MARKET_DATA VERIFIED_ORACLE creConfidential.
Definition indexer : RegisteredAdapter := sample "indexer" EXTERNAL_CONTEXT INDEXED_CHAIN_DATA studioBackend.

Definition sampleReq (conf : bool) : DataRequirement :=
  {| key := "ethUsd"; reqKind := "price"; subject := None; chainId := 11155111;
     minimumTrustClass := INDEXED_CHAIN_DATA; maxAgeMs := 60000; confidential := conf; historical := false;
     fallback := None |}.

Lemma registry_pinned_witness :
  exists e, resolve "oracle" "1.0.0" (registerAll anyUrl [indexer; oracle] []) = Some e /\
  resolve "oracle" "1.0.0" (registerAll anyUrl [oracle] (registerAll anyUrl [indexer; oracle] [])) = Some e.
Proof.
  exists oracle. split; [vm_compute; reflexivity|].
  refine (proj1 (registry_pinned anyUrl [indexer; oracle] [oracle] "oracle" "1.0.0" oracle _)).
  vm_compute. reflexivity.
Defined.

Lemma resolveDataRequirement_spec_witness : let r := registerAll anyUrl [indexer; oracle] [] in
  exists sel rej, resolveDataRequirement codeUnitCompare r (sampleReq true) = Selected sel rej /\
    s_adapterId sel = "oracle" /\ trustRank INDEXED_CHAIN_DATA <= trustRank (s_trustClass sel).
Proof.
  set (r := registerAll anyUrl [indexer; oracle] []).
  pose proof (resolveDataRequirement_spec codeUnitCompare r (sampleReq true)) as H.
  destruct (resolveDataRequirement codeUnitCompare r (sampleReq true)) as [sel rej|rej] eqn:E;
    vm_compute in E; [|discriminate E].
  injection E as <- <-. do 2 eexists. split; [reflexivity|]. split; [reflexivity|].
  destruct H as (m & _ & _ & _ & _ & H & _). exact H.
Defined.

Lemma suggestion_bounded_witness :
  exists e base rej', resolve "indexer" "1.0.0" (registerAll anyUrl [oracle; indexer] []) = Some e /\
    resolveDataRequirement codeUnitCompare (registerAll anyUrl [oracle; indexer] []) (sampleReq false) = Selected base rej' /\
    s_adapterId base = "oracle".
Proof.
  destruct (suggestion_bounded codeUnitCompare (registerAll anyUrl [oracle; indexer] []) (sampleReq false)
    "indexer" "1.0.0"
    {| s_key := "ethUsd"; s_adapterId := "indexer"; s_adapterVersion := "1.0.0";
       s_trustClass := INDEXED_CHAIN_DATA; s_fallback := None |} [])
    as (e & base & rej' & H1 & _ & _ & _ & _ & _ & H2 & _).
  { vm_compute. reflexivity. }
  exists e, base, rej'. split_and!; [done|done|].
  vm_compute in H2. injection H2 as <- _. reflexivity.
Defined.

Lemma resolve_order_independent_witness :
  resolveDataRequirement codeUnitCompare (registerAll anyUrl [indexer; oracle] []) (sampleReq false) =
  resolveDataRequirement codeUnitCompare (registerAll anyUrl [oracle; indexer] []) (sampleReq false).
Proof.
  refine (proj1 (resolve_order_independent codeUnitCompare anyUrl [oracle; indexer]
    (registerAll anyUrl [indexer; oracle] []) (sampleReq false) None _)).
  apply perm_swap.
Defined.

(** A suggestion is not held to the confidentiality requirement: the resolver alone picks the oracle
    and rejects the indexer, the suggestion selects the indexer. *)
Lemma suggestion_skips_confidentiality :
  let r := registerAll anyUrl [oracle; indexer] [] in
  (exists sel, resolveDataRequirement codeUnitCompare r (sampleReq true) =
     Selected sel [("indexer@1.0.0", notConfidential)] /\ s_adapterId sel = "oracle") /\
  (exists sel, resolveWithSuggestion codeUnitCompare r (sampleReq true) (Some ("indexer", "1.0.0")) =
     Ok (Selected sel [("indexer@1.0.0", notConfidential)]) /\ s_adapterId sel = "indexer").
Proof. split; eexists; (split; [vm_compute; reflexivity|reflexivity]). Qed.

End Samples.
