(* ===== verification/Strategy.v ===== *)
(** * Strategies: units, the strategy document, the compiler

    [packages/studio-strategy/src].  [Units] is [units.ts], typed quantities and their conversions.
    [Ir] is [ir.ts], the document a model proposes.  [Compiler] is [compiler.ts]: provenance, the
    topological loop over the transforms, and the checks of decisions and actions.  [Scenarios] is
    [simulations.ts].

    A problem is its code, severity and path; message texts are left out.  Provenance is a finite map:
    a reference that spells a property every JavaScript object inherits ([toString], say) is outside of
    the model.  The loop over the transforms has fuel, the number of transforms; [resolve_settled]
    shows that it has always finished by then. *)

From S2P Require Import Prelude Regex Json Network Adapters.
From stdpp Require Import pretty sorting.
From Stdlib Require Import Ascii.
Local Open Scope Z_scope.

Module Units.

Inductive UnitKind :=
| TOKEN_AMOUNT | USD_VALUE | PRICE | PERCENT | BASIS_POINTS
| HEALTH_FACTOR | TIMESTAMP | BLOCK_NUMBER | COUNT | BOOLEAN.
#[export] Instance UnitKind_eq_dec : EqDecision UnitKind.
Proof. solve_decision. Defined.

Definition kindName (k : UnitKind) : string :=
  match k with
  | TOKEN_AMOUNT => "TOKEN_AMOUNT" | USD_VALUE => "USD_VALUE" | PRICE => "PRICE" | PERCENT => "PERCENT"
  | BASIS_POINTS => "BASIS_POINTS" | HEALTH_FACTOR => "HEALTH_FACTOR" | TIMESTAMP => "TIMESTAMP"
  | BLOCK_NUMBER => "BLOCK_NUMBER" | COUNT => "COUNT" | BOOLEAN => "BOOLEAN"
  end.

Record Unit := unit { kind : UnitKind; decimals : Z; subject : option string }.

(** [UnitSchema]. *)
Definition unitOk (u : Unit) : bool := (0 <=? decimals u) && (decimals u <=? 36).

Module UNITS.
Definition usd : Unit := unit USD_VALUE 8 (Some "USD").
Definition usdCents : Unit := unit USD_VALUE 2 (Some "USD").
Definition healthFactor : Unit := unit HEALTH_FACTOR 18 None.
Definition bps : Unit := unit BASIS_POINTS 4 None.
Definition percent : Unit := unit PERCENT 2 None.
Definition count : Unit := unit COUNT 0 None.
Definition timestamp : Unit := unit TIMESTAMP 0 None.
Definition blockNumber : Unit := unit BLOCK_NUMBER 0 None.
Definition token (symbol : string) (d : Z) : Unit := unit TOKEN_AMOUNT d (Some symbol).
Definition price (quote : string) (d : Z) : Unit := unit PRICE d (Some quote).
End UNITS.

(** What the conversions throw: a [UnitMismatchError] with its code, any other [Error], or the
    [RangeError] of a negative [bigint] exponent. *)
Inductive UnitError := Mismatch (code : string) | Plain | NegativeExponent.

(** [u.subject ?? ""]. *)
Definition subjectOr (u : Unit) : string := default EmptyString (subject u).

Definition describeUnit (u : Unit) : string :=
  kindName (kind u) +:+
  (if streq (subjectOr u) EmptyString then EmptyString else "<" +:+ subjectOr u +:+ ">") +:+
  "@" +:+ pretty (decimals u) +:+ "dp".

Definition unitsEqual (a b : Unit) : bool :=
  bool_decide (kind a = kind b) && (decimals a =? decimals b) && streq (subjectOr a) (subjectOr b).

Definition assertComparable (a b : Unit) : result UnitError Datatypes.unit :=
  throw Mismatch "STRAT-UNIT-KIND" when negb (bool_decide (kind a = kind b)) ;;
  throw Mismatch "STRAT-UNIT-SUBJECT" when negb (streq (subjectOr a) (subjectOr b)) ;;
  throw Mismatch "STRAT-UNIT-SCALE" when negb (decimals a =? decimals b) ;;
  Ok tt.

Definition assertAddable (a b : Unit) : result UnitError Datatypes.unit :=
  let* _ := assertComparable a b in
  throw Mismatch "STRAT-UNIT-ADD" when includes [HEALTH_FACTOR; BLOCK_NUMBER; BOOLEAN] (kind a) ;;
  Ok tt.

Record TypedValue := typed { value : Z; vunit : Unit }.

(** [bigint] division truncates toward zero. *)
Definition rescale (v : TypedValue) (d : Z) : TypedValue :=
  let u := unit (kind (vunit v)) d (subject (vunit v)) in
  if d =? decimals (vunit v) then v
  else if decimals (vunit v) <? d then typed (value v * 10 ^ (d - decimals (vunit v))) u
  else typed (Z.quot (value v) (10 ^ (decimals (vunit v) - d))) u.

Definition tokenToUsd (amount price : TypedValue) (outDecimals : Z) : result UnitError TypedValue :=
  throw Mismatch "STRAT-UNIT-CONVERT" when negb (bool_decide (kind (vunit amount) = TOKEN_AMOUNT)) ;;
  throw Mismatch "STRAT-UNIT-CONVERT" when negb (bool_decide (kind (vunit price) = PRICE)) ;;
  throw NegativeExponent when decimals (vunit amount) <? 0 ;;
  let raw := Z.quot (value amount * value price) (10 ^ decimals (vunit amount)) in
  Ok (rescale
    (typed raw (unit USD_VALUE (decimals (vunit price)) (Some (default "USD" (subject (vunit price))))))
    outDecimals).

Definition ratioToBps (part whole : TypedValue) : result UnitError TypedValue :=
  let* _ := assertComparable (vunit part) (vunit whole) in
  throw Mismatch "STRAT-UNIT-DIVZERO" when value whole =? 0 ;;
  Ok (typed (Z.quot (value part * 10000) (value whole)) UNITS.bps).

Definition percentToBps (p : TypedValue) : result UnitError TypedValue :=
  throw Mismatch "STRAT-UNIT-CONVERT" when negb (bool_decide (kind (vunit p) = PERCENT)) ;;
  throw NegativeExponent when decimals (vunit p) <? 0 ;;
  Ok (typed (Z.quot (value p * 10000) (100 * 10 ^ decimals (vunit p))) UNITS.bps).

(** *** Laws of units *)

Lemma assertComparable_iff a b : assertComparable a b = Ok tt <-> unitsEqual a b = true.
Proof.
  unfold assertComparable, unitsEqual. rewrite !throw_ok, !negb_false_iff, !andb_true_iff. tauto.
Qed.

Lemma unitsEqual_iff a b : unitsEqual a b = true <->
  kind a = kind b /\ decimals a = decimals b /\ subjectOr a = subjectOr b.
Proof. unfold unitsEqual. rewrite !andb_true_iff, bool_decide_eq_true, Z.eqb_eq, streq_true. tauto. Qed.

#[export] Instance unitsEqual_equivalence : Equivalence (fun a b => unitsEqual a b = true).
Proof.
  split; [intros a|intros a b|intros a b c]; rewrite !unitsEqual_iff; naive_solver congruence.
Qed.

Lemma assertAddable_iff a b : assertAddable a b = Ok tt <->
  unitsEqual a b = true /\ kind a ∉ [HEALTH_FACTOR; BLOCK_NUMBER; BOOLEAN].
Proof.
  unfold assertAddable. rewrite <- assertComparable_iff.
  destruct (assertComparable a b) as [[]|e]; cbn [rbind]; [|naive_solver].
  rewrite throw_ok, includes_false. naive_solver.
Qed.

Lemma rescale_unit v d : vunit (rescale v d) =
  if d =? decimals (vunit v) then vunit v else unit (kind (vunit v)) d (subject (vunit v)).
Proof. unfold rescale. by destruct (d =? _), (decimals (vunit v) <? d). Qed.

(** C40: rescaling to more decimals and back gives the value back; to fewer and back, the value cut
    toward zero to a multiple of the power of ten dropped, so that it never grows in size and loses less
    than one unit of the coarser scale. *)
Theorem rescale_roundtrip (v : TypedValue) (d : Z) :
  let back := rescale (rescale v d) (decimals (vunit v)) in
  let k := 10 ^ (decimals (vunit v) - d) in
  vunit back = vunit v /\
  (decimals (vunit v) <= d -> back = v) /\
  (d < decimals (vunit v) -> value v - value back = Z.rem (value v) k /\
     Z.abs (value back) <= Z.abs (value v) < Z.abs (value back) + k).
Proof.
  destruct v as [x [k0 e sb]]. unfold rescale. simpl.
  destruct (Z.eqb_spec d e) as [->|Hne]; simpl.
  { rewrite Z.eqb_refl. split_and!; try done. lia. }
  destruct (Z.ltb_spec e d) as [Hlt|Hge]; simpl.
  - destruct (Z.eqb_spec e d); [lia|]. destruct (Z.ltb_spec d e); [lia|]. simpl.
    rewrite Z.quot_mul by (apply Z.pow_nonzero; lia). split_and!; try done. lia.
  - destruct (Z.eqb_spec e d); [lia|]. destruct (Z.ltb_spec d e); [|lia]. simpl.
    split; [done|]. split; [lia|]. intros _.
    pose proof (Z.pow_pos_nonneg 10 (e - d)) as Hk. assert (Hk' : 0 < 10 ^ (e - d)) by (apply Hk; lia).
    pose proof (Z.quot_rem' x (10 ^ (e - d))) as Hq.
    pose proof (Z.rem_bound_abs x (10 ^ (e - d))) as Hr.
    pose proof (Z.rem_sign_mul x (10 ^ (e - d))) as Hs.
    split; [lia|]. destruct (Z_le_gt_dec 0 x) as [Hx|Hx].
    + pose proof (Z.rem_nonneg x (10 ^ (e - d))). pose proof (Z.quot_pos x (10 ^ (e - d))). lia.
    + pose proof (Z.rem_nonpos x (10 ^ (e - d))).
      pose proof (Z.quot_pos (- x) (10 ^ (e - d))). rewrite Z.quot_opp_l in * by lia. lia.
Qed.

End Units.

Module Ir.
Import Units Adapters.Trust.

Record StrategyInput := {
  i_id : string;
  requirementKey : string;
  i_dataKind : string;
  i_unit : Unit;
  minimumTrustClass : DataTrustClass;
  maxAgeMs : Z
}.

Inductive TransformOp := TOKEN_TO_USD | RATIO_TO_BPS | SUM | DIFFERENCE | PERCENT_TO_BPS | RESCALE.
#[export] Instance TransformOp_eq_dec : EqDecision TransformOp.
Proof. solve_decision. Defined.

Record Transform := {
  t_id : string;
  op : TransformOp;
  t_inputs : list string;
  toDecimals : option Z
}.

Inductive OperandNode :=
| Oref (id : string)
| Oliteral (value : string) (u : Unit).

Inductive CompareOp := LT | LTE | GT | GTE | EQ | NEQ.

Inductive ConditionNode :=
| Ccompare (o : CompareOp) (left right : OperandNode)
| Cand (children : list ConditionNode)
| Cor (children : list ConditionNode)
| Cnot (child : ConditionNode).

Record Decision := {
  d_id : string;
  when_ : ConditionNode;
  actionRef : string;
  autonomousMaxUsdCents : option Z;
  escalationMaxUsdCents : option Z
}.

Inductive RecipientPolicy := selfOnly | allowList.

Record StrategyAction := {
  a_id : string;
  capability : string;
  actionKind : string;
  spendsAsset : option string;
  recipientPolicy : RecipientPolicy;
  chainId : option Z
}.

Inductive RequiredBefore := BUILD | DEPLOY.
#[export] Instance RequiredBefore_eq_dec : EqDecision RequiredBefore.
Proof. solve_decision. Defined.

Record UnknownRequirement := { u_field : string; u_reason : string; requiredBefore : RequiredBefore }.

Inductive TriggerKind := threshold | schedule | evmEvent | manual.
Record Trigger := { g_id : string; g_kind : TriggerKind }.

Record Strategy := {
  schemaVersion : string;
  planId : string;
  revision : Z;
  triggers : list Trigger;
  inputs : list StrategyInput;
  transforms : list Transform;
  decisions : list Decision;
  actions : list StrategyAction;
  unknowns : list UnknownRequirement;
  invariants : list (string * string);
  requiresCapability : list string
}.

(** [/^[a-z][a-z0-9-]{1,63}$/]. *)
Definition idRe : re := Cat (Chr lower) (repBetween 1 63 (Chr Manifest.kebab)).
Definition idOk (s : string) : bool := matches idRe s.

Definition literalRe : re := DIGITS.

Definition operandOk (o : OperandNode) : bool :=
  match o with
  | Oref _ => true
  | Oliteral v u => matches literalRe v && unitOk u
  end.

Fixpoint conditionOk (c : ConditionNode) : bool :=
  match c with
  | Ccompare _ l r => operandOk l && operandOk r
  | Cand cs | Cor cs => (2 <=? length cs)%nat && forallb conditionOk cs
  | Cnot c' => conditionOk c'
  end.

Definition inputOk (i : StrategyInput) : bool := idOk (i_id i) && unitOk (i_unit i) && Manifest.posInt (maxAgeMs i).

Definition transformOk (t : Transform) : bool :=
  idOk (t_id t) && Manifest.nonempty (t_inputs t) &&
  match toDecimals t with Some d => (0 <=? d) && (d <=? 36) | None => true end.

Definition limitOk (l : option Z) : bool := match l with Some z => Manifest.natInt z | None => true end.

Definition decisionOk (d : Decision) : bool :=
  idOk (d_id d) && conditionOk (when_ d) && limitOk (autonomousMaxUsdCents d) && limitOk (escalationMaxUsdCents d).

Definition actionOk (a : StrategyAction) : bool :=
  idOk (a_id a) && match chainId a with Some c => Manifest.posInt c | None => true end.

(** [StrategySchema] on a document of the right shape. *)
Definition strategyOk (s : Strategy) : bool :=
  streq (schemaVersion s) "contextlock.strategy/v1" && Manifest.posInt (revision s) &&
  Manifest.nonempty (triggers s) && every (fun g => idOk (g_id g)) (triggers s) &&
  every inputOk (inputs s) && every transformOk (transforms s) &&
  Manifest.nonempty (decisions s) && every decisionOk (decisions s) &&
  Manifest.nonempty (actions s) && every actionOk (actions s) &&
  every (streq "REQUIRES_P19_CAPABILITY") (requiresCapability s).

End Ir.

Module Compiler.
Import Units Ir Adapters.Trust.

Inductive Severity := CRITICAL | HIGH | MEDIUM | LOW.
#[export] Instance Severity_eq_dec : EqDecision Severity.
Proof. solve_decision. Defined.

Record CompileProblem := P { code : string; severity : Severity; path : string }.

Record NodeProvenance := {
  unit_ : Unit;
  trustClass : DataTrustClass;
  age : Z;
  dependsOn : list string
}.

Record CompileResult := {
  ok : bool;
  buildable : bool;
  problems : list CompileProblem;
  provenance : gmap string NodeProvenance;
  order : list string;
  r_unknowns : list UnknownRequirement;
  r_requiresCapability : list string
}.

Definition propagateTrust (l : list DataTrustClass) : DataTrustClass :=
  match l with
  | [] => USER_UNTRUSTED
  | c :: l' => foldl (fun weakest c => if trustRank c <? trustRank weakest then c else weakest) c l'
  end.

Definition propagateFreshness (l : list Z) : Z :=
  match l with
  | [] => 0
  | x :: l' => foldl Z.max x l'
  end.

Definition errorCode (e : UnitError) : string :=
  match e with Mismatch c => c | _ => "STRAT-UNIT-INVALID" end.

Fixpoint assertAllAddable (first : Unit) (rest : list Unit) : result UnitError Datatypes.unit :=
  match rest with
  | [] => Ok tt
  | r :: rest' => let* _ := assertAddable first r in assertAllAddable first rest'
  end.

Definition transformOutputUnit (o : TransformOp) (us : list Unit) (d : option Z) : result UnitError Unit :=
  match o with
  | TOKEN_TO_USD =>
      match us with
      | [a; p] => let* out := tokenToUsd (typed 1 a) (typed 1 p) 8 in Ok (vunit out)
      | _ => Err Plain
      end
  | RATIO_TO_BPS =>
      match us with
      | [a; b] => let* out := ratioToBps (typed 1 a) (typed 1 b) in Ok (vunit out)
      | _ => Err Plain
      end
  | PERCENT_TO_BPS =>
      match us with
      | u :: _ => if bool_decide (kind u = PERCENT) then Ok UNITS.bps else Err Plain
      | [] => Err Plain
      end
  | SUM | DIFFERENCE =>
      match us with
      | [] => Err Plain
      | first :: rest => let* _ := assertAllAddable first rest in Ok first
      end
  | RESCALE =>
      match us, d with
      | first :: _, Some n => Ok (vunit (rescale (typed 1 first) n))
      | _, _ => Err Plain
      end
  end.

(** The write fence on every action that names a chain. *)
Definition fenceProblems (s : Strategy) : list CompileProblem :=
  flat_map (fun a =>
    match chainId a with
    | None => []
    | Some c =>
        match Fences.fenceWrite Fences.STRATEGY_COMPILER
                (Fences.testnetRef c) Roles.PUBLIC_WRITE with
        | Ok _ => []
        | Err _ => [P "STRAT-NETWORK" CRITICAL ("actions." +:+ a_id a +:+ ".chainId")]
        end
    end) (actions s).

(** The working state of the compilation: what the loops over inputs and transforms change. *)
Record Work := {
  prov : gmap string NodeProvenance;
  ord : list string;
  probs : list CompileProblem;
  pending : list (string * Transform)
}.

Definition declared (i : StrategyInput) : NodeProvenance :=
  {| unit_ := i_unit i; trustClass := minimumTrustClass i; age := maxAgeMs i; dependsOn := [] |}.

Definition addInput (acc : gmap string NodeProvenance * list CompileProblem) (i : StrategyInput) :=
  match acc.1 !! i_id i with
  | Some _ => (acc.1, acc.2 ++ [P "STRAT-DUP-ID" CRITICAL ("inputs." +:+ i_id i)])
  | None => (<[i_id i := declared i]> acc.1, acc.2)
  end.

Definition addInputs (l : list StrategyInput) : gmap string NodeProvenance * list CompileProblem :=
  foldl addInput (∅, []) l.

(** [new Map(entries)]: a repeated key keeps its place and takes the last value. *)
Fixpoint mapSet (k : string) (t : Transform) (m : list (string * Transform)) : list (string * Transform) :=
  match m with
  | [] => [(k, t)]
  | p :: m' => if streq p.1 k then (k, t) :: m' else p :: mapSet k t m'
  end.

Definition mapOf (l : list Transform) : list (string * Transform) :=
  foldl (fun m t => mapSet (t_id t) t m) [] l.

Definition known (pv : gmap string NodeProvenance) (x : string) : bool :=
  match pv !! x with Some _ => true | None => false end.

(** [t.inputs.map((dep) => provenance[dep]!)]. *)
Definition inputsOf (pv : gmap string NodeProvenance) (t : Transform) : list NodeProvenance :=
  omap (fun d => pv !! d) (t_inputs t).

Definition nodeOf (pv : gmap string NodeProvenance) (tid : string) (t : Transform)
    : NodeProvenance * list CompileProblem :=
  match transformOutputUnit (op t) (map unit_ (inputsOf pv t)) (toDecimals t) with
  | Err e =>
      ({| unit_ := UNITS.count; trustClass := USER_UNTRUSTED; age := 0; dependsOn := t_inputs t |},
       [P (errorCode e) CRITICAL ("transforms." +:+ tid)])
  | Ok u =>
      ({| unit_ := u; trustClass := propagateTrust (map trustClass (inputsOf pv t));
          age := propagateFreshness (map age (inputsOf pv t)); dependsOn := t_inputs t |}, [])
  end.

(** Record the provenance of a transform all of whose inputs are known. *)
Definition resolveOne (w : Work) (p : string * Transform) : Work :=
  let n := nodeOf (prov w) p.1 p.2 in
  {| prov := <[p.1 := n.1]> (prov w); ord := ord w ++ [p.1]; probs := probs w ++ n.2;
     pending := List.filter (fun q => negb (streq q.1 p.1)) (pending w) |}.

(** The body of the inner loop: the new state, and whether the transform was resolved. *)
Definition visit (w : Work * bool) (p : string * Transform) : Work * bool :=
  if negb (every (known (prov w.1)) (t_inputs p.2)) then w else (resolveOne w.1 p, true).

Definition pass (w : Work) : Work * bool := foldl visit (w, false) (pending w).

(** [while (pending.size > 0 && progressed)]. *)
Fixpoint settle (fuel : nat) (w : Work * bool) : Work * bool :=
  match fuel with
  | O => w
  | S n =>
      match pending w.1 with
      | [] => w
      | _ => if w.2 then settle n (pass w.1) else w
      end
  end.

Definition startWork (s : Strategy) : Work :=
  {| prov := (addInputs (inputs s)).1; ord := map i_id (inputs s); probs := (addInputs (inputs s)).2;
     pending := mapOf (transforms s) |}.

Definition resolve (s : Strategy) : Work * bool :=
  settle (length (mapOf (transforms s))) (startWork s, true).

(** What is still pending afterwards: unknown references, and the rest, reported as a cycle. *)
Definition missingRefs (w : Work) (t : Transform) : list string :=
  List.filter (fun d => negb (known (prov w) d) && negb (includes (map fst (pending w)) d)) (t_inputs t).

Definition stuckProblems (w : Work) : list CompileProblem :=
  let unresolvable := List.filter (fun p => Manifest.nonempty (missingRefs w p.2)) (pending w) in
  let cyclic := List.filter (fun p => negb (Manifest.nonempty (missingRefs w p.2))) (pending w) in
  map (fun p => P "STRAT-UNKNOWN-REF" CRITICAL ("transforms." +:+ p.1)) unresolvable ++
  if Manifest.nonempty cyclic then [P "STRAT-CYCLE" CRITICAL "transforms"] else [].

(** *** Conditions *)

Definition literalProvenance (u : Unit) : NodeProvenance :=
  {| unit_ := u; trustClass := CONFIDENTIAL_VERIFIED_COMPUTE; age := 9007199254740991; dependsOn := [] |}.

Definition operandProvenance (pv : gmap string NodeProvenance) (o : OperandNode) : option NodeProvenance :=
  match o with
  | Oliteral _ u => Some (literalProvenance u)
  | Oref x => pv !! x
  end.

Definition operandProblems (pv : gmap string NodeProvenance) (o : OperandNode) (path : string) : list CompileProblem :=
  match operandProvenance pv o with Some _ => [] | None => [P "STRAT-UNKNOWN-REF" CRITICAL path] end.

Definition compareProblems (pv : gmap string NodeProvenance) (l r : OperandNode) (path : string) : list CompileProblem :=
  operandProblems pv l (path +:+ ".left") ++ operandProblems pv r (path +:+ ".right") ++
  match operandProvenance pv l, operandProvenance pv r with
  | Some a, Some b =>
      match assertComparable (unit_ a) (unit_ b) with
      | Ok _ => []
      | Err e => [P (errorCode e) CRITICAL path]
      end
  | _, _ => []
  end.

Fixpoint checkCondition (pv : gmap string NodeProvenance) (c : ConditionNode) (path : string) : list CompileProblem :=
  let children (tag : string) := fix go (i : nat) (cs : list ConditionNode) : list CompileProblem :=
    match cs with
    | [] => []
    | c' :: cs' => checkCondition pv c' (path +:+ tag +:+ "[" +:+ pretty i +:+ "]") ++ go (S i) cs'
    end in
  match c with
  | Ccompare _ l r => compareProblems pv l r path
  | Cand cs => children ".and" O cs
  | Cor cs => children ".or" O cs
  | Cnot c' => checkCondition pv c' (path +:+ ".not")
  end.

Definition refOf (o : OperandNode) : list string := match o with Oref x => [x] | Oliteral _ _ => [] end.

(** The references of a condition, in order. *)
Fixpoint refsOf (c : ConditionNode) : list string :=
  match c with
  | Ccompare _ l r => refOf l ++ refOf r
  | Cand cs | Cor cs => flat_map refsOf cs
  | Cnot c' => refsOf c'
  end.

(** *** Decisions and actions *)

Definition actionIds (s : Strategy) : list string := map a_id (actions s).

Definition limitProblems (d : Decision) : list CompileProblem :=
  match autonomousMaxUsdCents d, escalationMaxUsdCents d with
  | None, None => [P "STRAT-UNBOUNDED-AMOUNT" CRITICAL ("decisions." +:+ d_id d)]
  | Some a, Some e => if e <? a then [P "STRAT-BAND-INVERTED" HIGH ("decisions." +:+ d_id d)] else []
  | _, _ => []
  end.

Definition trustProblems (s : Strategy) (pv : gmap string NodeProvenance) (d : Decision) : list CompileProblem :=
  match List.find (fun a => streq (a_id a) (actionRef d)) (actions s) with
  | None => []
  | Some _ =>
      flat_map (fun x =>
        match pv !! x with
        | None => []
        | Some p => if negb (satisfiesTrust (trustClass p) DIRECT_CHAIN_DATA)
                    then [P "STRAT-TRUST-FLOOR" CRITICAL ("decisions." +:+ d_id d)] else []
        end) (refsOf (when_ d))
  end.

Definition decisionProblems (s : Strategy) (pv : gmap string NodeProvenance) (d : Decision) : list CompileProblem :=
  checkCondition pv (when_ d) ("decisions." +:+ d_id d +:+ ".when") ++
  (if includes (actionIds s) (actionRef d) then []
   else [P "STRAT-UNKNOWN-ACTION" CRITICAL ("decisions." +:+ d_id d +:+ ".actionRef")]) ++
  limitProblems d ++ trustProblems s pv d.

(** [decidedActions]: the known actions some decision refers to. *)
Definition decidedActions (s : Strategy) : list string :=
  List.filter (includes (actionIds s)) (map actionRef (decisions s)).

(** The schema leaves no third recipient policy, so that check never fires. *)
Definition actionProblems (s : Strategy) (a : StrategyAction) : list CompileProblem :=
  (if includes (decidedActions s) (a_id a) then []
   else [P "STRAT-ACTION-NO-DECISION" CRITICAL ("actions." +:+ a_id a)]) ++
  match recipientPolicy a with selfOnly | allowList => [] end.

(** *** Unused nodes and unknowns *)

Definition referenced (s : Strategy) : list string :=
  flat_map (fun d => refsOf (when_ d)) (decisions s) ++ flat_map t_inputs (transforms s).

Definition unusedProblems (s : Strategy) : list CompileProblem :=
  flat_map (fun i => if includes (referenced s) (i_id i) then []
    else [P "STRAT-UNUSED-INPUT" MEDIUM ("inputs." +:+ i_id i)]) (inputs s) ++
  flat_map (fun t => if includes (referenced s) (t_id t) then []
    else [P "STRAT-UNUSED-TRANSFORM" MEDIUM ("transforms." +:+ t_id t)]) (transforms s).

Definition unknownProblems (s : Strategy) : list CompileProblem :=
  map (fun u => P "STRAT-UNKNOWN-LIMIT" CRITICAL (u_field u))
    (List.filter (fun u => bool_decide (requiredBefore u = BUILD)) (unknowns s)).

Definition allProblems (s : Strategy) (w : Work) : list CompileProblem :=
  fenceProblems s ++ probs w ++ stuckProblems w ++
  flat_map (decisionProblems s (prov w)) (decisions s) ++
  flat_map (actionProblems s) (actions s) ++ unusedProblems s ++ unknownProblems s.

Definition isCritical (p : CompileProblem) : bool := bool_decide (severity p = CRITICAL).
Definition isBlocking (p : CompileProblem) : bool := isCritical p || bool_decide (severity p = HIGH).

Definition compileStrategy (s : Strategy) : CompileResult :=
  if negb (strategyOk s) then
    {| ok := false; buildable := false; problems := [P "STRAT-SCHEMA" CRITICAL EmptyString];
       provenance := ∅; order := []; r_unknowns := []; r_requiresCapability := [] |}
  else
    let w := (resolve s).1 in
    let ps := allProblems s w in
    {| ok := negb (some isCritical ps); buildable := negb (some isBlocking ps); problems := ps;
       provenance := prov w; order := ord w; r_unknowns := unknowns s;
       r_requiresCapability := requiresCapability s |}.

Definition opText (o : CompareOp) : string :=
  match o with LT => "<" | LTE => "<=" | GT => ">" | GTE => ">=" | EQ => "==" | NEQ => "!=" end.

Definition sideText (o : OperandNode) : string :=
  match o with Oref x => x | Oliteral v u => v +:+ " " +:+ describeUnit u end.

Fixpoint describeCondition (c : ConditionNode) : string :=
  match c with
  | Ccompare o l r => sideText l +:+ " " +:+ opText o +:+ " " +:+ sideText r
  | Cand cs => "(" +:+ String.concat " AND " (map describeCondition cs) +:+ ")"
  | Cor cs => "(" +:+ String.concat " OR " (map describeCondition cs) +:+ ")"
  | Cnot c' => "NOT " +:+ describeCondition c'
  end.

(** *** The loop over the transforms *)

Definition blocked (w : Work) (p : string * Transform) : Prop := every (known (prov w)) (t_inputs p.2) = false.

Lemma known_true pv x : known pv x = true <-> is_Some (pv !! x).
Proof. unfold known. destruct (pv !! x); split; [eauto|done|done|by intros []]. Qed.

Lemma drop_key_in (k : string) (l : list (string * Transform)) p :
  p ∈ List.filter (fun q => negb (streq q.1 k)) l <-> p ∈ l /\ p.1 <> k.
Proof. rewrite !list_elem_of_In, filter_In, negb_true_iff, streq_false. done. Qed.

Lemma NoDup_drop_key (k : string) (l : list (string * Transform)) :
  NoDup l.*1 -> NoDup (List.filter (fun q => negb (streq q.1 k)) l).*1.
Proof. apply (filter_keys_NoDup (fun q => negb (streq q.1 k))). Qed.

(** An invariant of every resolution step is one of the whole loop. *)
Section induction.
Variable (Q : Work -> Prop).
Hypothesis Hstep : forall w p, Q w -> NoDup (pending w).*1 -> p ∈ pending w ->
  (forall d, d ∈ t_inputs p.2 -> is_Some (prov w !! d)) -> Q (resolveOne w p).

Lemma visits_ind l w : NoDup l.*1 -> (forall p, p ∈ l -> p ∈ pending w.1) -> NoDup (pending w.1).*1 -> Q w.1 ->
  Q (foldl visit w l).1 /\ NoDup (pending (foldl visit w l).1).*1.
Proof.
  revert w. induction l as [|p l IH]; intros w Hl Hsub Hnd HQ; [done|]. simpl.
  apply NoDup_cons in Hl as [Hp Hl]. unfold visit at 2 4.
  destruct (every (known (prov w.1)) (t_inputs p.2)) eqn:E; simpl.
  - apply IH; simpl; [done| |by apply NoDup_drop_key|].
    + intros q Hq. apply drop_key_in. split; [apply Hsub; by right|].
      intros Hqp. apply Hp. rewrite <- Hqp. by apply list_elem_of_fmap_2.
    + apply Hstep; [done|done|apply Hsub; by left|].
      intros d Hd. apply known_true. revert d Hd. by apply every_true.
  - apply IH; try done. intros q Hq. apply Hsub. by right.
Qed.

Lemma settle_ind n w : NoDup (pending w.1).*1 -> Q w.1 ->
  Q (settle n w).1 /\ NoDup (pending (settle n w).1).*1.
Proof.
  revert w. induction n as [|n IH]; intros w Hnd HQ; [done|]. simpl.
  destruct (pending w.1) as [|p l] eqn:E; [by rewrite E|]. rewrite <- E in *.
  destruct w.2; [|done]. unfold pass.
  destruct (visits_ind (pending w.1) (w.1, false) Hnd) as [H1 H2]; try done.
  by apply IH.
Qed.
End induction.

Lemma visits_true l w : (foldl visit (w, true) l).2 = true.
Proof.
  revert w. induction l as [|p l IH]; intros w; [done|]. simpl. unfold visit at 2. simpl.
  destruct (negb _); apply IH.
Qed.

(** A pass that makes no progress changes nothing: every pending transform waits for some input. *)
Lemma pass_idle w : (pass w).2 = false -> (pass w).1 = w /\ Forall (blocked w) (pending w).
Proof.
  unfold pass. generalize (pending w) as l. induction l as [|p l IH]; [done|]. simpl.
  unfold visit at 2 4. simpl. destruct (every _ _) eqn:E; simpl.
  - by rewrite visits_true.
  - intros H. destruct (IH H) as [-> Hf]. by split; [|constructor].
Qed.

Lemma drop_key_length (p : string * Transform) (l : list (string * Transform)) : p ∈ l ->
  (length (List.filter (fun q => negb (streq q.1 p.1)) l) < length l)%nat.
Proof.
  intros Hp. induction Hp as [p l|p q l Hp IH]; simpl.
  - rewrite streq_refl. simpl. pose proof (List.filter_length_le (fun q => negb (streq q.1 p.1)) l). lia.
  - destruct (negb _); simpl; lia.
Qed.

Lemma visits_shrink l w : (forall p, p ∈ l -> p ∈ pending w.1) ->
  NoDup l.*1 -> (length (pending (foldl visit w l).1) <= length (pending w.1))%nat /\
  ((foldl visit w l).2 = true -> w.2 = true \/ (length (pending (foldl visit w l).1) < length (pending w.1))%nat).
Proof.
  revert w. induction l as [|p l IH]; intros w Hsub Hnd; [by split; [|left]|]. simpl.
  apply NoDup_cons in Hnd as [Hp Hnd]. unfold visit at 2 4 6. destruct (every _ _); simpl.
  - pose proof (drop_key_length p (pending w.1) (Hsub p (list_elem_of_here _ _))).
    destruct (IH (resolveOne w.1 p, true)) as [H1 _]; [|done|].
    + intros q Hq. simpl. apply drop_key_in. split; [apply Hsub; by right|].
      intros Hqp. apply Hp. rewrite <- Hqp. by apply list_elem_of_fmap_2.
    + simpl in H1. split; [lia|]. intros _. right. lia.
  - apply IH; [|done]. intros q Hq. apply Hsub. by right.
Qed.

Definition settled (w : Work) : Prop := Forall (blocked w) (pending w).

Lemma settle_idle n w : settle n (w, false) = (w, false).
Proof. destruct n; simpl; [done|]. by destruct (pending w). Qed.

Lemma settle_settled n w : (length (pending w) <= n)%nat -> NoDup (pending w).*1 -> settled (settle n (w, true)).1.
Proof.
  revert w. induction n as [|n IH]; intros w Hn Hnd.
  { destruct (pending w) eqn:E; [|simpl in Hn; lia]. unfold settled. simpl. rewrite E. constructor. }
  simpl. destruct (pending w) as [|p l] eqn:E; [unfold settled; simpl; rewrite E; constructor|].
  rewrite <- E in *. destruct (pass w) as [w' b] eqn:Ep.
  destruct b.
  - destruct (visits_shrink (pending w) (w, false)) as [_ Hs]; [done|done|].
    destruct (visits_ind (fun _ => True) (fun _ _ _ _ _ _ => I) (pending w) (w, false)) as [_ Hnd']; try done.
    unfold pass in Ep. rewrite Ep in *. simpl in *. destruct (Hs eq_refl); [done|]. apply IH; [lia|done].
  - rewrite settle_idle. simpl. destruct (pass_idle w) as [H1 H2]; rewrite Ep in *; [done|].
    simpl in H1. by subst.
Qed.

(** *** The map of transforms *)

Lemma mapSet_in k t m p : NoDup m.*1 -> p ∈ mapSet k t m <-> p = (k, t) \/ (p ∈ m /\ p.1 <> k).
Proof.
  induction m as [|q m IH]; simpl; [set_solver|]. intros [Hq Hnd]%NoDup_cons.
  destruct (streq q.1 k) eqn:E; [apply streq_true in E|apply streq_false in E]; rewrite !elem_of_cons.
  - split; [|naive_solver]. intros [->|Hp]; [by left|]. right. split; [by right|].
    intros Hk. apply Hq. rewrite E, <- Hk. by apply list_elem_of_fmap_2.
  - rewrite IH by done. naive_solver.
Qed.

Lemma mapSet_NoDup k t m : NoDup m.*1 -> NoDup (mapSet k t m).*1.
Proof.
  induction m as [|q m IH]; simpl; [intros; apply NoDup_singleton|]. intros [Hq Hnd]%NoDup_cons.
  destruct (streq q.1 k) eqn:E; simpl; [apply streq_true in E|apply streq_false in E]; apply NoDup_cons.
  - by rewrite <- E.
  - split; [|by apply IH]. intros (p & Hp1 & [->|[Hp _]]%mapSet_in)%list_elem_of_fmap; [done| |done].
    apply Hq. rewrite Hp1. by apply list_elem_of_fmap_2.
Qed.

Lemma mapOf_app l t : mapOf (l ++ [t]) = mapSet (t_id t) t (mapOf l).
Proof. unfold mapOf. by rewrite foldl_app. Qed.

Lemma mapOf_NoDup l : NoDup (mapOf l).*1.
Proof.
  induction l as [|t l IH] using rev_ind; [apply NoDup_nil_2|]. rewrite mapOf_app. by apply mapSet_NoDup.
Qed.

Lemma mapOf_in l p : p ∈ mapOf l -> p.2 ∈ l /\ t_id p.2 = p.1.
Proof.
  induction l as [|t l IH] using rev_ind; [by intros ?%not_elem_of_nil|]. rewrite mapOf_app.
  intros [->|[Hp _]]%mapSet_in; [| |apply mapOf_NoDup]; rewrite elem_of_app.
  - split; [right; by apply list_elem_of_singleton|done].
  - destruct (IH Hp). by split; [left|].
Qed.

Lemma mapOf_has l t : NoDup (map t_id l) -> t ∈ l -> (t_id t, t) ∈ mapOf l.
Proof.
  induction l as [|t' l IH] using rev_ind; [by intros _ ?%not_elem_of_nil|].
  rewrite map_app, mapOf_app. intros (Hnd & Hd & _)%NoDup_app Hin. apply mapSet_in; [apply mapOf_NoDup|].
  apply elem_of_app in Hin as [Hin| ->%list_elem_of_singleton]; [right|by left].
  split; [by apply IH|]. simpl. intros E. apply (Hd (t_id t)); [by apply list_elem_of_fmap_2|].
  rewrite E. by apply list_elem_of_singleton.
Qed.

Lemma mapOf_keys l x : x ∈ (mapOf l).*1 <-> x ∈ map t_id l.
Proof.
  induction l as [|t l IH] using rev_ind; [done|].
  rewrite mapOf_app, map_app, elem_of_app, <- IH, list_elem_of_fmap. simpl. rewrite list_elem_of_singleton. split.
  - intros (p & -> & [->|[Hp _]]%mapSet_in); [by right| |apply mapOf_NoDup]. left. by apply list_elem_of_fmap_2.
  - intros H. destruct (decide (x = t_id t)) as [->|Hne].
    + exists (t_id t, t). split; [done|]. apply mapSet_in; [apply mapOf_NoDup|]. by left.
    + destruct H as [(p & -> & Hp)%list_elem_of_fmap|]; [|done].
      exists p. split; [done|]. apply mapSet_in; [apply mapOf_NoDup|]. by right.
Qed.

(** *** Which transforms are resolved, and in which order *)

Section resolution.
Variable (s : Strategy).

Definition inputIds : list string := map i_id (inputs s).
Definition table : list (string * Transform) := mapOf (transforms s).

(** A node that can be computed: an input, or a transform all of whose inputs can be computed. *)
Inductive Resolvable : string -> Prop :=
| resolvable_input x : x ∈ inputIds -> Resolvable x
| resolvable_transform x t : (x, t) ∈ table -> (forall d, d ∈ t_inputs t -> Resolvable d) -> Resolvable x.

(** [x] reads [y] through the transforms. *)
Inductive reads : string -> string -> Prop :=
| reads_self x : reads x x
| reads_input x t d y : (x, t) ∈ table -> d ∈ t_inputs t -> reads d y -> reads x y.

Lemma addInputs_spec l :
  (forall x, is_Some ((addInputs l).1 !! x) <-> x ∈ map i_id l) /\
  (forall x n, (addInputs l).1 !! x = Some n -> exists i, i ∈ l /\ i_id i = x /\ n = declared i) /\
  ((addInputs l).2 = [] <-> NoDup (map i_id l)) /\ Forall (fun q => severity q = CRITICAL) (addInputs l).2.
Proof.
  induction l as [|i l (IH1 & IH2 & IH3 & IH4)] using rev_ind.
  { split; [|split; [done|split; [split; [intros _; apply NoDup_nil_2|done]|done]]]. intros x. simpl. rewrite elem_of_nil, lookup_empty. by split; [intros []|]. }
  unfold addInputs in *. rewrite foldl_app, map_app. simpl. set (a := foldl addInput (∅, []) l) in *.
  unfold addInput. destruct (a.1 !! i_id i) as [n|] eqn:E; simpl.
  - assert (Hin : i_id i ∈ map i_id l) by (by apply IH1; rewrite E).
    split_and!.
    + intros x. rewrite IH1, elem_of_app, list_elem_of_singleton. naive_solver.
    + intros x m Hx. destruct (IH2 x m Hx) as (j & ? & ?). exists j. rewrite elem_of_app. naive_solver.
    + split; [by intros [_ ?]%app_nil|].
      intros (_ & Hd & _)%NoDup_app. destruct (Hd _ Hin). by apply list_elem_of_singleton.
    + apply Forall_app. split; [done|]. by apply Forall_singleton.
  - assert (Hni : i_id i ∉ map i_id l) by (rewrite <- IH1, E; by intros []).
    split_and!; [| |rewrite IH3; split|done].
    + intros x. rewrite elem_of_app, list_elem_of_singleton, <- IH1, lookup_insert_is_Some'. naive_solver.
    + intros x m. rewrite lookup_insert. case_decide as Hx; [|intros Hm; destruct (IH2 x m Hm) as (j & ? & ?)].
      * intros [= <-]. exists i. rewrite elem_of_app, list_elem_of_singleton. naive_solver.
      * exists j. rewrite elem_of_app. naive_solver.
    + intros Hnd. apply NoDup_app. split_and!; [done| |apply NoDup_singleton].
      by intros x Hx ->%list_elem_of_singleton.
    + by intros (? & _ & _)%NoDup_app.
Qed.

(** The invariant: what is known is what has been ordered, every ordered node comes after the nodes it
    reads, nothing of the table is lost. *)
Definition placedAfter (o : list string) : Prop := forall l1 x l2, o = l1 ++ x :: l2 ->
  x ∈ inputIds \/ exists t, (x, t) ∈ table /\ forall d, d ∈ t_inputs t -> d ∈ l1.

Definition Inv (w : Work) : Prop :=
  (forall x, is_Some (prov w !! x) <-> x ∈ ord w) /\
  (forall p, p ∈ pending w -> p ∈ table) /\
  (forall p, p ∈ table -> p ∈ pending w \/ (p.1 ∈ ord w /\ forall d, d ∈ t_inputs p.2 -> d ∈ ord w)) /\
  (forall x, x ∈ ord w -> Resolvable x) /\ placedAfter (ord w).

Lemma Inv_start : Inv (startWork s).
Proof.
  destruct (addInputs_spec (inputs s)) as (H1 & _). unfold Inv, startWork. simpl. split_and!; try done.
  - intros p Hp. by left.
  - intros x Hx. by apply resolvable_input.
  - intros l1 x l2 E. left. unfold inputIds. rewrite E, elem_of_app. right. left.
Qed.

Lemma placedAfter_snoc o x t : placedAfter o -> (x, t) ∈ table -> (forall d, d ∈ t_inputs t -> d ∈ o) ->
  placedAfter (o ++ [x]).
Proof.
  intros Ho Ht Hd l1 y l2 E. destruct l2 as [|z l2 _] using rev_ind.
  - apply app_inj_tail in E as [-> ->]. right. by exists t.
  - rewrite app_comm_cons, app_assoc in E. apply app_inj_tail in E as [-> _]. by apply (Ho l1 y l2).
Qed.

Lemma Inv_step w p : Inv w -> NoDup (pending w).*1 -> p ∈ pending w ->
  (forall d, d ∈ t_inputs p.2 -> is_Some (prov w !! d)) -> Inv (resolveOne w p).
Proof.
  intros (H1 & H2 & H3 & H4 & H5) _ Hp Hd. assert (Ht : (p.1, p.2) ∈ table) by (destruct p; by apply H2).
  assert (Hd' : forall d, d ∈ t_inputs p.2 -> d ∈ ord w) by (intros d ?; by apply H1, Hd).
  unfold Inv, resolveOne. simpl. split_and!.
  - intros x. rewrite elem_of_app, list_elem_of_singleton, <- H1, lookup_insert_is_Some'. naive_solver.
  - intros q [Hq _]%drop_key_in. by apply H2.
  - intros q Hq. rewrite drop_key_in. setoid_rewrite elem_of_app.
    destruct (H3 q Hq) as [Hqp|[Hq1 Hq2]]; [|right; split; [by left|intros d ?; left; by apply Hq2]].
    destruct (decide (q.1 = p.1)) as [E|]; [right|by left].
    assert (q = p) as -> by (apply (NoDup_map_inj fst table); [apply mapOf_NoDup|done|by apply H2|done]).
    split; [right; by apply list_elem_of_singleton|]. intros d Hdd. left. by apply Hd'.
  - intros x [Hx| ->%list_elem_of_singleton]%elem_of_app; [by apply H4|].
    apply (resolvable_transform _ p.2 Ht). intros d Hdd. by apply H4, Hd'.
  - by apply (placedAfter_snoc _ _ p.2).
Qed.

Lemma Inv_resolve : Inv (resolve s).1 /\ settled (resolve s).1.
Proof.
  unfold resolve. split; [|apply settle_settled; [done|apply mapOf_NoDup]].
  apply (settle_ind Inv Inv_step _ (startWork s, true)); [apply mapOf_NoDup|apply Inv_start].
Qed.

Lemma start_known x : x ∈ inputIds -> is_Some (prov (resolve s).1 !! x).
Proof.
  intros Hx. assert (G : is_Some (prov (startWork s) !! x)) by (simpl; by apply (proj1 (addInputs_spec (inputs s)))).
  apply (settle_ind (fun w => is_Some (prov w !! x))) with (w := (startWork s, true)); [|apply mapOf_NoDup|done].
  intros w p Hw _ _ _. simpl. apply lookup_insert_is_Some'. by right.
Qed.

Lemma ord_Resolvable x : x ∈ ord (resolve s).1 <-> Resolvable x.
Proof.
  destruct Inv_resolve as [(H1 & H2 & H3 & H4 & H5) Hs]. unfold settled, blocked in Hs. rewrite Forall_forall in Hs.
  split; [apply H4|]. induction 1 as [x Hx|x t Ht _ IH]; [by apply H1, start_known|].
  destruct (H3 _ Ht) as [Hp|[? _]]; [|done]. specialize (Hs _ Hp). apply every_false in Hs as (d & Hd & Hk).
  simpl in Hd. specialize (IH d Hd). apply H1, known_true in IH. congruence.
Qed.

Lemma all_resolved : pending (resolve s).1 = [] <-> forall p d, p ∈ table -> d ∈ t_inputs p.2 -> Resolvable d.
Proof.
  destruct Inv_resolve as [(H1 & H2 & H3 & H4 & H5) Hs]. unfold settled, blocked in Hs. rewrite Forall_forall in Hs.
  split.
  - intros E p d Hp Hd. destruct (H3 p Hp) as [Hpp|[_ Ho]]; [rewrite E in Hpp; by apply not_elem_of_nil in Hpp|].
    by apply H4, Ho.
  - intros Hall. destruct (pending (resolve s).1) as [|p l] eqn:E; [done|]. exfalso.
    assert (Hp : p ∈ p :: l) by left. specialize (Hs p Hp).
    apply every_false in Hs as (d & Hd & Hk). specialize (Hall p d (H2 p Hp) Hd).
    apply ord_Resolvable, H1, known_true in Hall. congruence.
Qed.

(** C35: the loop over the transforms ends within one pass per transform: either every transform is
    resolved or none of the rest has all its inputs.  It leaves nothing behind exactly when every
    transform can be computed from the inputs -- there is no unknown reference and no cycle -- and it
    orders exactly the nodes that can be, each after everything it reads. *)
Theorem resolve_complete :
  settled (resolve s).1 /\
  (pending (resolve s).1 = [] <-> forall p d, p ∈ table -> d ∈ t_inputs p.2 -> Resolvable d) /\
  (forall x, x ∈ ord (resolve s).1 <-> Resolvable x) /\ placedAfter (ord (resolve s).1).
Proof.
  destruct Inv_resolve as [HI Hs]. split; [exact Hs|]. split; [exact all_resolved|].
  split; [exact ord_Resolvable|]. apply HI.
Qed.

End resolution.

(** *** Provenance *)

Lemma propagateTrust_le l c : c ∈ l -> trustRank (propagateTrust l) <= trustRank c.
Proof.
  destruct l as [|a l]; [by intros ?%not_elem_of_nil|]. simpl.
  assert (H : trustRank (propagateTrust (a :: l)) <= trustRank a /\
    forall b, b ∈ l -> trustRank (propagateTrust (a :: l)) <= trustRank b).
  { simpl. revert a. induction l as [|b l IH]; intros a; [split; [done|by intros ? ?%not_elem_of_nil]|].
    simpl. destruct (IH (if trustRank b <? trustRank a then b else a)) as [H1 H2].
    destruct (Z.ltb_spec (trustRank b) (trustRank a)).
    all: split; [lia|]; intros d [->|Hd]%elem_of_cons; [lia|by apply H2]. }
  intros [->|Hc]%elem_of_cons; [exact (proj1 H)|exact (proj2 H _ Hc)].
Qed.

Lemma propagateFreshness_ge l z : z ∈ l -> z <= propagateFreshness l.
Proof.
  destruct l as [|a l]; [by intros ?%not_elem_of_nil|]. simpl.
  assert (H : a <= foldl Z.max a l /\ forall b, b ∈ l -> b <= foldl Z.max a l).
  { revert a. induction l as [|b l IH]; intros a; [split; [done|by intros ? ?%not_elem_of_nil]|].
    simpl. destruct (IH (Z.max a b)) as [H1 H2].
    split; [lia|]; intros d [->|Hd]%elem_of_cons; [lia|by apply H2]. }
  intros [->|Hc]%elem_of_cons; [exact (proj1 H)|exact (proj2 H _ Hc)].
Qed.

Definition inputsKnown (pv : gmap string NodeProvenance) (t : Transform) : Prop :=
  forall d, d ∈ t_inputs t -> is_Some (pv !! d).

Lemma inputsOf_in pv t n : n ∈ inputsOf pv t <-> exists d, d ∈ t_inputs t /\ pv !! d = Some n.
Proof. unfold inputsOf. by rewrite list_elem_of_omap. Qed.

Lemma nodeOf_insert pv k n x t : pv !! k = None -> inputsKnown pv t ->
  nodeOf (<[k := n]> pv) x t = nodeOf pv x t.
Proof.
  intros Hk Hd. unfold nodeOf. replace (inputsOf (<[k := n]> pv) t) with (inputsOf pv t); [done|].
  unfold inputsOf, inputsKnown in *. apply list_omap_ext, Forall2_same_length_lookup_2; [done|].
  intros i d d' Hi Hi'. assert (d = d') as <- by congruence. symmetry. apply lookup_insert_ne.
  intros <-. apply list_elem_of_lookup_2 in Hi. destruct (Hd k Hi). congruence.
Qed.

Section provenance.
Variable (s : Strategy).
Hypothesis Hdistinct : NoDup (map i_id (inputs s) ++ map t_id (transforms s)).

Definition computed (w : Work) (x : string) (t : Transform) : Prop :=
  (x, t) ∈ table s /\ is_Some (prov w !! x) /\ inputsKnown (prov w) t.

Definition InvP (w : Work) : Prop :=
  (forall p, p ∈ pending w -> prov w !! p.1 = None /\ p ∈ table s) /\
  (forall x n, prov w !! x = Some n ->
     (exists i, i ∈ inputs s /\ i_id i = x /\ n = declared i) \/
     exists t, computed w x t /\ n = (nodeOf (prov w) x t).1 /\ forall q, q ∈ (nodeOf (prov w) x t).2 -> q ∈ probs w) /\
  (forall q, q ∈ probs w -> q ∈ (addInputs (inputs s)).2 \/
     exists x t, computed w x t /\ q ∈ (nodeOf (prov w) x t).2) /\
  (forall q, q ∈ (addInputs (inputs s)).2 -> q ∈ probs w).

Lemma InvP_start : InvP (startWork s).
Proof.
  destruct (addInputs_spec (inputs s)) as (H1 & H2 & _). apply NoDup_app in Hdistinct as (_ & Hd & _).
  unfold InvP, startWork. simpl. split_and!.
  - intros p Hp. split; [|done]. destruct ((addInputs (inputs s)).1 !! p.1) as [n|] eqn:E; [|done].
    exfalso. apply (Hd p.1); [by apply H1|]. apply mapOf_keys. by apply list_elem_of_fmap_2.
  - intros x n Hx. left. by apply H2.
  - by left.
  - done.
Qed.

Lemma computed_step w p x t : prov w !! p.1 = None -> computed w x t ->
  computed (resolveOne w p) x t /\ nodeOf (prov (resolveOne w p)) x t = nodeOf (prov w) x t.
Proof.
  intros Hp (H1 & H2 & H3). split; [|by apply nodeOf_insert]. unfold computed, inputsKnown, resolveOne. simpl.
  setoid_rewrite lookup_insert_is_Some'. split_and!; [done|by right|]. intros d Hd. right. by apply H3.
Qed.

Lemma InvP_step w p : InvP w -> NoDup (pending w).*1 -> p ∈ pending w -> inputsKnown (prov w) p.2 ->
  InvP (resolveOne w p).
Proof.
  intros (H1 & H2 & H3 & H4) _ Hp Hd. destruct (H1 p Hp) as [Hn Ht].
  assert (Hnew : computed (resolveOne w p) p.1 p.2 /\
    nodeOf (prov (resolveOne w p)) p.1 p.2 = nodeOf (prov w) p.1 p.2).
  { split; [|by apply nodeOf_insert]. unfold computed, inputsKnown, resolveOne. simpl.
    setoid_rewrite lookup_insert_is_Some'. destruct p. split_and!; [done|by left|]. intros d Hdd. right. by apply Hd. }
  split; [|split; [|split]].
  - simpl. intros q [Hq Hne]%drop_key_in. destruct (H1 q Hq) as [Hqn ?].
    split; [|done]. by rewrite lookup_insert_ne.
  - intros x n Hxn.
    assert (E : (<[p.1 := (nodeOf (prov w) p.1 p.2).1]> (prov w)) !! x = Some n) by exact Hxn.
    rewrite lookup_insert in E. clear Hxn. revert E. case_decide as Hx.
    + intros [= <-]. right. exists p.2. rewrite <- Hx. destruct Hnew as [Hc He]. rewrite He.
      split_and!; try done. intros q Hq. simpl. apply elem_of_app. by right.
    + intros Hxn. destruct (H2 x n Hxn) as [?|(t & Hc & -> & Hq)]; [by left|right].
      exists t. destruct (computed_step w p x t Hn Hc) as [Hc' ->]. split_and!; try done.
      intros q ?. simpl. apply elem_of_app. left. by apply Hq.
  - intros q. simpl. intros [Hq|Hq]%elem_of_app.
    + destruct (H3 q Hq) as [?|(x & t & Hc & Hqq)]; [by left|right].
      exists x, t. destruct (computed_step w p x t Hn Hc) as [Hc' E]. split; [done|].
      change (q ∈ (nodeOf (prov (resolveOne w p)) x t).2). by rewrite E.
    + right. exists p.1, p.2. destruct Hnew as [Hc E]. split; [done|].
      change (q ∈ (nodeOf (prov (resolveOne w p)) p.1 p.2).2). by rewrite E.
  - intros q Hq. simpl. apply elem_of_app. left. by apply H4.
Qed.

Lemma InvP_resolve : InvP (resolve s).1.
Proof. apply (settle_ind InvP InvP_step _ (startWork s, true)); [apply mapOf_NoDup|apply InvP_start]. Qed.

Lemma table_fun x t t' : (x, t) ∈ table s -> (x, t') ∈ table s -> t = t'.
Proof.
  intros H H'. assert ((x, t) = (x, t')) as [= ->] by
    (apply (NoDup_map_inj fst (table s)); [apply mapOf_NoDup|done|done|done]). done.
Qed.

Lemma table_not_input x t i : (x, t) ∈ table s -> i ∈ inputs s -> i_id i <> x.
Proof.
  intros Ht Hi E. apply NoDup_app in Hdistinct as (_ & Hd & _). apply (Hd x).
  - rewrite <- E. by apply list_elem_of_fmap_2.
  - apply mapOf_keys. by apply (list_elem_of_fmap_2 fst _ (x, t)).
Qed.

(** What is known of a node that is a transform, and of one that is an input. *)
Lemma prov_transform x t n : (x, t) ∈ table s -> prov (resolve s).1 !! x = Some n ->
  inputsKnown (prov (resolve s).1) t /\ n = (nodeOf (prov (resolve s).1) x t).1 /\
  forall q, q ∈ (nodeOf (prov (resolve s).1) x t).2 -> q ∈ probs (resolve s).1.
Proof.
  intros Ht Hn. destruct InvP_resolve as (_ & H2 & _).
  destruct (H2 x n Hn) as [(i & Hi & E & _)|(t' & (Ht' & _ & Hk) & -> & Hq)].
  - by destruct (table_not_input x t i Ht Hi).
  - by rewrite (table_fun x t t' Ht Ht').
Qed.

Lemma prov_input i n : i ∈ inputs s -> prov (resolve s).1 !! i_id i = Some n -> n = declared i.
Proof.
  intros Hi Hn. destruct InvP_resolve as (_ & H2 & _).
  destruct (H2 _ n Hn) as [(j & Hj & E & ->)|(t & (Ht & _) & _)].
  - apply NoDup_app in Hdistinct as (Hnd & _). by rewrite (NoDup_map_inj i_id (inputs s) j i Hnd Hj Hi E).
  - by destruct (table_not_input _ t i Ht Hi).
Qed.

Lemma reads_known x y n : reads s x y -> prov (resolve s).1 !! x = Some n -> is_Some (prov (resolve s).1 !! y).
Proof.
  intros Hr. revert n. induction Hr as [x|x t d y Ht Hd _ IH]; intros n Hn; [eauto|].
  destruct (prov_transform x t n Ht Hn) as [Hk _]. destruct (Hk d Hd) as [m Hm]. eauto.
Qed.

Lemma trust_flow x i n : reads s x (i_id i) -> i ∈ inputs s -> prov (resolve s).1 !! x = Some n ->
  trustRank (trustClass n) <= trustRank (minimumTrustClass i).
Proof.
  intros Hr Hi. remember (i_id i) as y eqn:Ey. revert n Ey.
  induction Hr as [x|x t d y Ht Hd _ IH]; intros n Ey Hn.
  - subst. by rewrite (prov_input i n Hi Hn).
  - destruct (prov_transform x t n Ht Hn) as (Hk & -> & _). destruct (Hk d Hd) as [m Hm].
    specialize (IH m Ey Hm). unfold nodeOf. destruct (transformOutputUnit _ _ _); simpl.
    + etrans; [|exact IH]. apply propagateTrust_le, list_elem_of_fmap_2, inputsOf_in. eauto.
    + destruct (minimumTrustClass i); simpl; lia.
Qed.

Lemma freshness_flow x i n : some isCritical (probs (resolve s).1) = false ->
  reads s x (i_id i) -> i ∈ inputs s -> prov (resolve s).1 !! x = Some n -> maxAgeMs i <= age n.
Proof.
  intros Hc Hr Hi. rewrite some_false in Hc. remember (i_id i) as y eqn:Ey. revert n Ey.
  induction Hr as [x|x t d y Ht Hd _ IH]; intros n Ey Hn.
  - subst. by rewrite (prov_input i n Hi Hn).
  - destruct (prov_transform x t n Ht Hn) as (Hk & -> & Hq). destruct (Hk d Hd) as [m Hm].
    specialize (IH m Ey Hm). revert Hq. unfold nodeOf. destruct (transformOutputUnit _ _ _); simpl; intros Hq.
    + etrans; [exact IH|]. apply propagateFreshness_ge, list_elem_of_fmap_2, inputsOf_in. eauto.
    + exfalso. by specialize (Hc _ (Hq _ (list_elem_of_here _ _))).
Qed.

End provenance.

(** *** Unit inference *)

Lemma assertAllAddable_ok first rest : assertAllAddable first rest = Ok tt <->
  forall r, r ∈ rest -> assertAddable first r = Ok tt.
Proof.
  induction rest as [|r rest IH]; simpl; [split; [by intros _ r ?%not_elem_of_nil|done]|].
  setoid_rewrite elem_of_cons. destruct (assertAddable first r) as [[]|e] eqn:E; simpl.
  - rewrite IH. naive_solver.
  - split; [done|]. intros H. rewrite <- (H r); [done|by left].
Qed.

(** Units are inferred soundly.  When the compiler accepts a transform and gives it a unit, the
    conversion it stands for succeeds on every value of the operands' units -- for a ratio, on every
    nonzero denominator -- and yields that unit; sums and differences are taken only of equal, additive
    units; a rescaling keeps kind and subject. *)
Theorem transformOutputUnit_sound (o : TransformOp) (us : list Unit) (d : option Z) (u : Unit) :
  transformOutputUnit o us d = Ok u ->
  match o with
  | TOKEN_TO_USD => exists a p, us = [a; p] /\ forall x y, exists v,
      tokenToUsd (typed x a) (typed y p) 8 = Ok v /\ vunit v = u
  | RATIO_TO_BPS => exists a b, us = [a; b] /\ unitsEqual a b = true /\ forall x y, y <> 0 -> exists v,
      ratioToBps (typed x a) (typed y b) = Ok v /\ vunit v = u
  | PERCENT_TO_BPS => exists a l, us = a :: l /\ forall x, 0 <= decimals a -> exists v,
      percentToBps (typed x a) = Ok v /\ vunit v = u
  | SUM | DIFFERENCE => exists l, us = u :: l /\ forall r, r ∈ l ->
      unitsEqual u r = true /\ kind u ∉ [HEALTH_FACTOR; BLOCK_NUMBER; BOOLEAN]
  | RESCALE => exists a l n, us = a :: l /\ d = Some n /\ kind u = kind a /\ subject u = subject a /\
      decimals u = n /\ forall x, vunit (rescale (typed x a) n) = u
  end.
Proof.
  destruct o; simpl.
  - destruct us as [|a [|p []]]; try done. unfold tokenToUsd. intros (v & Hv & [= <-])%rbind_ok. rewrite !throw_ok in Hv.
    destruct Hv as (H1 & H2 & H3 & [= <-]). exists a, p. split; [done|]. intros x y. simpl in *. rewrite H1, H2, H3.
    eexists. split; [done|]. by rewrite !rescale_unit.
  - destruct us as [|a [|b []]]; try done. unfold ratioToBps. intros (v & Hv & [= <-])%rbind_ok. simpl in Hv.
    destruct (assertComparable a b) as [[]|] eqn:E; [|done]. simpl in Hv. injection Hv as <-.
    exists a, b. split; [done|]. split; [by apply assertComparable_iff|]. intros x y Hy.
    simpl. rewrite E. simpl. destruct (Z.eqb_spec y 0); [done|]. eauto.
  - destruct us as [|a l]; [done|]. destruct (assertAllAddable a l) as [[]|] eqn:E; [|done]. intros [= <-].
    exists l. split; [done|]. intros r Hr. apply assertAddable_iff. revert r Hr. by apply assertAllAddable_ok.
  - destruct us as [|a l]; [done|]. destruct (assertAllAddable a l) as [[]|] eqn:E; [|done]. intros [= <-].
    exists l. split; [done|]. intros r Hr. apply assertAddable_iff. revert r Hr. by apply assertAllAddable_ok.
  - destruct us as [|a l]; [done|]. case_bool_decide as Hk; [|done]. intros [= <-].
    exists a, l. split; [done|]. intros x Hd. unfold percentToBps. simpl. rewrite Hk.
    destruct (Z.ltb_spec (decimals a) 0); [lia|]. simpl. eauto.
  - destruct us as [|a l]; [done|]. destruct d as [n|]; [|done]. intros [= <-].
    exists a, l, n. rewrite rescale_unit. simpl. setoid_rewrite rescale_unit. simpl.
    destruct (Z.eqb_spec n (decimals a)); done.
Qed.

(** *** What a strategy that compiles guarantees *)

Fixpoint comparisons (c : ConditionNode) : list (OperandNode * OperandNode) :=
  match c with
  | Ccompare _ l r => [(l, r)]
  | Cand cs | Cor cs => flat_map comparisons cs
  | Cnot c' => comparisons c'
  end.

Section condition_ind.
Variable (Q : ConditionNode -> Prop).
Hypothesis (Hcmp : forall o l r, Q (Ccompare o l r)) (Hand : forall cs, Forall Q cs -> Q (Cand cs))
  (Hor : forall cs, Forall Q cs -> Q (Cor cs)) (Hnot : forall c, Q c -> Q (Cnot c)).
Fixpoint condition_nested_ind (c : ConditionNode) : Q c :=
  let fix go (cs : list ConditionNode) : Forall Q cs :=
    match cs with
    | [] => Forall_nil_2 Q
    | c' :: cs' => Forall_cons_2 Q c' cs' (condition_nested_ind c') (go cs')
    end in
  match c with
  | Ccompare o l r => Hcmp o l r
  | Cand cs => Hand cs (go cs)
  | Cor cs => Hor cs (go cs)
  | Cnot c' => Hnot c' (condition_nested_ind c')
  end.
End condition_ind.

(** Both sides known, and of one unit. *)
Definition comparable (pv : gmap string NodeProvenance) (lr : OperandNode * OperandNode) : Prop :=
  exists a b, operandProvenance pv lr.1 = Some a /\ operandProvenance pv lr.2 = Some b /\
    unitsEqual (unit_ a) (unit_ b) = true.

Lemma compareProblems_none pv l r path :
  some isCritical (compareProblems pv l r path) = false <-> comparable pv (l, r).
Proof.
  unfold compareProblems, comparable, operandProblems. simpl. rewrite !some_app, !orb_false_iff.
  destruct (operandProvenance pv l) as [a|], (operandProvenance pv r) as [b|]; simpl; try naive_solver.
  pose proof (assertComparable_iff (unit_ a) (unit_ b)) as H.
  destruct (assertComparable _ _) as [[]|e]; simpl; naive_solver.
Qed.

Lemma checkCondition_none pv c : forall path,
  some isCritical (checkCondition pv c path) = false <-> forall lr, lr ∈ comparisons c -> comparable pv lr.
Proof.
  induction c as [o l r|cs IH|cs IH|c IH] using condition_nested_ind; intros path; simpl.
  - rewrite compareProblems_none. split; [by intros ? ? ->%list_elem_of_singleton|]. intros H. apply H. left.
  - generalize O as i. induction IH as [|c cs Hc _ IHcs]; intros i; simpl; [split; [by intros _ ? ?%not_elem_of_nil|done]|].
    rewrite some_app, orb_false_iff, Hc, IHcs. setoid_rewrite elem_of_app. naive_solver.
  - generalize O as i. induction IH as [|c cs Hc _ IHcs]; intros i; simpl; [split; [by intros _ ? ?%not_elem_of_nil|done]|].
    rewrite some_app, orb_false_iff, Hc, IHcs. setoid_rewrite elem_of_app. naive_solver.
  - apply IH.
Qed.

Lemma refs_operands c x : x ∈ refsOf c <-> exists lr, lr ∈ comparisons c /\ (lr.1 = Oref x \/ lr.2 = Oref x).
Proof.
  assert (Hfm : forall (A : Type) (f : ConditionNode -> list A) cs y, y ∈ flat_map f cs <-> exists c, c ∈ cs /\ y ∈ f c).
  { intros A f cs y. rewrite list_elem_of_In, in_flat_map. by setoid_rewrite <- list_elem_of_In. }
  assert (Ho : forall o, x ∈ refOf o <-> o = Oref x).
  { intros [y|v u]; simpl; [rewrite list_elem_of_singleton|rewrite elem_of_nil]; naive_solver. }
  induction c as [o l r|cs IH|cs IH|c IH] using condition_nested_ind; simpl.
  - rewrite elem_of_app, !Ho. setoid_rewrite list_elem_of_singleton. naive_solver.
  - rewrite Forall_forall in IH. setoid_rewrite Hfm. naive_solver.
  - rewrite Forall_forall in IH. setoid_rewrite Hfm. naive_solver.
  - done.
Qed.

Lemma stuckProblems_none w : some isCritical (stuckProblems w) = false <-> pending w = [].
Proof.
  unfold stuckProblems. rewrite some_app, orb_false_iff. split; [|by intros ->].
  destruct (pending w) as [|p l] eqn:E; [done|]. rewrite <- E. assert (Hp : p ∈ pending w) by (rewrite E; left).
  clear E. intros [H1 H2]. exfalso. destruct (Manifest.nonempty (missingRefs w p.2)) eqn:Em.
  - rewrite some_false in H1. specialize (H1 (P "STRAT-UNKNOWN-REF" CRITICAL ("transforms." +:+ p.1))).
    discriminate H1. apply list_elem_of_fmap. exists p. split; [done|]. by rewrite list_elem_of_In, filter_In, <- list_elem_of_In.
  - assert (Hin : p ∈ List.filter (fun p => negb (Manifest.nonempty (missingRefs w p.2))) (pending w))
      by (rewrite list_elem_of_In, filter_In, <- list_elem_of_In, Em; done).
    destruct (List.filter (fun p => negb _) _) as [|q l']; [by apply not_elem_of_nil in Hin|done].
Qed.

Lemma fenceProblems_none s : some isCritical (fenceProblems s) = false <->
  forall a c, a ∈ actions s -> chainId a = Some c -> c = 11155111 \/ c = 84532.
Proof.
  unfold fenceProblems. rewrite some_flat_map. split.
  - intros H a c Ha Hc. specialize (H a Ha). rewrite Hc in H.
    apply (Fences.fenceWrite_testnet Fences.STRATEGY_COMPILER). by destruct (Fences.fenceWrite _ _ _).
  - intros H a Ha. destruct (chainId a) as [c|] eqn:Hc; [|done]. specialize (H a c Ha Hc).
    apply (Fences.fenceWrite_testnet Fences.STRATEGY_COMPILER) in H. by destruct (Fences.fenceWrite _ _ _).
Qed.

Lemma trustProblems_none s pv d : actionRef d ∈ actionIds s ->
  some isCritical (trustProblems s pv d) = false <->
  forall x n, x ∈ refsOf (when_ d) -> pv !! x = Some n -> satisfiesTrust (trustClass n) DIRECT_CHAIN_DATA = true.
Proof.
  intros Ha. unfold trustProblems.
  destruct (List.find _ (actions s)) as [a|] eqn:E.
  - rewrite some_flat_map. split.
    + intros H x n Hx Hn. specialize (H x Hx). rewrite Hn in H. by destruct (satisfiesTrust _ _).
    + intros H x Hx. destruct (pv !! x) as [n|] eqn:En; [|done]. by rewrite (H x n Hx En).
  - exfalso. unfold actionIds in Ha. apply list_elem_of_fmap in Ha as (a & Hd & Ha).
    rewrite find_none_iff in E. specialize (E a Ha). rewrite Hd, streq_refl in E. done.
Qed.

(** The dispositions of a decision: known action, at least one bound. *)
Definition bounded (d : Decision) : Prop := autonomousMaxUsdCents d <> None \/ escalationMaxUsdCents d <> None.

Definition decisionSound (s : Strategy) (pv : gmap string NodeProvenance) (d : Decision) : Prop :=
  (forall lr, lr ∈ comparisons (when_ d) -> comparable pv lr) /\ actionRef d ∈ actionIds s /\ bounded d /\
  forall x n, x ∈ refsOf (when_ d) -> pv !! x = Some n -> satisfiesTrust (trustClass n) DIRECT_CHAIN_DATA = true.

Lemma decisionProblems_none s pv d : some isCritical (decisionProblems s pv d) = false <-> decisionSound s pv d.
Proof.
  unfold decisionProblems, decisionSound. rewrite !some_app, !orb_false_iff, checkCondition_none.
  destruct (includes (actionIds s) (actionRef d)) eqn:E.
  - apply includes_true in E. rewrite (trustProblems_none s pv d E). unfold limitProblems, bounded.
    destruct (autonomousMaxUsdCents d), (escalationMaxUsdCents d); simpl; try destruct (_ <? _); simpl; naive_solver.
  - apply includes_false in E. simpl. naive_solver.
Qed.

Lemma actionProblems_none s a : some isCritical (actionProblems s a) = false <-> a_id a ∈ decidedActions s.
Proof.
  unfold actionProblems. rewrite some_app, orb_false_iff.
  destruct (includes (decidedActions s) (a_id a)) eqn:E; [apply includes_true in E|apply includes_false in E].
  - split; [done|]. intros _. by destruct (recipientPolicy a).
  - naive_solver.
Qed.

Lemma unusedProblems_none s : some isCritical (unusedProblems s) = false.
Proof.
  unfold unusedProblems. rewrite some_app, orb_false_iff, !some_flat_map.
  split; intros x _; by destruct (includes _ _).
Qed.

Lemma unknownProblems_none s : some isCritical (unknownProblems s) = false <->
  forall u, u ∈ unknowns s -> requiredBefore u <> BUILD.
Proof.
  unfold unknownProblems. rewrite some_false. split.
  - intros H u Hu Hb. specialize (H (P "STRAT-UNKNOWN-LIMIT" CRITICAL (u_field u))). discriminate H.
    apply list_elem_of_fmap. exists u. split; [done|].
    rewrite list_elem_of_In, filter_In, <- list_elem_of_In. by rewrite bool_decide_eq_true.
  - intros H q (u & -> & Hu)%list_elem_of_fmap. exfalso.
    rewrite list_elem_of_In, filter_In, <- list_elem_of_In, bool_decide_eq_true in Hu. naive_solver.
Qed.

Lemma decided_iff s x : x ∈ actionIds s -> x ∈ decidedActions s <-> exists d, d ∈ decisions s /\ actionRef d = x.
Proof.
  intros Hx. unfold decidedActions. rewrite list_elem_of_In, filter_In, <- list_elem_of_In, list_elem_of_fmap, includes_true.
  naive_solver.
Qed.

(** Only an inverted band is HIGH. *)
Definition isHigh (p : CompileProblem) : bool := bool_decide (severity p = HIGH).
Definition inverted (d : Decision) : Prop := exists a e, autonomousMaxUsdCents d = Some a /\
  escalationMaxUsdCents d = Some e /\ e < a.

Lemma some_blocking ps : some isBlocking ps = some isCritical ps || some isHigh ps.
Proof.
  induction ps as [|q ps IH]; simpl; [done|]. rewrite IH. unfold isBlocking at 1. fold (isHigh q).
  by destruct (isCritical q), (isHigh q), (some isCritical ps).
Qed.

Lemma checkCondition_high pv c : forall path, some isHigh (checkCondition pv c path) = false.
Proof.
  induction c as [o l r|cs IH|cs IH|c IH] using condition_nested_ind; intros path; simpl; [| | |apply IH].
  - unfold compareProblems, operandProblems. rewrite !some_app.
    destruct (operandProvenance pv l) as [a|], (operandProvenance pv r) as [b|]; simpl; try done.
    by destruct (assertComparable _ _).
  - generalize O as i. induction IH as [|c cs Hc _ IHcs]; intros i; simpl; [done|]. by rewrite some_app, Hc, IHcs.
  - generalize O as i. induction IH as [|c cs Hc _ IHcs]; intros i; simpl; [done|]. by rewrite some_app, Hc, IHcs.
Qed.

Lemma decisionProblems_high s pv d : some isHigh (decisionProblems s pv d) = false <-> ~ inverted d.
Proof.
  unfold decisionProblems. rewrite !some_app, checkCondition_high.
  assert (some isHigh (trustProblems s pv d) = false) as ->.
  { unfold trustProblems. destruct (List.find _ _); [|done]. apply some_flat_map. intros x _.
    destruct (pv !! x) as [n|]; [|done]. by destruct (satisfiesTrust _ _). }
  unfold limitProblems, inverted. destruct (includes _ _); simpl; rewrite orb_false_r.
  all: destruct (autonomousMaxUsdCents d) as [a|], (escalationMaxUsdCents d) as [e|]; simpl;
    try (split; [intros _ (? & ? & ? & ? & ?); congruence|done]).
  all: destruct (Z.ltb_spec e a); simpl; (split; [|try done]); try done.
  all: try (intros _ (? & ? & [= <-] & [= <-] & ?); lia).
  all: intros Hn; destruct Hn; eauto.
Qed.

Lemma probs_high s w : InvP s w -> some isHigh (probs w) = false.
Proof.
  intros (_ & _ & H3 & _). apply some_false. intros q Hq. destruct (H3 q Hq) as [Hd|(x & t & _ & Hn)].
  - destruct (addInputs_spec (inputs s)) as (_ & _ & _ & Hf). rewrite Forall_forall in Hf.
    unfold isHigh. by rewrite (Hf q Hd).
  - unfold nodeOf in Hn. destruct (transformOutputUnit _ _ _); simpl in Hn; [by apply not_elem_of_nil in Hn|].
    by apply list_elem_of_singleton in Hn as ->.
Qed.

Lemma allProblems_high s w : InvP s w -> some isHigh (allProblems s w) = false <->
  forall d, d ∈ decisions s -> ~ inverted d.
Proof.
  intros HI. unfold allProblems. rewrite !some_app, (probs_high s w HI), !orb_false_iff, !some_flat_map.
  setoid_rewrite decisionProblems_high. split; [naive_solver|]. intros H. split_and!; try done.
  - apply some_flat_map. intros a _. destruct (chainId a); [|done]. by destruct (Fences.fenceWrite _ _ _).
  - unfold stuckProblems. rewrite some_app, orb_false_iff. split; [|by destruct (Manifest.nonempty _)].
    apply some_false. by intros q (p & -> & _)%list_elem_of_fmap.
  - intros a _. unfold actionProblems. destruct (includes _ _); by destruct (recipientPolicy a).
  - unfold unusedProblems. rewrite some_app, orb_false_iff, !some_flat_map. split; intros x _; by destruct (includes _ _).
  - apply some_false. by intros q (u & -> & _)%list_elem_of_fmap.
Qed.

Definition transformTyped (pv : gmap string NodeProvenance) (t : Transform) : Prop :=
  is_ok (transformOutputUnit (op t) (map unit_ (inputsOf pv t)) (toDecimals t)) = true.

Lemma nodeOf_problems pv x t : some isCritical (nodeOf pv x t).2 = false <-> transformTyped pv t.
Proof. unfold nodeOf, transformTyped. by destruct (transformOutputUnit _ _ _). Qed.

Section compiled.
Variable (s : Strategy).
Hypothesis Hdistinct : NoDup (map i_id (inputs s) ++ map t_id (transforms s)).

Lemma in_table t : t ∈ transforms s <-> (t_id t, t) ∈ table s.
Proof.
  apply NoDup_app in Hdistinct as (_ & _ & Hnd). split; [by apply mapOf_has|].
  intros H. by apply mapOf_in in H as [? _].
Qed.

Lemma probs_none : pending (resolve s).1 = [] ->
  some isCritical (probs (resolve s).1) = false <-> forall t, t ∈ transforms s -> transformTyped (prov (resolve s).1) t.
Proof.
  intros Hp. destruct (InvP_resolve s Hdistinct) as (_ & _ & H3 & _). destruct (Inv_resolve s) as [(H1 & _ & Ha & _) _].
  assert (Hnd : (addInputs (inputs s)).2 = []).
  { apply (addInputs_spec (inputs s)). by apply NoDup_app in Hdistinct as (? & _). }
  rewrite some_false. split.
  - intros H t Ht%in_table. apply (nodeOf_problems _ (t_id t)), some_false. intros q Hq. apply H.
    destruct (Ha _ Ht) as [Hpe|[Ho Hd]]; [rewrite Hp in Hpe; by apply not_elem_of_nil in Hpe|].
    apply H1 in Ho as [n Hn]. by apply (prov_transform s Hdistinct _ t n Ht Hn).
  - intros H q Hq. destruct (H3 q Hq) as [Hq'|(x & t & (Ht & _) & Hqt)]; [rewrite Hnd in Hq'; by apply not_elem_of_nil in Hq'|].
    pose proof (mapOf_in _ _ Ht) as [Hin _]. specialize (H t Hin). apply (nodeOf_problems _ x) in H.
    rewrite some_false in H. by apply H.
Qed.

Lemma buildable_iff : buildable (compileStrategy s) = true <->
  ok (compileStrategy s) = true /\ forall d, d ∈ decisions s -> ~ inverted d.
Proof.
  unfold compileStrategy. destruct (strategyOk s); simpl; [|naive_solver].
  rewrite !negb_true_iff, some_blocking, orb_false_iff. by rewrite (allProblems_high s _ (InvP_resolve s Hdistinct)).
Qed.

Lemma ok_iff : let pv := prov (resolve s).1 in
  (ok (compileStrategy s) = true <->
    strategyOk s = true /\
    (forall a c, a ∈ actions s -> chainId a = Some c -> c = 11155111 \/ c = 84532) /\
    (forall t d, t ∈ transforms s -> d ∈ t_inputs t -> Resolvable s d) /\
    (forall t, t ∈ transforms s -> transformTyped pv t) /\
    (forall d, d ∈ decisions s -> decisionSound s pv d) /\
    (forall a, a ∈ actions s -> exists d, d ∈ decisions s /\ actionRef d = a_id a) /\
    (forall u, u ∈ unknowns s -> requiredBefore u <> BUILD)).
Proof.
  intros pv. unfold compileStrategy. destruct (strategyOk s); cbn [negb]; [|naive_solver].
  cbn [ok]. rewrite negb_true_iff. unfold allProblems. fold pv.
  rewrite !some_app, !orb_false_iff, !some_flat_map, fenceProblems_none, stuckProblems_none, unusedProblems_none,
    unknownProblems_none.
  setoid_rewrite decisionProblems_none. setoid_rewrite actionProblems_none.
  assert (Hres : pending (resolve s).1 = [] <-> forall t d, t ∈ transforms s -> d ∈ t_inputs t -> Resolvable s d).
  { rewrite (all_resolved s). split.
    - intros Hr t d Ht%in_table Hd. by apply (Hr _ d Ht).
    - intros Hr [x t] d Ht Hd. apply (Hr t d); [|done]. by apply mapOf_in in Ht as [? _]. }
  assert (Hact : (forall a, a ∈ actions s -> a_id a ∈ decidedActions s) <->
    (forall a, a ∈ actions s -> exists d, d ∈ decisions s /\ actionRef d = a_id a)).
  { split; intros H a Ha; specialize (H a Ha); apply (decided_iff s (a_id a)); try done; by apply list_elem_of_fmap_2. }
  rewrite <- Hres, <- Hact. pose proof probs_none as Hpr. fold pv in Hpr. naive_solver.
Qed.

(** A strategy whose nodes have distinct ids compiles exactly when its document is valid, every
    action that names a chain names Sepolia or Base Sepolia, every transform can be computed from the
    inputs and its units line up, every comparison is between known values of one unit, every decision
    routes a declared action, has a bound and reads nothing weaker than direct chain data, every action
    is routed by some decision, and no limit needed for the build is unknown.  It is buildable exactly
    when moreover no escalation ceiling lies below the autonomous limit. *)
Theorem compileStrategy_ok_iff :
  let pv := prov (resolve s).1 in
  (ok (compileStrategy s) = true <->
    strategyOk s = true /\
    (forall a c, a ∈ actions s -> chainId a = Some c -> c = 11155111 \/ c = 84532) /\
    (forall t d, t ∈ transforms s -> d ∈ t_inputs t -> Resolvable s d) /\
    (forall t, t ∈ transforms s -> transformTyped pv t) /\
    (forall d, d ∈ decisions s -> decisionSound s pv d) /\
    (forall a, a ∈ actions s -> exists d, d ∈ decisions s /\ actionRef d = a_id a) /\
    (forall u, u ∈ unknowns s -> requiredBefore u <> BUILD)) /\
  (buildable (compileStrategy s) = true <->
    ok (compileStrategy s) = true /\ forall d, d ∈ decisions s -> ~ inverted d).
Proof. split; [exact ok_iff|exact buildable_iff]. Qed.

(** C13: trust is not laundered.  In a strategy with distinct ids that compiles, every input a decision
    depends on, through any chain of transforms, was declared with at least the trust of direct chain
    data, and the age limit recorded for every node a decision reads is no tighter than that of any
    input behind it. *)
Theorem compile_no_laundering (d : Decision) (x : string) (i : StrategyInput) :
  ok (compileStrategy s) = true -> d ∈ decisions s -> x ∈ refsOf (when_ d) -> i ∈ inputs s ->
  reads s x (i_id i) ->
  satisfiesTrust (minimumTrustClass i) DIRECT_CHAIN_DATA = true /\
  exists n, provenance (compileStrategy s) !! x = Some n /\
    trustRank (trustClass n) <= trustRank (minimumTrustClass i) /\ maxAgeMs i <= age n.
Proof.
  intros Hok Hd Hx Hi Hr. pose proof Hok as Hok'.
  apply ok_iff in Hok as (Hs & _ & Hres & Htt & Hdec & _). destruct (Hdec d Hd) as (Hcmp & _ & _ & Htr).
  apply refs_operands in Hx as Hx'. destruct Hx' as ([l r] & Hlr & Hside). destruct (Hcmp _ Hlr) as (a & b & Ha & Hb & _).
  assert (exists n, prov (resolve s).1 !! x = Some n) as [n Hn].
  { simpl in *. destruct Hside as [-> | ->]; simpl in *; eauto. }
  pose proof (trust_flow s Hdistinct x i n Hr Hi Hn) as Ht. split.
  - specialize (Htr x n Hx Hn). rewrite satisfiesTrust_iff in *. lia.
  - exists n. unfold compileStrategy. rewrite Hs. simpl. split_and!; try done.
    apply (freshness_flow s Hdistinct x i n); try done. apply probs_none; [|done].
    apply (all_resolved s). intros [y t] e Ht' He.
    apply (Hres t e); [|done]. by apply mapOf_in in Ht' as [? _].
Qed.

End compiled.

End Compiler.

Module Scenarios.
Import Units Ir Compiler.

Inductive ScenarioKind := CONDITION_BOUNDARY | AMOUNT_BAND | DATA_SOURCE.
Inductive Disposition := ALLOW | ESCALATE | DENY | NO_ACTION | REFUSED.

(** The description is left out. *)
Record GeneratedScenario := {
  scenarioId : string;
  kind : ScenarioKind;
  perturbation : string * string;   (* the node and the position *)
  expectedDisposition : Disposition
}.

Definition slugChar (c : ascii) : bool := upper c || is_digit c.

(** Runs of other characters become one dash. *)
Fixpoint dashes (inRun : bool) (s : string) : string :=
  match s with
  | EmptyString => EmptyString
  | String c s' =>
      let c := ascii_upper c in
      if slugChar c then String c (dashes false s')
      else if inRun then dashes true s' else String "-" (dashes true s')
  end.

Definition dropHead (s : string) : string :=
  match s with String c s' => if Ascii.eqb c "-" then s' else s | EmptyString => s end.

Fixpoint dropLast (s : string) : string :=
  match s with
  | EmptyString => EmptyString
  | String c EmptyString => if Ascii.eqb c "-" then EmptyString else s
  | String c s' => String c (dropLast s')
  end.

Definition slug (s : string) : string := dropLast (dropHead (dashes false s)).

(** Every comparison with the path that leads to it. *)
Fixpoint comparisonsAt (c : ConditionNode) (path : string) : list (string * (OperandNode * OperandNode)) :=
  let children (tag : string) := fix go (i : nat) (cs : list ConditionNode) :=
    match cs with
    | [] => []
    | c' :: cs' => comparisonsAt c' (path +:+ tag +:+ pretty i) ++ go (S i) cs'
    end in
  match c with
  | Ccompare _ l r => [(path, (l, r))]
  | Cnot c' => comparisonsAt c' (path +:+ ".not")
  | Cand cs => children ".and" O cs
  | Cor cs => children ".or" O cs
  end.

Definition boundaryScenarios (d : Decision) (p : string * (OperandNode * OperandNode)) : list GeneratedScenario :=
  let ref := match p.2.1 with Oref x => x | Oliteral _ _ => d_id d end in
  map (fun pos => {| scenarioId := "STRAT-" +:+ slug (d_id d) +:+ "-" +:+ slug p.1 +:+ "-" +:+ pos;
                     kind := CONDITION_BOUNDARY; perturbation := (ref, pos);
                     expectedDisposition := if streq pos "BELOW" then NO_ACTION else ALLOW |})
    ["BELOW"; "AT"; "ABOVE"].

Definition amountScenario (d : Decision) (suffix pos : string) (e : Disposition) : GeneratedScenario :=
  {| scenarioId := "STRAT-" +:+ slug (d_id d) +:+ "-AMOUNT-" +:+ suffix; kind := AMOUNT_BAND;
     perturbation := (actionRef d, pos); expectedDisposition := e |}.

Definition amountScenarios (d : Decision) : list GeneratedScenario :=
  match autonomousMaxUsdCents d with
  | Some _ => [amountScenario d "BELOW-AUTO" "BELOW_AUTO" ALLOW; amountScenario d "AT-AUTO" "AT_AUTO" ALLOW]
  | None => [] end ++
  match escalationMaxUsdCents d with
  | Some _ => [amountScenario d "IN-ESCALATION" "IN_ESCALATION" ESCALATE;
               amountScenario d "AT-CEILING" "AT_CEILING" ESCALATE;
               amountScenario d "ABOVE-CEILING" "ABOVE_CEILING" DENY]
  | None => [] end.

Definition sourceScenarios (i : StrategyInput) : list GeneratedScenario :=
  map (fun '(suffix, pos, e) =>
    {| scenarioId := "STRAT-" +:+ slug (i_id i) +:+ "-" +:+ suffix; kind := DATA_SOURCE;
       perturbation := (i_id i, pos); expectedDisposition := e |})
    [("VALID", "VALID", ALLOW); ("STALE", "STALE", REFUSED); ("UNAVAILABLE", "UNAVAILABLE", REFUSED);
     ("WRONG-TRUST", "WRONG_TRUST", REFUSED)].

Section generate.
Context (localeCompare : string -> string -> Z).

Definition scenario_le (a b : GeneratedScenario) : Prop := localeCompare (scenarioId a) (scenarioId b) <= 0.
#[export] Instance scenario_le_dec : RelDecision scenario_le.
Proof. intros a b. unfold scenario_le. apply _. Defined.

Definition generateStrategyScenarios (s : Strategy) : list GeneratedScenario :=
  merge_sort scenario_le
    (flat_map (fun d => flat_map (boundaryScenarios d) (comparisonsAt (when_ d) "when") ++ amountScenarios d)
       (decisions s) ++
     flat_map sourceScenarios (inputs s)).

Lemma comparisonsAt_all c : forall path, (comparisonsAt c path).*2 = comparisons c.
Proof.
  induction c as [o l r|cs IH|cs IH|c IH] using condition_nested_ind; intros path; simpl; [done| | |apply IH].
  all: generalize O as i; induction IH as [|c cs Hc _ IHcs]; intros i; simpl; [done|];
    rewrite fmap_app, Hc; f_equal; apply IHcs.
Qed.

(** No boundary is left out: every comparison of every decision is probed below, at and above it, every
    amount limit at the limit itself, and every input in its three failure modes. *)
Lemma scenarios_complete (s : Strategy) :
  (forall d lr pos, d ∈ decisions s -> lr ∈ comparisons (when_ d) -> pos ∈ ["BELOW"; "AT"; "ABOVE"] ->
     exists p g, (p, lr) ∈ comparisonsAt (when_ d) "when" /\ g ∈ generateStrategyScenarios s /\
       g ∈ boundaryScenarios d (p, lr) /\ (perturbation g).2 = pos) /\
  (forall d g, d ∈ decisions s -> g ∈ amountScenarios d -> g ∈ generateStrategyScenarios s) /\
  (forall i g, i ∈ inputs s -> g ∈ sourceScenarios i -> g ∈ generateStrategyScenarios s).
Proof.
  assert (Hin : forall (A B : Type) (f : A -> list B) l y, y ∈ flat_map f l <-> exists x, x ∈ l /\ y ∈ f x).
  { intros A B f l y. rewrite list_elem_of_In, in_flat_map. by setoid_rewrite <- list_elem_of_In. }
  unfold generateStrategyScenarios. setoid_rewrite merge_sort_Permutation. setoid_rewrite elem_of_app. setoid_rewrite Hin.
  split_and!.
  - intros d lr pos Hd Hlr Hpos. rewrite <- (comparisonsAt_all (when_ d) "when") in Hlr.
    apply list_elem_of_fmap in Hlr as ([p lr'] & -> & Hp).
    assert (exists g, g ∈ boundaryScenarios d (p, lr') /\ (perturbation g).2 = pos) as (g & Hg & Hgp).
    { rewrite !elem_of_cons, elem_of_nil in Hpos. destruct Hpos as [->|[->|[->|[]]]]; eexists.
      - split; [left|done].
      - split; [right; left|done].
      - split; [right; right; left|done]. }
    exists p, g. split_and!; try done. left. exists d. split; [done|].
    apply elem_of_app. left. apply Hin. eauto.
  - intros d g Hd Hg. left. exists d. split; [done|]. apply elem_of_app. right. by apply elem_of_app.
  - eauto.
Qed.

End generate.

End Scenarios.

Module Samples.
Import Units Ir Compiler Adapters.Trust.

Definition usdInput (x : string) (t : DataTrustClass) : StrategyInput :=
  {| i_id := x; requirementKey := x; i_dataKind := "price"; i_unit := UNITS.usd; minimumTrustClass := t;
     maxAgeMs := 60000 |}.

Definition sumOf (x : string) (ys : list string) : Transform :=
  {| t_id := x; op := SUM; t_inputs := ys; toDecimals := None |}.

Definition sampleDecision (x : string) : Decision :=
  {| d_id := "rebalance"; when_ := Cand [Ccompare GT (Oref x) (Oliteral "100" UNITS.usd);
       Cnot (Ccompare LT (Oref x) (Oliteral "7" UNITS.usd))];
     actionRef := "swap"; autonomousMaxUsdCents := Some 100; escalationMaxUsdCents := Some 200 |}.

Definition sampleStrategy (ins : list StrategyInput) (ts : list Transform) (x : string) : Strategy :=
  {| schemaVersion := "contextlock.strategy/v1"; planId := "p"; revision := 1;
     triggers := [{| g_id := "tick"; g_kind := schedule |}]; inputs := ins; transforms := ts;
     decisions := [sampleDecision x];
     actions := [{| a_id := "swap"; capability := "SWAP"; actionKind := "swap"; spendsAsset := None;
                    recipientPolicy := selfOnly; chainId := Some 11155111 |}];
     unknowns := []; invariants := []; requiresCapability := [] |}.

(** The transforms are listed against their dependencies; the loop needs two passes. *)
Definition good : Strategy :=
  sampleStrategy [usdInput "eth-usd" VERIFIED_ORACLE; usdInput "btc-usd" DIRECT_CHAIN_DATA]
    [sumOf "double" ["total"; "total"]; sumOf "total" ["eth-usd"; "btc-usd"]] "double".

Lemma good_distinct : NoDup (map i_id (inputs good) ++ map t_id (transforms good)).
Proof. apply (bool_decide_unpack _). vm_compute. exact I. Qed.

Lemma good_compiles : ok (compileStrategy good) = true /\ order (compileStrategy good) = ["eth-usd"; "btc-usd"; "total"; "double"].
Proof. vm_compute. split; reflexivity. Qed.

Lemma transformOutputUnit_sound_witness :
  transformOutputUnit TOKEN_TO_USD [UNITS.token "WETH" 18; UNITS.price "USD" 8] None = Ok UNITS.usd /\
  exists v, tokenToUsd (typed 5 (UNITS.token "WETH" 18)) (typed 7 (UNITS.price "USD" 8)) 8 = Ok v /\ vunit v = UNITS.usd.
Proof.
  split; [vm_compute; reflexivity|].
  destruct (transformOutputUnit_sound TOKEN_TO_USD [UNITS.token "WETH" 18; UNITS.price "USD" 8] None UNITS.usd)
    as (a & p & E & H); [vm_compute; reflexivity|].
  injection E as <- <-. apply H.
Defined.

Lemma compileStrategy_ok_iff_witness :
  ok (compileStrategy good) = true /\ forall t, t ∈ transforms good -> transformTyped (prov (resolve good).1) t.
Proof.
  split; [vm_compute; reflexivity|].
  refine (proj1 (proj2 (proj2 (proj2 (proj1 (proj1 (compileStrategy_ok_iff good good_distinct)) _))))).
  vm_compute. reflexivity.
Defined.

Lemma compile_no_laundering_witness :
  reads good "double" "btc-usd" /\ satisfiesTrust DIRECT_CHAIN_DATA DIRECT_CHAIN_DATA = true.
Proof.
  assert (Hr : reads good "double" "btc-usd").
  { apply (reads_input good "double" (sumOf "double" ["total"; "total"]) "total" "btc-usd");
      [vm_compute; left|left|].
    apply (reads_input good "total" (sumOf "total" ["eth-usd"; "btc-usd"]) "btc-usd" "btc-usd");
      [vm_compute; right; left|right; left|constructor]. }
  split; [exact Hr|].
  refine (proj1 (compile_no_laundering good good_distinct (sampleDecision "double") "double"
    (usdInput "btc-usd" DIRECT_CHAIN_DATA) _ _ _ _ Hr)).
  - vm_compute. reflexivity.
  - left.
  - left.
  - right. left.
Defined.

(** Distinct ids are needed.  A transform with the id of an input replaces its provenance, and no check
    notices: the decision below reads [quote], declared as an external API, and the strategy compiles. *)
Lemma shadowed_input_launders :
  let s := sampleStrategy [usdInput "quote" EXTERNAL_API; usdInput "oracle" VERIFIED_ORACLE]
             [sumOf "quote" ["oracle"; "oracle"]] "quote" in
  ok (compileStrategy s) = true /\
  ok (compileStrategy (sampleStrategy [usdInput "quote" EXTERNAL_API] [] "quote")) = false.
Proof. vm_compute. split; reflexivity. Qed.

(** A transform that waits for one with an unknown reference is reported as part of a cycle. *)
Lemma unknown_reported_as_cycle :
  problems (compileStrategy (sampleStrategy [usdInput "oracle" VERIFIED_ORACLE]
    [sumOf "first" ["nothing"]; sumOf "second" ["first"]] "oracle")) =
  [P "STRAT-UNKNOWN-REF" CRITICAL "transforms.first"; P "STRAT-CYCLE" CRITICAL "transforms";
   P "STRAT-UNUSED-TRANSFORM" MEDIUM "transforms.second"].
Proof. vm_compute. reflexivity. Qed.

End Samples.
