(* ===== verification/Events.v ===== *)
(** * The event log

    [packages/studio-events/src].  [Event] is [event.ts], the audit record and the identity derived from
    its content.  [Redaction] is the scanner of [redaction.ts].  [Store] is [store.ts], the append-only
    log, its queries and corrections.  [Trace] is [correlation.ts], the assembly of one attempted action.

    SHA-256 and [localeCompare] are parameters.  Event values are trees: a value that contains itself,
    which the scanner also guards against, is outside the model, as is a caller that keeps and changes an
    object it was handed. *)

From S2P Require Import Prelude Regex Json Scanner Adapters.
From stdpp Require Import pretty sorting.
From Stdlib Require Import Ascii.
Local Open Scope Z_scope.

Module Event.

Inductive EventSource := AGENT | MODEL_GATEWAY | ADAPTER | CRE | CONTEXTLOCK | CHAIN | RUNTIME | OPERATOR | SYSTEM.
#[export] Instance EventSource_eq_dec : EqDecision EventSource.
Proof. solve_decision. Defined.

Inductive EventSeverity := DEBUG | INFO | NOTICE | WARNING | ERROR | CRITICAL.
#[export] Instance EventSeverity_eq_dec : EqDecision EventSeverity.
Proof. solve_decision. Defined.

Inductive EventType :=
| AGENT_TRIGGERED | AGENT_RUN_STARTED | AGENT_RUN_COMPLETED | AGENT_RUN_FAILED
| STRATEGY_EVALUATED | DECISION_NO_ACTION | DECISION_ALLOW | DECISION_ESCALATE | DECISION_DENY
| MODEL_REQUESTED | MODEL_COMPLETED | MODEL_REFUSED | MODEL_FAILED
| ADAPTER_READ | ADAPTER_FAILED | ADAPTER_HEALTH_CHANGED
| CRE_EXECUTION_STARTED | CRE_CAPABILITY_EVENT | CRE_EXECUTION_COMPLETED | CRE_EXECUTION_FAILED
| CRE_STATUS_CHANGED | CRE_TELEMETRY_STALE | CRE_LOG
| CAPABILITY_REQUESTED | CAPABILITY_ISSUED | CAPABILITY_REJECTED | AUTHORIZATION_RECORDED
| EXECUTION_SUBMITTED | EXECUTION_MINED | EXECUTION_CONFIRMING | EXECUTION_FINALIZED
| EXECUTION_REVERTED | EXECUTION_REORGED
| POLICY_STATE_OBSERVED | POLICY_CHANGED | IDENTITY_STATE_OBSERVED | IDENTITY_CHANGED
| STATE_DRIFT_DETECTED | STATE_DRIFT_RECONCILED
| RUNTIME_STATE_CHANGED | RUNTIME_HEALTH_CHANGED | RUNTIME_REVISION_CHANGED | RUNTIME_CREDENTIAL_FENCED
| CONTROL_COMMAND_ISSUED | CONTROL_COMMAND_APPLIED | CONTROL_COMMAND_REJECTED | CONTROL_COMMAND_FAILED
| EMERGENCY_LOCK_STARTED | EMERGENCY_LOCK_STEP | EMERGENCY_LOCK_COMPLETED | EMERGENCY_LOCK_PARTIAL
| ALERT_RAISED | ALERT_ACKNOWLEDGED | ALERT_RESOLVED
| EVENT_CORRECTED.
#[export] Instance EventType_eq_dec : EqDecision EventType.
Proof. solve_decision. Defined.

Definition sourceText (s : EventSource) : string :=
  match s with
  | AGENT => "AGENT" | MODEL_GATEWAY => "MODEL_GATEWAY" | ADAPTER => "ADAPTER" | CRE => "CRE"
  | CONTEXTLOCK => "CONTEXTLOCK" | CHAIN => "CHAIN" | RUNTIME => "RUNTIME" | OPERATOR => "OPERATOR"
  | SYSTEM => "SYSTEM"
  end.

Definition severityText (s : EventSeverity) : string :=
  match s with
  | DEBUG => "DEBUG" | INFO => "INFO" | NOTICE => "NOTICE" | WARNING => "WARNING" | ERROR => "ERROR"
  | CRITICAL => "CRITICAL"
  end.

Definition typeText (t : EventType) : string :=
  match t with
  | AGENT_TRIGGERED => "AGENT_TRIGGERED" | AGENT_RUN_STARTED => "AGENT_RUN_STARTED"
  | AGENT_RUN_COMPLETED => "AGENT_RUN_COMPLETED" | AGENT_RUN_FAILED => "AGENT_RUN_FAILED"
  | STRATEGY_EVALUATED => "STRATEGY_EVALUATED" | DECISION_NO_ACTION => "DECISION_NO_ACTION"
  | DECISION_ALLOW => "DECISION_ALLOW" | DECISION_ESCALATE => "DECISION_ESCALATE" | DECISION_DENY => "DECISION_DENY"
  | MODEL_REQUESTED => "MODEL_REQUESTED" | MODEL_COMPLETED => "MODEL_COMPLETED"
  | MODEL_REFUSED => "MODEL_REFUSED" | MODEL_FAILED => "MODEL_FAILED"
  | ADAPTER_READ => "ADAPTER_READ" | ADAPTER_FAILED => "ADAPTER_FAILED"
  | ADAPTER_HEALTH_CHANGED => "ADAPTER_HEALTH_CHANGED"
  | CRE_EXECUTION_STARTED => "CRE_EXECUTION_STARTED" | CRE_CAPABILITY_EVENT => "CRE_CAPABILITY_EVENT"
  | CRE_EXECUTION_COMPLETED => "CRE_EXECUTION_COMPLETED" | CRE_EXECUTION_FAILED => "CRE_EXECUTION_FAILED"
  | CRE_STATUS_CHANGED => "CRE_STATUS_CHANGED" | CRE_TELEMETRY_STALE => "CRE_TELEMETRY_STALE" | CRE_LOG => "CRE_LOG"
  | CAPABILITY_REQUESTED => "CAPABILITY_REQUESTED" | CAPABILITY_ISSUED => "CAPABILITY_ISSUED"
  | CAPABILITY_REJECTED => "CAPABILITY_REJECTED" | AUTHORIZATION_RECORDED => "AUTHORIZATION_RECORDED"
  | EXECUTION_SUBMITTED => "EXECUTION_SUBMITTED" | EXECUTION_MINED => "EXECUTION_MINED"
  | EXECUTION_CONFIRMING => "EXECUTION_CONFIRMING" | EXECUTION_FINALIZED => "EXECUTION_FINALIZED"
  | EXECUTION_REVERTED => "EXECUTION_REVERTED" | EXECUTION_REORGED => "EXECUTION_REORGED"
  | POLICY_STATE_OBSERVED => "POLICY_STATE_OBSERVED" | POLICY_CHANGED => "POLICY_CHANGED"
  | IDENTITY_STATE_OBSERVED => "IDENTITY_STATE_OBSERVED" | IDENTITY_CHANGED => "IDENTITY_CHANGED"
  | STATE_DRIFT_DETECTED => "STATE_DRIFT_DETECTED" | STATE_DRIFT_RECONCILED => "STATE_DRIFT_RECONCILED"
  | RUNTIME_STATE_CHANGED => "RUNTIME_STATE_CHANGED" | RUNTIME_HEALTH_CHANGED => "RUNTIME_HEALTH_CHANGED"
  | RUNTIME_REVISION_CHANGED => "RUNTIME_REVISION_CHANGED" | RUNTIME_CREDENTIAL_FENCED => "RUNTIME_CREDENTIAL_FENCED"
  | CONTROL_COMMAND_ISSUED => "CONTROL_COMMAND_ISSUED" | CONTROL_COMMAND_APPLIED => "CONTROL_COMMAND_APPLIED"
  | CONTROL_COMMAND_REJECTED => "CONTROL_COMMAND_REJECTED" | CONTROL_COMMAND_FAILED => "CONTROL_COMMAND_FAILED"
  | EMERGENCY_LOCK_STARTED => "EMERGENCY_LOCK_STARTED" | EMERGENCY_LOCK_STEP => "EMERGENCY_LOCK_STEP"
  | EMERGENCY_LOCK_COMPLETED => "EMERGENCY_LOCK_COMPLETED" | EMERGENCY_LOCK_PARTIAL => "EMERGENCY_LOCK_PARTIAL"
  | ALERT_RAISED => "ALERT_RAISED" | ALERT_ACKNOWLEDGED => "ALERT_ACKNOWLEDGED" | ALERT_RESOLVED => "ALERT_RESOLVED"
  | EVENT_CORRECTED => "EVENT_CORRECTED"
  end.

(** What a caller supplies. *)
Record EventDraft := {
  organizationId : option string;
  projectId : string;
  deploymentId : string;
  agentId : option string;
  source : EventSource;
  type : EventType;
  severity : EventSeverity;
  timestamp : Z;
  correlationId : string;
  agentRunId : option string;
  modelRunId : option string;
  strategyEvaluationId : option string;
  creExecutionId : option string;
  authorizationId : option string;
  capabilityId : option string;
  chainId : option Z;
  blockNumber : option string;
  txHash : option string;
  creWorkflowId : option string;
  adapterId : option string;
  runtimeRevision : option string;
  buildRevision : option Z;
  deploymentRevision : option string;
  correctsEventId : option string;
  publicMetadata : list (string * jsv)
}.

(** The stored record: the draft, the schema version, and what the store derives. *)
Record RuntimeEvent := { content : EventDraft; eventId : string; observedAtMs : Z }.

Definition SHA : re := Cat (lit "sha256:") (rep 64 (Chr is_hex)).
Definition HEX32 : re := Cat (lit "0x") (rep 64 (Chr is_hex)).

Definition nullOr {A : Type} (p : A -> bool) (o : option A) : bool := match o with Some x => p x | None => true end.

(** [RuntimeEventSchema] on a record of the right shape. *)
Definition draftOk (d : EventDraft) : bool :=
  let text := Manifest.textMin 1 in
  nullOr text (organizationId d) && text (projectId d) && text (deploymentId d) && nullOr text (agentId d) &&
  Manifest.posInt (timestamp d) && text (correlationId d) && nullOr text (agentRunId d) &&
  nullOr text (modelRunId d) && nullOr text (strategyEvaluationId d) && nullOr text (creExecutionId d) &&
  nullOr text (authorizationId d) && nullOr text (capabilityId d) && nullOr Manifest.posInt (chainId d) &&
  nullOr (matches DIGITS) (blockNumber d) && nullOr (matches HEX32) (txHash d) && nullOr text (creWorkflowId d) &&
  nullOr text (adapterId d) && nullOr text (runtimeRevision d) && nullOr Manifest.natInt (buildRevision d) &&
  nullOr text (deploymentRevision d) && nullOr (matches SHA) (correctsEventId d).

Definition eventOk (e : RuntimeEvent) : bool :=
  draftOk (content e) && matches SHA (eventId e) && Manifest.posInt (observedAtMs e).

(** The document an event's identity is taken over: everything but [eventId] and [observedAtMs]. *)
Definition draftValue (d : EventDraft) : jsv :=
  VObj [("organizationId", orNull VStr (organizationId d)); ("projectId", VStr (projectId d));
        ("deploymentId", VStr (deploymentId d)); ("agentId", orNull VStr (agentId d));
        ("source", VStr (sourceText (source d))); ("type", VStr (typeText (type d)));
        ("severity", VStr (severityText (severity d))); ("timestamp", VNum (timestamp d));
        ("correlationId", VStr (correlationId d)); ("agentRunId", orNull VStr (agentRunId d));
        ("modelRunId", orNull VStr (modelRunId d));
        ("strategyEvaluationId", orNull VStr (strategyEvaluationId d));
        ("creExecutionId", orNull VStr (creExecutionId d));
        ("authorizationId", orNull VStr (authorizationId d));
        ("capabilityId", orNull VStr (capabilityId d)); ("chainId", orNull VNum (chainId d));
        ("blockNumber", orNull VStr (blockNumber d)); ("txHash", orNull VStr (txHash d));
        ("creWorkflowId", orNull VStr (creWorkflowId d)); ("adapterId", orNull VStr (adapterId d));
        ("runtimeRevision", orNull VStr (runtimeRevision d));
        ("buildRevision", orNull VNum (buildRevision d));
        ("deploymentRevision", orNull VStr (deploymentRevision d));
        ("correctsEventId", orNull VStr (correctsEventId d));
        ("schemaVersion", VStr "contextlock.runtime-event/v1");
        ("publicMetadata", VObj (publicMetadata d))].

Section identity.
Context (sha256 : string -> string).

Definition deriveEventId (d : EventDraft) : result JsonError string :=
  let* t := canonicalize (draftValue d) in Ok ("sha256:" +:+ sha256 t).

(** Two drafts that say the same: equal fields, and metadata equal in canonical form. *)
Definition sameContent (d d' : EventDraft) : Prop :=
  organizationId d = organizationId d' /\ projectId d = projectId d' /\ deploymentId d = deploymentId d' /\
  agentId d = agentId d' /\ source d = source d' /\ type d = type d' /\ severity d = severity d' /\
  timestamp d = timestamp d' /\ correlationId d = correlationId d' /\ agentRunId d = agentRunId d' /\
  modelRunId d = modelRunId d' /\ strategyEvaluationId d = strategyEvaluationId d' /\
  creExecutionId d = creExecutionId d' /\ authorizationId d = authorizationId d' /\
  capabilityId d = capabilityId d' /\ chainId d = chainId d' /\ blockNumber d = blockNumber d' /\
  txHash d = txHash d' /\ creWorkflowId d = creWorkflowId d' /\ adapterId d = adapterId d' /\
  runtimeRevision d = runtimeRevision d' /\ buildRevision d = buildRevision d' /\
  deploymentRevision d = deploymentRevision d' /\ correctsEventId d = correctsEventId d' /\
  sameC (VObj (publicMetadata d)) (VObj (publicMetadata d')).

Lemma sourceText_inj s s' : sourceText s = sourceText s' -> s = s'.
Proof. destruct s, s'; done. Qed.
Lemma severityText_inj s s' : severityText s = severityText s' -> s = s'.
Proof. destruct s, s'; done. Qed.

(** Every type, in order: the text of a type is found at its place only. *)
Definition allTypes : list EventType :=
  [AGENT_TRIGGERED; AGENT_RUN_STARTED; AGENT_RUN_COMPLETED; AGENT_RUN_FAILED; STRATEGY_EVALUATED;
   DECISION_NO_ACTION; DECISION_ALLOW; DECISION_ESCALATE; DECISION_DENY; MODEL_REQUESTED; MODEL_COMPLETED;
   MODEL_REFUSED; MODEL_FAILED; ADAPTER_READ; ADAPTER_FAILED; ADAPTER_HEALTH_CHANGED; CRE_EXECUTION_STARTED;
   CRE_CAPABILITY_EVENT; CRE_EXECUTION_COMPLETED; CRE_EXECUTION_FAILED; CRE_STATUS_CHANGED;
   CRE_TELEMETRY_STALE; CRE_LOG; CAPABILITY_REQUESTED; CAPABILITY_ISSUED; CAPABILITY_REJECTED;
   AUTHORIZATION_RECORDED; EXECUTION_SUBMITTED; EXECUTION_MINED; EXECUTION_CONFIRMING; EXECUTION_FINALIZED;
   EXECUTION_REVERTED; EXECUTION_REORGED; POLICY_STATE_OBSERVED; POLICY_CHANGED; IDENTITY_STATE_OBSERVED;
   IDENTITY_CHANGED; STATE_DRIFT_DETECTED; STATE_DRIFT_RECONCILED; RUNTIME_STATE_CHANGED;
   RUNTIME_HEALTH_CHANGED; RUNTIME_REVISION_CHANGED; RUNTIME_CREDENTIAL_FENCED; CONTROL_COMMAND_ISSUED;
   CONTROL_COMMAND_APPLIED; CONTROL_COMMAND_REJECTED; CONTROL_COMMAND_FAILED; EMERGENCY_LOCK_STARTED;
   EMERGENCY_LOCK_STEP; EMERGENCY_LOCK_COMPLETED; EMERGENCY_LOCK_PARTIAL; ALERT_RAISED; ALERT_ACKNOWLEDGED;
   ALERT_RESOLVED; EVENT_CORRECTED].

Definition typeOf (s : string) : option EventType := List.find (fun t => streq (typeText t) s) allTypes.

Lemma typeOf_typeText t : typeOf (typeText t) = Some t.
Proof. by destruct t. Qed.

Lemma typeText_inj t t' : typeText t = typeText t' -> t = t'.
Proof. intros E. enough (Some t = Some t') as [= ->] by done. by rewrite <- !typeOf_typeText, E. Qed.

Lemma orNull_str o o' : sameC (orNull VStr o) (orNull VStr o') -> o = o'.
Proof. apply same_orNull; [done|by intros x y ?%same_str]. Qed.
Lemma orNull_num o o' : sameC (orNull VNum o) (orNull VNum o') -> o = o'.
Proof. apply same_orNull; [done|by intros x y ?%same_num]. Qed.

Lemma draft_field d d' k : sameC (draftValue d) (draftValue d') -> keptKey k = true ->
  option_Forall2 sameC (match draftValue d with VObj l => getKey k l | _ => None end)
                       (match draftValue d' with VObj l => getKey k l | _ => None end).
Proof.
  intros H Hk. apply same_obj; [| |done|exact H]; apply (bool_decide_unpack _); vm_compute; exact I.
Qed.

(** The two drafts of [H] agree on the property [k]. *)
Ltac sameField H k := let R := fresh "R" in
  pose proof (draft_field _ _ k H eq_refl) as R; simpl in R; inversion R; subst; clear R.

Lemma draftValue_same d d' : sameC (draftValue d) (draftValue d') -> sameContent d d'.
Proof.
  intros H. unfold sameContent.
  split_and!.
  1: sameField H "organizationId". 2: sameField H "projectId". 3: sameField H "deploymentId". 4: sameField H "agentId".
  5: sameField H "source". 6: sameField H "type". 7: sameField H "severity". 8: sameField H "timestamp".
  9: sameField H "correlationId". 10: sameField H "agentRunId". 11: sameField H "modelRunId".
  12: sameField H "strategyEvaluationId". 13: sameField H "creExecutionId". 14: sameField H "authorizationId".
  15: sameField H "capabilityId". 16: sameField H "chainId". 17: sameField H "blockNumber". 18: sameField H "txHash".
  19: sameField H "creWorkflowId". 20: sameField H "adapterId". 21: sameField H "runtimeRevision".
  22: sameField H "buildRevision". 23: sameField H "deploymentRevision". 24: sameField H "correctsEventId".
  25: sameField H "publicMetadata".
  all: eauto using orNull_str, orNull_num, same_str, same_num, sourceText_inj, severityText_inj, typeText_inj.
Qed.

End identity.

End Event.

Module Redaction.

Definition FORBIDDEN_FIELD_NAMES : list string :=
  ["apiKey"; "api_key"; "API_KEY"; "OPENAI_API_KEY"; "CRE_API_KEY"; "E2B_API_KEY"; "THEGRAPH_API_KEY";
   "accessToken"; "access_token"; "refreshToken"; "refresh_token"; "sessionToken"; "session_token";
   "bearer"; "authorization"; "Authorization"; "credentials"; "credential"; "password"; "passphrase";
   "clientSecret"; "client_secret"; "AWS_SECRET_ACCESS_KEY"; "secret"; "secrets";
   "privateKey"; "private_key"; "PRIVATE_KEY"; "signingKey"; "signing_key"; "issuerKey";
   "capabilityIssuerKey"; "adminKey"; "mnemonic"; "seed"; "seedPhrase"; "keystore";
   "ledgerPin"; "ledgerSeed"; "runtimeToken"; "gatewaySecret";
   "privateThreshold"; "confidentialThreshold"; "secretThreshold"; "hiddenLimit";
   "rawConfidentialResponse"; "confidentialPayload"; "privatePolicyValue";
   "chainOfThought"; "reasoningTrace"; "modelReasoning"; "rawPrompt"; "systemPrompt"].

Definition VALUE_PATTERNS : list ValuePattern :=
  [openaiKey; jwt; pemPrivateKey; awsAccessKeyId; e2bApiKey; bip39Mnemonic;
   {| patternKind := "cre-session-path"; wordStart := false;
      body := Cat (lit ".cre/cre.y") (Cat (Alt Eps (lit "a")) (lit "ml")); rest := anyText |};
   {| patternKind := "aws-credentials-path"; wordStart := false;
      body := lit ".aws/credentials"; rest := anyText |}].

(** [HASH_LIKE_KEY], case-insensitive; only the last alternative is anchored. *)
Definition hashWords : list string :=
  ["hash"; "digest"; "node"; "labelhash"; "txhash"; "tx"; "receipt"; "root"; "selector"; "commit"; "sha";
   "bytecode"; "code"; "salt"].
Definition hashLikeKey (key : string) : bool :=
  let k := to_lower key in
  some (fun w => str_contains w k) hashWords || ends_with "id" k || ends_with "ids" k.

Definition scanForSecrets (v : jsv) (rootPath : string) : list RedactionHit :=
  walk FORBIDDEN_FIELD_NAMES VALUE_PATTERNS hashLikeKey v rootPath rootPath.

Definition assertPublicSafe (v : jsv) (surface : string) : result (list RedactionHit) unit :=
  let hits := scanForSecrets v surface in
  throw hits when Manifest.nonempty hits ;;
  Ok tt.

(** A value with nothing to hide: [Scanner.clean] for the names, patterns and hash names above. *)
Definition isPublic (v : jsv) (surface : string) : Prop :=
  clean FORBIDDEN_FIELD_NAMES VALUE_PATTERNS hashLikeKey v surface.

Lemma public_ok (v : jsv) (surface : string) : assertPublicSafe v surface = Ok tt <-> isPublic v surface.
Proof.
  unfold assertPublicSafe, scanForSecrets, isPublic. rewrite throw_ok, <- (walk_none _ _ _ v surface surface).
  destruct (walk _ _ _ v surface surface); simpl; naive_solver.
Qed.

(** The scanner passes a value exactly when, at every depth and through arrays, no property has a
    forbidden name, no string matches a secret pattern, and no 32-byte hexadecimal string stands under a
    property name that is not that of a hash. *)
Theorem assertPublicSafe_spec (v : jsv) (surface : string) :
  assertPublicSafe v surface = Ok tt <-> isPublic v surface.
Proof. apply public_ok. Qed.

End Redaction.

Module Store.
Import Event Redaction.

Section log.
Context (sha256 : string -> string).

Inductive AppendError :=
| UNSAFE (hits : list RedactionHit)
| UNSERIALIZABLE (e : JsonError)
| MALFORMED.

Record InMemoryEventStore := { byId : gmap string RuntimeEvent; order : list string }.

Definition newStore : InMemoryEventStore := {| byId := ∅; order := [] |}.

(** Whether the event was created, the stored event, and the store afterwards. *)
Definition append (draft : EventDraft) (observed : Z) (st : InMemoryEventStore)
    : result AppendError (bool * RuntimeEvent * InMemoryEventStore) :=
  match assertPublicSafe (VObj (publicMetadata draft)) "runtime-event" with
  | Err hits => Err (UNSAFE hits)
  | Ok _ =>
      match deriveEventId sha256 draft with
      | Err e => Err (UNSERIALIZABLE e)
      | Ok eid =>
          let candidate := {| content := draft; eventId := eid; observedAtMs := observed |} in
          throw MALFORMED when negb (eventOk candidate) ;;
          match byId st !! eid with
          | Some existing => Ok (false, existing, st)
          | None => Ok (true, candidate, {| byId := <[eid := candidate]> (byId st); order := order st ++ [eid] |})
          end
      end
  end.

Definition get (eid : string) (st : InMemoryEventStore) : option RuntimeEvent := byId st !! eid.

Definition count (st : InMemoryEventStore) : nat := size (byId st).

Definition correctionOf (original : RuntimeEvent) (ty : EventType) (sev : EventSeverity) (src : EventSource)
    (at_ : Z) (metadata : list (string * jsv)) : EventDraft :=
  let o := content original in
  {| organizationId := organizationId o; projectId := projectId o; deploymentId := deploymentId o;
     agentId := agentId o; source := src; type := ty; severity := sev; timestamp := at_;
     correlationId := correlationId o; agentRunId := agentRunId o; modelRunId := modelRunId o;
     strategyEvaluationId := strategyEvaluationId o; creExecutionId := creExecutionId o;
     authorizationId := authorizationId o; capabilityId := capabilityId o; chainId := chainId o;
     blockNumber := blockNumber o; txHash := txHash o; creWorkflowId := creWorkflowId o;
     adapterId := adapterId o; runtimeRevision := runtimeRevision o; buildRevision := buildRevision o;
     deploymentRevision := deploymentRevision o; correctsEventId := Some (eventId original);
     publicMetadata := setProp "correctsType" (VStr (typeText (type o)))
                         (setProp "corrects" (VStr (eventId original)) metadata) |}.

(** *** The log *)

Definition recorded (e : RuntimeEvent) : Prop :=
  deriveEventId sha256 (content e) = Ok (eventId e) /\ eventOk e = true /\
  isPublic (VObj (publicMetadata (content e))) "runtime-event".

Definition storeOk (st : InMemoryEventStore) : Prop :=
  NoDup (order st) /\ (forall i, i ∈ order st <-> is_Some (byId st !! i)) /\
  (forall i e, byId st !! i = Some e -> eventId e = i /\ recorded e).

Lemma append_inv d t st b e st' : append d t st = Ok (b, e, st') ->
  exists eid, deriveEventId sha256 d = Ok eid /\
    let cand := {| content := d; eventId := eid; observedAtMs := t |} in
    recorded cand /\
    ((b = false /\ byId st !! eid = Some e /\ st' = st) \/
     (b = true /\ byId st !! eid = None /\ e = cand /\
      st' = {| byId := <[eid := cand]> (byId st); order := order st ++ [eid] |})).
Proof.
  unfold append. destruct (assertPublicSafe _ _) as [[]|] eqn:Es; [|done].
  destruct (deriveEventId sha256 d) as [eid|] eqn:Ed; [|done]. rewrite throw_ok. intros [Hok%negb_false_iff H].
  exists eid. split; [done|]. split; [split; [exact Ed|split; [exact Hok|apply public_ok; exact Es]]|].
  destruct (byId st !! eid) as [x|] eqn:Ex; injection H as <- <- <-; [left|right]; done.
Qed.

Lemma append_ok d t st b e st' : storeOk st -> append d t st = Ok (b, e, st') -> storeOk st'.
Proof.
  intros (H1 & H2 & H3) (eid & Hid & Hrec & [(_ & _ & ->)|(_ & Hn & -> & ->)])%append_inv; [done|].
  unfold storeOk. simpl. split_and!.
  - apply NoDup_app. split_and!; [done| |apply NoDup_singleton].
    intros x Hx ->%list_elem_of_singleton. apply H2 in Hx. rewrite Hn in Hx. by destruct Hx.
  - intros i. rewrite elem_of_app, list_elem_of_singleton, H2, lookup_insert_is_Some'. naive_solver.
  - intros i x. rewrite lookup_insert. case_decide as Hi; [|apply H3]. by intros [= <-].
Qed.

(** Any sequence of appends; a refused one leaves the store as it was. *)
Definition appendAll (l : list (EventDraft * Z)) (st : InMemoryEventStore) : InMemoryEventStore :=
  foldl (fun st p => match append p.1 p.2 st with Ok (_, st') => st' | Err _ => st end) st l.

Lemma append_grows d t st b e st' : storeOk st -> append d t st = Ok (b, e, st') ->
  (exists l, order st' = order st ++ l) /\ forall i x, byId st !! i = Some x -> byId st' !! i = Some x.
Proof.
  intros (_ & H2 & _) (eid & _ & _ & [(_ & _ & ->)|(_ & Hn & -> & ->)])%append_inv.
  - split; [exists []; by rewrite app_nil_r|done].
  - simpl. split; [by exists [eid]|]. intros i x Hx. rewrite lookup_insert_ne; [done|]. congruence.
Qed.

Lemma appendAll_grows l st : storeOk st ->
  storeOk (appendAll l st) /\ (exists m, order (appendAll l st) = order st ++ m) /\
  forall i x, byId st !! i = Some x -> byId (appendAll l st) !! i = Some x.
Proof.
  revert st. induction l as [|[d t] l IH]; intros st Hst.
  { split_and!; [done|exists []; by rewrite app_nil_r|done]. }
  simpl. destruct (append d t st) as [[[b e] st']|] eqn:E; [|by apply IH].
  destruct (append_grows d t st b e st' Hst E) as [[m1 Hm1] Hg].
  destruct (IH st' (append_ok d t st b e st' Hst E)) as (H1 & [m2 Hm2] & H3). split_and!; [done| |eauto].
  exists (m1 ++ m2). by rewrite Hm2, Hm1, app_assoc.
Qed.

Lemma newStore_ok : storeOk newStore.
Proof.
  split_and!; simpl; [apply NoDup_nil_2| |].
  - intros i. rewrite lookup_empty, elem_of_nil. by split; [|intros []].
  - intros i e. by rewrite lookup_empty.
Qed.

(** The log only grows.  Whatever was appended before and whatever is appended afterwards, the
    event an append returns keeps its place and its content, its identity is the hash of what it says and
    its metadata passes the scanner; appending the same draft again, at any later time, creates nothing
    and returns the first record. *)
Theorem append_log (before after : list (EventDraft * Z)) (d : EventDraft) (t t' : Z) (b : bool)
    (e : RuntimeEvent) (st' : InMemoryEventStore) :
  append d t (appendAll before newStore) = Ok (b, e, st') -> Manifest.posInt t' = true ->
  storeOk st' /\ recorded e /\ get (eventId e) (appendAll after st') = Some e /\
  (exists l, order (appendAll after st') = order (appendAll before newStore) ++ l) /\
  append d t' (appendAll after st') = Ok (false, e, appendAll after st').
Proof.
  intros Ha Ht'. destruct (appendAll_grows before _ newStore_ok) as (Hb & _).
  pose proof (append_ok _ _ _ _ _ _ Hb Ha) as Hst'.
  destruct (append_grows _ _ _ _ _ _ Hb Ha) as [[l1 Hl1] _].
  destruct (appendAll_grows after _ Hst') as (Hf & [l2 Hl2] & Hg).
  destruct (append_inv _ _ _ _ _ _ Ha) as (eid & Hid & (Hr1 & Hr2 & Hr3) & Hcase). simpl in *.
  assert (Hin : byId st' !! eid = Some e).
  { destruct Hcase as [(_ & ? & ->)|(_ & _ & -> & ->)]; [done|]. simpl. apply lookup_insert_eq. }
  destruct Hst' as (G1 & G2 & G3). destruct (G3 _ _ Hin) as [He Hrec].
  split; [by split|]. split; [exact Hrec|]. split; [rewrite He; by apply Hg|].
  split; [exists (l1 ++ l2); by rewrite Hl2, Hl1, app_assoc|].
  unfold append. rewrite (proj2 (public_ok _ _) Hr3), Hid. unfold eventOk in *. cbn [content eventId observedAtMs] in *.
  apply andb_true_iff in Hr2 as [Hr2 _]. rewrite Hr2, Ht'. simpl. by rewrite (Hg _ _ Hin).
Qed.

(** An append is taken for a repetition only of an event that says the same -- equal in every field,
    the metadata up to the order of keys -- or SHA-256 has a collision. *)
Theorem append_identity (before : list (EventDraft * Z)) (d : EventDraft) (t : Z) (e : RuntimeEvent)
    (st' : InMemoryEventStore) :
  append d t (appendAll before newStore) = Ok (false, e, st') -> sameContent d (content e) \/ collides sha256.
Proof.
  intros Ha. destruct (appendAll_grows before _ newStore_ok) as ((_ & _ & H3) & _).
  destruct (append_inv _ _ _ _ _ _ Ha) as (eid & Hid & _ & [(_ & Hin & _)|(? & _)]); [|done].
  destruct (H3 _ _ Hin) as [He (Hd & _)]. rewrite He in Hd. unfold deriveEventId in *.
  apply rbind_ok in Hid as (x & Hx & Ex), Hd as (y & Hy & Ey).
  assert (E : sha256 x = sha256 y) by (apply (Json.app_inv_head "sha256:"); congruence).
  destruct (digest_same sha256 _ _ x y Hx Hy E) as [Hs|Hc]; [|by right].
  left. by apply draftValue_same.
Qed.

End log.

Section query.
Context (sha256 : string -> string) (localeCompare : string -> string -> Z).
#[local] Abbreviation storeOk := (storeOk sha256).
#[local] Abbreviation recorded := (recorded sha256).
#[local] Abbreviation appendAll := (appendAll sha256).

(** *** Queries *)

Record EventQuery := {
  q_projectId : option string;
  q_deploymentId : option string;
  q_agentId : option string;
  q_source : option EventSource;
  q_type : option EventType;
  q_severity : option EventSeverity;
  q_minSeverity : option EventSeverity;
  q_correlationId : option string;
  q_chainId : option Z;
  q_txHash : option string;
  q_adapterId : option string;
  q_creExecutionId : option string;
  q_sinceMs : option Z;
  q_untilMs : option Z;
  q_limit : option Z;
  q_desc : bool
}.

Definition SEVERITY_RANK (s : EventSeverity) : Z :=
  match s with DEBUG => 0 | INFO => 1 | NOTICE => 2 | WARNING => 3 | ERROR => 4 | CRITICAL => 5 end.

(** [eq(k, v)]: an absent value filters nothing. *)
Definition eqOr {A : Type} `{EqDecision A} (wanted : option A) (actual : A) : bool :=
  match wanted with Some v => bool_decide (actual = v) | None => true end.
Definition eqOrNull {A : Type} `{EqDecision A} (wanted actual : option A) : bool :=
  match wanted with Some v => bool_decide (actual = Some v) | None => true end.

Definition selects (q : EventQuery) (e : RuntimeEvent) : bool :=
  let d := content e in
  eqOr (q_projectId q) (projectId d) && eqOr (q_deploymentId q) (deploymentId d) &&
  eqOrNull (q_agentId q) (agentId d) && eqOr (q_source q) (source d) && eqOr (q_type q) (type d) &&
  eqOr (q_severity q) (severity d) && eqOr (q_correlationId q) (correlationId d) &&
  eqOrNull (q_chainId q) (chainId d) && eqOrNull (q_txHash q) (txHash d) &&
  eqOrNull (q_adapterId q) (adapterId d) && eqOrNull (q_creExecutionId q) (creExecutionId d) &&
  match q_minSeverity q with Some s => SEVERITY_RANK s <=? SEVERITY_RANK (severity d) | None => true end &&
  match q_sinceMs q with Some t => t <=? timestamp d | None => true end &&
  match q_untilMs q with Some t => timestamp d <=? t | None => true end.

(** [a.timestamp - b.timestamp || a.eventId.localeCompare(b.eventId)]. *)
Definition compareEvents (a b : RuntimeEvent) : Z :=
  let t := timestamp (content a) - timestamp (content b) in
  if t =? 0 then localeCompare (eventId a) (eventId b) else t.

Definition event_le (a b : RuntimeEvent) : Prop := compareEvents a b <= 0.
#[export] Instance event_le_dec : RelDecision event_le.
Proof. intros a b. unfold event_le. apply _. Defined.

(** [rows.slice(0, n)]. *)
Definition sliceTo {A : Type} (n : Z) (l : list A) : list A :=
  if n <? 0 then take (Z.to_nat (Z.of_nat (length l) + n)) l else take (Z.to_nat n) l.

Definition allRows (st : InMemoryEventStore) : list RuntimeEvent := omap (fun i => byId st !! i) (order st).

Definition query (q : EventQuery) (st : InMemoryEventStore) : list RuntimeEvent :=
  let sorted := merge_sort event_le (List.filter (selects q) (allRows st)) in
  let rows := if q_desc q then reverse sorted else sorted in
  match q_limit q with Some n => sliceTo n rows | None => rows end.

Definition anyQuery : EventQuery :=
  {| q_projectId := None; q_deploymentId := None; q_agentId := None; q_source := None; q_type := None;
     q_severity := None; q_minSeverity := None; q_correlationId := None; q_chainId := None;
     q_txHash := None; q_adapterId := None; q_creExecutionId := None; q_sinceMs := None;
     q_untilMs := None; q_limit := None; q_desc := false |}.

Definition correlated (cid : string) (st : InMemoryEventStore) : list RuntimeEvent :=
  query {| q_projectId := None; q_deploymentId := None; q_agentId := None; q_source := None; q_type := None;
     q_severity := None; q_minSeverity := None; q_correlationId := Some cid; q_chainId := None;
     q_txHash := None; q_adapterId := None; q_creExecutionId := None; q_sinceMs := None;
     q_untilMs := None; q_limit := None; q_desc := false |} st.

Lemma allRows_in st e : storeOk st -> e ∈ allRows st <-> get (eventId e) st = Some e.
Proof.
  intros (_ & H2 & H3). unfold allRows, get. rewrite list_elem_of_omap. split.
  - intros (i & _ & Hi). destruct (H3 i e Hi) as [-> _]. done.
  - intros H. exists (eventId e). split; [apply H2; eauto|done].
Qed.

Lemma allRows_NoDup st : storeOk st -> NoDup (allRows st).
Proof.
  intros (H1 & H2 & H3). unfold allRows. revert H1. generalize (order st) as l. induction l as [|i l IH]; intros Hnd;
    [apply NoDup_nil_2|]. apply NoDup_cons in Hnd as [Hi Hnd]. simpl.
  destruct (byId st !! i) as [e|] eqn:E; [|by apply IH]. apply NoDup_cons. split; [|by apply IH].
  intros (j & Hj & Hje)%list_elem_of_omap. destruct (H3 _ _ E) as [<- _], (H3 _ _ Hje) as [He _]. congruence.
Qed.

Lemma allRows_perm st st' : storeOk st -> storeOk st' -> byId st = byId st' -> allRows st ≡ₚ allRows st'.
Proof.
  intros Hs Hs' E. apply NoDup_Permutation; [by apply allRows_NoDup|by apply allRows_NoDup|].
  intros e. rewrite !allRows_in by done. unfold get. by rewrite E.
Qed.

Context `{!Collation localeCompare}.

#[local] Instance event_le_total : Total event_le.
Proof.
  intros a b. unfold event_le, compareEvents.
  pose proof (collation_total (eventId a) (eventId b)).
  destruct (Z.eqb_spec (timestamp (content a) - timestamp (content b)) 0),
    (Z.eqb_spec (timestamp (content b) - timestamp (content a)) 0); lia.
Qed.

#[local] Instance event_le_trans : Transitive event_le.
Proof.
  intros a b c. unfold event_le, compareEvents.
  pose proof (collation_trans (eventId a) (eventId b) (eventId c)).
  destruct (Z.eqb_spec (timestamp (content a) - timestamp (content b)) 0),
    (Z.eqb_spec (timestamp (content b) - timestamp (content c)) 0),
    (Z.eqb_spec (timestamp (content a) - timestamp (content c)) 0); lia.
Qed.

Lemma sha_refChar : re_within refChar SHA = true.
Proof. vm_compute. reflexivity. Qed.

Lemma recorded_ref e : recorded e -> all_chars refChar (eventId e) = true.
Proof.
  intros (_ & Hok & _). unfold eventOk in Hok. apply andb_true_iff in Hok as [Hok _].
  apply andb_true_iff in Hok as [_ Hm]. exact (matched_chars _ _ _ sha_refChar Hm).
Qed.

Lemma event_le_antisym st a b : storeOk st -> get (eventId a) st = Some a -> get (eventId b) st = Some b ->
  event_le a b -> event_le b a -> a = b.
Proof.
  intros (_ & _ & H3) Ha Hb. unfold get in *. destruct (H3 _ _ Ha) as [_ Hra], (H3 _ _ Hb) as [_ Hrb].
  unfold event_le, compareEvents.
  destruct (Z.eqb_spec (timestamp (content a) - timestamp (content b)) 0),
    (Z.eqb_spec (timestamp (content b) - timestamp (content a)) 0); try lia.
  intros H1 H2. assert (E : eventId a = eventId b) by (apply collation_refs; try done; by apply recorded_ref).
  rewrite E in Ha. congruence.
Qed.

Definition selected (q : EventQuery) (st : InMemoryEventStore) : list RuntimeEvent :=
  merge_sort event_le (List.filter (selects q) (allRows st)).

Lemma selected_in q st e : storeOk st ->
  e ∈ selected q st <-> get (eventId e) st = Some e /\ selects q e = true.
Proof.
  intros Hs. unfold selected. rewrite <- (allRows_in st e Hs).
  rewrite (elem_of_Permutation_proper e _ _ (merge_sort_Permutation event_le _)).
  by rewrite list_elem_of_In, filter_In, <- list_elem_of_In.
Qed.

Lemma filter_perm {A : Type} (f : A -> bool) (l l' : list A) : l ≡ₚ l' -> List.filter f l ≡ₚ List.filter f l'.
Proof.
  induction 1 as [|x l l' _ IH|x y l|l1 l2 l3 _ IH1 _ IH2]; simpl; [done| | |by etrans].
  - destruct (f x); [by constructor|done].
  - destruct (f x), (f y); try done. apply Permutation_swap.
Qed.

Lemma selected_stable q st st' : storeOk st -> storeOk st' -> byId st = byId st' -> selected q st = selected q st'.
Proof.
  intros Hs Hs' E. apply (StronglySorted_unique_strong event_le).
  - intros a b [Ha _]%(selected_in q st a Hs) Hb. apply (selected_in q st' b Hs') in Hb as [Hb _].
    apply (event_le_antisym st a b Hs Ha). unfold get in *. by rewrite E.
  - apply StronglySorted_merge_sort; apply _.
  - apply StronglySorted_merge_sort; apply _.
  - unfold selected. rewrite !merge_sort_Permutation. by apply filter_perm, allRows_perm.
Qed.

(** A query returns exactly the stored events its fields select, each once, in order of time and, at
    one time, of identity -- reversed for a descending query, cut to the first [limit] -- and the answer
    depends on the set of stored events only, not on the order in which they were appended. *)
Theorem query_spec (l l' : list (EventDraft * Z)) (q : EventQuery) :
  let st := appendAll l newStore in let st' := appendAll l' newStore in
  let rows := if q_desc q then reverse (selected q st) else selected q st in
  query q st = match q_limit q with Some n => sliceTo n rows | None => rows end /\
  (forall e, e ∈ rows <-> get (eventId e) st = Some e /\ selects q e = true) /\
  NoDup rows /\ StronglySorted event_le (selected q st) /\
  (byId st = byId st' -> query q st = query q st').
Proof.
  intros st st' rows. destruct (appendAll_grows sha256 l _ (newStore_ok sha256)) as (Hs & _).
  destruct (appendAll_grows sha256 l' _ (newStore_ok sha256)) as (Hs' & _). fold st in Hs. fold st' in Hs'.
  split; [done|]. split; [|split; [|split]].
  - intros e. rewrite <- (selected_in q st e Hs). subst rows. destruct (q_desc q); [|done]. apply elem_of_reverse.
  - assert (Hnd : NoDup (selected q st)).
    { unfold selected. rewrite merge_sort_Permutation. apply NoDup_ListNoDup, List.NoDup_filter, NoDup_ListNoDup.
      by apply allRows_NoDup. }
    subst rows. destruct (q_desc q); [|done]. by rewrite reverse_Permutation.
  - apply StronglySorted_merge_sort; apply _.
  - intros E. unfold query. fold (selected q st). fold (selected q st'). by rewrite (selected_stable q st st' Hs Hs' E).
Qed.

End query.

End Store.

Module Trace.
Import Event.

Inductive TraceStage :=
| TRIGGER | DATA_READ | STRATEGY_EVALUATION | MODEL_INVOCATION | CRE_EVALUATION | CONTEXTLOCK_DECISION
| AUTHORIZATION | CAPABILITY | SUBMISSION | TRANSACTION | RECEIPT | FINALIZED.
#[export] Instance TraceStage_eq_dec : EqDecision TraceStage.
Proof. solve_decision. Defined.

Definition TRACE_STAGES : list TraceStage :=
  [TRIGGER; DATA_READ; STRATEGY_EVALUATION; MODEL_INVOCATION; CRE_EVALUATION; CONTEXTLOCK_DECISION;
   AUTHORIZATION; CAPABILITY; SUBMISSION; TRANSACTION; RECEIPT; FINALIZED].

Definition stageOf (t : EventType) : option TraceStage :=
  match t with
  | AGENT_TRIGGERED | AGENT_RUN_STARTED => Some TRIGGER
  | ADAPTER_READ | ADAPTER_FAILED => Some DATA_READ
  | STRATEGY_EVALUATED => Some STRATEGY_EVALUATION
  | MODEL_REQUESTED | MODEL_COMPLETED | MODEL_REFUSED | MODEL_FAILED => Some MODEL_INVOCATION
  | CRE_EXECUTION_STARTED | CRE_CAPABILITY_EVENT | CRE_EXECUTION_COMPLETED | CRE_EXECUTION_FAILED =>
      Some CRE_EVALUATION
  | DECISION_ALLOW | DECISION_DENY | DECISION_ESCALATE | DECISION_NO_ACTION => Some CONTEXTLOCK_DECISION
  | AUTHORIZATION_RECORDED => Some AUTHORIZATION
  | CAPABILITY_REQUESTED | CAPABILITY_ISSUED | CAPABILITY_REJECTED => Some CAPABILITY
  | EXECUTION_SUBMITTED => Some SUBMISSION
  | EXECUTION_MINED | EXECUTION_REVERTED => Some TRANSACTION
  | EXECUTION_CONFIRMING => Some RECEIPT
  | EXECUTION_FINALIZED | EXECUTION_REORGED => Some FINALIZED
  | _ => None
  end.

Record TraceNode := { stage : TraceStage; events : list RuntimeEvent; firstAtMs : Z; lastAtMs : Z }.

Record Identifiers := {
  agentRunIds : list string;
  modelRunIds : list string;
  strategyEvaluationIds : list string;
  creExecutionIds : list string;
  authorizationIds : list string;
  capabilityIds : list string;
  txHashes : list string
}.

Record ActionTrace := {
  a_correlationId : string;
  stages : list TraceNode;
  identifiers : Identifiers;
  reached : option TraceStage;
  corrected : bool;
  startedAtMs : option Z;
  endedAtMs : option Z
}.

(** [[...new Set(xs without nulls)]]: first occurrences. *)
Fixpoint uniqFrom (seen : list string) (l : list (option string)) : list string :=
  match l with
  | [] => []
  | None :: l' => uniqFrom seen l'
  | Some x :: l' => if includes seen x then uniqFrom seen l' else x :: uniqFrom (x :: seen) l'
  end.
Definition uniq (l : list (option string)) : list string := uniqFrom [] l.

Definition time_le (a b : RuntimeEvent) : Prop := timestamp (content a) <= timestamp (content b).
#[export] Instance time_le_dec : RelDecision time_le.
Proof. intros a b. unfold time_le. apply _. Defined.
#[export] Instance time_le_total : Total time_le.
Proof. intros a b. unfold time_le. lia. Qed.
#[export] Instance time_le_trans : Transitive time_le.
Proof. intros a b c. unfold time_le. lia. Qed.

Definition inStage (s : TraceStage) (e : RuntimeEvent) : bool := bool_decide (stageOf (type (content e)) = Some s).

Definition traceNode (mine : list RuntimeEvent) (s : TraceStage) : option TraceNode :=
  match merge_sort time_le (List.filter (inStage s) mine) with
  | [] => None
  | e :: l => Some {| stage := s; events := e :: l; firstAtMs := timestamp (content e);
                      lastAtMs := timestamp (content (List.last l e)) |}
  end.

Definition mineOf (cid : string) (evs : list RuntimeEvent) : list RuntimeEvent :=
  List.filter (fun e => streq (correlationId (content e)) cid) evs.

Definition buildTrace (cid : string) (evs : list RuntimeEvent) : ActionTrace :=
  let mine := mineOf cid evs in
  let nodes := omap (traceNode mine) TRACE_STAGES in
  let times := merge_sort Z.le (map (fun e => timestamp (content e)) mine) in
  let ids f := uniq (map (fun e => f (content e)) mine) in
  {| a_correlationId := cid; stages := nodes;
     identifiers := {| agentRunIds := ids agentRunId; modelRunIds := ids modelRunId;
       strategyEvaluationIds := ids strategyEvaluationId; creExecutionIds := ids creExecutionId;
       authorizationIds := ids authorizationId; capabilityIds := ids capabilityId; txHashes := ids txHash |};
     reached := stage <$> last nodes;
     corrected := some (fun e => match correctsEventId (content e) with Some _ => true | None => false end) mine;
     startedAtMs := head times; endedAtMs := last times |}.

Record Needle := {
  n_txHash : option string;
  n_capabilityId : option string;
  n_creExecutionId : option string;
  n_authorizationId : option string;
  n_agentRunId : option string
}.

Definition named (wanted actual : option string) : bool :=
  match wanted, actual with Some w, Some a => streq a w | _, _ => false end.

Definition correlationIdFor (evs : list RuntimeEvent) (n : Needle) : option string :=
  (fun e => correlationId (content e)) <$>
  List.find (fun e => let d := content e in
    match n_txHash n, txHash d with Some w, Some a => eq_ci a w | _, _ => false end ||
    named (n_capabilityId n) (capabilityId d) || named (n_creExecutionId n) (creExecutionId d) ||
    named (n_authorizationId n) (authorizationId d) || named (n_agentRunId n) (agentRunId d)) evs.

Record SafeTraceContext := {
  c_correlationId : string;
  c_agentRunId : option string;
  c_deploymentId : string;
  c_agentId : option string
}.

Definition safeTraceContextOk (c : SafeTraceContext) : bool :=
  Manifest.textMin 1 (c_correlationId c) && Manifest.textMin 1 (c_deploymentId c).

Definition FORBIDDEN_BAGGAGE_KEYS : list string :=
  ["amount"; "amountUsdCents"; "threshold"; "policyThreshold"; "reasoning"; "chainOfThought"; "prompt";
   "privateKey"; "capability"; "signature"; "balance"].

(** *** What a trace shows *)

Lemma uniqFrom_in seen l x : x ∈ uniqFrom seen l <-> Some x ∈ l /\ x ∉ seen.
Proof.
  revert seen. induction l as [|[y|] l IH]; intros seen; simpl; rewrite ?elem_of_nil, ?elem_of_cons; [naive_solver| |].
  - destruct (includes seen y) eqn:E; [apply includes_true in E|apply includes_false in E];
      rewrite ?elem_of_cons, IH, ?elem_of_cons; destruct (decide (x = y)); naive_solver.
  - rewrite IH. naive_solver.
Qed.

Lemma uniqFrom_NoDup seen l : NoDup (uniqFrom seen l).
Proof.
  revert seen. induction l as [|[y|] l IH]; intros seen; simpl; [apply NoDup_nil_2| |apply IH].
  destruct (includes seen y); [apply IH|]. apply NoDup_cons. split; [|apply IH].
  rewrite uniqFrom_in, elem_of_cons. naive_solver.
Qed.

Lemma traceNode_spec mine s n : traceNode mine s = Some n ->
  stage n = s /\ events n ≡ₚ List.filter (inStage s) mine /\ StronglySorted time_le (events n) /\ events n <> [] /\
  forall e, e ∈ events n -> firstAtMs n <= timestamp (content e) <= lastAtMs n.
Proof.
  unfold traceNode. pose proof (merge_sort_Permutation time_le (List.filter (inStage s) mine)) as Hp.
  pose proof (StronglySorted_merge_sort time_le (List.filter (inStage s) mine)) as Hs.
  destruct (merge_sort _ _) as [|e l]; [done|]. intros [= <-]. simpl. split_and!; try done.
  intros x Hx. split.
  - apply StronglySorted_inv in Hs as [_ Hf]. rewrite Forall_forall in Hf.
    apply elem_of_cons in Hx as [->|Hx]; [lia|by apply Hf].
  - clear Hp. revert e x Hs Hx. induction l as [|y l IH]; intros e x Hs Hx.
    + apply list_elem_of_singleton in Hx as ->. simpl. lia.
    + apply StronglySorted_inv in Hs as [Hs Hf]. apply Forall_cons in Hf as [Hey _]. unfold time_le in Hey.
      change (List.last (y :: l) e) with (match l with [] => y | _ => List.last l e end).
      replace (match l with [] => y | _ => List.last l e end) with (List.last l y)
        by (clear; destruct l as [|z l]; [done|]; revert z; induction l; intros; simpl in *; eauto).
      apply elem_of_cons in Hx as [->|Hx]; [|by apply IH].
      pose proof (IH y y Hs (list_elem_of_here _ _)). lia.
Qed.

Lemma traceNode_none mine s : traceNode mine s = None <-> forall e, e ∈ mine -> inStage s e = false.
Proof.
  unfold traceNode. pose proof (merge_sort_Permutation time_le (List.filter (inStage s) mine)) as Hp.
  destruct (merge_sort _ _) as [|x l].
  - split; [|done]. intros _ e He. apply Permutation_nil_l in Hp. destruct (inStage s e) eqn:E; [|done].
    assert (Hin : e ∈ List.filter (inStage s) mine) by (rewrite list_elem_of_In, filter_In, <- list_elem_of_In; done).
    rewrite <- Hp in Hin. by apply not_elem_of_nil in Hin.
  - split; [done|]. intros H. exfalso. assert (Hin : x ∈ List.filter (inStage s) mine) by (rewrite <- Hp; left).
    rewrite list_elem_of_In, filter_In, <- list_elem_of_In in Hin. destruct Hin as [Hx Hs]. by rewrite (H x Hx) in Hs.
Qed.

Lemma omap_stages mine (l : list TraceStage) n : n ∈ omap (traceNode mine) l <-> exists s, s ∈ l /\ traceNode mine s = Some n.
Proof. apply list_elem_of_omap. Qed.

Lemma stages_sublist mine (l : list TraceStage) : sublist (map stage (omap (traceNode mine) l)) l.
Proof.
  induction l as [|s l IH]; simpl; [constructor|].
  destruct (traceNode mine s) as [n|] eqn:E; simpl; [|by constructor].
  destruct (traceNode_spec _ _ _ E) as [<- _]. by constructor.
Qed.

(** A trace shows every event of its correlation id that belongs to a stage, at its own stage only and
    in order of time, the stages in the fixed order of an action whatever the observers' clocks say, and
    the stage reached is the last that has an event; each identifier is listed once, and any of the
    transaction hashes listed, in either letter case, leads back to an event with that hash. *)
Theorem buildTrace_spec (cid : string) (evs : list RuntimeEvent) :
  let t := buildTrace cid evs in
  sublist (map stage (stages t)) TRACE_STAGES /\
  (forall e s, e ∈ evs -> correlationId (content e) = cid -> stageOf (type (content e)) = Some s ->
     exists n, n ∈ stages t /\ stage n = s /\ e ∈ events n) /\
  (forall n e, n ∈ stages t -> e ∈ events n ->
     e ∈ evs /\ correlationId (content e) = cid /\ stageOf (type (content e)) = Some (stage n) /\
     firstAtMs n <= timestamp (content e) <= lastAtMs n) /\
  (forall n, n ∈ stages t -> StronglySorted time_le (events n)) /\
  reached t = last (map stage (stages t)) /\
  (forall h, h ∈ txHashes (identifiers t) ->
     is_Some (correlationIdFor evs {| n_txHash := Some (to_lower h); n_capabilityId := None; n_creExecutionId := None;
       n_authorizationId := None; n_agentRunId := None |})) /\
  NoDup (txHashes (identifiers t)).
Proof.
  intros t. subst t. unfold buildTrace. cbn [stages reached identifiers txHashes].
  assert (Hmine : forall e, e ∈ mineOf cid evs <-> e ∈ evs /\ correlationId (content e) = cid).
  { intros e. unfold mineOf. rewrite list_elem_of_In, filter_In, <- list_elem_of_In, streq_true. done. }
  split; [|split; [|split; [|split; [|split; [|split]]]]].
  - apply stages_sublist.
  - intros e s He Hc Hs. destruct (traceNode (mineOf cid evs) s) as [n|] eqn:E.
    + exists n. destruct (traceNode_spec _ _ _ E) as (Hst & Hp & _). split_and!; [|done|].
      * apply omap_stages. exists s. split; [destruct s; vm_compute; repeat first [left; reflexivity|right]|done].
      * rewrite Hp, list_elem_of_In, filter_In, <- list_elem_of_In, Hmine. unfold inStage. by rewrite Hs, bool_decide_eq_true.
    + pose proof (proj1 (traceNode_none _ _) E e (proj2 (Hmine e) (conj He Hc))) as Hf.
      unfold inStage in Hf. by rewrite Hs, bool_decide_eq_false in Hf.
  - intros n e (s & _ & E)%omap_stages He. destruct (traceNode_spec _ _ _ E) as (<- & Hp & _ & _ & Hb).
    pose proof (Hb e He). rewrite Hp, list_elem_of_In, filter_In, <- list_elem_of_In, Hmine in He.
    unfold inStage in He. rewrite bool_decide_eq_true in He. naive_solver.
  - intros n (s & _ & E)%omap_stages. by destruct (traceNode_spec _ _ _ E) as (_ & _ & ? & _).
  - symmetry. apply fmap_last.
  - intros h Hh. apply uniqFrom_in in Hh as [(e & Eh & He)%list_elem_of_fmap _]. apply Hmine in He as [He _].
    unfold correlationIdFor. apply fmap_is_Some. destruct (List.find _ evs) as [x|] eqn:E; [eauto|exfalso].
    rewrite find_none_iff in E. specialize (E e He). simpl in E. rewrite <- Eh in E. unfold eq_ci in E.
    by rewrite to_lower_idemp, streq_refl in E.
  - apply uniqFrom_NoDup.
Qed.

End Trace.

Module Samples.
Import Event Redaction Store Trace.

(** A digest of 64 hexadecimal characters, standing in for SHA-256. *)
Definition sampleDigest (s : string) : string := Observation.hexPad 64 (Observation.fnv 0x811c9dc5 s).

Definition sampleDraft (ty : EventType) (at_ : Z) (meta : list (string * jsv)) : EventDraft :=
  {| organizationId := None; projectId := "p"; deploymentId := "d"; agentId := Some "a"; source := CHAIN;
     type := ty; severity := INFO; timestamp := at_; correlationId := "c"; agentRunId := None;
     modelRunId := None; strategyEvaluationId := None; creExecutionId := None; authorizationId := None;
     capabilityId := None; chainId := Some 11155111; blockNumber := Some "12";
     txHash := Some ("0x" +:+ Observation.hexPad 64 7); creWorkflowId := None;
     adapterId := None; runtimeRevision := None; buildRevision := None; deploymentRevision := None;
     correctsEventId := None; publicMetadata := meta |}.

Definition mined : EventDraft := sampleDraft EXECUTION_MINED 10 [("gas", VStr "21000")].

Lemma append_log_witness :
  match append sampleDigest mined 20 (appendAll sampleDigest [] newStore) with
  | Ok (b, e, st') => b = true /\ get (eventId e) (appendAll sampleDigest [(mined, 30)] st') = Some e
  | Err _ => False
  end.
Proof.
  destruct (append sampleDigest mined 20 (appendAll sampleDigest [] newStore)) as [[[b e] st']|] eqn:E.
  - split.
    + assert (Hb : match append sampleDigest mined 20 (appendAll sampleDigest [] newStore) with
                   | Ok (b, _, _) => b | Err _ => false end = true) by (vm_compute; reflexivity).
      rewrite E in Hb. exact Hb.
    + exact (proj1 (proj2 (proj2 (append_log sampleDigest [] [(mined, 30)] mined 20 40 b e st' E eq_refl)))).
  - exfalso. assert (Hok : is_ok (append sampleDigest mined 20 (appendAll sampleDigest [] newStore)) = true)
      by (vm_compute; reflexivity).
    rewrite E in Hok. discriminate Hok.
Defined.

Lemma append_identity_witness :
  match append sampleDigest mined 30 (appendAll sampleDigest [(mined, 20)] newStore) with
  | Ok (false, e, _) => sameContent mined (content e) \/ collides sampleDigest
  | _ => False
  end.
Proof.
  destruct (append sampleDigest mined 30 (appendAll sampleDigest [(mined, 20)] newStore)) as [[[[|] e] st']|] eqn:E.
  - assert (Hb : match append sampleDigest mined 30 (appendAll sampleDigest [(mined, 20)] newStore) with
                 | Ok (b, _, _) => b | Err _ => true end = false) by (vm_compute; reflexivity).
    rewrite E in Hb. discriminate Hb.
  - exact (append_identity sampleDigest [(mined, 20)] mined 30 e st' E).
  - assert (Hok : is_ok (append sampleDigest mined 30 (appendAll sampleDigest [(mined, 20)] newStore)) = true)
      by (vm_compute; reflexivity).
    rewrite E in Hok. discriminate Hok.
Defined.

(** The scanner's canaries are caught; a secret used as a property name is not. *)
Lemma canaries :
  is_ok (assertPublicSafe (VObj [("note", VStr "sk-proj-NOT-A-REAL-KEY-CANARY-000000000")]) "runtime-event") = false /\
  is_ok (assertPublicSafe (VArr [VObj [("note", VStr "/Users/someone/.cre/cre.yaml")]]) "runtime-event") = false /\
  is_ok (assertPublicSafe (VObj [("a", VObj [("apiKey", VStr "")])]) "runtime-event") = false /\
  is_ok (assertPublicSafe (VObj [("txHash", VStr ("0x" +:+ Observation.hexPad 64 7))]) "runtime-event") = true /\
  is_ok (assertPublicSafe (VObj [("owner", VStr ("0x" +:+ Observation.hexPad 64 7))]) "runtime-event") = false /\
  is_ok (assertPublicSafe (VObj [("sk-proj-NOT-A-REAL-KEY-CANARY-000000000", VNull)]) "runtime-event") = true.
Proof. vm_compute. repeat split; reflexivity. Qed.

(** A transaction taken back by a reorganization counts as finalized. *)
Lemma reorg_reaches_finalized :
  reached (buildTrace "c" [{| content := sampleDraft EXECUTION_REORGED 20 []; eventId := "e"; observedAtMs := 20 |}]) =
  Some FINALIZED.
Proof. vm_compute. reflexivity. Qed.

End Samples.
