(* ===== verification/Control.v ===== *)
(** * The control plane: freshness, commands, the emergency lock

    [packages/studio-control-plane/src].  [Freshness] is [freshness.ts], observations and when they may be
    shown as current.  [Commands] is [commands.ts], the validation of operator commands and the log that
    makes an intent happen once.  [Emergency] is [emergency.ts], the emergency lock.

    Random identifiers, the clock and SHA-256 are inputs.  The actions of the emergency lock answer
    through a function of the step; a step is called at most once in a run.  Message texts are left
    out. *)

From S2P Require Import Prelude Regex Json Adapters.
From stdpp Require Import pretty sorting.
From Stdlib Require Import Ascii.
Local Open Scope Z_scope.

Module Freshness.

Inductive ObservationState := NOT_CONFIGURED | HEALTHY | STALE | DEGRADED | FAILED | BLOCKED | DRIFT.
#[export] Instance ObservationState_eq_dec : EqDecision ObservationState.
Proof. solve_decision. Defined.

Record Observation (T : Type) := {
  state : ObservationState;
  value : option T;
  observedAtMs : Z;
  source : string;
  ttlMs : Z;
  reason : option string
}.
Arguments Build_Observation {T}.
Arguments state {T}.
Arguments value {T}.
Arguments observedAtMs {T}.
Arguments source {T}.
Arguments ttlMs {T}.
Arguments reason {T}.

Definition observed {T : Type} (v : T) (at_ : Z) (src : string) (ttl : Z) (st : option ObservationState)
    (why : option string) : Observation T :=
  {| state := default HEALTHY st; value := Some v; observedAtMs := at_; source := src; ttlMs := ttl; reason := why |}.

Definition unavailable {T : Type} (st : ObservationState) (at_ : Z) (src : string) (ttl : Z) (why : string)
    : Observation T :=
  {| state := st; value := None; observedAtMs := at_; source := src; ttlMs := ttl; reason := Some why |}.

Section presentation.
Context {T : Type}.

Definition isExpired (o : Observation T) (nowMs : Z) : bool := ttlMs o <? nowMs - observedAtMs o.

(** An observation with its age and whether it is current. *)
Record Presented := { shown : Observation T; ageMs : Z; isCurrent : bool }.

Definition presentable (o : Observation T) (nowMs : Z) : Presented :=
  let age := nowMs - observedAtMs o in
  let expired := isExpired o nowMs in
  if expired && (bool_decide (state o = HEALTHY) || bool_decide (state o = DEGRADED)) then
    {| shown := {| state := STALE; value := value o; observedAtMs := observedAtMs o; source := source o;
                   ttlMs := ttlMs o; reason := Some "last confirmed" |};
       ageMs := age; isCurrent := false |}
  else {| shown := o; ageMs := age; isCurrent := negb expired && bool_decide (state o = HEALTHY) |}.

Definition allCurrent (os : list (Observation T)) (nowMs : Z) : bool :=
  Manifest.nonempty os && every (fun o => isCurrent (presentable o nowMs)) os.

Lemma presentable_current o nowMs : isCurrent (presentable o nowMs) = true <->
  state o = HEALTHY /\ nowMs - observedAtMs o <= ttlMs o.
Proof.
  unfold presentable, isExpired. destruct (Z.ltb_spec (ttlMs o) (nowMs - observedAtMs o)); simpl.
  - destruct (bool_decide (state o = HEALTHY) || bool_decide (state o = DEGRADED)); simpl; split; try done; lia.
  - rewrite bool_decide_eq_true. split; [|tauto]. intros ?. split; [done|lia].
Qed.

(** Nothing is shown green because it was once true.  What is shown keeps the value and its time; it
    is HEALTHY or current exactly when the reading was healthy and its age is within its limit; past the
    limit a healthy or degraded reading is shown as STALE with a reason; and a set of readings is all
    current exactly when it is not empty and each one is. *)
Theorem presentable_honest (o : Observation T) (os : list (Observation T)) (nowMs : Z) :
  let p := presentable o nowMs in
  (isCurrent p = true <-> state o = HEALTHY /\ nowMs - observedAtMs o <= ttlMs o) /\
  (state (shown p) = HEALTHY <-> isCurrent p = true) /\
  value (shown p) = value o /\ observedAtMs (shown p) = observedAtMs o /\ ageMs p = nowMs - observedAtMs o /\
  (isExpired o nowMs = true -> state o = HEALTHY \/ state o = DEGRADED ->
     state (shown p) = STALE /\ reason (shown p) <> None) /\
  (allCurrent os nowMs = true <-> os <> [] /\ forall x, x ∈ os -> state x = HEALTHY /\ nowMs - observedAtMs x <= ttlMs x).
Proof.
  intros p. split; [apply presentable_current|]. split.
  { unfold p, presentable. destruct (isExpired o nowMs); simpl; [|by rewrite bool_decide_eq_true].
    destruct (state o) eqn:Es; simpl; rewrite ?Es; by split. }
  split_and!; [by unfold p, presentable; case_match..| |].
  - intros He Hs. unfold p, presentable. rewrite He.
    destruct Hs as [-> | ->]; simpl; (split; [done|discriminate]).
  - unfold allCurrent. rewrite andb_true_iff, every_true. setoid_rewrite presentable_current.
    destruct os; simpl; naive_solver.
Qed.

End presentation.
Arguments Presented : clear implicits.

Definition DEFAULT_TTLS : list (string * Z) :=
  [("chain", 30000); ("policy", 30000); ("identity", 60000); ("cre", 120000); ("runtime", 30000);
   ("adapter", 120000)].

End Freshness.

Module Commands.

Inductive OperatorCapability :=
| VIEW | RUNTIME_CONTROL | CRE_CONTROL | POLICY_CONTROL | IDENTITY_CONTROL | EMERGENCY_CONTROL.
#[export] Instance OperatorCapability_eq_dec : EqDecision OperatorCapability.
Proof. solve_decision. Defined.

Inductive ControlOperation :=
| PAUSE_RUNTIME | RESUME_RUNTIME | ROLLBACK_RUNTIME | ROTATE_RUNTIME_REVISION
| PAUSE_CRE | ACTIVATE_CRE | DELETE_CRE
| DISABLE_POLICY | ENABLE_POLICY | REVOKE_IDENTITY | EMERGENCY_LOCK.
#[export] Instance ControlOperation_eq_dec : EqDecision ControlOperation.
Proof. solve_decision. Defined.

Definition operationText (o : ControlOperation) : string :=
  match o with
  | PAUSE_RUNTIME => "PAUSE_RUNTIME" | RESUME_RUNTIME => "RESUME_RUNTIME" | ROLLBACK_RUNTIME => "ROLLBACK_RUNTIME"
  | ROTATE_RUNTIME_REVISION => "ROTATE_RUNTIME_REVISION" | PAUSE_CRE => "PAUSE_CRE"
  | ACTIVATE_CRE => "ACTIVATE_CRE" | DELETE_CRE => "DELETE_CRE" | DISABLE_POLICY => "DISABLE_POLICY"
  | ENABLE_POLICY => "ENABLE_POLICY" | REVOKE_IDENTITY => "REVOKE_IDENTITY" | EMERGENCY_LOCK => "EMERGENCY_LOCK"
  end.

Record Requirement := { capability : OperatorCapability; destructive : bool; isFinancialStop : bool }.

Definition OPERATION_REQUIREMENTS (o : ControlOperation) : Requirement :=
  match o with
  | PAUSE_RUNTIME | RESUME_RUNTIME | ROLLBACK_RUNTIME | ROTATE_RUNTIME_REVISION =>
      {| capability := RUNTIME_CONTROL; destructive := false; isFinancialStop := false |}
  | PAUSE_CRE | ACTIVATE_CRE => {| capability := CRE_CONTROL; destructive := false; isFinancialStop := false |}
  | DELETE_CRE => {| capability := CRE_CONTROL; destructive := true; isFinancialStop := false |}
  | DISABLE_POLICY => {| capability := POLICY_CONTROL; destructive := false; isFinancialStop := true |}
  | ENABLE_POLICY => {| capability := POLICY_CONTROL; destructive := false; isFinancialStop := false |}
  | REVOKE_IDENTITY => {| capability := IDENTITY_CONTROL; destructive := true; isFinancialStop := false |}
  | EMERGENCY_LOCK => {| capability := EMERGENCY_CONTROL; destructive := false; isFinancialStop := true |}
  end.

Record Actor := { actorId : string; displayName : string; capabilities : list OperatorCapability }.

Record CommandTarget := {
  tg_agentId : option string;
  tg_runtimeRevision : option string;
  tg_creWorkflowName : option string;
  tg_policyHash : option string;
  tg_identityNode : option string
}.

Record ControlCommand := {
  schemaVersion : string;
  commandId : string;
  projectId : string;
  deploymentId : string;
  actor : Actor;
  operation : ControlOperation;
  target : CommandTarget;
  expectedRevision : string;
  issuedAtMs : Z;
  expiresAtMs : Z;
  idempotencyKey : string;
  confirmation : option (list (string * jsv));
  cmdReason : option string
}.

Definition CONTROL_COMMAND_VERSION : string := "contextlock.control-command/v1".

(** [ControlCommandSchema] on a record of the right shape. *)
Definition commandOk (c : ControlCommand) : bool :=
  let text := Manifest.textMin 1 in
  streq (schemaVersion c) CONTROL_COMMAND_VERSION && text (commandId c) && text (projectId c) &&
  text (deploymentId c) && text (actorId (actor c)) && text (displayName (actor c)) &&
  text (expectedRevision c) && Manifest.posInt (issuedAtMs c) && Manifest.posInt (expiresAtMs c) &&
  Manifest.textMin 8 (idempotencyKey c) &&
  match cmdReason c with Some r => (String.length r <=? 500)%nat | None => true end.

Inductive CommandReason :=
| NOT_AUTHORIZED | STALE_REVISION | EXPIRED | MALFORMED | CONFIRMATION_REQUIRED | EMERGENCY_LOCK_ACTIVE.

Definition jsonOrNull (o : option string) : json := match o with Some s => JStr s | None => JNull end.

Definition targetJson (t : CommandTarget) : json :=
  JObj [("agentId", jsonOrNull (tg_agentId t)); ("runtimeRevision", jsonOrNull (tg_runtimeRevision t));
        ("creWorkflowName", jsonOrNull (tg_creWorkflowName t)); ("policyHash", jsonOrNull (tg_policyHash t));
        ("identityNode", jsonOrNull (tg_identityNode t))].

(** The intent the key is derived from. *)
Definition intentText (deployment : string) (op : ControlOperation) (t : CommandTarget) (rev : string) : string :=
  stringify (JArr [JStr deployment; JStr (operationText op); targetJson t; JStr rev]).

Section commands.
Context (sha256 : string -> string).

Definition intentKey (deployment : string) (op : ControlOperation) (t : CommandTarget) (rev : string) : string :=
  "idem_" +:+ String.substring 0 32 (sha256 (intentText deployment op t rev)).

(** [newCommand]: the random id and an optional key are arguments. *)
Definition newCommand (cid project deployment : string) (a : Actor) (op : ControlOperation) (t : CommandTarget)
    (rev : string) (issued expires : Z) (conf : option (list (string * jsv))) (why key : option string)
    : ControlCommand :=
  {| schemaVersion := CONTROL_COMMAND_VERSION; commandId := cid; projectId := project; deploymentId := deployment;
     actor := a; operation := op; target := t; expectedRevision := rev; issuedAtMs := issued;
     expiresAtMs := expires; idempotencyKey := default (intentKey deployment op t rev) key;
     confirmation := conf; cmdReason := why |}.

(** Refused while an emergency lock is in force. *)
Definition restores (o : ControlOperation) : bool := includes [ENABLE_POLICY; ACTIVATE_CRE; RESUME_RUNTIME] o.

Definition assertCommandValid (c : ControlCommand) (currentRevision : string) (nowMs : Z) (lockActive : bool)
    : result CommandReason unit :=
  let req := OPERATION_REQUIREMENTS (operation c) in
  throw MALFORMED when negb (commandOk c) ;;
  throw NOT_AUTHORIZED when negb (includes (capabilities (actor c)) (capability req)) ;;
  throw EXPIRED when expiresAtMs c <? nowMs ;;
  throw STALE_REVISION when negb (streq (expectedRevision c) currentRevision) ;;
  throw CONFIRMATION_REQUIRED when
    destructive req && match confirmation c with None => true | Some _ => false end ;;
  throw EMERGENCY_LOCK_ACTIVE when lockActive && restores (operation c) ;;
  Ok tt.

(** *** The command log *)

Inductive CommandOutcome := PENDING | APPLIED | REJECTED | FAILED.

Record CommandRecord := {
  r_commandId : string;
  r_idempotencyKey : string;
  r_operation : ControlOperation;
  r_actorId : string;
  r_issuedAtMs : Z;
  completedAtMs : option Z;
  outcome : CommandOutcome;
  detail : option string;
  result_ : jsv
}.

(** [byKey] holds the records; [byId] refers to the same objects, here by their key. *)
Record CommandLog := { byKey : gmap string CommandRecord; byId : list (string * string) }.

Definition emptyLog : CommandLog := {| byKey := ∅; byId := [] |}.

Fixpoint setId (cid key : string) (l : list (string * string)) : list (string * string) :=
  match l with
  | [] => [(cid, key)]
  | p :: l' => if streq p.1 cid then (cid, key) :: l' else p :: setId cid key l'
  end.

(** The existing record, or [None] once the key is reserved. *)
Definition begin (c : ControlCommand) (nowMs : Z) (l : CommandLog) : option CommandRecord * CommandLog :=
  match byKey l !! idempotencyKey c with
  | Some r => (Some r, l)
  | None =>
      let r := {| r_commandId := commandId c; r_idempotencyKey := idempotencyKey c; r_operation := operation c;
                  r_actorId := actorId (actor c); r_issuedAtMs := nowMs; completedAtMs := None;
                  outcome := PENDING; detail := None; result_ := VNull |} in
      (None, {| byKey := <[idempotencyKey c := r]> (byKey l); byId := setId (commandId c) (idempotencyKey c) (byId l) |})
  end.

Definition completed (r : CommandRecord) (o : CommandOutcome) (d : string) (res : jsv) (nowMs : Z) : CommandRecord :=
  {| r_commandId := r_commandId r; r_idempotencyKey := r_idempotencyKey r; r_operation := r_operation r;
     r_actorId := r_actorId r; r_issuedAtMs := r_issuedAtMs r; completedAtMs := Some nowMs; outcome := o;
     detail := Some d; result_ := res |}.

Definition complete (c : ControlCommand) (o : CommandOutcome) (d : string) (res : jsv) (nowMs : Z) (l : CommandLog)
    : result CommandReason (CommandRecord * CommandLog) :=
  match byKey l !! idempotencyKey c with
  | None => Err MALFORMED
  | Some r =>
      let r' := completed r o d res nowMs in
      Ok (r', {| byKey := <[idempotencyKey c := r']> (byKey l); byId := byId l |})
  end.

Definition get (cid : string) (l : CommandLog) : option CommandRecord :=
  match List.find (fun p => streq p.1 cid) (byId l) with
  | Some p => byKey l !! p.2
  | None => None
  end.

Definition byIdempotencyKey (key : string) (l : CommandLog) : option CommandRecord := byKey l !! key.

Definition issued_le (a b : CommandRecord) : Prop := r_issuedAtMs a <= r_issuedAtMs b.
#[export] Instance issued_le_dec : RelDecision issued_le.
Proof. intros a b. unfold issued_le. apply _. Defined.

Definition all (l : CommandLog) : list CommandRecord := merge_sort issued_le (omap (fun p => byKey l !! p.2) (byId l)).

(** What a paused runtime may claim; the message texts are left out. *)
Record PauseClaim := { financiallySecured : bool; warned : bool }.

Definition runtimePauseClaim (policyEnabledOnChain : option bool) : PauseClaim :=
  match policyEnabledOnChain with
  | None => {| financiallySecured := false; warned := true |}
  | Some e => {| financiallySecured := negb e; warned := e |}
  end.

(** *** Validation *)

(** A command is accepted exactly when it is well formed, its actor holds the capability of the
    operation, it has not expired, it was issued against the current revision, a destructive operation is
    confirmed, and no emergency lock forbids it.  An actor without the capability learns nothing of the
    revision or the lock: the answer is NOT_AUTHORIZED for every current revision, time and lock. *)
Theorem assertCommandValid_spec (c : ControlCommand) (rev : string) (nowMs : Z) (lock : bool) :
  (assertCommandValid c rev nowMs lock = Ok tt <->
    commandOk c = true /\ capability (OPERATION_REQUIREMENTS (operation c)) ∈ capabilities (actor c) /\
    nowMs <= expiresAtMs c /\ expectedRevision c = rev /\
    (operation c = DELETE_CRE \/ operation c = REVOKE_IDENTITY -> confirmation c <> None) /\
    (lock = true -> operation c ∉ [ENABLE_POLICY; ACTIVATE_CRE; RESUME_RUNTIME])) /\
  (commandOk c = true -> capability (OPERATION_REQUIREMENTS (operation c)) ∉ capabilities (actor c) ->
    forall rev' nowMs' lock', assertCommandValid c rev' nowMs' lock' = Err NOT_AUTHORIZED) /\
  (assertCommandValid c rev nowMs lock = Err STALE_REVISION -> expectedRevision c <> rev /\ nowMs <= expiresAtMs c).
Proof.
  split; [|split].
  - unfold assertCommandValid, restores. rewrite !throw_ok, !negb_false_iff, includes_true, streq_true, Z.ltb_ge,
      !andb_false_iff, includes_false.
    assert (Hd : destructive (OPERATION_REQUIREMENTS (operation c)) = false \/
        match confirmation c with None => true | Some _ => false end = false <->
        (operation c = DELETE_CRE \/ operation c = REVOKE_IDENTITY -> confirmation c <> None)).
    { destruct (operation c), (confirmation c); simpl; naive_solver. }
    rewrite Hd. destruct lock; naive_solver.
  - intros Hok Hn rev' nowMs' lock'. unfold assertCommandValid. rewrite Hok. simpl.
    apply includes_false in Hn. by rewrite Hn.
  - unfold assertCommandValid. destruct (commandOk c); simpl; [|done].
    destruct (includes _ _); simpl; [|done]. destruct (Z.ltb_spec (expiresAtMs c) nowMs); [done|].
    destruct (streq (expectedRevision c) rev) eqn:E; simpl; [|intros _; split; [by apply streq_false|lia]].
    destruct (_ && _); [done|]. by destruct (_ && _).
Qed.

(** *** One intent, one execution *)

Inductive LogOp :=
| Begin (c : ControlCommand) (nowMs : Z)
| Complete (c : ControlCommand) (o : CommandOutcome) (d : string) (res : jsv) (nowMs : Z).

(** The log after an operation, and the key that operation reserved, if it did. *)
Definition logStep (l : CommandLog) (o : LogOp) : CommandLog * option string :=
  match o with
  | Begin c now =>
      match begin c now l with
      | (None, l') => (l', Some (idempotencyKey c))
      | (Some _, l') => (l', None)
      end
  | Complete c oc d res now => (match complete c oc d res now l with Ok (_, l') => l' | Err _ => l end, None)
  end.

Fixpoint logRun (l : CommandLog) (ops : list LogOp) : CommandLog * list string :=
  match ops with
  | [] => (l, [])
  | o :: ops' =>
      let s := logStep l o in
      let r := logRun s.1 ops' in
      (r.1, match s.2 with Some k => k :: r.2 | None => r.2 end)
  end.

Lemma logStep_keeps l o k : is_Some (byKey l !! k) -> is_Some (byKey (logStep l o).1 !! k).
Proof.
  intros Hk. destruct o as [c now|c oc d res now]; simpl.
  - unfold begin. destruct (byKey l !! idempotencyKey c); simpl; [done|]. apply lookup_insert_is_Some'. by right.
  - unfold complete. destruct (byKey l !! idempotencyKey c); simpl; [|done]. apply lookup_insert_is_Some'. by right.
Qed.

Lemma logStep_reserves l o k : (logStep l o).2 = Some k -> byKey l !! k = None /\ is_Some (byKey (logStep l o).1 !! k).
Proof.
  destruct o as [c now|c oc d res now]; simpl; [|done]. unfold begin.
  destruct (byKey l !! idempotencyKey c) eqn:E; simpl; [done|]. intros [= <-]. split; [done|].
  apply lookup_insert_is_Some'. by left.
Qed.

(** An intent is carried out at most once.  Over any sequence of begins and completions, a key is
    reserved -- its command told to proceed -- at most once, and only if it was not in the log before. *)
Theorem command_once (ops : list LogOp) (l : CommandLog) :
  NoDup (logRun l ops).2 /\ forall k, k ∈ (logRun l ops).2 -> byKey l !! k = None.
Proof.
  revert l. induction ops as [|o ops IH]; intros l; simpl.
  { split; [apply NoDup_nil_2|by intros k ?%not_elem_of_nil]. }
  destruct (IH (logStep l o).1) as [H1 H2].
  assert (Hold : forall k, k ∈ (logRun (logStep l o).1 ops).2 -> byKey l !! k = None).
  { intros k Hk. destruct (byKey l !! k) eqn:E; [|done]. exfalso.
    destruct (logStep_keeps l o k) as [r Hr]; [eauto|]. rewrite (H2 k Hk) in Hr. done. }
  destruct (logStep l o).2 as [k|] eqn:Es; [|done].
  destruct (logStep_reserves l o k Es) as [Hn [r Hr]]. split.
  - apply NoDup_cons. split; [|done]. intros Hk. rewrite (H2 k Hk) in Hr. done.
  - intros k' [->|Hk']%elem_of_cons; [done|by apply Hold].
Qed.

Lemma operationText_inj o o' : operationText o = operationText o' -> o = o'.
Proof. by destruct o, o'. Qed.

Lemma jsonOrNull_inj o o' : jsonOrNull o = jsonOrNull o' -> o = o'.
Proof. destruct o, o'; simpl; congruence. Qed.

(** The derived key stands for the intent: two commands built without an explicit key have one key
    exactly when deployment, operation, target and expected revision agree, or the truncated digests of
    two different intents coincide.  The key does not depend on the actor, the time or the project. *)
Theorem newCommand_key (cid cid' p p' dep dep' : string) (a a' : Actor) (op op' : ControlOperation)
    (t t' : CommandTarget) (rev rev' : string) (iss ex iss' ex' : Z) cf cf' w w' :
  let c := newCommand cid p dep a op t rev iss ex cf w None in
  let c' := newCommand cid' p' dep' a' op' t' rev' iss' ex' cf' w' None in
  (dep = dep' /\ op = op' /\ t = t' /\ rev = rev' -> idempotencyKey c = idempotencyKey c') /\
  (idempotencyKey c = idempotencyKey c' ->
     (dep = dep' /\ op = op' /\ t = t' /\ rev = rev') \/ collides (fun s => String.substring 0 32 (sha256 s))).
Proof.
  simpl. split; [by intros (-> & -> & -> & ->)|]. intros E%Json.app_inv_head.
  destruct (decide (intentText dep op t rev = intentText dep' op' t' rev')) as [Heq|Hne].
  - left. apply stringify_inj in Heq. injection Heq as -> Ho%operationText_inj E1 E2 E3 E4 E5 ->.
    apply jsonOrNull_inj in E1, E2, E3, E4, E5. destruct t, t'; simpl in *. by subst.
  - right. by eexists _, _.
Qed.

End commands.

End Commands.

Module Emergency.

Inductive EmergencyStep := DISABLE_POLICY | DENY_NEW_CAPABILITIES | PAUSE_CRE | STOP_RUNTIME | REVOKE_IDENTITY.
#[export] Instance EmergencyStep_eq_dec : EqDecision EmergencyStep.
Proof. solve_decision. Defined.

Definition EMERGENCY_STEPS : list EmergencyStep :=
  [DISABLE_POLICY; DENY_NEW_CAPABILITIES; PAUSE_CRE; STOP_RUNTIME; REVOKE_IDENTITY].

Definition CRITICAL_STEP : EmergencyStep := DISABLE_POLICY.

Inductive StepOutcome := PENDING | SUCCEEDED | FAILED | SKIPPED | NOT_APPLICABLE.
#[export] Instance StepOutcome_eq_dec : EqDecision StepOutcome.
Proof. solve_decision. Defined.

Record EmergencyStepState := {
  step : EmergencyStep;
  outcome : StepOutcome;
  attemptedAtMs : option Z;
  s_completedAtMs : option Z;
  detail : option string;
  verification : option string;
  attempts : Z
}.

Inductive EmergencyState := NOT_STARTED | IN_PROGRESS | COMPLETE | PARTIAL | LOCK_FAILED.
#[export] Instance EmergencyState_eq_dec : EqDecision EmergencyState.
Proof. solve_decision. Defined.

Record EmergencyLockRecord := {
  lockId : string;
  deploymentId : string;
  idempotencyKey : string;
  initiatedBy : string;
  initiatedAtMs : Z;
  state : EmergencyState;
  steps : list EmergencyStepState;
  includeIdentityRevocation : bool;
  financialPolicyDisabled : bool;
  completedAtMs : option Z
}.

Record EmergencyApplicability := { creWorkflowExists : bool; runtimeExists : bool; identityExists : bool }.

Definition notApplicable (includeIdentity : bool) (app : EmergencyApplicability) (s : EmergencyStep) : bool :=
  match s with
  | PAUSE_CRE => negb (creWorkflowExists app)
  | STOP_RUNTIME => negb (runtimeExists app)
  | REVOKE_IDENTITY => negb includeIdentity || negb (identityExists app)
  | _ => false
  end.

Definition freshSteps (includeIdentity : bool) (app : EmergencyApplicability) : list EmergencyStepState :=
  map (fun s =>
    let na := notApplicable includeIdentity app s in
    {| step := s; outcome := if na then NOT_APPLICABLE else PENDING; attemptedAtMs := None;
       s_completedAtMs := None;
       detail := if na then Some (if bool_decide (s = REVOKE_IDENTITY) && negb includeIdentity
                                  then "not requested" else "no such component in this deployment") else None;
       verification := None; attempts := 0 |}) EMERGENCY_STEPS.

Definition newEmergencyLock (lock dep key by_ : string) (now : Z) (incl : bool) (app : EmergencyApplicability)
    : EmergencyLockRecord :=
  {| lockId := lock; deploymentId := dep; idempotencyKey := key; initiatedBy := by_; initiatedAtMs := now;
     state := NOT_STARTED; steps := freshSteps incl app; includeIdentityRevocation := incl;
     financialPolicyDisabled := false; completedAtMs := None |}.

(** What the world does in one run: the answer to each action, the readings of the clock in order, and
    whether the step observer throws. *)
Inductive Response := Returned (ok : bool) (verification detail : string) | Threw (message : string).
Record World := { respond : EmergencyStep -> Response; clock : nat -> Z; onStepThrows : EmergencyStep -> bool }.

Inductive RunError := StepMissing | ObserverThrew.

(** [r.steps.find((x) => x.step === step)]. *)
Definition stepOf (s : EmergencyStep) (l : list EmergencyStepState) : option EmergencyStepState :=
  List.find (fun x => bool_decide (step x = s)) l.

(** Writing to the object [find] returned. *)
Fixpoint setStep (s : EmergencyStep) (x : EmergencyStepState) (l : list EmergencyStepState) : list EmergencyStepState :=
  match l with
  | [] => []
  | y :: l' => if bool_decide (step y = s) then x :: l' else y :: setStep s x l'
  end.

(** Steps that are not tried again. *)
Definition finished (o : StepOutcome) : bool := includes [SUCCEEDED; NOT_APPLICABLE; SKIPPED] o.

Definition succeeded (resp : Response) : bool := match resp with Returned ok _ _ => ok | Threw _ => false end.

Definition attempt (w : World) (n : nat) (s : EmergencyStepState) : EmergencyStepState :=
  let resp := respond w (step s) in
  {| step := step s; outcome := if succeeded resp then SUCCEEDED else FAILED;
     attemptedAtMs := Some (clock w n); s_completedAtMs := Some (clock w (S n));
     detail := Some (match resp with Returned _ _ d => d | Threw m => m end);
     verification := match resp with Returned _ v _ => Some v | Threw _ => verification s end;
     attempts := attempts s + 1 |}.

(** The record while the loop runs: its steps and whether the policy is known to be disabled. *)
Definition withSteps (r : EmergencyLockRecord) (l : list EmergencyStepState) (fin : bool) (st : EmergencyState)
    (done_ : option Z) : EmergencyLockRecord :=
  {| lockId := lockId r; deploymentId := deploymentId r; idempotencyKey := idempotencyKey r;
     initiatedBy := initiatedBy r; initiatedAtMs := initiatedAtMs r; state := st; steps := l;
     includeIdentityRevocation := includeIdentityRevocation r; financialPolicyDisabled := fin;
     completedAtMs := done_ |}.

(** The loop: the actions called, and the steps, the flag and the number of clock readings. *)
Fixpoint runSteps (w : World) (todo : list EmergencyStep) (l : list EmergencyStepState) (fin : bool) (n : nat)
    : list EmergencyStep * result RunError (list EmergencyStepState * bool * nat) :=
  match todo with
  | [] => ([], Ok (l, fin, n))
  | st :: todo' =>
      match stepOf st l with
      | None => ([], Err StepMissing)
      | Some s =>
          if finished (outcome s) then runSteps w todo' l fin n
          else
            let s' := attempt w n s in
            let fin' := if bool_decide (st = CRITICAL_STEP) && succeeded (respond w (step s)) then true else fin in
            if onStepThrows w st then ([st], Err ObserverThrew)
            else
              let q := runSteps w todo' (setStep st s' l) fin' (S (S n)) in
              (st :: q.1, q.2)
      end
  end.

Definition finalState (l : list EmergencyStepState) (critical : EmergencyStepState) : EmergencyState :=
  if bool_decide (outcome critical = FAILED) then LOCK_FAILED
  else if some (fun s => bool_decide (outcome s = FAILED)) l then PARTIAL
  else COMPLETE.

Definition runEmergencyLock (r : EmergencyLockRecord) (w : World)
    : list EmergencyStep * result RunError EmergencyLockRecord :=
  let q := runSteps w EMERGENCY_STEPS (steps r) (financialPolicyDisabled r) O in
  (q.1,
   match q.2 with
   | Err e => Err e
   | Ok (l, fin, n) =>
       match stepOf CRITICAL_STEP l with
       | None => Err StepMissing
       | Some c => Ok (withSteps r l fin (finalState l c) (Some (clock w n)))
       end
   end).

(** The headline, without its text: what the sentence says of the money. *)
Inductive Headline := lockComplete | lockPartial | policyNotDisabled.
Record EmergencySummary := { headline : Headline; financialPolicy : string }.

Definition emergencySummary (r : EmergencyLockRecord) : EmergencySummary :=
  {| headline := match state r with COMPLETE => lockComplete | PARTIAL => lockPartial | _ => policyNotDisabled end;
     financialPolicy := if financialPolicyDisabled r then "DISABLED" else "NOT CONFIRMED DISABLED" |}.

(** *** The lock does what an operator needs *)

Definition outcomeOf (l : list EmergencyStepState) (s : EmergencyStep) : option StepOutcome := outcome <$> stepOf s l.

Definition open (l : list EmergencyStepState) (s : EmergencyStep) : bool :=
  match outcomeOf l s with Some o => negb (finished o) | None => false end.

Lemma setStep_other s s' x l : s <> s' -> step x = s -> stepOf s' (setStep s x l) = stepOf s' l.
Proof.
  intros Hne Hx. induction l as [|y l IH]; [done|]. simpl. unfold stepOf in *.
  destruct (decide (step y = s)) as [E|E].
  - rewrite bool_decide_eq_true_2 by done. simpl. by rewrite !bool_decide_eq_false_2 by congruence.
  - rewrite (bool_decide_eq_false_2 (step y = s)) by done. simpl. by rewrite IH.
Qed.

Lemma setStep_same s x l : is_Some (stepOf s l) -> step x = s -> stepOf s (setStep s x l) = Some x.
Proof.
  intros Hs Hx. induction l as [|y l IH]; [by destruct Hs|]. simpl. unfold stepOf in *. simpl in Hs.
  destruct (decide (step y = s)) as [E|E].
  - rewrite bool_decide_eq_true_2 by done. simpl. by rewrite bool_decide_eq_true_2.
  - rewrite (bool_decide_eq_false_2 (step y = s)) in * by done. simpl.
    rewrite (bool_decide_eq_false_2 (step y = s)) by done. by apply IH.
Qed.

Lemma setStep_steps s x l : step x = s -> map step (setStep s x l) = map step l.
Proof.
  intros Hx. induction l as [|y l IH]; [done|]. simpl. case_bool_decide; simpl; [congruence|by rewrite IH].
Qed.

Lemma stepOf_step s l x : stepOf s l = Some x -> x ∈ l /\ step x = s.
Proof. intros [Hin Hs%bool_decide_eq_true]%find_true. done. Qed.

Definition complete (l : list EmergencyStepState) : Prop := map step l = EMERGENCY_STEPS.

Lemma complete_has l s : complete l -> is_Some (stepOf s l).
Proof.
  intros H. destruct (stepOf s l) as [x|] eqn:E; [eauto|]. exfalso. unfold stepOf in E. rewrite find_none_iff in E.
  assert (Hs : s ∈ map step l).
  { unfold complete in H. rewrite H. destruct s; vm_compute; repeat first [left; reflexivity|right]. }
  apply list_elem_of_fmap in Hs as (y & -> & Hy). specialize (E y Hy). by rewrite bool_decide_eq_false in E.
Qed.

Lemma open_of l s x : stepOf s l = Some x -> open l s = negb (finished (outcome x)).
Proof. intros H. unfold open, outcomeOf. by rewrite H. Qed.

(** The flag says exactly whether the policy step succeeded. *)
Definition flagOk (l : list EmergencyStepState) (fin : bool) : Prop :=
  fin = bool_decide (outcomeOf l CRITICAL_STEP = Some SUCCEEDED).

(** One step attempted: its outcome is the world's answer, the other steps are as they were. *)
Lemma attempt_outcome w n st x l : stepOf st l = Some x -> forall s,
  outcomeOf (setStep st (attempt w n x) l) s =
  if bool_decide (s = st) then Some (if succeeded (respond w st) then SUCCEEDED else FAILED) else outcomeOf l s.
Proof.
  intros Hx s. destruct (stepOf_step _ _ _ Hx) as [_ Hs]. unfold outcomeOf. case_bool_decide as E.
  - subst s. rewrite setStep_same by eauto. cbn [fmap option_fmap option_map attempt outcome]. by rewrite Hs.
  - by rewrite setStep_other.
Qed.

Lemma attempt_flag w n st x l fin : stepOf st l = Some x -> open l st = true -> flagOk l fin ->
  flagOk (setStep st (attempt w n x) l)
         (if bool_decide (st = CRITICAL_STEP) && succeeded (respond w (step x)) then true else fin).
Proof.
  intros Hx Ho Hf. unfold flagOk in *. rewrite (attempt_outcome w n st x l Hx CRITICAL_STEP).
  destruct (stepOf_step _ _ _ Hx) as [_ ->]. destruct (decide (st = CRITICAL_STEP)) as [E|E].
  - rewrite (bool_decide_eq_true_2 (st = _)), (bool_decide_eq_true_2 (CRITICAL_STEP = _)) by congruence.
    destruct (succeeded (respond w st)); [done|]. cbn [andb].
    rewrite Hf, <- E. apply bool_decide_eq_false_2. unfold open in Ho. intros E'. by rewrite E' in Ho.
  - by rewrite (bool_decide_eq_false_2 (st = _)), (bool_decide_eq_false_2 (CRITICAL_STEP = _)) by congruence.
Qed.

(** What a run leaves: the open steps of [todo] answered, the others as they were. *)
Definition answered (w : World) (todo : list EmergencyStep) (l l' : list EmergencyStepState) : Prop :=
  forall s, outcomeOf l' s = if bool_decide (s ∈ todo) && open l s
    then Some (if succeeded (respond w s) then SUCCEEDED else FAILED) else outcomeOf l s.

Lemma answered_skip w st todo l l' : open l st = false -> answered w todo l l' -> answered w (st :: todo) l l'.
Proof.
  intros Ho H s. rewrite H. destruct (decide (s = st)) as [->|Hne].
  - by rewrite Ho, !andb_false_r.
  - by rewrite (bool_decide_ext (s ∈ todo) (s ∈ st :: todo)) by (rewrite elem_of_cons; naive_solver).
Qed.

Lemma attempt_open w n st x l s : stepOf st l = Some x -> s <> st -> open (setStep st (attempt w n x) l) s = open l s.
Proof. intros Hx Hne. unfold open. rewrite attempt_outcome by done. by rewrite bool_decide_eq_false_2. Qed.

Lemma answered_step w n st x todo l l' : stepOf st l = Some x -> open l st = true -> st ∉ todo ->
  answered w todo (setStep st (attempt w n x) l) l' -> answered w (st :: todo) l l'.
Proof.
  intros Hx Ho Hst H s. rewrite H, attempt_outcome by done. destruct (decide (s = st)) as [->|Hne].
  - rewrite (bool_decide_eq_false_2 (st ∈ todo)), (bool_decide_eq_true_2 (st ∈ st :: todo)),
      (bool_decide_eq_true_2 (st = st)), Ho by (done || left). done.
  - rewrite attempt_open, (bool_decide_eq_false_2 (s = st)) by done.
    by rewrite (bool_decide_ext (s ∈ todo) (s ∈ st :: todo)) by (rewrite elem_of_cons; naive_solver).
Qed.

Lemma runSteps_spec w todo : forall l fin n, complete l -> NoDup todo -> flagOk l fin ->
  (forall s, onStepThrows w s = false) ->
  exists l' fin' n', runSteps w todo l fin n = (List.filter (open l) todo, Ok (l', fin', n')) /\
    complete l' /\ flagOk l' fin' /\ answered w todo l l'.
Proof.
  induction todo as [|st todo IH]; intros l fin n Hl Hnd Hf Hw; [by exists l, fin, n|].
  apply NoDup_cons in Hnd as [Hst Hnd]. destruct (complete_has l st Hl) as [x Hx]. cbn [runSteps List.filter].
  pose proof (open_of l st x Hx) as Hop. rewrite Hx, Hop. destruct (finished (outcome x)) eqn:Ef; cbn [negb] in *.
  - destruct (IH l fin n Hl Hnd Hf Hw) as (l' & fin' & n' & -> & ? & ? & ?). exists l', fin', n'.
    split_and!; [done..|by apply answered_skip].
  - rewrite Hw. cbn zeta.
    edestruct (IH (setStep st (attempt w n x) l)) as (l' & fin' & n' & -> & Hl' & Hf' & Ha);
      [unfold complete; rewrite setStep_steps; [done|by destruct (stepOf_step _ _ _ Hx)]|done| |done|].
    { by apply attempt_flag. }
    exists l', fin', n'. split_and!; [|done..|by apply (answered_step w n st x)]. cbn [fst snd]. do 2 f_equal.
    apply List.filter_ext_in. intros s Hs%list_elem_of_In. apply attempt_open; [done|by intros ->].
Qed.

(** The records the lock produces. *)
Definition LockOk (r : EmergencyLockRecord) : Prop :=
  complete (steps r) /\ flagOk (steps r) (financialPolicyDisabled r) /\
  outcomeOf (steps r) CRITICAL_STEP ∈ [Some PENDING; Some SUCCEEDED; Some FAILED].

Lemma newEmergencyLock_ok lock dep key by_ now incl app : LockOk (newEmergencyLock lock dep key by_ now incl app).
Proof.
  split_and!; [by destruct incl, app as [[] [] []]|unfold flagOk; by vm_compute|].
  vm_compute. left.
Qed.

Lemma runEmergencyLock_spec r w : LockOk r -> (forall s, onStepThrows w s = false) ->
  exists r', runEmergencyLock r w = (List.filter (open (steps r)) EMERGENCY_STEPS, Ok r') /\
    LockOk r' /\ answered w EMERGENCY_STEPS (steps r) (steps r') /\
    exists c, stepOf CRITICAL_STEP (steps r') = Some c /\ state r' = finalState (steps r') c.
Proof.
  intros (Hc & Hf & Hp) Hw. unfold runEmergencyLock.
  destruct (runSteps_spec w EMERGENCY_STEPS (steps r) (financialPolicyDisabled r) O) as
    (l' & fin' & n' & -> & Hl' & Hf' & Ha); [done| |done..|].
  { apply (bool_decide_unpack _). by vm_compute. }
  destruct (complete_has l' CRITICAL_STEP Hl') as [c Ec]. cbn [fst snd]. rewrite Ec.
  eexists. split; [done|]. split_and!; [|done|by exists c]. split_and!; [done..|].
  cbn [steps withSteps]. rewrite (Ha CRITICAL_STEP). destruct (_ && _); [|done].
  destruct (succeeded _); set_solver.
Qed.

Lemma someFailed_iff l : some (fun s => bool_decide (outcome s = FAILED)) l = true <->
  exists s, s ∈ l /\ outcome s = FAILED.
Proof. rewrite some_true. by setoid_rewrite bool_decide_eq_true. Qed.

Lemma finalState_honest l c fin : flagOk l fin -> stepOf CRITICAL_STEP l = Some c ->
  outcome c ∈ [SUCCEEDED; FAILED] ->
  (finalState l c = LOCK_FAILED <-> fin = false) /\
  (finalState l c = PARTIAL <-> fin = true /\ exists s, s ∈ l /\ outcome s = FAILED) /\
  (finalState l c = COMPLETE <-> fin = true /\ forall s, s ∈ l -> outcome s <> FAILED).
Proof.
  intros Hf Hc Ho. unfold flagOk, outcomeOf in Hf. rewrite Hc in Hf. cbn in Hf. subst fin. unfold finalState.
  pose proof (someFailed_iff l) as Hs. rewrite !elem_of_cons in Ho.
  destruct Ho as [E|[E|E%not_elem_of_nil]]; [| |done]; rewrite E; cbn; [|naive_solver].
  destruct (some _ l); cbn; naive_solver.
Qed.

Lemma answered_all w l l' : answered w EMERGENCY_STEPS l l' -> forall s,
  outcomeOf l' s = if open l s then Some (if succeeded (respond w s) then SUCCEEDED else FAILED) else outcomeOf l s.
Proof.
  intros Ha s. rewrite Ha. by rewrite bool_decide_eq_true_2
    by (destruct s; vm_compute; repeat first [left; reflexivity|right]).
Qed.

Lemma critical_answered w r l' c : LockOk r -> answered w EMERGENCY_STEPS (steps r) l' ->
  stepOf CRITICAL_STEP l' = Some c -> outcome c ∈ [SUCCEEDED; FAILED].
Proof.
  intros (_ & _ & Hp) Ha Hc. pose proof (answered_all _ _ _ Ha CRITICAL_STEP) as E. unfold outcomeOf at 1 in E.
  rewrite Hc in E. unfold open in E. rewrite !elem_of_cons in *.
  destruct Hp as [H|[H|[H|H%not_elem_of_nil]]]; try done; rewrite H in E; cbn in E; injection E as ->;
    destruct (succeeded (respond w CRITICAL_STEP)); tauto.
Qed.

Lemma headline_honest l c st r : finalState l c = st -> state r = st ->
  headline (emergencySummary r) = policyNotDisabled <-> state r = LOCK_FAILED.
Proof.
  intros <- E. unfold emergencySummary. cbn [headline]. rewrite E. unfold finalState.
  destruct (bool_decide _); [done|]. by destruct (some (fun s => bool_decide (outcome s = FAILED)) l).
Qed.

(** The emergency lock runs to the end whatever fails: with an observer that does not throw, it calls
    exactly the steps not yet finished, in the fixed order and the financial policy first, gives each the
    outcome the world answered, and its state and its headline tell the truth about the policy: it reads
    FAILED exactly when the policy is not known to be disabled, PARTIAL when it is and another step
    failed, COMPLETE when no step failed. *)
Theorem emergency_run (r : EmergencyLockRecord) (w : World) :
  LockOk r -> (forall s, onStepThrows w s = false) ->
  exists r', runEmergencyLock r w = (List.filter (open (steps r)) EMERGENCY_STEPS, Ok r') /\
    LockOk r' /\
    (open (steps r) CRITICAL_STEP = true -> head (runEmergencyLock r w).1 = Some CRITICAL_STEP) /\
    (forall s, outcomeOf (steps r') s = if open (steps r) s
       then Some (if succeeded (respond w s) then SUCCEEDED else FAILED) else outcomeOf (steps r) s) /\
    (financialPolicyDisabled r' = true <-> outcomeOf (steps r') CRITICAL_STEP = Some SUCCEEDED) /\
    (state r' = LOCK_FAILED <-> financialPolicyDisabled r' = false) /\
    (state r' = PARTIAL <-> financialPolicyDisabled r' = true /\ exists s, s ∈ steps r' /\ outcome s = FAILED) /\
    (state r' = COMPLETE <-> financialPolicyDisabled r' = true /\ forall s, s ∈ steps r' -> outcome s <> FAILED) /\
    (headline (emergencySummary r') = policyNotDisabled <-> financialPolicyDisabled r' = false).
Proof.
  intros Hok Hw. destruct (runEmergencyLock_spec r w Hok Hw) as (r' & Hrun & Hok' & Ha & c & Hc & Hst).
  pose proof (finalState_honest _ _ _ (proj1 (proj2 Hok')) Hc (critical_answered _ _ _ _ Hok Ha Hc)) as (HF & HP & HC).
  rewrite <- Hst in HF, HP, HC. exists r'. rewrite Hrun. split; [done|]. split; [done|].
  split; [intros Ho; cbn [fst]; unfold EMERGENCY_STEPS; cbn [List.filter]; unfold CRITICAL_STEP in Ho; by rewrite Ho|].
  split; [by apply answered_all|]. split; [rewrite (proj1 (proj2 Hok')); apply bool_decide_eq_true|].
  split_and!; [done..|]. rewrite <- HF. by apply (headline_honest (steps r') c (state r')).
Qed.

(** Runs one after the other: a second operator, a retry. Each call is paired with the world's answer. *)
Fixpoint runAll (r : EmergencyLockRecord) (ws : list World) : list (EmergencyStep * bool) :=
  match ws with
  | [] => []
  | w :: ws' =>
      let q := runEmergencyLock r w in
      map (fun s => (s, succeeded (respond w s))) q.1 ++
      match q.2 with Ok r' => runAll r' ws' | Err _ => [] end
  end.

Definition doneSteps (calls : list (EmergencyStep * bool)) : list EmergencyStep := map fst (List.filter snd calls).

Lemma doneSteps_map f l : doneSteps (map (fun s => (s, f s)) l) = List.filter f l.
Proof. induction l as [|s l IH]; [done|]. unfold doneSteps in *. simpl. destruct (f s); simpl; by rewrite IH. Qed.

Lemma runAll_open ws : forall r, LockOk r -> Forall (fun w => forall s, onStepThrows w s = false) ws ->
  forall s, s ∈ doneSteps (runAll r ws) -> open (steps r) s = true.
Proof.
  induction ws as [|w ws IH]; intros r Hok Hws s Hs; [by apply not_elem_of_nil in Hs|].
  apply Forall_cons in Hws as [Hw Hws]. destruct (runEmergencyLock_spec r w Hok Hw) as (r' & Hrun & Hok' & Ha & _).
  cbn [runAll] in Hs. rewrite Hrun in Hs. cbn [fst snd] in Hs. unfold doneSteps in Hs.
  rewrite List.filter_app, map_app, elem_of_app in Hs. destruct Hs as [Hs|Hs].
  - apply list_elem_of_fmap in Hs as ([s' b] & -> & Hs). apply list_elem_of_In, filter_In in Hs as [Hs _].
    apply in_map_iff in Hs as (s'' & [= <- _] & Hs). by apply filter_In in Hs as [_ ?].
  - apply IH in Hs; [|done..]. destruct (open (steps r) s) eqn:E; [done|].
    unfold open in Hs at 1. rewrite (answered_all _ _ _ Ha s), E in Hs. unfold open in E.
    destruct (outcomeOf (steps r) s); [by rewrite E in Hs|done].
Qed.

(** Pressing the button again is harmless: over any sequence of runs of one lock, whatever the world
    answers, no step is called again after a call of it succeeded, the identity revocation included. *)
Theorem emergency_once (ws : list World) (r : EmergencyLockRecord) :
  LockOk r -> Forall (fun w => forall s, onStepThrows w s = false) ws -> NoDup (doneSteps (runAll r ws)).
Proof.
  intros Hok Hws. revert r Hok. induction ws as [|w ws IH]; intros r Hok; [constructor|].
  apply Forall_cons in Hws as [Hw Hws]. destruct (runEmergencyLock_spec r w Hok Hw) as (r' & Hrun & Hok' & Ha & _).
  cbn [runAll]. rewrite Hrun. cbn [fst snd]. unfold doneSteps. rewrite List.filter_app, map_app.
  apply NoDup_app. split_and!; [| |by apply IH].
  - fold (doneSteps (map (fun s => (s, succeeded (respond w s))) (List.filter (open (steps r)) EMERGENCY_STEPS))).
    rewrite doneSteps_map. apply NoDup_ListNoDup, List.NoDup_filter, List.NoDup_filter.
    apply NoDup_ListNoDup, (bool_decide_unpack _). by vm_compute.
  - intros s Hs Hs'. apply (runAll_open ws r' Hok' Hws) in Hs'.
    apply list_elem_of_fmap in Hs as ([s' b] & -> & Hs). apply list_elem_of_In, filter_In in Hs as [Hs Hb].
    apply in_map_iff in Hs as (s'' & [= <- <-] & Hs). apply filter_In in Hs as [_ Ho]. cbn in *.
    unfold open in Hs'. by rewrite (answered_all _ _ _ Ha s''), Ho, Hb in Hs'.
Qed.

End Emergency.

(** ** Samples *)
Module Samples.
Import Emergency.

Definition allThere : EmergencyApplicability := {| creWorkflowExists := true; runtimeExists := true; identityExists := true |}.
Definition lock : EmergencyLockRecord := newEmergencyLock "lock-1" "dep-1" "idem-lock-1" "ops" 1000 true allThere.

(** The chain does not answer, then it does. *)
Definition down : World :=
  {| respond := fun s => match s with DISABLE_POLICY => Threw "rpc timeout" | _ => Returned true "read back" "ok" end;
     clock := fun n => 1000 + Z.of_nat n; onStepThrows := fun _ => false |}.
Definition up : World :=
  {| respond := fun _ => Returned true "read back" "ok"; clock := fun n => 2000 + Z.of_nat n;
     onStepThrows := fun _ => false |}.

(** With the policy unreachable the other four steps still run; the second run calls only the policy. *)
Example lock_twice : runAll lock [down; up] =
  [(DISABLE_POLICY, false); (DENY_NEW_CAPABILITIES, true); (PAUSE_CRE, true); (STOP_RUNTIME, true);
   (REVOKE_IDENTITY, true); (DISABLE_POLICY, true)].
Proof. vm_compute. reflexivity. Qed.

Lemma emergency_run_witness : exists r', runEmergencyLock lock down = (EMERGENCY_STEPS, Ok r') /\
  LockOk r' /\ state r' = LOCK_FAILED /\ headline (emergencySummary r') = policyNotDisabled.
Proof.
  destruct (emergency_run lock down) as (r' & Hr & Hok & _ & _ & _ & HF & _ & _ & Hh);
    [apply newEmergencyLock_ok|done|].
  exists r'. split; [exact Hr|]. split; [exact Hok|]. vm_compute in Hr. injection Hr as <-. split; reflexivity.
Defined.

Lemma emergency_once_witness : NoDup (doneSteps (runAll lock [down; up])) /\
  doneSteps (runAll lock [down; up]) =
    [DENY_NEW_CAPABILITIES; PAUSE_CRE; STOP_RUNTIME; REVOKE_IDENTITY; DISABLE_POLICY].
Proof.
  split; [|vm_compute; reflexivity].
  apply (emergency_once [down; up] lock); [apply newEmergencyLock_ok|repeat constructor].
Defined.

(** The observer is called outside the [try]: one that throws after the first step ends the lock, the
    other four steps are not tried and the record of the first is lost. *)
Lemma observer_aborts_lock :
  runEmergencyLock lock {| respond := respond up; clock := clock up;
                           onStepThrows := fun s => bool_decide (s = DISABLE_POLICY) |} =
  ([DISABLE_POLICY], Err ObserverThrew).
Proof. vm_compute. reflexivity. Qed.

(** Pause, resume, pause: the second pause has the intent of the first, at the same revision, and gets
    the first one's record back instead of being carried out. *)
Import Commands.

Definition anyTarget : CommandTarget :=
  {| tg_agentId := Some "a1"; tg_runtimeRevision := None; tg_creWorkflowName := None; tg_policyHash := None;
     tg_identityNode := None |}.
Definition operator : Actor := {| actorId := "op"; displayName := "Op"; capabilities := [] |}.

(** A digest that keeps the text, so that no two intents collide. *)
Definition cmd (cid : string) (op : ControlOperation) (now : Z) : ControlCommand :=
  newCommand (fun s => s) cid "p" "dep-1" operator op anyTarget "rev-1" now (now + 1000) None None None.

Lemma second_pause_replayed :
  let l := (logRun emptyLog [Begin (cmd "c1" PAUSE_RUNTIME 1) 1; Begin (cmd "c2" RESUME_RUNTIME 2) 2]).1 in
  (r_commandId <$> (begin (cmd "c3" PAUSE_RUNTIME 3) 3 l).1) = Some "c1" /\ (begin (cmd "c2" RESUME_RUNTIME 2) 2
    (logRun emptyLog [Begin (cmd "c1" PAUSE_RUNTIME 1) 1]).1).1 = None.
Proof. split; vm_compute; reflexivity. Qed.

End Samples.
