(* ===== verification/DeployPlan.v ===== *)
(** * Deployment planning: environment, plan, costs, reuse, signing

    [packages/studio-deploy/src].  [Environment] is [environment.ts], where a write may happen at all.
    [Reader] is the interface of [chain.ts]: what a node answers is an argument.  [Steps] is [plan.ts],
    the deployment plan, its validation and the steps that may run.  [Cost] is [cost.ts], fee quotes,
    step costs and what each chain must be funded with.  [Reuse] is [reuse.ts], the verification of
    contracts that already exist.  [Signing] is [signing.ts], what may be offered to a wallet.

    A call to a node answers a value or fails with a message.  Digit strings are parsed as [BigInt]
    parses them, amounts are integers.  Message texts are left out. *)

From S2P Require Import Prelude Regex Json Network Deploy Adapters.
From stdpp Require Import pretty sorting.
From Stdlib Require Import Ascii.
Local Open Scope Z_scope.

Module Environment.
Import Roles Fences.

Inductive EnvironmentKind := LOCAL | FORK | TESTNET | SHADOW_MAINNET | MAINNET.
#[export] Instance EnvironmentKind_eq_dec : EqDecision EnvironmentKind.
Proof. solve_decision. Defined.

Definition kindText (k : EnvironmentKind) : string :=
  match k with
  | LOCAL => "LOCAL" | FORK => "FORK" | TESTNET => "TESTNET" | SHADOW_MAINNET => "SHADOW_MAINNET"
  | MAINNET => "MAINNET"
  end.

Record ChainTarget := {
  chainId : Z;
  name : string;
  chainSelector : option string;
  nativeSymbol : string;
  nativeDecimals : Z;
  explorer : option string
}.

Record DeploymentEnvironment := {
  schemaVersion : string;
  environmentId : string;
  kind : EnvironmentKind;
  chains : list ChainTarget;
  writesPermitted : bool;
  allowedCreRegistries : list string
}.

Definition DEPLOYMENT_ENVIRONMENT_VERSION : string := "contextlock.deployment-environment/v1".

Inductive EnvironmentReason :=
| MAINNET_WRITE_PROHIBITED | SHADOW_MAINNET_READ_ONLY | CHAIN_NOT_IN_ENVIRONMENT | CHAIN_ID_MISMATCH
| WALLET_CHAIN_MISMATCH.

(** What a refused write throws: a reason of this package, or the error of the shared fence. *)
Inductive WriteRefusal := EnvironmentError (r : EnvironmentReason) | FenceError (e : NetworkGuardError).

Definition writesAllowedFor (k : EnvironmentKind) : bool :=
  match k with LOCAL | FORK | TESTNET => true | SHADOW_MAINNET | MAINNET => false end.

Definition KNOWN_MAINNET_CHAIN_IDS : list Z :=
  [1; 10; 56; 100; 137; 8453; 42161; 43114; 59144; 534352; 324; 5000; 130; 480].

Definition assertWriteAllowed (env : DeploymentEnvironment) (cid : Z) : result WriteRefusal unit :=
  throw EnvironmentError MAINNET_WRITE_PROHIBITED when bool_decide (kind env = MAINNET) ;;
  throw EnvironmentError SHADOW_MAINNET_READ_ONLY when bool_decide (kind env = SHADOW_MAINNET) ;;
  throw EnvironmentError MAINNET_WRITE_PROHIBITED when negb (writesPermitted env) ;;
  match List.find (fun c => chainId c =? cid) (chains env) with
  | None => Err (EnvironmentError CHAIN_NOT_IN_ENVIRONMENT)
  | Some _ =>
      throw EnvironmentError MAINNET_WRITE_PROHIBITED when includes KNOWN_MAINNET_CHAIN_IDS cid ;;
      match fenceWriteByChain DEPLOYMENT_PREFLIGHT cid None None with
      | Ok _ => Ok tt
      | Err e => Err (FenceError e)
      end
  end.

Definition assertWalletChain (expectedChainId walletChainId : Z) : result EnvironmentReason unit :=
  throw WALLET_CHAIN_MISMATCH when negb (expectedChainId =? walletChainId) ;; Ok tt.

Definition assertChainIdMatches (configured observed : Z) : result EnvironmentReason unit :=
  throw CHAIN_ID_MISMATCH when negb (configured =? observed) ;; Ok tt.

Definition ETHEREUM_SEPOLIA : ChainTarget :=
  {| chainId := 11155111; name := "Ethereum Sepolia"; chainSelector := Some "16015286601757825753";
     nativeSymbol := "ETH"; nativeDecimals := 18; explorer := Some "https://sepolia.etherscan.io" |}.
Definition BASE_SEPOLIA : ChainTarget :=
  {| chainId := 84532; name := "Base Sepolia"; chainSelector := Some "10344971235874465080";
     nativeSymbol := "ETH"; nativeDecimals := 18; explorer := Some "https://sepolia.basescan.org" |}.

(** [ids.join("-")]. *)
Fixpoint join (sep : string) (l : list string) : string :=
  match l with [] => "" | [s] => s | s :: l' => s +:+ sep +:+ join sep l' end.

Definition testnetEnvironment (cs : list ChainTarget) : DeploymentEnvironment :=
  {| schemaVersion := DEPLOYMENT_ENVIRONMENT_VERSION;
     environmentId := "testnet-" +:+ join "-" (map (fun c => pretty (chainId c)) cs);
     kind := TESTNET; chains := cs; writesPermitted := true; allowedCreRegistries := ["private"] |}.

Definition mainnetEnvironment : DeploymentEnvironment :=
  {| schemaVersion := DEPLOYMENT_ENVIRONMENT_VERSION; environmentId := "mainnet-1"; kind := MAINNET;
     chains := [{| chainId := 1; name := "Ethereum"; chainSelector := Some "5009297550715157269";
                   nativeSymbol := "ETH"; nativeDecimals := 18; explorer := Some "https://etherscan.io" |}];
     writesPermitted := false; allowedCreRegistries := [] |}.

Lemma writable_not_mainnet (cid : Z) : cid ∈ writableChains -> includes KNOWN_MAINNET_CHAIN_IDS cid = false.
Proof. unfold writableChains. rewrite !elem_of_cons, elem_of_nil. by intros [-> | [-> | [-> | []]]]. Qed.

Lemma kind_writable (k : EnvironmentKind) :
  bool_decide (k = MAINNET) = false /\ bool_decide (k = SHADOW_MAINNET) = false <-> writesAllowedFor k = true.
Proof. destruct k; simpl; naive_solver. Qed.

Lemma fence_ok_iff (f : WriteFence) (cid : Z) : fenceWriteByChain f cid None None = Ok tt <-> cid ∈ writableChains.
Proof.
  split; [|apply fenceWriteByChain_ok]. intros H. destruct (decide (cid ∈ writableChains)) as [|Hn]; [done|].
  by rewrite (fenceWriteByChain_refused f cid None None Hn) in H.
Qed.

Lemma assertWriteAllowed_ok (env : DeploymentEnvironment) (cid : Z) :
  assertWriteAllowed env cid = Ok tt <->
    writesAllowedFor (kind env) = true /\ writesPermitted env = true /\
    (exists c, c ∈ chains env /\ chainId c = cid) /\ cid ∈ writableChains.
Proof.
  unfold assertWriteAllowed. rewrite !throw_ok, negb_false_iff, <- kind_writable.
  destruct (List.find _ _) as [c|] eqn:Ef.
  - apply find_true in Ef as [Hc Hid%Z.eqb_eq]. rewrite throw_ok, <- (fence_ok_iff DEPLOYMENT_PREFLIGHT).
    destruct (fenceWriteByChain _ _ _ _) as [[]|e] eqn:E; [|naive_solver].
    apply fence_ok_iff, writable_not_mainnet in E. naive_solver.
  - rewrite find_none_iff in Ef. split; [naive_solver|]. intros (_ & _ & (c & Hc & Hid) & _).
    specialize (Ef c Hc). simpl in Ef. lia.
Qed.

(** The environment lets exactly the writes through that every one of its four checks allows: the kind
    of the environment allows writes, the environment permits them, it lists the chain, and the chain is
    one of the three the shared registry lets a subsystem write to.  So no environment, whatever it says
    of itself, admits a write to a known mainnet, to a production chain or to a chain nobody registered;
    and of a mainnet or shadow environment every write is refused with the reason of its kind. *)
Theorem assertWriteAllowed_spec (env : DeploymentEnvironment) (cid : Z) :
  (assertWriteAllowed env cid = Ok tt <->
    writesAllowedFor (kind env) = true /\ writesPermitted env = true /\
    (exists c, c ∈ chains env /\ chainId c = cid) /\ cid ∈ writableChains) /\
  (kind env = MAINNET -> assertWriteAllowed env cid = Err (EnvironmentError MAINNET_WRITE_PROHIBITED)) /\
  (kind env = SHADOW_MAINNET -> assertWriteAllowed env cid = Err (EnvironmentError SHADOW_MAINNET_READ_ONLY)) /\
  (cid ∈ KNOWN_MAINNET_CHAIN_IDS \/ isProductionChain cid = true -> assertWriteAllowed env cid <> Ok tt).
Proof.
  pose proof (assertWriteAllowed_ok env cid) as Hiff.
  split_and!; [exact Hiff|intros Hk; unfold assertWriteAllowed; by rewrite Hk..|].
  intros Hm (_ & _ & _ & Hw)%Hiff. destruct Hm as [Hm|Hm].
  - apply includes_true in Hm. by rewrite (writable_not_mainnet _ Hw) in Hm.
  - unfold writableChains in Hw. rewrite !elem_of_cons, elem_of_nil in Hw. by destruct Hw as [-> | [-> | [-> | []]]].
Qed.

End Environment.

Module Reader.

(** A node's receipt. *)
Inductive ReceiptStatus := success | reverted.
#[export] Instance ReceiptStatus_eq_dec : EqDecision ReceiptStatus.
Proof. solve_decision. Defined.

Record Fees := { maxFeePerGas : option Z; maxPriorityFeePerGas : option Z; gasPrice : option Z }.

Record CallRequest := { c_from : string; c_to : option string; c_data : string; c_value : option Z }.

(** [ChainReader]: the identity of the endpoint and what it answers; [Err] is a thrown message. *)
Record ChainReader := {
  chainId : Z;
  live : bool;
  getChainId : result string Z;
  getCode : string -> result string (option string);
  getBlockNumber : result string Z;
  estimateGas : CallRequest -> result string Z;
  estimateFeesPerGas : result string Fees;
  call : CallRequest -> result string string
}.

Section hashing.
Context (keccak256 : string -> string).

Definition codeHash (code : option string) : string := keccak256 (default "0x" code).

End hashing.

(** [!code || code === "0x"]. *)
Definition noCode (code : option string) : bool :=
  match code with None => true | Some c => streq c "" || streq c "0x" end.

End Reader.

Module Steps.

Inductive DeploymentStepType :=
| VERIFY_CHAIN | VERIFY_CORE | DEPLOY_CONTRACT | CONFIGURE_CONTRACT | REGISTER_POLICY_DISABLED
| REGISTER_ENS_IDENTITY | BUILD_CRE_WASM | VERIFY_CRE_HASH | CHECK_CRE_ACCESS | DEPLOY_CRE_PRIVATE
| PAUSE_CRE | BUILD_RUNTIME_IMAGE | SCAN_RUNTIME_IMAGE | PUBLISH_RUNTIME_IMAGE | CREATE_RUNTIME_DISABLED
| POST_DEPLOY_VERIFY | ACTIVATE.
#[export] Instance DeploymentStepType_eq_dec : EqDecision DeploymentStepType.
Proof. solve_decision. Defined.

Definition stepTypeText (t : DeploymentStepType) : string :=
  match t with
  | VERIFY_CHAIN => "VERIFY_CHAIN" | VERIFY_CORE => "VERIFY_CORE" | DEPLOY_CONTRACT => "DEPLOY_CONTRACT"
  | CONFIGURE_CONTRACT => "CONFIGURE_CONTRACT" | REGISTER_POLICY_DISABLED => "REGISTER_POLICY_DISABLED"
  | REGISTER_ENS_IDENTITY => "REGISTER_ENS_IDENTITY" | BUILD_CRE_WASM => "BUILD_CRE_WASM"
  | VERIFY_CRE_HASH => "VERIFY_CRE_HASH" | CHECK_CRE_ACCESS => "CHECK_CRE_ACCESS"
  | DEPLOY_CRE_PRIVATE => "DEPLOY_CRE_PRIVATE" | PAUSE_CRE => "PAUSE_CRE"
  | BUILD_RUNTIME_IMAGE => "BUILD_RUNTIME_IMAGE" | SCAN_RUNTIME_IMAGE => "SCAN_RUNTIME_IMAGE"
  | PUBLISH_RUNTIME_IMAGE => "PUBLISH_RUNTIME_IMAGE" | CREATE_RUNTIME_DISABLED => "CREATE_RUNTIME_DISABLED"
  | POST_DEPLOY_VERIFY => "POST_DEPLOY_VERIFY" | ACTIVATE => "ACTIVATE"
  end.

Inductive ActorType := USER_WALLET | LOCAL_BRIDGE | CONTROL_PLANE | READ_ONLY.
#[export] Instance ActorType_eq_dec : EqDecision ActorType.
Proof. solve_decision. Defined.

Definition actorText (a : ActorType) : string :=
  match a with
  | USER_WALLET => "USER_WALLET" | LOCAL_BRIDGE => "LOCAL_BRIDGE" | CONTROL_PLANE => "CONTROL_PLANE"
  | READ_ONLY => "READ_ONLY"
  end.

Inductive DeploymentStepStatus :=
| PENDING | READY | SUBMITTED | UNKNOWN_SUBMISSION_STATE | CONFIRMED | VERIFIED | FAILED
| SKIPPED_ALREADY_SATISFIED.
#[export] Instance DeploymentStepStatus_eq_dec : EqDecision DeploymentStepStatus.
Proof. solve_decision. Defined.

Inductive FeeMode := EIP1559 | LEGACY.
#[export] Instance FeeMode_eq_dec : EqDecision FeeMode.
Proof. solve_decision. Defined.

Definition feeModeText (m : FeeMode) : string := match m with EIP1559 => "EIP1559" | LEGACY => "LEGACY" end.

Record StepCost := {
  estimatedGas : string;
  feeMode : FeeMode;
  maxFeePerGasWei : string;
  maxPriorityFeePerGasWei : option string;
  baseNativeWei : string;
  bufferBps : Z;
  bufferNativeWei : string;
  totalNativeWei : string;
  quotedAtMs : Z;
  fromLiveNode : bool
}.

Record DeploymentStep := {
  id : string;
  type : DeploymentStepType;
  chainId : option Z;
  dependencyIds : list string;
  actorType : ActorType;
  requiredSigner : option string;
  artifactHash : option string;
  target : option string;
  calldataHash : option string;
  cost : option StepCost;
  reversible : bool;
  rollbackAction : option string;
  status : DeploymentStepStatus
}.

Inductive Readiness :=
| PREFLIGHT_DRAFT | PREFLIGHT_RUNNING | PREFLIGHT_BLOCKED | PREFLIGHT_READY | DEPLOYMENT_APPROVED.
#[export] Instance Readiness_eq_dec : EqDecision Readiness.
Proof. solve_decision. Defined.

Record PlanApproval := {
  approvedBy : string;
  approvedAtMs : Z;
  a_manifestHash : string;
  a_planHash : string;
  artifactHashes : list (string * string)
}.

Record DeploymentPlan := {
  schemaVersion : string;
  planId : string;
  manifestHash : string;
  steps : list DeploymentStep;
  readiness : Readiness;
  approval : option PlanApproval
}.

Inductive PlanReason :=
| UNKNOWN_DEPENDENCY | CYCLE | DUPLICATE_STEP_ID | SELF_DEPENDENCY | FORWARD_DEPENDENCY | UNKNOWN_SIGNER
| MISSING_SIGNER | ACTIVATE_IN_DEPLOYMENT_PLAN | MISSING_COST.

Definition WRITING_STEP_TYPES (t : DeploymentStepType) : bool :=
  includes [DEPLOY_CONTRACT; CONFIGURE_CONTRACT; REGISTER_POLICY_DISABLED; REGISTER_ENS_IDENTITY] t.

Definition IRREVERSIBLE_STEP_TYPES (t : DeploymentStepType) : bool :=
  includes [DEPLOY_CONTRACT; REGISTER_ENS_IDENTITY; PUBLISH_RUNTIME_IMAGE; DEPLOY_CRE_PRIVATE] t.

Fixpoint noDuplicates (seen : list string) (l : list DeploymentStep) : result PlanReason unit :=
  match l with
  | [] => Ok tt
  | s :: l' => throw DUPLICATE_STEP_ID when includes seen (id s) ;; noDuplicates (id s :: seen) l'
  end.

(** [index.get(d)]: the position of the step named [d]. *)
Fixpoint indexOf (d : string) (l : list DeploymentStep) : option nat :=
  match l with
  | [] => None
  | s :: l' => if streq (id s) d then Some O else S <$> indexOf d l'
  end.

Fixpoint checkDependencies (steps_ : list DeploymentStep) (s : DeploymentStep) (deps : list string)
    : result PlanReason unit :=
  match deps with
  | [] => Ok tt
  | d :: deps' =>
      throw SELF_DEPENDENCY when streq d (id s) ;;
      match indexOf d steps_, indexOf (id s) steps_ with
      | None, _ => Err UNKNOWN_DEPENDENCY
      | Some di, Some si => throw FORWARD_DEPENDENCY when (si <=? di)%nat ;; checkDependencies steps_ s deps'
      | Some _, None => checkDependencies steps_ s deps'
      end
  end.

Definition checkStep (steps_ : list DeploymentStep) (knownSignerIds : list string) (s : DeploymentStep)
    : result PlanReason unit :=
  throw ACTIVATE_IN_DEPLOYMENT_PLAN when bool_decide (type s = ACTIVATE) ;;
  let* _ := checkDependencies steps_ s (dependencyIds s) in
  throw UNKNOWN_SIGNER when match requiredSigner s with Some g => negb (includes knownSignerIds g) | None => false end ;;
  throw MISSING_SIGNER when bool_decide (actorType s = USER_WALLET) && bool_decide (requiredSigner s = None) ;;
  throw CYCLE when IRREVERSIBLE_STEP_TYPES (type s) && reversible s ;;
  Ok tt.

Fixpoint checkSteps (steps_ : list DeploymentStep) (known : list string) (l : list DeploymentStep)
    : result PlanReason unit :=
  match l with
  | [] => Ok tt
  | s :: l' => let* _ := checkStep steps_ known s in checkSteps steps_ known l'
  end.

Definition validatePlan (plan : DeploymentPlan) (knownSignerIds : list string) : result PlanReason unit :=
  let* _ := noDuplicates [] (steps plan) in
  checkSteps (steps plan) knownSignerIds (steps plan).

Definition assertCosted (plan : DeploymentPlan) : result PlanReason unit :=
  throw MISSING_COST when some (fun s => WRITING_STEP_TYPES (type s) && match cost s with None => true | Some _ => false end)
    (steps plan) ;;
  Ok tt.

(** Satisfied: never at CONFIRMED. *)
Definition done_ (s : DeploymentStep) : bool := includes [VERIFIED; SKIPPED_ALREADY_SATISFIED] (status s).

Definition runnableSteps (plan : DeploymentPlan) : list DeploymentStep :=
  let finished := map id (List.filter done_ (steps plan)) in
  List.filter (fun s => includes [PENDING; READY] (status s) && every (includes finished) (dependencyIds s)) (steps plan).

(** *** What a valid plan is *)

(** Every dependency of the step at [i] names a step listed before it. *)
Definition dependsBackwards (l : list DeploymentStep) (i : nat) (s : DeploymentStep) : Prop :=
  forall d, d ∈ dependencyIds s -> exists j t, (j < i)%nat /\ l !! j = Some t /\ id t = d.

Definition validStep (l : list DeploymentStep) (known : list string) (i : nat) (s : DeploymentStep) : Prop :=
  type s <> ACTIVATE /\ dependsBackwards l i s /\
  (forall g, requiredSigner s = Some g -> g ∈ known) /\
  (actorType s = USER_WALLET -> requiredSigner s <> None) /\
  (IRREVERSIBLE_STEP_TYPES (type s) = true -> reversible s = false).

Lemma noDuplicates_ok l : forall seen, noDuplicates seen l = Ok tt <->
  NoDup (map id l) /\ forall s, s ∈ l -> id s ∉ seen.
Proof.
  induction l as [|s l IH]; intros seen; simpl.
  - split; [|done]. intros _. split; [constructor|]. by intros s ?%not_elem_of_nil.
  - rewrite throw_ok, IH, includes_false, NoDup_cons. setoid_rewrite elem_of_cons. setoid_rewrite list_elem_of_fmap.
    naive_solver.
Qed.

Lemma indexOf_lookup d l i : NoDup (map id l) -> indexOf d l = Some i <-> exists s, l !! i = Some s /\ id s = d.
Proof.
  revert i. induction l as [|t l IH]; intros i Hnd; simpl; [naive_solver|].
  apply NoDup_cons in Hnd as [Ht Hnd]. destruct (streq (id t) d) eqn:E.
  - apply streq_true in E as <-. split; [intros [= <-]; by exists t|]. intros (s & Hs & Hid).
    destruct i as [|i]; [done|]. destruct Ht. simpl in Hs. apply list_elem_of_lookup_2 in Hs.
    rewrite <- Hid. by apply list_elem_of_fmap_2.
  - apply streq_false in E. destruct i as [|i]; simpl.
    + split; [by intros (j & _ & ?)%fmap_Some|]. intros (s & [= <-] & ?). done.
    + rewrite <- IH by done. rewrite fmap_Some. naive_solver.
Qed.

Lemma indexOf_none d l : indexOf d l = None <-> d ∉ map id l.
Proof.
  induction l as [|t l IH]; simpl; [split; [by intros _ ?%not_elem_of_nil|done]|].
  rewrite not_elem_of_cons, <- IH. destruct (streq (id t) d) eqn:E.
  - apply streq_true in E. naive_solver.
  - apply streq_false in E. destruct (indexOf d l); naive_solver.
Qed.

Lemma checkDependencies_ok l s i deps : NoDup (map id l) -> l !! i = Some s ->
  checkDependencies l s deps = Ok tt <->
  forall d, d ∈ deps -> exists j t, (j < i)%nat /\ l !! j = Some t /\ id t = d.
Proof.
  intros Hnd Hs. assert (Hi : indexOf (id s) l = Some i) by (apply indexOf_lookup; eauto).
  induction deps as [|d deps IH]; simpl; [split; [by intros _ d ?%not_elem_of_nil|done]|].
  setoid_rewrite elem_of_cons. rewrite throw_ok, streq_false, Hi. destruct (indexOf d l) as [j|] eqn:Ej.
  - rewrite throw_ok, Nat.leb_gt, IH. assert (Ej' := Ej). apply indexOf_lookup in Ej' as (t & Ht & Hid); [|done].
    split.
    + intros (_ & Hlt & H) d' [-> | Hd]; [by exists j, t|by apply H].
    + intros H. destruct (H d) as (j' & t' & Hlt & Ht' & Hid'); [by left|].
      assert (Hj : indexOf d l = Some j') by (apply indexOf_lookup; eauto). rewrite Ej in Hj. injection Hj as ->.
      split_and!; [|done|naive_solver]. intros ->. rewrite Hi in Ej. injection Ej as ->. lia.
  - apply indexOf_none in Ej. split; [naive_solver|]. intros H. destruct (H d) as (j & t & _ & Ht & Hid); [by left|].
    destruct Ej. rewrite <- Hid. by eapply list_elem_of_fmap_2, list_elem_of_lookup_2.
Qed.

Lemma checkStep_ok l known s i : NoDup (map id l) -> l !! i = Some s ->
  checkStep l known s = Ok tt <-> validStep l known i s.
Proof.
  intros Hnd Hs. unfold checkStep, validStep, dependsBackwards. rewrite <- (checkDependencies_ok l s i _ Hnd Hs).
  rewrite throw_ok, bool_decide_eq_false. destruct (checkDependencies _ _ _) as [[]|e]; simpl; [|naive_solver].
  rewrite !throw_ok, !andb_false_iff, !bool_decide_eq_false.
  assert (Hg : match requiredSigner s with Some g => negb (includes known g) | None => false end = false <->
    forall g, requiredSigner s = Some g -> g ∈ known).
  { destruct (requiredSigner s) as [g|]; [|done]. rewrite negb_false_iff, includes_true. naive_solver. }
  rewrite Hg. destruct (IRREVERSIBLE_STEP_TYPES (type s)), (reversible s), (decide (actorType s = USER_WALLET)),
    (requiredSigner s); naive_solver.
Qed.

Lemma checkSteps_ok l known l' : checkSteps l known l' = Ok tt <-> Forall (fun s => checkStep l known s = Ok tt) l'.
Proof.
  induction l' as [|s l' IH]; simpl; [done|]. rewrite Forall_cons, <- IH, rbind_ok.
  split; [by intros ([] & ? & ?)|]. intros [? ?]. by exists tt.
Qed.

Lemma validatePlan_ok (plan : DeploymentPlan) (known : list string) :
  validatePlan plan known = Ok tt <->
  NoDup (map id (steps plan)) /\ forall i s, steps plan !! i = Some s -> validStep (steps plan) known i s.
Proof.
  unfold validatePlan. rewrite rbind_ok. split.
  - intros ([] & [Hnd _]%noDuplicates_ok & Hc). split; [done|]. intros i s Hs.
    apply checkSteps_ok in Hc. rewrite Forall_forall in Hc. apply checkStep_ok; [done..|].
    by apply Hc, (list_elem_of_lookup_2 _ i).
  - intros [Hnd Hv]. exists tt. split; [apply noDuplicates_ok; split; [done|]; by intros s _ ?%not_elem_of_nil|].
    apply checkSteps_ok, Forall_forall. intros s [i Hi]%list_elem_of_lookup.
    apply (checkStep_ok _ _ _ i); [done..|]. by apply Hv.
Qed.

(** A plan is valid exactly when its step ids are distinct and every step is sound: it does not
    activate, each of its dependencies names a step listed before it, its signer is one the manifest
    describes and present where a wallet signs, and an irreversible type is not marked reversible. *)
Theorem validatePlan_spec (plan : DeploymentPlan) (known : list string) :
  validatePlan plan known = Ok tt <->
  NoDup (map id (steps plan)) /\ forall i s, steps plan !! i = Some s -> validStep (steps plan) known i s.
Proof. apply validatePlan_ok. Qed.

(** *** A valid plan never deadlocks *)

Definition withStatus (st : DeploymentStepStatus) (s : DeploymentStep) : DeploymentStep :=
  {| id := id s; type := type s; chainId := chainId s; dependencyIds := dependencyIds s; actorType := actorType s;
     requiredSigner := requiredSigner s; artifactHash := artifactHash s; target := target s;
     calldataHash := calldataHash s; cost := cost s; reversible := reversible s;
     rollbackAction := rollbackAction s; status := st |}.

Definition withSteps (p : DeploymentPlan) (l : list DeploymentStep) : DeploymentPlan :=
  {| schemaVersion := schemaVersion p; planId := planId p; manifestHash := manifestHash p; steps := l;
     readiness := readiness p; approval := approval p |}.

(** One step executed and verified: the first that may run. *)
Definition verifyFirst (p : DeploymentPlan) : DeploymentPlan :=
  match runnableSteps p with
  | [] => p
  | s :: _ => withSteps p (map (fun t => if streq (id t) (id s) then withStatus VERIFIED t else t) (steps p))
  end.

Fixpoint verifyAll (n : nat) (p : DeploymentPlan) : DeploymentPlan :=
  match n with O => p | S n' => verifyAll n' (verifyFirst p) end.

(** Nothing in flight, unknown or failed. *)
Definition calm (s : DeploymentStep) : Prop := status s ∈ [PENDING; READY; VERIFIED; SKIPPED_ALREADY_SATISFIED].
Definition ordered (l : list DeploymentStep) : Prop := forall i s, l !! i = Some s -> dependsBackwards l i s.

Lemma runnable_iff p s : s ∈ runnableSteps p <->
  s ∈ steps p /\ status s ∈ [PENDING; READY] /\
  forall d, d ∈ dependencyIds s -> exists t, t ∈ steps p /\ id t = d /\ done_ t = true.
Proof.
  unfold runnableSteps. rewrite list_elem_of_In, filter_In, <- list_elem_of_In, andb_true_iff, includes_true, every_true.
  setoid_rewrite includes_true. setoid_rewrite list_elem_of_fmap.
  assert (Hf : forall t, t ∈ List.filter done_ (steps p) <-> t ∈ steps p /\ done_ t = true)
    by (intros t; by rewrite list_elem_of_In, filter_In, <- list_elem_of_In).
  setoid_rewrite Hf. split; intros (Hin & Hst & H); (split; [exact Hin|split; [exact Hst|]]); intros d Hd;
    destruct (H d Hd) as (t & H1 & H2 & H3); exists t; split_and!; auto.
  - by apply includes_true.
  - by apply includes_true in H3.
Qed.

Definition openSteps (l : list DeploymentStep) : nat := length (List.filter (fun s => negb (done_ s)) l).

Lemma openSteps_zero l : openSteps l = 0%nat <-> Forall (fun s => done_ s = true) l.
Proof.
  unfold openSteps. induction l as [|s l IH]; simpl; [split; [constructor|done]|]. rewrite Forall_cons, <- IH.
  destruct (done_ s); simpl; [tauto|]. split; [done|by intros [? _]].
Qed.

(** The first step that is not done depends on steps that are. *)
Lemma first_open l : ordered l -> openSteps l <> 0%nat ->
  exists s, s ∈ l /\ done_ s = false /\
    forall d, d ∈ dependencyIds s -> exists t, t ∈ l /\ id t = d /\ done_ t = true.
Proof.
  intros Ho He. destruct (list_find (fun s => done_ s = false) l) as [[i s]|] eqn:Ef.
  - apply list_find_Some in Ef as (Hi & Hs & Hbefore). exists s.
    split_and!; [by eapply list_elem_of_lookup_2|done|]. intros d Hd.
    destruct (Ho i s Hi d Hd) as (j & t & Hlt & Ht & Hid). exists t.
    split_and!; [by eapply list_elem_of_lookup_2|done|].
    specialize (Hbefore j t Ht Hlt). by apply not_false_iff_true in Hbefore.
  - apply list_find_None in Ef. destruct He. apply openSteps_zero. eapply Forall_impl; [exact Ef|].
    intros s Hs. by apply not_false_iff_true in Hs.
Qed.

(** So it may run. *)
Lemma first_open_runnable p : ordered (steps p) -> Forall calm (steps p) -> openSteps (steps p) <> 0%nat ->
  runnableSteps p <> [].
Proof.
  intros Ho Hc He. destruct (first_open _ Ho He) as (s & Hin & Hs & Hd).
  assert (Hr : s ∈ runnableSteps p).
  { apply runnable_iff. split_and!; [done| |done]. rewrite Forall_forall in Hc. specialize (Hc s Hin).
    unfold calm, done_ in *. apply includes_false in Hs. rewrite !elem_of_cons in *. tauto. }
  intros E. rewrite E in Hr. by apply not_elem_of_nil in Hr.
Qed.

Lemma mark_ordered f l : (forall s, id (f s) = id s /\ dependencyIds (f s) = dependencyIds s) ->
  ordered l -> ordered (map f l).
Proof.
  intros Hf Ho i s Hi d Hd. change (map f l) with (f <$> l) in *. rewrite list_lookup_fmap in Hi.
  apply fmap_Some in Hi as (s0 & Hi & ->). rewrite (proj2 (Hf s0)) in Hd.
  destruct (Ho i s0 Hi d Hd) as (j & t & Hlt & Ht & Hid). exists j, (f t).
  rewrite list_lookup_fmap, Ht. split_and!; [done..|]. by rewrite (proj1 (Hf t)).
Qed.

Definition mark (q : string) (t : DeploymentStep) : DeploymentStep :=
  if streq (id t) q then withStatus VERIFIED t else t.

Lemma openSteps_cons t l : openSteps (t :: l) = ((if done_ t then 0 else 1) + openSteps l)%nat.
Proof. unfold openSteps. simpl. by destruct (done_ t). Qed.

Lemma done_mark q t : done_ (mark q t) = streq (id t) q || done_ t.
Proof. unfold mark. by destruct (streq (id t) q). Qed.

Lemma mark_open_le q l : (openSteps (map (mark q) l) <= openSteps l)%nat.
Proof.
  induction l as [|t l IH]; [done|]. cbn [map]. rewrite !openSteps_cons, done_mark.
  destruct (streq (id t) q), (done_ t); simpl; lia.
Qed.

Lemma mark_open q l s : s ∈ l -> id s = q -> done_ s = false -> (openSteps (map (mark q) l) < openSteps l)%nat.
Proof.
  intros Hin Hid Hs. induction l as [|t l IH]; [by apply not_elem_of_nil in Hin|].
  cbn [map]. rewrite !openSteps_cons, done_mark. pose proof (mark_open_le q l) as Hle.
  apply elem_of_cons in Hin as [<- | Hin].
  - rewrite Hid, streq_refl, Hs. simpl. lia.
  - specialize (IH Hin). destruct (streq (id t) q), (done_ t); simpl; lia.
Qed.

Lemma runnable_open p s : s ∈ runnableSteps p -> done_ s = false.
Proof.
  intros (_ & Hs & _)%runnable_iff. unfold done_. destruct (status s); try done;
    by repeat (apply elem_of_cons in Hs as [Hs|Hs]; [done|]); apply not_elem_of_nil in Hs.
Qed.

Lemma verifyFirst_spec p : ordered (steps p) -> Forall calm (steps p) ->
  ordered (steps (verifyFirst p)) /\ Forall calm (steps (verifyFirst p)) /\
  (openSteps (steps (verifyFirst p)) < openSteps (steps p) \/ openSteps (steps (verifyFirst p)) = 0)%nat.
Proof.
  intros Ho Hc. unfold verifyFirst. destruct (runnableSteps p) as [|s l] eqn:E.
  - split_and!; [done..|]. right. destruct (decide (openSteps (steps p) = 0%nat)); [done|].
    by destruct (first_open_runnable p).
  - fold (mark (id s)). assert (Hs : s ∈ runnableSteps p) by (rewrite E; left). cbn [steps withSteps]. split_and!.
    + apply mark_ordered; [|done]. intros t. unfold mark. by destruct (streq _ _).
    + apply Forall_map. eapply Forall_impl; [exact Hc|]. intros t Ht. unfold mark. destruct (streq _ _); [|done].
      unfold calm. cbn. set_solver.
    + left. apply (mark_open _ _ s); [by apply runnable_iff in Hs as [? _]|done|by apply (runnable_open p)].
Qed.

Lemma verifyAll_spec n : forall p, ordered (steps p) -> Forall calm (steps p) -> (openSteps (steps p) <= n)%nat ->
  openSteps (steps (verifyAll n p)) = 0%nat.
Proof.
  induction n as [|n IH]; intros p Ho Hc Hn; simpl; [lia|].
  destruct (verifyFirst_spec p Ho Hc) as (Ho' & Hc' & Hlt). apply IH; [done..|lia].
Qed.

(** A step is offered to run only when every one of its dependencies is verified or already
    satisfied, never when it is merely confirmed; and a valid plan with nothing in flight, unknown or
    failed never deadlocks: while a step is left some step may run, and executing and verifying the first
    of them, as often as the plan has steps, verifies the whole plan. *)
Theorem runnable_live (plan : DeploymentPlan) (known : list string) :
  validatePlan plan known = Ok tt -> Forall calm (steps plan) ->
  (forall s d t, s ∈ runnableSteps plan -> d ∈ dependencyIds s -> t ∈ steps plan -> id t = d ->
     status t ∈ [VERIFIED; SKIPPED_ALREADY_SATISFIED]) /\
  ((exists s, s ∈ steps plan /\ done_ s = false) -> runnableSteps plan <> []) /\
  Forall (fun s => done_ s = true) (steps (verifyAll (length (steps plan)) plan)).
Proof.
  intros [Hnd Hv]%validatePlan_ok Hc.
  assert (Ho : ordered (steps plan)) by (intros i s Hi; apply (Hv i s Hi)). split_and!.
  - intros s d t Hs Hd Ht Hid. apply runnable_iff in Hs as (_ & _ & Hdep).
    destruct (Hdep d Hd) as (t' & Ht' & Hid' & Hdone). rewrite (NoDup_map_inj id (steps plan) t t') by congruence.
    by apply includes_true in Hdone.
  - intros (s & Hin & Hs). apply first_open_runnable; [done..|]. rewrite openSteps_zero, Forall_forall.
    intros H. rewrite (H s Hin) in Hs. done.
  - apply openSteps_zero, verifyAll_spec; [done..|]. unfold openSteps. apply List.filter_length_le.
Qed.

End Steps.

Module Cost.
Import Reader Steps.

Definition DEFAULT_BUFFER_BPS : Z := 2000.
Definition FEE_QUOTE_TTL_MS : Z := 120000.

Inductive CostReason := NO_FEE_DATA | ESTIMATE_FAILED.

(** What an estimate can throw: a reason, the node's own failure to quote, or a malformed digit string. *)
Inductive CostFailure := CostError (r : CostReason) | NodeFailed (message : string) | BadDigits.

Record FeeQuote := {
  q_chainId : Z;
  q_mode : FeeMode;
  q_maxFeePerGasWei : Z;
  q_maxPriorityFeePerGasWei : option Z;
  q_quotedAtMs : Z;
  q_fromLiveNode : bool
}.

(** [x !== undefined && x > 0n]. *)
Definition usable (o : option Z) : option Z :=
  match o with Some x => if 0 <? x then Some x else None | None => None end.

Definition quoteFees (reader : ChainReader) (now : Z) : result CostFailure FeeQuote :=
  match estimateFeesPerGas reader with
  | Err m => Err (NodeFailed m)
  | Ok f =>
      match usable (maxFeePerGas f), usable (gasPrice f) with
      | Some m, _ =>
          Ok {| q_chainId := Reader.chainId reader; q_mode := EIP1559; q_maxFeePerGasWei := m;
                q_maxPriorityFeePerGasWei := maxPriorityFeePerGas f; q_quotedAtMs := now;
                q_fromLiveNode := live reader |}
      | None, Some p =>
          Ok {| q_chainId := Reader.chainId reader; q_mode := LEGACY; q_maxFeePerGasWei := p;
                q_maxPriorityFeePerGasWei := None; q_quotedAtMs := now; q_fromLiveNode := live reader |}
      | None, None => Err (CostError NO_FEE_DATA)
      end
  end.

Definition quoteIsStale (quotedAt now : Z) : bool := FEE_QUOTE_TTL_MS <? now - quotedAt.

(** Bigint division truncates. *)
Definition costFrom (gas : Z) (quote : FeeQuote) (bps : Z) : StepCost :=
  let base := gas * q_maxFeePerGasWei quote in
  let buffer := Z.quot (base * bps) 10000 in
  {| estimatedGas := pretty gas; feeMode := q_mode quote; maxFeePerGasWei := pretty (q_maxFeePerGasWei quote);
     maxPriorityFeePerGasWei := pretty <$> q_maxPriorityFeePerGasWei quote; baseNativeWei := pretty base;
     bufferBps := bps; bufferNativeWei := pretty buffer; totalNativeWei := pretty (base + buffer);
     quotedAtMs := q_quotedAtMs quote; fromLiveNode := q_fromLiveNode quote |}.

(** The creation calldata is an argument: the ABI encoder is not of this repository. *)
Definition estimateContractCreation (reader : ChainReader) (from data : string) (now bps : Z)
    : result CostFailure (StepCost * string) :=
  match estimateGas reader {| c_from := from; c_to := None; c_data := data; c_value := None |} with
  | Err _ => Err (CostError ESTIMATE_FAILED)
  | Ok gas => let* quote := quoteFees reader now in Ok (costFrom gas quote bps, data)
  end.

Definition estimateConfigurationWrite (reader : ChainReader) (from to_ data : string) (value : option Z) (now bps : Z)
    : result CostFailure StepCost :=
  let tx := {| c_from := from; c_to := Some to_; c_data := data; c_value := value |} in
  match call reader tx with
  | Err _ => Err (CostError ESTIMATE_FAILED)
  | Ok _ =>
      match estimateGas reader tx with
      | Err _ => Err (CostError ESTIMATE_FAILED)
      | Ok gas => let* quote := quoteFees reader now in Ok (costFrom gas quote bps)
      end
  end.

(** *** What each chain must be funded with *)

Record ChainFunding := {
  f_chainId : Z;
  symbol : string;
  decimals : Z;
  baseWei : Z;
  bufferWei : Z;
  f_bufferBps : option Z;
  recommendedWei : Z;
  holder : string;
  balanceWei : Z;
  sufficient : bool;
  shortfallWei : Z;
  f_quotedAtMs : Z;
  f_fromLiveNode : bool
}.

Record Accumulated := { base : Z; buffer : Z; oldest : Z; allLive : bool; bps_ : list Z }.

Definition MAX_SAFE_INTEGER : Z := 9007199254740991.
Definition noneYet : Accumulated := {| base := 0; buffer := 0; oldest := MAX_SAFE_INTEGER; allLive := true; bps_ := [] |}.

(** [Set.add]: the first occurrence keeps its place. *)
Definition addBps (b : Z) (l : list Z) : list Z := if includes l b then l else l ++ [b].

Definition addCost (c : StepCost) (a : Accumulated) : result Receipts.BigIntError Accumulated :=
  let* b := Receipts.BigInt (baseNativeWei c) in
  let* f := Receipts.BigInt (bufferNativeWei c) in
  Ok {| base := base a + b; buffer := buffer a + f; oldest := Z.min (oldest a) (quotedAtMs c);
        allLive := allLive a && fromLiveNode c; bps_ := addBps (bufferBps c) (bps_ a) |}.

(** A map keyed by chain, in insertion order. *)
Fixpoint accGet (cid : Z) (m : list (Z * Accumulated)) : option Accumulated :=
  match m with [] => None | p :: m' => if p.1 =? cid then Some p.2 else accGet cid m' end.
Fixpoint accSet (cid : Z) (a : Accumulated) (m : list (Z * Accumulated)) : list (Z * Accumulated) :=
  match m with [] => [(cid, a)] | p :: m' => if p.1 =? cid then (cid, a) :: m' else p :: accSet cid a m' end.

Fixpoint accumulate (l : list DeploymentStep) (m : list (Z * Accumulated)) : result Receipts.BigIntError (list (Z * Accumulated)) :=
  match l with
  | [] => Ok m
  | s :: l' =>
      match chainId s, cost s with
      | Some cid, Some c =>
          let* a := addCost c (default noneYet (accGet cid m)) in accumulate l' (accSet cid a m)
      | _, _ => accumulate l' m
      end
  end.

Record ChainMeta := { m_symbol : string; m_decimals : Z; m_holder : string }.

Definition fundingOf (chainMeta : gmap Z ChainMeta) (balances : gmap Z Z) (p : Z * Accumulated) : option ChainFunding :=
  match chainMeta !! p.1 with
  | None => None
  | Some meta =>
      let balance := default 0 (balances !! p.1) in
      let recommended := base p.2 + buffer p.2 in
      Some {| f_chainId := p.1; symbol := m_symbol meta; decimals := m_decimals meta; baseWei := base p.2;
              bufferWei := buffer p.2; f_bufferBps := match bps_ p.2 with [b] => Some b | _ => None end;
              recommendedWei := recommended; holder := m_holder meta; balanceWei := balance;
              sufficient := recommended <=? balance;
              shortfallWei := if recommended <=? balance then 0 else recommended - balance;
              f_quotedAtMs := oldest p.2; f_fromLiveNode := allLive p.2 |}
  end.

Definition chain_le (a b : ChainFunding) : Prop := f_chainId a <= f_chainId b.
#[export] Instance chain_le_dec : RelDecision chain_le.
Proof. intros a b. unfold chain_le. apply _. Defined.
#[export] Instance chain_le_total : Total chain_le.
Proof. intros a b. unfold chain_le. lia. Qed.
#[export] Instance chain_le_trans : Transitive chain_le.
Proof. intros a b c. unfold chain_le. lia. Qed.

Definition aggregateByChain (l : list DeploymentStep) (chainMeta : gmap Z ChainMeta) (balances : gmap Z Z)
    : result Receipts.BigIntError (list ChainFunding) :=
  let* acc := accumulate l [] in
  Ok (merge_sort chain_le (omap (fundingOf chainMeta balances) acc)).

(** *** The costs of the steps of one chain *)

Definition costsOf (cid : Z) (l : list DeploymentStep) : list StepCost :=
  omap (fun s => match chainId s with Some c => if c =? cid then cost s else None | None => None end) l.

Definition wei (s : string) : Z := match Receipts.BigInt s with Ok z => z | Err _ => 0 end.
Definition total (f : StepCost -> string) (cs : list StepCost) : Z := foldr (fun c n => wei (f c) + n) 0 cs.

Definition added (c : StepCost) (a : Accumulated) : Accumulated :=
  {| base := base a + wei (baseNativeWei c); buffer := buffer a + wei (bufferNativeWei c);
     oldest := Z.min (oldest a) (quotedAtMs c); allLive := allLive a && fromLiveNode c;
     bps_ := addBps (bufferBps c) (bps_ a) |}.

Definition addedAll (cs : list StepCost) (a : Accumulated) : Accumulated := foldl (fun a c => added c a) a cs.

Lemma addCost_ok c a a' : addCost c a = Ok a' -> a' = added c a.
Proof.
  unfold addCost, added, wei. intros (b & Hb & H)%rbind_ok. apply rbind_ok in H as (f & Hf & [= <-]).
  by rewrite Hb, Hf.
Qed.

Lemma accGet_set cid cid' a m : accGet cid' (accSet cid a m) = if cid =? cid' then Some a else accGet cid' m.
Proof.
  induction m as [|p m IH]; simpl; [done|]. destruct (p.1 =? cid) eqn:E; simpl.
  - apply Z.eqb_eq in E. rewrite E. by destruct (cid =? cid').
  - rewrite IH. destruct (p.1 =? cid') eqn:E'; [|done]. apply Z.eqb_eq in E'. apply Z.eqb_neq in E.
    destruct (Z.eqb_spec cid cid'); [congruence|done].
Qed.

Lemma accSet_keys cid a m : forall k, k ∈ (accSet cid a m).*1 <-> k = cid \/ k ∈ m.*1.
Proof.
  intros k. induction m as [|p m IH]; simpl; [by rewrite list_elem_of_singleton, elem_of_nil; tauto|].
  destruct (Z.eqb_spec p.1 cid); simpl; rewrite !elem_of_cons; [subst; tauto|]. rewrite IH. tauto.
Qed.

Lemma accSet_NoDup cid a m : NoDup m.*1 -> NoDup (accSet cid a m).*1.
Proof.
  induction m as [|p m IH]; simpl; [intros _; apply NoDup_singleton|]. intros [Hp Hm]%NoDup_cons.
  destruct (Z.eqb_spec p.1 cid) as [<-|Hne]; simpl; apply NoDup_cons; [done|]. split; [|auto].
  rewrite accSet_keys. intros [?|?]; done.
Qed.

Lemma accumulate_spec l : forall m m', accumulate l m = Ok m' -> NoDup m.*1 -> NoDup m'.*1 /\
  forall cid, accGet cid m' = match costsOf cid l with
    [] => accGet cid m | cs => Some (addedAll cs (default noneYet (accGet cid m))) end.
Proof.
  induction l as [|s l IH]; intros m m' H Hm; [by injection H as <-|]. cbn [accumulate] in H. unfold costsOf in *.
  cbn [omap list_omap]. destruct (chainId s) as [c|]; [|by apply IH]. destruct (cost s) as [k|]; cycle 1.
  - destruct (IH m m' H Hm) as [Hnd Hg]. split; [done|]. intros cid. rewrite Hg. by destruct (c =? cid).
  - apply rbind_ok in H as (a & Ha%addCost_ok & H).
    destruct (IH _ _ H (accSet_NoDup _ _ _ Hm)) as [Hnd Hg]. split; [done|]. intros cid. rewrite Hg, accGet_set.
    destruct (Z.eqb_spec c cid) as [->|Hne]; [|done]. subst a. by destruct (omap _ l).
Qed.

Lemma addedAll_fields cs : forall a, let r := addedAll cs a in
  base r = base a + total baseNativeWei cs /\ buffer r = buffer a + total bufferNativeWei cs /\
  (forall t, t <= oldest r <-> t <= oldest a /\ forall c, c ∈ cs -> t <= quotedAtMs c) /\
  (allLive r = true <-> allLive a = true /\ forall c, c ∈ cs -> fromLiveNode c = true) /\
  (forall b, b ∈ bps_ r <-> b ∈ bps_ a \/ exists c, c ∈ cs /\ bufferBps c = b) /\ (NoDup (bps_ a) -> NoDup (bps_ r)).
Proof.
  induction cs as [|c cs IH]; intros a r; subst r.
  { cbn. setoid_rewrite elem_of_nil. split_and!; [lia|lia|naive_solver..]. }
  unfold addedAll in *. cbn [foldl]. destruct (IH (added c a)) as (Hb & Hf & Ho & Hl & Hbp & Hnd).
  setoid_rewrite elem_of_cons. split_and!.
  - rewrite Hb. unfold total. simpl. lia.
  - rewrite Hf. unfold total. simpl. lia.
  - intros t. rewrite Ho. cbn. rewrite Z.min_glb_iff. naive_solver.
  - rewrite Hl. cbn. rewrite andb_true_iff. naive_solver.
  - intros b. rewrite Hbp. cbn. unfold addBps. destruct (includes _ _) eqn:E.
    + apply includes_true in E. naive_solver.
    + rewrite elem_of_app, list_elem_of_singleton. naive_solver.
  - intros Ha. apply Hnd. cbn. unfold addBps. destruct (includes _ _) eqn:E; [done|]. apply includes_false in E.
    apply NoDup_app. split_and!; [done|by intros x Hx ->%list_elem_of_singleton|apply NoDup_singleton].
Qed.

Lemma accGet_elem cid a m : NoDup m.*1 -> accGet cid m = Some a <-> (cid, a) ∈ m.
Proof.
  induction m as [|[k b] m IH]; simpl; intros Hnd; [split; [done|by intros ?%not_elem_of_nil]|].
  apply NoDup_cons in Hnd as [Hk Hnd]. rewrite elem_of_cons. destruct (Z.eqb_spec k cid) as [->|Hne].
  - split; [intros [= ->]; by left|]. intros [[= ->]|Hin]; [done|]. destruct Hk. by apply (list_elem_of_fmap_2 fst) in Hin.
  - rewrite IH by done. naive_solver.
Qed.

Lemma fundingOf_chain cm bl p f : fundingOf cm bl p = Some f -> f_chainId f = p.1.
Proof. unfold fundingOf. destruct (cm !! p.1); [|done]. by intros [= <-]. Qed.

Lemma funding_keys cm bl m : NoDup m.*1 -> NoDup (map f_chainId (omap (fundingOf cm bl) m)).
Proof.
  induction m as [|p m IH]; simpl; [intros _; constructor|]. intros [Hp Hnd]%NoDup_cons.
  destruct (fundingOf cm bl p) as [f|] eqn:E; [|by apply IH]. simpl. apply NoDup_cons. split; [|by apply IH].
  rewrite (fundingOf_chain _ _ _ _ E). intros Hin. apply list_elem_of_fmap in Hin as (g & Hg & Hin).
  apply list_elem_of_omap in Hin as (q & Hq & Eq). apply fundingOf_chain in Eq. destruct Hp.
  rewrite Hg, Eq. by apply list_elem_of_fmap_2.
Qed.

(** What a funding row says of the costs on its chain. *)
Definition rowSays (cs : list StepCost) (meta : ChainMeta) (balance : Z) (f : ChainFunding) : Prop :=
  baseWei f = total baseNativeWei cs /\ bufferWei f = total bufferNativeWei cs /\
  recommendedWei f = baseWei f + bufferWei f /\ balanceWei f = balance /\
  holder f = m_holder meta /\ symbol f = m_symbol meta /\
  (sufficient f = true <-> recommendedWei f <= balance) /\ shortfallWei f = Z.max 0 (recommendedWei f - balance) /\
  (forall now, (forall c, c ∈ cs -> quotedAtMs c <= MAX_SAFE_INTEGER) ->
     (quoteIsStale (f_quotedAtMs f) now = true <-> exists c, c ∈ cs /\ quoteIsStale (quotedAtMs c) now = true)) /\
  (f_fromLiveNode f = true <-> forall c, c ∈ cs -> fromLiveNode c = true) /\
  (forall b, f_bufferBps f = Some b -> forall c, c ∈ cs -> bufferBps c = b).

Lemma oldest_stale cs (o now : Z) : cs <> [] ->
  (forall t, t <= o <-> t <= MAX_SAFE_INTEGER /\ forall c, c ∈ cs -> t <= quotedAtMs c) ->
  (forall c, c ∈ cs -> quotedAtMs c <= MAX_SAFE_INTEGER) ->
  quoteIsStale o now = true <-> exists c, c ∈ cs /\ quoteIsStale (quotedAtMs c) now = true.
Proof.
  intros Hne Ho Hs. unfold quoteIsStale. setoid_rewrite Z.ltb_lt. split.
  - intros H. destruct (decide (Exists (fun c => now - quotedAtMs c > FEE_QUOTE_TTL_MS) cs)) as [He|He].
    + apply Exists_exists in He as (c & Hc & H'). exists c. split; [done|lia].
    + exfalso. assert (Hle : now - FEE_QUOTE_TTL_MS <= o); [|lia]. apply Ho. rewrite Exists_exists in He.
      assert (Hall : forall c, c ∈ cs -> now - FEE_QUOTE_TTL_MS <= quotedAtMs c).
      { intros c Hc. destruct (Z_le_gt_dec (now - FEE_QUOTE_TTL_MS) (quotedAtMs c)); [done|]. destruct He.
        exists c. split; [done|lia]. }
      split; [|done]. destruct cs as [|c cs]; [done|]. pose proof (Hall c ltac:(left)). pose proof (Hs c ltac:(left)). lia.
  - intros (c & Hc & H). destruct (proj1 (Ho o)) as [_ H']; [lia|]. specialize (H' c Hc). lia.
Qed.

Lemma row_says cs meta bal cid p : cs <> [] -> bal !! cid = p ->
  forall cm f, cm !! cid = Some meta -> fundingOf cm bal (cid, addedAll cs noneYet) = Some f ->
  rowSays cs meta (default 0 p) f.
Proof.
  intros Hne Hb cm f Hm Hf. unfold fundingOf in Hf. cbn [fst snd] in Hf. rewrite Hm, Hb in Hf. injection Hf as <-.
  destruct (addedAll_fields cs noneYet) as (H1 & H2 & Ho & Hl & Hbp & _). cbn in H1, H2, Ho, Hl, Hbp.
  unfold rowSays. cbn. split_and!; try done.
  - apply Z.leb_le.
  - destruct (Z.leb_spec (base (addedAll cs noneYet) + buffer (addedAll cs noneYet)) (default 0 p)); lia.
  - intros now Hs. by apply oldest_stale.
  - rewrite Hl. naive_solver.
  - intros b Hb' c Hc. destruct (bps_ _) as [|b' [|]] eqn:E; try done. injection Hb' as ->.
    assert (Hin : bufferBps c ∈ [b]) by (rewrite Hbp; right; by exists c). by apply list_elem_of_singleton in Hin.
Qed.

Lemma rows_iff cm bal l m f : NoDup m.*1 ->
  (forall cid, accGet cid m = match costsOf cid l with [] => None | cs => Some (addedAll cs noneYet) end) ->
  f ∈ omap (fundingOf cm bal) m <->
  costsOf (f_chainId f) l <> [] /\ fundingOf cm bal (f_chainId f, addedAll (costsOf (f_chainId f) l) noneYet) = Some f.
Proof.
  intros Hnd Hg. rewrite list_elem_of_omap. split.
  - intros ([cid a] & Hp & Hf). assert (Hc := fundingOf_chain _ _ _ _ Hf). cbn in Hc. rewrite Hc.
    apply (accGet_elem cid a m Hnd) in Hp. rewrite Hg in Hp. destruct (costsOf cid l); [done|].
    injection Hp as <-. split; [done|exact Hf].
  - intros [Hne Hf]. exists (f_chainId f, addedAll (costsOf (f_chainId f) l) noneYet). split; [|done].
    apply accGet_elem; [done|]. rewrite Hg. by destruct (costsOf (f_chainId f) l).
Qed.

Lemma fundingOf_meta cm bal p : is_Some (fundingOf cm bal p) <-> is_Some (cm !! p.1).
Proof. unfold fundingOf. destruct (cm !! p.1); split; intros H; try done; by destruct H. Qed.

(** The funding rows tell the truth about every chain they list: one row per chain, in the order of
    the chain ids, and a row for exactly the chains that some costed step writes to and that have a gas
    holder.  A row's base and buffer are the sums over its chain's steps, never folded together; it is
    sufficient exactly when the balance covers both, its shortfall is what is missing; and the oldest
    quote governs: the row is stale exactly when one of its quotes is, live only when all are, and it
    claims a buffer percentage only when all steps use it. *)
Theorem aggregateByChain_spec (l : list DeploymentStep) (cm : gmap Z ChainMeta) (bal : gmap Z Z) (rows : list ChainFunding) :
  aggregateByChain l cm bal = Ok rows ->
  NoDup (map f_chainId rows) /\ StronglySorted chain_le rows /\
  (forall cid, cid ∈ map f_chainId rows <-> costsOf cid l <> [] /\ is_Some (cm !! cid)) /\
  (forall f, f ∈ rows -> exists meta, cm !! f_chainId f = Some meta /\
     rowSays (costsOf (f_chainId f) l) meta (default 0 (bal !! f_chainId f)) f).
Proof.
  unfold aggregateByChain. intros (m & Hm & [= <-])%rbind_ok.
  destruct (accumulate_spec _ _ _ Hm (NoDup_nil_2)) as [Hnd Hg].
  assert (Hperm := merge_sort_Permutation chain_le (omap (fundingOf cm bal) m)).
  assert (Hin : forall f, f ∈ merge_sort chain_le (omap (fundingOf cm bal) m) <-> _)
    by (intros f; rewrite (elem_of_Permutation_proper _ _ _ Hperm); exact (rows_iff cm bal l m f Hnd Hg)).
  split_and!.
  - rewrite (Permutation_map f_chainId Hperm). by apply funding_keys.
  - apply StronglySorted_merge_sort; apply _.
  - intros cid. rewrite list_elem_of_fmap. split.
    + intros (f & -> & [Hne Hf]%Hin). split; [done|]. apply (fundingOf_meta cm bal (f_chainId f, addedAll (costsOf (f_chainId f) l) noneYet)). by rewrite Hf.
    + intros [Hne Hmeta]. apply (fundingOf_meta cm bal (cid, addedAll (costsOf cid l) noneYet)) in Hmeta as [f E].
      assert (Hc := fundingOf_chain _ _ _ _ E). cbn in Hc. exists f. split; [done|]. apply Hin. by rewrite Hc.
  - intros f [Hne Hf]%Hin. destruct (proj1 (fundingOf_meta cm bal (f_chainId f, addedAll (costsOf (f_chainId f) l) noneYet)))
      as [meta Em]; [by rewrite Hf|]. exists meta. split; [done|]. by eapply row_says.
Qed.

(** *** Step costs *)

Lemma BigInt_pretty_Z z : 0 <= z -> Receipts.BigInt (pretty z) = Ok z.
Proof.
  intros Hz. destruct z as [|p|p]; [by vm_compute| |lia].
  change (pretty (Z.pos p)) with (pretty (N.pos p)). by rewrite Receipts.BigInt_pretty.
Qed.

(** The numbers of a step cost are exact.  The three texts read back as the product of gas and fee,
    the buffer and their sum; the buffer is the stated share of the base rounded down by less than one
    wei, so with no buffer the total is the base and it never falls below it; and the quote the cost is
    made from has a positive fee whenever the node's answer was accepted. *)
Theorem costFrom_spec (reader : ChainReader) (now gas bps : Z) (q : FeeQuote) :
  quoteFees reader now = Ok q -> 0 <= gas -> 0 <= bps ->
  let c := costFrom gas q bps in
  exists b f, Receipts.BigInt (baseNativeWei c) = Ok b /\ Receipts.BigInt (bufferNativeWei c) = Ok f /\
    Receipts.BigInt (totalNativeWei c) = Ok (b + f) /\
    b = gas * q_maxFeePerGasWei q /\ 0 < q_maxFeePerGasWei q /\ f * 10000 <= b * bps < (f + 1) * 10000 /\
    b <= b + f /\ (bps = 0 -> f = 0) /\
    quotedAtMs c = now /\ fromLiveNode c = live reader /\
    (q_mode q = EIP1559 <-> exists m, usable (match estimateFeesPerGas reader with Ok fees => maxFeePerGas fees | _ => None end) = Some m).
Proof.
  intros Hq Hg Hb c.
  assert (Hfee : 0 < q_maxFeePerGasWei q /\ q_quotedAtMs q = now /\ q_fromLiveNode q = live reader /\
    (q_mode q = EIP1559 <-> exists m, usable (match estimateFeesPerGas reader with Ok fees => maxFeePerGas fees | _ => None end) = Some m)).
  { unfold quoteFees in Hq. destruct (estimateFeesPerGas reader) as [fees|]; [|done].
    assert (Hu : forall o m, usable o = Some m -> 0 < m)
      by (intros [x|] m; simpl; [|done]; destruct (Z.ltb_spec 0 x); [by intros [= <-]|done]).
    destruct (usable (maxFeePerGas fees)) eqn:E1; [|destruct (usable (gasPrice fees)) eqn:E2; [|done]];
      injection Hq as <-; simpl; split_and!; eauto; naive_solver. }
  destruct Hfee as (Hpos & Hat & Hlive & Hmode).
  assert (Hbase : 0 <= gas * q_maxFeePerGasWei q) by nia.
  assert (Hbuf : 0 <= gas * q_maxFeePerGasWei q * bps) by nia.
  pose proof (Z.quot_pos _ 10000 Hbuf ltac:(lia)) as Hq0.
  exists (gas * q_maxFeePerGasWei q), (Z.quot (gas * q_maxFeePerGasWei q * bps) 10000).
  split_and!; try done; try (apply BigInt_pretty_Z; lia).
  - rewrite Z.mul_comm. by apply Z.mul_quot_le.
  - pose proof (Z.mul_succ_quot_gt _ 10000 Hbuf ltac:(lia)). lia.
  - lia.
  - intros ->. by rewrite Z.mul_0_r.
Qed.

End Cost.

Module Reuse.
Import Reader.

Inductive ContractDisposition := REUSE_VERIFIED | DEPLOY_NEW | CONFIGURE_EXISTING | CREATE_AGENT_SPECIFIC.
#[export] Instance ContractDisposition_eq_dec : EqDecision ContractDisposition.
Proof. solve_decision. Defined.

Record Compiler := { solc : string; optimizer : bool; runs : Z; evmVersion : string }.

Record ManifestContract := {
  name : string;
  chainId : Z;
  disposition : ContractDisposition;
  address : option string;
  runtimeCodeHash : option string;
  creationCodeHash : option string;
  compiler : option Compiler
}.

Inductive ReuseReason := NO_CODE | CODE_HASH_MISMATCH | NO_EXPECTED_HASH | NO_ADDRESS | WRONG_CHAIN.

Record Verified := { v_disposition : ContractDisposition; v_address : string; v_codeHash : string }.
Record Rejected := { r_reason : ReuseReason; r_observed : option string }.

(** Nothing on chain to verify yet. *)
Definition isNew (d : ContractDisposition) : bool := includes [DEPLOY_NEW; CREATE_AGENT_SPECIFIC] d.

(** [!s] of a nullable string. *)
Definition present (o : option string) : option string :=
  match o with Some s => if streq s "" then None else Some s | None => None end.

Lemma present_some o s : present o = Some s <-> o = Some s /\ s <> "".
Proof.
  destruct o as [t|]; simpl; [|naive_solver]. destruct (streq t "") eqn:E; [apply streq_true in E|apply streq_false in E];
    naive_solver.
Qed.

Lemma noCode_false code : noCode code = false <-> exists c, code = Some c /\ c <> "" /\ c <> "0x".
Proof.
  destruct code as [c|]; simpl; [|naive_solver]. rewrite orb_false_iff, !streq_false. naive_solver.
Qed.

Definition ZERO_ADDRESS : string := "0x0000000000000000000000000000000000000000".

Section verification.
Context (keccak256 : string -> string).

(** The outer [Err] is a read that failed. *)
Definition verifyReuse (entry : ManifestContract) (reader : ChainReader) : result string (result Rejected Verified) :=
  if isNew (disposition entry) then
    Ok (Ok {| v_disposition := disposition entry; v_address := ZERO_ADDRESS; v_codeHash := "0x" |})
  else if negb (chainId entry =? Reader.chainId reader) then Ok (Err {| r_reason := WRONG_CHAIN; r_observed := None |})
  else
    match present (address entry) with
    | None => Ok (Err {| r_reason := NO_ADDRESS; r_observed := None |})
    | Some a =>
        match present (runtimeCodeHash entry) with
        | None => Ok (Err {| r_reason := NO_EXPECTED_HASH; r_observed := None |})
        | Some want =>
            let* code := getCode reader a in
            if noCode code then Ok (Err {| r_reason := NO_CODE; r_observed := None |})
            else
              let seen := codeHash keccak256 code in
              if eq_ci seen want then
                Ok (Ok {| v_disposition := disposition entry; v_address := a; v_codeHash := seen |})
              else Ok (Err {| r_reason := CODE_HASH_MISMATCH; r_observed := Some seen |})
        end
    end.

Record ReuseReport := {
  verified : list (string * string * string);
  rejected : list (string * ReuseReason);
  toDeploy : list string;
  toConfigure : list string
}.

Definition emptyReport : ReuseReport := {| verified := []; rejected := []; toDeploy := []; toConfigure := [] |}.

Definition resolveOne (c : ManifestContract) (readers : gmap Z ChainReader) (r : ReuseReport) : result string ReuseReport :=
  if isNew (disposition c) then
    Ok {| verified := verified r; rejected := rejected r; toDeploy := toDeploy r ++ [name c]; toConfigure := toConfigure r |}
  else
    match readers !! chainId c with
    | None => Ok {| verified := verified r; rejected := rejected r ++ [(name c, WRONG_CHAIN)]; toDeploy := toDeploy r;
                    toConfigure := toConfigure r |}
    | Some reader =>
        let* v := verifyReuse c reader in
        match v with
        | Ok ok => Ok {| verified := verified r ++ [(name c, v_address ok, v_codeHash ok)]; rejected := rejected r;
                         toDeploy := toDeploy r;
                         toConfigure := toConfigure r ++
                           (if bool_decide (disposition c = CONFIGURE_EXISTING) then [name c] else []) |}
        | Err e => Ok {| verified := verified r; rejected := rejected r ++ [(name c, r_reason e)]; toDeploy := toDeploy r;
                         toConfigure := toConfigure r |}
        end
    end.

Fixpoint resolveFrom (l : list ManifestContract) (readers : gmap Z ChainReader) (r : ReuseReport) : result string ReuseReport :=
  match l with
  | [] => Ok r
  | c :: l' => let* r' := resolveOne c readers r in resolveFrom l' readers r'
  end.

Definition resolveReuse (contracts : list ManifestContract) (readers : gmap Z ChainReader) : result string ReuseReport :=
  resolveFrom contracts readers emptyReport.

Definition reuseBlocks (r : ReuseReport) : bool := Manifest.nonempty (rejected r).

(** *** What a report that does not block promises *)

(** The code at the address was read on the entry's own chain and has the pinned hash. *)
Definition proven (readers : gmap Z ChainReader) (c : ManifestContract) : Prop :=
  exists reader a want code,
    readers !! chainId c = Some reader /\ Reader.chainId reader = chainId c /\
    address c = Some a /\ a <> "" /\ runtimeCodeHash c = Some want /\ want <> "" /\
    getCode reader a = Ok (Some code) /\ code <> "" /\ code <> "0x" /\
    to_lower (keccak256 code) = to_lower want.

Lemma verifyReuse_ok c reader v : isNew (disposition c) = false -> verifyReuse c reader = Ok (Ok v) <->
  exists a want code, Reader.chainId reader = chainId c /\ present (address c) = Some a /\
    present (runtimeCodeHash c) = Some want /\ getCode reader a = Ok (Some code) /\ code <> "" /\ code <> "0x" /\
    to_lower (keccak256 code) = to_lower want /\
    v = {| v_disposition := disposition c; v_address := a; v_codeHash := keccak256 code |}.
Proof.
  intros Hn. unfold verifyReuse. rewrite Hn. destruct (Z.eqb_spec (chainId c) (Reader.chainId reader)); simpl; [|naive_solver].
  destruct (present (address c)) as [a|]; [|naive_solver]. destruct (present (runtimeCodeHash c)) as [want|]; [|naive_solver].
  rewrite rbind_ok. split.
  - intros (code & Hc & H). destruct (noCode code) eqn:En; [done|]. apply noCode_false in En as (t & -> & ? & ?).
    destruct (eq_ci _ _) eqn:E; [|done]. apply eq_ci_true in E. injection H as <-. exists a, want, t. split_and!; done.
  - intros (a' & want' & code & Hid & [= <-] & [= <-] & Hc & H1 & H2 & H3 & ->). exists (Some code). split; [done|].
    replace (noCode (Some code)) with false by (symmetry; apply noCode_false; eauto).
    cbn [codeHash default]. change (codeHash keccak256 (Some code)) with (keccak256 code).
    by apply eq_ci_true in H3 as ->.
Qed.

Lemma proven_iff readers c reader : isNew (disposition c) = false -> readers !! chainId c = Some reader ->
  proven readers c <-> exists v, verifyReuse c reader = Ok (Ok v).
Proof.
  intros Hn Hr. setoid_rewrite (verifyReuse_ok c reader _ Hn). setoid_rewrite present_some. unfold proven. rewrite Hr. split.
  - intros (rd & a & want & code & [= <-] & H). eexists _, a, want, code. naive_solver.
  - intros (v & a & want & code & H). exists reader, a, want, code. naive_solver.
Qed.

(** What one entry adds to the report. *)
Lemma resolveOne_spec c readers r r1 : resolveOne c readers r = Ok r1 ->
  (isNew (disposition c) = true /\ toDeploy r1 = toDeploy r ++ [name c] /\ verified r1 = verified r /\
   rejected r1 = rejected r) \/
  (isNew (disposition c) = false /\ toDeploy r1 = toDeploy r /\
   ((proven readers c /\ rejected r1 = rejected r /\ exists x, verified r1 = verified r ++ [x]) \/
    (~ proven readers c /\ verified r1 = verified r /\ exists x, rejected r1 = rejected r ++ [x]))).
Proof.
  unfold resolveOne. destruct (isNew (disposition c)) eqn:Hn; [intros [= <-]; by left|]. intros H. right.
  destruct (readers !! chainId c) as [reader|] eqn:Er.
  - apply rbind_ok in H as (v & Hv & H). pose proof (proven_iff readers c reader Hn Er) as Hp.
    destruct v as [v|e]; injection H as <-; cbn; (split; [done|split; [done|]]).
    + left. split_and!; [apply Hp; eauto|done|eauto].
    + right. split_and!; [|done|eauto]. intros [v Hv']%Hp. rewrite Hv in Hv'. done.
  - injection H as <-. cbn. split; [done|split; [done|]]. right. split_and!; [|done|eauto].
    intros (rd & _ & _ & _ & E & _). by rewrite Er in E.
Qed.

Lemma resolveFrom_spec readers l : forall r r', resolveFrom l readers r = Ok r' ->
  (rejected r' = [] <-> rejected r = [] /\ forall c, c ∈ l -> isNew (disposition c) = false -> proven readers c) /\
  toDeploy r' = toDeploy r ++ map name (List.filter (fun c => isNew (disposition c)) l) /\
  (length (verified r') + length (rejected r') + length (toDeploy r') =
   length (verified r) + length (rejected r) + length (toDeploy r) + length l)%nat.
Proof.
  induction l as [|c l IH]; intros r r' H.
  { injection H as <-. setoid_rewrite elem_of_nil. rewrite app_nil_r. split_and!; [naive_solver|done|simpl; lia]. }
  cbn [resolveFrom] in H. apply rbind_ok in H as (r1 & H1 & H). destruct (IH r1 r' H) as (IHr & IHd & IHn).
  rewrite IHr, IHn, IHd. cbn [List.filter length map].
  assert (Hcons : (forall d, d ∈ c :: l -> isNew (disposition d) = false -> proven readers d) <->
    (isNew (disposition c) = false -> proven readers c) /\
    (forall d, d ∈ l -> isNew (disposition d) = false -> proven readers d)).
  { setoid_rewrite elem_of_cons. split; [intros Ha; split; intros; apply Ha; auto|].
    intros [Hc Ha] d [-> | Hd]; [exact Hc|by apply Ha]. }
  rewrite Hcons. apply resolveOne_spec in H1 as [(Hn & -> & -> & ->)|(Hn & -> & [(Hp & -> & x & ->)|(Hp & -> & x & ->)])];
    rewrite Hn; (split_and!; [|by rewrite <- ?app_assoc|rewrite ?length_app; simpl; lia]).
  - split; [intros [? ?]; split; [done|split; [done|done]]|intros (? & _ & ?); by split].
  - split; [intros [? ?]; split; [done|split; [done|done]]|intros (? & _ & ?); by split].
  - split; [intros [E _]; by apply app_nil in E as [_ ?]|]. intros (_ & Ha & _). by destruct Hp; apply Ha.
Qed.

(** A contract is reused only on evidence.  When the report does not block, every entry that points at
    something that exists was proven: its own chain's node returned code at its address, and that code's
    hash is the one the manifest pins; and such a report is reached exactly when all entries are so.  No
    entry is lost: each one is verified, rejected or listed for deployment. *)
Theorem resolveReuse_spec (contracts : list ManifestContract) (readers : gmap Z ChainReader) (r : ReuseReport) :
  resolveReuse contracts readers = Ok r ->
  (reuseBlocks r = false <-> forall c, c ∈ contracts -> isNew (disposition c) = false -> proven readers c) /\
  toDeploy r = map name (List.filter (fun c => isNew (disposition c)) contracts) /\
  (length (verified r) + length (rejected r) + length (toDeploy r) = length contracts)%nat.
Proof.
  intros (Hr & Hd & Hn)%resolveFrom_spec. split_and!; [|exact Hd|exact Hn].
  transitivity (rejected r = []); [unfold reuseBlocks; by destruct (rejected r)|]. rewrite Hr. simpl. tauto.
Qed.

End verification.

End Reuse.

Module Signing.
Import Environment Reader Fences.

Inductive SigningMode := BROWSER_WALLET | LOCAL_BRIDGE_WALLET.

Record SignatureRequest := {
  signerId : string;
  mode : SigningMode;
  chainId : Z;
  from : string;
  to_ : option string;
  data : string;
  value : string;
  gas : string;
  description : string;
  calldataHash : string;
  deploymentStepId : string
}.

Inductive SigningReason := WRONG_ACCOUNT | WRONG_CHAIN | SIMULATION_REVERTED | CALLDATA_MISMATCH.

Inductive SigningFailure :=
| SigningError (r : SigningReason) | EnvironmentError (r : EnvironmentReason) | FenceError (e : Roles.NetworkGuardError).

Section signing.
Context (sha256Hex : string -> string).

Definition calldataHashOf (d : string) : string := "sha256:" +:+ sha256Hex d.

Definition withCalldataHash (r : SignatureRequest) (h : string) : SignatureRequest :=
  {| signerId := signerId r; mode := mode r; chainId := chainId r; from := from r; to_ := to_ r; data := data r;
     value := value r; gas := gas r; description := description r; calldataHash := h;
     deploymentStepId := deploymentStepId r |}.

(** The simulation: a creation is estimated, a call is called.  A malformed amount throws inside it. *)
Definition simulates (reader : ChainReader) (r : SignatureRequest) : bool :=
  match to_ r with
  | None => is_ok (estimateGas reader {| c_from := from r; c_to := None; c_data := data r; c_value := None |})
  | Some t =>
      match Receipts.BigInt (value r) with
      | Ok v => is_ok (call reader {| c_from := from r; c_to := Some t; c_data := data r; c_value := Some v |})
      | Err _ => false
      end
  end.

(** The request comes without a calldata hash: whatever its field holds is replaced. *)
Definition prepareForSignature (reader : ChainReader) (req : SignatureRequest) : result SigningFailure SignatureRequest :=
  match fenceWriteByChain SIGNER (chainId req) None None with
  | Err e => Err (FenceError e)
  | Ok _ =>
      match assertWalletChain (chainId req) (Reader.chainId reader) with
      | Err e => Err (EnvironmentError e)
      | Ok _ =>
          throw SigningError SIMULATION_REVERTED when negb (simulates reader req) ;;
          Ok (withCalldataHash req (calldataHashOf (data req)))
      end
  end.

Definition assertSignerMatches (req : SignatureRequest) (address : string) (cid : Z) : result SigningReason unit :=
  throw WRONG_ACCOUNT when negb (eq_ci address (from req)) ;;
  throw WRONG_CHAIN when negb (cid =? chainId req) ;;
  Ok tt.

Definition assertSignedWhatWePlanned (req : SignatureRequest) (signedData : string) : result SigningReason unit :=
  throw CALLDATA_MISMATCH when negb (streq (calldataHashOf signedData) (calldataHash req)) ;; Ok tt.

(** What a wallet is asked to sign, and accepts, is what was planned.  A request is prepared only for
    a chain the registry lets a subsystem write to, on that chain's node, and after the node simulated it;
    the prepared request differs from the one asked for only in its calldata hash; and a signed payload
    that passes the last check is the prepared calldata itself, or two texts collide under SHA-256. *)
Theorem signing_bound (reader : ChainReader) (req prepared : SignatureRequest) (address signedData : string) (cid : Z) :
  prepareForSignature reader req = Ok prepared ->
  chainId req ∈ writableChains /\ Reader.chainId reader = chainId req /\ simulates reader req = true /\
  prepared = withCalldataHash req (calldataHashOf (data req)) /\
  (assertSignerMatches prepared address cid = Ok tt <->
     to_lower address = to_lower (from req) /\ cid = chainId req) /\
  (assertSignedWhatWePlanned prepared signedData = Ok tt ->
     signedData = data req \/ collides sha256Hex) /\
  assertSignedWhatWePlanned prepared (data req) = Ok tt.
Proof.
  unfold prepareForSignature. destruct (fenceWriteByChain _ _ _ _) as [[]|] eqn:Ef; [|done].
  apply fence_ok_iff in Ef. unfold assertWalletChain. destruct (Z.eqb_spec (chainId req) (Reader.chainId reader)); [|done].
  cbn [negb]. rewrite throw_ok, negb_false_iff. intros [Hs [= <-]]. split_and!; try done.
  - unfold assertSignerMatches. cbn. rewrite !throw_ok, !negb_false_iff, eq_ci_true, Z.eqb_eq. naive_solver.
  - unfold assertSignedWhatWePlanned. cbn. rewrite throw_ok, negb_false_iff, streq_true. intros [H _].
    apply Json.app_inv_head in H. destruct (decide (signedData = data req)); [by left|right]. by exists signedData, (data req).
  - unfold assertSignedWhatWePlanned. cbn. by rewrite streq_refl.
Qed.

End signing.

End Signing.

(** ** Samples *)
Module Samples.
Import Steps Cost.

Definition zeroCost (gas_ : Z) : StepCost :=
  {| estimatedGas := pretty gas_; feeMode := EIP1559; maxFeePerGasWei := "10"; maxPriorityFeePerGasWei := Some "1";
     baseNativeWei := pretty (gas_ * 10); bufferBps := 2000; bufferNativeWei := pretty (gas_ * 2);
     totalNativeWei := pretty (gas_ * 12); quotedAtMs := 1000; fromLiveNode := true |}.

Definition step (name_ : string) (ty : DeploymentStepType) (deps : list string) (st : DeploymentStepStatus)
    (c : option StepCost) : DeploymentStep :=
  {| id := name_; type := ty; chainId := Some 11155111; dependencyIds := deps; actorType := USER_WALLET;
     requiredSigner := Some "deployer"; artifactHash := None; target := None; calldataHash := None; cost := c;
     reversible := false; rollbackAction := None; status := st |}.

Definition plan : DeploymentPlan :=
  {| schemaVersion := "contextlock.deployment-plan/v1"; planId := "p1"; manifestHash := "sha256:00";
     steps := [step "verify-chain" VERIFY_CHAIN [] VERIFIED None;
               step "deploy-core" DEPLOY_CONTRACT ["verify-chain"] PENDING (Some (zeroCost 21000));
               step "register-policy" REGISTER_POLICY_DISABLED ["deploy-core"; "verify-chain"] PENDING
                 (Some (zeroCost 50000))];
     readiness := PREFLIGHT_READY; approval := None |}.

Example first_runs : map id (runnableSteps plan) = ["deploy-core"].
Proof. reflexivity. Qed.

Lemma runnable_live_witness :
  runnableSteps plan <> [] /\ Forall (fun s => done_ s = true) (steps (verifyAll (length (steps plan)) plan)).
Proof.
  destruct (runnable_live plan ["deployer"]) as (_ & Hr & Hall); [reflexivity| |].
  - unfold calm. apply (bool_decide_unpack _). vm_compute. exact I.
  - split; [|exact Hall]. apply Hr. exists (step "deploy-core" DEPLOY_CONTRACT ["verify-chain"] PENDING (Some (zeroCost 21000))).
    split; [right; left; reflexivity|reflexivity].
Defined.

(** A confirmed dependency is not a satisfied one. *)
Example confirmed_is_not_verified :
  runnableSteps (withSteps plan [step "verify-chain" VERIFY_CHAIN [] CONFIRMED None;
    step "deploy-core" DEPLOY_CONTRACT ["verify-chain"] PENDING None]) = [].
Proof. reflexivity. Qed.

(** *** Costs *)

Definition sepoliaMeta : gmap Z ChainMeta := {[11155111 := {| m_symbol := "ETH"; m_decimals := 18; m_holder := "0xholder" |}]}.

Lemma aggregate_sample : exists rows, aggregateByChain (steps plan) sepoliaMeta {[11155111 := 800000]} = Ok rows /\
  map recommendedWei rows = [852000] /\ map shortfallWei rows = [52000].
Proof. eexists. split; [vm_compute; reflexivity|split; reflexivity]. Qed.

Lemma aggregateByChain_spec_witness : exists rows, aggregateByChain (steps plan) sepoliaMeta {[11155111 := 800000]} = Ok rows /\
  (11155111 ∈ map f_chainId rows).
Proof.
  eexists. split; [vm_compute; reflexivity|].
  apply (aggregateByChain_spec (steps plan) sepoliaMeta {[11155111 := 800000]}); [vm_compute; reflexivity|].
  split; [discriminate|]. exists {| m_symbol := "ETH"; m_decimals := 18; m_holder := "0xholder" |}. vm_compute. reflexivity.
Defined.

(** A chain written to without a deployer in the manifest has no funding row: nothing says it is unfunded. *)
Lemma unfunded_chain_has_no_row : aggregateByChain (steps plan) ∅ ∅ = Ok [].
Proof. vm_compute. reflexivity. Qed.

(** *** A node that answers *)
Import Reader.

Definition node : ChainReader :=
  {| Reader.chainId := 11155111; live := true; getChainId := Ok 11155111;
     getCode := fun a => Ok (if streq a "0xcore" then Some "0x6001" else None); getBlockNumber := Ok 100;
     estimateGas := fun _ => Ok 21000;
     estimateFeesPerGas := Ok {| maxFeePerGas := Some 7; maxPriorityFeePerGas := Some 1; gasPrice := None |};
     call := fun _ => Ok "0x" |}.

Lemma costFrom_spec_witness : exists q, quoteFees node 1000 = Ok q /\
  exists b f, Receipts.BigInt (baseNativeWei (costFrom 21001 q 2001)) = Ok b /\
    Receipts.BigInt (bufferNativeWei (costFrom 21001 q 2001)) = Ok f /\ b = 147007 /\ f * 10000 <= b * 2001.
Proof.
  eexists. split; [reflexivity|].
  edestruct (costFrom_spec node 1000 21001 2001) as (b & f & Hb & Hf & _ & Heq & _ & Hle & _); [reflexivity|lia|lia|].
  exists b, f. split; [exact Hb|]. split; [exact Hf|]. split; [exact Heq|]. exact (proj1 Hle).
Defined.

Definition core (codeHash_ : string) : Reuse.ManifestContract :=
  {| Reuse.name := "core"; Reuse.chainId := 11155111; Reuse.disposition := Reuse.REUSE_VERIFIED;
     Reuse.address := Some "0xcore"; Reuse.runtimeCodeHash := Some codeHash_; Reuse.creationCodeHash := None;
     Reuse.compiler := None |}.

(** With the text itself as its hash. *)
Lemma resolveReuse_spec_witness : exists r, Reuse.resolveReuse (fun s => s) [core "0x6001"] {[11155111 := node]} = Ok r /\
  Reuse.proven (fun s => s) {[11155111 := node]} (core "0x6001").
Proof.
  eexists. split; [vm_compute; reflexivity|].
  apply (Reuse.resolveReuse_spec (fun s => s) [core "0x6001"] {[11155111 := node]}
           {| Reuse.verified := [("core", "0xcore", "0x6001")]; Reuse.rejected := []; Reuse.toDeploy := [];
              Reuse.toConfigure := [] |}); [vm_compute; reflexivity|reflexivity|left|reflexivity].
Defined.

Example wrong_code_blocks :
  match Reuse.resolveReuse (fun s => s) [core "0x6002"] {[11155111 := node]} with
  | Ok r => Reuse.reuseBlocks r = true | Err _ => False end.
Proof. vm_compute. reflexivity. Qed.

Definition request : Signing.SignatureRequest :=
  {| Signing.signerId := "deployer"; Signing.mode := Signing.BROWSER_WALLET; Signing.chainId := 11155111;
     Signing.from := "0xAb"; Signing.to_ := None; Signing.data := "0x6001"; Signing.value := "0"; Signing.gas := "21000";
     Signing.description := "deploy"; Signing.calldataHash := ""; Signing.deploymentStepId := "deploy-core" |}.

Lemma signing_bound_witness : exists prepared,
  Signing.prepareForSignature (fun s => s) node request = Ok prepared /\
  Signing.assertSignerMatches prepared "0xaB" 11155111 = Ok tt /\
  Signing.assertSignedWhatWePlanned (fun s => s) prepared "0x6001" = Ok tt.
Proof.
  eexists. split; [vm_compute; reflexivity|].
  edestruct (Signing.signing_bound (fun s => s) node request
    (Signing.withCalldataHash request "sha256:0x6001") "0xaB" "0x6001" 11155111) as (_ & _ & _ & _ & Hm & _ & Hs); [vm_compute; reflexivity|].
  split; [apply Hm; split; reflexivity|exact Hs].
Defined.

End Samples.
