(* ===== verification/DeployApproval.v ===== *)
(** * The deployment manifest and its approval

    [packages/studio-deploy/src].  [Digest] is [hash.ts].  [Manifest] is [manifest.ts] with the identity
    of the plan ([plan.ts]): the documents an approval is given for, what their hashes cover, and the
    artifacts they pin; [requiredBalancesFor] of [cost.ts] is here because it makes manifest rows.
    [Approval] is [approval.ts]: the approval screen, approving, and the re-check before executing.

    SHA-256 of a text is a parameter.  Message texts are left out; a drift names the artifact. *)

From S2P Require Import Prelude Regex Json Network Deploy Adapters DeployPlan.
From stdpp Require Import pretty sorting.
From Stdlib Require Import Ascii.
Local Open Scope Z_scope.

Module Digest.

Inductive HashError := DEPLOY_HASH_BIGINT | DEPLOY_HASH_MALFORMED.

Definition DIGEST_RE : re := Cat (lit "sha256:") (rep 64 (Chr is_hex)).

Definition assertDigest (s : string) : result HashError unit :=
  throw DEPLOY_HASH_MALFORMED when negb (matches DIGEST_RE s) ;; Ok tt.

Section digests.
Context (sha256Hex : string -> string).

Definition digestOf (v : jsv) : result HashError string :=
  match canonicalize v with
  | Ok t => Ok ("sha256:" +:+ sha256Hex t)
  | Err BigIntNotSerializable => Err DEPLOY_HASH_BIGINT
  end.

Lemma digestOf_same v w h : digestOf v = Ok h -> digestOf w = Ok h -> sameC v w \/ collides sha256Hex.
Proof.
  unfold digestOf. destruct (canonicalize v) as [t|[]] eqn:Ev; [|done].
  destruct (canonicalize w) as [t'|[]] eqn:Ew; [|done]. intros [= <-] [= E].
  by apply (digest_same sha256Hex v w t t').
Qed.

End digests.

(** Documents without bigints always have a digest. *)
Fixpoint noBigInt (v : jsv) : bool :=
  match v with
  | VBig _ => false
  | VArr l => forallb noBigInt l
  | VObj l => forallb (fun '(_, x) => noBigInt x) l
  | _ => true
  end.

Lemma canonWalk_total keep : forall v, noBigInt v = true -> exists j, canonWalk keep v = Ok j.
Proof.
  fix IH 1. intros [| |b|n|n|s|l|l] H; try (eexists; reflexivity); [done|..]; simpl in H |- *.
  - enough (exists l', mapR (canonWalk keep) l = Ok l') as [l' ->] by (eexists; reflexivity).
    induction l as [|x l IHl]; [by eexists|]. simpl in H. apply andb_true_iff in H as [Hx Hl].
    destruct (IH x Hx) as [j Hj], (IHl Hl) as [l' Hl']. exists (j :: l'). simpl. by rewrite Hj, Hl'.
  - change (exists j, rbind (mapR (walkEntry keep) l) (fun l' => Ok (JObj (normalize keep l'))) = Ok j).
    enough (exists l', mapR (walkEntry keep) l = Ok l') as [l' ->] by (eexists; reflexivity).
    induction l as [|[k x] l IHl]; [by eexists|]. simpl in H. apply andb_true_iff in H as [Hx Hl].
    destruct (IH x Hx) as [j Hj], (IHl Hl) as [l' Hl']. exists ((k, j) :: l'). simpl. by rewrite Hj, Hl'.
Qed.

Lemma digestOf_total sha256Hex v : noBigInt v = true -> exists h, digestOf sha256Hex v = Ok h.
Proof.
  intros H. unfold digestOf, canonicalize, canonText. destruct (canonWalk_total keptKey v H) as [j ->]. by eexists.
Qed.

Lemma noBigInt_map {A : Type} (f : A -> jsv) l : (forall x, noBigInt (f x) = true) -> noBigInt (VArr (map f l)) = true.
Proof. intros Hf. simpl. rewrite forallb_forall. intros v (x & <- & _)%in_map_iff. apply Hf. Qed.

Lemma noBigInt_null {A : Type} (f : A -> jsv) o : (forall x, noBigInt (f x) = true) -> noBigInt (orNull f o) = true.
Proof. intros Hf. by destruct o; simpl. Qed.

Create HintDb nobig.
#[export] Hint Resolve noBigInt_map noBigInt_null : nobig.

#[export] Hint Extern 1 (noBigInt _ = true) => reflexivity : nobig.

Lemma noBigInt_obj l : noBigInt (VObj l) = true <-> Forall (fun p => noBigInt p.2 = true) l.
Proof.
  cbn [noBigInt]. induction l as [|[k v] l IH]; cbn [forallb]; [split; [constructor|done]|].
  by rewrite andb_true_iff, Forall_cons, IH.
Qed.

(** An object, property by property. *)
Ltac no_bigint := apply noBigInt_obj; repeat (apply Forall_cons; split); [..|apply Forall_nil]; cbn [snd]; auto with nobig.

End Digest.

Module Manifest.
Import Environment Reuse Digest.

Record ManifestEns := { e_name : string; e_node : string; e_chainId : Z; e_resolver : string; e_boundAgent : string }.

Record ManifestCreWorkflow := {
  workflowName : string;
  registry : string;
  binaryHash : string;
  configHash : string;
  workflowHash : string;
  sourceTreeHash : string;
  creCliVersion : string;
  initialState : string
}.

Record ManifestRuntimeImage := {
  i_agentId : string;
  tag : string;
  imageDigest : option string;
  sbomDigest : option string;
  provenanceDigest : option string;
  vulnerabilityReportDigest : option string;
  baseImageDigest : option string
}.

Inductive RequiredBalanceCategory :=
| NATIVE_GAS | TEST_PROTOCOL_ASSET | BRIDGE_FEE | CCIP_FEE_TOKEN | TREASURY_SEED_ASSET.
#[export] Instance RequiredBalanceCategory_eq_dec : EqDecision RequiredBalanceCategory.
Proof. solve_decision. Defined.

Record RequiredBalance := {
  category : RequiredBalanceCategory;
  b_chainId : Z;
  token : option string;
  b_symbol : string;
  b_decimals : Z;
  amount : string;
  b_holder : string;
  purpose : string
}.

Inductive SignerRole := DEPLOYER | POLICY_ADMIN | CAPABILITY_ISSUER | ENS_OWNER | CRE_OWNER | APPROVER.
#[export] Instance SignerRole_eq_dec : EqDecision SignerRole.
Proof. solve_decision. Defined.

Record SignerRequirement := {
  signerId : string;
  role : SignerRole;
  s_address : option string;
  s_mode : Signing.SigningMode;
  chainIds : list Z;
  authorizes : string
}.

Record PinnedAdapter := { adapterId : string; version : string; artifactHash : string }.

Inductive AuthorizationModel := SINGLE_EOA | SEPARATED_ROLES | MULTISIG.

Record DeploymentManifest := {
  schemaVersion : string;
  manifestId : string;
  projectId : string;
  buildId : string;
  blueprintRevision : Z;
  buildRevision : Z;
  strategyHash : string;
  organizationHash : option string;
  gitCommit : string;
  environment : DeploymentEnvironment;
  contracts : list ManifestContract;
  ens : list ManifestEns;
  creWorkflows : list ManifestCreWorkflow;
  runtimeImages : list ManifestRuntimeImage;
  adapters : list PinnedAdapter;
  authorizationModel : AuthorizationModel;
  requiredSigners : list SignerRequirement;
  requiredBalances : list RequiredBalance;
  policyInitialState : string;
  runtimeInitialState : string;
  creInitialState : string;
  generatedAt : string
}.

Definition DEPLOYMENT_MANIFEST_VERSION : string := "contextlock.deployment-manifest/v1".

(** *** The schemas *)

Definition SHA256 : re := Cat (lit "sha256:") (rep 64 (Chr is_hex)).
Definition HEX32 : re := Cat (lit "0x") (rep 64 (Chr is_hex)).
Definition hexAddress (s : string) : bool := matches Receipts.ADDRESS s.
Definition nullOr {A : Type} (p : A -> bool) (o : option A) : bool := match o with Some x => p x | None => true end.
Definition text (s : string) : bool := Manifest.textMin 1 s.

Definition contractOk (c : ManifestContract) : bool :=
  text (name c) && Manifest.posInt (Reuse.chainId c) && nullOr hexAddress (address c) &&
  nullOr (matches HEX32) (runtimeCodeHash c) && nullOr (matches HEX32) (creationCodeHash c) &&
  nullOr (fun k => Manifest.safeInt (runs k)) (compiler c).

Definition ensOk (e : ManifestEns) : bool :=
  text (e_name e) && matches HEX32 (e_node e) && Manifest.posInt (e_chainId e) && hexAddress (e_resolver e) &&
  hexAddress (e_boundAgent e).

Definition creWorkflowOk (w : ManifestCreWorkflow) : bool :=
  text (workflowName w) && text (registry w) && Manifest.textMin 16 (binaryHash w) &&
  Manifest.textMin 16 (configHash w) && Manifest.textMin 16 (workflowHash w) && matches SHA256 (sourceTreeHash w) &&
  text (creCliVersion w) && streq (initialState w) "PAUSED".

Definition runtimeImageOk (i : ManifestRuntimeImage) : bool :=
  text (i_agentId i) && text (tag i) && nullOr (matches SHA256) (imageDigest i) &&
  nullOr (matches SHA256) (sbomDigest i) && nullOr (matches SHA256) (provenanceDigest i) &&
  nullOr (matches SHA256) (vulnerabilityReportDigest i) && nullOr (matches SHA256) (baseImageDigest i).

Definition balanceOk (b : RequiredBalance) : bool :=
  Manifest.posInt (b_chainId b) && nullOr hexAddress (token b) && text (b_symbol b) &&
  Manifest.natInt (b_decimals b) && (b_decimals b <=? 36) && matches DIGITS (amount b) && hexAddress (b_holder b) &&
  text (purpose b).

Definition signerOk (s : SignerRequirement) : bool :=
  text (signerId s) && nullOr hexAddress (s_address s) && every Manifest.posInt (chainIds s) && text (authorizes s).

Definition VERSION : re := Cat DIGITS (Cat (lit ".") (Cat DIGITS (Cat (lit ".") DIGITS))).
Definition adapterOk (a : PinnedAdapter) : bool := matches VERSION (version a) && matches SHA256 (artifactHash a).

(** [z.string().url()] is the URL parser of the platform. *)
Definition chainTargetOk (isUrl : string -> bool) (c : ChainTarget) : bool :=
  Manifest.posInt (Environment.chainId c) && text (Environment.name c) && nullOr (matches DIGITS) (chainSelector c) &&
  text (nativeSymbol c) && Manifest.natInt (nativeDecimals c) && (nativeDecimals c <=? 36) && nullOr isUrl (explorer c).

Definition environmentOk (isUrl : string -> bool) (e : DeploymentEnvironment) : bool :=
  streq (Environment.schemaVersion e) DEPLOYMENT_ENVIRONMENT_VERSION && text (environmentId e) &&
  Manifest.nonempty (chains e) && every (chainTargetOk isUrl) (chains e).

Definition GIT_COMMIT (s : string) : bool :=
  all_chars is_hex s && (7 <=? String.length s)%nat && (String.length s <=? 40)%nat.

(** [DeploymentManifestSchema] on a record of the right shape. *)
Definition manifestOk (isUrl : string -> bool) (m : DeploymentManifest) : bool :=
  streq (schemaVersion m) DEPLOYMENT_MANIFEST_VERSION && text (manifestId m) && text (projectId m) && text (buildId m) &&
  Manifest.natInt (blueprintRevision m) && Manifest.natInt (buildRevision m) && matches SHA256 (strategyHash m) &&
  nullOr (matches SHA256) (organizationHash m) && GIT_COMMIT (gitCommit m) && environmentOk isUrl (environment m) &&
  every contractOk (contracts m) && every ensOk (ens m) && every creWorkflowOk (creWorkflows m) &&
  every runtimeImageOk (runtimeImages m) && every adapterOk (adapters m) && every signerOk (requiredSigners m) &&
  every balanceOk (requiredBalances m) && streq (policyInitialState m) "DISABLED" &&
  streq (runtimeInitialState m) "INACTIVE" && streq (creInitialState m) "PAUSED" && text (generatedAt m).

(** *** The identity that is hashed *)

Definition dispositionText (d : ContractDisposition) : string :=
  match d with
  | REUSE_VERIFIED => "REUSE_VERIFIED" | DEPLOY_NEW => "DEPLOY_NEW" | CONFIGURE_EXISTING => "CONFIGURE_EXISTING"
  | CREATE_AGENT_SPECIFIC => "CREATE_AGENT_SPECIFIC"
  end.
Definition categoryText (c : RequiredBalanceCategory) : string :=
  match c with
  | NATIVE_GAS => "NATIVE_GAS" | TEST_PROTOCOL_ASSET => "TEST_PROTOCOL_ASSET" | BRIDGE_FEE => "BRIDGE_FEE"
  | CCIP_FEE_TOKEN => "CCIP_FEE_TOKEN" | TREASURY_SEED_ASSET => "TREASURY_SEED_ASSET"
  end.
Definition roleText (r : SignerRole) : string :=
  match r with
  | DEPLOYER => "DEPLOYER" | POLICY_ADMIN => "POLICY_ADMIN" | CAPABILITY_ISSUER => "CAPABILITY_ISSUER"
  | ENS_OWNER => "ENS_OWNER" | CRE_OWNER => "CRE_OWNER" | APPROVER => "APPROVER"
  end.
Definition modeText (m : Signing.SigningMode) : string :=
  match m with Signing.BROWSER_WALLET => "BROWSER_WALLET" | Signing.LOCAL_BRIDGE_WALLET => "LOCAL_BRIDGE_WALLET" end.
Definition authorizationText (a : AuthorizationModel) : string :=
  match a with SINGLE_EOA => "SINGLE_EOA" | SEPARATED_ROLES => "SEPARATED_ROLES" | MULTISIG => "MULTISIG" end.

Definition chainTargetValue (c : ChainTarget) : jsv :=
  VObj [("chainId", VNum (Environment.chainId c)); ("name", VStr (Environment.name c));
        ("chainSelector", orNull VStr (chainSelector c)); ("nativeSymbol", VStr (nativeSymbol c));
        ("nativeDecimals", VNum (nativeDecimals c)); ("explorer", orNull VStr (explorer c))].

Definition environmentValue (e : DeploymentEnvironment) : jsv :=
  VObj [("schemaVersion", VStr (Environment.schemaVersion e)); ("environmentId", VStr (environmentId e));
        ("kind", VStr (kindText (kind e))); ("chains", VArr (map chainTargetValue (chains e)));
        ("writesPermitted", VBool (writesPermitted e));
        ("allowedCreRegistries", VArr (map VStr (allowedCreRegistries e)))].

Definition compilerValue (c : Compiler) : jsv :=
  VObj [("solc", VStr (solc c)); ("optimizer", VBool (optimizer c)); ("runs", VNum (runs c));
        ("evmVersion", VStr (evmVersion c))].

Definition contractValue (c : ManifestContract) : jsv :=
  VObj [("name", VStr (name c)); ("chainId", VNum (Reuse.chainId c));
        ("disposition", VStr (dispositionText (disposition c))); ("address", orNull VStr (address c));
        ("runtimeCodeHash", orNull VStr (runtimeCodeHash c)); ("creationCodeHash", orNull VStr (creationCodeHash c));
        ("compiler", orNull compilerValue (compiler c))].

Definition ensValue (e : ManifestEns) : jsv :=
  VObj [("name", VStr (e_name e)); ("node", VStr (e_node e)); ("chainId", VNum (e_chainId e));
        ("resolver", VStr (e_resolver e)); ("boundAgent", VStr (e_boundAgent e))].

Definition creWorkflowValue (w : ManifestCreWorkflow) : jsv :=
  VObj [("workflowName", VStr (workflowName w)); ("registry", VStr (registry w)); ("binaryHash", VStr (binaryHash w));
        ("configHash", VStr (configHash w)); ("workflowHash", VStr (workflowHash w));
        ("sourceTreeHash", VStr (sourceTreeHash w)); ("creCliVersion", VStr (creCliVersion w));
        ("initialState", VStr (initialState w))].

Definition runtimeImageValue (i : ManifestRuntimeImage) : jsv :=
  VObj [("agentId", VStr (i_agentId i)); ("tag", VStr (tag i)); ("imageDigest", orNull VStr (imageDigest i));
        ("sbomDigest", orNull VStr (sbomDigest i)); ("provenanceDigest", orNull VStr (provenanceDigest i));
        ("vulnerabilityReportDigest", orNull VStr (vulnerabilityReportDigest i));
        ("baseImageDigest", orNull VStr (baseImageDigest i))].

Definition adapterValue (a : PinnedAdapter) : jsv :=
  VObj [("adapterId", VStr (adapterId a)); ("version", VStr (version a)); ("artifactHash", VStr (artifactHash a))].

Definition signerValue (s : SignerRequirement) : jsv :=
  VObj [("signerId", VStr (signerId s)); ("role", VStr (roleText (role s))); ("address", orNull VStr (s_address s));
        ("mode", VStr (modeText (s_mode s))); ("chainIds", VArr (map VNum (chainIds s)));
        ("authorizes", VStr (authorizes s))].

Definition balanceValue (b : RequiredBalance) : jsv :=
  VObj [("category", VStr (categoryText (category b))); ("chainId", VNum (b_chainId b)); ("token", orNull VStr (token b));
        ("symbol", VStr (b_symbol b)); ("decimals", VNum (b_decimals b)); ("amount", VStr (amount b));
        ("holder", VStr (b_holder b)); ("purpose", VStr (purpose b))].

(** [manifestIdentity]: everything except [generatedAt] and [manifestId]. *)
Definition manifestIdentity (m : DeploymentManifest) : jsv :=
  VObj [("schemaVersion", VStr (schemaVersion m)); ("projectId", VStr (projectId m)); ("buildId", VStr (buildId m));
        ("blueprintRevision", VNum (blueprintRevision m)); ("buildRevision", VNum (buildRevision m));
        ("strategyHash", VStr (strategyHash m)); ("organizationHash", orNull VStr (organizationHash m));
        ("gitCommit", VStr (gitCommit m)); ("environment", environmentValue (environment m));
        ("contracts", VArr (map contractValue (contracts m))); ("ens", VArr (map ensValue (ens m)));
        ("creWorkflows", VArr (map creWorkflowValue (creWorkflows m)));
        ("runtimeImages", VArr (map runtimeImageValue (runtimeImages m)));
        ("adapters", VArr (map adapterValue (adapters m)));
        ("authorizationModel", VStr (authorizationText (authorizationModel m)));
        ("requiredSigners", VArr (map signerValue (requiredSigners m)));
        ("requiredBalances", VArr (map balanceValue (requiredBalances m)));
        ("policyInitialState", VStr (policyInitialState m)); ("runtimeInitialState", VStr (runtimeInitialState m));
        ("creInitialState", VStr (creInitialState m))].

(** *** The hash covers everything that is hashed *)

Lemma same_nullStr (o o' : option string) : sameC (orNull VStr o) (orNull VStr o') -> o = o'.
Proof. apply same_orNull; [done|intros x y; apply same_str]. Qed.

Lemma same_strings (l l' : list string) : sameC (VArr (map VStr l)) (VArr (map VStr l')) -> l = l'.
Proof. apply same_map_eq. intros x y. apply same_str. Qed.

Lemma same_numbers (l l' : list Z) : sameC (VArr (map VNum l)) (VArr (map VNum l')) -> l = l'.
Proof. apply same_map_eq. intros x y. apply same_num. Qed.

Lemma text_inj {A : Type} (f : A -> string) : (forall x y, f x = f y -> x = y) ->
  forall x y, sameC (VStr (f x)) (VStr (f y)) -> x = y.
Proof. intros Hf x y H%same_str. by apply Hf. Qed.

Lemma disposition_same x y : sameC (VStr (dispositionText x)) (VStr (dispositionText y)) -> x = y.
Proof. apply text_inj. by intros [] []. Qed.
Lemma category_same x y : sameC (VStr (categoryText x)) (VStr (categoryText y)) -> x = y.
Proof. apply text_inj. by intros [] []. Qed.
Lemma role_same x y : sameC (VStr (roleText x)) (VStr (roleText y)) -> x = y.
Proof. apply text_inj. by intros [] []. Qed.
Lemma mode_same x y : sameC (VStr (modeText x)) (VStr (modeText y)) -> x = y.
Proof. apply text_inj. by intros [] []. Qed.
Lemma authorization_same x y : sameC (VStr (authorizationText x)) (VStr (authorizationText y)) -> x = y.
Proof. apply text_inj. by intros [] []. Qed.
Lemma kind_same x y : sameC (VStr (kindText x)) (VStr (kindText y)) -> x = y.
Proof. apply text_inj. by intros [] []. Qed.

Hint Resolve same_str same_num same_bool same_nullStr same_strings same_numbers : core.
Hint Resolve disposition_same category_same role_same mode_same authorization_same kind_same : core.

(** Two records whose documents agree are equal, field by field. *)
Ltac same_record := match goal with |- ?x = ?y => destruct x, y end; simpl in *; f_equal; solve [eauto].

Lemma chainTarget_same x y : sameC (chainTargetValue x) (chainTargetValue y) -> x = y.
Proof.
  unfold chainTargetValue. intros H. prop_of H "chainId". prop_of H "name". prop_of H "chainSelector".
  prop_of H "nativeSymbol". prop_of H "nativeDecimals". prop_of H "explorer". same_record.
Qed.

Lemma environment_same x y : sameC (environmentValue x) (environmentValue y) -> x = y.
Proof.
  unfold environmentValue. intros H. prop_of H "schemaVersion". prop_of H "environmentId". prop_of H "kind".
  prop_of H "chains". prop_of H "writesPermitted". prop_of H "allowedCreRegistries".
  pose proof (same_map_eq chainTargetValue (chains x) (chains y) chainTarget_same). same_record.
Qed.

Lemma compiler_same x y : sameC (compilerValue x) (compilerValue y) -> x = y.
Proof.
  unfold compilerValue. intros H. prop_of H "solc". prop_of H "optimizer". prop_of H "runs". prop_of H "evmVersion".
  same_record.
Qed.

Lemma same_nullCompiler o o' : sameC (orNull compilerValue o) (orNull compilerValue o') -> o = o'.
Proof. apply same_orNull; [done|exact compiler_same]. Qed.
Hint Resolve same_nullCompiler : core.

Lemma contract_same x y : sameC (contractValue x) (contractValue y) -> x = y.
Proof.
  unfold contractValue. intros H. prop_of H "name". prop_of H "chainId". prop_of H "disposition". prop_of H "address".
  prop_of H "runtimeCodeHash". prop_of H "creationCodeHash". prop_of H "compiler". same_record.
Qed.

Lemma ens_same x y : sameC (ensValue x) (ensValue y) -> x = y.
Proof.
  unfold ensValue. intros H. prop_of H "name". prop_of H "node". prop_of H "chainId". prop_of H "resolver".
  prop_of H "boundAgent". same_record.
Qed.

Lemma creWorkflow_same x y : sameC (creWorkflowValue x) (creWorkflowValue y) -> x = y.
Proof.
  unfold creWorkflowValue. intros H. prop_of H "workflowName". prop_of H "registry". prop_of H "binaryHash".
  prop_of H "configHash". prop_of H "workflowHash". prop_of H "sourceTreeHash". prop_of H "creCliVersion".
  prop_of H "initialState". same_record.
Qed.

Lemma runtimeImage_same x y : sameC (runtimeImageValue x) (runtimeImageValue y) -> x = y.
Proof.
  unfold runtimeImageValue. intros H. prop_of H "agentId". prop_of H "tag". prop_of H "imageDigest".
  prop_of H "sbomDigest". prop_of H "provenanceDigest". prop_of H "vulnerabilityReportDigest".
  prop_of H "baseImageDigest". same_record.
Qed.

Lemma adapter_same x y : sameC (adapterValue x) (adapterValue y) -> x = y.
Proof.
  unfold adapterValue. intros H. prop_of H "adapterId". prop_of H "version". prop_of H "artifactHash". same_record.
Qed.

Lemma signer_same x y : sameC (signerValue x) (signerValue y) -> x = y.
Proof.
  unfold signerValue. intros H. prop_of H "signerId". prop_of H "role". prop_of H "address". prop_of H "mode".
  prop_of H "chainIds". prop_of H "authorizes". same_record.
Qed.

Lemma balance_same x y : sameC (balanceValue x) (balanceValue y) -> x = y.
Proof.
  unfold balanceValue. intros H. prop_of H "category". prop_of H "chainId". prop_of H "token". prop_of H "symbol".
  prop_of H "decimals". prop_of H "amount". prop_of H "holder". prop_of H "purpose". same_record.
Qed.

(** The manifest under another id, generated at another time. *)
Definition regenerated (m : DeploymentManifest) (mid at_ : string) : DeploymentManifest :=
  {| schemaVersion := schemaVersion m; manifestId := mid; projectId := projectId m; buildId := buildId m;
     blueprintRevision := blueprintRevision m; buildRevision := buildRevision m; strategyHash := strategyHash m;
     organizationHash := organizationHash m; gitCommit := gitCommit m; environment := environment m;
     contracts := contracts m; ens := ens m; creWorkflows := creWorkflows m; runtimeImages := runtimeImages m;
     adapters := adapters m; authorizationModel := authorizationModel m; requiredSigners := requiredSigners m;
     requiredBalances := requiredBalances m; policyInitialState := policyInitialState m;
     runtimeInitialState := runtimeInitialState m; creInitialState := creInitialState m; generatedAt := at_ |}.

Hint Resolve environment_same : core.

Lemma manifestIdentity_content m m' : sameC (manifestIdentity m) (manifestIdentity m') ->
  m' = regenerated m (manifestId m') (generatedAt m').
Proof.
  unfold manifestIdentity. intros H. prop_of H "schemaVersion". prop_of H "projectId". prop_of H "buildId".
  prop_of H "blueprintRevision". prop_of H "buildRevision". prop_of H "strategyHash". prop_of H "organizationHash".
  prop_of H "gitCommit". prop_of H "environment". prop_of H "contracts". prop_of H "ens". prop_of H "creWorkflows".
  prop_of H "runtimeImages". prop_of H "adapters". prop_of H "authorizationModel". prop_of H "requiredSigners".
  prop_of H "requiredBalances". prop_of H "policyInitialState". prop_of H "runtimeInitialState".
  prop_of H "creInitialState".
  repeat match goal with
  | R : sameC (VArr (map contractValue _)) _ |- _ => apply (same_map_eq _ _ _ contract_same) in R
  | R : sameC (VArr (map ensValue _)) _ |- _ => apply (same_map_eq _ _ _ ens_same) in R
  | R : sameC (VArr (map creWorkflowValue _)) _ |- _ => apply (same_map_eq _ _ _ creWorkflow_same) in R
  | R : sameC (VArr (map runtimeImageValue _)) _ |- _ => apply (same_map_eq _ _ _ runtimeImage_same) in R
  | R : sameC (VArr (map adapterValue _)) _ |- _ => apply (same_map_eq _ _ _ adapter_same) in R
  | R : sameC (VArr (map signerValue _)) _ |- _ => apply (same_map_eq _ _ _ signer_same) in R
  | R : sameC (VArr (map balanceValue _)) _ |- _ => apply (same_map_eq _ _ _ balance_same) in R
  end.
  unfold regenerated. destruct m, m'; simpl in *; f_equal; symmetry; eauto.
Qed.

Lemma chainTarget_nobig c : noBigInt (chainTargetValue c) = true.
Proof. unfold chainTargetValue. no_bigint. Qed.
Lemma compiler_nobig c : noBigInt (compilerValue c) = true.
Proof. unfold compilerValue. no_bigint. Qed.
Hint Resolve chainTarget_nobig compiler_nobig : nobig.

Lemma environment_nobig e : noBigInt (environmentValue e) = true.
Proof. unfold environmentValue. no_bigint. Qed.
Lemma contract_nobig c : noBigInt (contractValue c) = true.
Proof. unfold contractValue. no_bigint. Qed.
Lemma ens_nobig e : noBigInt (ensValue e) = true.
Proof. unfold ensValue. no_bigint. Qed.
Lemma creWorkflow_nobig w : noBigInt (creWorkflowValue w) = true.
Proof. unfold creWorkflowValue. no_bigint. Qed.
Lemma runtimeImage_nobig i : noBigInt (runtimeImageValue i) = true.
Proof. unfold runtimeImageValue. no_bigint. Qed.
Lemma adapter_nobig a : noBigInt (adapterValue a) = true.
Proof. unfold adapterValue. no_bigint. Qed.
Lemma signer_nobig s : noBigInt (signerValue s) = true.
Proof. unfold signerValue. no_bigint. Qed.
Lemma balance_nobig b : noBigInt (balanceValue b) = true.
Proof. unfold balanceValue. no_bigint. Qed.
Hint Resolve environment_nobig contract_nobig ens_nobig creWorkflow_nobig runtimeImage_nobig adapter_nobig
  signer_nobig balance_nobig : nobig.

Section hashing.
Context (sha256Hex : string -> string).

Definition manifestHash (m : DeploymentManifest) : result HashError string := digestOf sha256Hex (manifestIdentity m).

Lemma manifestHash_total m : exists h, manifestHash m = Ok h.
Proof. apply digestOf_total. unfold manifestIdentity. no_bigint. Qed.

Lemma manifestHash_content m m' h : manifestHash m = Ok h -> manifestHash m' = Ok h ->
  m' = regenerated m (manifestId m') (generatedAt m') \/ collides sha256Hex.
Proof. intros H H'. destruct (digestOf_same _ _ _ _ H H') as [Hs|]; [left; by apply manifestIdentity_content|by right]. Qed.

Lemma manifestHash_regenerated m mid at_ : manifestHash (regenerated m mid at_) = manifestHash m.
Proof. done. Qed.

(** A manifest hash is a hash of everything that happens.  Every manifest has one; regenerating the
    manifest under another id or at another time keeps it; and two manifests with one hash agree on every
    other field -- every contract, workflow, image, adapter, signer, balance, the environment with its
    permission to write and the three initial states -- unless two texts collide under SHA-256. *)
Theorem manifestHash_binds (m m' : DeploymentManifest) (mid at_ h : string) :
  (exists h, manifestHash m = Ok h) /\ manifestHash (regenerated m mid at_) = manifestHash m /\
  (manifestHash m = Ok h -> manifestHash m' = Ok h ->
     m' = regenerated m (manifestId m') (generatedAt m') \/ collides sha256Hex).
Proof. split_and!; [apply manifestHash_total|apply manifestHash_regenerated|apply manifestHash_content]. Qed.

End hashing.

(** *** What is pinned *)

Record Artifact := { a_kind : string; a_id : string; a_hash : string }.

(** [if (hash) out.push(...)]. *)
Definition pinned (k i : string) (h : option string) : list Artifact :=
  match present h with Some x => [{| a_kind := k; a_id := i; a_hash := x |}] | None => [] end.

Definition pinnedArtifacts (m : DeploymentManifest) : list Artifact :=
  [{| a_kind := "strategy"; a_id := buildId m; a_hash := strategyHash m |}] ++
  pinned "organization" (buildId m) (organizationHash m) ++
  flat_map (fun c => let i := name c +:+ "@" +:+ pretty (Reuse.chainId c) in
    pinned "contract-runtime-code" i (runtimeCodeHash c) ++
    pinned "contract-creation-code" i (creationCodeHash c)) (contracts m) ++
  flat_map (fun w => [{| a_kind := "cre-binary"; a_id := workflowName w; a_hash := binaryHash w |};
                      {| a_kind := "cre-config"; a_id := workflowName w; a_hash := configHash w |};
                      {| a_kind := "cre-source"; a_id := workflowName w; a_hash := sourceTreeHash w |}]) (creWorkflows m) ++
  flat_map (fun i => pinned "runtime-image" (i_agentId i) (imageDigest i) ++
                     pinned "runtime-sbom" (i_agentId i) (sbomDigest i) ++
                     pinned "runtime-provenance" (i_agentId i) (provenanceDigest i)) (runtimeImages m) ++
  map (fun a => {| a_kind := "adapter"; a_id := adapterId a +:+ "@" +:+ version a; a_hash := artifactHash a |}) (adapters m).

(** *** Balances *)

Inductive BalanceError := SUPPLIED_GAS.

(** [bps / 100] as a number prints. *)
Definition percentText (bps : Z) : string :=
  let whole := pretty (bps / 100) in
  let frac := bps mod 100 in
  if frac =? 0 then whole
  else whole +:+ "." +:+
    (if frac mod 10 =? 0 then pretty (frac / 10) else if frac <? 10 then "0" +:+ pretty frac else pretty frac).

Definition gasRow (f : Cost.ChainFunding) : RequiredBalance :=
  {| category := NATIVE_GAS; b_chainId := Cost.f_chainId f; token := None; b_symbol := Cost.symbol f;
     b_decimals := Cost.decimals f; amount := pretty (Cost.recommendedWei f); b_holder := Cost.holder f;
     purpose := "Gas for this deployment's writes on chain " +:+ pretty (Cost.f_chainId f) +:+
       match Cost.f_bufferBps f with
       | None => " (steps used differing safety buffers)"
       | Some b => ", including a " +:+ percentText b +:+ "% safety buffer"
       end +:+ ". Spent as fees; not recoverable." |}.

Definition requiredBalancesFor (funding : list Cost.ChainFunding) (operatingAssets : list RequiredBalance)
    : result BalanceError (list RequiredBalance) :=
  throw SUPPLIED_GAS when some (fun a => bool_decide (category a = NATIVE_GAS)) operatingAssets ;;
  Ok (map gasRow funding ++ operatingAssets).

End Manifest.

Module Approval.
Import Reuse Environment Steps Manifest Digest.

(** *** The identity of a plan *)

Definition costValue (c : StepCost) : jsv :=
  VObj [("estimatedGas", VStr (estimatedGas c)); ("feeMode", VStr (feeModeText (feeMode c)));
        ("maxFeePerGasWei", VStr (maxFeePerGasWei c));
        ("maxPriorityFeePerGasWei", orNull VStr (maxPriorityFeePerGasWei c));
        ("baseNativeWei", VStr (baseNativeWei c)); ("bufferBps", VNum (bufferBps c));
        ("bufferNativeWei", VStr (bufferNativeWei c)); ("totalNativeWei", VStr (totalNativeWei c));
        ("quotedAtMs", VNum (quotedAtMs c)); ("fromLiveNode", VBool (fromLiveNode c))].

Definition stepValue (s : DeploymentStep) : jsv :=
  VObj [("id", VStr (id s)); ("type", VStr (stepTypeText (type s))); ("chainId", orNull VNum (chainId s));
        ("dependencyIds", VArr (map VStr (dependencyIds s))); ("actorType", VStr (actorText (actorType s)));
        ("requiredSigner", orNull VStr (requiredSigner s)); ("artifactHash", orNull VStr (Steps.artifactHash s));
        ("target", orNull VStr (target s)); ("calldataHash", orNull VStr (calldataHash s));
        ("cost", orNull costValue (cost s)); ("reversible", VBool (reversible s));
        ("rollbackAction", orNull VStr (rollbackAction s))].

(** [planIdentity]: everything except [readiness], [approval] and each step's [status]. *)
Definition planIdentity (p : DeploymentPlan) : jsv :=
  VObj [("schemaVersion", VStr (Steps.schemaVersion p)); ("planId", VStr (planId p));
        ("manifestHash", VStr (Steps.manifestHash p)); ("steps", VArr (map stepValue (steps p)))].

Inductive ApprovalReason :=
| NOT_READY | STALE_COSTS | INSUFFICIENT_FUNDS | UNKNOWN_SIGNER | MANIFEST_DRIFT | PLAN_DRIFT | ARTIFACT_DRIFT
| BLOCKED | NOT_APPROVED.

Inductive ApprovalFailure := ApprovalError (r : ApprovalReason) | HashFailed (e : HashError).

Definition liftHash {A : Type} (r : result HashError A) : result ApprovalFailure A :=
  match r with Ok a => Ok a | Err e => Err (HashFailed e) end.

Definition READINESS_TRANSITIONS (r : Readiness) : list Readiness :=
  match r with
  | PREFLIGHT_DRAFT => [PREFLIGHT_RUNNING]
  | PREFLIGHT_RUNNING => [PREFLIGHT_BLOCKED; PREFLIGHT_READY]
  | PREFLIGHT_BLOCKED => [PREFLIGHT_RUNNING]
  | PREFLIGHT_READY => [DEPLOYMENT_APPROVED; PREFLIGHT_RUNNING]
  | DEPLOYMENT_APPROVED => []
  end.

Definition assertReadinessTransition (a b : Readiness) : result ApprovalFailure unit :=
  throw ApprovalError NOT_READY when negb (includes (READINESS_TRANSITIONS a) b) ;; Ok tt.

Inductive BlockerSeverity := BLOCKER | WARNING.
#[export] Instance BlockerSeverity_eq_dec : EqDecision BlockerSeverity.
Proof. solve_decision. Defined.

Record PreflightBlocker := { code : string; severity : BlockerSeverity; detail : string; remedy : string }.

(** *** The screen *)

Record ScreenCre := {
  cre_registry : string;
  deployAccess : bool;
  slotsUsed : Z;
  slotsAllowed : Z;
  cre_binaryHash : string;
  cre_workflowHash : string;
  limitsSimulated : bool
}.

Record ScreenFunds := {
  sf_chainId : Z;
  sf_symbol : string;
  sf_baseWei : string;
  sf_bufferWei : string;
  sf_recommendedWei : string;
  sf_balanceWei : string;
  sf_sufficient : bool
}.

Record ScreenAsset := {
  sa_category : RequiredBalanceCategory; sa_chainId : Z; sa_symbol : string; sa_amount : string; sa_purpose : string }.
Record ScreenSigner := {
  ss_signerId : string; ss_role : SignerRole; ss_address : option string; ss_mode : Signing.SigningMode;
  ss_authorizes : string }.

Record ApprovalScreen := {
  targetKind : EnvironmentKind;
  targetChains : list (Z * string);
  reused : nat;
  configured : nat;
  deployedNew : nat;
  rows : list (string * Reuse.ContractDisposition * option string);
  cre : option ScreenCre;
  images : list (string * string * option string);
  funds : list ScreenFunds;
  operatingAssets : list ScreenAsset;
  signers : list ScreenSigner;
  blockers : list PreflightBlocker;
  screenManifestHash : string;
  screenPlanHash : string
}.

Section approval.
Context (sha256Hex : string -> string).

Definition deploymentPlanHash (p : DeploymentPlan) : result HashError string := digestOf sha256Hex (planIdentity p).

Definition countDisposition (ds : list Reuse.ContractDisposition) (m : DeploymentManifest) : nat :=
  length (List.filter (fun c => includes ds (Reuse.disposition c)) (contracts m)).

Definition screenFunds (f : Cost.ChainFunding) : ScreenFunds :=
  {| sf_chainId := Cost.f_chainId f; sf_symbol := Cost.symbol f; sf_baseWei := pretty (Cost.baseWei f);
     sf_bufferWei := pretty (Cost.bufferWei f); sf_recommendedWei := pretty (Cost.recommendedWei f);
     sf_balanceWei := pretty (Cost.balanceWei f); sf_sufficient := Cost.sufficient f |}.

Definition screenAsset (b : RequiredBalance) : ScreenAsset :=
  {| sa_category := category b; sa_chainId := b_chainId b; sa_symbol := b_symbol b; sa_amount := amount b;
     sa_purpose := purpose b |}.

Definition screenSigner (s : SignerRequirement) : ScreenSigner :=
  {| ss_signerId := signerId s; ss_role := role s; ss_address := s_address s; ss_mode := s_mode s;
     ss_authorizes := authorizes s |}.

(** The initial states and the notes of the screen are constants and left out. *)
Definition buildApprovalScreen (m : DeploymentManifest) (plan : DeploymentPlan) (funding : list Cost.ChainFunding)
    (c : option ScreenCre) (bl : list PreflightBlocker) : result HashError ApprovalScreen :=
  let* mh := manifestHash sha256Hex m in
  let* ph := deploymentPlanHash plan in
  Ok {| targetKind := kind (environment m);
        targetChains := map (fun t => (Environment.chainId t, Environment.name t)) (chains (environment m));
        reused := countDisposition [Reuse.REUSE_VERIFIED] m;
        configured := countDisposition [Reuse.CONFIGURE_EXISTING] m;
        deployedNew := countDisposition [Reuse.DEPLOY_NEW; Reuse.CREATE_AGENT_SPECIFIC] m;
        rows := map (fun k => (Reuse.name k, Reuse.disposition k, Reuse.address k)) (contracts m);
        cre := c;
        images := map (fun i => (i_agentId i, tag i, imageDigest i)) (runtimeImages m);
        funds := map screenFunds funding;
        operatingAssets := 
          map screenAsset (List.filter (fun b => negb (bool_decide (category b = NATIVE_GAS))) (requiredBalances m));
        signers := map screenSigner (requiredSigners m); blockers := bl; screenManifestHash := mh; screenPlanHash := ph |}.

(** *** Approving *)

(** [obj[key] = hash]: the last value, in the place of the first. *)
Fixpoint setHash (k v : string) (l : list (string * string)) : list (string * string) :=
  match l with
  | [] => [(k, v)]
  | p :: l' => if streq p.1 k then (k, v) :: l' else p :: setHash k v l'
  end.

Definition artifactKey (a : Artifact) : string := a_kind a +:+ ":" +:+ a_id a.
Definition artifactMap (l : list Artifact) : list (string * string) :=
  foldl (fun m a => setHash (artifactKey a) (a_hash a) m) [] l.

Definition staleCost (now : Z) (s : DeploymentStep) : bool :=
  match cost s with Some c => Cost.quoteIsStale (quotedAtMs c) now | None => false end.

Definition unknownSigner (known : list string) (s : DeploymentStep) : bool :=
  match Reuse.present (requiredSigner s) with Some g => negb (includes known g) | None => false end.

Definition withApproval (p : DeploymentPlan) (a : PlanApproval) : DeploymentPlan :=
  {| Steps.schemaVersion := Steps.schemaVersion p; planId := planId p; Steps.manifestHash := Steps.manifestHash p;
     steps := steps p; readiness := DEPLOYMENT_APPROVED; approval := Some a |}.

(** The approval recorded: who, when, the two hashes shown, and every pinned artifact. *)
Definition recorded (m : DeploymentManifest) (by_ : string) (now : Z) (mh ph : string) : PlanApproval :=
  {| approvedBy := by_; approvedAtMs := now; a_manifestHash := mh; a_planHash := ph;
     artifactHashes := artifactMap (pinnedArtifacts m) |}.

Definition approve (m : DeploymentManifest) (plan : DeploymentPlan) (screen : ApprovalScreen) (by_ : string) (now : Z)
    : result ApprovalFailure DeploymentPlan :=
  let* _ := assertReadinessTransition (readiness plan) DEPLOYMENT_APPROVED in
  throw ApprovalError BLOCKED when some (fun b => bool_decide (severity b = BLOCKER)) (blockers screen) ;;
  throw ApprovalError STALE_COSTS when some (staleCost now) (steps plan) ;;
  throw ApprovalError INSUFFICIENT_FUNDS when some (fun f => negb (sf_sufficient f)) (funds screen) ;;
  throw ApprovalError UNKNOWN_SIGNER when some (unknownSigner (map signerId (requiredSigners m))) (steps plan) ;;
  let* mh := liftHash (manifestHash sha256Hex m) in
  let* ph := liftHash (deploymentPlanHash plan) in
  throw ApprovalError MANIFEST_DRIFT when negb (streq (screenManifestHash screen) mh) ;;
  throw ApprovalError PLAN_DRIFT when negb (streq (screenPlanHash screen) ph) ;;
  Ok (withApproval plan (recorded m by_ now mh ph)).

(** *** Re-checking *)

Inductive Drift :=
| NoApproval | ManifestChanged | ArtifactAbsent (key : string) | ArtifactChanged (key : string)
| ArtifactUnapproved (key : string).

Definition approvalDrift (plan : DeploymentPlan) (current : DeploymentManifest) : result HashError (list Drift) :=
  match approval plan with
  | None => Ok [NoApproval]
  | Some a =>
      let* mh := manifestHash sha256Hex current in
      let now := artifactMap (pinnedArtifacts current) in
      Ok ((if streq (a_manifestHash a) mh then [] else [ManifestChanged]) ++
          flat_map (fun p => match getKey p.1 now with
                             | None => [ArtifactAbsent p.1]
                             | Some h => if streq h p.2 then [] else [ArtifactChanged p.1]
                             end) (artifactHashes a) ++
          flat_map (fun p => match getKey p.1 (artifactHashes a) with
                             | None => [ArtifactUnapproved p.1]
                             | Some _ => []
                             end) now)
  end.

Definition assertApprovedFor (plan : DeploymentPlan) (current : DeploymentManifest) : result ApprovalFailure unit :=
  throw ApprovalError NOT_APPROVED when negb (bool_decide (readiness plan = DEPLOYMENT_APPROVED)) ||
    match approval plan with None => true | Some _ => false end ;;
  let* drift := liftHash (approvalDrift plan current) in
  throw ApprovalError ARTIFACT_DRIFT when Manifest.nonempty drift ;;
  Ok tt.

(** *** Artifact maps *)

Lemma getKey_setHash k k' v l : getKey k' (setHash k v l) = if streq k' k then Some v else getKey k' l.
Proof.
  induction l as [|[k0 v0] l IH]; simpl; [by destruct (streq k' k)|]. destruct (streq k0 k) eqn:E; simpl.
  - apply streq_true in E as ->. by destruct (streq k' k).
  - rewrite IH. destruct (streq k' k0) eqn:E'; [|done]. apply streq_true in E' as ->. by rewrite E.
Qed.

Lemma setHash_keys k v l : forall x, x ∈ (setHash k v l).*1 <-> x = k \/ x ∈ l.*1.
Proof.
  intros x. induction l as [|[k0 v0] l IH]; simpl; [by rewrite list_elem_of_singleton, elem_of_nil; tauto|].
  destruct (streq k0 k) eqn:E; simpl; rewrite !elem_of_cons.
  - apply streq_true in E as ->. tauto.
  - rewrite IH. tauto.
Qed.

Lemma setHash_NoDup k v l : NoDup l.*1 -> NoDup (setHash k v l).*1.
Proof.
  induction l as [|[k0 v0] l IH]; simpl; [intros _; apply NoDup_singleton|]. intros [Hk Hl]%NoDup_cons.
  destruct (streq k0 k) eqn:E; simpl; apply NoDup_cons.
  - apply streq_true in E as ->. by split.
  - split; [|by apply IH]. rewrite setHash_keys. apply streq_false in E. intros [?|?]; done.
Qed.

Lemma artifactMap_NoDup l : NoDup (artifactMap l).*1.
Proof.
  unfold artifactMap. assert (Hall : forall m : list (string * string), NoDup m.*1 ->
    NoDup (foldl (fun m a => setHash (artifactKey a) (a_hash a) m) m l).*1); [|apply Hall; constructor].
  induction l as [|a l IH]; intros m Hm; [done|]. by apply IH, setHash_NoDup.
Qed.

(** No drift between two artifact maps: they agree on every key. *)
Lemma no_drift l l' : NoDup l.*1 -> NoDup l'.*1 ->
  flat_map (fun p => match getKey p.1 l' with
                     | None => [ArtifactAbsent p.1]
                     | Some h => if streq h p.2 then [] else [ArtifactChanged p.1]
                     end) l ++
  flat_map (fun p => match getKey p.1 l with None => [ArtifactUnapproved p.1] | Some _ => [] end) l' = [] <->
  forall k, getKey k l = getKey k l'.
Proof.
  intros Hl Hl'. assert (Hnil : forall {A B} (f : A -> list B) (m : list A), flat_map f m = [] <-> forall x, x ∈ m -> f x = []).
  { intros A B f m. induction m as [|x m IH]; simpl; [split; [by intros _ x ?%not_elem_of_nil|done]|].
    setoid_rewrite elem_of_cons. rewrite app_nil. naive_solver. }
  rewrite app_nil, !Hnil. split.
  - intros [H1 H2] k. destruct (getKey k l) as [v|] eqn:E.
    + apply (getKey_Some k l v Hl) in E. specialize (H1 _ E). simpl in H1.
      destruct (getKey k l') as [v'|]; [|done]. destruct (streq v' v) eqn:Es; [|done]. by apply streq_true in Es as ->.
    + destruct (getKey k l') as [v'|] eqn:E'; [|done]. apply (getKey_Some k l' v' Hl') in E'.
      specialize (H2 _ E'). simpl in H2. by rewrite E in H2.
  - intros H. split; intros [k v] Hin; simpl.
    + apply (getKey_Some k l v Hl) in Hin. by rewrite <- H, Hin, streq_refl.
    + apply (getKey_Some k l' v Hl') in Hin. by rewrite H, Hin.
Qed.

(** *** What an approval binds *)

Lemma assertApprovedFor_ok plan a m : readiness plan = DEPLOYMENT_APPROVED -> approval plan = Some a ->
  NoDup (artifactHashes a).*1 ->
  assertApprovedFor plan m = Ok tt <->
  manifestHash sha256Hex m = Ok (a_manifestHash a) /\
  forall k, getKey k (artifactHashes a) = getKey k (artifactMap (pinnedArtifacts m)).
Proof.
  intros Hr Ha Hnd. unfold assertApprovedFor, approvalDrift. rewrite Hr, Ha. cbn [bool_decide orb negb].
  rewrite bool_decide_eq_true_2 by done. cbn [negb orb].
  destruct (manifestHash_total sha256Hex m) as [mh Hm]. rewrite Hm. cbn [liftHash rbind].
  rewrite throw_ok, <- (no_drift _ _ Hnd (artifactMap_NoDup (pinnedArtifacts m))).
  destruct (streq (a_manifestHash a) mh) eqn:E; cbn [app].
  - apply streq_true in E as ->. unfold Manifest.nonempty. destruct (_ ++ _); naive_solver.
  - apply streq_false in E. cbn. naive_solver.
Qed.

Lemma noBlocker (l : list PreflightBlocker) : some (fun b => bool_decide (severity b = BLOCKER)) l = false <->
  forall b, b ∈ l -> severity b <> BLOCKER.
Proof. rewrite some_false. by setoid_rewrite bool_decide_eq_false. Qed.

Lemma noStale now (l : list DeploymentStep) : some (staleCost now) l = false <->
  forall s c, s ∈ l -> cost s = Some c -> now - quotedAtMs c <= Cost.FEE_QUOTE_TTL_MS.
Proof.
  rewrite some_false. unfold staleCost, Cost.quoteIsStale. split.
  - intros H s c Hs Hc. specialize (H s Hs). rewrite Hc in H. by apply Z.ltb_ge.
  - intros H s Hs. destruct (cost s) as [c|] eqn:Hc; [|done]. apply Z.ltb_ge. by eapply H.
Qed.

Lemma noShort (l : list ScreenFunds) : some (fun f => negb (sf_sufficient f)) l = false <->
  forall f, f ∈ l -> sf_sufficient f = true.
Proof. rewrite some_false. by setoid_rewrite negb_false_iff. Qed.

Lemma noUnknown (rs : list SignerRequirement) (l : list DeploymentStep) :
  some (unknownSigner (map signerId rs)) l = false <->
  forall s g, s ∈ l -> requiredSigner s = Some g -> g <> "" -> exists r, r ∈ rs /\ signerId r = g.
Proof.
  rewrite some_false. unfold unknownSigner. split.
  - intros H s g Hs Hg Hne. specialize (H s Hs).
    assert (Hp : present (requiredSigner s) = Some g) by (by apply present_some). rewrite Hp in H.
    apply negb_false_iff, includes_true, list_elem_of_fmap in H as (r & -> & Hr). by exists r.
  - intros H s Hs. destruct (present (requiredSigner s)) as [g|] eqn:E; [|done]. apply present_some in E as [Hg Hne].
    destruct (H s g Hs Hg Hne) as (r & Hr & <-). apply negb_false_iff, includes_true.
    by apply (list_elem_of_fmap_2 signerId).
Qed.

Lemma ready_transition r : assertReadinessTransition r DEPLOYMENT_APPROVED = Ok tt <-> r = PREFLIGHT_READY.
Proof. by destruct r. Qed.

Lemma approve_ok m plan screen by_ now p : approve m plan screen by_ now = Ok p <->
  readiness plan = PREFLIGHT_READY /\ (forall b, b ∈ blockers screen -> severity b <> BLOCKER) /\
  (forall s c, s ∈ steps plan -> cost s = Some c -> now - quotedAtMs c <= Cost.FEE_QUOTE_TTL_MS) /\
  (forall f, f ∈ funds screen -> sf_sufficient f = true) /\
  (forall s g, s ∈ steps plan -> requiredSigner s = Some g -> g <> "" -> exists r, r ∈ requiredSigners m /\ signerId r = g) /\
  manifestHash sha256Hex m = Ok (screenManifestHash screen) /\ deploymentPlanHash plan = Ok (screenPlanHash screen) /\
  p = withApproval plan (recorded m by_ now (screenManifestHash screen) (screenPlanHash screen)).
Proof.
  destruct (manifestHash_total sha256Hex m) as [mh Hm]. unfold approve.
  rewrite <- ready_transition, <- noBlocker, <- (noStale now), <- noShort, <- noUnknown, Hm.
  destruct (assertReadinessTransition _ _) as [[]|e]; cbn [rbind]; [|split; [done|by intros [? _]]].
  rewrite !throw_ok. cbn [liftHash rbind].
  destruct (deploymentPlanHash plan) as [ph|e] eqn:Ep; cbn [liftHash rbind].
  - rewrite !throw_ok, !negb_false_iff, !streq_true. split.
    + intros (H1 & H2 & H3 & H4 & -> & -> & [= <-]). split_and!; done.
    + intros (_ & H1 & H2 & H3 & H4 & [= ->] & [= ->] & ->). split_and!; done.
  - split; [by intros (_ & _ & _ & _ & ?)|]. intros (_ & _ & _ & _ & _ & _ & ? & _). done.
Qed.

(** An approval is given only for what the screen could show: exactly when preflight is ready, no
    blocker is left, no step's fee quote is older than two minutes, every chain on the screen is funded,
    every named signer is one the manifest describes, and the screen was made from this very manifest and
    plan; and what is recorded is those two hashes and the pinned artifacts, nothing else of the plan
    being changed but its readiness. *)
Theorem approve_spec (m : DeploymentManifest) (plan p : DeploymentPlan) (screen : ApprovalScreen) (by_ : string) (now : Z) :
  approve m plan screen by_ now = Ok p <->
  readiness plan = PREFLIGHT_READY /\ (forall b, b ∈ blockers screen -> severity b <> BLOCKER) /\
  (forall s c, s ∈ steps plan -> cost s = Some c -> now - quotedAtMs c <= Cost.FEE_QUOTE_TTL_MS) /\
  (forall f, f ∈ funds screen -> sf_sufficient f = true) /\
  (forall s g, s ∈ steps plan -> requiredSigner s = Some g -> g <> "" -> exists r, r ∈ requiredSigners m /\ signerId r = g) /\
  manifestHash sha256Hex m = Ok (screenManifestHash screen) /\ deploymentPlanHash plan = Ok (screenPlanHash screen) /\
  p = withApproval plan (recorded m by_ now (screenManifestHash screen) (screenPlanHash screen)).
Proof. apply approve_ok. Qed.

(** C17: an approval holds for the manifest it was given for and for no other.  After approval, the check
    before executing passes for a manifest exactly when it has the approved hash and pins the approved
    artifacts; the approved manifest regenerated under another id or time passes; and a manifest that
    passes is the approved one in everything but id and time, unless two texts collide under SHA-256. *)
Theorem approval_binds (m : DeploymentManifest) (plan p : DeploymentPlan) (screen : ApprovalScreen) (by_ : string) (now : Z) :
  approve m plan screen by_ now = Ok p ->
  (forall mid at_, assertApprovedFor p (regenerated m mid at_) = Ok tt) /\
  (forall m', assertApprovedFor p m' = Ok tt <->
     manifestHash sha256Hex m' = manifestHash sha256Hex m /\
     forall k, getKey k (artifactMap (pinnedArtifacts m)) = getKey k (artifactMap (pinnedArtifacts m'))) /\
  (forall m', assertApprovedFor p m' = Ok tt ->
     m' = regenerated m (manifestId m') (generatedAt m') \/ collides sha256Hex).
Proof.
  intros (_ & _ & _ & _ & _ & Hm & _ & ->)%approve_ok.
  set (a := recorded m by_ now (screenManifestHash screen) (screenPlanHash screen)).
  assert (Hiff : forall m', assertApprovedFor (withApproval plan a) m' = Ok tt <->
     manifestHash sha256Hex m' = manifestHash sha256Hex m /\
     forall k, getKey k (artifactMap (pinnedArtifacts m)) = getKey k (artifactMap (pinnedArtifacts m'))).
  { intros m'. rewrite Hm. 
    exact (assertApprovedFor_ok (withApproval plan a) a m' eq_refl eq_refl (artifactMap_NoDup (pinnedArtifacts m))). }
  split_and!; [intros mid at_; by apply Hiff|exact Hiff|].
  intros m' [Hh _]%Hiff. rewrite Hm in Hh. by eapply manifestHash_content.
Qed.

(** The check compares the manifest only: it passes whatever steps the plan has by then, although the plan
    hash was approved and recorded. *)
Lemma approval_ignores_steps plan l m : assertApprovedFor (withSteps plan l) m = assertApprovedFor plan m.
Proof. done. Qed.

End approval.

End Approval.

(** ** Samples *)
Module Samples.
Import Environment Steps Manifest Approval.

Definition manifest : DeploymentManifest :=
  {| schemaVersion := DEPLOYMENT_MANIFEST_VERSION; manifestId := "m1"; projectId := "proj"; buildId := "build-1";
     blueprintRevision := 3; buildRevision := 7;
     strategyHash := "sha256:0000000000000000000000000000000000000000000000000000000000000001";
     organizationHash := None; gitCommit := "abc1234"; environment := testnetEnvironment [ETHEREUM_SEPOLIA];
     contracts := [DeployPlan.Samples.core "0x6001"]; ens := []; creWorkflows := []; runtimeImages := [];
     adapters := []; authorizationModel := SINGLE_EOA;
     requiredSigners := [{| signerId := "deployer"; role := DEPLOYER; s_address := None;
                            s_mode := Signing.BROWSER_WALLET; chainIds := [11155111]; authorizes := "deploying" |}];
     requiredBalances := []; policyInitialState := "DISABLED"; runtimeInitialState := "INACTIVE";
     creInitialState := "PAUSED"; generatedAt := "2026-01-01" |}.

(** A digest that keeps the text, so that no two documents collide. *)
Definition keep (s : string) : string := s.

(** No step is costed: the write step has no gas estimate. *)
Definition plan : DeploymentPlan :=
  withSteps DeployPlan.Samples.plan
    [DeployPlan.Samples.step "verify-chain" VERIFY_CHAIN [] VERIFIED None;
     DeployPlan.Samples.step "deploy-core" DEPLOY_CONTRACT ["verify-chain"] PENDING None].

Definition approved : result ApprovalFailure DeploymentPlan :=
  match buildApprovalScreen keep manifest plan [] None [] with
  | Ok s => approve keep manifest plan s "alice" 2000
  | Err e => Err (HashFailed e)
  end.

Lemma approval_binds_witness : exists p, approved = Ok p /\
  assertApprovedFor keep p (regenerated manifest "m2" "2026-02-02") = Ok tt.
Proof.
  unfold approved.
  destruct (buildApprovalScreen keep manifest plan [] None []) as [s|e] eqn:Es; [|vm_compute in Es; discriminate].
  destruct (approve keep manifest plan s "alice" 2000) as [p|e] eqn:Ep.
  - destruct (approval_binds keep manifest plan p s "alice" 2000 Ep) as (Hre & _ & _).
    exists p. split; [reflexivity|]. exact (Hre "m2" "2026-02-02").
  - vm_compute in Es. injection Es as <-. vm_compute in Ep. discriminate.
Defined.

(** A plan whose write step was never costed is approved: [assertCosted] is not part of approving. *)
Lemma uncosted_plan_is_approved : assertCosted plan = Err MISSING_COST /\ is_ok approved = true.
Proof. split; vm_compute; reflexivity. Qed.

(** After approval the plan's steps may be replaced: the check still passes. *)
Lemma changed_steps_pass : forall p, approved = Ok p ->
  assertApprovedFor keep (withSteps p [DeployPlan.Samples.step "drain" CONFIGURE_CONTRACT [] PENDING None]) manifest = Ok tt.
Proof. intros p H. vm_compute in H. injection H as <-. vm_compute. reflexivity. Qed.

End Samples.
