(* ===== verification/Orchestrator.v ===== *)
(** * The deployment orchestrator

    [packages/studio-orchestrator/src].  [Activation] is [activation.ts], the activation ceremony and the
    order in which an incident stops an agent.  [Artifact] is the drift check of [studio-deploy/src/cre.ts].
    [Effect] is a small monad: a computation changes the run, sends transactions and may throw, and what
    it changed before throwing stays changed.  [Run] is [orchestrator.ts]: resuming, choosing the next
    step, executing it and running to completion.

    What the world answers is an argument: one record for a resume, one per executed step.  Waiting for a
    transaction is [Deploy.Receipts.waitForFinality], with its fuel and its turns taken from that record.
    The event log of a run is left out. *)

From S2P Require Import Prelude Regex Json Network Deploy Adapters DeployPlan DeployApproval.
From stdpp Require Import pretty.
From Stdlib Require Import Ascii.
Local Open Scope Z_scope.

Module Activation.

Inductive ActivationStep :=
| START_RUNTIME | VERIFY_RUNTIME_HEARTBEAT | RESUME_CRE_WORKFLOW | VERIFY_CRE_HEALTH | ENABLE_CONTEXTLOCK_POLICY.
#[export] Instance ActivationStep_eq_dec : EqDecision ActivationStep.
Proof. solve_decision. Defined.

Definition ACTIVATION_STEPS : list ActivationStep :=
  [START_RUNTIME; VERIFY_RUNTIME_HEARTBEAT; RESUME_CRE_WORKFLOW; VERIFY_CRE_HEALTH; ENABLE_CONTEXTLOCK_POLICY].

Inductive DeactivationStep :=
| DISABLE_CONTEXTLOCK_POLICY | PAUSE_CRE_WORKFLOW | STOP_RUNTIME | REVOKE_AGENT_IDENTITY.

Definition DEACTIVATION_STEPS : list DeactivationStep :=
  [DISABLE_CONTEXTLOCK_POLICY; PAUSE_CRE_WORKFLOW; STOP_RUNTIME; REVOKE_AGENT_IDENTITY].

Inductive ActivationReason := OUT_OF_ORDER | NOT_VERIFIED | RUNTIME_STOP_IS_NOT_A_SECURITY_KILL.

Record ActivationProgress := {
  deploymentId : string;
  completed : list ActivationStep;
  startedAtMs : Z;
  activatedAtMs : option Z
}.

Definition assertActivationStep (p : ActivationProgress) (s : ActivationStep) (deploymentVerified : bool)
    : result ActivationReason unit :=
  throw NOT_VERIFIED when negb deploymentVerified ;;
  throw OUT_OF_ORDER when negb (bool_decide (ACTIVATION_STEPS !! length (completed p) = Some s)) ;;
  Ok tt.

Definition advanceActivation (p : ActivationProgress) (s : ActivationStep) (nowMs : Z) : ActivationProgress :=
  let done_ := completed p ++ [s] in
  {| deploymentId := deploymentId p; completed := done_; startedAtMs := startedAtMs p;
     activatedAtMs := if (length done_ =? length ACTIVATION_STEPS)%nat then Some nowMs else None |}.

Definition emergencyStopOrder (includeIdentityRevocation : bool) : list DeactivationStep :=
  [DISABLE_CONTEXTLOCK_POLICY; PAUSE_CRE_WORKFLOW; STOP_RUNTIME] ++
  (if includeIdentityRevocation then [REVOKE_AGENT_IDENTITY] else []).

(** The claim of a runtime stop, without its message. *)
Definition runtimeStopClaim (policyStillEnabled : bool) : bool := negb policyStillEnabled.

Definition assertNotClaimingSecurityKill (policyDisabled policyEnabledOnChain : bool) : result ActivationReason unit :=
  throw RUNTIME_STOP_IS_NOT_A_SECURITY_KILL when policyDisabled && policyEnabledOnChain ;; Ok tt.

(** A ceremony: each step asserted against the progress, then recorded. *)
Inductive ceremony : ActivationProgress -> ActivationProgress -> Prop :=
| ceremony_nil p : ceremony p p
| ceremony_step p q s verified now : ceremony p q -> assertActivationStep q s verified = Ok tt ->
    ceremony p (advanceActivation q s now).

Lemma assertActivationStep_ok p s v : assertActivationStep p s v = Ok tt <->
  v = true /\ ACTIVATION_STEPS !! length (completed p) = Some s.
Proof. unfold assertActivationStep. rewrite !throw_ok, !negb_false_iff, bool_decide_eq_true. tauto. Qed.

Lemma ceremony_prefix p q : ceremony p q -> completed p `prefix_of` ACTIVATION_STEPS ->
  completed q `prefix_of` ACTIVATION_STEPS.
Proof.
  induction 1 as [|p q s v now _ IH Hs]; intros Hp; [done|]. destruct (IH Hp) as [k Hk].
  apply assertActivationStep_ok in Hs as [_ Hs]. rewrite Hk in Hs. rewrite lookup_app_r, Nat.sub_diag in Hs by lia.
  destruct k as [|x k]; [done|]. injection Hs as ->. exists k. simpl. rewrite Hk. by rewrite <- app_assoc.
Qed.

(** The policy is enabled last.  Whatever sequence of steps is asserted and recorded from a fresh
    ceremony, what is completed is a prefix of the fixed order; so when enabling the policy is among it,
    the runtime and the workflow were started and proved healthy before, in that order, and nothing can
    follow; each next step is the only one accepted, and none is while the deployment is not verified. *)
Theorem activation_ordered (p q : ActivationProgress) :
  completed p = [] -> ceremony p q ->
  completed q `prefix_of` ACTIVATION_STEPS /\
  (ENABLE_CONTEXTLOCK_POLICY ∈ completed q -> completed q = ACTIVATION_STEPS) /\
  (forall s, assertActivationStep q s false = Err NOT_VERIFIED) /\
  (forall s s', assertActivationStep q s true = Ok tt -> assertActivationStep q s' true = Ok tt -> s = s') /\
  (completed q = ACTIVATION_STEPS -> forall s v, assertActivationStep q s v <> Ok tt).
Proof.
  intros Hp Hc. assert (Hpre : completed q `prefix_of` ACTIVATION_STEPS)
    by (apply (ceremony_prefix p q Hc); rewrite Hp; apply prefix_nil).
  split_and!; [done|..].
  - destruct Hpre as [k Hk]. intros Hin. destruct k as [|x k]; [by rewrite app_nil_r in Hk|]. exfalso.
    assert (Hnd : NoDup ACTIVATION_STEPS) by (apply (bool_decide_unpack _); vm_compute; exact I).
    assert (Hlast : last (completed q ++ x :: k) = Some ENABLE_CONTEXTLOCK_POLICY) by (by rewrite <- Hk).
    rewrite last_app_cons in Hlast. apply last_Some_elem_of in Hlast. rewrite Hk in Hnd.
    apply NoDup_app in Hnd as (_ & Hd & _). by apply (Hd ENABLE_CONTEXTLOCK_POLICY).
  - done.
  - intros s s' [_ H]%assertActivationStep_ok [_ H']%assertActivationStep_ok. congruence.
  - intros E s v [_ H]%assertActivationStep_ok. by rewrite E in H.
Qed.

End Activation.

Module Artifact.

Record CreArtifact := {
  c_workflowName : string;
  wasmPath : string;
  wasmBytes : Z;
  wasmSha256 : string;
  binaryHash : string;
  configHash : string;
  workflowHash : string;
  sourceTreeHash : string;
  configSha256 : string;
  creCliVersion : string;
  builtAtMs : Z
}.

Inductive Field := WASM | BINARY | CONFIG | WORKFLOW | SOURCE | CONFIG_FILE.

Definition cmp (f : Field) (a b : string) : list Field := if streq a b then [] else [f].

Definition artifactDrift (approved current : CreArtifact) : list Field :=
  cmp WASM (wasmSha256 approved) (wasmSha256 current) ++ cmp BINARY (binaryHash approved) (binaryHash current) ++
  cmp CONFIG (configHash approved) (configHash current) ++ cmp WORKFLOW (workflowHash approved) (workflowHash current) ++
  cmp SOURCE (sourceTreeHash approved) (sourceTreeHash current) ++
  cmp CONFIG_FILE (configSha256 approved) (configSha256 current).

Definition assertNoArtifactDrift (approved current : CreArtifact) : result (list Field) unit :=
  let drift := artifactDrift approved current in
  throw drift when Manifest.nonempty drift ;; Ok tt.

Lemma cmp_nil f a b : cmp f a b = [] <-> a = b.
Proof. unfold cmp. destruct (streq a b) eqn:E; [apply streq_true in E|apply streq_false in E]; naive_solver. Qed.

Lemma assertNoArtifactDrift_ok a c : assertNoArtifactDrift a c = Ok tt <->
  wasmSha256 a = wasmSha256 c /\ binaryHash a = binaryHash c /\ configHash a = configHash c /\
  workflowHash a = workflowHash c /\ sourceTreeHash a = sourceTreeHash c /\ configSha256 a = configSha256 c.
Proof.
  unfold assertNoArtifactDrift. rewrite throw_ok. transitivity (artifactDrift a c = []).
  - unfold Manifest.nonempty. destruct (artifactDrift a c); naive_solver.
  - unfold artifactDrift. rewrite !app_nil, !cmp_nil. tauto.
Qed.

End Artifact.

(** ** Computations that change a run, send, and may throw *)
Module Effect.
Section effect.
Context {R S E : Type}.

Definition M (A : Type) : Type := R -> R * list S * result E A.

Definition ret {A : Type} (a : A) : M A := fun r => (r, [], Ok a).
Definition raise {A : Type} (e : E) : M A := fun r => (r, [], Err e).
Definition bind {A B : Type} (m : M A) (k : A -> M B) : M B :=
  fun r => match m r with
           | (r1, s1, Err e) => (r1, s1, Err e)
           | (r1, s1, Ok a) => let q := k a r1 in (q.1.1, s1 ++ q.1.2, q.2)
           end.
Definition get : M R := fun r => (r, [], Ok r).
Definition modify (f : R -> R) : M unit := fun r => (f r, [], Ok tt).
Definition emit (s : S) : M unit := fun r => (r, [s], Ok tt).
Definition lift {A : Type} (x : result E A) : M A := fun r => (r, [], x).

Lemma bind_ok {A B : Type} (m : M A) (k : A -> M B) r r' s b :
  bind m k r = (r', s, Ok b) <->
  exists r1 s1 a s2, m r = (r1, s1, Ok a) /\ k a r1 = (r', s2, Ok b) /\ s = s1 ++ s2.
Proof.
  unfold bind. destruct (m r) as [[r1 s1] [a|e]]; split.
  - intros H. destruct (k a r1) as [[r2 s2] o] eqn:E2. simpl in H. injection H as <- <- ->. eauto 10.
  - intros (r1' & s1' & a' & s2 & [= <- <- <-] & -> & ->). done.
  - done.
  - by intros (r1' & s1' & a' & s2 & ? & _).
Qed.

(** A relation between the run before and the run after, kept by every part of a computation. *)
Definition keeps {A : Type} (Rel : R -> list S -> R -> Prop) (m : M A) : Prop :=
  forall r, Rel r (m r).1.2 (m r).1.1.

Section keeps.
Context (Rel : R -> list S -> R -> Prop)
  (Hrefl : forall r, Rel r [] r) (Htrans : forall r s r' s' r'', Rel r s r' -> Rel r' s' r'' -> Rel r (s ++ s') r'').

Lemma keeps_ret {A : Type} (a : A) : keeps Rel (ret a).
Proof. intros r. apply Hrefl. Qed.
Lemma keeps_raise {A : Type} (e : E) : keeps Rel (raise (A:=A) e).
Proof. intros r. apply Hrefl. Qed.
Lemma keeps_get : keeps Rel get.
Proof. intros r. apply Hrefl. Qed.
Lemma keeps_lift {A : Type} (x : result E A) : keeps Rel (lift x).
Proof. intros r. apply Hrefl. Qed.
Lemma keeps_bind {A B : Type} (m : M A) (k : A -> M B) :
  keeps Rel m -> (forall a, keeps Rel (k a)) -> keeps Rel (bind m k).
Proof.
  intros Hm Hk r. unfold bind. specialize (Hm r). destruct (m r) as [[r1 s1] [a|e]]; simpl in *; [|done].
  by eapply Htrans; [|apply Hk].
Qed.
Lemma keeps_lift_bind {A B : Type} (x : result E A) (k : A -> M B) :
  (forall a, x = Ok a -> keeps Rel (k a)) -> keeps Rel (bind (lift x) k).
Proof. intros Hk r. unfold bind, lift. destruct x as [a|e]; [exact (Hk a eq_refl r)|apply Hrefl]. Qed.
End keeps.

(** What holds of the run whenever a computation returns. *)
Definition ensures {A : Type} (m : M A) (Post : R -> Prop) : Prop :=
  forall r r' s a, m r = (r', s, Ok a) -> Post r'.

Lemma ensures_raise {A : Type} (e : E) Post : ensures (raise (A:=A) e) Post.
Proof. by intros r r' s a. Qed.
Lemma ensures_modify f (Post : R -> Prop) : (forall r, Post (f r)) -> ensures (modify f) Post.
Proof. intros H r r' s a [= <- _ _]. apply H. Qed.
Lemma ensures_bind {A B : Type} (m : M A) (k : A -> M B) Post : (forall a, ensures (k a) Post) -> ensures (bind m k) Post.
Proof. intros H r r' s b (r1 & s1 & a & s2 & _ & Hk & _)%bind_ok. by eapply H. Qed.

(** What [bind] returns and does, by what its first part returned. *)
Lemma bind_run {A B : Type} (m : M A) (k : A -> M B) r :
  bind m k r = match (m r).2 with
               | Err e => ((m r).1.1, (m r).1.2, Err e)
               | Ok a => ((k a (m r).1.1).1.1, (m r).1.2 ++ (k a (m r).1.1).1.2, (k a (m r).1.1).2)
               end.
Proof. unfold bind. by destruct (m r) as [[r1 s1] [a|e]]. Qed.

(** A first part that only looks. *)
Lemma bind_get {B : Type} (k : R -> M B) r : bind get k r = k r r.
Proof. unfold bind, get. by destruct (k r r) as [[r1 s1] o]. Qed.
Lemma bind_lift {A B : Type} (x : result E A) (k : A -> M B) r :
  bind (lift x) k r = match x with Ok a => k a r | Err e => (r, [], Err e) end.
Proof. unfold bind, lift. destruct x as [a|e]; [|done]. by destruct (k a r) as [[r1 s1] o]. Qed.
End effect.
Arguments M R S E A : clear implicits.

Notation "'do' x '<-' m ';' k" := (bind m (fun x => k)) (at level 10, x name, m at level 100, k at level 200) : ctx_scope.
Notation "'do_' m ';' k" := (bind m (fun _ => k)) (at level 10, m at level 100, k at level 200) : ctx_scope.
End Effect.

(** ** The orchestrator *)
Module Run.
Import Machine Environment Steps Manifest Approval Effect.
#[local] Existing Instance Receipts.SubmissionState_eq_dec.

Inductive OrchestratorReason :=
| NOT_APPROVED | ARTIFACT_DRIFT | UNKNOWN_TX | CRE_AUTH_LOST | SIGNER_REJECTED | IMAGE_GATE | STEP_FAILED
| NOT_RESUMABLE | POLICY_WOULD_BE_ENABLED.

(** What ends a run early.  [Thrown] is what an injected dependency threw, and [StillWaiting] that the
    turns given to a wait ran out, which enough of them rule out ([Deploy.Receipts.waits_return]). *)
Inductive Failure :=
| OrchestratorError (r : OrchestratorReason) (stepId : string)
| MachineFailed (r : Machine.MachineReason)
| ApprovalFailed (e : ApprovalFailure)
| RetryRefused (r : Receipts.ReceiptReason)
| RpcFailed (e : Receipts.RpcError)
| ArtifactFailed (drift : list Artifact.Field)
| Thrown (message : string)
| StillWaiting.

Record DeploymentRun := {
  deploymentId : string;
  state : Machine.DeploymentState;
  plan : DeploymentPlan;
  transactions : list (string * Receipts.TransactionRecord);
  createdAddresses : gmap string string;
  creWorkflowId : option string;
  creStatus : option string;
  runtimeImageDigest : option string
}.

(** *** What the outside world does and answers *)

Record Seen := { satisfied : bool; createdAddress : option string }.
Record Prepared := { p_to : option string; p_data : string; p_value : Z }.
Record TxRequest := {
  t_chainId : Z; t_from : string; t_to : option string; t_data : string; t_value : Z; t_nonce : Z; t_gas : Z }.
Record CreRequest := { d_workflow : string; d_wasmPath : string; d_registry : string; approvedWasmSha256 : string }.
Record CreDeployed := { d_workflowId : string; d_status : string }.

(** What the orchestrator makes the world do. *)
Inductive Action :=
| Send (stepId : string) (req : TxRequest)
| DeployCre (req : CreRequest)
| PauseCre (workflow : string)
| BuildImage (agentId : string)
| PublishImage (imageDigest : string)
| CreateDisabled (agentId imageDigest : string).

(** The answers while one step is executed. *)
Record StepWorld := {
  w_now : Z;
  observed : result string Seen;
  accountNonce : result Receipts.RpcError N;
  prepared : result string Prepared;
  sendAnswer : result Receipts.SendFailure string;
  w_fuel : nat;
  w_start : Z;
  w_start' : Z;
  w_polls : nat -> Receipts.Poll;
  authValid : result string bool;
  currentArtifact : result string (option Artifact.CreArtifact);
  deployAnswer : result string CreDeployed;
  statusBefore : result string string;
  pauseAnswer : result string unit;
  statusAfter : result string string;
  built : result string string;
  scanned : result string bool;
  published : result string unit;
  revision : result string unit
}.

(** The answers while a run is resumed: the reader's for each recorded transaction, the observer's for
    each position of the plan. *)
Record ResumeWorld := {
  r_now : Z;
  r_answers : string -> Receipts.Answers;
  r_seen : nat -> result string Seen
}.

(** *** The run's fields *)

Definition withState (s : Machine.DeploymentState) (r : DeploymentRun) : DeploymentRun :=
  {| deploymentId := deploymentId r; state := s; plan := plan r; transactions := transactions r;
     createdAddresses := createdAddresses r; creWorkflowId := creWorkflowId r; creStatus := creStatus r;
     runtimeImageDigest := runtimeImageDigest r |}.
Definition withPlan (p : DeploymentPlan) (r : DeploymentRun) : DeploymentRun :=
  {| deploymentId := deploymentId r; state := state r; plan := p; transactions := transactions r;
     createdAddresses := createdAddresses r; creWorkflowId := creWorkflowId r; creStatus := creStatus r;
     runtimeImageDigest := runtimeImageDigest r |}.
Definition withTransactions (t : list (string * Receipts.TransactionRecord)) (r : DeploymentRun) : DeploymentRun :=
  {| deploymentId := deploymentId r; state := state r; plan := plan r; transactions := t;
     createdAddresses := createdAddresses r; creWorkflowId := creWorkflowId r; creStatus := creStatus r;
     runtimeImageDigest := runtimeImageDigest r |}.
Definition withCreated (c : gmap string string) (r : DeploymentRun) : DeploymentRun :=
  {| deploymentId := deploymentId r; state := state r; plan := plan r; transactions := transactions r;
     createdAddresses := c; creWorkflowId := creWorkflowId r; creStatus := creStatus r;
     runtimeImageDigest := runtimeImageDigest r |}.
Definition withCre (w s : option string) (r : DeploymentRun) : DeploymentRun :=
  {| deploymentId := deploymentId r; state := state r; plan := plan r; transactions := transactions r;
     createdAddresses := createdAddresses r; creWorkflowId := w; creStatus := s;
     runtimeImageDigest := runtimeImageDigest r |}.
Definition withImage (d : option string) (r : DeploymentRun) : DeploymentRun :=
  {| deploymentId := deploymentId r; state := state r; plan := plan r; transactions := transactions r;
     createdAddresses := createdAddresses r; creWorkflowId := creWorkflowId r; creStatus := creStatus r;
     runtimeImageDigest := d |}.

Definition newRun (did : string) (p : DeploymentPlan) : DeploymentRun :=
  {| deploymentId := did; state := Machine.DEPLOYMENT_APPROVED; plan := p; transactions := [];
     createdAddresses := ∅; creWorkflowId := None; creStatus := None; runtimeImageDigest := None |}.

Definition setStatusOf (sid : string) (st : DeploymentStepStatus) (p : DeploymentPlan) : DeploymentPlan :=
  withSteps p (map (fun s => if streq (id s) sid then withStatus st s else s) (steps p)).

(** A computation on a run. *)
Abbreviation RunM := (M DeploymentRun Action Failure).

Definition guard (b : bool) (e : Failure) : RunM unit := if b then raise e else ret tt.
Definition call {A : Type} (x : result string A) : RunM A :=
  lift (match x with Ok a => Ok a | Err msg => Err (Thrown msg) end).
Definition callRpc {A : Type} (x : result Receipts.RpcError A) : RunM A :=
  lift (match x with Ok a => Ok a | Err e => Err (RpcFailed e) end).

Definition setStatus (sid : string) (st : DeploymentStepStatus) : RunM unit :=
  modify (fun r => withPlan (setStatusOf sid st (plan r)) r).
Definition setTransaction (sid : string) (t : Receipts.TransactionRecord) : RunM unit :=
  modify (fun r => withTransactions (mapSet sid t (transactions r)) r).
Definition setCreated (sid : string) (a : option string) : RunM unit :=
  match Reuse.present a with
  | Some a => modify (fun r => withCreated (<[sid := a]> (createdAddresses r)) r)
  | None => ret tt
  end.

Definition moveTo (to_ : Machine.DeploymentState) : RunM unit :=
  do r <- get ;
  if bool_decide (state r = to_) then ret tt
  else match Machine.assertTransition (state r) to_ with
       | Ok _ => modify (withState to_)
       | Err e => raise (MachineFailed e)
       end.

Definition fails {A : Type} (s : DeploymentStep) (reason : OrchestratorReason) : RunM A :=
  raise (OrchestratorError reason (id s)).

(** *** Choosing *)

Definition doneIds (r : DeploymentRun) : list string := map id (List.filter done_ (steps (plan r))).

Definition nextStep (r : DeploymentRun) : option DeploymentStep :=
  List.find (fun s => negb (includes (doneIds r) (id s)) && negb (bool_decide (status s = FAILED))
                      && every (includes (doneIds r)) (dependencyIds s)) (steps (plan r)).

Definition remaining (r : DeploymentRun) : list DeploymentStep := List.filter (fun s => negb (done_ s)) (steps (plan r)).

(** Step types that would enable something; of the plan's own types there is one. *)
Definition ENABLING_STEP_TYPES (t : DeploymentStepType) : bool :=
  includes ["ACTIVATE"; "ENABLE_POLICY"; "REGISTER_POLICY_ENABLED"] (stepTypeText t).

(** [/user rejected|denied|declined/i]. *)
Definition rejectedPattern : re := Alt (lit "user rejected") (Alt (lit "denied") (lit "declined")).
Definition failureText (f : Receipts.SendFailure) : string :=
  match f with Receipts.Classified e => Receipts.message e | Receipts.Unclassified msg => msg end.

(** [BigInt(step.cost?.estimatedGas ?? "0")]; what it throws is an ordinary error. *)
Definition gasOf (s : DeploymentStep) : result Receipts.SendFailure Z :=
  match cost s with
  | None => Ok 0
  | Some c => match Receipts.BigInt (estimatedGas c) with
              | Ok g => Ok g
              | Err _ => Err (Receipts.Unclassified ("Cannot convert " +:+ estimatedGas c +:+ " to a BigInt"))
              end
  end.

Section orchestrator.
Context (sha256Hex : string -> string).
(** The chains with a reader, and how long a wait lasts and what it requires. *)
Context (hasReader : Z -> bool) (timeoutMs required : Z).

(** *** Executing a step *)

Definition executeObservation (w : StepWorld) (s : DeploymentStep) : RunM unit :=
  do seen <- call (observed w) ;
  if negb (satisfied seen) then do_ setStatus (id s) FAILED ; fails s STEP_FAILED
  else do_ setCreated (id s) (createdAddress seen) ; setStatus (id s) VERIFIED.

(** The signer the step names, with an address. *)
Definition signerFor (m : DeploymentManifest) (s : DeploymentStep) : option string :=
  match List.find (fun g => bool_decide (Some (signerId g) = requiredSigner s)) (requiredSigners m) with
  | Some g => Reuse.present (s_address g)
  | None => None
  end.

Definition calldataDrifted (s : DeploymentStep) (data : string) : bool :=
  match Reuse.present (calldataHash s) with
  | Some h => negb (streq (Signing.calldataHashOf sha256Hex data) h)
  | None => false
  end.

Definition isCreation (s : DeploymentStep) : bool := bool_decide (type s = DEPLOY_CONTRACT).

(** The [catch] of a send: rejected, so nothing was sent; or of unknown fate. *)
Definition sendFailed (w : StepWorld) (s : DeploymentStep) (t : Receipts.TransactionRecord) (f : Receipts.SendFailure)
    : RunM Receipts.TransactionRecord :=
  let rejected := Receipts.found rejectedPattern (failureText f) in
  do_ setTransaction (id s) (Receipts.recordSendOutcome t (Receipts.Failed f rejected) (w_now w)) ;
  if rejected then
    do_ setStatus (id s) READY ; do_ moveTo DEPLOYMENT_PAUSED_SIGNER ; fails s SIGNER_REJECTED
  else
    do_ setStatus (id s) UNKNOWN_SUBMISSION_STATE ; do_ moveTo DEPLOYMENT_PARTIAL ; fails s UNKNOWN_TX.

(** The [try]: the record of the send. *)
Definition submit (w : StepWorld) (s : DeploymentStep) (cid nonce_ : Z) (from : string) (p : Prepared)
    (t : Receipts.TransactionRecord) : RunM Receipts.TransactionRecord :=
  match gasOf s with
  | Err f => sendFailed w s t f
  | Ok gas =>
      do_ emit (Send (id s) {| t_chainId := cid; t_from := from; t_to := if isCreation s then None else p_to p;
                               t_data := p_data p; t_value := p_value p; t_nonce := nonce_; t_gas := gas |}) ;
      match sendAnswer w with
      | Ok h => ret (Receipts.recordSendOutcome t (Receipts.Sent h) (w_now w))
      | Err f => sendFailed w s t f
      end
  end.

(** After the send: wait, require success, and observe the effect. *)
Definition settle (w : StepWorld) (s : DeploymentStep) (t : Receipts.TransactionRecord) : RunM unit :=
  do_ setTransaction (id s) t ;
  do settled <- match Receipts.waitForFinality (w_fuel w) timeoutMs (w_start w) (w_start' w) required (w_polls w) t with
                | None => raise StillWaiting
                | Some answer => callRpc answer
                end ;
  do_ setTransaction (id s) settled ;
  if negb (is_ok (Receipts.assertMinedSuccessfully settled)) then
    do_ setStatus (id s) FAILED ; do_ moveTo DEPLOYMENT_PARTIAL ; fails s STEP_FAILED
  else
    do_ setCreated (id s) (Receipts.contractAddress settled) ;
    do_ setStatus (id s) CONFIRMED ;
    do seen <- call (observed w) ;
    if negb (satisfied seen) then
      do_ setStatus (id s) FAILED ; do_ moveTo DEPLOYMENT_PARTIAL ; fails s STEP_FAILED
    else setStatus (id s) VERIFIED.

Definition executeWrite (w : StepWorld) (s : DeploymentStep) (m : DeploymentManifest) : RunM unit :=
  match Steps.chainId s with
  | None => fails s STEP_FAILED
  | Some cid =>
      do_ guard (negb (is_ok (assertWriteAllowed (environment m) cid))) (OrchestratorError STEP_FAILED (id s)) ;
      do_ guard (negb (hasReader cid)) (OrchestratorError STEP_FAILED (id s)) ;
      match signerFor m s with
      | None => fails s STEP_FAILED
      | Some from =>
          do n <- callRpc (accountNonce w) ;
          do r <- get ;
          let t := default (Receipts.newTransactionRecord (id s) cid from (Z.of_N n) (totalNativeWei <$> cost s))
                           (getKey (id s) (transactions r)) in
          do p <- call (prepared w) ;
          do_ guard (calldataDrifted s (p_data p)) (OrchestratorError ARTIFACT_DRIFT (id s)) ;
          do_ guard (negb (isCreation s) && bool_decide (p_to p = None)) (OrchestratorError STEP_FAILED (id s)) ;
          do_ setStatus (id s) SUBMITTED ;
          do t' <- submit w s cid (Z.of_N n) from p t ;
          settle w s t'
      end
  end.

Definition workflowOf (m : DeploymentManifest) : option ManifestCreWorkflow := creWorkflows m !! 0%nat.

(** The manifest's hashes over the artifact present. *)
Definition approvedArtifact (wf : ManifestCreWorkflow) (c : Artifact.CreArtifact) : Artifact.CreArtifact :=
  {| Artifact.c_workflowName := Artifact.c_workflowName c; Artifact.wasmPath := Artifact.wasmPath c;
     Artifact.wasmBytes := Artifact.wasmBytes c; Artifact.wasmSha256 := Artifact.wasmSha256 c;
     Artifact.binaryHash := binaryHash wf; Artifact.configHash := configHash wf;
     Artifact.workflowHash := workflowHash wf; Artifact.sourceTreeHash := sourceTreeHash wf;
     Artifact.configSha256 := Artifact.configSha256 c; Artifact.creCliVersion := Artifact.creCliVersion c;
     Artifact.builtAtMs := Artifact.builtAtMs c |}.

(** The binary approved for a workflow, when it was pinned. *)
Definition approvedBinary (p : DeploymentPlan) (wf : ManifestCreWorkflow) : option string :=
  Reuse.present (match approval p with
                 | Some a => getKey ("cre-binary:" +:+ workflowName wf) (artifactHashes a)
                 | None => None
                 end).

Definition executeCreDeploy (w : StepWorld) (s : DeploymentStep) (m : DeploymentManifest) : RunM unit :=
  do valid <- call (authValid w) ;
  if negb valid then do_ moveTo DEPLOYMENT_PAUSED_CRE_AUTH ; fails s CRE_AUTH_LOST
  else
    match workflowOf m with
    | None => fails s STEP_FAILED
    | Some wf =>
        do current <- call (currentArtifact w) ;
        match current with
        | None => fails s ARTIFACT_DRIFT
        | Some c =>
            do r <- get ;
            do_ guard (match approvedBinary (plan r) wf with
                       | Some b => negb (streq b (Artifact.binaryHash c))
                       | None => false
                       end) (OrchestratorError ARTIFACT_DRIFT (id s)) ;
            do_ lift (match Artifact.assertNoArtifactDrift (approvedArtifact wf c) c with
                      | Ok _ => Ok tt
                      | Err d => Err (ArtifactFailed d)
                      end) ;
            do_ emit (DeployCre {| d_workflow := workflowName wf; d_wasmPath := Artifact.wasmPath c;
                                   d_registry := registry wf; approvedWasmSha256 := Artifact.wasmSha256 c |}) ;
            do d <- call (deployAnswer w) ;
            do_ modify (withCre (Some (d_workflowId d)) (Some (d_status d))) ;
            setStatus (id s) VERIFIED
        end
    end.

(** [x.toUpperCase() === "PAUSED"]. *)
Definition isPaused (status_ : string) : bool := streq (to_lower status_) "paused".

Definition executeCrePause (w : StepWorld) (s : DeploymentStep) (m : DeploymentManifest) : RunM unit :=
  match workflowOf m with
  | None => fails s STEP_FAILED
  | Some wf =>
      do before_ <- call (statusBefore w) ;
      do_ (if isPaused before_ then ret tt
           else do_ emit (PauseCre (workflowName wf)) ; call (pauseAnswer w)) ;
      do after_ <- call (statusAfter w) ;
      do_ modify (fun r => withCre (creWorkflowId r) (Some after_) r) ;
      setStatus (id s) VERIFIED
  end.

(** The image digest of the run, required by the three steps after the build. *)
Definition needImage (s : DeploymentStep) : RunM string :=
  do r <- get ;
  match Reuse.present (runtimeImageDigest r) with
  | Some d => ret d
  | None => fails s STEP_FAILED
  end.

Definition executeImageStep (w : StepWorld) (s : DeploymentStep) (m : DeploymentManifest) : RunM unit :=
  match runtimeImages m !! 0%nat with
  | None => fails s STEP_FAILED
  | Some image =>
      do_ match type s with
          | BUILD_RUNTIME_IMAGE =>
              do_ emit (BuildImage (i_agentId image)) ;
              do d <- call (built w) ;
              modify (withImage (Some d))
          | SCAN_RUNTIME_IMAGE =>
              do d <- needImage s ;
              do promotable <- call (scanned w) ;
              if negb promotable then
                do_ setStatus (id s) FAILED ; do_ moveTo DEPLOYMENT_FAILED_RECOVERABLE ; fails s IMAGE_GATE
              else ret tt
          | PUBLISH_RUNTIME_IMAGE =>
              do d <- needImage s ;
              do_ emit (PublishImage d) ;
              call (published w)
          | CREATE_RUNTIME_DISABLED =>
              do d <- needImage s ;
              do_ emit (CreateDisabled (i_agentId image) d) ;
              call (revision w)
          | _ => ret tt
          end ;
      setStatus (id s) VERIFIED
  end.

Definition handler (w : StepWorld) (s : DeploymentStep) (m : DeploymentManifest) : RunM unit :=
  match type s with
  | VERIFY_CHAIN | VERIFY_CORE | CHECK_CRE_ACCESS | BUILD_CRE_WASM | VERIFY_CRE_HASH | POST_DEPLOY_VERIFY =>
      executeObservation w s
  | DEPLOY_CONTRACT | CONFIGURE_CONTRACT | REGISTER_POLICY_DISABLED | REGISTER_ENS_IDENTITY => executeWrite w s m
  | DEPLOY_CRE_PRIVATE => executeCreDeploy w s m
  | PAUSE_CRE => executeCrePause w s m
  | BUILD_RUNTIME_IMAGE | SCAN_RUNTIME_IMAGE | PUBLISH_RUNTIME_IMAGE | CREATE_RUNTIME_DISABLED =>
      executeImageStep w s m
  | ACTIVATE => fails s STEP_FAILED
  end.

(** An existing record must be safe to retry. *)
Definition assertRetry (s : DeploymentStep) : RunM unit :=
  do r <- get ;
  match getKey (id s) (transactions r) with
  | Some t => lift (match Receipts.assertSafeToRetry t with Ok _ => Ok tt | Err e => Err (RetryRefused e) end)
  | None => ret tt
  end.

Definition executeStep (w : StepWorld) (s : DeploymentStep) (m : DeploymentManifest) : RunM unit :=
  do_ guard (ENABLING_STEP_TYPES (type s)) (OrchestratorError POLICY_WOULD_BE_ENABLED (id s)) ;
  do phase <- lift (match Machine.phaseFor (stepTypeText (type s)) with Ok p => Ok p | Err e => Err (MachineFailed e) end) ;
  do_ moveTo phase ;
  do_ assertRetry s ;
  handler w s m.

(** *** Resuming *)

(** A record of unknown fate, on a chain with a reader, is reconciled; the others are passed over. *)
Definition reconcileOne (rw : ResumeWorld) (e : string * Receipts.TransactionRecord) : RunM unit :=
  let '(sid, t) := e in
  if bool_decide (Receipts.state t = Receipts.UNKNOWN_SUBMISSION_STATE) && hasReader (Receipts.chainId t) then
    do resolved <- callRpc (Receipts.reconcile t (r_answers rw sid) (r_now rw)) ;
    do_ setTransaction sid resolved ;
    if bool_decide (Receipts.state resolved = Receipts.MINED_SUCCESS)
    then setCreated sid (Receipts.contractAddress resolved) else ret tt
  else ret tt.

(** The step at a position is observed unless it is done or its transaction's fate is unknown. *)
Definition observeOne (rw : ResumeWorld) (k : nat) (s : DeploymentStep) : RunM unit :=
  if done_ s then ret tt
  else
    do r <- get ;
    let st := Receipts.state <$> getKey (id s) (transactions r) in
    if bool_decide (st = Some Receipts.UNKNOWN_SUBMISSION_STATE) then ret tt
    else
      do seen <- call (r_seen rw k) ;
      if satisfied seen then
        do_ setStatus (id s) (if bool_decide (st = Some Receipts.MINED_SUCCESS) then VERIFIED
                              else SKIPPED_ALREADY_SATISFIED) ;
        setCreated (id s) (createdAddress seen)
      else ret tt.

Fixpoint reconcileAll (rw : ResumeWorld) (l : list (string * Receipts.TransactionRecord)) : RunM unit :=
  match l with
  | [] => ret tt
  | e :: l' => do_ reconcileOne rw e ; reconcileAll rw l'
  end.
Fixpoint observeAll (rw : ResumeWorld) (k : nat) (l : list DeploymentStep) : RunM unit :=
  match l with
  | [] => ret tt
  | s :: l' => do_ observeOne rw k s ; observeAll rw (S k) l'
  end.

Definition resume (rw : ResumeWorld) (m : DeploymentManifest) : RunM unit :=
  do r <- get ;
  do_ guard (negb (includes Machine.RESUMABLE_STATES (state r))) (MachineFailed Machine.NOT_RESUMABLE) ;
  do_ lift (match assertApprovedFor sha256Hex (plan r) m with Ok _ => Ok tt | Err e => Err (ApprovalFailed e) end) ;
  do_ reconcileAll rw (transactions r) ;
  do r' <- get ;
  observeAll rw 0 (steps (plan r')).

(** *** Running to completion: the [k]-th turn has the [k]-th answers *)

Fixpoint runSteps (maxSteps : nat) (ws : nat -> StepWorld) (k : nat) (m : DeploymentManifest) : RunM unit :=
  match maxSteps with
  | O => ret tt
  | S n =>
      do r <- get ;
      match nextStep r with
      | None => ret tt
      | Some s => do_ executeStep (ws k) s m ; runSteps n ws (S k) m
      end
  end.

Definition finish : RunM unit :=
  do r <- get ;
  match remaining r with
  | [] => do_ moveTo VERIFYING_DEPLOYMENT ; moveTo READY_TO_ACTIVATE
  | _ :: _ => ret tt
  end.

Definition runToCompletion (maxSteps : nat) (rw : ResumeWorld) (ws : nat -> StepWorld) (m : DeploymentManifest)
    : RunM unit :=
  do_ resume rw m ; do_ runSteps maxSteps ws 0 m ; finish.

(** *** Sends *)

Definition sends (l : list Action) : list (string * TxRequest) :=
  omap (fun a => match a with Send sid req => Some (sid, req) | _ => None end) l.

Definition silent {A : Type} (c : RunM A) : Prop := keeps (fun _ l _ => sends l = []) c.

Lemma silent_refl (r : DeploymentRun) : sends [] = [].
Proof. done. Qed.
Lemma silent_trans (r : DeploymentRun) l (r' : DeploymentRun) l' (r'' : DeploymentRun) :
  sends l = [] -> sends l' = [] -> sends (l ++ l') = [].
Proof. unfold sends. rewrite omap_app. by intros -> ->. Qed.

Lemma silent_bind {A B : Type} (c : RunM A) (k : A -> RunM B) : silent c -> (forall a, silent (k a)) -> silent (bind c k).
Proof. apply keeps_bind. exact silent_trans. Qed.

(** A silent first part: either nothing was sent, or it returned and the rest sends. *)
Lemma silent_then {A B : Type} (c : RunM A) (k : A -> RunM B) r : silent c ->
  sends (bind c k r).1.2 = [] \/
  exists a r1 l, c r = (r1, l, Ok a) /\ sends (bind c k r).1.2 = sends (k a r1).1.2.
Proof.
  intros H. specialize (H r). unfold bind. destruct (c r) as [[r1 l] [a|e]]; simpl in *; [right|by left].
  exists a, r1, l. split; [done|]. unfold sends in *. by rewrite omap_app, H.
Qed.

(** *** What executing a step may change *)

Definition bare (s : DeploymentStep) : DeploymentStep := withStatus PENDING s.

Record changes (s : DeploymentStep) (r : DeploymentRun) (l : list Action) (r' : DeploymentRun) : Prop := {
  ch_steps : Forall2 (fun a b => bare a = bare b /\ (id a <> id s -> a = b)) (steps (plan r)) (steps (plan r'));
  ch_plan : withSteps (plan r) [] = withSteps (plan r') [];
  ch_transactions : forall k, k <> id s -> getKey k (transactions r') = getKey k (transactions r);
  ch_state : state r <> Machine.READY_TO_ACTIVATE -> state r' <> Machine.READY_TO_ACTIVATE
}.

Lemma bare_id a b : bare a = bare b -> id a = id b.
Proof. intros H. exact (f_equal id H). Qed.

Lemma changes_refl s r : changes s r [] r.
Proof. split; try done. apply Forall_Forall2_diag, Forall_forall. by intros. Qed.
Lemma changes_trans s r l r' l' r'' : changes s r l r' -> changes s r' l' r'' -> changes s r (l ++ l') r''.
Proof.
  intros [H1 H2 H3 H4] [G1 G2 G3 G4]. split; [|congruence| |tauto].
  - eapply Forall2_trans; [|exact H1|exact G1]. intros a b c [Hab Ha] [Hbc Hb]. split; [congruence|].
    intros Hn. rewrite (Ha Hn). apply Hb. by rewrite <- (bare_id _ _ Hab).
  - intros k Hk. by rewrite G3, H3.
Qed.

Abbreviation keepsStep s := (keeps (E:=Failure) (changes s)).
#[local] Hint Resolve changes_refl changes_trans : core.

Lemma keeps_setStatus s st : keepsStep s (setStatus (id s) st).
Proof.
  intros r. split; try done. cbn. apply Forall2_fmap_r, Forall_Forall2_diag, Forall_forall. intros a _. cbn.
  destruct (streq (id a) (id s)) eqn:E; [|by split]. apply streq_true in E. by split.
Qed.
Lemma keeps_setTransaction s t : keepsStep s (setTransaction (id s) t).
Proof.
  intros r. split; try done.
  - apply Forall_Forall2_diag, Forall_forall. by intros.
  - intros k Hk. cbn. rewrite getKey_mapSet. apply streq_false in Hk. by rewrite Hk.
Qed.
Lemma keeps_plain s (f : DeploymentRun -> DeploymentRun) :
  (forall r, plan (f r) = plan r /\ transactions (f r) = transactions r /\ state (f r) = state r) ->
  keepsStep s (modify f).
Proof.
  intros H r. destruct (H r) as (Hp & Ht & Hs). split; cbn; rewrite ?Hp, ?Ht, ?Hs; try done.
  apply Forall_Forall2_diag, Forall_forall. by intros.
Qed.
Lemma keeps_setCreated s k a : keepsStep s (setCreated k a).
Proof. unfold setCreated. destruct (Reuse.present a); [by apply keeps_plain|by apply keeps_ret]. Qed.
Lemma keeps_moveTo s to_ : to_ <> Machine.READY_TO_ACTIVATE -> keepsStep s (moveTo to_).
Proof.
  intros Hto r. unfold moveTo, bind, get. destruct (bool_decide (state r = to_)); [by apply changes_refl|].
  destruct (Machine.assertTransition (state r) to_); [|by apply changes_refl]. split; try done.
  apply Forall_Forall2_diag, Forall_forall. by intros.
Qed.

Lemma keeps_emit s a : keepsStep s (emit a).
Proof. intros r. by destruct (changes_refl s r). Qed.
Lemma keeps_then {A B : Type} s (c : RunM A) (k : A -> RunM B) :
  keepsStep s c -> (forall a, keepsStep s (k a)) -> keepsStep s (bind c k).
Proof. apply keeps_bind, changes_trans. Qed.
Lemma keeps_stop {A : Type} s (x : result Failure A) : keepsStep s (lift x).
Proof. by apply keeps_lift. Qed.
Lemma keeps_guard s b e : keepsStep s (guard b e).
Proof. unfold guard. by destruct b; [apply keeps_raise|apply keeps_ret]. Qed.
Lemma keeps_fails {A : Type} s s' reason : keepsStep s (fails (A:=A) s' reason).
Proof. by apply keeps_raise. Qed.
Lemma keeps_read s : keepsStep s get.
Proof. by apply keeps_get. Qed.
Lemma keeps_done s : keepsStep s (ret tt).
Proof. by apply keeps_ret. Qed.

(** Walk through a computation, closing each part by the lemma for it. *)
Ltac walk :=
  repeat match goal with
  | |- keeps _ (bind _ _) => apply keeps_then; [|intros ?]
  | |- keeps _ (if ?b then _ else _) => destruct b
  | |- keeps _ (match ?o with Some _ => _ | None => _ end) => destruct o
  | |- keeps _ (match ?o with Ok _ => _ | Err _ => _ end) => destruct o
  | |- keeps _ (setStatus _ _) => apply keeps_setStatus
  | |- keeps _ (setTransaction _ _) => apply keeps_setTransaction
  | |- keeps _ (setCreated _ _) => apply keeps_setCreated
  | |- keeps _ (moveTo _) => apply keeps_moveTo; done
  | |- keeps _ (emit _) => apply keeps_emit
  | |- keeps _ (call _) => apply keeps_stop
  | |- keeps _ (callRpc _) => apply keeps_stop
  | |- keeps _ (lift _) => apply keeps_stop
  | |- keeps _ (guard _ _) => apply keeps_guard
  | |- keeps _ (fails _ _) => apply keeps_fails
  | |- keeps _ (raise _) => apply keeps_raise; apply changes_refl
  | |- keeps _ get => apply keeps_read
  | |- keeps _ (ret _) => apply keeps_ret; apply changes_refl
  | |- keeps _ (modify _) => apply keeps_plain; done
  end.

Lemma observation_changes w s : keepsStep s (executeObservation w s).
Proof. unfold executeObservation. walk. Qed.
Lemma sendFailed_changes w s t f : keepsStep s (sendFailed w s t f).
Proof. unfold sendFailed. walk. Qed.
Lemma settle_changes w s t : keepsStep s (settle w s t).
Proof. unfold settle. walk. Qed.
Lemma write_changes w s m : keepsStep s (executeWrite w s m).
Proof. unfold executeWrite, submit. walk; try apply sendFailed_changes; apply settle_changes. Qed.
Lemma creDeploy_changes w s m : keepsStep s (executeCreDeploy w s m).
Proof. unfold executeCreDeploy. walk. Qed.
Lemma crePause_changes w s m : keepsStep s (executeCrePause w s m).
Proof. unfold executeCrePause. walk. Qed.
Lemma image_changes w s m : keepsStep s (executeImageStep w s m).
Proof. unfold executeImageStep, needImage. destruct (type s); walk. Qed.
Lemma handler_changes w s m : keepsStep s (handler w s m).
Proof.
  unfold handler. destruct (type s); first
    [apply observation_changes | apply write_changes | apply creDeploy_changes | apply crePause_changes
    | apply image_changes | apply keeps_fails].
Qed.

Lemma phase_not_ready t p : Machine.phaseFor t = Ok p -> p <> Machine.READY_TO_ACTIVATE.
Proof. unfold Machine.phaseFor. intros H ->. by repeat destruct (includes _ _). Qed.

Lemma step_changes w s m : keepsStep s (executeStep w s m).
Proof.
  unfold executeStep. apply keeps_then; [apply keeps_guard|intros _].
  apply keeps_lift_bind; [apply changes_refl|]. intros p Hp.
  apply keeps_then; [apply keeps_moveTo|intros _; apply keeps_then; [|intros _; apply handler_changes]].
  - destruct (Machine.phaseFor _) as [q|] eqn:E; [|done]. injection Hp as ->. by apply phase_not_ready in E.
  - unfold assertRetry. walk.
Qed.

(** *** What is sent *)

Lemma silent_moveTo to_ : silent (moveTo to_).
Proof.
  intros r. unfold moveTo, bind, get. destruct (bool_decide _); [done|]. by destruct (Machine.assertTransition _ _).
Qed.
Lemma silent_setCreated sid a : silent (setCreated sid a).
Proof. intros r. unfold setCreated. by destruct (Reuse.present a). Qed.
Lemma silent_guard b e : silent (guard b e).
Proof. intros r. by destruct b. Qed.

Ltac hush :=
  repeat match goal with
  | |- silent (bind _ _) => apply silent_bind; [|intros ?]
  | |- silent (if ?b then _ else _) => destruct b
  | |- silent (match ?o with Some _ => _ | None => _ end) => destruct o
  | |- silent (match ?l with [] => _ | _ :: _ => _ end) => destruct l
  | |- silent (moveTo _) => apply silent_moveTo
  | |- silent (setCreated _ _) => apply silent_setCreated
  | |- silent (guard _ _) => apply silent_guard
  | |- silent _ => intros ?; reflexivity
  end.

Lemma sendFailed_silent w s t f : silent (sendFailed w s t f).
Proof. unfold sendFailed. hush. Qed.
Lemma settle_silent w s t : silent (settle w s t).
Proof. unfold settle. hush. Qed.
Lemma observation_silent w s : silent (executeObservation w s).
Proof. unfold executeObservation. hush. Qed.
Lemma creDeploy_silent w s m : silent (executeCreDeploy w s m).
Proof. unfold executeCreDeploy. hush. Qed.
Lemma crePause_silent w s m : silent (executeCrePause w s m).
Proof. unfold executeCrePause. hush. Qed.
Lemma image_silent w s m : silent (executeImageStep w s m).
Proof. unfold executeImageStep, needImage. destruct (type s); hush. Qed.
Lemma finish_silent : silent finish.
Proof. unfold finish. hush. Qed.

(** The request is the one the step and the manifest allow; a step that pins a calldata hash pins the
    SHA-256 of what is sent. *)
Definition sendAllowed (m : DeploymentManifest) (s : DeploymentStep) (req : TxRequest) : Prop :=
  WRITING_STEP_TYPES (type s) = true /\ Steps.chainId s = Some (t_chainId req) /\
  assertWriteAllowed (environment m) (t_chainId req) = Ok tt /\ hasReader (t_chainId req) = true /\
  signerFor m s = Some (t_from req) /\
  (forall h, calldataHash s = Some h -> h <> "" -> "sha256:" +:+ sha256Hex (t_data req) = h) /\
  (isCreation s = true <-> t_to req = None).

Lemma submit_sends w s cid n from p t r :
  sends (submit w s cid n from p t r).1.2 = [] \/
  exists gas, sends (submit w s cid n from p t r).1.2 =
    [(id s, {| t_chainId := cid; t_from := from; t_to := if isCreation s then None else p_to p;
               t_data := p_data p; t_value := p_value p; t_nonce := n; t_gas := gas |})].
Proof.
  unfold submit. destruct (gasOf s) as [gas|f]; [|left; apply sendFailed_silent]. right. exists gas.
  destruct (sendAnswer w) as [h|f]; [done|]. rewrite bind_run. cbn [emit fst snd].
  unfold sends. rewrite omap_app. cbn [omap]. fold sends.
  assert (H : sends (sendFailed w s t f r).1.2 = []) by apply sendFailed_silent. unfold sends in H. by rewrite H.
Qed.

Lemma bind_guard {B : Type} b e (k : unit -> RunM B) r :
  bind (guard b e) k r = if b then (r, [], Err e) else k tt r.
Proof. unfold bind, guard. destruct b; [done|]. cbn. by destruct (k tt r) as [[r1 s1] o]. Qed.
Lemma guard_ok b e r r' l : guard b e r = (r', l, Ok tt) -> b = false /\ r' = r.
Proof. unfold guard. destruct b; [done|]. by intros [= -> _]. Qed.

Lemma is_ok_true {E : Type} (x : result E unit) : is_ok x = true -> x = Ok tt.
Proof. by destruct x as [[]|]. Qed.

(** Past a silent first part: it stopped and nothing was sent, or the rest decides. *)
Ltac past tac a H :=
  match goal with
  | |- sends (bind ?c ?k ?r).1.2 = [] \/ _ =>
      let Hs := fresh in assert (Hs : silent c) by tac;
      let r1 := fresh "r" in let l1 := fresh "l" in
      destruct (silent_then c k r Hs) as [H|(a & r1 & l1 & H & Hs')]; [by left|rewrite Hs'; try clear Hs Hs']
  end.
Ltac pastGuard H := let u := fresh in past ltac:(apply silent_guard) u H; destruct u; apply guard_ok in H as [H ->].

(** A send, then what is left of a write. *)
Lemma submit_settle_sends w s cid n from p t r :
  let c := bind (submit w s cid n from p t) (settle w s) in
  sends (c r).1.2 = sends (submit w s cid n from p t r).1.2.
Proof.
  intros c. unfold c. rewrite bind_run. destruct (submit w s cid n from p t r).2 as [t'|e]; [|done]. cbn [fst snd].
  unfold sends. rewrite omap_app. pose proof (settle_silent w s t' (submit w s cid n from p t r).1.1) as H.
  unfold sends in H. by rewrite H, app_nil_r.
Qed.

Lemma notDrifted s data : calldataDrifted s data = false ->
  forall h, calldataHash s = Some h -> h <> "" -> "sha256:" +:+ sha256Hex data = h.
Proof.
  unfold calldataDrifted. intros H h Hc Hh. rewrite (proj2 (Reuse.present_some _ h)) in H by done.
  by apply negb_false_iff, streq_true in H.
Qed.

(** A write sends nothing, or exactly one transaction, the allowed one. *)
Lemma write_sends w s m r : WRITING_STEP_TYPES (type s) = true ->
  sends (executeWrite w s m r).1.2 = [] \/
  exists req, sends (executeWrite w s m r).1.2 = [(id s, req)] /\ sendAllowed m s req.
Proof.
  intros Hw. unfold executeWrite. destruct (Steps.chainId s) as [cid|] eqn:Ec; [|by left].
  pastGuard Henv. pastGuard Hrd. destruct (signerFor m s) as [from|] eqn:Ef; [|by left].
  past ltac:(by intros ?) n Hn. past ltac:(by intros ?) q Hq. past ltac:(by intros ?) p Hp.
  pastGuard Hdrift. pastGuard Hto. past ltac:(by intros ?) u Hu.
  set (t := default _ _). rewrite submit_settle_sends.
  edestruct submit_sends as [H|[gas H]]; rewrite H; [by left|right].
  eexists. split; [done|]. apply negb_false_iff, is_ok_true in Henv. apply negb_false_iff in Hrd.
  unfold sendAllowed. cbn [t_chainId t_from t_to t_data]. split_and!; try done; [by apply notDrifted|].
  destruct (isCreation s); [done|]. cbn in Hto. by apply bool_decide_eq_false in Hto.
Qed.

(** The record of a step, if any, is safe to retry. *)
Definition retryable (r : DeploymentRun) (sid : string) : Prop :=
  forall t, getKey sid (transactions r) = Some t -> Receipts.assertSafeToRetry t = Ok tt.

Lemma moveTo_fields to_ r : transactions (moveTo to_ r).1.1 = transactions r /\ plan (moveTo to_ r).1.1 = plan r.
Proof.
  unfold moveTo, bind, get. destruct (bool_decide _); [done|]. by destruct (Machine.assertTransition _ _).
Qed.

Lemma handler_sends w s m r :
  sends (handler w s m r).1.2 = [] \/
  exists req, sends (handler w s m r).1.2 = [(id s, req)] /\ sendAllowed m s req.
Proof.
  unfold handler. destruct (type s) eqn:E; first
    [ left; apply observation_silent | left; apply creDeploy_silent | left; apply crePause_silent
    | left; apply image_silent | by left | apply write_sends; by rewrite E ].
Qed.

Lemma step_sends w s m r :
  sends (executeStep w s m r).1.2 = [] \/
  exists req, sends (executeStep w s m r).1.2 = [(id s, req)] /\ sendAllowed m s req /\ retryable r (id s).
Proof.
  unfold executeStep. pastGuard Hen. past ltac:(by intros ?) phase Hph. unfold lift in Hph. injection Hph as <- _ _.
  past ltac:(apply silent_moveTo) u Hmv. destruct (moveTo_fields phase r) as [Ht _]. rewrite Hmv in Ht.
  past ltac:(unfold assertRetry; hush) v Hrt.
  match goal with |- context [handler w s m ?q] => destruct (handler_sends w s m q) as [->|(req & -> & Ha)] end;
    [by left|right; exists req; split_and!; [done..|]].
  intros t Hk. unfold assertRetry, bind, get in Hrt. cbn [fst snd] in Ht. rewrite Ht, Hk in Hrt. unfold lift in Hrt.
  by destruct (Receipts.assertSafeToRetry t) as [[]|] eqn:E.
Qed.

(** *** A step that returns is verified *)

Definition verifiedStep (sid : string) (r : DeploymentRun) : Prop :=
  forall t, t ∈ steps (plan r) -> id t = sid -> status t = VERIFIED.

Lemma setStatus_verified sid : ensures (setStatus sid VERIFIED) (verifiedStep sid).
Proof.
  apply ensures_modify. intros r t (t0 & -> & Hin)%list_elem_of_fmap Hid. cbn in Hid |- *.
  destruct (streq (id t0) sid) eqn:E; [done|]. by apply streq_false in E.
Qed.

Ltac closes :=
  repeat match goal with
  | |- ensures (bind _ _) _ => apply ensures_bind; intros ?
  | |- ensures (if ?b then _ else _) _ => destruct b
  | |- ensures (match ?o with Some _ => _ | None => _ end) _ => destruct o
  | |- ensures (setStatus _ VERIFIED) _ => apply setStatus_verified
  | |- ensures (fails _ _) _ => apply ensures_raise
  end.

Lemma step_verified w s m : ensures (executeStep w s m) (verifiedStep (id s)).
Proof.
  unfold executeStep. apply ensures_bind; intros _. apply ensures_bind; intros p. do 2 (apply ensures_bind; intros _).
  unfold handler, executeObservation, executeWrite, settle, executeCreDeploy, executeCrePause, executeImageStep.
  destruct (type s); closes.
Qed.

(** *** Choosing the next step *)

Lemma doneIds_elem r d : d ∈ doneIds r <-> exists t, t ∈ steps (plan r) /\ id t = d /\ done_ t = true.
Proof.
  unfold doneIds. rewrite list_elem_of_fmap. setoid_rewrite list_elem_of_In. setoid_rewrite filter_In.
  setoid_rewrite <- list_elem_of_In. naive_solver.
Qed.

(** A step that may be executed now. *)
Definition eligible (r : DeploymentRun) (s : DeploymentStep) : Prop :=
  s ∈ steps (plan r) /\ (id s ∉ doneIds r) /\ status s <> FAILED /\
  forall d, d ∈ dependencyIds s -> d ∈ doneIds r.

Lemma eligible_iff r s : s ∈ steps (plan r) ->
  negb (includes (doneIds r) (id s)) && negb (bool_decide (status s = FAILED))
    && every (includes (doneIds r)) (dependencyIds s) = true <-> eligible r s.
Proof.
  intros Hin. unfold eligible. rewrite !andb_true_iff, !negb_true_iff, includes_false, bool_decide_eq_false, every_true.
  setoid_rewrite includes_true. naive_solver.
Qed.

Lemma nextStep_some r s : nextStep r = Some s -> eligible r s.
Proof. intros [Hin H]%find_true. by apply eligible_iff in H. Qed.
Lemma nextStep_none r : nextStep r = None <-> forall s, ~ eligible r s.
Proof.
  unfold nextStep. rewrite find_none_iff. split.
  - intros H s He. assert (Hin : s ∈ steps (plan r)) by apply He. specialize (H s Hin).
    apply eligible_iff in He; [|done]. cbn in H. congruence.
  - intros H s Hin. destruct (_ && _ && _) eqn:E; [|done]. apply eligible_iff in E; [|done]. by destruct (H s).
Qed.

(** *** Progress of a plan *)

Definition progress (p q : DeploymentPlan) : Prop :=
  Forall2 (fun a b => bare a = bare b /\ (a = b \/ done_ b = true)) (steps p) (steps q) /\
  withSteps p [] = withSteps q [].

Lemma progress_refl p : progress p p.
Proof. split; [|done]. apply Forall_Forall2_diag, Forall_forall. intros s _. split; [done|by left]. Qed.
Lemma progress_trans p q r : progress p q -> progress q r -> progress p r.
Proof.
  intros [H1 E1] [H2 E2]. split; [|congruence]. eapply Forall2_trans; [|exact H1|exact H2].
  intros a b c [Hab [-> | Hb]] [Hbc [-> | Hc]]; (split; [congruence|]); auto.
Qed.

Lemma progress_back p q b : progress p q -> b ∈ steps q ->
  exists a, a ∈ steps p /\ bare a = bare b /\ (a = b \/ done_ b = true).
Proof.
  intros [H _] [i Hi]%list_elem_of_lookup. destruct (Forall2_lookup_r _ _ _ _ _ H Hi) as (a & Ha & ? & ?).
  exists a. split_and!; [by eapply list_elem_of_lookup_2|done..].
Qed.
Lemma progress_ids p q : progress p q -> map id (steps p) = map id (steps q).
Proof.
  intros [H _]. induction H as [|a b l l' [Hb _] _ IH]; [done|]. cbn. by rewrite (bare_id _ _ Hb), IH.
Qed.

Lemma progress_ordered p q : progress p q -> (forall i s, steps p !! i = Some s -> dependsBackwards (steps p) i s) ->
  ordered (steps q).
Proof.
  intros [H _] Ho i s Hi d Hd. destruct (Forall2_lookup_r _ _ _ _ _ H Hi) as (a & Ha & Hb & _).
  pose proof (f_equal dependencyIds Hb) as Hdep. cbn in Hdep. rewrite <- Hdep in Hd.
  destruct (Ho i a Ha d Hd) as (j & t & Hlt & Ht & Hid). destruct (Forall2_lookup_l _ _ _ _ _ H Ht) as (u & Hu & Hbu & _).
  exists j, u. split_and!; [done..|]. by rewrite <- (bare_id _ _ Hbu).
Qed.

Lemma sendAllowed_bare m s s' req : bare s = bare s' -> sendAllowed m s req -> sendAllowed m s' req.
Proof.
  intros H (H1 & H2 & H3 & H4 & H5 & H6 & H7). unfold sendAllowed, signerFor, isCreation in *.
  pose proof (f_equal type H) as Ht. pose proof (f_equal Steps.chainId H) as Hc. pose proof (f_equal calldataHash H) as Hh.
  pose proof (f_equal requiredSigner H) as Hs. cbn in Ht, Hc, Hh, Hs. by rewrite <- Ht, <- Hc, <- Hh, <- Hs.
Qed.

Lemma openSteps_progress p q s : progress p q -> s ∈ steps p -> done_ s = false ->
  (forall t, t ∈ steps q -> id t = id s -> done_ t = true) -> (openSteps (steps q) < openSteps (steps p))%nat.
Proof.
  intros [H _] Hin Hs Hd.
  assert (Hle : forall l l', Forall2 (fun a b => bare a = bare b /\ (a = b \/ done_ b = true)) l l' ->
    (openSteps l' <= openSteps l)%nat).
  { induction 1 as [|a b l l' [_ [-> | Hb]] _ IH]; [done|..]; rewrite !openSteps_cons; [lia|].
    rewrite Hb. destruct (done_ a); lia. }
  induction H as [|a b l l' [Hab Hst] Hrest IH]; [by apply not_elem_of_nil in Hin|].
  rewrite !openSteps_cons. specialize (Hle _ _ Hrest). apply elem_of_cons in Hin as [-> | Hin].
  - rewrite Hs, (Hd b); [lia|left|]. by rewrite (bare_id _ _ Hab).
  - assert (openSteps l' < openSteps l)%nat by (apply IH; [done|]; intros t Ht; apply Hd; by right).
    destruct Hst as [-> | ->]; [lia|]. destruct (done_ a); lia.
Qed.

(** A step that returned: it is verified, and the rest of the plan as it was. *)
Lemma step_progress w s m r r' l : executeStep w s m r = (r', l, Ok tt) -> progress (plan r) (plan r').
Proof.
  intros H. pose proof (step_changes w s m r) as Hc. pose proof (step_verified w s m r r' l tt H) as Hv. rewrite H in Hc.
  cbn [fst snd] in Hc. destruct Hc as [Hst Hp _ _]. split; [|done].
  apply Forall2_same_length_lookup. split; [by eapply Forall2_length|]. intros i a b Ha Hb.
  destruct (Forall2_lookup_lr _ _ _ _ _ _ Hst Ha Hb) as [Hbare Hne]. split; [done|].
  destruct (decide (id a = id s)) as [E|E]; [right|left; auto].
  unfold done_. rewrite (Hv b); [done|by eapply list_elem_of_lookup_2|]. by rewrite <- (bare_id _ _ Hbare).
Qed.

(** *** What resuming may change *)

Definition touches (r : DeploymentRun) (l : list Action) (r' : DeploymentRun) : Prop :=
  progress (plan r) (plan r') /\ transactions r' = transactions r /\ state r' = state r.

Lemma touches_refl r : touches r [] r.
Proof. split; [apply progress_refl|done]. Qed.
Lemma touches_trans r l r' l' r'' : touches r l r' -> touches r' l' r'' -> touches r (l ++ l') r''.
Proof. intros (H1 & H2 & H3) (G1 & G2 & G3). split; [by eapply progress_trans|]. split; congruence. Qed.

Lemma touches_setStatus sid st : st ∈ [VERIFIED; SKIPPED_ALREADY_SATISFIED] ->
  keeps (E:=Failure) touches (setStatus sid st).
Proof.
  intros Hst r. split; [|done]. split; [|done]. cbn. apply Forall2_fmap_r, Forall_Forall2_diag, Forall_forall.
  intros a _. cbn. destruct (streq (id a) sid); (split; [done|]); [right|by left].
  unfold done_. by apply includes_true.
Qed.
Lemma touches_setCreated sid a : keeps (E:=Failure) touches (setCreated sid a).
Proof. intros r. unfold setCreated. by destruct (Reuse.present a); (split; [apply progress_refl|]). Qed.

Lemma observeAll_touches rw l : forall k, keeps (E:=Failure) touches (observeAll rw k l).
Proof.
  induction l as [|s l IH]; intros k; [apply keeps_ret, touches_refl|]. cbn [observeAll].
  apply keeps_bind; [exact touches_trans| |intros _; apply IH]. unfold observeOne.
  destruct (done_ s); [apply keeps_ret, touches_refl|].
  apply keeps_bind; [exact touches_trans|apply keeps_get, touches_refl|intros r].
  destruct (bool_decide _); [apply keeps_ret, touches_refl|].
  apply keeps_bind; [exact touches_trans|apply keeps_lift, touches_refl|intros seen].
  destruct (satisfied seen); [|apply keeps_ret, touches_refl].
  apply keeps_bind; [exact touches_trans| |intros _; apply touches_setCreated].
  apply touches_setStatus. destruct (bool_decide _); [left|right; left].
Qed.

(** A record after reconciling: as it was, or of unknown fate before and what the reader makes of it. *)
Definition reconciled (rw : ResumeWorld) (l : list (string * Receipts.TransactionRecord)) (r r' : DeploymentRun) : Prop :=
  plan r' = plan r /\ state r' = state r /\
  forall k, getKey k (transactions r') = getKey k (transactions r) \/
    exists t t', (k, t) ∈ l /\ Receipts.state t = Receipts.UNKNOWN_SUBMISSION_STATE /\
      Receipts.reconcile t (r_answers rw k) (r_now rw) = Ok t' /\ getKey k (transactions r') = Some t'.

Lemma reconciled_refl rw l r : reconciled rw l r r.
Proof. split_and!; [done..|]. intros k. by left. Qed.

Lemma setCreated_fields sid a r :
  plan (setCreated sid a r).1.1 = plan r /\ state (setCreated sid a r).1.1 = state r /\
  transactions (setCreated sid a r).1.1 = transactions r.
Proof. unfold setCreated. by destruct (Reuse.present a). Qed.

Lemma reconcileOne_spec rw e r : reconciled rw [e] r (reconcileOne rw e r).1.1.
Proof.
  destruct e as [sid t]. unfold reconcileOne.
  destruct (bool_decide _) eqn:Eu; cbn [andb]; [|apply reconciled_refl].
  destruct (hasReader _); [|apply reconciled_refl]. rewrite bind_run. unfold callRpc, lift.
  destruct (Receipts.reconcile t (r_answers rw sid) (r_now rw)) as [t'|x] eqn:Er; [|apply reconciled_refl].
  cbn [fst snd]. rewrite bind_run. cbn [setTransaction modify fst snd].
  set (r1 := withTransactions _ r).
  assert (H : reconciled rw [(sid, t)] r r1).
  { split_and!; [done..|]. intros k. unfold r1. cbn. rewrite getKey_mapSet. destruct (streq k sid) eqn:E; [right|by left].
    apply streq_true in E as ->. apply bool_decide_eq_true in Eu. exists t, t'. split_and!; [left|done..]. }
  clear Eu. destruct (bool_decide _); [|exact H]. destruct (setCreated_fields sid (Receipts.contractAddress t') r1) as (Hp & Hs & Ht).
  destruct H as (H1 & H2 & H3). unfold reconciled. rewrite Hp, Hs, Ht. by split_and!.
Qed.

Lemma reconcileAll_spec rw l : forall r, reconciled rw l r (reconcileAll rw l r).1.1.
Proof.
  induction l as [|e l IH]; intros r; [apply reconciled_refl|]. cbn [reconcileAll]. rewrite bind_run.
  destruct (reconcileOne_spec rw e r) as (H1 & H2 & H3).
  destruct (reconcileOne rw e r).2; cbn [fst snd].
  - specialize (IH (reconcileOne rw e r).1.1). destruct IH as (I1 & I2 & I3). split_and!; [congruence..|]. intros k.
    destruct (I3 k) as [-> |(t & t' & Hin & H)]; [|right; exists t, t'; split; [by right|done]].
    destruct (H3 k) as [-> |(t & t' & Hin & H)]; [by left|right]. apply list_elem_of_singleton in Hin.
    exists t, t'. rewrite Hin. split; [by left|done].
  - split_and!; [done..|]. intros k. destruct (H3 k) as [-> |(t & t' & Hin & H)]; [by left|right].
    apply list_elem_of_singleton in Hin. exists t, t'. rewrite Hin. split; [by left|done].
Qed.

Lemma reconcileAll_silent rw l : silent (reconcileAll rw l).
Proof.
  induction l as [|[sid t] l IH]; cbn [reconcileAll]; [by intros ?|]. apply silent_bind; [|intros _; exact IH].
  unfold reconcileOne. hush.
Qed.
Lemma observeAll_silent rw l : forall k, silent (observeAll rw k l).
Proof.
  induction l as [|s l IH]; intros k; cbn [observeAll]; [by intros ?|]. apply silent_bind; [|intros _; apply IH].
  unfold observeOne. hush.
Qed.
Lemma resume_silent rw m : silent (resume rw m).
Proof.
  unfold resume. apply silent_bind; [by intros ?|intros r]. do 2 (apply silent_bind; [hush|intros _]).
  apply silent_bind; [apply reconcileAll_silent|intros _]. apply silent_bind; [by intros ?|intros r'].
  apply observeAll_silent.
Qed.

(** Resuming: the plan progresses, the phase stays, records are reconciled as [reconciled] says; and it
    returns only for a resumable phase and an approval the manifest still fits. *)
Definition resumed (rw : ResumeWorld) (m : DeploymentManifest) (r r' : DeploymentRun) (o : result Failure unit) : Prop :=
  progress (plan r) (plan r') /\ state r' = state r /\
  (forall k, getKey k (transactions r') = getKey k (transactions r) \/
    exists t t', (k, t) ∈ transactions r /\ Receipts.state t = Receipts.UNKNOWN_SUBMISSION_STATE /\
      Receipts.reconcile t (r_answers rw k) (r_now rw) = Ok t' /\ getKey k (transactions r') = Some t') /\
  (o = Ok tt -> assertApprovedFor sha256Hex (plan r) m = Ok tt /\ state r ∈ Machine.RESUMABLE_STATES).

Lemma resume_spec rw m r : resumed rw m r (resume rw m r).1.1 (resume rw m r).2.
Proof.
  assert (Hno : forall e, resumed rw m r r (Err e)).
  { intros e. split; [apply progress_refl|]. split; [done|]. split; [intros k; by left|done]. }
  unfold resume. rewrite bind_get.
  rewrite bind_guard.
  destruct (includes Machine.RESUMABLE_STATES (state r)) eqn:Es; cbn [negb]; [|apply Hno].
  rewrite bind_lift. destruct (assertApprovedFor sha256Hex (plan r) m) as [[]|e] eqn:Ea; [|apply Hno].
  rewrite bind_run. destruct (reconcileAll_spec rw (transactions r) r) as (H1 & H2 & H3).
  destruct (reconcileAll rw (transactions r) r) as [[r1 l1] [[]|e]]; cbn [fst snd] in *;
    [|unfold resumed; rewrite H1, H2; split_and!; [apply progress_refl|done|exact H3|done]].
  rewrite bind_get. destruct (observeAll_touches rw (steps (plan r1)) 0 r1) as (G1 & G2 & G3).
  unfold resumed. rewrite G2, G3, H2, <- H1. split_and!; [exact G1|done|exact H3|].
  intros _. rewrite H1. split; [done|]. by apply includes_true.
Qed.

(** *** The loop *)

(** A send of a loop started at [r]: of a step open there, allowed, and safe to retry there. *)
Definition justified (m : DeploymentManifest) (r : DeploymentRun) (x : string * TxRequest) : Prop :=
  exists s, s ∈ steps (plan r) /\ id s = x.1 /\ done_ s = false /\ sendAllowed m s x.2 /\ retryable r x.1.

Record looped (m : DeploymentManifest) (n : nat) (r : DeploymentRun) (l : list Action) (r' : DeploymentRun)
    (o : result Failure unit) : Prop := {
  lp_sends : forall x, x ∈ sends l -> justified m r x;
  lp_once : NoDup (sends l).*1;
  lp_state : state r <> Machine.READY_TO_ACTIVATE -> state r' <> Machine.READY_TO_ACTIVATE;
  lp_done : o = Ok tt -> progress (plan r) (plan r') /\
    ((openSteps (steps (plan r)) <= n)%nat -> nextStep r' = None)
}.

Lemma eligible_open r s : eligible r s -> done_ s = false.
Proof.
  intros (Hin & Hd & _). destruct (done_ s) eqn:E; [|done]. destruct Hd. apply doneIds_elem. eauto.
Qed.

(** One step, then a loop. *)
Lemma looped_cons m n r r1 s l1 l r' o : eligible r s ->
  changes s r l1 r1 -> progress (plan r) (plan r1) -> verifiedStep (id s) r1 ->
  (sends l1 = [] \/ exists req, sends l1 = [(id s, req)] /\ sendAllowed m s req /\ retryable r (id s)) ->
  looped m n r1 l r' o -> looped m (S n) r (l1 ++ l) r' o.
Proof.
  intros He Hc Hp Hv Hs [L1 L2 L3 L4]. assert (Ho := eligible_open r s He).
  assert (Hdone : forall t, t ∈ steps (plan r1) -> id t = id s -> done_ t = true)
    by (intros t Ht Hid; unfold done_; by rewrite (Hv t Ht Hid)).
  assert (Hne : forall x, x ∈ sends l -> x.1 <> id s).
  { intros x (t & Ht & Hid & Hd & _)%L1 E. rewrite (Hdone t) in Hd; [done..|congruence]. }
  assert (Happ : sends (l1 ++ l) = sends l1 ++ sends l) by apply omap_app. split.
  - intros x. rewrite Happ. intros [Hx|Hx]%elem_of_app.
    + destruct Hs as [Hs|(req & Hs & Ha & Hr)]; rewrite Hs in Hx; [by apply not_elem_of_nil in Hx|].
      apply list_elem_of_singleton in Hx as ->. exists s. split_and!; [apply He|done..].
    + specialize (Hne x Hx). destruct (L1 x Hx) as (t & Ht & Hid & Hd & Ha & Hr).
      destruct (progress_back _ _ t Hp Ht) as (a & Hin & Hb & [-> | E]); [|congruence]. exists t.
      split_and!; try done. intros y. rewrite <- (ch_transactions _ _ _ _ Hc) by done. apply Hr.
  - rewrite Happ. destruct Hs as [-> |(req & -> & _)]; [done|]. cbn. apply NoDup_cons. split; [|done].
    intros ([sid q] & E & Hx)%list_elem_of_fmap. by apply (Hne _ Hx).
  - intros H. by apply L3, (ch_state _ _ _ _ Hc).
  - intros E. destruct (L4 E) as [H1 H2]. split; [by eapply progress_trans|]. intros Hn. apply H2.
    assert (openSteps (steps (plan r1)) < openSteps (steps (plan r)))%nat; [|lia].
    apply (openSteps_progress _ _ s Hp); [apply He|done..].
Qed.

Lemma looped_stop m n r o : (o = Ok tt -> openSteps (steps (plan r)) = 0%nat \/ nextStep r = None \/ n = 0%nat) ->
  looped m n r [] r o.
Proof.
  intros H. split; [by intros x ?%not_elem_of_nil|constructor|done|]. intros E. split; [apply progress_refl|].
  intros Hn. assert (Hz : openSteps (steps (plan r)) = 0%nat -> nextStep r = None).
  { intros Hz%openSteps_zero. apply nextStep_none. intros s He. rewrite Forall_forall in Hz.
    assert (Hin : s ∈ steps (plan r)) by apply He. apply eligible_open in He. rewrite (Hz s Hin) in He. done. }
  destruct (H E) as [?|[?|?]]; [auto|done|]. apply Hz. lia.
Qed.

Lemma runSteps_looped m ws n : forall k r,
  looped m n r (runSteps n ws k m r).1.2 (runSteps n ws k m r).1.1 (runSteps n ws k m r).2.
Proof.
  induction n as [|n IH]; intros k r; cbn [runSteps]; [apply looped_stop; auto|].
  rewrite bind_run. cbn [get fst snd app]. destruct (nextStep r) as [s|] eqn:En; [|apply looped_stop; auto].
  apply nextStep_some in En as He. rewrite bind_run. pose proof (step_changes (ws k) s m r) as Hc.
  pose proof (step_sends (ws k) s m r) as Hs. destruct (executeStep (ws k) s m r) as [[r1 l1] [[]|e]] eqn:Ex;
    cbn [fst snd] in *.
  - apply (looped_cons m n r r1 s); try done; [by eapply step_progress|by apply (step_verified _ _ _ _ _ _ _ Ex)].
  - split.
    + intros x Hx. destruct Hs as [Hs|(req & Hs & Ha & Hr)]; rewrite Hs in Hx; [by apply not_elem_of_nil in Hx|].
      apply list_elem_of_singleton in Hx as ->. exists s. split_and!; [apply He|done|by apply eligible_open in He|done..].
    + destruct Hs as [-> |(req & -> & _)]; [constructor|apply NoDup_singleton].
    + apply (ch_state _ _ _ _ Hc).
    + done.
Qed.

Lemma moveTo_run to_ r :
  (exists r', moveTo to_ r = (r', [], Ok tt) /\ plan r' = plan r /\ state r' = to_) \/
  exists e, moveTo to_ r = (r, [], Err e).
Proof.
  unfold moveTo. rewrite bind_get. destruct (bool_decide _) eqn:E; [apply bool_decide_eq_true in E; left; by exists r|].
  destruct (Machine.assertTransition _ _) as [u|e]; [left|right; by exists (MachineFailed e)].
  by exists (withState to_ r).
Qed.

(** What finishing does: nothing while a step is left, else the two last phases. *)
Lemma finish_spec r : state r <> Machine.READY_TO_ACTIVATE ->
  let q := finish r in
  plan q.1.1 = plan r /\
  (state q.1.1 = Machine.READY_TO_ACTIVATE <-> remaining r = [] /\ q.2 = Ok tt).
Proof.
  intros Hr. unfold finish. rewrite bind_get. cbn zeta. 
  destruct (remaining r) as [|s l] eqn:E; [|split; [done|]; split; [by intros ?|by intros [? _]]].
  rewrite bind_run. destruct (moveTo_run VERIFYING_DEPLOYMENT r) as [(r1 & -> & Hp & Hs)|(e & ->)]; cbn [fst snd];
    [|split; [done|]; split; [by intros ?|by intros [_ ?]]].
  destruct (moveTo_run READY_TO_ACTIVATE r1) as [(r2 & -> & Hp2 & Hs2)|(e & E2)].
  - cbn [fst snd]. split; [congruence|done].
  - unfold moveTo in E2. rewrite bind_get, Hs in E2. done.
Qed.

Lemma remaining_nil r : remaining r = [] <-> openSteps (steps (plan r)) = 0%nat.
Proof. unfold remaining, openSteps. by rewrite length_zero_iff_nil. Qed.

(** A whole run from [r]. *)
Lemma run_looped m n rw ws r : state r <> Machine.READY_TO_ACTIVATE ->
  let q := runToCompletion n rw ws m r in
  let r1 := (resume rw m r).1.1 in
  resumed rw m r r1 (resume rw m r).2 /\
  (forall x, x ∈ sends q.1.2 -> (resume rw m r).2 = Ok tt /\ justified m r1 x) /\
  NoDup (sends q.1.2).*1 /\
  (state q.1.1 = Machine.READY_TO_ACTIVATE -> q.2 = Ok tt /\ openSteps (steps (plan q.1.1)) = 0%nat) /\
  (q.2 = Ok tt -> progress (plan r) (plan q.1.1) /\
    (openSteps (steps (plan q.1.1)) = 0%nat -> state q.1.1 = Machine.READY_TO_ACTIVATE) /\
    ((length (steps (plan r)) <= n)%nat -> forall s, ~ eligible q.1.1 s)).
Proof.
  intros Hr q r1. pose proof (resume_spec rw m r) as Hres. split; [exact Hres|].
  destruct Hres as (Hp & Hst & _ & _). pose proof (resume_silent rw m r) as Hs. unfold q, r1, runToCompletion in *.
  rewrite bind_run. destruct (resume rw m r) as [[r1' l1] [[]|e]]; cbn [fst snd] in *.
  2: { rewrite Hs. split_and!; [by intros x ?%not_elem_of_nil|constructor|congruence|done]. }
  rewrite bind_run. pose proof (runSteps_looped m ws n 0 r1') as [L1 L2 L3 L4].
  assert (Hr1 : state r1' <> Machine.READY_TO_ACTIVATE) by congruence.
  destruct (runSteps n ws 0 m r1') as [[r2 l2] o]; cbn [fst snd] in *. specialize (L3 Hr1).
  assert (Hsends : forall l, sends l = [] -> sends (l1 ++ l2 ++ l) = sends l2).
  { intros l Hl. unfold sends in *. by rewrite !omap_app, Hs, Hl, app_nil_r. }
  destruct o as [[]|e]; cbn [fst snd].
  - rewrite Hsends by apply finish_silent. destruct (finish_spec r2 L3) as [Fp Fs].
    destruct (L4 eq_refl) as [Hpr Hn]. rewrite Fp, remaining_nil in *. split_and!; try done.
    + intros x Hx. split; [done|]. by apply L1.
    + intros H%Fs. tauto.
    + intros Eo. split; [by eapply progress_trans|]. split; [intros H; by apply Fs|]. intros Hlen s He.
      assert (Hel : eligible r2 s) by (unfold eligible, doneIds in *; by rewrite Fp in He).
      revert Hel. apply nextStep_none, Hn. rewrite <- (length_map id), (progress_ids _ _ Hp), length_map in Hlen.
      unfold openSteps. etrans; [apply List.filter_length_le|done].
  - specialize (Hsends [] eq_refl). rewrite app_nil_r in Hsends. rewrite Hsends. split_and!; try done.
    intros x Hx. split; [done|]. by apply L1.
Qed.

(** C7: nothing is sent that was not approved.  Every transaction a run sends, whatever the chain, the
    wallet, the observers and the other services answer, and however often the run was interrupted
    before: the approval of the plan still fits the manifest, and the transaction is that of a writing
    step of the plan that was not done, on the step's chain, which the environment of the manifest and
    the shared registry let be written to, from the address of the signer the step names, with the
    calldata whose hash the plan pins, and to no address exactly when the step creates a contract. *)
Theorem run_sends_approved (m : DeploymentManifest) (n : nat) (rw : ResumeWorld) (ws : nat -> StepWorld)
    (r : DeploymentRun) (sid : string) (req : TxRequest) :
  (sid, req) ∈ sends (runToCompletion n rw ws m r).1.2 ->
  assertApprovedFor sha256Hex (plan r) m = Ok tt /\ state r ∈ Machine.RESUMABLE_STATES /\
  t_chainId req ∈ Fences.writableChains /\
  exists s, s ∈ steps (plan r) /\ id s = sid /\ done_ s = false /\ sendAllowed m s req.
Proof.
  intros Hx. destruct (decide (state r = Machine.READY_TO_ACTIVATE)) as [E|E].
  { exfalso. revert Hx. unfold runToCompletion, resume. rewrite bind_run, bind_get, bind_guard, E. cbn.
    apply not_elem_of_nil. }
  destruct (run_looped m n rw ws r E) as ((Hp & _ & _ & Hok) & Hs & _).
  destruct (Hs _ Hx) as [Er (s & Hin & Hid & Hd & Ha & _)]. destruct (Hok Er) as [Hap Hst].
  split_and!; [done|done| |].
  - destruct Ha as (_ & _ & Hw & _). by apply assertWriteAllowed_ok in Hw as (_ & _ & _ & ?).
  - destruct (progress_back _ _ s Hp Hin) as (a & Hina & Hb & [-> | Hc]); [|congruence]. by exists s.
Qed.

(** C16: no step is sent twice.  In one run no two transactions are for the same step; a step whose record
    says MINED_SUCCESS is not sent again; and one whose record is of unknown fate is sent only after the
    reader, asked when the run was resumed, proved that the earlier transaction took no effect. *)
Theorem run_sends_once (m : DeploymentManifest) (n : nat) (rw : ResumeWorld) (ws : nat -> StepWorld) (r : DeploymentRun) :
  state r <> Machine.READY_TO_ACTIVATE -> NoDup (transactions r).*1 ->
  let l := sends (runToCompletion n rw ws m r).1.2 in
  NoDup l.*1 /\
  (forall sid req t, (sid, req) ∈ l -> getKey sid (transactions r) = Some t ->
     Receipts.state t <> Receipts.MINED_SUCCESS /\
     (Receipts.state t = Receipts.UNKNOWN_SUBMISSION_STATE ->
        exists t', Receipts.reconcile t (r_answers rw sid) (r_now rw) = Ok t' /\
          Receipts.provesNoEffect t (r_answers rw sid))).
Proof.
  intros E Hnd l. destruct (run_looped m n rw ws r E) as ((_ & _ & Htx & _) & Hs & Honce & _).
  split; [exact Honce|]. intros sid req t Hx Ht. destruct (Hs _ Hx) as [_ (s & _ & _ & _ & _ & Hr)]. cbn in Hr.
  destruct (Htx sid) as [Hk|(t0 & t' & Hin & Hu & Hrec & Hk)].
  - rewrite Ht in Hk. apply Hr, Receipts.assertSafeToRetry_ok in Hk as [? ?]. done.
  - apply getKey_Some in Hin; [|done]. rewrite Ht in Hin. injection Hin as <-. split; [by rewrite Hu|]. intros _.
    exists t'. split; [done|]. apply (Receipts.reconcile_retry _ _ _ _ Hrec), Hr, Hk.
Qed.

(** C32: a run ends ready exactly when everything is done.  A run leaves the deployment READY_TO_ACTIVATE
    only when it returned and every step of the plan is verified or was already satisfied; and on a valid
    plan with no failed step, given as many turns as the plan has steps, a run that is not stopped by an
    error always gets there: no step is left waiting for another. *)
Theorem run_completes (m : DeploymentManifest) (n : nat) (rw : ResumeWorld) (ws : nat -> StepWorld)
    (r r' : DeploymentRun) (l : list Action) (o : result Failure unit) (known : list string) :
  state r <> Machine.READY_TO_ACTIVATE -> runToCompletion n rw ws m r = (r', l, o) ->
  (state r' = Machine.READY_TO_ACTIVATE -> o = Ok tt /\ Forall (fun s => done_ s = true) (steps (plan r'))) /\
  (validatePlan (plan r) known = Ok tt -> Forall (fun s => status s <> FAILED) (steps (plan r)) ->
   (length (steps (plan r)) <= n)%nat -> o = Ok tt ->
   state r' = Machine.READY_TO_ACTIVATE /\ map id (steps (plan r')) = map id (steps (plan r))).
Proof.
  intros E Hrun. destruct (run_looped m n rw ws r E) as (_ & _ & _ & Hready & Hok). rewrite Hrun in Hready, Hok.
  cbn [fst snd] in *. split; [by rewrite <- openSteps_zero|].
  intros [Hnd Hv]%validatePlan_ok Hf Hn Ho. destruct (Hok Ho) as (Hp & Hend & Hne).
  split; [|by rewrite (progress_ids _ _ Hp)]. apply Hend.
  destruct (decide (openSteps (steps (plan r')) = 0%nat)) as [|Hopen]; [done|exfalso].
  destruct (first_open (steps (plan r'))) as (s & Hin & Hs & Hd); [by eapply progress_ordered, Hv|done|].
  apply (Hne Hn s). split_and!; [done| | |].
  - intros (t & Ht & Hid & Hdt)%doneIds_elem. rewrite (progress_ids _ _ Hp) in Hnd.
    rewrite (NoDup_map_inj id (steps (plan r')) t s) in Hdt by done. congruence.
  - intros Hst. destruct (progress_back _ _ s Hp Hin) as (a & Ha & _ & [-> | ?]); [|congruence].
    rewrite Forall_forall in Hf. by apply (Hf s).
  - intros d Hdep. apply doneIds_elem. by apply Hd.
Qed.

Lemma setStatus_run sid st r r' l u : setStatus sid st r = (r', l, Ok u) -> transactions r' = transactions r /\ l = [].
Proof. by intros [= <- <- _]. Qed.
Lemma setCreated_run sid a r r' l u : setCreated sid a r = (r', l, Ok u) -> transactions r' = transactions r /\ l = [].
Proof. unfold setCreated. destruct (Reuse.present a); by intros [= <- <- _]. Qed.

(** A send that goes on returned a hash, and was emitted. *)
Lemma submit_ok w s cid n from p t r r' l t' : submit w s cid n from p t r = (r', l, Ok t') ->
  r' = r /\ exists h req, sendAnswer w = Ok h /\ sends l = [(id s, req)] /\
    t' = Receipts.recordSendOutcome t (Receipts.Sent h) (w_now w).
Proof.
  assert (Hno : forall f q q' k v, sendFailed w s t f q = (q', k, Ok v) -> False).
  { intros f q q' k v (? & ? & ? & ? & _ & H & _)%bind_ok. destruct (Receipts.found _ _);
      apply bind_ok in H as (? & ? & ? & ? & _ & H & _); by apply bind_ok in H as (? & ? & ? & ? & _ & H & _). }
  unfold submit. destruct (gasOf s) as [gas|f]; [|by intros ?%Hno].
  intros (r1 & l1 & [] & l2 & [= <- <-] & H & ->)%bind_ok. destruct (sendAnswer w) as [h|f]; [|by apply Hno in H].
  injection H as <- <- <-. split; [done|]. exists h. by eexists.
Qed.

(** After a send, returning means mined successfully, and then seen. *)
Lemma settle_ok w s t r r' l : settle w s t r = (r', l, Ok tt) ->
  exists t' seen, getKey (id s) (transactions r') = Some t' /\ Receipts.state t' = Receipts.MINED_SUCCESS /\
    Receipts.waitForFinality (w_fuel w) timeoutMs (w_start w) (w_start' w) required (w_polls w) t = Some (Ok t') /\
    observed w = Ok seen /\ satisfied seen = true.
Proof.
  unfold settle. intros (r1 & l1 & [] & k1 & _ & H & _)%bind_ok. apply bind_ok in H as (r2 & l2 & t' & k2 & Hw & H & _).
  apply bind_ok in H as (r3 & l3 & [] & k3 & H3 & H & _). destruct (negb (is_ok _)) eqn:Em.
  { apply bind_ok in H as (? & ? & ? & ? & _ & H & _). by apply bind_ok in H as (? & ? & ? & ? & _ & H & _). }
  apply bind_ok in H as (r4 & l4 & [] & k4 & [H4 _]%setCreated_run & H & _).
  apply bind_ok in H as (r5 & l5 & [] & k5 & [H5 _]%setStatus_run & H & _).
  apply bind_ok in H as (r6 & l6 & seen & k6 & H6 & H & _). unfold call, lift in H6.
  destruct (observed w) as [seen'|e]; [|done]. injection H6 as -> _ ->. destruct (satisfied seen) eqn:Es; cbn [negb] in H.
  2: { apply bind_ok in H as (? & ? & ? & ? & _ & H & _). by apply bind_ok in H as (? & ? & ? & ? & _ & H & _). }
  apply setStatus_run in H as [H _]. exists t', seen. injection H3 as <- _.
  assert (Hkey : getKey (id s) (transactions r') = Some t').
  { rewrite H, H5, H4. cbn. by rewrite getKey_mapSet, streq_refl. }
  apply negb_false_iff, is_ok_true in Em. unfold Receipts.assertMinedSuccessfully in Em.
  rewrite !throw_ok, negb_false_iff, bool_decide_eq_true in Em. split_and!; try tauto.
  destruct (Receipts.waitForFinality _ _ _ _ _ _ _) as [[t0|e]|]; try done. by injection Hw as _ _ ->.
Qed.

Lemma sends_app_r (l l' : list Action) x : x ∈ sends l' -> x ∈ sends (l ++ l').
Proof. intros H. unfold sends. rewrite omap_app. apply elem_of_app. by right. Qed.
Lemma sends_app_l (l l' : list Action) x : x ∈ sends l -> x ∈ sends (l ++ l').
Proof. intros H. unfold sends. rewrite omap_app. apply elem_of_app. by left. Qed.

(** A write that returns went through the send and through settling. *)
Lemma write_ok w s m r r' l : executeWrite w s m r = (r', l, Ok tt) ->
  (exists x, x ∈ sends l) /\
  exists t h q l0, settle w s (Receipts.recordSendOutcome t (Receipts.Sent h) (w_now w)) q = (r', l0, Ok tt) /\
    sendAnswer w = Ok h.
Proof.
  unfold executeWrite. destruct (Steps.chainId s) as [cid|]; [|done].
  intros (? & ? & [] & ? & _ & H & ->)%bind_ok. apply bind_ok in H as (? & ? & [] & ? & _ & H & ->).
  destruct (signerFor m s) as [from|]; [|done].
  do 3 (apply bind_ok in H as (? & ? & ? & ? & _ & H & ->)). do 3 (apply bind_ok in H as (? & ? & [] & ? & _ & H & ->)).
  apply bind_ok in H as (q & l1 & t' & l2 & (-> & h & req & Hh & Hl & ->)%submit_ok & H & ->). split.
  - eexists. do 8 apply sends_app_r. apply sends_app_l. rewrite Hl. left.
  - eexists _, h, _, _. by split.
Qed.

Lemma step_write_ok w s m r r' l : WRITING_STEP_TYPES (type s) = true -> executeStep w s m r = (r', l, Ok tt) ->
  exists q l', executeWrite w s m q = (r', l', Ok tt) /\ forall x, x ∈ sends l' -> x ∈ sends l.
Proof.
  intros Hw. unfold executeStep. intros (? & ? & [] & ? & _ & H & ->)%bind_ok.
  apply bind_ok in H as (? & ? & ? & ? & _ & H & ->). do 2 (apply bind_ok in H as (? & ? & [] & ? & _ & H & ->)).
  eexists _, _. split; [|intros y Hx; do 4 apply sends_app_r; exact Hx]. unfold handler in H.
  by destruct (type s).
Qed.

(** A write step is verified only by the world.  When executing a writing step returns, exactly one
    transaction was sent, the wallet gave a hash for it, the record kept for the step is what waiting for
    it gave, mined successfully, and the intended effect was then observed; the step is marked verified,
    and every other is as it was. *)
Theorem write_verified (w : StepWorld) (s : DeploymentStep) (m : DeploymentManifest) (r r' : DeploymentRun) (l : list Action) :
  WRITING_STEP_TYPES (type s) = true -> executeStep w s m r = (r', l, Ok tt) ->
  (exists req, sends l = [(id s, req)] /\ sendAllowed m s req) /\
  (exists t t' h seen, sendAnswer w = Ok h /\ Receipts.txHash t = Some (to_lower h) /\
     Receipts.waitForFinality (w_fuel w) timeoutMs (w_start w) (w_start' w) required (w_polls w) t = Some (Ok t') /\
     getKey (id s) (transactions r') = Some t' /\ Receipts.state t' = Receipts.MINED_SUCCESS /\
     observed w = Ok seen /\ satisfied seen = true) /\
  Forall2 (fun a b => bare a = bare b /\ if streq (id a) (id s) then status b = VERIFIED else a = b)
    (steps (plan r)) (steps (plan r')).
Proof.
  intros Hw H. pose proof (step_sends w s m r) as Hs. rewrite H in Hs. cbn [fst snd] in Hs.
  pose proof (step_changes w s m r) as Hc. rewrite H in Hc. destruct Hc as [Hst _ _ _]. cbn [fst snd] in Hst.
  pose proof (step_verified w s m r r' l tt H) as Hv.
  destruct (step_write_ok w s m r r' l Hw H) as (q & l' & ([x Hx] & t & h & q' & l0 & Hset & Hh)%write_ok & Hsub).
  split_and!.
  - destruct Hs as [Hs|(req & Hs & Ha & _)]; [|by exists req]. apply Hsub in Hx. rewrite Hs in Hx.
    by apply not_elem_of_nil in Hx.
  - destruct (settle_ok _ _ _ _ _ _ Hset) as (t' & seen & ? & ? & ? & ? & ?).
    exists (Receipts.recordSendOutcome t (Receipts.Sent h) (w_now w)), t', h, seen. by split_and!.
  - apply Forall2_same_length_lookup. split; [by eapply Forall2_length|]. intros i a b Ha Hb.
    destruct (Forall2_lookup_lr _ _ _ _ _ _ Hst Ha Hb) as [Hbare Hne]. split; [done|].
    destruct (streq (id a) (id s)) eqn:E; [apply streq_true in E|apply streq_false in E; auto].
    apply Hv; [by eapply list_elem_of_lookup_2|]. by rewrite <- (bare_id _ _ Hbare).
Qed.

End orchestrator.

End Run.

(** ** Samples *)
Module Samples.
Import Machine Environment Steps Manifest Approval Effect Activation Run.

Definition fresh : ActivationProgress :=
  {| Activation.deploymentId := "d1"; completed := []; startedAtMs := 1; activatedAtMs := None |}.

Lemma activation_ordered_witness : exists q, ceremony fresh q /\ completed q = [START_RUNTIME] /\
  assertActivationStep q ENABLE_CONTEXTLOCK_POLICY false = Err NOT_VERIFIED.
Proof.
  exists (advanceActivation fresh START_RUNTIME 2).
  assert (Hc : ceremony fresh (advanceActivation fresh START_RUNTIME 2))
    by (apply (ceremony_step fresh fresh START_RUNTIME true 2); [constructor|reflexivity]).
  split; [exact Hc|]. split; [reflexivity|]. apply (activation_ordered fresh _ eq_refl Hc).
Defined.

Definition account : string := Deploy.Samples.account.

(** The sample manifest with the deployer's address. *)
Definition manifest : DeploymentManifest :=
  let m := DeployApproval.Samples.manifest in
  {| schemaVersion := schemaVersion m; manifestId := manifestId m; projectId := projectId m; buildId := buildId m;
     blueprintRevision := blueprintRevision m; buildRevision := buildRevision m; strategyHash := strategyHash m;
     organizationHash := organizationHash m; gitCommit := gitCommit m; environment := environment m;
     contracts := contracts m; ens := ens m; creWorkflows := creWorkflows m; runtimeImages := runtimeImages m;
     adapters := adapters m; authorizationModel := authorizationModel m;
     requiredSigners := [{| signerId := "deployer"; role := DEPLOYER; s_address := Some account;
                            s_mode := Signing.BROWSER_WALLET; chainIds := [11155111]; authorizes := "deploying" |}];
     requiredBalances := requiredBalances m; policyInitialState := policyInitialState m;
     runtimeInitialState := runtimeInitialState m; creInitialState := creInitialState m;
     generatedAt := generatedAt m |}.

Definition keep : string -> string := DeployApproval.Samples.keep.

Definition deployStep : DeploymentStep :=
  DeployPlan.Samples.step "deploy-core" DEPLOY_CONTRACT ["verify-chain"] PENDING (Some (DeployPlan.Samples.zeroCost 21000)).
Definition draft : DeploymentPlan :=
  withSteps DeployPlan.Samples.plan [DeployPlan.Samples.step "verify-chain" VERIFY_CHAIN [] VERIFIED None; deployStep].

(** The plan as approved: its approval records what the manifest hashes to. *)
Definition plan : DeploymentPlan :=
  match buildApprovalScreen keep manifest draft [] None [] with
  | Ok s => default draft (match approve keep manifest draft s "alice" 2000 with Ok p => Some p | Err _ => None end)
  | Err _ => draft
  end.

Definition start : DeploymentRun := newRun "d1" plan.

Definition seen (b : bool) : Seen := {| satisfied := b; createdAddress := None |}.

Definition world (send : result Receipts.SendFailure string) (polls : nat -> Receipts.Poll) : StepWorld :=
  {| w_now := 1000; observed := Ok (seen true); accountNonce := Ok 7%N;
     prepared := Ok {| p_to := None; p_data := "0x60"; p_value := 0 |}; sendAnswer := send; w_fuel := 70;
     w_start := 1000; w_start' := 1000; w_polls := polls; authValid := Ok true; currentArtifact := Ok None;
     deployAnswer := Err "unused"; statusBefore := Err "unused"; pauseAnswer := Ok tt; statusAfter := Err "unused";
     built := Err "unused"; scanned := Err "unused"; published := Ok tt; revision := Ok tt |}.

Definition mines : StepWorld := world (Ok Deploy.Samples.hash) (Deploy.Samples.every3s Deploy.Samples.mined).

(** Nothing observed yet; the reader knows of nothing. *)
Definition looks : ResumeWorld :=
  {| r_now := 900; r_answers := fun _ => Deploy.Samples.silent 0; r_seen := fun _ => Ok (seen false) |}.

Definition has (cid : Z) : bool := cid =? 11155111.
Abbreviation go rw w r := (runToCompletion keep has 180000 2 5 rw (fun _ => w) manifest r).

Example run_ready : let q := go looks mines start in
  state q.1.1 = Machine.READY_TO_ACTIVATE /\ map fst (sends q.1.2) = ["deploy-core"] /\ q.2 = Ok tt.
Proof. vm_compute. split_and!; reflexivity. Qed.

Lemma sent_sample : exists req, sends (go looks mines start).1.2 = [("deploy-core", req)].
Proof. eexists. vm_compute. reflexivity. Qed.

Lemma run_sends_approved_witness : (exists req, ("deploy-core", req) ∈ sends (go looks mines start).1.2) /\
  assertApprovedFor keep (Run.plan start) manifest = Ok tt.
Proof.
  destruct sent_sample as [req H].
  assert (Hin : ("deploy-core", req) ∈ sends (go looks mines start).1.2) by (rewrite H; left).
  split; [exists req; exact Hin|].
  exact (proj1 (run_sends_approved _ _ _ _ _ _ _ _ _ _ _ Hin)).
Defined.

(** The send was lost: the record is of unknown fate, and the next run sends only because the account has
    not used the nonce. *)
Definition lost : DeploymentRun :=
  (go looks (world (Err (Receipts.Unclassified "socket hang up")) (Deploy.Samples.every3s Deploy.Samples.mined)) start).1.1.

Lemma run_sends_once_witness : let l := sends (go looks mines lost).1.2 in
  state lost <> Machine.READY_TO_ACTIVATE /\ map fst l = ["deploy-core"] /\ NoDup l.*1.
Proof.
  assert (Hs : state lost <> Machine.READY_TO_ACTIVATE) by (vm_compute; discriminate).
  split; [exact Hs|]. split; [vm_compute; reflexivity|].
  apply (run_sends_once keep has 180000 2 manifest 5 looks (fun _ => mines) lost Hs).
  apply (bool_decide_unpack _). vm_compute. exact I.
Defined.

Lemma run_completes_witness : state (go looks mines start).1.1 = Machine.READY_TO_ACTIVATE.
Proof.
  destruct (go looks mines start) as [[r' l] o] eqn:E.
  assert (Ho : o = Ok tt) by (change o with ((r', l, o).2); rewrite <- E; vm_compute; reflexivity).
  destruct (run_completes keep has 180000 2 manifest 5 looks (fun _ => mines) start r' l o ["deployer"]) as [_ H];
    [vm_compute; discriminate|exact E|].
  apply H; [vm_compute; reflexivity| |vm_compute; lia|exact Ho].
  apply (bool_decide_unpack _). vm_compute. exact I.
Defined.

Lemma write_verified_witness : exists r' l,
  executeStep keep has 180000 2 mines deployStep manifest start = (r', l, Ok tt) /\ exists req, sends l = [("deploy-core", req)].
Proof.
  destruct (executeStep keep has 180000 2 mines deployStep manifest start) as [[r' l] o] eqn:E.
  assert (Ho : o = Ok tt) by (change o with ((r', l, o).2); rewrite <- E; vm_compute; reflexivity).
  subst o. exists r', l. split; [reflexivity|].
  destruct (write_verified keep has 180000 2 mines deployStep manifest start r' l) as ((req & H & _) & _);
    [reflexivity|exact E|]. by exists req.
Defined.

(** *** What the code does not mean to do *)

Definition rpcDown : StepWorld :=
  world (Ok Deploy.Samples.hash) (fun k => {| Receipts.before_ms := 1000; Receipts.at_ms := 1000;
    Receipts.answers := {| Receipts.getTransactionReceipt := Err {| Receipts.kind := Receipts.TRANSPORT; Receipts.message := "down" |};
                           Receipts.getBlockNumber := Ok 3%N; Receipts.getTransactionCount := Ok 8%N |};
    Receipts.after_ms := 1000 |}).

(** The node fails while a sent transaction is waited for: the record stays SUBMITTED, which neither the
    next resume reconciles nor the retry check refuses, and the next run sends the step again, although the
    first transaction may have been mined. *)
Lemma submitted_is_resent : let r := (go looks rpcDown start).1.1 in
  map fst (sends (go looks rpcDown start).1.2) = ["deploy-core"] /\
  Receipts.state <$> getKey "deploy-core" (transactions r) = Some Receipts.SUBMITTED /\
  map fst (sends (go looks mines r).1.2) = ["deploy-core"].
Proof. vm_compute. split_and!; reflexivity. Qed.

(** A retry sends with the account's current nonce and keeps the record made for the first. *)
Lemma retry_keeps_old_nonce :
  let used := world (Ok Deploy.Samples.hash) (Deploy.Samples.every3s Deploy.Samples.mined) in
  let r := (go looks rpcDown start).1.1 in
  let w := {| w_now := w_now used; observed := observed used; accountNonce := Ok 8%N; prepared := prepared used;
              sendAnswer := sendAnswer used; w_fuel := w_fuel used; w_start := w_start used; w_start' := w_start' used;
              w_polls := w_polls used; authValid := authValid used; currentArtifact := currentArtifact used;
              deployAnswer := deployAnswer used; statusBefore := statusBefore used; pauseAnswer := pauseAnswer used;
              statusAfter := statusAfter used; built := built used; scanned := scanned used;
              published := published used; revision := revision used |} in
  map (fun x => t_nonce x.2) (sends (go looks w r).1.2) = [8] /\
  Receipts.nonce <$> getKey "deploy-core" (transactions (go looks w r).1.1) = Some 7.
Proof. vm_compute. split; reflexivity. Qed.

(** The plan has no post-deployment verification, and the run ends ready all the same. *)
Lemma ready_without_verification :
  (POST_DEPLOY_VERIFY ∉ map type (steps plan)) /\ state (go looks mines start).1.1 = Machine.READY_TO_ACTIVATE.
Proof. split; [apply (bool_decide_unpack _); vm_compute; exact I|vm_compute; reflexivity]. Qed.

End Samples.
