(* ===== verification/Release.v ===== *)
(** * After a deployment: secrets, verification, the runtime image, recovery

    [Secrets] is [studio-deploy/src/secrets.ts], the scan of every artifact before it is written down.
    [Verify], [Image] and [Recovery] are [verify.ts], [image.ts] and [receipt.ts] of
    [studio-orchestrator/src]: the checks of a finished deployment by reading state back, the gate before
    an image is published, the receipt and the inventory of a deployment that stopped half way.

    What the services answer (chain readers, ENS, the workflow registry, the runtime) is an input of one
    verification: a function of what is asked, so that one verification sees one state.  Texts for the
    reader ([what], notes, options) are left out. *)

From S2P Require Import Prelude Regex Json Scanner Network Deploy Adapters DeployPlan DeployApproval.
From stdpp Require Import pretty sorting gmap.
From Stdlib Require Import Ascii.
Local Open Scope Z_scope.

Module Secrets.
Import Scanner.

Definition PATTERNS : list ValuePattern :=
  [openaiKey; jwt; pemPrivateKey; awsAccessKeyId; e2bApiKey; bip39Mnemonic;
   {| patternKind := "cre-session-path"; wordStart := false; body := lit ".cre/cre.yaml"; rest := anyText |}].

Definition FORBIDDEN_KEYS : list string :=
  ["privateKey"; "private_key"; "PRIVATE_KEY"; "mnemonic"; "seed"; "seedPhrase";
   "apiKey"; "api_key"; "API_KEY"; "OPENAI_API_KEY"; "CRE_API_KEY"; "E2B_API_KEY";
   "accessToken"; "access_token"; "refreshToken"; "refresh_token"; "sessionToken";
   "password"; "passphrase"; "secret"; "clientSecret"; "AWS_SECRET_ACCESS_KEY";
   "DEPLOYER_PRIVATE_KEY"; "CAPABILITY_ISSUER_PRIVATE_KEY"; "FUNDER_PRIVATE_KEY";
   "CRE_ETH_PRIVATE_KEY"; "AGENT_PRIVATE_KEY"; "RELAYER_PRIVATE_KEY"; "ledgerPin"].

(** [HASHY_KEY], which is not anchored: one of the words anywhere in the name, in any letter case. *)
Definition hashyWords : list string :=
  ["hash"; "digest"; "node"; "labelhash"; "txhash"; "tx"; "receipt"; "root"; "selector"; "commit"; "id"; "sha";
   "bytecode"; "code"; "salt"].
Definition HASHY_KEY (key : string) : bool := some (fun w => str_contains w (to_lower key)) hashyWords.

Definition scanForSecrets (v : jsv) (rootPath : string) : list RedactionHit :=
  walk FORBIDDEN_KEYS PATTERNS HASHY_KEY v rootPath rootPath.

Definition assertNoSecrets (v : jsv) (what : string) : result (list RedactionHit) unit :=
  let hits := scanForSecrets v what in
  throw hits when Manifest.nonempty hits ;;
  Ok tt.

(** What an artifact that passes contains, by [Scanner.clean]. *)
Definition holdsNoSecret (v : jsv) (what : string) : Prop := clean FORBIDDEN_KEYS PATTERNS HASHY_KEY v what.

Lemma assertNoSecrets_ok (v : jsv) (what : string) : assertNoSecrets v what = Ok tt <-> holdsNoSecret v what.
Proof.
  unfold assertNoSecrets, scanForSecrets, holdsNoSecret. rewrite throw_ok, <- (walk_none _ _ _ v what what).
  destruct (walk _ _ _ v what what); simpl; naive_solver.
Qed.

End Secrets.

Module Verify.
Import Regex DeployPlan.Reader DeployPlan.Reuse DeployApproval.Manifest.

Inductive VerifyReason :=
| CODE_MISMATCH | NO_CODE | CONFIG_MISMATCH | POLICY_ENABLED | ENS_MISMATCH | CRE_MISMATCH | CRE_NOT_PAUSED
| IMAGE_MISMATCH | ADAPTER_MISMATCH | UNEXPECTED_ADMIN | CORRESPONDENCE.

Record VerificationCheck := {
  k_id : string;
  ok : bool;
  reason : option VerifyReason;
  expected : string;
  observed : string
}.

(** What [cre workflow get] says of a workflow. *)
Record LiveWorkflow := { l_workflowId : string; l_registry : string; l_binaryHash : string; l_status : string }.

Record VerificationInput := {
  manifest : DeploymentManifest;
  readers : Z -> option ChainReader;
  createdAddresses : gmap string string;
  readPolicyEnabled : Z -> string -> string -> result string bool;
  readAdministrators : Z -> string -> result string (list string);
  resolveEnsBinding : Z -> string -> result string (option string);
  readCreWorkflow : string -> result string (option LiveWorkflow);
  readRuntimeImageDigest : string -> result string (option string);
  readAdapterVersions : result string (gmap string string);
  expectedAdministrators : gset string;
  policyIds : list (string * string)
}.

Definition check (id expected_ observed_ : string) (r : VerifyReason) : VerificationCheck :=
  {| k_id := id; ok := eq_ci expected_ observed_; reason := if eq_ci expected_ observed_ then None else Some r;
     expected := expected_; observed := observed_ |}.

(** A check whose outcome is given: [ok], and the reason when it is not. *)
Definition outcome (id expected_ observed_ : string) (good : bool) (r : VerifyReason) : VerificationCheck :=
  {| k_id := id; ok := good; reason := if good then None else Some r; expected := expected_; observed := observed_ |}.

Definition sortedList (l : list string) : string :=
  let s := Environment.join ", " (merge_sort str_le l) in if streq s "" then "(none)" else s.

(** A [for] over the entries of the manifest, each adding its checks, with awaits that may throw. *)
Fixpoint collect {A : Type} (f : A -> result string (list VerificationCheck)) (l : list A)
    : result string (list VerificationCheck) :=
  match l with
  | [] => Ok []
  | x :: l' => let* a := f x in let* b := collect f l' in Ok (a ++ b)
  end.

Section verification.
Context (keccak256 : string -> string) (inp : VerificationInput).

Definition addressOf (c : ManifestContract) : option string :=
  present (match address c with Some a => Some a | None => createdAddresses inp !! name c end).

Definition checkCode (c : ManifestContract) : result string (list VerificationCheck) :=
  match readers inp (DeployPlan.Reuse.chainId c) with
  | None => Ok []
  | Some reader =>
      let id := "code:" +:+ name c in
      let pinned := default "(pinned hash)" (runtimeCodeHash c) in
      match addressOf c with
      | None => Ok [outcome id pinned "(no address)" false NO_CODE]
      | Some a =>
          let* code := getCode reader a in
          if noCode code then Ok [outcome id pinned "(no code)" false NO_CODE]
          else
            let hash := codeHash keccak256 code in
            match present (runtimeCodeHash c) with
            | Some want => Ok [check id want hash CODE_MISMATCH]
            | None => Ok [outcome id "(created this deployment)" hash true CODE_MISMATCH]
            end
      end
  end.

Definition checkPolicy (p : string * string) : result string (list VerificationCheck) :=
  match List.find (fun x => streq (name x) p.1 && bool_decide (present (address x) <> None))
          (contracts (manifest inp)) with
  | None => Ok []
  | Some c =>
      let* enabled := readPolicyEnabled inp (DeployPlan.Reuse.chainId c) (default "" (address c)) p.2 in
      Ok [outcome ("policy-disabled:" +:+ p.1) "disabled" (if enabled : bool then "ENABLED" else "disabled")
            (negb enabled) POLICY_ENABLED]
  end.

Definition unexpected (admins : list string) : list string :=
  List.filter (fun a => negb (bool_decide (to_lower a ∈ expectedAdministrators inp))) admins.

Definition checkAdmins (c : ManifestContract) : result string (list VerificationCheck) :=
  match present (address c) with
  | None => Ok []
  | Some a =>
      let* admins := readAdministrators inp (DeployPlan.Reuse.chainId c) a in
      Ok [outcome ("admins:" +:+ name c) (sortedList (elements (expectedAdministrators inp)))
            (sortedList (map to_lower admins)) (bool_decide (unexpected admins = [])) UNEXPECTED_ADMIN]
  end.

Definition checkEns (e : ManifestEns) : result string (list VerificationCheck) :=
  let* bound := resolveEnsBinding inp (e_chainId e) (e_node e) in
  Ok [check ("ens:" +:+ e_name e) (e_boundAgent e) (default "(unbound)" bound) ENS_MISMATCH].

Definition checkCre (w : ManifestCreWorkflow) : result string (list VerificationCheck) :=
  let* live := readCreWorkflow inp (workflowName w) in
  match live with
  | None => Ok [outcome ("cre:" +:+ workflowName w) (binaryHash w) "(not found in the registry)" false CRE_MISMATCH]
  | Some f =>
      Ok [check ("cre-binary:" +:+ workflowName w) (binaryHash w) (l_binaryHash f) CRE_MISMATCH;
          check ("cre-registry:" +:+ workflowName w) (registry w) (l_registry f) CRE_MISMATCH;
          outcome ("cre-state:" +:+ workflowName w) (initialState w) (l_status f)
            (streq (to_upper (l_status f)) (initialState w)) CRE_NOT_PAUSED]
  end.

Definition checkImage (i : ManifestRuntimeImage) : result string (list VerificationCheck) :=
  let* running := readRuntimeImageDigest inp (i_agentId i) in
  Ok [check ("image:" +:+ i_agentId i) (default "(unpinned)" (imageDigest i)) (default "(none)" running) IMAGE_MISMATCH].

Definition checkAdapter (versions : gmap string string) (a : PinnedAdapter) : result string (list VerificationCheck) :=
  Ok [check ("adapter:" +:+ adapterId a) (version a) (default "(absent)" (versions !! adapterId a)) ADAPTER_MISMATCH].

Definition verifyDeployment : result string (list VerificationCheck) :=
  let m := manifest inp in
  let* code := collect checkCode (contracts m) in
  let* policies := collect checkPolicy (policyIds inp) in
  let* admins := collect checkAdmins (contracts m) in
  let* ens_ := collect checkEns (ens m) in
  let* cre := collect checkCre (creWorkflows m) in
  let* images := collect checkImage (runtimeImages m) in
  let* versions := readAdapterVersions inp in
  let* adapters_ := collect (checkAdapter versions) (adapters m) in
  Ok (code ++ policies ++ admins ++ ens_ ++ cre ++ images ++ adapters_).

Definition failures (checks : list VerificationCheck) : list VerificationCheck :=
  List.filter (fun c => negb (ok c)) checks.

Definition assertVerified (checks : list VerificationCheck) : result (list VerificationCheck) unit :=
  throw failures checks when Manifest.nonempty (failures checks) ;; Ok tt.

(** *** What a verified deployment is *)

(** The code at the contract's address is there, and is the pinned one when one is pinned. *)
Definition codeAsPinned (c : ManifestContract) : Prop :=
  forall reader, readers inp (DeployPlan.Reuse.chainId c) = Some reader ->
  exists a code, addressOf c = Some a /\ getCode reader a = Ok (Some code) /\ code <> "" /\ code <> "0x" /\
    forall h, runtimeCodeHash c = Some h -> h <> "" -> to_lower h = to_lower (keccak256 code).

(** Every account with an administrative role on the contract is one of the expected ones. *)
Definition adminsExpected (c : ManifestContract) : Prop :=
  forall a, address c = Some a -> a <> "" ->
  exists admins, readAdministrators inp (DeployPlan.Reuse.chainId c) a = Ok admins /\
    forall x, x ∈ admins -> to_lower x ∈ expectedAdministrators inp.

(** The policy flag, read on the first addressed contract of that name, is off. *)
Definition policyOff (p : string * string) : Prop :=
  forall c, List.find (fun x => streq (name x) p.1 && bool_decide (present (address x) <> None))
              (contracts (manifest inp)) = Some c ->
  readPolicyEnabled inp (DeployPlan.Reuse.chainId c) (default "" (address c)) p.2 = Ok false.

Definition ensBound (e : ManifestEns) : Prop :=
  exists a, resolveEnsBinding inp (e_chainId e) (e_node e) = Ok (Some a) /\ to_lower a = to_lower (e_boundAgent e).

Definition crePaused (w : ManifestCreWorkflow) : Prop :=
  exists f, readCreWorkflow inp (workflowName w) = Ok (Some f) /\ to_upper (l_status f) = initialState w /\
    to_lower (l_binaryHash f) = to_lower (binaryHash w) /\ to_lower (l_registry f) = to_lower (registry w).

Definition imagePinned (i : ManifestRuntimeImage) : Prop :=
  exists d, readRuntimeImageDigest inp (i_agentId i) = Ok (Some d) /\
    to_lower d = to_lower (default "(unpinned)" (imageDigest i)).

Definition adapterPinned (a : PinnedAdapter) : Prop :=
  exists versions v, readAdapterVersions inp = Ok versions /\ versions !! adapterId a = Some v /\
    to_lower v = to_lower (version a).

Definition Verified : Prop :=
  let m := manifest inp in
  (forall c, c ∈ contracts m -> codeAsPinned c /\ adminsExpected c) /\
  (forall p, p ∈ policyIds inp -> policyOff p) /\
  (forall e, e ∈ ens m -> ensBound e) /\
  (forall w, w ∈ creWorkflows m -> crePaused w) /\
  (forall i, i ∈ runtimeImages m -> imagePinned i) /\
  (forall a, a ∈ adapters m -> adapterPinned a).

Definition allOk (l : list VerificationCheck) : bool := every ok l.

Lemma assertVerified_ok l : assertVerified l = Ok tt <-> allOk l = true.
Proof.
  unfold assertVerified, allOk, failures. rewrite throw_ok, every_true. split.
  - intros [H _] c Hc. destruct (ok c) eqn:E; [done|].
    assert (Hin : c ∈ List.filter (fun c => negb (ok c)) l)
      by (rewrite list_elem_of_In, filter_In, <- list_elem_of_In, E; done).
    destruct (List.filter _ _); [by apply not_elem_of_nil in Hin|done].
  - intros H. split; [|done]. destruct (List.filter _ _) as [|c l'] eqn:E; [done|].
    assert (Hin : c ∈ List.filter (fun c => negb (ok c)) l) by (rewrite E; left).
    rewrite list_elem_of_In, filter_In, <- list_elem_of_In in Hin. destruct Hin as [Hc Hn]. by rewrite (H c Hc) in Hn.
Qed.

Lemma collect_ok {A : Type} (f : A -> result string (list VerificationCheck)) (P : A -> Prop) l cs :
  (forall x c, x ∈ l -> f x = Ok c -> (allOk c = true <-> P x)) ->
  collect f l = Ok cs -> (allOk cs = true <-> forall x, x ∈ l -> P x).
Proof.
  revert cs. induction l as [|x l IH]; intros cs Hf; simpl.
  { intros [= <-]. split; [by intros _ x ?%not_elem_of_nil|done]. }
  intros (a & Ha & (b & Hb & [= <-])%rbind_ok)%rbind_ok. unfold allOk, every. rewrite forallb_app, andb_true_iff.
  rewrite (Hf x a), (IH b); [|intros; apply Hf; [by right|done]|done|by left|done].
  setoid_rewrite elem_of_cons. naive_solver.
Qed.

Lemma check_ok id e o r : ok (check id e o r) = true <-> to_lower e = to_lower o.
Proof. apply eq_ci_true. Qed.

Lemma outcome_ok id e o b r : allOk [outcome id e o b r] = b.
Proof. apply andb_true_r. Qed.

Lemma checked_ok id e o r : allOk [check id e o r] = true <-> to_lower e = to_lower o.
Proof. rewrite <- (check_ok id e o r). unfold allOk, every. cbn [forallb]. by rewrite andb_true_r. Qed.

Lemma addressOf_some c a : addressOf c = Some a ->
  a <> "" /\ (address c = Some a \/ address c = None /\ createdAddresses inp !! name c = Some a).
Proof. unfold addressOf. rewrite present_some. destruct (address c); naive_solver. Qed.

Lemma checkCode_ok c cs : checkCode c = Ok cs -> (allOk cs = true <-> codeAsPinned c).
Proof.
  unfold checkCode, codeAsPinned. destruct (readers inp _) as [rd|]; [|intros [= <-]; split; [done|naive_solver]].
  destruct (addressOf c) as [a|]; cycle 1.
  { intros [= <-]. split; [done|]. intros H. by destruct (H rd eq_refl) as (? & ? & ? & _). }
  intros (code & Hcode & H)%rbind_ok. destruct (noCode code) eqn:En.
  { injection H as <-. split; [done|]. intros Hc. destruct (Hc rd eq_refl) as (? & x & [= <-] & Hx & Hne & Hn0 & _).
    rewrite Hcode in Hx. injection Hx as ->. simpl in En. apply orb_true_iff in En as [E|E]; by apply streq_true in E. }
  destruct code as [code|]; [|done]. simpl in En. apply orb_false_iff in En as [E1 E2].
  apply streq_false in E1, E2. destruct (present (runtimeCodeHash c)) as [w|] eqn:Ep; injection H as <-.
  - apply present_some in Ep as [Ew Hw]. rewrite checked_ok. split.
    + intros Hh rd' [= <-]. exists a, code. split_and!; try done. intros h. rewrite Ew. by intros [= <-] _.
    + intros Hc. destruct (Hc rd eq_refl) as (a' & x & [= <-] & Hx & _ & _ & Hh). rewrite Hcode in Hx.
      injection Hx as <-. by apply Hh.
  - split; [|done]. intros _ rd' [= <-]. exists a, code. split_and!; try done. intros h Hh Hne.
    by rewrite (proj2 (present_some _ _) (conj Hh Hne)) in Ep.
Qed.

Lemma checkPolicy_ok p cs : checkPolicy p = Ok cs -> (allOk cs = true <-> policyOff p).
Proof.
  unfold checkPolicy, policyOff. destruct (List.find _ _) as [c|]; [|intros [= <-]; split; [done|naive_solver]].
  intros (b & Hb & [= <-])%rbind_ok. rewrite outcome_ok. split.
  - intros ->%negb_true_iff c' [= <-]. done.
  - intros H. specialize (H c eq_refl). rewrite Hb in H. by injection H as ->.
Qed.

Lemma unexpected_none l : unexpected l = [] <-> forall x, x ∈ l -> to_lower x ∈ expectedAdministrators inp.
Proof.
  unfold unexpected. split.
  - intros H x Hx. destruct (decide (to_lower x ∈ expectedAdministrators inp)) as [|Hn]; [done|].
    assert (Hin : x ∈ List.filter (fun a => negb (bool_decide (to_lower a ∈ expectedAdministrators inp))) l)
      by (rewrite list_elem_of_In, filter_In, <- list_elem_of_In, bool_decide_eq_false_2; done).
    rewrite H in Hin. by apply not_elem_of_nil in Hin.
  - intros H. induction l as [|x l IH]; [done|]. simpl. rewrite bool_decide_eq_true_2 by (apply H; left).
    apply IH. intros y Hy. apply H. by right.
Qed.

Lemma checkAdmins_ok c cs : checkAdmins c = Ok cs -> (allOk cs = true <-> adminsExpected c).
Proof.
  unfold checkAdmins, adminsExpected. destruct (present (address c)) as [a|] eqn:Ea.
  - apply present_some in Ea as [Ea Hne]. intros (l & Hl & [= <-])%rbind_ok.
    rewrite outcome_ok, bool_decide_eq_true, unexpected_none, Ea. split.
    + intros H a' [= <-] _. by exists l.
    + intros H. destruct (H a eq_refl Hne) as (l' & Hl' & Hx). rewrite Hl in Hl'. by injection Hl' as <-.
  - intros [= <-]. split; [|done]. intros _ a Ha Hne. by rewrite (proj2 (present_some _ _) (conj Ha Hne)) in Ea.
Qed.

(** A text of a form that does not start with a parenthesis is not one of the stand-ins for an absent
    value, in any letter case. *)
Lemma stand_in_refused r s t : deriv "("%char r = Void -> matches r s = true -> to_lower s <> String "(" t.
Proof.
  intros Hd Hm Hs. destruct s as [|c s]; [done|]. cbn [to_lower] in Hs. injection Hs as Hc _.
  assert (c = "("%char) as ->.
  { destruct c as [[] [] [] [] [] [] [] []]; revert Hc; vm_compute; congruence. }
  cbn [matches] in Hm. rewrite Hd, matches_lang, lang_void in Hm. done.
Qed.

Lemma checkEns_ok e cs : ensOk e = true -> checkEns e = Ok cs -> (allOk cs = true <-> ensBound e).
Proof.
  intros (_ & Ha)%andb_true_iff. unfold checkEns, ensBound. intros (b & Hb & [= <-])%rbind_ok. rewrite checked_ok, Hb.
  split; [|by intros (a & [= ->] & <-)]. intros H. destruct b as [a|]; [by exists a|].
  by destruct (stand_in_refused Receipts.ADDRESS (e_boundAgent e) "unbound)" ltac:(vm_compute; reflexivity) Ha).
Qed.

Lemma checkCre_ok w cs : checkCre w = Ok cs -> (allOk cs = true <-> crePaused w).
Proof.
  unfold checkCre, crePaused. intros (f & Hf & H)%rbind_ok. rewrite Hf.
  destruct f as [f|]; injection H as <-; [|split; [done|by intros (? & ? & _)]].
  unfold allOk, every. cbn [forallb]. rewrite !andb_true_iff, !check_ok. cbn [ok outcome]. rewrite streq_true. naive_solver.
Qed.

Lemma checkImage_ok i cs : runtimeImageOk i = true -> checkImage i = Ok cs -> (allOk cs = true <-> imagePinned i).
Proof.
  unfold runtimeImageOk. rewrite !andb_true_iff. intros Hok. unfold checkImage, imagePinned.
  intros (b & Hb & [= <-])%rbind_ok. rewrite checked_ok, Hb. split; [|by intros (a & [= ->] & <-)].
  intros H. destruct b as [a|]; [by exists a|]. destruct Hok as [[[[[_ Hd] _] _] _] _].
  destruct (imageDigest i) as [d|]; [|done].
  by destruct (stand_in_refused SHA256 d "none)" ltac:(vm_compute; reflexivity) Hd).
Qed.

Lemma checkAdapter_ok versions a cs : readAdapterVersions inp = Ok versions -> adapterOk a = true ->
  checkAdapter versions a = Ok cs -> (allOk cs = true <-> adapterPinned a).
Proof.
  unfold adapterOk. rewrite andb_true_iff. intros Hv [Ha _] [= <-]. rewrite checked_ok. unfold adapterPinned. rewrite Hv.
  split; [|by intros (vs & v & [= <-] & -> & <-)]. intros H. destruct (versions !! adapterId a) as [v|] eqn:E.
  { by exists versions, v. }
  by destruct (stand_in_refused VERSION (version a) "absent)" ltac:(vm_compute; reflexivity) Ha).
Qed.

(** A deployment passes verification exactly when what is on the chains and in the services is what
    the manifest says.  When the reads were answered, no check failed exactly when every contract on a
    chain with a reader has code, the pinned code where one is pinned; no administrator of an addressed
    contract is unexpected; every policy flag that was read is off; every name resolves to its agent;
    every workflow is the approved binary, in its registry and paused; and every image and adapter is
    the pinned one. *)
Theorem verified_iff (isUrl : string -> bool) (checks : list VerificationCheck) :
  manifestOk isUrl (manifest inp) = true -> verifyDeployment = Ok checks ->
  (assertVerified checks = Ok tt <-> Verified).
Proof.
  unfold manifestOk. rewrite !andb_true_iff. intros Hm. destruct_and?.
  repeat match goal with H : every _ _ = true |- _ => rewrite every_true in H end.
  unfold verifyDeployment.
  intros (c1 & C1 & (c2 & C2 & (c3 & C3 & (c4 & C4 & (c5 & C5 & (c6 & C6 & (v & Hv & (c7 & C7 & [= <-])
    %rbind_ok)%rbind_ok)%rbind_ok)%rbind_ok)%rbind_ok)%rbind_ok)%rbind_ok)%rbind_ok.
  rewrite assertVerified_ok. unfold allOk, every. rewrite !forallb_app, !andb_true_iff. unfold Verified.
  apply (collect_ok _ codeAsPinned) in C1; [|intros; by apply checkCode_ok].
  apply (collect_ok _ policyOff) in C2; [|intros; by apply checkPolicy_ok].
  apply (collect_ok _ adminsExpected) in C3; [|intros; by apply checkAdmins_ok].
  apply (collect_ok _ ensBound) in C4; [|intros; apply checkEns_ok; eauto].
  apply (collect_ok _ crePaused) in C5; [|intros; by apply checkCre_ok].
  apply (collect_ok _ imagePinned) in C6; [|intros; apply checkImage_ok; eauto].
  apply (collect_ok _ adapterPinned) in C7; [|intros; eapply checkAdapter_ok; eauto].
  unfold allOk, every in *. rewrite C1, C2, C3, C4, C5, C6, C7. naive_solver.
Qed.

(** Two gaps: a contract on a chain without a reader is not checked at all, and the administrators of a
    contract created in this deployment, which has no address in the manifest, are never read. *)
Lemma unread_chain_passes c : readers inp (DeployPlan.Reuse.chainId c) = None -> checkCode c = Ok [].
Proof. intros H. unfold checkCode. by rewrite H. Qed.

Lemma created_admins_unread c : address c = None -> checkAdmins c = Ok [].
Proof. intros H. unfold checkAdmins. by rewrite H. Qed.

End verification.

End Verify.

Module Image.
Import Regex DeployApproval.Manifest.

Inductive VulnSeverity := CRITICAL | HIGH | MEDIUM | LOW | NEGLIGIBLE | UNKNOWN.
#[export] Instance VulnSeverity_eq_dec : EqDecision VulnSeverity.
Proof. solve_decision. Defined.

Record Finding := {
  v_id : string;
  severity : VulnSeverity;
  package : string;
  installedVersion : string;
  fixedVersion : option string
}.

Record VulnerabilityReport := {
  scanner : string;
  scannerVersion : string;
  scannedAtMs : Z;
  r_imageDigest : string;
  counts : list (VulnSeverity * Z);
  findings : list Finding;
  ran : bool;
  unavailableReason : option string
}.

Definition reportOk (r : VulnerabilityReport) : bool :=
  text (scanner r) && text (scannerVersion r) && Manifest.posInt (scannedAtMs r) && matches SHA256 (r_imageDigest r) &&
  every (fun c => Manifest.natInt c.2) (counts r).

Record AcceptedRisk := { k_id : string; k_reason : string; acceptedBy : string; k_expiresAtMs : Z }.

Record ImagePolicy := {
  blockOn : list VulnSeverity;
  acceptedRisks : list AcceptedRisk;
  requireSbom : bool;
  requireProvenance : bool;
  requireNonRoot : bool;
  requirePinnedBaseDigest : bool
}.

Definition policyOk (p : ImagePolicy) : bool :=
  every (fun k => text (k_reason k) && text (acceptedBy k) && Manifest.posInt (k_expiresAtMs k)) (acceptedRisks p).

Definition DEFAULT_IMAGE_POLICY : ImagePolicy :=
  {| blockOn := [CRITICAL; HIGH]; acceptedRisks := []; requireSbom := true; requireProvenance := true;
     requireNonRoot := true; requirePinnedBaseDigest := true |}.

Inductive AttestationMethod := BUILDKIT_INTOTO_OCI | EXTERNAL_SYFT | NONE.

(** The OCI labels, by what they name. *)
Record Labels := {
  revision : string;
  created : string;
  buildId : string;
  blueprintHash : string;
  strategyHash : string;
  l_agentId : string
}.

Record RuntimeImageArtifact := {
  agentId : string;
  tag : string;
  imageDigest : string;
  baseImageDigest : string;
  sbomDigest : option string;
  sbomFormat : option string;
  provenanceDigest : option string;
  provenanceFormat : option string;
  vulnerabilityReportDigest : option string;
  labels : Labels;
  runsAsUser : string;
  runsAsRoot : bool;
  builtAtMs : Z;
  attestationMethod : AttestationMethod
}.

Definition labelsOk (l : Labels) : bool :=
  text (revision l) && text (created l) && text (buildId l) && matches SHA256 (blueprintHash l) &&
  matches SHA256 (strategyHash l) && text (l_agentId l).

Definition artifactOk (a : RuntimeImageArtifact) : bool :=
  text (agentId a) && text (tag a) && matches SHA256 (imageDigest a) && matches SHA256 (baseImageDigest a) &&
  nullOr (matches SHA256) (sbomDigest a) && nullOr (matches SHA256) (provenanceDigest a) &&
  nullOr (matches SHA256) (vulnerabilityReportDigest a) && labelsOk (labels a) && text (runsAsUser a) &&
  Manifest.posInt (builtAtMs a).

Inductive ImageReason :=
| VULNERABLE | SCAN_NOT_RUN | SCAN_WRONG_DIGEST | NO_SBOM | NO_PROVENANCE | ROOT_USER | UNPINNED_BASE
| DIGEST_MISMATCH | EXPIRED_ACCEPTANCE.

Definition absent (o : option string) : bool := bool_decide (Reuse.present o = None).

(** [new Map(acceptedRisks.map(r => [r.id, r])).get(id)]: the last entry of an id counts. *)
Definition acceptance (p : ImagePolicy) (id : string) : option AcceptedRisk :=
  List.find (fun k => streq (k_id k) id) (rev (acceptedRisks p)).

Definition blocking (p : ImagePolicy) (r : VulnerabilityReport) : list Finding :=
  List.filter (fun f => includes (blockOn p) (severity f)) (findings r).

(** The loop over the blocking findings: an acceptance that has expired ends it, the findings without
    one are collected. *)
Fixpoint unaccepted (p : ImagePolicy) (nowMs : Z) (l : list Finding) : result ImageReason (list Finding) :=
  match l with
  | [] => Ok []
  | f :: l' =>
      match acceptance p (v_id f) with
      | None => let* rest := unaccepted p nowMs l' in Ok (f :: rest)
      | Some k => throw EXPIRED_ACCEPTANCE when k_expiresAtMs k <=? nowMs ;; unaccepted p nowMs l'
      end
  end.

Definition assertPromotable (a : RuntimeImageArtifact) (report : option VulnerabilityReport) (p : ImagePolicy) (nowMs : Z)
    : result ImageReason unit :=
  throw ROOT_USER when requireNonRoot p && runsAsRoot a ;;
  throw UNPINNED_BASE when requirePinnedBaseDigest p && negb (matches SHA256 (baseImageDigest a)) ;;
  throw NO_SBOM when requireSbom p && absent (sbomDigest a) ;;
  throw NO_PROVENANCE when requireProvenance p && absent (provenanceDigest a) ;;
  match report with
  | None => Err SCAN_NOT_RUN
  | Some r =>
      throw SCAN_NOT_RUN when negb (ran r) ;;
      throw SCAN_WRONG_DIGEST when negb (streq (r_imageDigest r) (imageDigest a)) ;;
      let* open_ := unaccepted p nowMs (blocking p r) in
      throw VULNERABLE when Manifest.nonempty open_ ;;
      Ok tt
  end.

Definition assertDigestMatchesManifest (a : RuntimeImageArtifact) (manifestDigest : option string) : result ImageReason unit :=
  match manifestDigest with
  | None => Err DIGEST_MISMATCH
  | Some d => throw DIGEST_MISMATCH when negb (streq (imageDigest a) d) ;; Ok tt
  end.

Definition assertAttestationsCorrespond (a : RuntimeImageArtifact) (runningDigest : string) : result ImageReason unit :=
  throw DIGEST_MISMATCH when negb (streq (imageDigest a) runningDigest) ;; Ok tt.

(** *** What is promoted *)

(** A human accepted the finding, and the acceptance that counts has not run out. *)
Definition acceptedFor (p : ImagePolicy) (nowMs : Z) (f : Finding) : Prop :=
  exists k, acceptance p (v_id f) = Some k /\ nowMs < k_expiresAtMs k.

(** The image may be published: the properties the policy demands, and a scan of this very image that ran
    and whose blocking findings are all accepted. *)
Definition promotable (a : RuntimeImageArtifact) (report : option VulnerabilityReport) (p : ImagePolicy) (nowMs : Z) : Prop :=
  (requireNonRoot p = true -> runsAsRoot a = false) /\
  (requirePinnedBaseDigest p = true -> matches SHA256 (baseImageDigest a) = true) /\
  (requireSbom p = true -> exists d, sbomDigest a = Some d /\ d <> "") /\
  (requireProvenance p = true -> exists d, provenanceDigest a = Some d /\ d <> "") /\
  exists r, report = Some r /\ ran r = true /\ r_imageDigest r = imageDigest a /\
    forall f, f ∈ findings r -> severity f ∈ blockOn p -> acceptedFor p nowMs f.

Lemma acceptance_in p id k : acceptance p id = Some k -> k ∈ acceptedRisks p /\ k_id k = id.
Proof.
  intros [H1 H2]%List.find_some. apply streq_true in H2. split; [|done].
  by apply list_elem_of_In, in_rev.
Qed.

Lemma unaccepted_ok p nowMs l : unaccepted p nowMs l = Ok [] <-> forall f, f ∈ l -> acceptedFor p nowMs f.
Proof.
  unfold acceptedFor. induction l as [|f l IH]; simpl; [split; [by intros _ f ?%not_elem_of_nil|done]|].
  setoid_rewrite elem_of_cons. destruct (acceptance p (v_id f)) as [k|] eqn:E.
  - rewrite throw_ok, IH, Z.leb_gt. split; [intros [? ?] g [-> | ?]; eauto|].
    intros H. split; [|auto]. destruct (H f) as (k' & Hk & ?); [by left|]. congruence.
  - split; [by intros (r & _ & [=])%rbind_ok|]. intros H. destruct (H f) as (k' & Hk & _); [by left|]. congruence.
Qed.

Lemma absent_false o : absent o = false <-> exists d, o = Some d /\ d <> "".
Proof.
  unfold absent. rewrite bool_decide_eq_false. destruct (Reuse.present o) as [d|] eqn:E.
  - apply Reuse.present_some in E. naive_solver.
  - split; [done|]. intros (d & Hd). by rewrite (proj2 (Reuse.present_some o d) Hd) in E.
Qed.

Lemma guarded (b c : bool) : b && c = false <-> (b = true -> c = false).
Proof. destruct b, c; naive_solver. Qed.

Lemma assertPromotable_ok a report p nowMs : assertPromotable a report p nowMs = Ok tt <-> promotable a report p nowMs.
Proof.
  unfold assertPromotable, promotable. rewrite !throw_ok, !guarded, !absent_false, negb_false_iff.
  destruct report as [r|]; [|naive_solver]. rewrite !throw_ok, !negb_false_iff, streq_true, rbind_ok.
  setoid_rewrite throw_ok.
  assert (Hu : (exists o, unaccepted p nowMs (blocking p r) = Ok o /\ Manifest.nonempty o = false /\ Ok (E := ImageReason) tt = Ok tt) <->
    forall f, f ∈ findings r -> severity f ∈ blockOn p -> acceptedFor p nowMs f).
  { transitivity (unaccepted p nowMs (blocking p r) = Ok []).
    - split; [intros (o & -> & H & _); by destruct o|]. intros ->. by exists [].
    - rewrite unaccepted_ok. unfold blocking. setoid_rewrite list_elem_of_In at 1. setoid_rewrite filter_In.
      setoid_rewrite <- list_elem_of_In. setoid_rewrite includes_true. naive_solver. }
  rewrite Hu. naive_solver.
Qed.

(** An image is promoted exactly when it is what the policy demands and a scan that ran, of this very
    digest, left no blocking finding without an unexpired acceptance; no report, or one that did not run,
    is never a clean scan.  And when the later gates pass too, the image that was scanned, the one the
    manifest pins and the one that runs are the same. *)
Theorem promotable_iff (a : RuntimeImageArtifact) (report : option VulnerabilityReport) (p : ImagePolicy) (nowMs : Z)
    (pinned : option string) (running : string) :
  (assertPromotable a report p nowMs = Ok tt <-> promotable a report p nowMs) /\
  ((report = None \/ exists r, report = Some r /\ ran r = false) -> assertPromotable a report p nowMs <> Ok tt) /\
  (assertDigestMatchesManifest a pinned = Ok tt /\ assertAttestationsCorrespond a running = Ok tt <->
     pinned = Some (imageDigest a) /\ running = imageDigest a).
Proof.
  split; [apply assertPromotable_ok|]. split.
  - intros H (_ & _ & _ & _ & r & -> & Hr & _)%assertPromotable_ok. destruct H as [|(r' & [= <-] & ?)]; congruence.
  - unfold assertDigestMatchesManifest, assertAttestationsCorrespond. destruct pinned as [d|]; [|naive_solver].
    rewrite !throw_ok, !negb_false_iff, !streq_true. naive_solver.
Qed.

End Image.

Module Recovery.
Import Secrets DeployApproval.Digest.

Section seal.
Context (sha256Hex : string -> string).

Inductive SealError := SecretPresent (hits : list Scanner.RedactionHit) | NotHashable (e : HashError).

(** The receipt is the document itself: a value, sealed with its digest once the scan passed. *)
Definition sealReceipt (receipt : jsv) : result SealError (jsv * string) :=
  match assertNoSecrets receipt "deployment receipt" with
  | Err hits => Err (SecretPresent hits)
  | Ok _ =>
      match digestOf sha256Hex receipt with
      | Err e => Err (NotHashable e)
      | Ok d => Ok (receipt, d)
      end
  end.

(** A sealed receipt holds no secret, is the receipt that was given, and its digest is that of its
    content: two receipts sealed with one digest have the same canonical content, whatever the order of
    their properties, or two texts collide under SHA-256.  A receipt that holds a secret is never sealed. *)
Theorem sealReceipt_spec (r r' s s' : jsv) (d : string) :
  (sealReceipt r = Ok (s, d) <-> s = r /\ holdsNoSecret r "deployment receipt" /\ digestOf sha256Hex r = Ok d) /\
  (sealReceipt r = Ok (s, d) -> sealReceipt r' = Ok (s', d) -> Json.same keptKey s s' \/ collides sha256Hex).
Proof.
  assert (Hs : forall r s d, sealReceipt r = Ok (s, d) <->
    s = r /\ holdsNoSecret r "deployment receipt" /\ digestOf sha256Hex r = Ok d).
  { intros x y e. unfold sealReceipt. rewrite <- assertNoSecrets_ok.
    destruct (assertNoSecrets x "deployment receipt") as [[]|]; [|naive_solver].
    destruct (digestOf sha256Hex x); naive_solver. }
  split; [apply Hs|]. intros (-> & _ & H)%Hs (-> & _ & H')%Hs. by apply (digestOf_same sha256Hex r r' d).
Qed.

End seal.

Record Created := { c_name : string; c_address : string; c_chainId : Z }.
Record UnknownTransaction := { stepId : string; from : string; nonce : Z; detail : string }.
Record Irreversible := { what : string; where_ : string }.
Record Decision := { d_what : string; why : string; options : list string }.

Record RecoveryPlan := {
  deploymentId : string;
  irreversiblyCreated : list Irreversible;
  safelyRepeatable : list string;
  requiresHumanDecision : list Decision;
  resumable : bool
}.

Record RecoveryArgs := {
  a_deploymentId : string;
  a_created : list Created;
  unknownTransactions : list UnknownTransaction;
  configuredSteps : list string;
  crePublished : bool;
  imagePublished : bool
}.

Definition createdContract (c : Created) : Irreversible :=
  {| what := c_name c; where_ := c_address c +:+ " on chain " +:+ pretty (c_chainId c) |}.

Definition decisionFor (t : UnknownTransaction) : Decision :=
  {| d_what := "step " +:+ String dquote (stepId t +:+ String dquote EmptyString); why := detail t;
     options := ["Look up nonce " +:+ pretty (nonce t) +:+ " on " +:+ from t +:+
                   " in a block explorer and identify what was mined.";
                 "If it was this step's transaction and it succeeded, mark the step verified from its receipt and resume.";
                 "If it was this step's transaction and it reverted, resume; the step will be re-run against a nonce that is now free.";
                 "Do NOT resubmit before answering this. A duplicate send here is a second deployment or a replaced transaction."] |}.

Definition buildRecoveryPlan (args : RecoveryArgs) : RecoveryPlan :=
  let decisions := map decisionFor (unknownTransactions args) in
  {| deploymentId := a_deploymentId args;
     irreversiblyCreated := map createdContract (a_created args) ++
       (if crePublished args
        then [{| what := "CRE workflow registration"; where_ := "the private registry" |}] else []) ++
       (if imagePublished args
        then [{| what := "runtime image"; where_ := "the image registry, by digest" |}] else []);
     safelyRepeatable := configuredSteps args;
     requiresHumanDecision := decisions;
     resumable := (length decisions =? 0)%nat |}.

(** A deployment may be resumed only when no transaction is of unknown fate; everything that was created
    is in the inventory, and each unknown transaction is a decision of its own. *)
Lemma recovery_complete (args : RecoveryArgs) :
  (resumable (buildRecoveryPlan args) = true <-> unknownTransactions args = []) /\
  (forall c, c ∈ a_created args -> createdContract c ∈ irreversiblyCreated (buildRecoveryPlan args)) /\
  (forall t, t ∈ unknownTransactions args -> decisionFor t ∈ requiresHumanDecision (buildRecoveryPlan args)).
Proof.
  unfold buildRecoveryPlan. cbn [resumable irreversiblyCreated requiresHumanDecision]. split_and!.
  - rewrite Nat.eqb_eq, length_map. by destruct (unknownTransactions args).
  - intros c Hc. apply elem_of_app. left. by apply list_elem_of_fmap_2.
  - intros t Ht. by apply list_elem_of_fmap_2.
Qed.

End Recovery.

Module Samples.
Import Environment DeployApproval.Manifest Verify.

Definition coreAddress : string := "0x00000000000000000000000000000000000000aa".
Definition coreHash : string := "0x0000000000000000000000000000000000000000000000000000000000000011".

Definition manifest : DeploymentManifest :=
  {| schemaVersion := DEPLOYMENT_MANIFEST_VERSION; manifestId := "m1"; projectId := "proj"; buildId := "build-1";
     blueprintRevision := 3; buildRevision := 7;
     strategyHash := "sha256:0000000000000000000000000000000000000000000000000000000000000001";
     organizationHash := None; gitCommit := "abc1234"; environment := testnetEnvironment [ETHEREUM_SEPOLIA];
     contracts := [{| Reuse.name := "core"; Reuse.chainId := 11155111; Reuse.disposition := Reuse.REUSE_VERIFIED;
                      Reuse.address := Some coreAddress; Reuse.runtimeCodeHash := Some coreHash;
                      Reuse.creationCodeHash := None; Reuse.compiler := None |}];
     ens := [];
     creWorkflows := []; runtimeImages := [];
     adapters := [{| adapterId := "oracle"; version := "1.0.0";
                     artifactHash := "sha256:0000000000000000000000000000000000000000000000000000000000000002" |}];
     authorizationModel := SINGLE_EOA; requiredSigners := []; requiredBalances := []; policyInitialState := "DISABLED";
     runtimeInitialState := "INACTIVE"; creInitialState := "PAUSED"; generatedAt := "2026-01-01" |}.

Definition node : Reader.ChainReader :=
  {| Reader.chainId := 11155111; Reader.live := true; Reader.getChainId := Ok 11155111;
     Reader.getCode := fun a => Ok (if streq a coreAddress then Some "0x6001" else None); Reader.getBlockNumber := Ok 100;
     Reader.estimateGas := fun _ => Ok 21000;
     Reader.estimateFeesPerGas := Ok {| Reader.maxFeePerGas := Some 7; Reader.maxPriorityFeePerGas := Some 1;
                                        Reader.gasPrice := None |};
     Reader.call := fun _ => Ok "0x" |}.

Definition answers (policyOn : bool) (admins : list string) : VerificationInput :=
  {| Verify.manifest := manifest; readers := fun cid => if cid =? 11155111 then Some node else None;
     createdAddresses := ∅; readPolicyEnabled := fun _ _ _ => Ok policyOn;
     readAdministrators := fun _ _ => Ok admins; resolveEnsBinding := fun _ _ => Ok None;
     readCreWorkflow := fun _ => Ok None; readRuntimeImageDigest := fun _ => Ok None;
     readAdapterVersions := Ok {["oracle" := "1.0.0"]};
     expectedAdministrators := {["0xad"]}; policyIds := [("core", "0x01")] |}.

Definition hashes (_ : string) : string := coreHash.

Lemma verified_iff_witness :
  match verifyDeployment hashes (answers false ["0xAD"]) with
  | Ok checks => assertVerified checks = Ok tt /\ Verified hashes (answers false ["0xAD"])
  | Err _ => False
  end.
Proof.
  destruct (verifyDeployment hashes (answers false ["0xAD"])) as [checks|e] eqn:E; [|vm_compute in E; discriminate].
  assert (Hc : assertVerified checks = Ok tt) by (vm_compute in E; injection E as <-; reflexivity).
  split; [exact Hc|].
  apply (verified_iff hashes (answers false ["0xAD"]) (fun _ => true) checks); [vm_compute; reflexivity|exact E|exact Hc].
Defined.

(** An administrator nobody expected and a policy that is on are two failed checks. *)
Example unexpected_found :
  match verifyDeployment hashes (answers true ["0xAD"; "0xEE"]) with
  | Ok checks => map reason (failures checks) = [Some POLICY_ENABLED; Some UNEXPECTED_ADMIN]
  | Err _ => False
  end.
Proof. vm_compute. reflexivity. Qed.

End Samples.
