(* ===== verification/Alerts.v ===== *)
(** * The control plane: what the chain says, drift, finality, alerts

    [packages/studio-control-plane/src].  [Chain] is [chain.ts]: observations that are read from the chain
    and nowhere else, the comparison of a deployment record with what was read, the life of a transaction
    under reorganisations, the scan cursor.  [Alert] is [alerts.ts]: the engine that makes one alert of one
    problem and keeps security drift open until a person explains it.

    What the node answers is an input, a [result] with its error message; message texts are left out, and
    so is the order of the list of open alerts, whose comparison is not transitive. *)

From S2P Require Import Prelude Regex Json Scanner Deploy Adapters DeployPlan Control.
From stdpp Require Import pretty sorting.
From Stdlib Require Import Ascii.
Local Open Scope Z_scope.

Module Chain.
Import Freshness.

Record PolicyState := {
  registry : string;
  agentIdentityHash : string;
  policyHash : string;
  enabled : bool;
  maxValueHardCap : string;
  bindingVersion : string;
  policyAdmin : string;
  p_blockNumber : string
}.

Record IdentityState := {
  i_name : string;
  node : string;
  resolver : string;
  boundAgent : option string;
  revoked : bool;
  i_blockNumber : string
}.

Record ContractState := {
  c_name : string;
  address : string;
  runtimeCodeHash : string;
  hasCode : bool;
  c_blockNumber : string
}.

(** What a policy registry and an identity resolver answer. *)
Record PolicyAnswer := { a_enabled : bool; cap : Z; a_bindingVersion : Z; admin : string }.
Record IdentityAnswer := { a_boundAgent : option string; a_revoked : bool; a_resolver : string }.

Record ChainQueries := {
  readPolicy : string -> string -> string -> result string PolicyAnswer;
  resolveIdentity : string -> result string IdentityAnswer;
  q_readAdministrators : string -> result string (list string)
}.

Record Ttls := { t_policy : option Z; t_identity : option Z; t_chain : option Z }.

(** [nowMs] is the clock when the read returned. *)
Record ChainObserver := { reader : Reader.ChainReader; queries : ChainQueries; nowMs : Z; ttls : Ttls }.

Definition ttlOf (k : string) (o : option Z) : Z := default (default 0 (getKey k DEFAULT_TTLS)) o.
Definition sourceOf (d : ChainObserver) : string := "chain:" +:+ pretty (Reader.chainId (reader d)).

(** [try { ...; return observed(v, ...) } catch (e) { return unavailable("FAILED", ...) }]. *)
Definition attempt {T : Type} (d : ChainObserver) (ttl : Z) (m : result string T) : Observation T :=
  match m with
  | Ok v => observed v (nowMs d) (sourceOf d) ttl None None
  | Err e => unavailable FAILED (nowMs d) (sourceOf d) ttl e
  end.

Definition readPolicyState (d : ChainObserver) (registry_ agentIdentityHash_ policyHash_ : string) : Observation PolicyState :=
  attempt d (ttlOf "policy" (t_policy (ttls d)))
    (let* block := Reader.getBlockNumber (reader d) in
     let* p := readPolicy (queries d) registry_ agentIdentityHash_ policyHash_ in
     Ok {| registry := registry_; agentIdentityHash := agentIdentityHash_; policyHash := policyHash_;
           enabled := a_enabled p; maxValueHardCap := pretty (cap p); bindingVersion := pretty (a_bindingVersion p);
           policyAdmin := admin p; p_blockNumber := pretty block |}).

Definition readIdentityState (d : ChainObserver) (name_ node_ : string) : Observation IdentityState :=
  attempt d (ttlOf "identity" (t_identity (ttls d)))
    (let* block := Reader.getBlockNumber (reader d) in
     let* r := resolveIdentity (queries d) node_ in
     Ok {| i_name := name_; node := node_; resolver := a_resolver r; boundAgent := a_boundAgent r;
           revoked := a_revoked r; i_blockNumber := pretty block |}).

Section contracts.
Context (keccak256 : string -> string).

Definition readContractState (d : ChainObserver) (name_ address_ : string) : Observation ContractState :=
  let ttl := ttlOf "chain" (t_chain (ttls d)) in
  match (let* block := Reader.getBlockNumber (reader d) in
         let* code := Reader.getCode (reader d) address_ in Ok (block, code)) with
  | Ok (block, code) =>
      let has := negb (Reader.noCode code) in
      observed {| c_name := name_; address := address_; runtimeCodeHash := Reader.codeHash keccak256 code; hasCode := has;
                  c_blockNumber := pretty block |} (nowMs d) (sourceOf d) ttl
        (if has then None else Some DEGRADED) (if has then None else Some "no code")
  | Err e => unavailable FAILED (nowMs d) (sourceOf d) ttl e
  end.

End contracts.

Definition readAdministrators (d : ChainObserver) (contract : string) : Observation (list string) :=
  attempt d (ttlOf "chain" (t_chain (ttls d)))
    (let* admins := q_readAdministrators (queries d) contract in Ok (map to_lower admins)).

(** *** Drift *)

Inductive DriftKind :=
| POLICY_ENABLED_UNEXPECTEDLY | POLICY_DISABLED_UNEXPECTEDLY | POLICY_ADMIN_CHANGED | ADMIN_CHANGED | BYTECODE_DRIFT
| IDENTITY_CHANGED | IDENTITY_REVOKED_UNEXPECTEDLY | RUNTIME_IMAGE_DRIFT | BINDING_VERSION_CHANGED | CONTRACT_MISSING.
#[export] Instance DriftKind_eq_dec : EqDecision DriftKind.
Proof. solve_decision. Defined.

Definition CRITICAL_DRIFT : list DriftKind :=
  [POLICY_ENABLED_UNEXPECTEDLY; POLICY_ADMIN_CHANGED; ADMIN_CHANGED; BYTECODE_DRIFT; IDENTITY_CHANGED;
   RUNTIME_IMAGE_DRIFT; CONTRACT_MISSING].

Inductive DriftSeverity := D_WARNING | D_CRITICAL.

Record Drift := {
  kind : DriftKind;
  d_severity : DriftSeverity;
  d_subject : string;
  expected : string;
  d_observed : string;
  d_observedAtMs : Z;
  d_blockNumber : option string;
  d_requiresReconciliation : bool
}.

Definition drift (k : DriftKind) (subject_ expected_ obs : string) (atMs : Z) (block : option string) : Drift :=
  {| kind := k; d_severity := if includes CRITICAL_DRIFT k then D_CRITICAL else D_WARNING; d_subject := subject_;
     expected := expected_; d_observed := obs; d_observedAtMs := atMs; d_blockNumber := block;
     d_requiresReconciliation := includes CRITICAL_DRIFT k |}.

Record ExpectedContract := { x_name : string; x_address : string; x_runtimeCodeHash : string }.

Record ExpectedState := {
  policyEnabled : bool;
  x_policyAdmin : string;
  x_bindingVersion : option string;
  x_contracts : list ExpectedContract;
  administrators : list string;
  identity : option (string * string);          (* node, bound agent *)
  runtimeImageDigest : option string
}.

Record ObservedState := {
  o_policy : Observation PolicyState;
  o_identity : option (Observation IdentityState);
  o_contracts : list (Observation ContractState);
  o_administrators : option (Observation (list string));
  o_runtimeImageDigest : option string
}.

Definition policyDrift (x : ExpectedState) (p : PolicyState) (now : Z) : list Drift :=
  let block := Some (p_blockNumber p) in
  (if Bool.eqb (enabled p) (policyEnabled x) then []
   else [if enabled p
         then drift POLICY_ENABLED_UNEXPECTEDLY ("policy " +:+ policyHash p) "disabled" "ENABLED" now block
         else drift POLICY_DISABLED_UNEXPECTEDLY ("policy " +:+ policyHash p) "enabled" "disabled" now block]) ++
  (if eq_ci (policyAdmin p) (x_policyAdmin x) then []
   else [drift POLICY_ADMIN_CHANGED ("policy admin for " +:+ agentIdentityHash p) (to_lower (x_policyAdmin x))
           (to_lower (policyAdmin p)) now block]) ++
  match x_bindingVersion x with
  | Some v =>
      if streq (bindingVersion p) v then []
      else [drift BINDING_VERSION_CHANGED ("binding version for " +:+ agentIdentityHash p) v (bindingVersion p) now block]
  | None => []
  end.

Definition contractDrift (x : ExpectedState) (now : Z) (o : Observation ContractState) : list Drift :=
  match value o with
  | None => []
  | Some c =>
      match List.find (fun w => eq_ci (x_address w) (address c)) (x_contracts x) with
      | None => []
      | Some want =>
          if negb (hasCode c)
          then [drift CONTRACT_MISSING (x_name want) "code present" "no code" now (Some (c_blockNumber c))]
          else if eq_ci (runtimeCodeHash c) (x_runtimeCodeHash want) then []
          else [drift BYTECODE_DRIFT (x_name want) (x_runtimeCodeHash want) (runtimeCodeHash c) now (Some (c_blockNumber c))]
      end
  end.

(** [new Set(l)], in the order the elements were first added. *)
Definition toSet (l : list string) : list string :=
  foldl (fun s a => if includes s a then s else s ++ [a]) [] l.

Definition adminDrift (x : ExpectedState) (o : ObservedState) (block : option string) (now : Z) : list Drift :=
  match o_administrators o ≫= value with
  | None => []
  | Some admins =>
      let want := toSet (map to_lower (administrators x)) in
      match List.filter (fun a => negb (includes want a)) admins with
      | [] => []
      | _ =>
          let names := Environment.join ", " (merge_sort str_le want) in
          [drift ADMIN_CHANGED "administrative roles" (if streq names "" then "(none)" else names)
             (Environment.join ", " (merge_sort str_le admins)) now block]
      end
  end.

Definition identityDrift (x : ExpectedState) (o : ObservedState) (now : Z) : list Drift :=
  match identity x, o_identity o ≫= value with
  | Some want, Some i =>
      if revoked i
      then [drift IDENTITY_REVOKED_UNEXPECTEDLY (i_name i) want.2 "revoked" now (Some (i_blockNumber i))]
      else if eq_ci (default "" (boundAgent i)) want.2 then []
      else [drift IDENTITY_CHANGED (i_name i) (to_lower want.2) (to_lower (default "(unbound)" (boundAgent i))) now
              (Some (i_blockNumber i))]
  | _, _ => []
  end.

Definition imageDrift (x : ExpectedState) (o : ObservedState) (now : Z) : list Drift :=
  match Reuse.present (runtimeImageDigest x), Reuse.present (o_runtimeImageDigest o) with
  | Some want, Some got =>
      if streq want got then [] else [drift RUNTIME_IMAGE_DRIFT "runtime image" want got now None]
  | _, _ => []
  end.

Definition reconcile (x : ExpectedState) (o : ObservedState) (now : Z) : list Drift :=
  let block := p_blockNumber <$> value (o_policy o) in
  match value (o_policy o) with Some p => policyDrift x p now | None => [] end ++
  flat_map (contractDrift x now) (o_contracts o) ++
  adminDrift x o block now ++ identityDrift x o now ++ imageDrift x o now.

(** *** What is shown of the policy *)

(** The policy indicator comes from the chain.  What is shown as current of an observed policy is the
    flag the registry answered, read no longer ago than the time to live; and when the node or the registry
    did not answer, no value is shown at all, current or not, so a failed read is never taken for a
    disabled policy. *)
Theorem policy_indicator_honest (d : ChainObserver) (reg ident hash : string) (now : Z) :
  let o := readPolicyState d reg ident hash in
  let ttl := ttlOf "policy" (t_policy (ttls d)) in
  (forall s, isCurrent (presentable o now) = true -> value (shown (presentable o now)) = Some s ->
     exists p, readPolicy (queries d) reg ident hash = Ok p /\ enabled s = a_enabled p /\ now - nowMs d <= ttl) /\
  (isCurrent (presentable o now) = true -> exists s, value (shown (presentable o now)) = Some s) /\
  ((exists e, Reader.getBlockNumber (reader d) = Err e \/ readPolicy (queries d) reg ident hash = Err e) ->
     state o = FAILED /\ value (shown (presentable o now)) = None /\ isCurrent (presentable o now) = false).
Proof.
  unfold readPolicyState, attempt, presentable, isExpired, observed, unavailable.
  destruct (Reader.getBlockNumber (reader d)) as [b|e]; [destruct (readPolicy (queries d) reg ident hash) as [p|e]|];
    cbn [rbind state value observedAtMs ttlMs]; cycle 1.
  1,2: rewrite !andb_false_r; cbn; rewrite ?andb_false_r; naive_solver.
  destruct (ttlOf "policy" (t_policy (ttls d)) <? now - nowMs d) eqn:E; cbn; [naive_solver|].
  apply Z.ltb_ge in E. split_and!; [|naive_solver..]. intros s _ [= <-]. by exists p.
Qed.

(** *** What drift means *)

Definition drifted (x : ExpectedState) (o : ObservedState) (k : DriftKind) : Prop :=
  match k with
  | POLICY_ENABLED_UNEXPECTEDLY =>
      exists p, value (o_policy o) = Some p /\ enabled p = true /\ policyEnabled x = false
  | POLICY_DISABLED_UNEXPECTEDLY =>
      exists p, value (o_policy o) = Some p /\ enabled p = false /\ policyEnabled x = true
  | POLICY_ADMIN_CHANGED =>
      exists p, value (o_policy o) = Some p /\ to_lower (policyAdmin p) <> to_lower (x_policyAdmin x)
  | BINDING_VERSION_CHANGED =>
      exists p v, value (o_policy o) = Some p /\ x_bindingVersion x = Some v /\ bindingVersion p <> v
  | ADMIN_CHANGED =>
      exists l a, o_administrators o ≫= value = Some l /\ a ∈ l /\ a ∉ map to_lower (administrators x)
  | CONTRACT_MISSING =>
      exists ob c w, ob ∈ o_contracts o /\ value ob = Some c /\
        List.find (fun w => eq_ci (x_address w) (address c)) (x_contracts x) = Some w /\ hasCode c = false
  | BYTECODE_DRIFT =>
      exists ob c w, ob ∈ o_contracts o /\ value ob = Some c /\
        List.find (fun w => eq_ci (x_address w) (address c)) (x_contracts x) = Some w /\ hasCode c = true /\
        to_lower (runtimeCodeHash c) <> to_lower (x_runtimeCodeHash w)
  | IDENTITY_REVOKED_UNEXPECTEDLY =>
      exists want i, identity x = Some want /\ o_identity o ≫= value = Some i /\ revoked i = true
  | IDENTITY_CHANGED =>
      exists want i, identity x = Some want /\ o_identity o ≫= value = Some i /\ revoked i = false /\
        to_lower (default "" (boundAgent i)) <> to_lower want.2
  | RUNTIME_IMAGE_DRIFT =>
      exists want got, runtimeImageDigest x = Some want /\ o_runtimeImageDigest o = Some got /\ want <> "" /\ got <> "" /\
        want <> got
  end.

Definition found (k : DriftKind) (l : list Drift) : Prop := k ∈ map kind l.

Lemma found_app k l l' : found k (l ++ l') <-> found k l \/ found k l'.
Proof. unfold found. by rewrite map_app, elem_of_app. Qed.
Lemma found_nil k : found k [] <-> False.
Proof. split; [by intros ?%not_elem_of_nil|done]. Qed.
Lemma found_one k d : found k [d] <-> k = kind d.
Proof. unfold found. cbn. by rewrite list_elem_of_singleton. Qed.

Lemma found_flat_map {A : Type} k (f : A -> list Drift) (l : list A) :
  found k (flat_map f l) <-> exists a, a ∈ l /\ found k (f a).
Proof.
  induction l as [|a l IH]; simpl.
  { rewrite found_nil. split; [done|]. by intros (a & ?%not_elem_of_nil & _). }
  rewrite found_app, IH. setoid_rewrite elem_of_cons. naive_solver.
Qed.

Lemma eq_ci_false a b : eq_ci a b = false <-> to_lower a <> to_lower b.
Proof. apply streq_false. Qed.

Ltac drift_cases :=
  repeat match goal with
  | |- context [if ?b then _ else _] => let E := fresh "E" in destruct b eqn:E
  end;
  rewrite ?found_app, ?found_one, ?found_nil; cbn [kind drift];
  repeat match goal with
  | H : eq_ci _ _ = true |- _ => apply eq_ci_true in H
  | H : eq_ci _ _ = false |- _ => apply eq_ci_false in H
  | H : streq _ _ = true |- _ => apply streq_true in H
  | H : streq _ _ = false |- _ => apply streq_false in H
  | H : Bool.eqb _ _ = true |- _ => apply Bool.eqb_prop in H
  | H : Bool.eqb _ _ = false |- _ => apply Bool.eqb_false_iff in H
  | H : negb _ = true |- _ => apply negb_true_iff in H
  | H : negb _ = false |- _ => apply negb_false_iff in H
  end.

Lemma policyDrift_found x p now k : found k (policyDrift x p now) <->
  (k = POLICY_ENABLED_UNEXPECTEDLY /\ enabled p = true /\ policyEnabled x = false) \/
  (k = POLICY_DISABLED_UNEXPECTEDLY /\ enabled p = false /\ policyEnabled x = true) \/
  (k = POLICY_ADMIN_CHANGED /\ to_lower (policyAdmin p) <> to_lower (x_policyAdmin x)) \/
  (k = BINDING_VERSION_CHANGED /\ exists v, x_bindingVersion x = Some v /\ bindingVersion p <> v).
Proof.
  unfold policyDrift. destruct (enabled p), (policyEnabled x), (x_bindingVersion x) as [v|]; cbn [Bool.eqb];
    drift_cases; naive_solver.
Qed.

Lemma contractDrift_found x now o k : found k (contractDrift x now o) <->
  exists c w, value o = Some c /\ List.find (fun w => eq_ci (x_address w) (address c)) (x_contracts x) = Some w /\
    ((k = CONTRACT_MISSING /\ hasCode c = false) \/
     (k = BYTECODE_DRIFT /\ hasCode c = true /\ to_lower (runtimeCodeHash c) <> to_lower (x_runtimeCodeHash w))).
Proof.
  unfold contractDrift. destruct (value o) as [c|]; [|rewrite found_nil; naive_solver].
  destruct (List.find _ _) as [w|] eqn:Ef; [|rewrite found_nil; naive_solver].
  destruct (hasCode c) eqn:Eh; cbn [negb]; drift_cases.
  all: split; [|intros (c' & w' & [= <-] & Hw & H); rewrite Ef in Hw; injection Hw as <-; rewrite ?Eh in H].
  all: try (destruct H as [[? ?]|(? & ? & ?)]; congruence).
  - done.
  - intros ->. exists c, w. split_and!; [done..|]. right. by split_and!.
  - intros ->. exists c, w. split_and!; [done..|]. left. by split_and!.
Qed.

Lemma toSet_in l a : a ∈ toSet l <-> a ∈ l.
Proof.
  unfold toSet. enough (forall s, a ∈ foldl (fun s a => if includes s a then s else s ++ [a]) s l <-> a ∈ s \/ a ∈ l) as H.
  { rewrite H, elem_of_nil. tauto. }
  induction l as [|b l IH]; intros s; simpl.
  { rewrite elem_of_nil. tauto. }
  rewrite IH, elem_of_cons. destruct (includes s b) eqn:E.
  - apply includes_true in E. naive_solver.
  - rewrite elem_of_app, list_elem_of_singleton. tauto.
Qed.

Lemma adminDrift_found x o b now k : found k (adminDrift x o b now) <->
  k = ADMIN_CHANGED /\ exists l a, o_administrators o ≫= value = Some l /\ a ∈ l /\ a ∉ map to_lower (administrators x).
Proof.
  unfold adminDrift. destruct (o_administrators o ≫= value) as [l|]; [|rewrite found_nil; naive_solver].
  set (f := fun a => negb (includes (toSet (map to_lower (administrators x))) a)).
  assert (Hf : forall a, a ∈ List.filter f l <-> a ∈ l /\ a ∉ map to_lower (administrators x)).
  { intros a. rewrite list_elem_of_In, filter_In, <- list_elem_of_In. unfold f.
    by rewrite negb_true_iff, includes_false, toSet_in. }
  destruct (List.filter f l) as [|a r] eqn:E.
  - rewrite found_nil. split; [done|]. intros (_ & l' & a & [= <-] & Ha). apply Hf in Ha. by apply not_elem_of_nil in Ha.
  - rewrite found_one. cbn [kind drift]. split; [|naive_solver]. intros ->. split; [done|]. exists l, a.
    split; [done|]. apply Hf. left.
Qed.

Lemma identityDrift_found x o now k : found k (identityDrift x o now) <->
  exists want i, identity x = Some want /\ o_identity o ≫= value = Some i /\
    ((k = IDENTITY_REVOKED_UNEXPECTEDLY /\ revoked i = true) \/
     (k = IDENTITY_CHANGED /\ revoked i = false /\ to_lower (default "" (boundAgent i)) <> to_lower want.2)).
Proof.
  unfold identityDrift. destruct (identity x) as [w|]; [|rewrite found_nil; naive_solver].
  destruct (o_identity o ≫= value) as [i|]; [|rewrite found_nil; naive_solver].
  destruct (revoked i) eqn:Er; drift_cases.
  all: split; [|intros (w' & i' & [= <-] & [= <-] & H); rewrite Er in H].
  all: try (destruct H as [[? ?]|(? & ? & ?)]; congruence).
  - intros ->. exists w, i. split_and!; [done..|]. left. by split_and!.
  - done.
  - intros ->. exists w, i. split_and!; [done..|]. right. by split_and!.
Qed.

Lemma imageDrift_found x o now k : found k (imageDrift x o now) <-> k = RUNTIME_IMAGE_DRIFT /\ drifted x o k.
Proof.
  unfold imageDrift. destruct (Reuse.present (runtimeImageDigest x)) as [w|] eqn:E1.
  - apply Reuse.present_some in E1. destruct (Reuse.present (o_runtimeImageDigest o)) as [g|] eqn:E2.
    + apply Reuse.present_some in E2. destruct E1 as [E1 Hw], E2 as [E2 Hg]. drift_cases; split; [done| |intros ->|by intros [-> _]].
      * intros [-> (a & b & Ha & Hb & _ & _ & Hne)]. congruence.
      * split; [done|]. by exists w, g.
    + rewrite found_nil. split; [done|]. intros [-> (a & b & _ & Hb & _ & Hn & _)].
      by rewrite (proj2 (Reuse.present_some _ b) (conj Hb Hn)) in E2.
  - rewrite found_nil. split; [done|]. intros [-> (a & b & Ha & _ & Hn & _ & _)].
    by rewrite (proj2 (Reuse.present_some _ a) (conj Ha Hn)) in E1.
Qed.

(** Reconciliation reports every difference it was shown and nothing else.  A drift of a kind is in
    the list exactly when the chain, as read, differs from the deployment record in that respect; a kind is
    marked critical and in need of a person exactly when it is in the list of critical kinds; and an
    observation that failed gives no drift. *)
Theorem reconcile_spec (x : ExpectedState) (o : ObservedState) (now : Z) :
  (forall k, found k (reconcile x o now) <-> drifted x o k) /\
  (forall k s e b at_ blk, d_requiresReconciliation (drift k s e b at_ blk) = true <-> k ∈ CRITICAL_DRIFT) /\
  (value (o_policy o) = None -> (forall c, c ∈ o_contracts o -> value c = None) -> o_administrators o ≫= value = None ->
   o_identity o ≫= value = None -> o_runtimeImageDigest o = None -> reconcile x o now = []).
Proof.
  split_and!.
  - intros k. unfold reconcile. rewrite !found_app, found_flat_map, adminDrift_found, identityDrift_found, imageDrift_found.
    setoid_rewrite contractDrift_found.
    assert (Hp : found k (match value (o_policy o) with Some p => policyDrift x p now | None => [] end) <->
      exists p, value (o_policy o) = Some p /\ found k (policyDrift x p now)).
    { destruct (value (o_policy o)); [|rewrite found_nil]; naive_solver. }
    rewrite Hp. setoid_rewrite policyDrift_found. clear Hp.
    destruct k; cbn [drifted]; (split; [intros H; decompose [ex and or] H; try congruence; eauto 20|]);
      intros H; decompose [ex and or] H; eauto 20.
  - intros. cbn. apply includes_true.
  - intros Hp Hc Ha Hi Hd. unfold reconcile, adminDrift, identityDrift, imageDrift. rewrite Hp, Ha, Hi, Hd.
    replace (flat_map (contractDrift x now) (o_contracts o)) with (@nil Drift).
    + cbn [app]. destruct (identity x); [|by destruct (Reuse.present (runtimeImageDigest x))].
      by destruct (Reuse.present (runtimeImageDigest x)).
    + induction (o_contracts o) as [|c l IH]; [done|]. cbn. unfold contractDrift at 1. rewrite (Hc c) by left.
      cbn. apply IH. intros c' Hin. apply Hc. by right.
Qed.

(** *** Finality *)

Inductive TxLifecycle := SUBMITTED | MINED | CONFIRMING | FINALIZED | REORGED | REVERTED.
#[export] Instance TxLifecycle_eq_dec : EqDecision TxLifecycle.
Proof. solve_decision. Defined.

Record TrackedTransaction := {
  txHash : string;
  chainId : Z;
  tx_state : TxLifecycle;
  blockNumber : option string;
  confirmations : Z;
  gasUsed : option string;
  effectiveGasPriceWei : option string;
  actualNativeCostWei : option string;
  correlationId : string;
  reorgedFromBlock : option string
}.

Record FinalityPolicy := { f_confirmations : Z; reorgOverlapBlocks : Z }.
Definition DEFAULT_FINALITY : FinalityPolicy := {| f_confirmations := 12; reorgOverlapBlocks := 32 |}.

Record Receipt := { succeeded : bool; r_blockNumber : Z; r_gasUsed : Z; r_effectiveGasPrice : Z }.

(** A correction event, without its reason text. *)
Record Correction := { from_ : TxLifecycle; to_ : TxLifecycle }.

Definition observedAt (t : TrackedTransaction) (s : TxLifecycle) (r : Receipt) (conf : Z) (reorged : option string)
    : TrackedTransaction :=
  {| txHash := txHash t; chainId := chainId t; tx_state := s; blockNumber := Some (pretty (r_blockNumber r));
     confirmations := conf; gasUsed := Some (pretty (r_gasUsed r));
     effectiveGasPriceWei := Some (pretty (r_effectiveGasPrice r));
     actualNativeCostWei := Some (pretty (r_gasUsed r * r_effectiveGasPrice r)); correlationId := correlationId t;
     reorgedFromBlock := reorged |}.

Definition advanceTransaction (current : TrackedTransaction) (receipt : option Receipt) (headBlock : Z)
    (p : FinalityPolicy) : TrackedTransaction * option Correction :=
  match receipt with
  | None =>
      if includes [MINED; CONFIRMING; FINALIZED] (tx_state current)
      then ({| txHash := txHash current; chainId := chainId current; tx_state := REORGED;
               blockNumber := blockNumber current; confirmations := 0; gasUsed := gasUsed current;
               effectiveGasPriceWei := effectiveGasPriceWei current; actualNativeCostWei := actualNativeCostWei current;
               correlationId := correlationId current; reorgedFromBlock := blockNumber current |},
            Some {| from_ := tx_state current; to_ := REORGED |})
      else (current, None)
  | Some r =>
      let conf := if r_blockNumber r <=? headBlock then headBlock - r_blockNumber r + 1 else 0 in
      if negb (succeeded r) then
        (observedAt current REVERTED r conf (reorgedFromBlock current),
         if bool_decide (tx_state current = REVERTED) then None
         else Some {| from_ := tx_state current; to_ := REVERTED |})
      else
        let moved := match blockNumber current with
                     | Some b => negb (streq b (pretty (r_blockNumber r))) | None => false end in
        let s := if f_confirmations p <=? conf then FINALIZED else CONFIRMING in
        (observedAt current s r conf (if moved then blockNumber current else reorgedFromBlock current),
         if moved then Some {| from_ := tx_state current; to_ := s |}
         else if bool_decide (tx_state current = s) then None
         else Some {| from_ := tx_state current; to_ := s |})
  end.

(** Polls in order: the transaction at the end, and the corrections on the way. *)
Fixpoint advanceAll (t : TrackedTransaction) (polls : list (option Receipt * Z)) (p : FinalityPolicy)
    : TrackedTransaction * list Correction :=
  match polls with
  | [] => (t, [])
  | (r, head) :: polls' =>
      let q := advanceTransaction t r head p in
      let q' := advanceAll q.1 polls' p in
      (q'.1, option_list q.2 ++ q'.2)
  end.

(** The corrections lead from one state to the other, each starting where the previous one ended. *)
Fixpoint leads (s : TxLifecycle) (l : list Correction) (s' : TxLifecycle) : Prop :=
  match l with
  | [] => s = s'
  | c :: l' => from_ c = s /\ leads (to_ c) l' s'
  end.

(** Finalized means confirmed deep enough under the head of some poll. *)
Definition deepEnough (p : FinalityPolicy) (poll : option Receipt * Z) : Prop :=
  exists r, poll.1 = Some r /\ succeeded r = true /\
    f_confirmations p <= (if r_blockNumber r <=? poll.2 then poll.2 - r_blockNumber r + 1 else 0).

Lemma advance_once t r head p : let q := advanceTransaction t r head p in
  txHash q.1 = txHash t /\ chainId q.1 = chainId t /\ correlationId q.1 = correlationId t /\
  leads (tx_state t) (option_list q.2) (tx_state q.1) /\
  (tx_state q.1 = FINALIZED -> deepEnough p (r, head)) /\ tx_state q.1 <> MINED \/ q = (t, None) /\ r = None.
Proof.
  unfold advanceTransaction, deepEnough. destruct r as [r|]; cbv zeta; cycle 1.
  { destruct (includes _ _) eqn:E; [left|by right]. cbn. split_and!; done. }
  left. destruct (succeeded r) eqn:Es; cbn [negb].
  - set (conf := if r_blockNumber r <=? head then _ else _). set (moved := match blockNumber t with Some _ => _ | _ => _ end).
    assert (Hl : forall s, leads (tx_state t) (option_list (if moved then Some {| from_ := tx_state t; to_ := s |}
      else if bool_decide (tx_state t = s) then None else Some {| from_ := tx_state t; to_ := s |})) s).
    { intros s. destruct moved; [done|]. by case_bool_decide. }
    destruct (f_confirmations p <=? conf) eqn:Ec; cbn [fst snd tx_state observedAt txHash chainId correlationId];
      split_and!; try done; try apply Hl. intros _. exists r. apply Z.leb_le in Ec. done.
  - cbn. case_bool_decide; cbn; split_and!; done.
Qed.

Lemma leads_app s l s' l' s'' : leads s l s' -> leads s' l' s'' -> leads s (l ++ l') s''.
Proof. revert s. induction l as [|c l IH]; intros s; simpl; [by intros ->|]. intros [? ?] ?. split; [done|]. by eapply IH. Qed.

(** The economic history of a transaction is never edited silently.  Over any sequence of polls the
    transaction stays the one it is, and the corrections that were emitted lead from its first state to
    its last, each from where the one before ended; it ends FINALIZED only if it was, or if in some poll a
    successful receipt had the required confirmations under the head; and a poll that finds no receipt for
    a transaction that was mined makes it REORGED with a correction. *)
Theorem advance_history (polls : list (option Receipt * Z)) (t : TrackedTransaction) (p : FinalityPolicy) :
  let q := advanceAll t polls p in
  txHash q.1 = txHash t /\ chainId q.1 = chainId t /\ correlationId q.1 = correlationId t /\
  leads (tx_state t) q.2 (tx_state q.1) /\
  (tx_state q.1 = FINALIZED -> tx_state t = FINALIZED \/ exists poll, poll ∈ polls /\ deepEnough p poll) /\
  (tx_state t ∈ [MINED; CONFIRMING; FINALIZED] -> forall head,
     tx_state (advanceTransaction t None head p).1 = REORGED /\
     (advanceTransaction t None head p).2 = Some {| from_ := tx_state t; to_ := REORGED |} /\
     reorgedFromBlock (advanceTransaction t None head p).1 = blockNumber t).
Proof.
  cbv zeta. split_and!; revert t; cycle 5.
  { intros t Ht head. unfold advanceTransaction. rewrite (proj2 (includes_true _ _) Ht). done. }
  all: induction polls as [|[r head] polls IH]; intros t; [try done|..]; cbn [advanceAll fst snd].
  all: try (rewrite IH; destruct (advance_once t r head p) as [(H1 & H2 & H3 & _)|[-> _]]; done).
  - eapply leads_app; [|apply IH]. by destruct (advance_once t r head p) as [(_ & _ & _ & H & _)|[-> _]].
  - by left.
  - intros H. destruct (IH _ H) as [Hf|(poll & Hin & Hd)]; [|right; exists poll; split; [by right|done]].
    destruct (advance_once t r head p) as [(_ & _ & _ & _ & Hq & _)|[E _]].
    + right. exists (r, head). split; [by left|auto].
    + left. by rewrite E in Hf.
Qed.

(** The exception: a reverted transaction whose receipt disappears keeps its state, and one that reverts
    again in another block changes block without a correction. *)
Lemma reverted_is_silent t head p : tx_state t = REVERTED -> advanceTransaction t None head p = (t, None) /\
  forall r, succeeded r = false -> (advanceTransaction t (Some r) head p).2 = None.
Proof.
  intros H. unfold advanceTransaction. rewrite H. split; [reflexivity|]. intros r Hr. by rewrite Hr.
Qed.

(** *** The scan cursor *)

Record ChainCursor := {
  cu_chainId : Z;
  contract : string;
  eventSignature : string;
  lastFinalizedBlock : string;
  lastProcessedLogId : option string;
  updatedAtMs : Z
}.

Definition cursorOk (c : ChainCursor) : bool :=
  Manifest.posInt (cu_chainId c) && matches DIGITS (lastFinalizedBlock c) && Manifest.posInt (updatedAtMs c).

Definition resumeFrom (c : ChainCursor) (p : FinalityPolicy) : result Receipts.BigIntError Z :=
  let* last := Receipts.BigInt (lastFinalizedBlock c) in
  Ok (if reorgOverlapBlocks p <? last then last - reorgOverlapBlocks p else 0).

Definition logId (chainId_ block : Z) (transactionHash : string) (logIndex : Z) : string :=
  pretty chainId_ +:+ ":" +:+ pretty block +:+ ":" +:+ to_lower transactionHash +:+ ":" +:+ pretty logIndex.

Lemma number_split (a b : Z) (r s : string) : pretty a +:+ String ":" r = pretty b +:+ String ":" s -> a = b /\ r = s.
Proof.
  intros H. apply span_unique in H; [|apply pretty_Z_chars..|reflexivity|reflexivity].
  destruct H as [H1%(inj pretty) [= H2]]. done.
Qed.

Lemma app_length_inv (u u' v v' : string) : String.length u = String.length u' -> u +:+ v = u' +:+ v' -> u = u' /\ v = v'.
Proof.
  revert u'. induction u as [|a u IH]; intros [|b u']; simpl; try done.
  intros [= Hl] [= -> H]. destruct (IH u' Hl H) as [-> ->]. done.
Qed.

Lemma matches_txhash_length s : matches Receipts.TXHASH s = true -> String.length s = 66%nat.
Proof.
  unfold Receipts.TXHASH. rewrite matches_lang, lang_Cat. intros (u & v & -> & ->%lang_lit & [Hv _]%lang_rep_chr).
  rewrite str_length_app, Hv. reflexivity.
Qed.

(** A log has one identity and an identity one log, up to the letter case of the hash; and a scan resumes
    at or before the last finalized block, far enough back to see what replaced the last [overlap] blocks. *)
Lemma cursor_sound (c : ChainCursor) (p : FinalityPolicy) (last : Z) (ch ch' b b' i i' : Z) (h h' : string) :
  (Receipts.BigInt (lastFinalizedBlock c) = Ok last -> 0 <= reorgOverlapBlocks p ->
   exists n, resumeFrom c p = Ok n /\ 0 <= n /\ (0 <= last -> n <= last) /\
     forall k, 0 <= k -> last - reorgOverlapBlocks p <= k -> n <= k) /\
  (matches Receipts.TXHASH h = true -> matches Receipts.TXHASH h' = true ->
   logId ch b h i = logId ch' b' h' i' -> ch = ch' /\ b = b' /\ to_lower h = to_lower h' /\ i = i').
Proof.
  split.
  - intros Hl Ho. unfold resumeFrom. rewrite Hl. cbn. eexists. split; [done|].
    destruct (Z.ltb_spec (reorgOverlapBlocks p) last); split_and!; intros; lia.
  - intros Hh Hh'. unfold logId. intros (-> & H)%number_split. apply number_split in H as (-> & H).
    apply app_length_inv in H as [Ht H]; [|by rewrite !Receipts.to_lower_length, !matches_txhash_length].
    injection H as H. split_and!; [done..|]. by apply (inj pretty).
Qed.

End Chain.

Module Alert.
Import Chain.

Inductive AlertRule :=
| RUNTIME_CRASH_LOOP | RUNTIME_UNHEALTHY | CRE_TELEMETRY_STALE | CRE_FAILURE_SPIKE | ADAPTER_STALE | ADAPTER_UNAVAILABLE
| POLICY_UNEXPECTEDLY_ENABLED | POLICY_UNEXPECTEDLY_DISABLED | ENS_IDENTITY_CHANGED | A_ADMIN_CHANGED | A_BYTECODE_DRIFT
| A_RUNTIME_IMAGE_DRIFT | REPEATED_DENY | PROMPT_INJECTION_ATTEMPTS | BUDGET_WARNING | TRANSACTION_REVERT_SPIKE
| BRIDGE_DISCONNECTED | CHAIN_OBSERVER_STALE | STATE_DRIFT.
#[export] Instance AlertRule_eq_dec : EqDecision AlertRule.
Proof. solve_decision. Defined.

Definition ruleText (r : AlertRule) : string :=
  match r with
  | RUNTIME_CRASH_LOOP => "RUNTIME_CRASH_LOOP" | RUNTIME_UNHEALTHY => "RUNTIME_UNHEALTHY"
  | CRE_TELEMETRY_STALE => "CRE_TELEMETRY_STALE" | CRE_FAILURE_SPIKE => "CRE_FAILURE_SPIKE"
  | ADAPTER_STALE => "ADAPTER_STALE" | ADAPTER_UNAVAILABLE => "ADAPTER_UNAVAILABLE"
  | POLICY_UNEXPECTEDLY_ENABLED => "POLICY_UNEXPECTEDLY_ENABLED"
  | POLICY_UNEXPECTEDLY_DISABLED => "POLICY_UNEXPECTEDLY_DISABLED" | ENS_IDENTITY_CHANGED => "ENS_IDENTITY_CHANGED"
  | A_ADMIN_CHANGED => "ADMIN_CHANGED" | A_BYTECODE_DRIFT => "BYTECODE_DRIFT"
  | A_RUNTIME_IMAGE_DRIFT => "RUNTIME_IMAGE_DRIFT" | REPEATED_DENY => "REPEATED_DENY"
  | PROMPT_INJECTION_ATTEMPTS => "PROMPT_INJECTION_ATTEMPTS" | BUDGET_WARNING => "BUDGET_WARNING"
  | TRANSACTION_REVERT_SPIKE => "TRANSACTION_REVERT_SPIKE" | BRIDGE_DISCONNECTED => "BRIDGE_DISCONNECTED"
  | CHAIN_OBSERVER_STALE => "CHAIN_OBSERVER_STALE" | STATE_DRIFT => "STATE_DRIFT"
  end.

Inductive AlertSeverity := INFO | WARNING | CRITICAL.
#[export] Instance AlertSeverity_eq_dec : EqDecision AlertSeverity.
Proof. solve_decision. Defined.
Inductive AlertState := OPEN | ACKNOWLEDGED | RESOLVED.
#[export] Instance AlertState_eq_dec : EqDecision AlertState.
Proof. solve_decision. Defined.

Definition REQUIRES_RECONCILIATION : list AlertRule :=
  [POLICY_UNEXPECTEDLY_ENABLED; A_ADMIN_CHANGED; A_BYTECODE_DRIFT; A_RUNTIME_IMAGE_DRIFT; ENS_IDENTITY_CHANGED].

Record Alert := {
  alertId : string;
  fingerprint : string;
  rule : AlertRule;
  severity : AlertSeverity;
  state : AlertState;
  projectId : string;
  deploymentId : string;
  subject : string;
  reason : string;
  evidence : list (string * jsv);
  firstSeenAtMs : Z;
  lastSeenAtMs : Z;
  occurrences : Z;
  acknowledgedBy : option string;
  acknowledgedAtMs : option Z;
  resolvedAtMs : option Z;
  resolvedBy : option string;
  resolutionEvidence : option string;
  requiresReconciliation : bool
}.

Inductive AlertReason := RECONCILIATION_REQUIRED | UNKNOWN_ALERT | ALREADY_RESOLVED.

Record RaiseArgs := {
  r_rule : AlertRule;
  r_severity : AlertSeverity;
  r_projectId : string;
  r_deploymentId : string;
  r_subject : string;
  r_reason : string;
  r_evidence : option (list (string * jsv));
  r_nowMs : Z
}.

(** [byFingerprint], a Map in insertion order, and the counter of identifiers. *)
Record AlertEngine := { byFingerprint : list (string * Alert); seq_ : N }.
Definition newEngine : AlertEngine := {| byFingerprint := []; seq_ := 0 |}.

(** [Map.set]: an existing key keeps its place. *)
Fixpoint mapSet (k : string) (a : Alert) (m : list (string * Alert)) : list (string * Alert) :=
  match m with
  | [] => [(k, a)]
  | (k', b) :: m' => if streq k' k then (k, a) :: m' else (k', b) :: mapSet k a m'
  end.
Definition mapDelete (k : string) (m : list (string * Alert)) : list (string * Alert) :=
  List.filter (fun p => negb (streq p.1 k)) m.

(** [s.padStart(6, "0")]. *)
Definition padStart6 (s : string) : string := String.substring (String.length s) 6 ("000000" +:+ s).

Definition padded (n : N) : string :=
  if (String.length (pretty n) <? 6)%nat then padStart6 (pretty n) else pretty n.

(** [{ ...old, ...new }]. *)
Definition spread (old new : list (string * jsv)) : list (string * jsv) := foldl (fun o p => setProp p.1 p.2 o) old new.

(** JavaScript's [trim]. *)
Fixpoint trimStart (s : string) : string :=
  match s with EmptyString => EmptyString | String c s' => if isSpace c then trimStart s' else s end.
Fixpoint trimEnd (s : string) : string :=
  match s with
  | EmptyString => EmptyString
  | String c s' => match trimEnd s' with
                   | EmptyString => if isSpace c then EmptyString else String c EmptyString
                   | t => String c t
                   end
  end.
Definition trim (s : string) : string := trimEnd (trimStart s).

Section engine.
Context (sha256Hex : string -> string).

Definition fingerprintOf (r : AlertRule) (deploymentId_ subject_ : string) : string :=
  "fp_" +:+ String.substring 0 24 (sha256Hex (ruleText r +:+ "|" +:+ deploymentId_ +:+ "|" +:+ subject_)).

Definition argsFingerprint (a : RaiseArgs) : string := fingerprintOf (r_rule a) (r_deploymentId a) (r_subject a).

Definition freshAlert (a : RaiseArgs) (n : N) : Alert :=
  {| alertId := "alr_" +:+ padded n; fingerprint := argsFingerprint a; rule := r_rule a; severity := r_severity a;
     state := OPEN; projectId := r_projectId a; deploymentId := r_deploymentId a; subject := r_subject a;
     reason := r_reason a; evidence := default [] (r_evidence a); firstSeenAtMs := r_nowMs a; lastSeenAtMs := r_nowMs a;
     occurrences := 1; acknowledgedBy := None; acknowledgedAtMs := None; resolvedAtMs := None; resolvedBy := None;
     resolutionEvidence := None; requiresReconciliation := includes REQUIRES_RECONCILIATION (r_rule a) |}.

Definition seenAgain (a : RaiseArgs) (x : Alert) : Alert :=
  {| alertId := alertId x; fingerprint := fingerprint x; rule := rule x;
     severity := if bool_decide (r_severity a = CRITICAL) then CRITICAL else severity x; state := state x;
     projectId := projectId x; deploymentId := deploymentId x; subject := subject x; reason := r_reason a;
     evidence := match r_evidence a with Some e => spread (evidence x) e | None => evidence x end;
     firstSeenAtMs := firstSeenAtMs x; lastSeenAtMs := r_nowMs a; occurrences := occurrences x + 1;
     acknowledgedBy := acknowledgedBy x; acknowledgedAtMs := acknowledgedAtMs x; resolvedAtMs := resolvedAtMs x;
     resolvedBy := resolvedBy x; resolutionEvidence := resolutionEvidence x;
     requiresReconciliation := requiresReconciliation x |}.

Definition raise (a : RaiseArgs) (e : AlertEngine) : Alert * bool * AlertEngine :=
  let fp := argsFingerprint a in
  let create m := let x := freshAlert a (seq_ e + 1)%N in
                  (x, true, {| byFingerprint := mapSet fp x m; seq_ := (seq_ e + 1)%N |}) in
  match getKey fp (byFingerprint e) with
  | Some x =>
      if negb (bool_decide (state x = RESOLVED))
      then let y := seenAgain a x in (y, false, {| byFingerprint := mapSet fp y (byFingerprint e); seq_ := seq_ e |})
      else create (mapDelete fp (byFingerprint e))
  | None => create (byFingerprint e)
  end.

Definition get (id : string) (e : AlertEngine) : option Alert :=
  List.find (fun a => streq (alertId a) id) (byFingerprint e).*2.

(** The alert's object is changed in place, wherever it is in the map. *)
Definition replace (x y : Alert) (e : AlertEngine) : AlertEngine :=
  {| byFingerprint := mapSet (fingerprint x) y (byFingerprint e); seq_ := seq_ e |}.

Definition acknowledged (x : Alert) (actorId : string) (nowMs_ : Z) : Alert :=
  {| alertId := alertId x; fingerprint := fingerprint x; rule := rule x; severity := severity x; state := ACKNOWLEDGED;
     projectId := projectId x; deploymentId := deploymentId x; subject := subject x; reason := reason x;
     evidence := evidence x; firstSeenAtMs := firstSeenAtMs x; lastSeenAtMs := lastSeenAtMs x;
     occurrences := occurrences x; acknowledgedBy := Some actorId; acknowledgedAtMs := Some nowMs_;
     resolvedAtMs := resolvedAtMs x; resolvedBy := resolvedBy x; resolutionEvidence := resolutionEvidence x;
     requiresReconciliation := requiresReconciliation x |}.

Definition resolved (x : Alert) (by_ : string) (why : option string) (nowMs_ : Z) : Alert :=
  {| alertId := alertId x; fingerprint := fingerprint x; rule := rule x; severity := severity x; state := RESOLVED;
     projectId := projectId x; deploymentId := deploymentId x; subject := subject x; reason := reason x;
     evidence := evidence x; firstSeenAtMs := firstSeenAtMs x; lastSeenAtMs := lastSeenAtMs x;
     occurrences := occurrences x; acknowledgedBy := acknowledgedBy x; acknowledgedAtMs := acknowledgedAtMs x;
     resolvedAtMs := Some nowMs_; resolvedBy := Some by_; resolutionEvidence := why;
     requiresReconciliation := requiresReconciliation x |}.

Definition acknowledge (id actorId : string) (nowMs_ : Z) (e : AlertEngine) : result AlertReason (Alert * AlertEngine) :=
  match get id e with
  | None => Err UNKNOWN_ALERT
  | Some x => let y := acknowledged x actorId nowMs_ in Ok (y, replace x y e)
  end.

(** [!args.evidence || args.evidence.trim().length < 10], negated. *)
Definition enoughEvidence (why : option string) : bool :=
  match why with Some w => negb (streq w "") && (10 <=? String.length (trim w))%nat | None => false end.

Definition resolve (id actorId : string) (why : option string) (nowMs_ : Z) (e : AlertEngine)
    : result AlertReason (Alert * AlertEngine) :=
  match get id e with
  | None => Err UNKNOWN_ALERT
  | Some x =>
      throw ALREADY_RESOLVED when bool_decide (state x = RESOLVED) ;;
      throw RECONCILIATION_REQUIRED when requiresReconciliation x && negb (enoughEvidence why) ;;
      let y := resolved x actorId why nowMs_ in Ok (y, replace x y e)
  end.

Definition noLongerObserved : string := "the condition was no longer observed".

Definition autoResolve (r : AlertRule) (deploymentId_ subject_ : string) (nowMs_ : Z) (e : AlertEngine)
    : option Alert * AlertEngine :=
  match getKey (fingerprintOf r deploymentId_ subject_) (byFingerprint e) with
  | None => (None, e)
  | Some x =>
      if bool_decide (state x = RESOLVED) || requiresReconciliation x then (None, e)
      else let y := resolved x "system" (Some noLongerObserved) nowMs_ in (Some y, replace x y e)
  end.

(** The open alerts, in the order of the map: the order of the source's [sort] is left out. *)
Definition open_ (dep : option string) (e : AlertEngine) : list Alert :=
  List.filter (fun a => negb (bool_decide (state a = RESOLVED)) &&
                        match dep with Some d => streq (deploymentId a) d | None => true end) (byFingerprint e).*2.

Definition first_le (a b : Alert) : Prop := firstSeenAtMs a <= firstSeenAtMs b.
#[local] Instance first_le_dec : RelDecision first_le.
Proof. intros a b. unfold first_le. apply _. Defined.
Definition all (e : AlertEngine) : list Alert := merge_sort first_le (byFingerprint e).*2.

(** *** Drift becomes an alert *)

Definition DRIFT_TO_RULE (k : DriftKind) : AlertRule :=
  match k with
  | POLICY_ENABLED_UNEXPECTEDLY => POLICY_UNEXPECTEDLY_ENABLED
  | POLICY_DISABLED_UNEXPECTEDLY => POLICY_UNEXPECTEDLY_DISABLED
  | POLICY_ADMIN_CHANGED => A_ADMIN_CHANGED
  | ADMIN_CHANGED => A_ADMIN_CHANGED
  | BYTECODE_DRIFT => A_BYTECODE_DRIFT
  | IDENTITY_CHANGED => ENS_IDENTITY_CHANGED
  | IDENTITY_REVOKED_UNEXPECTEDLY => ENS_IDENTITY_CHANGED
  | RUNTIME_IMAGE_DRIFT => A_RUNTIME_IMAGE_DRIFT
  | BINDING_VERSION_CHANGED => STATE_DRIFT
  | CONTRACT_MISSING => A_BYTECODE_DRIFT
  end.

Definition driftText (k : DriftKind) : string :=
  match k with
  | POLICY_ENABLED_UNEXPECTEDLY => "POLICY_ENABLED_UNEXPECTEDLY"
  | POLICY_DISABLED_UNEXPECTEDLY => "POLICY_DISABLED_UNEXPECTEDLY" | POLICY_ADMIN_CHANGED => "POLICY_ADMIN_CHANGED"
  | ADMIN_CHANGED => "ADMIN_CHANGED" | BYTECODE_DRIFT => "BYTECODE_DRIFT" | IDENTITY_CHANGED => "IDENTITY_CHANGED"
  | IDENTITY_REVOKED_UNEXPECTEDLY => "IDENTITY_REVOKED_UNEXPECTEDLY" | RUNTIME_IMAGE_DRIFT => "RUNTIME_IMAGE_DRIFT"
  | BINDING_VERSION_CHANGED => "BINDING_VERSION_CHANGED" | CONTRACT_MISSING => "CONTRACT_MISSING"
  end.

(** The drift's explanation, a text, is [detail]. *)
Definition alertForDrift (d : Drift) (detail projectId_ deploymentId_ : string) : RaiseArgs :=
  {| r_rule := DRIFT_TO_RULE (kind d); r_severity := if includes CRITICAL_DRIFT (kind d) then CRITICAL else WARNING;
     r_projectId := projectId_; r_deploymentId := deploymentId_; r_subject := d_subject d; r_reason := detail;
     r_evidence := Some [("kind", VStr (driftText (kind d))); ("expected", VStr (expected d));
                         ("observed", VStr (d_observed d)); ("blockNumber", orNull VStr (d_blockNumber d))];
     r_nowMs := d_observedAtMs d |}.

(** *** The map and the identifiers *)

Lemma streq_sym a b : streq a b = streq b a.
Proof. apply String.eqb_sym. Qed.

Lemma getKey_alertSet k k' a m : getKey k (mapSet k' a m) = if streq k' k then Some a else getKey k m.
Proof.
  induction m as [|[k0 b] m IH]; simpl; [by rewrite (streq_sym k k')|].
  destruct (streq k0 k') eqn:E; simpl.
  - apply streq_true in E as ->. rewrite (streq_sym k k'). by destruct (streq k' k).
  - rewrite IH. destruct (streq k k0) eqn:E0; [|done]. apply streq_true in E0 as <-. by rewrite (streq_sym k' k), E.
Qed.

Lemma mapSet_keys k a m : (mapSet k a m).*1 = if includes (m.*1) k then m.*1 else m.*1 ++ [k].
Proof.
  induction m as [|[k0 b] m IH]; [done|]. cbn [mapSet fmap list_fmap fst].
  destruct (streq k0 k) eqn:E; cbn [fmap list_fmap fst].
  - apply streq_true in E as ->. rewrite (proj2 (includes_true _ k)); [done|by left].
  - rewrite IH. apply streq_false in E. destruct (includes m.*1 k) eqn:Ei.
    + apply includes_true in Ei. rewrite (proj2 (includes_true _ k)); [done|by right].
    + apply includes_false in Ei. rewrite (proj2 (includes_false _ k)); [done|]. by intros [?|?]%elem_of_cons.
Qed.

Lemma alertSet_NoDup k a m : NoDup m.*1 -> NoDup (mapSet k a m).*1.
Proof.
  intros H. rewrite mapSet_keys. destruct (includes _ k) eqn:E; [done|]. apply includes_false in E.
  apply NoDup_app. split_and!; [done| |apply NoDup_singleton]. by intros x Hx ->%list_elem_of_singleton.
Qed.

Lemma mapDelete_get k k' m : getKey k (mapDelete k' m) = if streq k' k then None else getKey k m.
Proof.
  induction m as [|[k0 b] m IH]; simpl; [by destruct (streq k' k)|].
  destruct (streq k0 k') eqn:E; simpl.
  - apply streq_true in E as ->. rewrite IH, (streq_sym k k'). by destruct (streq k' k).
  - rewrite IH. destruct (streq k k0) eqn:E0; [|done]. apply streq_true in E0 as <-. by rewrite (streq_sym k' k), E.
Qed.

Lemma mapDelete_NoDup k m : NoDup m.*1 -> NoDup (mapDelete k m).*1.
Proof. apply filter_keys_NoDup. Qed.

Lemma padded_decimal n : decimal 0 (padded n) = Some n.
Proof.
  rewrite <- (decimal_pretty n). unfold padded. destruct (_ <? 6)%nat eqn:E; [|done]. apply Nat.ltb_lt in E.
  unfold padStart6. destruct (pretty n) as [|a [|b [|c [|d [|e [|f s]]]]]]; cbn in E; try lia; reflexivity.
Qed.

Lemma padded_inj n n' : padded n = padded n' -> n = n'.
Proof. intros H. pose proof (padded_decimal n) as Hn. rewrite H, padded_decimal in Hn. by injection Hn. Qed.

(** *** Operations in sequence *)

Inductive AlertOp :=
| Raise (a : RaiseArgs)
| Acknowledge (id actor : string) (now : Z)
| Resolve (id actor : string) (why : option string) (now : Z)
| AutoResolve (r : AlertRule) (dep sub : string) (now : Z).

(** A refused operation changes nothing. *)
Definition apply (e : AlertEngine) (o : AlertOp) : AlertEngine :=
  match o with
  | Raise a => (raise a e).2
  | Acknowledge id actor now => match acknowledge id actor now e with Ok (_, e') => e' | Err _ => e end
  | Resolve id actor why now => match resolve id actor why now e with Ok (_, e') => e' | Err _ => e end
  | AutoResolve r dep sub now => (autoResolve r dep sub now e).2
  end.
Definition applyAll (e : AlertEngine) (l : list AlertOp) : AlertEngine := foldl apply e l.

Definition rowOk (n : N) (k : string) (x : Alert) : Prop :=
  fingerprint x = k /\ k = fingerprintOf (rule x) (deploymentId x) (subject x) /\
  requiresReconciliation x = includes REQUIRES_RECONCILIATION (rule x) /\ 1 <= occurrences x /\
  (exists i, (i <= n)%N /\ alertId x = "alr_" +:+ padded i) /\
  (state x = RESOLVED -> requiresReconciliation x = true -> enoughEvidence (resolutionEvidence x) = true).

Definition engineOk (e : AlertEngine) : Prop :=
  NoDup (byFingerprint e).*1 /\ (forall k x, getKey k (byFingerprint e) = Some x -> rowOk (seq_ e) k x) /\
  (forall k k' x x', getKey k (byFingerprint e) = Some x -> getKey k' (byFingerprint e) = Some x' ->
     alertId x = alertId x' -> k = k').

Lemma get_row id e x : engineOk e -> get id e = Some x -> alertId x = id /\ getKey (fingerprint x) (byFingerprint e) = Some x.
Proof.
  intros (Hnd & Hrow & _) [Hin Hid]%List.find_some. apply streq_true in Hid. split; [done|].
  apply list_elem_of_In, list_elem_of_fmap in Hin as ([k y] & -> & Hin). cbn in *.
  apply (getKey_Some k _ y Hnd) in Hin. destruct (Hrow k y Hin) as [-> _]. done.
Qed.

Lemma rowOk_mono n n' k x : (n <= n')%N -> rowOk n k x -> rowOk n' k x.
Proof. intros Hn (H1 & H2 & H3 & H4 & (i & Hi & Ha) & H6). split_and!; try done. exists i. split; [lia|done]. Qed.

(** Changing a row in place, keeping what identifies it. *)
Lemma replace_ok e x y : engineOk e -> getKey (fingerprint x) (byFingerprint e) = Some x -> alertId y = alertId x ->
  rowOk (seq_ e) (fingerprint x) y -> engineOk (replace x y e).
Proof.
  intros (Hnd & Hrow & Hid) Hx Hy Hok. unfold replace. split_and!; cbn.
  - by apply alertSet_NoDup.
  - intros k z. rewrite getKey_alertSet. destruct (streq _ k) eqn:E; [|apply Hrow]. apply streq_true in E as <-. by intros [= <-].
  - intros k k' z z'. rewrite !getKey_alertSet.
    destruct (streq _ k) eqn:E, (streq _ k') eqn:E'; rewrite ?streq_true in *; subst; try done.
    + intros [= <-] Hz Ha. rewrite Hy in Ha. by eapply Hid.
    + intros Hz [= <-] Ha. rewrite Hy in Ha. by eapply Hid.
    + by apply Hid.
Qed.

(** How the row of a problem changes under one operation. *)
Inductive evolves (o : AlertOp) (x : Alert) : Alert -> Prop :=
| ev_same : evolves o x x
| ev_seen a : o = Raise a -> state x <> RESOLVED -> argsFingerprint a = fingerprint x -> evolves o x (seenAgain a x)
| ev_new a n : o = Raise a -> state x = RESOLVED -> argsFingerprint a = fingerprint x -> evolves o x (freshAlert a n)
| ev_ack actor now : evolves o x (acknowledged x actor now)
| ev_res actor why now : o = Resolve (alertId x) actor why now -> state x <> RESOLVED ->
    (requiresReconciliation x = true -> enoughEvidence why = true) -> evolves o x (resolved x actor why now)
| ev_auto now : requiresReconciliation x = false -> evolves o x (resolved x "system" (Some noLongerObserved) now).

Lemma row_fingerprint e k x : engineOk e -> getKey k (byFingerprint e) = Some x -> fingerprint x = k.
Proof. intros (_ & Hr & _) Hx. by destruct (Hr k x Hx). Qed.

Lemma create_ok e m a : engineOk e -> NoDup m.*1 -> getKey (argsFingerprint a) m = None ->
  (forall k x, getKey k m = Some x -> getKey k (byFingerprint e) = Some x) ->
  engineOk {| byFingerprint := mapSet (argsFingerprint a) (freshAlert a (seq_ e + 1)) m; seq_ := (seq_ e + 1)%N |}.
Proof.
  intros (_ & Hrow & Hid) Hnd Hnone Hsub.
  assert (Hnew : forall k x, getKey k m = Some x -> alertId x <> alertId (freshAlert a (seq_ e + 1))).
  { intros k x Hx Ha. destruct (Hrow k x (Hsub k x Hx)) as (_ & _ & _ & _ & (i & Hi & Hxi) & _).
    rewrite Hxi in Ha. cbn [alertId freshAlert] in Ha. apply Json.app_inv_head, padded_inj in Ha. lia. }
  split_and!; cbn [byFingerprint seq_].
  - by apply alertSet_NoDup.
  - intros k x. rewrite getKey_alertSet. destruct (streq _ k) eqn:E.
    + apply streq_true in E as <-. intros [= <-]. split_and!; try done. exists (seq_ e + 1)%N. split; [lia|done].
    + intros Hx%Hsub. apply (rowOk_mono (seq_ e)); [lia|auto].
  - intros k k' x x'. rewrite !getKey_alertSet.
    destruct (streq _ k) eqn:E, (streq _ k') eqn:E'; rewrite ?streq_true in *; subst; try done.
    + intros [= <-] Hx Ha. by destruct (Hnew k' x' Hx).
    + intros Hx [= <-] Ha. by destruct (Hnew k x Hx).
    + intros Hx Hx'. by apply Hid; apply Hsub.
Qed.

Lemma seenAgain_ok n k a x : rowOk n k x -> state x <> RESOLVED -> rowOk n k (seenAgain a x).
Proof. intros (H1 & H2 & H3 & H4 & H5 & H6) Hs. split_and!; try done. cbn. lia. Qed.
Lemma acknowledged_ok n k x actor now : rowOk n k x -> rowOk n k (acknowledged x actor now).
Proof. intros (H1 & H2 & H3 & H4 & H5 & H6). by split_and!. Qed.
Lemma resolved_ok n k x actor why now : rowOk n k x -> (requiresReconciliation x = true -> enoughEvidence why = true) ->
  rowOk n k (resolved x actor why now).
Proof. intros (H1 & H2 & H3 & H4 & H5 & H6) Hw. by split_and!. Qed.

Lemma apply_ok e o : engineOk e -> engineOk (apply e o).
Proof.
  intros He. pose proof He as (Hnd & Hrow & _). destruct o as [a|id actor now|id actor why now|r dep sub now]; cbn [apply].
  - unfold raise. destruct (getKey (argsFingerprint a) (byFingerprint e)) as [x|] eqn:Ex.
    + pose proof (row_fingerprint e _ x He Ex) as Hf. case_bool_decide as Hs; cbn [negb fst snd].
      * apply create_ok; [done|by apply mapDelete_NoDup| |].
        -- by rewrite mapDelete_get, streq_refl.
        -- intros k y. rewrite mapDelete_get. by destruct (streq _ k).
      * rewrite <- Hf. apply (replace_ok e x); [done|by rewrite Hf|done|]. rewrite Hf. apply seenAgain_ok; auto.
    + by apply create_ok.
  - unfold acknowledge. destruct (get id e) as [x|] eqn:Ex; [|done]. apply get_row in Ex as [_ Hx]; [|done].
    apply replace_ok; try done. apply acknowledged_ok; auto.
  - unfold resolve. destruct (get id e) as [x|] eqn:Ex; [|done]. apply get_row in Ex as [_ Hx]; [|done].
    case_bool_decide; [done|]. destruct (requiresReconciliation x && negb (enoughEvidence why)) eqn:Eg; [done|].
    apply replace_ok; try done. apply resolved_ok; auto. intros Hr. rewrite Hr in Eg. by apply negb_false_iff in Eg.
  - unfold autoResolve. destruct (getKey _ (byFingerprint e)) as [x|] eqn:Ex; [|done].
    pose proof (row_fingerprint e _ x He Ex) as Hf.
    destruct (bool_decide (state x = RESOLVED) || requiresReconciliation x) eqn:Eg; [done|].
    apply orb_false_iff in Eg as [_ Eg]. apply replace_ok; [done|by rewrite Hf|done|].
    rewrite Hf. apply resolved_ok; [auto|]. by rewrite Eg.
Qed.

Lemma engineOk_new : engineOk newEngine.
Proof. split_and!; [constructor|done|done]. Qed.

Lemma applyAll_ok l e : engineOk e -> engineOk (applyAll e l).
Proof. revert e. induction l as [|o l IH]; intros e He; [done|]. apply IH, apply_ok, He. Qed.

Lemma replace_row e x y k : getKey k (byFingerprint (replace x y e)) =
  if streq (fingerprint x) k then Some y else getKey k (byFingerprint e).
Proof. apply getKey_alertSet. Qed.

(** Replacing one row is an evolution of every row. *)
Lemma replaced_evolves e o x y k z : getKey (fingerprint x) (byFingerprint e) = Some x ->
  getKey k (byFingerprint e) = Some z -> evolves o x y ->
  exists z', getKey k (byFingerprint (replace x y e)) = Some z' /\ evolves o z z'.
Proof.
  intros Hx Hz Hev. rewrite replace_row. destruct (streq (fingerprint x) k) eqn:E.
  - apply streq_true in E. subst k. rewrite Hx in Hz. injection Hz as <-. by exists y.
  - exists z. split; [done|constructor].
Qed.

Lemma apply_row e o k x : engineOk e -> getKey k (byFingerprint e) = Some x ->
  exists x', getKey k (byFingerprint (apply e o)) = Some x' /\ evolves o x x'.
Proof.
  intros He Hx. destruct o as [a|id actor now|id actor why now|r dep sub now]; cbn [apply].
  - unfold raise. destruct (getKey (argsFingerprint a) (byFingerprint e)) as [y|] eqn:Ey.
    + pose proof (row_fingerprint e _ y He Ey) as Hf. case_bool_decide as Hs; cbn [negb fst snd byFingerprint].
      * rewrite getKey_alertSet, mapDelete_get. destruct (streq (argsFingerprint a) k) eqn:E.
        -- apply streq_true in E. subst k. rewrite Ey in Hx. injection Hx as <-. eexists. split; [done|]. by econstructor.
        -- exists x. split; [done|constructor].
      * rewrite <- Hf. apply (replaced_evolves e _ y); [by rewrite Hf|done|by econstructor].
    + cbn [fst snd byFingerprint]. rewrite getKey_alertSet. destruct (streq (argsFingerprint a) k) eqn:E.
      * apply streq_true in E. subst k. congruence.
      * exists x. split; [done|constructor].
  - unfold acknowledge. destruct (get id e) as [y|] eqn:Ey; [|exists x; split; [done|constructor]].
    apply get_row in Ey as [_ Hy]; [|done]. apply replaced_evolves; [done|done|constructor].
  - unfold resolve. destruct (get id e) as [y|] eqn:Ey; [|exists x; split; [done|constructor]].
    apply get_row in Ey as [Hid Hy]; [|done]. case_bool_decide; [exists x; split; [done|constructor]|].
    destruct (requiresReconciliation y && negb (enoughEvidence why)) eqn:Eg; [exists x; split; [done|constructor]|].
    apply replaced_evolves; [done|done|]. subst id. apply ev_res; [done..|].
    intros Hr. rewrite Hr in Eg. by apply negb_false_iff in Eg.
  - unfold autoResolve. destruct (getKey (fingerprintOf r dep sub) (byFingerprint e)) as [y|] eqn:Ey; [|exists x; split; [done|constructor]].
    pose proof (row_fingerprint e _ y He Ey) as Hf.
    destruct (bool_decide (state y = RESOLVED) || requiresReconciliation y) eqn:Eg; [exists x; split; [done|constructor]|].
    apply orb_false_iff in Eg as [_ Eg]. apply replaced_evolves; [by rewrite Hf|done|by constructor].
Qed.

(** One problem is one alert.  After any sequence of operations two rows for the same rule, deployment
    and subject are one row, with an identifier of its own; and a row that is in need of reconciliation and
    is resolved carries a person's evidence of at least ten characters: no polling loop resolved it. *)
Theorem alerts_sound (l : list AlertOp) (k k' : string) (x x' : Alert) :
  let e := applyAll newEngine l in
  getKey k (byFingerprint e) = Some x -> getKey k' (byFingerprint e) = Some x' ->
  (rule x = rule x' -> deploymentId x = deploymentId x' -> subject x = subject x' -> x = x') /\
  (alertId x = alertId x' -> x = x') /\ requiresReconciliation x = includes REQUIRES_RECONCILIATION (rule x) /\
  (state x = RESOLVED -> rule x ∈ REQUIRES_RECONCILIATION ->
     exists w, resolutionEvidence x = Some w /\ (10 <= String.length (trim w))%nat).
Proof.
  intros e Hx Hx'. pose proof (applyAll_ok l newEngine engineOk_new) as (_ & Hrow & Hid). fold e in Hrow, Hid.
  destruct (Hrow k x Hx) as (_ & Hk & Hr & _ & _ & Hev). destruct (Hrow k' x' Hx') as (_ & Hk' & _).
  split_and!; [| |done|].
  - intros H1 H2 H3. rewrite <- H1, <- H2, <- H3, <- Hk in Hk'. subst k'. congruence.
  - intros H. pose proof (Hid k k' x x' Hx Hx' H) as ->. congruence.
  - intros Hs Hin. specialize (Hev Hs). rewrite Hr, (proj2 (includes_true _ _) Hin) in Hev. specialize (Hev eq_refl).
    unfold enoughEvidence in Hev. destruct (resolutionEvidence x) as [w|]; [|done]. exists w. split; [done|].
    apply andb_true_iff in Hev as [_ Hl]. by apply Nat.leb_le.
Qed.

(** The operation explains the alert: a person resolves it, with enough evidence. *)
Definition explains (o : AlertOp) (id : string) : Prop :=
  exists actor why now, o = Resolve id actor why now /\ enoughEvidence why = true.

(** A security drift stays open until somebody explains it.  Once an alert of a rule that requires
    reconciliation is open, whatever polls, acknowledgements, automatic resolutions and attempts to resolve
    follow, it is still there, not resolved, with its identifier and first sighting, never less severe and
    never counted less often, as long as none of them resolves that alert with enough evidence. *)
Theorem drift_stays_open (before after : list AlertOp) (k : string) (x : Alert) :
  let e := applyAll newEngine before in
  getKey k (byFingerprint e) = Some x -> state x <> RESOLVED -> rule x ∈ REQUIRES_RECONCILIATION ->
  Forall (fun o => ~ explains o (alertId x)) after ->
  exists y, getKey k (byFingerprint (applyAll e after)) = Some y /\ state y <> RESOLVED /\ alertId y = alertId x /\
    firstSeenAtMs y = firstSeenAtMs x /\ (severity x = CRITICAL -> severity y = CRITICAL) /\ occurrences x <= occurrences y.
Proof.
  intros e. assert (He : engineOk e) by (apply applyAll_ok, engineOk_new). revert He. generalize e. clear e before.
  revert x. induction after as [|o l IH]; intros x e He Hx Hs Hr Hall; [by exists x|].
  apply Forall_cons in Hall as [Ho Hall]. destruct (apply_row e o k x He Hx) as (y & Hy & Hev).
  assert (Hrr : requiresReconciliation x = true).
  { destruct He as (_ & Hrow & _). destruct (Hrow k x Hx) as (_ & _ & -> & _). by apply includes_true. }
  assert (Hstep : state y <> RESOLVED /\ alertId y = alertId x /\ rule y = rule x /\ firstSeenAtMs y = firstSeenAtMs x /\
    (severity x = CRITICAL -> severity y = CRITICAL) /\ occurrences x <= occurrences y).
  { inversion Hev as [|a -> _ _|a n _ Hres _|actor now|actor why now -> _ Hw|now Hn]; subst y; cbn [state alertId rule
      firstSeenAtMs severity occurrences seenAgain acknowledged]; try congruence.
    - split_and!; try done; lia.
    - split_and!; try done; [intros ->; by case_bool_decide|lia].
    - split_and!; try done; lia.
    - destruct Ho. exists actor, why, now. split; [done|auto]. }
  destruct Hstep as (Hs' & Hid & Hru & Hf & Hsev & Hocc).
  destruct (IH y (apply e o) (apply_ok e o He) Hy Hs') as (z & Hz & H1 & H2 & H3 & H4 & H5); [by rewrite Hru|by rewrite Hid|].
  exists z. split_and!; try done; [congruence|congruence|auto|lia].
Qed.

(** Every drift that may not be cleared by a poll is raised under a rule that requires reconciliation. *)
Lemma critical_drift_reconciled (d : Drift) (detail pid dep : string) :
  kind d ∈ CRITICAL_DRIFT -> r_rule (alertForDrift d detail pid dep) ∈ REQUIRES_RECONCILIATION /\
  r_severity (alertForDrift d detail pid dep) = CRITICAL.
Proof.
  intros H. cbn [r_rule r_severity alertForDrift]. rewrite (proj2 (includes_true _ _) H). split; [|done].
  revert H. destruct (kind d); cbn [DRIFT_TO_RULE]; intros H; apply (bool_decide_unpack _); first
    [vm_compute; exact I | apply (bool_decide_pack _) in H; vm_compute in H; destruct H].
Qed.

(** Polling the same problem makes one row however often it is seen. *)
Fixpoint poll (a : RaiseArgs) (times : nat) (e : AlertEngine) : AlertEngine :=
  match times with O => e | S n => poll a n (raise a e).2 end.

Lemma raise_again a e x : engineOk e -> getKey (argsFingerprint a) (byFingerprint e) = Some x -> state x <> RESOLVED ->
  getKey (argsFingerprint a) (byFingerprint (raise a e).2) = Some (seenAgain a x) /\
  (byFingerprint (raise a e).2).*1 = (byFingerprint e).*1.
Proof.
  intros He Hx Hs. unfold raise. rewrite Hx, bool_decide_eq_false_2 by done. cbn [negb fst snd byFingerprint].
  rewrite getKey_alertSet, streq_refl, mapSet_keys. split; [done|].
  apply getKey_elem in Hx. by rewrite (proj2 (includes_true _ _) (list_elem_of_fmap_2 fst _ _ Hx)).
Qed.

Lemma poll_counts a n : forall e x, engineOk e -> getKey (argsFingerprint a) (byFingerprint e) = Some x ->
  state x <> RESOLVED -> exists y, getKey (argsFingerprint a) (byFingerprint (poll a n e)) = Some y /\
    occurrences y = occurrences x + Z.of_nat n /\ firstSeenAtMs y = firstSeenAtMs x /\ alertId y = alertId x /\
    (byFingerprint (poll a n e)).*1 = (byFingerprint e).*1.
Proof.
  induction n as [|n IH]; intros e x He Hx Hs; cbn [poll].
  - exists x. split_and!; try done. lia.
  - destruct (raise_again a e x He Hx Hs) as [H1 H2]. pose proof (apply_ok e (Raise a) He) as He'.
    destruct (IH _ _ He' H1 Hs) as (y & Hy & Ho & Hf & Hi & Hk). exists y. split_and!; try done; [cbn in Ho; lia|exact (eq_trans Hk H2)].
Qed.

End engine.

End Alert.

Module Samples.
Import Chain Alert.

(** A digest that keeps the text. *)
Definition keep (s : string) : string := s.

Definition enabledAgain (t : Z) : RaiseArgs :=
  {| r_rule := POLICY_UNEXPECTEDLY_ENABLED; r_severity := CRITICAL; r_projectId := "p"; r_deploymentId := "d";
     r_subject := "policy 0x01"; r_reason := "enabled"; r_evidence := None; r_nowMs := t |}.
Definition adapterStale (t : Z) : RaiseArgs :=
  {| r_rule := ADAPTER_STALE; r_severity := WARNING; r_projectId := "p"; r_deploymentId := "d";
     r_subject := "oracle"; r_reason := "stale"; r_evidence := None; r_nowMs := t |}.

Definition seenOnce : list AlertOp := [Raise (enabledAgain 1); Raise (adapterStale 2)].
(** The condition clears, is seen again, and somebody tries to close it with an empty and a short reason. *)
Definition noise : list AlertOp :=
  [AutoResolve POLICY_UNEXPECTEDLY_ENABLED "d" "policy 0x01" 3; AutoResolve ADAPTER_STALE "d" "oracle" 3;
   Raise (enabledAgain 4); Resolve "alr_000001" "bob" None 5; Resolve "alr_000001" "bob" (Some "   fine   ") 6].

Definition driftKey : string := fingerprintOf keep POLICY_UNEXPECTEDLY_ENABLED "d" "policy 0x01".

Lemma drift_stays_open_witness :
  exists y, getKey driftKey (byFingerprint (applyAll keep (applyAll keep newEngine seenOnce) noise)) = Some y /\
    state y <> RESOLVED /\ alertId y = "alr_000001".
Proof.
  destruct (drift_stays_open keep seenOnce noise driftKey (freshAlert keep (enabledAgain 1) 1))
    as (y & Hy & Hs & Hid & _).
  - vm_compute. reflexivity.
  - vm_compute. discriminate.
  - apply (bool_decide_unpack _). vm_compute. exact I.
  - repeat constructor; intros (actor & why & now & H & Hw); try discriminate H; injection H as _ <- _; vm_compute in Hw; discriminate Hw.
  - exists y. split; [exact Hy|]. split; [exact Hs|exact Hid].
Defined.

Lemma alerts_sound_witness : exists x x',
  getKey driftKey (byFingerprint (applyAll keep newEngine seenOnce)) = Some x /\
  getKey (fingerprintOf keep ADAPTER_STALE "d" "oracle") (byFingerprint (applyAll keep newEngine seenOnce)) = Some x' /\
  (alertId x = alertId x' -> x = x').
Proof.
  exists (freshAlert keep (enabledAgain 1) 1), (freshAlert keep (adapterStale 2) 2).
  assert (H1 : getKey driftKey (byFingerprint (applyAll keep newEngine seenOnce)) = Some (freshAlert keep (enabledAgain 1) 1))
    by (vm_compute; reflexivity).
  assert (H2 : getKey (fingerprintOf keep ADAPTER_STALE "d" "oracle") (byFingerprint (applyAll keep newEngine seenOnce)) =
    Some (freshAlert keep (adapterStale 2) 2)) by (vm_compute; reflexivity).
  split; [exact H1|]. split; [exact H2|]. exact (proj1 (proj2 (alerts_sound keep seenOnce _ _ _ _ H1 H2))).
Defined.

(** Evidence of ten characters closes it. *)
Example explained : exists y e', resolve "alr_000001" "bob" (Some "rotated the admin key") 7
    (applyAll keep newEngine seenOnce) = Ok (y, e') /\ state y = RESOLVED.
Proof. do 2 eexists. split; [vm_compute; reflexivity|reflexivity]. Qed.

(** What the engine does not mean to do: acknowledging a resolved alert opens it again. *)
Lemma acknowledge_reopens : exists y e',
  acknowledge "alr_000002" "eve" 9 (applyAll keep newEngine (seenOnce ++ noise)) = Ok (y, e') /\
  (exists x, get "alr_000002" (applyAll keep newEngine (seenOnce ++ noise)) = Some x /\ state x = RESOLVED) /\
  state y = ACKNOWLEDGED /\ map alertId (open_ None e') = ["alr_000001"; "alr_000002"].
Proof. do 2 eexists. split; [vm_compute; reflexivity|]. split; [eexists; split; vm_compute; reflexivity|split; vm_compute; reflexivity]. Qed.

(** A problem that comes back after it was resolved takes the resolved row away: its evidence is gone. *)
Lemma history_is_lost :
  get "alr_000002" (applyAll keep newEngine (seenOnce ++ noise ++ [Raise (adapterStale 9)])) = None.
Proof. vm_compute. reflexivity. Qed.

(** Different problems can share a fingerprint: the separator may be part of a name. *)
Lemma fingerprint_ambiguous : fingerprintOf keep STATE_DRIFT "d|x" "y" = fingerprintOf keep STATE_DRIFT "d" "x|y".
Proof. reflexivity. Qed.

(** *** What the chain says *)

Definition observer (answer : result string PolicyAnswer) : ChainObserver :=
  {| reader := DeployPlan.Samples.node;
     queries := {| readPolicy := fun _ _ _ => answer;
                   resolveIdentity := fun _ => Err "none"; q_readAdministrators := fun _ => Ok ["0xAD"] |};
     nowMs := 1000; ttls := {| t_policy := None; t_identity := None; t_chain := None |} |}.

Example policy_shown :
  Freshness.isCurrent (Freshness.presentable (readPolicyState (observer
    (Ok {| a_enabled := true; cap := 5; a_bindingVersion := 1; admin := "0xad" |})) "0xr" "0xi" "0xp") 31000) = true /\
  Freshness.isCurrent (Freshness.presentable (readPolicyState (observer
    (Ok {| a_enabled := true; cap := 5; a_bindingVersion := 1; admin := "0xad" |})) "0xr" "0xi" "0xp") 31001) = false.
Proof. split; vm_compute; reflexivity. Qed.

Definition tracked : TrackedTransaction :=
  {| txHash := "0x01"; chainId := 1; tx_state := SUBMITTED; blockNumber := None; confirmations := 0; gasUsed := None;
     effectiveGasPriceWei := None; actualNativeCostWei := None; correlationId := "c"; reorgedFromBlock := None |}.
Definition mined (b : Z) : option Receipt :=
  Some {| succeeded := true; r_blockNumber := b; r_gasUsed := 21000; r_effectiveGasPrice := 2 |}.

(** Mined, finalized, gone, mined again in another block. *)
Example reorganised : let q := advanceAll tracked [(mined 10, 10); (mined 10, 21); (None, 22); (mined 11, 15)] DEFAULT_FINALITY in
  map to_ q.2 = [CONFIRMING; FINALIZED; REORGED; CONFIRMING] /\ tx_state q.1 = CONFIRMING /\
  reorgedFromBlock q.1 = Some "10" /\ actualNativeCostWei q.1 = Some "42000".
Proof. repeat split; vm_compute; reflexivity. Qed.

End Samples.
