(* ===== verification/Runtime.v ===== *)
(** * The agent runtime: identity, gateways, revisions, hardening

    [packages/studio-runtime/src].  [Identity] is [identity.ts]: the scoped token that authenticates a
    container and authorizes nothing.  [Gateways] is [gateways.ts]: the model gateway, the adapter broker,
    the ContextLock broker and the telemetry gateway, which hold the credentials the runtime may not have.
    [Revision] is [revision.ts] with the reasons and the provider registry of [provider.ts];
    [Hardening] is [hardening.ts].

    Ed25519 and base64url are parameters of the class [TokenCodec], [JSON.parse] is [JsonParse.parse]; random identifiers and
    the clock are inputs.  What a gateway calls (the model, the adapter, the decision) is a function it is
    given, and the calls made are an output.  Message texts are left out. *)

From S2P Require Import Prelude Regex Json JsonParse Network Deploy Adapters DeployPlan DeployApproval.
From stdpp Require Import pretty gmap.
From Stdlib Require Import Ascii.
Local Open Scope Z_scope.

Module Identity.
Import Regex DeployApproval.Manifest.

Definition RUNTIME_TOKEN_VERSION : string := "contextlock.runtime-token/v1".

Inductive Audience := MODEL | ADAPTER | CONTEXTLOCK | TELEMETRY.
#[export] Instance Audience_eq_dec : EqDecision Audience.
Proof. solve_decision. Defined.
Definition audienceText (a : Audience) : string :=
  match a with MODEL => "MODEL" | ADAPTER => "ADAPTER" | CONTEXTLOCK => "CONTEXTLOCK" | TELEMETRY => "TELEMETRY" end.

Record RuntimeTokenClaims := {
  v : string;
  deploymentId : string;
  agentId : string;
  organizationId : option string;
  blueprintHash : string;
  imageDigest : string;
  audiences : list Audience;
  issuedAtMs : Z;
  expiresAtMs : Z;
  sessionId : string;
  nonce : string;
  kid : string
}.

(** [RuntimeTokenClaimsSchema] on a document of the right shape. *)
Definition claimsOk (c : RuntimeTokenClaims) : bool :=
  streq (v c) RUNTIME_TOKEN_VERSION && text (deploymentId c) && text (agentId c) && matches SHA256 (blueprintHash c) &&
  matches SHA256 (imageDigest c) && Manifest.nonempty (audiences c) && Manifest.posInt (issuedAtMs c) &&
  Manifest.posInt (expiresAtMs c) && Manifest.textMin 8 (sessionId c) && Manifest.textMin 16 (nonce c) && text (kid c).

Definition claimsValue (c : RuntimeTokenClaims) : jsv :=
  VObj [("v", VStr (v c)); ("deploymentId", VStr (deploymentId c)); ("agentId", VStr (agentId c));
        ("organizationId", orNull VStr (organizationId c)); ("blueprintHash", VStr (blueprintHash c));
        ("imageDigest", VStr (imageDigest c)); ("audiences", VArr (map (fun a => VStr (audienceText a)) (audiences c)));
        ("issuedAtMs", VNum (issuedAtMs c)); ("expiresAtMs", VNum (expiresAtMs c)); ("sessionId", VStr (sessionId c));
        ("nonce", VStr (nonce c)); ("kid", VStr (kid c))].

(** Reading a property of a JSON object at its type. *)
Definition strAt (k : string) (o : list (string * jsv)) : option string :=
  match getKey k o with Some (VStr s) => Some s | _ => None end.
Definition numAt (k : string) (o : list (string * jsv)) : option Z :=
  match getKey k o with Some (VNum n) => Some n | _ => None end.
Definition nullableStrAt (k : string) (o : list (string * jsv)) : option (option string) :=
  match getKey k o with Some (VStr s) => Some (Some s) | Some VNull => Some None | _ => None end.
Definition audienceOf (x : jsv) : option Audience :=
  match x with
  | VStr s => List.find (fun a => streq (audienceText a) s) [MODEL; ADAPTER; CONTEXTLOCK; TELEMETRY]
  | _ => None
  end.
Definition arrAt {A : Type} (f : jsv -> option A) (k : string) (o : list (string * jsv)) : option (list A) :=
  match getKey k o with Some (VArr l) => mapM f l | _ => None end.

(** [RuntimeTokenClaimsSchema.parse]: properties the schema does not name are dropped. *)
Definition parseClaims (x : jsv) : option RuntimeTokenClaims :=
  match x with
  | VObj o =>
      v_ ← strAt "v" o; dep ← strAt "deploymentId" o; ag ← strAt "agentId" o; org ← nullableStrAt "organizationId" o;
      bp ← strAt "blueprintHash" o; im ← strAt "imageDigest" o; au ← arrAt audienceOf "audiences" o;
      iat ← numAt "issuedAtMs" o; exp ← numAt "expiresAtMs" o; se ← strAt "sessionId" o; no ← strAt "nonce" o;
      ki ← strAt "kid" o;
      let c := {| v := v_; deploymentId := dep; agentId := ag; organizationId := org; blueprintHash := bp;
                  imageDigest := im; audiences := au; issuedAtMs := iat; expiresAtMs := exp; sessionId := se;
                  nonce := no; kid := ki |} in
      if claimsOk c then Some c else None
  | _ => None
  end.

Definition FORBIDDEN_TOKEN_CLAIMS : list string :=
  ["capability"; "capabilityScope"; "signature"; "signingKey"; "privateKey"; "walletAddress"; "issuerKey"; "spendLimit";
   "maxValueUsdCents"; "policyOverride"; "adminRole"; "canSign"].

Inductive TokenReason :=
| MALFORMED | BAD_SIGNATURE | EXPIRED | NOT_YET_VALID | WRONG_AGENT | WRONG_DEPLOYMENT | WRONG_IMAGE | WRONG_AUDIENCE
| REVOKED | REPLAYED | UNKNOWN_KEY | FORBIDDEN_CLAIM.

(** What is used of the platform: signatures, base64url of bytes. *)
Class TokenCodec := {
  edSign : string -> string -> string;                (* private key, message *)
  edVerify : string -> string -> string -> bool;      (* public key, message, signature *)
  b64u : string -> string;
  unb64u : string -> string
}.

Section tokens.
Context {codec : TokenCodec}.

(** The sorted-key text of the claims: no property of theirs is named [__proto__], so [Json.canonicalize]
    is the serialization of this file too. *)
Definition canonical (c : RuntimeTokenClaims) : result JsonError string := canonicalize (claimsValue c).

Record SigningKey := { k_kid : string; privateKeyPem : string; publicKeyPem : string; createdAtMs : Z }.

Record RuntimeTokenIssuer := { keys : gmap string SigningKey; active : option string }.
Definition newIssuer : RuntimeTokenIssuer := {| keys := ∅; active := None |}.

Definition addKey (key : SigningKey) (makeActive : bool) (i : RuntimeTokenIssuer) : RuntimeTokenIssuer :=
  {| keys := <[k_kid key := key]> (keys i);
     active := if makeActive || bool_decide (active i = None) then Some (k_kid key) else active i |}.

Definition publicKeysOf (i : RuntimeTokenIssuer) : gmap string string := publicKeyPem <$> keys i.

(** What the caller asks for, with the names of any further properties of its object. *)
Record IssueArgs := {
  i_deploymentId : string;
  i_agentId : string;
  i_organizationId : option string;
  i_blueprintHash : string;
  i_imageDigest : string;
  i_audiences : list Audience;
  i_nowMs : Z;
  i_ttlMs : Z;
  i_further : list string
}.

Definition mintedClaims (a : IssueArgs) (sid nonce_ kid_ : string) : RuntimeTokenClaims :=
  {| v := RUNTIME_TOKEN_VERSION; deploymentId := i_deploymentId a; agentId := i_agentId a;
     organizationId := i_organizationId a; blueprintHash := i_blueprintHash a; imageDigest := i_imageDigest a;
     audiences := i_audiences a; issuedAtMs := i_nowMs a; expiresAtMs := i_nowMs a + i_ttlMs a; sessionId := sid;
     nonce := nonce_; kid := kid_ |}.

Definition tokenText (payload sig : string) : string := b64u payload +:+ "." +:+ b64u sig.

(** [sid] and [nonce_] are the random identifiers. *)
Definition issue (i : RuntimeTokenIssuer) (a : IssueArgs) (sid nonce_ : string) : result TokenReason string :=
  match Reuse.present (active i) ≫= fun k => keys i !! k with
  | None => Err UNKNOWN_KEY
  | Some key =>
      throw FORBIDDEN_CLAIM when some (includes (i_further a)) FORBIDDEN_TOKEN_CLAIMS ;;
      match canonical (mintedClaims a sid nonce_ (k_kid key)) with
      | Err _ => Err MALFORMED
      | Ok payload => Ok (tokenText payload (edSign (privateKeyPem key) payload))
      end
  end.

Record VerificationContext := {
  expectedAgentId : string;
  expectedDeploymentId : string;
  expectedImageDigest : string;
  audience : Audience;
  nowMs : Z
}.

Record RuntimeTokenVerifier := {
  publicKeys : gmap string string;
  revokedSessions : gset string;
  seenNonces : gmap string Z
}.

Definition newVerifier (pk : gmap string string) : RuntimeTokenVerifier :=
  {| publicKeys := pk; revokedSessions := ∅; seenNonces := ∅ |}.

Definition revokeSession (sid : string) (r : RuntimeTokenVerifier) : RuntimeTokenVerifier :=
  {| publicKeys := publicKeys r; revokedSessions := {[sid]} ∪ revokedSessions r; seenNonces := seenNonces r |}.

Definition signed (pem : string) (c : RuntimeTokenClaims) (s : string) : bool :=
  match canonical c with Ok t => edVerify pem t (unb64u s) | Err _ => false end.

Definition verify (r : RuntimeTokenVerifier) (token : string) (ctx : VerificationContext)
    : result TokenReason RuntimeTokenClaims :=
  match splitDot token with
  | [p; s] =>
      match parse (unb64u p) ≫= parseClaims with
      | None => Err MALFORMED
      | Some c =>
          match Reuse.present (publicKeys r !! kid c) with
          | None => Err UNKNOWN_KEY
          | Some pem =>
              throw BAD_SIGNATURE when negb (signed pem c s) ;;
              throw EXPIRED when expiresAtMs c <=? nowMs ctx ;;
              throw NOT_YET_VALID when nowMs ctx + 30000 <? issuedAtMs c ;;
              throw REVOKED when bool_decide (sessionId c ∈ revokedSessions r) ;;
              throw WRONG_AGENT when negb (streq (agentId c) (expectedAgentId ctx)) ;;
              throw WRONG_DEPLOYMENT when negb (streq (deploymentId c) (expectedDeploymentId ctx)) ;;
              throw WRONG_IMAGE when negb (streq (imageDigest c) (expectedImageDigest ctx)) ;;
              throw WRONG_AUDIENCE when negb (includes (audiences c) (audience ctx)) ;;
              Ok c
          end
      end
  | _ => Err MALFORMED
  end.

Definition nonceKey (c : RuntimeTokenClaims) (requestNonce : string) : string := sessionId c +:+ ":" +:+ requestNonce.

Definition verifyOnce (r : RuntimeTokenVerifier) (token : string) (ctx : VerificationContext) (requestNonce : string)
    : result TokenReason (RuntimeTokenClaims * RuntimeTokenVerifier) :=
  let* c := verify r token ctx in
  let key := nonceKey c requestNonce in
  throw REPLAYED when bool_decide (is_Some (seenNonces r !! key)) ;;
  Ok (c, {| publicKeys := publicKeys r; revokedSessions := revokedSessions r;
            seenNonces := <[key := nowMs ctx]> (seenNonces r) |}).

Definition DEFAULT_RUNTIME_TOKEN_TTL_MS : Z := 15 * 60000.

(** ** The signed text determines the claims *)

(** The claims as the document that is printed: the keys in order. *)
Definition claimsJson (c : RuntimeTokenClaims) : json :=
  JObj [("agentId", JStr (agentId c)); ("audiences", JArr (map (fun a => JStr (audienceText a)) (audiences c)));
        ("blueprintHash", JStr (blueprintHash c)); ("deploymentId", JStr (deploymentId c));
        ("expiresAtMs", JNum (expiresAtMs c)); ("imageDigest", JStr (imageDigest c)); ("issuedAtMs", JNum (issuedAtMs c));
        ("kid", JStr (kid c)); ("nonce", JStr (nonce c));
        ("organizationId", match organizationId c with Some o => JStr o | None => JNull end);
        ("sessionId", JStr (sessionId c)); ("v", JStr (v c))].

Lemma mapR_map {A B C E : Type} (f : B -> result E C) (g : A -> B) (h : A -> C) l :
  (forall x, f (g x) = Ok (h x)) -> mapR f (map g l) = Ok (map h l).
Proof. intros H. induction l as [|x l IH]; [done|]. simpl. by rewrite H, IH. Qed.

Lemma audiences_text l : canonWalk keptKey (VArr (map (fun a => VStr (audienceText a)) l)) =
  Ok (JArr (map (fun a => JStr (audienceText a)) l)).
Proof. cbn [canonWalk]. by rewrite (mapR_map _ _ (fun a => JStr (audienceText a))). Qed.

Lemma canonical_text c : canonical c = Ok (stringify (claimsJson c)).
Proof.
  unfold canonical, canonicalize, canonText.
  assert (canonWalk keptKey (claimsValue c) = Ok (claimsJson c)) as ->; [|done].
  unfold claimsValue, claimsJson. pose proof (audiences_text (audiences c)) as Ha. revert Ha.
  generalize (VArr (map (fun a => VStr (audienceText a)) (audiences c))) as va.
  generalize (JArr (map (fun a => JStr (audienceText a)) (audiences c))) as ja. intros ja va Ha.
  destruct (organizationId c); cbn [canonWalk mapR orNull rbind]; rewrite Ha; vm_compute; reflexivity.
Qed.

Lemma audienceText_inj a b : audienceText a = audienceText b -> a = b.
Proof. by destruct a, b. Qed.

Lemma ok_inj {E A : Type} (x y : A) : @Ok E A x = Ok y -> x = y.
Proof. congruence. Qed.

Lemma canonical_inj c c' : canonical c = canonical c' -> c = c'.
Proof.
  rewrite !canonical_text. intros E%ok_inj%stringify_inj. unfold claimsJson in E.
  destruct c as [v1 d1 a1 o1 b1 i1 u1 t1 e1 s1 n1 k1], c' as [v2 d2 a2 o2 b2 i2 u2 t2 e2 s2 n2 k2]. simpl in E.
  injection E as -> Hu -> -> -> -> -> -> -> Ho -> ->.
  assert (u1 = u2) as ->.
  { revert u2 Hu. induction u1 as [|x u1 IH]; intros [|y u2]; try done. intros [= Hx Hu].
    apply audienceText_inj in Hx as ->. f_equal. auto. }
  f_equal. by destruct o1, o2; simplify_eq.
Qed.

(** The parsed text of the claims is read as the claims. *)
Lemma audiences_read l : mapM audienceOf (map toValue (map (fun a => JStr (audienceText a)) l)) = Some l.
Proof.
  induction l as [|a l IH]; [done|]. simpl in *. rewrite IH. by destruct a.
Qed.

Lemma forallb_map_str {A : Type} (f : A -> string) l : forallb exact (map (fun a => JStr (f a)) l) = true.
Proof. by induction l. Qed.

Lemma parseClaims_text c : claimsOk c = true -> safe (issuedAtMs c) = true -> safe (expiresAtMs c) = true ->
  parse (stringify (claimsJson c)) ≫= parseClaims = Some c.
Proof.
  intros Hc Hi He. unfold parse. rewrite syntax_stringify.
  - cbn [fmap option_fmap option_map mbind option_bind].
    pose proof (audiences_read (audiences c)) as Ha. revert Ha.
    assert (toValue (claimsJson c) = VObj [("agentId", VStr (agentId c)); ("audiences", toValue (JArr (map (fun a => JStr (audienceText a)) (audiences c))));
      ("blueprintHash", VStr (blueprintHash c)); ("deploymentId", VStr (deploymentId c));
      ("expiresAtMs", VNum (expiresAtMs c)); ("imageDigest", VStr (imageDigest c)); ("issuedAtMs", VNum (issuedAtMs c));
      ("kid", VStr (kid c)); ("nonce", VStr (nonce c)); ("organizationId", orNull VStr (organizationId c));
      ("sessionId", VStr (sessionId c)); ("v", VStr (v c))]) as ->.
    { unfold claimsJson, orNull. generalize (JArr (map (fun a => JStr (audienceText a)) (audiences c))) as ja. intros ja.
      destruct (organizationId c); cbn [toValue map fst snd]; generalize (toValue ja) as va; intros va; vm_compute; reflexivity. }
    cbn [toValue]. generalize (map toValue (map (fun a => JStr (audienceText a)) (audiences c))). intros au Ha.
    assert (arrAt audienceOf "audiences" [("audiences", VArr au)] = Some (audiences c)) as Hr by exact Ha.
    destruct c as [v1 d1 a1 [o1|] b1 i1 u1 t1 e1 s1 n1 k1]; cbn in Hr |- *; rewrite Hr; cbn; by rewrite Hc.
  - cbn [exact claimsJson forallb fst snd]. rewrite Hi, He. destruct (organizationId c); rewrite forallb_map_str; reflexivity.
Qed.

(** ** What a verifier accepts *)

Definition admits (r : RuntimeTokenVerifier) (ctx : VerificationContext) (c : RuntimeTokenClaims) : Prop :=
  (nowMs ctx < expiresAtMs c /\ issuedAtMs c <= nowMs ctx + 30000) /\ sessionId c ∉ revokedSessions r /\
  agentId c = expectedAgentId ctx /\ deploymentId c = expectedDeploymentId ctx /\
  imageDigest c = expectedImageDigest ctx /\ audience ctx ∈ audiences c.

Lemma signed_text pem c s : signed pem c s = edVerify pem (stringify (claimsJson c)) (unb64u s).
Proof. unfold signed. by rewrite canonical_text. Qed.

Lemma verify_ok r token ctx c : verify r token ctx = Ok c <->
  exists p s pem, splitDot token = [p; s] /\ parse (unb64u p) ≫= parseClaims = Some c /\
    Reuse.present (publicKeys r !! kid c) = Some pem /\ signed pem c s = true /\ admits r ctx c.
Proof.
  unfold verify, admits. split.
  - destruct (splitDot token) as [|p [|s [|]]]; try done. destruct (parse (unb64u p) ≫= parseClaims) as [c'|] eqn:Ec; [|done].
    destruct (Reuse.present (publicKeys r !! kid c')) as [pem|] eqn:Ek; [|done].
    rewrite !throw_ok, !negb_false_iff, Z.leb_gt, Z.ltb_ge, bool_decide_eq_false, !streq_true, includes_true.
    intros (Hs & ? & ? & ? & ? & ? & ? & ? & [= <-]). exists p, s, pem. by split_and!.
  - intros (p & s & pem & -> & -> & -> & Hs & (H1 & H2) & H3 & H4 & H5 & H6 & H7).
    rewrite !throw_ok, !negb_false_iff, Z.leb_gt, Z.ltb_ge, bool_decide_eq_false, !streq_true, includes_true.
    by split_and!.
Qed.

(** Every signature that verifies under a key of the verifier is over the text of claims in [minted]:
    the unforgeability of the signatures, for an issuer that signed exactly those. *)
Definition unforged (r : RuntimeTokenVerifier) (minted : list RuntimeTokenClaims) : Prop :=
  forall k pem text sig, publicKeys r !! k = Some pem -> edVerify pem text sig = true ->
    exists c, c ∈ minted /\ canonical c = Ok text.

(** C10: a token the verifier accepts carries claims the issuer signed, whatever was done to the token on the
    way, and it is in its window of time, of a session that is not revoked, and bound to this agent, this
    deployment, this image and this gateway. *)
Theorem accepted_minted r minted token ctx c : unforged r minted -> verify r token ctx = Ok c ->
  c ∈ minted /\ admits r ctx c.
Proof.
  intros Hu (p & s & pem & _ & _ & [Hk _]%Reuse.present_some & Hs & Ha)%verify_ok. split; [|done].
  rewrite signed_text in Hs. destruct (Hu _ _ _ _ Hk Hs) as (c' & Hin & E).
  rewrite <- canonical_text in E. by rewrite <- (canonical_inj _ _ E).
Qed.

(** ** Issuing and verifying *)

(** What [Buffer] and [crypto] promise: base64url is read back and has no dot, and a signature verifies
    under the public key of the pair. *)
Class CodecLaws (pair : string -> string -> Prop) := {
  b64u_read : forall s, unb64u (b64u s) = s;
  b64u_dotless : forall s, all_chars dotless (b64u s) = true;
  sign_verifies : forall sk pk m, pair sk pk -> edVerify pk m (edSign sk m) = true
}.

Lemma tokenText_parts pair {H : CodecLaws pair} payload sig : splitDot (tokenText payload sig) = [b64u payload; b64u sig].
Proof.
  unfold tokenText. change ("." +:+ b64u sig) with (String "." (b64u sig)).
  rewrite splitDot_app by apply b64u_dotless. by rewrite splitDot_dotless by apply b64u_dotless.
Qed.

(** C36: a token issued with the active key of the issuer is accepted by a verifier holding the issuer's public
    keys, with exactly the claims minted, at every gateway of its audiences and every moment of its lifetime,
    for the agent, deployment and image it was issued for, until its session is revoked.  The claims minted are of the
    form the schema asks for, with times that doubles hold exactly, and the key is a pair under the id it is held by. *)
Theorem issue_verify pair {H : CodecLaws pair} (i : RuntimeTokenIssuer) (a : IssueArgs) sid nonce_ token revoked ctx key :
  issue i a sid nonce_ = Ok token ->
  Reuse.present (active i) ≫= (fun k => keys i !! k) = Some key -> keys i !! k_kid key = Some key ->
  pair (privateKeyPem key) (publicKeyPem key) -> publicKeyPem key <> "" ->
  let c := mintedClaims a sid nonce_ (k_kid key) in
  let r := {| publicKeys := publicKeysOf i; revokedSessions := revoked; seenNonces := ∅ |} in
  claimsOk c = true -> safe (issuedAtMs c) = true -> safe (expiresAtMs c) = true -> admits r ctx c ->
  verify r token ctx = Ok c.
Proof.
  intros Hi Hk Hkid Hp Hne c r Hc Hia Hea Ha. unfold issue in Hi. rewrite Hk, throw_ok in Hi. destruct Hi as [_ Hi].
  fold c in Hi. rewrite canonical_text in Hi. apply ok_inj in Hi. subst token. apply verify_ok.
  eexists _, _, (publicKeyPem key). rewrite (tokenText_parts pair), !b64u_read. split_and!; [done| | | |done].
  - by apply parseClaims_text.
  - apply Reuse.present_some. split; [|done]. unfold r, publicKeysOf. cbn [publicKeys kid c mintedClaims].
    by rewrite lookup_fmap, Hkid.
  - rewrite signed_text. rewrite b64u_read. by apply (sign_verifies (pair := pair)).
Qed.

(** ** A verifier over time *)

Inductive call :=
| Revoke (sid : string)
| Plain (token : string) (ctx : VerificationContext)
| Once (token : string) (ctx : VerificationContext) (requestNonce : string).

(** The verifier after a call, and the claims it accepted. *)
Definition respond (r : RuntimeTokenVerifier) (k : call) : RuntimeTokenVerifier * option RuntimeTokenClaims :=
  match k with
  | Revoke sid => (revokeSession sid r, None)
  | Plain t ctx => (r, match verify r t ctx with Ok c => Some c | Err _ => None end)
  | Once t ctx n => match verifyOnce r t ctx n with Ok (c, r') => (r', Some c) | Err _ => (r, None) end
  end.

(** The calls that were accepted, with their claims, in order. *)
Fixpoint history (r : RuntimeTokenVerifier) (l : list call) : list (call * RuntimeTokenClaims) :=
  match l with
  | [] => []
  | k :: l' => let '(r', o) := respond r k in
               match o with Some c => (k, c) :: history r' l' | None => history r' l' end
  end.

Definition onceKey (p : call * RuntimeTokenClaims) : option string :=
  match p.1 with Once _ _ n => Some (nonceKey p.2 n) | _ => None end.

Lemma verifyOnce_ok r t ctx n c r' : verifyOnce r t ctx n = Ok (c, r') <->
  verify r t ctx = Ok c /\ seenNonces r !! nonceKey c n = None /\
  r' = {| publicKeys := publicKeys r; revokedSessions := revokedSessions r;
          seenNonces := <[nonceKey c n := nowMs ctx]> (seenNonces r) |}.
Proof.
  unfold verifyOnce. split.
  - intros (c' & Hv & H)%rbind_ok. rewrite throw_ok, bool_decide_eq_false, <- eq_None_not_Some in H.
    destruct H as [Hn [= <- <-]]. done.
  - intros (-> & Hn & ->). simpl. rewrite throw_ok, bool_decide_eq_false, <- eq_None_not_Some. done.
Qed.

Lemma respond_grows r k : revokedSessions r ⊆ revokedSessions (respond r k).1 /\ dom (seenNonces r) ⊆ dom (seenNonces (respond r k).1).
Proof.
  destruct k as [sid|t ctx|t ctx n]; simpl; [set_solver..|].
  destruct (verifyOnce r t ctx n) as [[c r']|] eqn:E; [|set_solver]. apply verifyOnce_ok in E as (_ & _ & ->). set_solver.
Qed.

Lemma history_revoked r l sid k c : sid ∈ revokedSessions r -> (k, c) ∈ history r l -> sessionId c <> sid.
Proof.
  revert r. induction l as [|k' l IH]; intros r Hr; simpl; [by rewrite elem_of_nil|].
  pose proof (respond_grows r k') as [Hg _]. destruct (respond r k') as [r' o] eqn:E. simpl in Hg.
  assert (sid ∈ revokedSessions r') as Hr' by set_solver. destruct o as [c'|]; [|by apply IH].
  rewrite elem_of_cons. intros [[= -> ->]|H]; [|by apply (IH r')]. intros <-.
  assert (exists t ctx, verify r t ctx = Ok c') as (t & ctx & Hv).
  { destruct k' as [s|t ctx|t ctx n]; simpl in E; [done|..].
    - exists t, ctx. destruct (verify r t ctx); naive_solver.
    - exists t, ctx. destruct (verifyOnce r t ctx n) as [[c2 r2]|] eqn:Ev; [|done].
      apply verifyOnce_ok in Ev as [Ev _]. naive_solver. }
  apply verify_ok in Hv as (_ & _ & _ & _ & _ & _ & _ & _ & Hn & _). done.
Qed.

Lemma history_once_fresh r l key : key ∈ dom (seenNonces r) -> Some key ∉ map onceKey (history r l).
Proof.
  revert r. induction l as [|k l IH]; intros r Hr; simpl; [apply not_elem_of_nil|].
  pose proof (respond_grows r k) as [_ Hg]. destruct (respond r k) as [r' o] eqn:E. simpl in Hg.
  destruct o as [c|]; [|apply IH; set_solver]. simpl. rewrite elem_of_cons. intros [Hk|H]; [|by eapply IH; [|exact H]; set_solver].
  destruct k as [s|t ctx|t ctx n]; try done. unfold onceKey in Hk. simpl in Hk, E. injection Hk as ->.
  destruct (verifyOnce r t ctx n) as [[c2 r2]|] eqn:Ev; [|done]. apply verifyOnce_ok in Ev as (_ & Hn & _).
  injection E as _ <-. by apply not_elem_of_dom in Hn.
Qed.

(** Over any sequence of calls, no single-use request of a session is accepted twice, and once a session is
    revoked nothing of it is accepted any more. *)
Theorem verifier_history r l :
  (forall i j p q key, history r l !! i = Some p -> history r l !! j = Some q -> onceKey p = Some key -> onceKey q = Some key -> i = j) /\
  (forall l1 l2 sid k c, l = l1 ++ Revoke sid :: l2 -> (k, c) ∈ history (foldl (fun r k => (respond r k).1) r l1) (Revoke sid :: l2) ->
     sessionId c <> sid).
Proof.
  split.
  - revert r. induction l as [|k l IH]; intros r i j p q key; [done|]. simpl. destruct (respond r k) as [r' [c|]] eqn:E; [|apply IH].
    assert (forall n p', history r' l !! n = Some p' -> onceKey p' = Some key -> onceKey (k, c) <> Some key) as Hf.
    { intros n p' Hl Hp Hk. apply (history_once_fresh r' l key).
      - destruct k as [s|t ctx|t ctx m]; try done. unfold onceKey in Hk. simpl in Hk, E. injection Hk as <-.
        destruct (verifyOnce r t ctx m) as [[c2 r2]|] eqn:Ev; [|done]. apply verifyOnce_ok in Ev as (_ & _ & ->).
        injection E as <- <-. set_solver.
      - rewrite <- Hp. apply list_elem_of_fmap. exists p'. split; [done|]. by eapply list_elem_of_lookup_2. }
    destruct i as [|i], j as [|j]; simpl; intros Hi Hj Hp Hq; simplify_eq; [done|..].
    + by destruct (Hf _ _ Hj Hq).
    + by destruct (Hf _ _ Hi Hp).
    + f_equal. by eapply IH.
  - intros l1 l2 sid k c _ H. simpl in H. eapply history_revoked; [|exact H]. simpl. set_solver.
Qed.

End tokens.
End Identity.

Module Gateways.
Import Identity.

(** ** The model gateway *)

Inductive ModelReason := MODEL_NOT_SELECTABLE | QUOTA_EXCEEDED | TURN_LIMIT | TOOL_NOT_ALLOWED | RATE_LIMITED.

Inductive AdapterReason := ADAPTER_NOT_ALLOWED | ACTION_NOT_ALLOWED | HOST_NOT_ALLOWED | VERSION_MISMATCH | RAW_URL_REFUSED.

Inductive ContextLockReason := RAW_SIGNING_REFUSED | CAPABILITY_NOT_REQUESTABLE | POLICY_DISABLED | NOT_AUTHORIZED.

(** What a gateway throws: the token's reason, its own, the network guard's, a schema's, or what the call threw. *)
Inductive Failure :=
| TokenError (r : TokenReason)
| ModelGatewayError (r : ModelReason)
| AdapterBrokerError (r : AdapterReason)
| ContextLockBrokerError (r : ContextLockReason)
| GuardError (e : Roles.NetworkGuardError)
| ZodError
| CallError.

Definition lift {E A : Type} (f : E -> Failure) (r : result E A) : result Failure A :=
  match r with Ok a => Ok a | Err e => Err (f e) end.

Lemma lift_ok {E A : Type} (f : E -> Failure) (r : result E A) a : lift f r = Ok a <-> r = Ok a.
Proof. destruct r; simpl; naive_solver. Qed.

Definition PINNED_MODEL : string := "gpt-5.6-luna".

Record ModelQuota := {
  requestsPerAgentPerDay : Z;
  inputTokensPerAgentPerDay : Z;
  outputTokensPerAgentPerDay : Z;
  maxTurnsPerRun : Z;
  maxOutputTokensPerRequest : Z;
  requestsPerMinute : Z
}.

Definition DEFAULT_MODEL_QUOTA : ModelQuota :=
  {| requestsPerAgentPerDay := 500; inputTokensPerAgentPerDay := 5000000; outputTokensPerAgentPerDay := 500000;
     maxTurnsPerRun := 24; maxOutputTokensPerRequest := 8000; requestsPerMinute := 20 |}.

Record ModelUsageRecord := {
  u_agentId : string; u_deploymentId : string; requests : Z; inputTokens : Z; outputTokens : Z
}.

Record ModelRequest := {
  messages : list (string * string);
  maxOutputTokens : Z;
  toolNames : list string;
  turn : Z;
  correlationId : string;
  q_further : list string                      (* the names of any further properties *)
}.

Record ModelCall := { model : string; call_messages : list (string * string); call_maxOutputTokens : Z; tools : list string }.
Record ModelAnswer := { a_inputTokens : Z; a_outputTokens : Z; a_content : string }.
Record ModelReply := { reply_model : string; content : string; reply_usage : ModelUsageRecord; reply_correlationId : string }.

(** The two maps of a [ModelGateway]. *)
Record ModelGateway := { usage : gmap string ModelUsageRecord; recentRequests : gmap string (list Z) }.
Definition newModelGateway : ModelGateway := {| usage := ∅; recentRequests := ∅ |}.

Definition withAudience (a : Audience) (ctx : VerificationContext) : VerificationContext :=
  {| expectedAgentId := expectedAgentId ctx; expectedDeploymentId := expectedDeploymentId ctx;
     expectedImageDigest := expectedImageDigest ctx; audience := a; nowMs := nowMs ctx |}.

Definition usageFor (g : ModelGateway) (agent : string) : ModelUsageRecord :=
  default {| u_agentId := agent; u_deploymentId := ""; requests := 0; inputTokens := 0; outputTokens := 0 |} (usage g !! agent).

Definition charge (rec : ModelUsageRecord) (a : ModelAnswer) : ModelUsageRecord :=
  {| u_agentId := u_agentId rec; u_deploymentId := u_deploymentId rec; requests := requests rec + 1;
     inputTokens := inputTokens rec + a_inputTokens a; outputTokens := outputTokens rec + a_outputTokens a |}.

Definition recent (now : Z) (l : list Z) : list Z := List.filter (fun t => now - t <? 60000) l.

Section model.
Context {codec : TokenCodec} (verifier : RuntimeTokenVerifier) (quota : ModelQuota) (allowedTools : string -> list string).

(** [call] is the provider; [None] when it throws. *)
Definition complete (g : ModelGateway) (token : string) (ctx : VerificationContext) (request : ModelRequest)
    (call : ModelCall -> option ModelAnswer) : result Failure (ModelReply * ModelGateway) :=
  let* claims := lift TokenError (verify verifier token (withAudience MODEL ctx)) in
  throw (ModelGatewayError MODEL_NOT_SELECTABLE) when includes (q_further request) "model" ;;
  throw (ModelGatewayError TURN_LIMIT) when maxTurnsPerRun quota <? turn request ;;
  throw (ModelGatewayError QUOTA_EXCEEDED) when maxOutputTokensPerRequest quota <? maxOutputTokens request ;;
  let permitted := allowedTools (agentId claims) in
  throw (ModelGatewayError TOOL_NOT_ALLOWED) when some (fun t => negb (includes permitted t)) (toolNames request) ;;
  let fresh := recent (nowMs ctx) (default [] (recentRequests g !! agentId claims)) in
  throw (ModelGatewayError RATE_LIMITED) when requestsPerMinute quota <=? Z.of_nat (length fresh) ;;
  let rec := default {| u_agentId := agentId claims; u_deploymentId := deploymentId claims; requests := 0;
                        inputTokens := 0; outputTokens := 0 |} (usage g !! agentId claims) in
  throw (ModelGatewayError QUOTA_EXCEEDED) when requestsPerAgentPerDay quota <? requests rec + 1 ;;
  match call {| model := PINNED_MODEL; call_messages := messages request;
                call_maxOutputTokens := maxOutputTokens request; tools := permitted |} with
  | None => Err CallError
  | Some a =>
      let rec' := charge rec a in
      Ok ({| reply_model := PINNED_MODEL; content := a_content a; reply_usage := rec';
             reply_correlationId := correlationId request |},
          {| usage := <[agentId claims := rec']> (usage g);
             recentRequests := <[agentId claims := fresh ++ [nowMs ctx]]> (recentRequests g) |})
  end.

(** One call of the gateway, whatever it throws. *)
Record ModelEvent := { e_token : string; e_ctx : VerificationContext; e_request : ModelRequest; e_call : ModelCall -> option ModelAnswer }.
Definition serve (g : ModelGateway) (e : ModelEvent) : ModelGateway * option (string * Z) :=
  match complete g (e_token e) (e_ctx e) (e_request e) (e_call e) with
  | Ok (r, g') => (g', Some (u_agentId (reply_usage r), nowMs (e_ctx e)))
  | Err _ => (g, None)
  end.

(** The answered calls: whose quota was charged, and when. *)
Fixpoint answered (g : ModelGateway) (l : list ModelEvent) : list (string * Z) :=
  match l with
  | [] => []
  | e :: l' => let '(g', o) := serve g e in match o with Some p => p :: answered g' l' | None => answered g' l' end
  end.

End model.

(** ** The adapter broker *)

Record AdapterGrant := { g_adapterId : string; version : string; actions : list string; hosts : list string }.

Record AdapterRequest := {
  adapterId : string; adapterVersion : string; action : string; args : list (string * jsv); r_correlationId : string
}.

Definition REFUSED_ARGS : list string := ["url"; "endpoint"; "host"; "baseUrl"; "credentialRef"; "authorization"; "headers"].

(** A property of an object the runtime supplied. *)
Definition has {A : Type} (o : list (string * A)) (k : string) : bool := match getKey k o with Some _ => true | None => false end.

(** The grant and action the provider is called with. *)
Definition invoke {codec : TokenCodec} (verifier : RuntimeTokenVerifier) (grants : string -> list AdapterGrant)
    (token : string) (ctx : VerificationContext) (request : AdapterRequest)
    (perform : AdapterGrant -> string -> list (string * jsv) -> option jsv) : result Failure jsv :=
  let* claims := lift TokenError (verify verifier token (withAudience ADAPTER ctx)) in
  throw (AdapterBrokerError RAW_URL_REFUSED) when some (has (args request)) REFUSED_ARGS ;;
  match List.find (fun g => streq (g_adapterId g) (adapterId request)) (grants (agentId claims)) with
  | None => Err (AdapterBrokerError ADAPTER_NOT_ALLOWED)
  | Some grant =>
      throw (AdapterBrokerError VERSION_MISMATCH) when negb (streq (version grant) (adapterVersion request)) ;;
      throw (AdapterBrokerError ACTION_NOT_ALLOWED) when negb (includes (actions grant) (action request)) ;;
      match perform grant (action request) (args request) with Some r => Ok r | None => Err CallError end
  end.

(** ** The ContextLock broker *)

Record Intent := {
  n_action : string; n_chainId : Z; target : string; amount : option string; n_token : option string; rationale : option string
}.

(** An optional text property: absent and [undefined] are the same. *)
Definition optStrAt (k : string) (o : list (string * jsv)) : option (option string) :=
  match getKey k o with Some (VStr s) => Some (Some s) | Some VUndef | None => Some None | _ => None end.

(** [IntentSchema.parse]. *)
Definition parseIntent (x : option jsv) : option Intent :=
  match x with
  | Some (VObj o) =>
      ac ← strAt "action" o; ch ← numAt "chainId" o; ta ← strAt "target" o; am ← optStrAt "amount" o;
      tk ← optStrAt "token" o; ra ← optStrAt "rationale" o;
      if negb (streq ac "") && (0 <? ch) && negb (streq ta "") &&
         match am with Some s => matches DIGITS s | None => true end
      then Some {| n_action := ac; n_chainId := ch; target := ta; amount := am; n_token := tk; rationale := ra |} else None
  | _ => None
  end.

Definition REFUSED_AUTHORITY : list string :=
  ["signature"; "digest"; "capability"; "capabilityScope"; "issuerSignature"; "privateKey"].

Inductive Disposition := ALLOW | DENY | ESCALATE.
Record Verdict := { disposition : Disposition; reason : string }.

(** The third field of the answer, [capabilityIssued], is the constant [false]. *)
Definition requestIntent {codec : TokenCodec} (verifier : RuntimeTokenVerifier) (policyEnabled : string -> bool)
    (decide : string -> Intent -> Verdict) (token : string) (ctx : VerificationContext)
    (request : list (string * jsv)) : result Failure Verdict :=
  let* claims := lift TokenError (verify verifier token (withAudience CONTEXTLOCK ctx)) in
  throw (ContextLockBrokerError RAW_SIGNING_REFUSED) when some (has request) REFUSED_AUTHORITY ;;
  match parseIntent (getKey "intent" request) with
  | None => Err ZodError
  | Some intent =>
      let* _ := lift GuardError (Fences.fenceWriteByChain Fences.AGENT_RUNTIME (n_chainId intent) None None) in
      let* _ := lift GuardError (Fences.fenceWriteByChain Fences.CONTEXTLOCK_BROKER (n_chainId intent) None None) in
      throw (ContextLockBrokerError POLICY_DISABLED) when negb (policyEnabled (agentId claims)) ;;
      Ok (decide (agentId claims) intent)
  end.

(** ** The telemetry gateway *)

Record TelemetryEvent := { t_agentId : string; t_type : string; atMs : Z }.
Record TelemetryGateway := { checkpoints : gmap string jsv; events : list TelemetryEvent }.

Section telemetry.
Context {codec : TokenCodec} (verifier : RuntimeTokenVerifier).

Definition emit (g : TelemetryGateway) (token : string) (ctx : VerificationContext) (type : string)
    : result Failure TelemetryGateway :=
  let* claims := lift TokenError (verify verifier token (withAudience TELEMETRY ctx)) in
  Ok {| checkpoints := checkpoints g;
        events := events g ++ [{| t_agentId := agentId claims; t_type := type; atMs := nowMs ctx |}] |}.

Definition checkpointKey (c : RuntimeTokenClaims) : string := deploymentId c +:+ ":" +:+ agentId c.

Definition saveCheckpoint (g : TelemetryGateway) (token : string) (ctx : VerificationContext) (cursor : jsv)
    : result Failure TelemetryGateway :=
  let* claims := lift TokenError (verify verifier token (withAudience TELEMETRY ctx)) in
  Ok {| checkpoints := <[checkpointKey claims := cursor]> (checkpoints g); events := events g |}.

Definition loadCheckpoint (g : TelemetryGateway) (token : string) (ctx : VerificationContext) : result Failure jsv :=
  let* claims := lift TokenError (verify verifier token (withAudience TELEMETRY ctx)) in
  Ok (match checkpoints g !! checkpointKey claims with Some VUndef | None => VNull | Some x => x end).

Definition eventsFor (g : TelemetryGateway) (agent : string) : list TelemetryEvent :=
  List.filter (fun e => streq (t_agentId e) agent) (events g).

End telemetry.

(** ** Limits of the model gateway *)

Definition times (a : string) (past : list (string * Z)) : list Z :=
  map snd (List.filter (fun p => streq p.1 a) past).

Lemma times_snoc a past p : times a (past ++ [p]) = times a past ++ (if streq p.1 a then [p.2] else []).
Proof. unfold times. rewrite List.filter_app, map_app. simpl. by destruct (streq p.1 a). Qed.

Lemma recent_app T l l' : recent T (l ++ l') = recent T l ++ recent T l'.
Proof. apply List.filter_app. Qed.

(** Forgetting requests that were already old changes nothing later. *)
Lemma recent_recent now T l : now <= T -> recent T (recent now l) = recent T l.
Proof.
  intros H. unfold recent. induction l as [|t l IH]; simpl; [done|]. destruct (now - t <? 60000) eqn:E; simpl.
  - destruct (T - t <? 60000); by rewrite IH.
  - apply Z.ltb_ge in E. assert (T - t <? 60000 = false) as -> by (apply Z.ltb_ge; lia). done.
Qed.

Section limits.
Context {codec : TokenCodec} (verifier : RuntimeTokenVerifier) (quota : ModelQuota) (allowedTools : string -> list string).
Notation serve := (serve verifier quota allowedTools).
Notation answered := (answered verifier quota allowedTools).
Notation complete := (complete verifier quota allowedTools).

(** An answered call: the account it is charged to, its limits, and the gateway after it. *)
Lemma complete_ok g t ctx q call r g' : complete g t ctx q call = Ok (r, g') <->
  exists c a rec,
    verify verifier t (withAudience MODEL ctx) = Ok c /\ ~ ("model" ∈ q_further q) /\ turn q <= maxTurnsPerRun quota /\
    maxOutputTokens q <= maxOutputTokensPerRequest quota /\ (forall x, x ∈ toolNames q -> x ∈ allowedTools (agentId c)) /\
    let fresh := recent (nowMs ctx) (default [] (recentRequests g !! agentId c)) in
    Z.of_nat (length fresh) < requestsPerMinute quota /\
    rec = default {| u_agentId := agentId c; u_deploymentId := deploymentId c; requests := 0; inputTokens := 0; outputTokens := 0 |}
                  (usage g !! agentId c) /\
    requests rec + 1 <= requestsPerAgentPerDay quota /\
    call {| model := PINNED_MODEL; call_messages := messages q; call_maxOutputTokens := maxOutputTokens q;
            tools := allowedTools (agentId c) |} = Some a /\
    r = {| reply_model := PINNED_MODEL; content := a_content a; reply_usage := charge rec a; reply_correlationId := correlationId q |} /\
    g' = {| usage := <[agentId c := charge rec a]> (usage g);
            recentRequests := <[agentId c := fresh ++ [nowMs ctx]]> (recentRequests g) |}.
Proof.
  unfold Gateways.complete. rewrite rbind_ok. setoid_rewrite lift_ok. split.
  - intros (c & Hv & H). rewrite !throw_ok, !Z.ltb_ge, Z.leb_gt, some_false, includes_false in H.
    destruct H as (? & ? & ? & Ht & ? & ? & H). set (rec := default _ (usage g !! agentId c)) in *.
    destruct (call _) as [a|] eqn:Ec; [|done]. injection H as <- <-. exists c, a, rec.
    repeat split; try done. intros x Hx. specialize (Ht x Hx). by apply negb_false_iff, includes_true in Ht.
  - intros (c & a & rec & Hv & ? & ? & ? & Ht & ? & -> & ? & Hc & -> & ->). exists c. split; [done|].
    rewrite !throw_ok, !Z.ltb_ge, Z.leb_gt, some_false, includes_false, Hc. repeat split; try done.
    intros x Hx. by apply negb_false_iff, includes_true, Ht.
Qed.

(** The gateway's accounts are those of the answered calls. *)
Definition accounts (g : ModelGateway) (past : list (string * Z)) : Prop :=
  forall a, match usage g !! a with
            | Some rec => u_agentId rec = a /\ requests rec = Z.of_nat (length (times a past)) /\
                          requests rec <= requestsPerAgentPerDay quota
            | None => times a past = []
            end.

(** The window of an agent holds its answered calls of the last minute. *)
Definition windows (g : ModelGateway) (past : list (string * Z)) : Prop :=
  forall a T, (forall p, p ∈ past -> p.2 <= T) -> recent T (default [] (recentRequests g !! a)) = recent T (times a past).

Lemma serve_some g e g' p : serve g e = (g', Some p) -> exists r,
  complete g (e_token e) (e_ctx e) (e_request e) (e_call e) = Ok (r, g') /\ p = (u_agentId (reply_usage r), nowMs (e_ctx e)).
Proof. unfold Gateways.serve. destruct (complete _ _ _ _ _) as [[r g2]|]; [|done]. intros [= <- <-]. by exists r. Qed.

Lemma serve_none g e g' : serve g e = (g', None) -> g' = g.
Proof. unfold Gateways.serve. destruct (complete _ _ _ _ _) as [[r g2]|]; congruence. Qed.

Lemma serve_accounts g past e g' p : accounts g past -> serve g e = (g', Some p) ->
  accounts g' (past ++ [p]) /\ Z.of_nat (length (times p.1 past)) < requestsPerAgentPerDay quota.
Proof.
  intros Hg (r & (c & x & rec & _ & _ & _ & _ & _ & _ & Hrec & Hq & _ & -> & ->)%complete_ok & ->)%serve_some.
  pose proof (Hg (agentId c)) as Hc. assert (u_agentId rec = agentId c /\ requests rec = Z.of_nat (length (times (agentId c) past))) as [Hid Hn].
  { subst rec. destruct (usage g !! agentId c) as [rec|]; simpl; [naive_solver|]. by rewrite Hc. }
  simpl. rewrite Hid. split; [|lia]. intros a. rewrite times_snoc. simpl. destruct (decide (agentId c = a)) as [<-|Hne].
  - rewrite lookup_insert_eq, streq_refl, length_app. simpl. repeat split; [done|lia|done].
  - rewrite lookup_insert_ne by done. rewrite (proj2 (streq_false _ _) Hne), app_nil_r. apply Hg.
Qed.

Lemma serve_windows g past e g' p : accounts g past -> windows g past -> (forall q, q ∈ past -> q.2 <= nowMs (e_ctx e)) ->
  serve g e = (g', Some p) ->
  windows g' (past ++ [p]) /\ Z.of_nat (length (recent p.2 (times p.1 past))) < requestsPerMinute quota.
Proof.
  intros Hg Hw Hp (r & (c & x & rec & _ & _ & _ & _ & _ & Hf & Hrec & Hq & _ & -> & ->)%complete_ok & ->)%serve_some.
  pose proof (Hg (agentId c)) as Hc. assert (u_agentId rec = agentId c) as Hid.
  { subst rec. destruct (usage g !! agentId c) as [rec|]; simpl; naive_solver. }
  simpl in *. rewrite Hid. rewrite <- (Hw _ _ Hp). split; [|done]. intros a T HT. rewrite times_snoc. simpl.
  assert (forall q, q ∈ past -> q.2 <= T) as HT' by (intros q Hq'; apply HT; set_solver).
  assert (nowMs (e_ctx e) <= T) as Hnow by (apply (HT (agentId c, nowMs (e_ctx e))); set_solver).
  destruct (decide (agentId c = a)) as [<-|Hne].
  - rewrite lookup_insert_eq, streq_refl. simpl. rewrite !recent_app, recent_recent by done. by rewrite (Hw _ _ HT').
  - rewrite lookup_insert_ne by done. rewrite (proj2 (streq_false _ _) Hne), app_nil_r. by apply Hw.
Qed.

(** Clock readings that never go back. *)
Fixpoint clocked (now : Z) (l : list ModelEvent) : Prop :=
  match l with [] => True | e :: l' => now <= nowMs (e_ctx e) /\ clocked (nowMs (e_ctx e)) l' end.

Lemma answered_accounts l : forall g past, accounts g past -> forall l1 p l2, answered g l = l1 ++ p :: l2 ->
  Z.of_nat (length (times p.1 (past ++ l1))) < requestsPerAgentPerDay quota.
Proof.
  induction l as [|e l IH]; intros g past Hg l1 p l2; simpl; [by destruct l1|].
  destruct (serve g e) as [g' [p'|]] eqn:E; [|apply serve_none in E as ->; by apply IH].
  destruct (serve_accounts g past e g' p' Hg E) as [Hg' Hq]. destruct l1 as [|p1 l1]; simpl; intros [= -> H].
  - by rewrite app_nil_r.
  - specialize (IH g' (past ++ [p1]) Hg' l1 p l2 H). by rewrite <- app_assoc in IH.
Qed.

Lemma answered_windows l : forall now g past, accounts g past -> windows g past -> (forall q, q ∈ past -> q.2 <= now) ->
  clocked now l -> forall l1 p l2, answered g l = l1 ++ p :: l2 ->
  Z.of_nat (length (recent p.2 (times p.1 (past ++ l1)))) < requestsPerMinute quota.
Proof.
  induction l as [|e l IH]; intros now g past Hg Hw Hp Hl l1 p l2; simpl; [by destruct l1|]. simpl in Hl. destruct Hl as [Hn Hl].
  assert (forall q, q ∈ past -> q.2 <= nowMs (e_ctx e)) as Hp' by (intros q Hq; specialize (Hp q Hq); lia).
  destruct (serve g e) as [g' [p'|]] eqn:E; [|apply serve_none in E as ->; by eapply IH].
  destruct (serve_accounts g past e g' p' Hg E) as [Hg' _]. destruct (serve_windows g past e g' p' Hg Hw Hp' E) as [Hw' Hq].
  destruct l1 as [|p1 l1]; simpl; intros [= -> H].
  - by rewrite app_nil_r.
  - assert (forall q, q ∈ past ++ [p1] -> q.2 <= nowMs (e_ctx e)) as Hp1.
    { intros q [Hq'|Hq']%elem_of_app; [by apply Hp'|]. apply list_elem_of_singleton in Hq' as ->.
      apply serve_some in E as (r & _ & ->). simpl. lia. }
    specialize (IH _ g' (past ++ [p1]) Hg' Hw' Hp1 Hl l1 p l2 H). by rewrite <- app_assoc in IH.
Qed.

(** Whatever requests arrive, with whatever tokens and in whatever order, the model gateway answers an agent
    at most its quota of requests; and while the clock does not go back, at most its rate in any minute before
    an answered request.  Both are counted on the agent of the token. *)
Theorem model_limits now l l1 p l2 : answered newModelGateway l = l1 ++ p :: l2 ->
  Z.of_nat (length (times p.1 l1)) < requestsPerAgentPerDay quota /\
  (clocked now l -> Z.of_nat (length (recent p.2 (times p.1 l1))) < requestsPerMinute quota).
Proof.
  intros H. assert (accounts newModelGateway []) as Ha by (intros a; simpl; by rewrite lookup_empty).
  split; [by apply (answered_accounts l _ [] Ha _ _ _ H)|]. intros Hc.
  apply (answered_windows l now newModelGateway [] Ha) with (l2 := l2); try done.
  - intros q Hq. by apply elem_of_nil in Hq.
Qed.

End limits.

(** ** The adapter broker *)

(** A provider is called only for a verified token, for the adapter, version and action the agent of that
    token is granted, and never with an argument that names a host or a credential; what is returned is the
    provider's answer. *)
Theorem invoke_ok {codec : TokenCodec} verifier grants token ctx q perform x :
  invoke verifier grants token ctx q perform = Ok x <->
  exists c g, verify verifier token (withAudience ADAPTER ctx) = Ok c /\
    (forall k, k ∈ REFUSED_ARGS -> getKey k (args q) = None) /\
    List.find (fun g => streq (g_adapterId g) (adapterId q)) (grants (agentId c)) = Some g /\
    version g = adapterVersion q /\ action q ∈ actions g /\ perform g (action q) (args q) = Some x.
Proof.
  unfold invoke. rewrite rbind_ok. setoid_rewrite lift_ok. apply exist_proper. intros c. split.
  - intros [Hv H]. rewrite throw_ok, some_false in H. destruct H as [Ha H].
    destruct (List.find _ _) as [g|] eqn:Eg; [|done]. rewrite !throw_ok, !negb_false_iff, streq_true, includes_true in H.
    destruct H as (Hver & Hact & H). exists g. destruct (perform g _ _) eqn:Ep; [|done]. injection H as <-.
    repeat split; try done. intros k Hk. specialize (Ha k Hk). unfold has in Ha. by destruct (getKey k (args q)).
  - intros (g & Hv & Ha & -> & Hver & Hact & ->). split; [done|].
    rewrite !throw_ok, !negb_false_iff, streq_true, includes_true, some_false. repeat split; try done.
    intros k Hk. unfold has. by rewrite (Ha k Hk).
Qed.

(** ** The ContextLock broker *)

(** An intent is put to the decision only when the token was verified for this broker, the request carries
    no authority of its own, it names a chain the registry lets a subsystem write to, and the agent's policy is
    enabled; the answer is then the decision's.  With the policy disabled, no token, request or decision
    obtains an answer. *)
Theorem requestIntent_ok {codec : TokenCodec} verifier policyEnabled decide token ctx q x :
  requestIntent verifier policyEnabled decide token ctx q = Ok x <->
  exists c n, verify verifier token (withAudience CONTEXTLOCK ctx) = Ok c /\
    (forall k, k ∈ REFUSED_AUTHORITY -> getKey k q = None) /\ parseIntent (getKey "intent" q) = Some n /\
    n_chainId n ∈ Fences.writableChains /\ policyEnabled (agentId c) = true /\ x = decide (agentId c) n.
Proof.
  unfold requestIntent. rewrite rbind_ok. setoid_rewrite lift_ok. apply exist_proper. intros c. split.
  - intros [Hv H]. rewrite throw_ok, some_false in H. destruct H as [Ha H].
    destruct (parseIntent _) as [n|] eqn:En; [|done]. apply rbind_ok in H as ([] & H1 & ([] & _ & H)%rbind_ok).
    rewrite lift_ok in H1. apply Fences.fenceWriteByChain_spec in H1. rewrite throw_ok, negb_false_iff in H.
    destruct H as [Hp [= <-]]. exists n. repeat split; try done.
    intros k Hk. specialize (Ha k Hk). unfold has in Ha. by destruct (getKey k q).
  - intros (n & Hv & Ha & -> & Hc & Hp & ->). split; [done|]. rewrite throw_ok, some_false. split.
    + intros k Hk. unfold has. by rewrite (Ha k Hk).
    + rewrite !Fences.fenceWriteByChain_ok by done. simpl. by rewrite Hp.
Qed.

(** ** The telemetry gateway *)

(** What an agent saved last is what it loads, whatever the other agents of other deployments saved since. *)
Lemma checkpoint_kept {codec : TokenCodec} verifier g t1 ctx1 cur g1 t2 ctx2 x :
  saveCheckpoint verifier g t1 ctx1 cur = Ok g1 -> loadCheckpoint verifier g1 t2 ctx2 = Ok x ->
  expectedAgentId ctx1 = expectedAgentId ctx2 -> expectedDeploymentId ctx1 = expectedDeploymentId ctx2 ->
  x = match cur with VUndef => VNull | _ => cur end.
Proof.
  unfold saveCheckpoint, loadCheckpoint. intros (c1 & H1 & [= <-])%rbind_ok (c2 & H2 & [= <-])%rbind_ok Ha Hd.
  apply lift_ok, verify_ok in H1 as (_ & _ & _ & _ & _ & _ & _ & _ & _ & A1 & D1 & _).
  apply lift_ok, verify_ok in H2 as (_ & _ & _ & _ & _ & _ & _ & _ & _ & A2 & D2 & _). simpl in *.
  unfold checkpointKey. rewrite A1, A2, D1, D2, Ha, Hd, lookup_insert_eq. done.
Qed.

(** The key of a checkpoint does not determine the deployment and the agent. *)
Lemma checkpointKey_ambiguous : exists c c', (deploymentId c, agentId c) <> (deploymentId c', agentId c') /\
  checkpointKey c = checkpointKey c'.
Proof.
  set (mk d a := {| v := ""; deploymentId := d; agentId := a; organizationId := None; blueprintHash := ""; imageDigest := "";
                    audiences := []; issuedAtMs := 1; expiresAtMs := 1; sessionId := ""; nonce := ""; kid := "" |}).
  exists (mk "d:x" "a"), (mk "d" "x:a"). done.
Qed.

End Gateways.

Module Revision.

Inductive RuntimeReason :=
| UNKNOWN_PROVIDER | PROVIDER_NOT_SELECTABLE | UNAVAILABLE | SECRET_IN_ENVIRONMENT | DIGEST_MISMATCH | NO_ROLLBACK_TARGET
| MUTATION_ATTEMPTED | PAUSED.

Record RevisionHistoryEntry := {
  revisionId : string;
  imageDigest : string;
  blueprintRevision : Z;
  buildRevision : Z;
  createdAtMs : Z;
  previousRevisionId : option string;
  everHealthy : bool;
  retiredAtMs : option Z;
  retiredReason : option string
}.

Definition live (e : RevisionHistoryEntry) : bool := match retiredAtMs e with None => true | Some _ => false end.

(** The entries of a [RevisionHistory]. *)
Definition current (h : list RevisionHistoryEntry) : option RevisionHistoryEntry :=
  match last (List.filter live h) with Some e => Some e | None => last h end.

(** Shifting while there are more than [retain]. *)
Definition trim (retain : nat) (h : list RevisionHistoryEntry) : list RevisionHistoryEntry := drop (length h - retain) h.

Definition add (retain : nat) (e : RevisionHistoryEntry) (h : list RevisionHistoryEntry)
    : result RuntimeReason (list RevisionHistoryEntry) :=
  throw MUTATION_ATTEMPTED when (match current h with Some c => streq (imageDigest c) (imageDigest e) | None => false end) ;;
  Ok (trim retain (h ++ [e])).

Definition setHealthy (e : RevisionHistoryEntry) : RevisionHistoryEntry :=
  {| revisionId := revisionId e; imageDigest := imageDigest e; blueprintRevision := blueprintRevision e;
     buildRevision := buildRevision e; createdAtMs := createdAtMs e; previousRevisionId := previousRevisionId e;
     everHealthy := true; retiredAtMs := retiredAtMs e; retiredReason := retiredReason e |}.
Definition setRetired (reason : string) (at_ : Z) (e : RevisionHistoryEntry) : RevisionHistoryEntry :=
  {| revisionId := revisionId e; imageDigest := imageDigest e; blueprintRevision := blueprintRevision e;
     buildRevision := buildRevision e; createdAtMs := createdAtMs e; previousRevisionId := previousRevisionId e;
     everHealthy := everHealthy e; retiredAtMs := Some at_; retiredReason := Some reason |}.

(** The first entry with the id, updated in place. *)
Fixpoint onFirst (id : string) (f : RevisionHistoryEntry -> RevisionHistoryEntry) (h : list RevisionHistoryEntry)
    : list RevisionHistoryEntry :=
  match h with
  | [] => []
  | e :: h' => if streq (revisionId e) id then f e :: h' else e :: onFirst id f h'
  end.
Definition markHealthy (id : string) : list RevisionHistoryEntry -> list RevisionHistoryEntry := onFirst id setHealthy.
Definition retire (id reason : string) (at_ : Z) : list RevisionHistoryEntry -> list RevisionHistoryEntry :=
  onFirst id (setRetired reason at_).

Definition rollbackTarget (h : list RevisionHistoryEntry) : result RuntimeReason RevisionHistoryEntry :=
  let c := current h in
  match last (List.filter (fun e => negb (match c with Some c => streq (revisionId e) (revisionId c) | None => false end) && everHealthy e) h) with
  | Some e => Ok e
  | None => Err NO_ROLLBACK_TARGET
  end.

(** [assertIsNewRevision], on the ids and digests of the two revisions. *)
Definition assertIsNewRevision (next : string * string) (cur : option (string * string)) : result RuntimeReason unit :=
  match cur with
  | None => Ok tt
  | Some c =>
      throw MUTATION_ATTEMPTED when streq next.2 c.2 ;;
      throw MUTATION_ATTEMPTED when streq next.1 c.1 ;;
      Ok tt
  end.

(** ** Providers *)

Inductive NetworkEgress := NONE | ALLOWLIST | OPEN | UNKNOWN.

(** The registry: an insertion-ordered map of factories, here by the name they produce. *)
Definition registerRuntimeProvider {P : Type} (id : string) (factory : P) (m : gmap string P) : gmap string P := <[id := factory]> m.
Definition getRuntimeProvider {P : Type} (m : gmap string P) (id : string) (allowedByOperator : list string) : result RuntimeReason P :=
  throw PROVIDER_NOT_SELECTABLE when negb (includes allowedByOperator id) ;;
  match m !! id with Some p => Ok p | None => Err UNKNOWN_PROVIDER end.

(** ** The history *)

Lemma trim_length retain h : (length (trim retain h) <= retain)%nat.
Proof. unfold trim. rewrite length_drop. lia. Qed.

Lemma trim_snoc retain h e : (0 < retain)%nat -> exists h', trim retain (h ++ [e]) = h' ++ [e] /\ h' `suffix_of` h.
Proof.
  intros Hr. unfold trim. rewrite length_app. simpl. exists (drop (length h + 1 - retain) h). split.
  - apply drop_app_le. lia.
  - apply suffix_drop.
Qed.

Lemma current_snoc h e : live e = true -> current (h ++ [e]) = Some e.
Proof. intros He. unfold current. rewrite List.filter_app. simpl. rewrite He. by rewrite last_snoc. Qed.

(** A history that is only built by the operations. *)
Inductive reachable (retain : nat) : list RevisionHistoryEntry -> Prop :=
| reach_new : reachable retain []
| reach_add h e h' : reachable retain h -> add retain e h = Ok h' -> reachable retain h'
| reach_healthy h id : reachable retain h -> reachable retain (markHealthy id h)
| reach_retire h id reason at_ : reachable retain h -> reachable retain (retire id reason at_ h).

Lemma onFirst_length id f h : length (onFirst id f h) = length h.
Proof. induction h as [|e h IH]; simpl; [done|]. destruct (streq _ _); simpl; congruence. Qed.

Lemma last_filter {A : Type} (f : A -> bool) l x : last (List.filter f l) = Some x -> x ∈ l /\ f x = true.
Proof. intros H%last_Some_elem_of. by apply list_elem_of_In, List.filter_In in H as [H%list_elem_of_In ?]. Qed.

(** The history retains at most its bound; a revision just added is the current one and carries another
    digest than the one before; and a rollback goes to a retained revision that was healthy once and is not the
    current one, the latest of those, being refused exactly when there is none. *)
Theorem history_spec retain h : reachable retain h ->
  (length h <= retain)%nat /\
  (forall e h', (0 < retain)%nat -> live e = true -> add retain e h = Ok h' ->
     current h' = Some e /\ forall c, current h = Some c -> imageDigest c <> imageDigest e) /\
  (forall e, rollbackTarget h = Ok e ->
     e ∈ h /\ everHealthy e = true /\ (forall c, current h = Some c -> revisionId e <> revisionId c)) /\
  (is_ok (rollbackTarget h) = false <->
     forall e, e ∈ h -> everHealthy e = true -> exists c, current h = Some c /\ revisionId e = revisionId c).
Proof.
  intros Hr. split; [|split; [|split]].
  - induction Hr as [|h e h' _ IH H|h id _ IH|h id reason at_ _ IH]; simpl; [lia| | |].
    + unfold add in H. rewrite throw_ok in H. destruct H as [_ [= <-]]. apply trim_length.
    + unfold markHealthy. by rewrite onFirst_length.
    + unfold retire. by rewrite onFirst_length.
  - intros e h' Hpos He H. unfold add in H. rewrite throw_ok in H. destruct H as [Hd [= <-]]. split.
    + destruct (trim_snoc retain h e Hpos) as (h1 & -> & _). by apply current_snoc.
    + intros c Hc. rewrite Hc in Hd. by apply streq_false.
  - intros e H. unfold rollbackTarget in H. destruct (last _) as [x|] eqn:E; [|done]. injection H as ->.
    apply last_filter in E as [Hin [Hn He]%andb_true_iff]. split_and!; [done..|]. intros c Hc. rewrite Hc in Hn.
    by apply negb_true_iff, streq_false in Hn.
  - unfold rollbackTarget. destruct (last _) as [x|] eqn:E; simpl.
    + split; [done|]. intros H. apply last_filter in E as [Hin [Hn He]%andb_true_iff].
      destruct (H x Hin He) as (c & Hc & Hid). by rewrite Hc, Hid, streq_refl in Hn.
    + split; [|done]. intros _ e Hin He. apply last_None in E.
      assert (e ∉ List.filter (fun e => negb (match current h with Some c => streq (revisionId e) (revisionId c) | None => false end) && everHealthy e) h) as Hf
        by (rewrite E; apply not_elem_of_nil).
      rewrite list_elem_of_In, List.filter_In, <- list_elem_of_In, He, andb_true_r in Hf.
      destruct (current h) as [c|]; [exists c|]; [split; [done|]|by destruct Hf].
      destruct (streq (revisionId e) (revisionId c)) eqn:Es; [by apply streq_true|by destruct Hf].
Qed.

End Revision.

Module Hardening.

Inductive HardeningReason :=
| PRIVILEGED | ROOT_USER | WRITABLE_ROOT | DOCKER_SOCKET | BIND_MOUNT | CAPABILITY_ADDED | HOST_NAMESPACE | NO_LIMITS.

Record Tmpfs := { path : string; sizeMb : Z; noexec : bool; nosuid : bool }.

Record HardeningSpec := {
  user : string;
  readOnlyRootFilesystem : bool;
  noNewPrivileges : bool;
  capDrop : list string;
  capAdd : list string;
  privileged : bool;
  tmpfs : list Tmpfs;
  bindMounts : list string;
  dockerSocket : bool;
  cpus : string;
  memoryMb : Z;
  pidsLimit : Z;
  healthcheck : bool;
  restartPolicy : string;
  hostNetwork : bool;
  hostPid : bool;
  hostIpc : bool
}.

Definition DEFAULT_HARDENING : HardeningSpec :=
  {| user := "10001:10001"; readOnlyRootFilesystem := true; noNewPrivileges := true; capDrop := ["ALL"]; capAdd := [];
     privileged := false; tmpfs := [{| path := "/tmp/contextlock"; sizeMb := 64; noexec := true; nosuid := true |}];
     bindMounts := []; dockerSocket := false; cpus := "0.5"; memoryMb := 512; pidsLimit := 128; healthcheck := true;
     restartPolicy := "on-failure:3"; hostNetwork := false; hostPid := false; hostIpc := false |}.

(** The specification as the object it is. *)
Definition specValue (s : HardeningSpec) : list (string * jsv) :=
  let strs l := VArr (map VStr l) in
  [("user", VStr (user s)); ("readOnlyRootFilesystem", VBool (readOnlyRootFilesystem s));
   ("noNewPrivileges", VBool (noNewPrivileges s)); ("capDrop", strs (capDrop s)); ("capAdd", strs (capAdd s));
   ("privileged", VBool (privileged s));
   ("tmpfs", VArr (map (fun t => VObj [("path", VStr (path t)); ("sizeMb", VNum (sizeMb t)); ("noexec", VBool (noexec t));
                                       ("nosuid", VBool (nosuid t))]) (tmpfs s)));
   ("bindMounts", strs (bindMounts s)); ("dockerSocket", VBool (dockerSocket s)); ("cpus", VStr (cpus s));
   ("memoryMb", VNum (memoryMb s)); ("pidsLimit", VNum (pidsLimit s)); ("healthcheck", VBool (healthcheck s));
   ("restartPolicy", VStr (restartPolicy s)); ("hostNetwork", VBool (hostNetwork s)); ("hostPid", VBool (hostPid s));
   ("hostIpc", VBool (hostIpc s))].

(** [=== true], a non-empty array, and falsiness of a property of an untyped object. *)
Definition isTrue (o : list (string * jsv)) (k : string) : bool :=
  match getKey k o with Some (VBool b) => b | _ => false end.
Definition nonemptyArr (o : list (string * jsv)) (k : string) : bool :=
  match getKey k o with Some (VArr (_ :: _)) => true | _ => false end.
Definition falsy (o : list (string * jsv)) (k : string) : bool :=
  match getKey k o with
  | None | Some VNull | Some VUndef | Some (VBool false) | Some (VNum 0) | Some (VBig 0) => true
  | Some (VStr s) => streq s ""
  | _ => false
  end.
Definition isVStr (w : string) (x : jsv) : bool := match x with VStr s => streq s w | _ => false end.

Definition assertHardened (o : list (string * jsv)) : result HardeningReason unit :=
  throw PRIVILEGED when isTrue o "privileged" ;;
  throw ROOT_USER when (match getKey "user" o with
                        | Some (VStr u) => streq u "0:0" || streq u "root" || streq u ""
                        | _ => true
                        end) ;;
  throw WRITABLE_ROOT when negb (isTrue o "readOnlyRootFilesystem") ;;
  throw DOCKER_SOCKET when isTrue o "dockerSocket" ;;
  throw BIND_MOUNT when nonemptyArr o "bindMounts" ;;
  throw CAPABILITY_ADDED when nonemptyArr o "capAdd" ;;
  throw CAPABILITY_ADDED when negb (match getKey "capDrop" o with Some (VArr l) => some (isVStr "ALL") l | _ => false end) ;;
  throw CAPABILITY_ADDED when negb (isTrue o "noNewPrivileges") ;;
  throw HOST_NAMESPACE when isTrue o "hostNetwork" || isTrue o "hostPid" || isTrue o "hostIpc" ;;
  throw NO_LIMITS when falsy o "memoryMb" || falsy o "cpus" || falsy o "pidsLimit" ;;
  Ok tt.

Definition dockerArgs (s : HardeningSpec) : result HardeningReason (list string) :=
  let* _ := assertHardened (specValue s) in
  Ok (["--user"; user s; "--read-only"; "--security-opt"; "no-new-privileges:true"; "--cpus"; cpus s;
       "--memory"; pretty (memoryMb s) +:+ "m"; "--pids-limit"; pretty (pidsLimit s); "--restart"; restartPolicy s] ++
      flat_map (fun c => ["--cap-drop"; c]) (capDrop s) ++
      flat_map (fun t => ["--tmpfs"; path t +:+ ":rw,noexec,nosuid,mode=1777,size=" +:+ pretty (sizeMb t) +:+ "m"]) (tmpfs s)).

(** ** The environment of a container *)

Definition ALLOWED_ENV_PREFIX : string := "CONTEXTLOCK_".
Definition DENIED_ENV_EXACT : list string :=
  ["CONTEXTLOCK_ADMIN_KEY"; "CONTEXTLOCK_ISSUER_KEY"; "CONTEXTLOCK_CAPABILITY_ISSUER_PRIVATE_KEY"; "CONTEXTLOCK_PRIVATE_KEY";
   "CONTEXTLOCK_WALLET_KEY"; "CONTEXTLOCK_CRE_API_KEY"; "CONTEXTLOCK_OPENAI_API_KEY"; "CONTEXTLOCK_RUNTIME_TOKEN"].

(** [/HASH|DIGEST|NODE$/i]: the end is asked of the last alternative only. *)
Definition hashName (k : string) : bool :=
  let l := to_lower k in str_contains "hash" l || str_contains "digest" l || ends_with "node" l.

Definition keyChar (c : ascii) : bool := range "a" "z" c || range "A" "Z" c || is_digit c || Ascii.eqb c "_" || Ascii.eqb c "-".
Definition HEX_KEY : re := Cat (lit "0x") (rep 64 (Chr is_hex_ci)).
Definition OPENAI_KEY : re := Cat (lit "sk-") (Cat (Alt Eps (lit "proj-")) (Cat (rep 20 (Chr keyChar)) (Star (Chr keyChar)))).
(** [/^eyJ...\./]: what follows the dot does not matter. *)
Definition JWT_HEAD : re := Cat (lit "eyJ") (Cat (rep 8 (Chr keyChar)) (Cat (Star (Chr keyChar)) (Cat (lit ".") (Star (Chr (fun _ => true)))))).

Definition envSafe (p : string * string) : bool :=
  negb (includes DENIED_ENV_EXACT p.1) && starts_with ALLOWED_ENV_PREFIX p.1 &&
  (negb (matches HEX_KEY p.2) || hashName p.1) && negb (matches OPENAI_KEY p.2) && negb (matches JWT_HEAD p.2).

(** Every refusal carries the same reason. *)
Definition assertEnvironmentSafe (env : list (string * string)) : result HardeningReason unit :=
  throw NO_LIMITS when negb (every envSafe env) ;; Ok tt.

(** ** What a specification that passes has *)

Lemma assertHardened_typed s : assertHardened (specValue s) = Ok tt <->
  privileged s = false /\ (user s <> "0:0" /\ user s <> "root" /\ user s <> "") /\ readOnlyRootFilesystem s = true /\
  dockerSocket s = false /\ bindMounts s = [] /\ capAdd s = [] /\ "ALL" ∈ capDrop s /\ noNewPrivileges s = true /\
  (hostNetwork s = false /\ hostPid s = false /\ hostIpc s = false) /\
  (memoryMb s <> 0 /\ cpus s <> "" /\ pidsLimit s <> 0).
Proof.
  assert (forall z, match z with 0 => true | _ => false end = false <-> z <> 0) as Hz by (intros []; naive_solver).
  assert (forall l, match VArr (map VStr l) with VArr (_ :: _) => true | _ => false end = false <-> l = []) as Hl
    by (intros []; naive_solver).
  unfold assertHardened. rewrite !throw_ok, !orb_false_iff, !negb_false_iff.
  change (getKey "user" (specValue s)) with (Some (VStr (user s))).
  change (getKey "capDrop" (specValue s)) with (Some (VArr (map VStr (capDrop s)))).
  change (isTrue (specValue s) "privileged") with (privileged s).
  change (isTrue (specValue s) "readOnlyRootFilesystem") with (readOnlyRootFilesystem s).
  change (isTrue (specValue s) "dockerSocket") with (dockerSocket s).
  change (isTrue (specValue s) "noNewPrivileges") with (noNewPrivileges s).
  change (isTrue (specValue s) "hostNetwork") with (hostNetwork s).
  change (isTrue (specValue s) "hostPid") with (hostPid s). change (isTrue (specValue s) "hostIpc") with (hostIpc s).
  change (nonemptyArr (specValue s) "bindMounts") with (match VArr (map VStr (bindMounts s)) with VArr (_ :: _) => true | _ => false end).
  change (nonemptyArr (specValue s) "capAdd") with (match VArr (map VStr (capAdd s)) with VArr (_ :: _) => true | _ => false end).
  change (falsy (specValue s) "memoryMb") with (match memoryMb s with 0 => true | _ => false end).
  change (falsy (specValue s) "pidsLimit") with (match pidsLimit s with 0 => true | _ => false end).
  change (falsy (specValue s) "cpus") with (streq (cpus s) "").
  rewrite !orb_false_iff, !streq_false, !Hz, !Hl, some_true.
  assert ((exists x, x ∈ map VStr (capDrop s) /\ isVStr "ALL" x = true) <-> "ALL" ∈ capDrop s) as ->; [|naive_solver].
  split.
  - intros (x & (w & -> & Hw)%list_elem_of_fmap & H). simpl in H. apply streq_true in H. by subst.
  - intros H. exists (VStr "ALL"). split; [by apply list_elem_of_fmap_2|done].
Qed.

(** A container started with the arguments [dockerArgs] prints runs without root's name or ids 0:0, on a
    read-only root file system, without new privileges, with every capability dropped, none added and no host
    path, host namespace or Docker socket, within a limit on memory, processes and CPU; the specification is
    refused otherwise, whatever else it says. *)
Theorem dockerArgs_hardened s l : dockerArgs s = Ok l ->
  (user s <> "0:0" /\ user s <> "root" /\ user s <> "") /\ readOnlyRootFilesystem s = true /\ noNewPrivileges s = true /\
  "ALL" ∈ capDrop s /\ capAdd s = [] /\ bindMounts s = [] /\
  (privileged s || dockerSocket s || hostNetwork s || hostPid s || hostIpc s = false) /\
  memoryMb s <> 0 /\ pidsLimit s <> 0 /\ cpus s <> "" /\
  sublist ["--user"; user s; "--read-only"; "--security-opt"; "no-new-privileges:true"; "--cpus"; cpus s; "--memory";
           pretty (memoryMb s) +:+ "m"; "--pids-limit"; pretty (pidsLimit s)] l /\
  sublist ["--cap-drop"; "ALL"] l.
Proof.
  unfold dockerArgs. intros ([] & H & E)%rbind_ok. injection E as <-.
  apply assertHardened_typed in H as (-> & Hu & Hr & -> & Hb & Ha & Hc & Hn & (-> & -> & ->) & Hm & Hcpu & Hp).
  split_and!; try done; try tauto.
  - cbn [app]. do 11 apply sublist_skip. apply sublist_nil_l.
  - do 13 apply sublist_cons. apply sublist_inserts_r.
    apply list_elem_of_split in Hc as (l1 & l2 & ->). rewrite flat_map_app. apply sublist_inserts_l. simpl.
    do 2 apply sublist_skip. apply sublist_nil_l.
Qed.

End Hardening.

(** ** Samples *)

Module Samples.
Import Identity Gateways.

Definition zeros (n : nat) : string := String.concat "" (repeat "0" n).

(** A codec: two characters per byte, and a signature that repeats the key and the text. *)
Fixpoint spell (s : string) : string :=
  match s with
  | EmptyString => EmptyString
  | String c s' => let n := N_of_ascii c in String (hex_digit (n / 16)) (String (hex_digit (n mod 16)) (spell s'))
  end.
Fixpoint unspell (s : string) : string :=
  match s with
  | String a (String b s') => match hexVal a, hexVal b with
                              | Some x, Some y => String (ascii_of_N (x * 16 + y)) (unspell s')
                              | _, _ => EmptyString
                              end
  | _ => EmptyString
  end.

#[local] Instance spelling : TokenCodec :=
  {| edSign := fun sk m => sk +:+ m; edVerify := fun pk m s => streq s (pk +:+ m); b64u := spell; unb64u := unspell |}.

Lemma unspell_spell s : unspell (spell s) = s.
Proof. induction s as [|c s IH]; [done|]. simpl. rewrite IH. by destruct c as [[] [] [] [] [] [] [] []]. Qed.

Lemma spell_dotless s : all_chars dotless (spell s) = true.
Proof. induction s as [|c s IH]; [done|]. simpl. rewrite IH. by destruct c as [[] [] [] [] [] [] [] []]. Qed.

#[local] Instance spelling_laws : CodecLaws (fun sk pk => sk = pk).
Proof. split; [exact unspell_spell|exact spell_dotless|]. intros sk pk m ->. apply streq_refl. Qed.

Definition key1 : SigningKey := {| k_kid := "key-1"; privateKeyPem := "k"; publicKeyPem := "k"; createdAtMs := 1 |}.
Definition issuer1 : RuntimeTokenIssuer := addKey key1 true newIssuer.
Definition args1 : IssueArgs :=
  {| i_deploymentId := "dep-1"; i_agentId := "treasury"; i_organizationId := None; i_blueprintHash := "sha256:" +:+ zeros 64;
     i_imageDigest := "sha256:" +:+ zeros 64; i_audiences := [MODEL; TELEMETRY]; i_nowMs := 1000; i_ttlMs := DEFAULT_RUNTIME_TOKEN_TTL_MS;
     i_further := [] |}.
Definition claims1 : RuntimeTokenClaims := mintedClaims args1 "session-1" (zeros 32) "key-1".
Definition token1 : string := match issue issuer1 args1 "session-1" (zeros 32) with Ok t => t | Err _ => "" end.
Definition ctx1 (now : Z) : VerificationContext :=
  {| expectedAgentId := "treasury"; expectedDeploymentId := "dep-1"; expectedImageDigest := "sha256:" +:+ zeros 64;
     audience := MODEL; nowMs := now |}.
Definition verifier1 : RuntimeTokenVerifier := newVerifier (publicKeysOf issuer1).

Lemma issue_verify_witness : verify verifier1 token1 (ctx1 2000) = Ok claims1.
Proof.
  apply (issue_verify (fun sk pk => sk = pk) issuer1 args1 "session-1" (zeros 32) token1 ∅ (ctx1 2000) key1).
  - vm_compute. reflexivity.
  - vm_compute. reflexivity.
  - vm_compute. reflexivity.
  - reflexivity.
  - discriminate.
  - vm_compute. reflexivity.
  - vm_compute. reflexivity.
  - vm_compute. reflexivity.
  - split; [split; vm_compute; [reflexivity|discriminate]|]. split; [apply not_elem_of_empty|].
    split; [reflexivity|]. split; [reflexivity|]. split; [reflexivity|]. apply list_elem_of_here.
Defined.

(** A codec whose only verifying text is the one that was signed. *)
Definition sealed : TokenCodec :=
  {| edSign := fun sk m => sk +:+ m; edVerify := fun pk m s => streq m (stringify (claimsJson claims1)) && streq s (pk +:+ m);
     b64u := spell; unb64u := unspell |}.

Lemma unforged_sample : @unforged sealed verifier1 [claims1].
Proof.
  intros k pem text sig _ H. exists claims1. split; [left|]. rewrite canonical_text. f_equal.
  change (streq text (stringify (claimsJson claims1)) && streq sig (pem +:+ text) = true) in H.
  apply andb_true_iff in H as [H _]. symmetry. by apply streq_true in H.
Qed.

Lemma accepted_minted_witness : claims1 ∈ [claims1] /\ admits verifier1 (ctx1 2000) claims1.
Proof.
  apply (@accepted_minted sealed verifier1 [claims1] token1 (ctx1 2000) claims1).
  - exact unforged_sample.
  - vm_compute. reflexivity.
Defined.

(** Properties outside the signed schema, and whitespace, are not part of what is verified. *)
Example unsigned_properties_pass :
  let doc := "{ " +:+ String dquote ("note" +:+ String dquote (":1, ")) +:+ String.substring 1 (String.length (stringify (claimsJson claims1))) (stringify (claimsJson claims1)) in
  verify verifier1 (spell doc +:+ "." +:+ spell (edSign "k" (stringify (claimsJson claims1)))) (ctx1 2000) = Ok claims1.
Proof. vm_compute. reflexivity. Qed.

(** The key under which a request nonce is kept does not determine the session and the nonce. *)
Example nonceKey_ambiguous : exists c c' n n', sessionId c <> sessionId c' /\ nonceKey c n = nonceKey c' n'.
Proof.
  exists (mintedClaims args1 "session-1" "" ""), (mintedClaims args1 "session-1:a" "" ""), "a:b", "b".
  by split; vm_compute.
Qed.

(** ** The model gateway *)

Definition request1 : ModelRequest :=
  {| messages := []; maxOutputTokens := 100; toolNames := []; turn := 1; correlationId := "c"; q_further := [] |}.
Definition event1 (now : Z) : ModelEvent :=
  {| e_token := token1; e_ctx := ctx1 now; e_request := request1;
     e_call := fun _ => Some {| a_inputTokens := 10; a_outputTokens := 20; a_content := "ok" |} |}.
Definition quota1 : ModelQuota :=
  {| requestsPerAgentPerDay := 3; inputTokensPerAgentPerDay := 5; outputTokensPerAgentPerDay := 5; maxTurnsPerRun := 24;
     maxOutputTokensPerRequest := 8000; requestsPerMinute := 2 |}.

(** The third request of a minute is refused, and the fourth of all; the token quotas are not. *)
Example model_run : answered verifier1 quota1 (fun _ => []) newModelGateway (map event1 [2000; 2001; 2002; 63000; 130000]) =
  [("treasury", 2000); ("treasury", 2001); ("treasury", 63000)].
Proof. vm_compute. reflexivity. Qed.

Lemma model_limits_witness :
  Z.of_nat (length (times "treasury" [("treasury", 2000)])) < 3 /\
  (clocked 0 (map event1 [2000; 2001; 2002; 63000; 130000]) ->
   Z.of_nat (length (recent 2001 (times "treasury" [("treasury", 2000)]))) < 2).
Proof.
  apply (model_limits verifier1 quota1 (fun _ => []) 0 (map event1 [2000; 2001; 2002; 63000; 130000])
           [("treasury", 2000)] ("treasury", 2001) [("treasury", 63000)]).
  vm_compute. reflexivity.
Defined.

(** ** Revisions *)

Import Revision.

Definition rev (id digest : string) : RevisionHistoryEntry :=
  {| revisionId := id; Revision.imageDigest := digest; blueprintRevision := 1; buildRevision := 1; Revision.createdAtMs := 1;
     previousRevisionId := None; everHealthy := false; retiredAtMs := None; retiredReason := None |}.
Definition history2 : list RevisionHistoryEntry :=
  markHealthy "r2" (markHealthy "r1" [rev "r1" "a"; rev "r2" "b"]).

Lemma history2_reachable : reachable 5 history2.
Proof.
  do 2 apply reach_healthy. apply (reach_add 5 [rev "r1" "a"] (rev "r2" "b")); [|reflexivity].
  apply (reach_add 5 [] (rev "r1" "a")); [constructor|reflexivity].
Qed.

Lemma history_spec_witness : (length history2 <= 5)%nat.
Proof. apply (history_spec 5 history2 history2_reachable). Defined.

(** After the newest revision is retired, the rollback target is the retired one: newer than the current. *)
Example rollback_forward :
  match current (retire "r2" "bad" 9 history2), rollbackTarget (retire "r2" "bad" 9 history2) with
  | Some c, Ok e => revisionId c = "r1" /\ revisionId e = "r2" /\ retiredAtMs e = Some 9
  | _, _ => False
  end.
Proof. vm_compute. auto. Qed.

(** ** Hardening *)

Import Hardening.

Lemma dockerArgs_hardened_witness : exists l, dockerArgs DEFAULT_HARDENING = Ok l /\ sublist ["--cap-drop"; "ALL"] l.
Proof.
  destruct (dockerArgs DEFAULT_HARDENING) as [l|] eqn:E; [|exfalso; vm_compute in E; discriminate].
  exists l. split; [reflexivity|]. apply (dockerArgs_hardened DEFAULT_HARDENING l E).
Defined.

(** User id 0 under another spelling is not refused. *)
Example root_uid_passes :
  forall u, u ∈ ["0"; "0:1000"; "root:root"; "00:0"] ->
  assertHardened (specValue {| user := u; Hardening.readOnlyRootFilesystem := true; noNewPrivileges := true; capDrop := ["ALL"]; capAdd := [];
    privileged := false; tmpfs := []; bindMounts := []; dockerSocket := false; cpus := "1"; memoryMb := 1; pidsLimit := 1;
    healthcheck := true; restartPolicy := "no"; hostNetwork := false; hostPid := false; hostIpc := false |}) = Ok tt.
Proof. intros u. rewrite !elem_of_cons, elem_of_nil. intros [->|[->|[->|[->|[]]]]]; reflexivity. Qed.

(** A private key passes under a name that contains "hash" anywhere. *)
Example key_under_a_hash_name :
  assertEnvironmentSafe [("CONTEXTLOCK_HASHED_WALLET", "0x" +:+ zeros 64)] = Ok tt /\
  assertEnvironmentSafe [("CONTEXTLOCK_NODE_KEY", "0x" +:+ zeros 64)] = Err NO_LIMITS.
Proof. vm_compute. auto. Qed.

End Samples.
