(* ===== verification/AgentRuntime.v ===== *)
(** * The agent runtime process

    [apps/agent-runtime/src]: the data plane, in its container.  [Startup] is [config.ts] up to the reading of
    the typed configuration; [Vocabulary] is the request vocabulary of [gateways.ts]; [Checkpoint] is
    [checkpoint.ts]: the event cursor and the log that makes replayed events harmless; [Health] is [health.ts]
    with the state that [main.ts] reports from.

    A JavaScript [Map] is the list of its entries in insertion order.  The block of a cursor, a decimal text by
    its schema, is the number it denotes. *)

From S2P Require Import Prelude Regex Json Runtime.
From stdpp Require Import pretty.
From Stdlib Require Import Ascii.
Local Open Scope Z_scope.

Module Startup.

Definition FORBIDDEN_ENV : list string :=
  ["DEPLOYER_PRIVATE_KEY"; "FUNDER_PRIVATE_KEY"; "AGENT_PRIVATE_KEY"; "RELAYER_PRIVATE_KEY";
   "CAPABILITY_ISSUER_PRIVATE_KEY"; "APPROVER_STANDIN_PRIVATE_KEY"; "CRE_ETH_PRIVATE_KEY";
   "PRIVATE_KEY"; "MNEMONIC"; "SEED_PHRASE"; "KEYSTORE_PASSWORD"; "WALLET_PASS";
   "CONTEXTLOCK_ADMIN_KEY"; "CONTEXTLOCK_ISSUER_KEY"; "POLICY_ADMIN_KEY";
   "CRE_API_KEY"; "CRE_SESSION"; "CRE_ACCESS_TOKEN"; "CRE_REFRESH_TOKEN";
   "OPENAI_API_KEY"; "ANTHROPIC_API_KEY"; "THEGRAPH_API_KEY"; "UNISWAP_API_KEY"; "E2B_API_KEY";
   "AWS_ACCESS_KEY_ID"; "AWS_SECRET_ACCESS_KEY"; "AWS_SESSION_TOKEN"; "DOCKER_AUTH_CONFIG";
   "GOOGLE_APPLICATION_CREDENTIALS"; "AZURE_CLIENT_SECRET";
   "LEDGER_PIN"; "LEDGER_SEED"].

Inductive StartupReason := FORBIDDEN_CREDENTIAL_PRESENT | CONFIG_INVALID | TOKEN_UNREADABLE.

(** [/^-----BEGIN [A-Z ]*PRIVATE KEY-----/]. *)
Definition PEM_HEAD : re :=
  Cat (lit "-----BEGIN ") (Cat (Star (Chr (fun c => range "A" "Z" c || Ascii.eqb c " ")))
    (Cat (lit "PRIVATE KEY-----") (Star (Chr (fun _ => true))))).

(** The environment: names and values, each name once. *)
Definition named (env : list (string * string)) (k : string) : bool :=
  match getKey k env with Some v => negb (streq v "") | None => false end.

Definition keyShaped (v : string) : bool :=
  matches Hardening.HEX_KEY v || matches Hardening.OPENAI_KEY v || matches PEM_HEAD v.

Definition assertNoForbiddenEnvironment (env : list (string * string)) : result StartupReason unit :=
  throw FORBIDDEN_CREDENTIAL_PRESENT when some (named env) FORBIDDEN_ENV ;;
  throw FORBIDDEN_CREDENTIAL_PRESENT when some (fun p => keyShaped p.2) env ;;
  Ok tt.

(** The process starts only in an environment where every named credential is absent or empty and no variable,
    whatever its name, holds a value of the shape of a private key, an OpenAI key or a PEM key. *)
Theorem starts_clean env : NoDup env.*1 -> assertNoForbiddenEnvironment env = Ok tt <->
  forall k v, (k, v) ∈ env -> (k ∈ FORBIDDEN_ENV -> v = "") /\ keyShaped v = false.
Proof.
  intros Hnd. unfold assertNoForbiddenEnvironment. rewrite !throw_ok, !some_false. split.
  - intros (Hn & Hv & _) k v Hin. split; [|exact (Hv _ Hin)]. intros Hk. specialize (Hn k Hk). unfold named in Hn.
    rewrite (proj2 (getKey_Some k env v Hnd) Hin) in Hn. by apply negb_false_iff, streq_true in Hn.
  - intros H. split_and!; [|intros [k v] Hin; exact (proj2 (H k v Hin))|done]. intros k Hk. unfold named.
    destruct (getKey k env) as [v|] eqn:E; [|done]. apply getKey_elem in E.
    by apply negb_false_iff, streq_true, (H k v E).
Qed.

End Startup.

Module Vocabulary.
Import Runtime.Identity.

Definition RUNTIME_OPERATIONS : list string :=
  ["model.complete"; "adapter.read"; "adapter.prepare"; "contextlock.requestIntent"; "contextlock.checkPolicy";
   "telemetry.emit"; "telemetry.heartbeat"; "checkpoint.load"; "checkpoint.save"].

Definition FORBIDDEN_RUNTIME_OPERATIONS : list string :=
  ["signDigest"; "signTransaction"; "issuer.sign"; "issueCapability"; "capability.mint"; "policy.enable"; "policy.disable";
   "getSecret"; "credential.get"; "model.setModel"; "adapter.callArbitraryUrl"; "cre.deploy"; "runtime.escalate"].

Definition OPERATION_GATEWAY : list (string * Audience) :=
  [("model.complete", MODEL); ("adapter.read", ADAPTER); ("adapter.prepare", ADAPTER);
   ("contextlock.requestIntent", CONTEXTLOCK); ("contextlock.checkPolicy", CONTEXTLOCK); ("telemetry.emit", TELEMETRY);
   ("telemetry.heartbeat", TELEMETRY); ("checkpoint.load", TELEMETRY); ("checkpoint.save", TELEMETRY)].

Inductive GatewayReason :=
| FORBIDDEN_OPERATION | UNKNOWN_OPERATION | WRONG_GATEWAY | TOKEN_EXPIRED | TOKEN_WRONG_AGENT | TOKEN_WRONG_IMAGE
| TOKEN_REPLAYED | TOKEN_REVOKED | QUOTA_EXCEEDED | MODEL_NOT_SELECTABLE | ADAPTER_NOT_PERMITTED | HOST_NOT_PERMITTED
| GATEWAY_PAUSED.

Definition assertOperationAllowed (operation : string) (gateway : Audience) : result GatewayReason unit :=
  throw FORBIDDEN_OPERATION when includes FORBIDDEN_RUNTIME_OPERATIONS operation ;;
  throw UNKNOWN_OPERATION when negb (includes RUNTIME_OPERATIONS operation) ;;
  throw WRONG_GATEWAY when negb (bool_decide (getKey operation OPERATION_GATEWAY = Some gateway)) ;;
  Ok tt.

(** A gateway serves exactly the operations of the vocabulary that are mapped to it: each operation at one
    gateway, every other name at none. *)
Theorem operation_gateway operation gateway :
  (assertOperationAllowed operation gateway = Ok tt <-> (operation, gateway) ∈ OPERATION_GATEWAY) /\
  (forall g, assertOperationAllowed operation gateway = Ok tt -> assertOperationAllowed operation g = Ok tt -> g = gateway).
Proof.
  assert (NoDup OPERATION_GATEWAY.*1) as Hnd by (apply (bool_decide_unpack _); vm_compute; exact I).
  assert (forall g, assertOperationAllowed operation g = Ok tt <-> getKey operation OPERATION_GATEWAY = Some g) as H.
  { intros g. unfold assertOperationAllowed. rewrite !throw_ok, !negb_false_iff, includes_false, includes_true, bool_decide_eq_true.
    split; [naive_solver|]. intros E. pose proof (getKey_elem _ _ _ E) as Hin. split_and!; [| |done|done].
    - intros Hf. assert (Forall (fun p => p.1 ∉ FORBIDDEN_RUNTIME_OPERATIONS) OPERATION_GATEWAY) as Hd
        by (apply (bool_decide_unpack _); vm_compute; exact I).
      rewrite Forall_forall in Hd. exact (Hd _ Hin Hf).
    - change RUNTIME_OPERATIONS with OPERATION_GATEWAY.*1. apply list_elem_of_fmap. by exists (operation, g). }
  split; [rewrite H; by apply getKey_Some|]. intros g. rewrite !H. congruence.
Qed.

End Vocabulary.

Module Checkpoint.

Record EventCursor := {
  chainId : Z;
  subscriptionId : string;
  eventSource : string;
  lastFinalizedBlock : N;
  lastProcessedEventId : string;
  checkpointedAtMs : Z;
  agentId : string;
  deploymentId : string
}.

Inductive CheckpointReason := WOULD_GO_BACKWARDS | WRONG_AGENT | NOT_FINALIZED | LOCAL_ONLY.

Definition assertAdvance (from : option EventCursor) (to : EventCursor) (finalizedHead : Z) : result CheckpointReason unit :=
  throw WRONG_AGENT when negb (streq (agentId to) (default (agentId to) (agentId <$> from))) ||
                         negb (streq (deploymentId to) (default (deploymentId to) (deploymentId <$> from))) ;;
  throw NOT_FINALIZED when finalizedHead <? Z.of_N (lastFinalizedBlock to) ;;
  throw WOULD_GO_BACKWARDS when (match from with Some f => (lastFinalizedBlock to <? lastFinalizedBlock f)%N | None => false end) ;;
  Ok tt.

(** The cursor a sequence of saves leaves, each with the finalized head at its time: a refused one changes nothing. *)
Definition advance (c : option EventCursor) (p : EventCursor * Z) : option EventCursor :=
  match assertAdvance c p.1 p.2 with Ok _ => Some p.1 | Err _ => c end.

(** ** The log of processed events *)

Record ProcessedEventLog := { windowMs : Z; maxEntries : nat; seen : list (string * Z) }.
Definition newLog (w : Z) (m : nat) : ProcessedEventLog := {| windowMs := w; maxEntries := m; seen := [] |}.

Definition evict (now : Z) (g : ProcessedEventLog) : list (string * Z) :=
  let kept := List.filter (fun p => negb (windowMs g <? now - p.2)) (seen g) in
  drop (length kept - maxEntries g) kept.

Definition admitEvent (id : string) (now : Z) (g : ProcessedEventLog) : bool * ProcessedEventLog :=
  let kept := evict now g in
  let known := some (fun p => streq p.1 id) kept in
  (negb known, {| windowMs := windowMs g; maxEntries := maxEntries g; seen := if known then kept else kept ++ [(id, now)] |}).

(** The events of a stream that are processed: their positions in it. *)
Fixpoint processed (g : ProcessedEventLog) (l : list (string * Z)) : list bool :=
  match l with
  | [] => []
  | p :: l' => let '(b, g') := admitEvent p.1 p.2 g in b :: processed g' l'
  end.

Definition eventIdOf (cid : Z) (block : N) (hash : string) (logIndex : N) : string :=
  pretty cid +:+ ":" +:+ pretty block +:+ ":" +:+ to_lower hash +:+ ":" +:+ pretty logIndex.

(** [/^(\/tmp|\/var\/tmp|\/app|\/home|\/root)(\/|$)/]. *)
Definition LOCAL_ROOTS : list string := ["/tmp"; "/var/tmp"; "/app"; "/home"; "/root"].
Definition assertExternalStore (location : string) : result CheckpointReason unit :=
  throw LOCAL_ONLY when some (fun r => streq location r || starts_with (r +:+ "/") location) LOCAL_ROOTS ;; Ok tt.

(** ** Cursors only advance *)

Lemma assertAdvance_ok from to head : assertAdvance from to head = Ok tt <->
  Z.of_N (lastFinalizedBlock to) <= head /\
  forall f, from = Some f -> agentId to = agentId f /\ deploymentId to = deploymentId f /\
                             (lastFinalizedBlock f <= lastFinalizedBlock to)%N.
Proof.
  unfold assertAdvance. rewrite !throw_ok, orb_false_iff, !negb_false_iff, !streq_true, Z.ltb_ge.
  destruct from as [f|]; simpl; [rewrite N.ltb_ge|]; naive_solver.
Qed.

(** Whatever cursors are offered, with whatever finalized heads, the cursor kept only moves forward and stays
    with its agent and deployment; and it never passes the heads it was checked against. *)
Theorem cursor_advances c l c' head : foldl advance c l = Some c' ->
  (forall p, p ∈ l -> p.2 <= head) -> (forall f, c = Some f -> Z.of_N (lastFinalizedBlock f) <= head) ->
  Z.of_N (lastFinalizedBlock c') <= head /\
  forall f, c = Some f -> agentId c' = agentId f /\ deploymentId c' = deploymentId f /\
                          (lastFinalizedBlock f <= lastFinalizedBlock c')%N.
Proof.
  revert c. induction l as [|p l IH]; intros c Hl Hh Hc; simpl in Hl.
  - subst c. split; [by apply Hc|]. by intros f [= ->].
  - assert (forall f, advance c p = Some f -> Z.of_N (lastFinalizedBlock f) <= head /\
      forall f0, c = Some f0 -> agentId f = agentId f0 /\ deploymentId f = deploymentId f0 /\ (lastFinalizedBlock f0 <= lastFinalizedBlock f)%N) as Ha.
    { intros f. unfold advance. destruct (assertAdvance c p.1 p.2) as [[]|] eqn:E.
      - intros [= <-]. apply assertAdvance_ok in E as [Hp Hf]. split; [|exact Hf].
        specialize (Hh p ltac:(left)). lia.
      - intros ->. split; [by apply Hc|]. by intros f0 [= ->]. }
    destruct (IH (advance c p) Hl) as [H1 H2]; [intros q Hq; apply Hh; by right|intros f Hf; by apply Ha|].
    split; [exact H1|]. intros f ->. destruct (advance (Some f) p) as [f1|] eqn:E.
    + destruct (Ha f1 eq_refl) as [_ Hf]. destruct (Hf f eq_refl) as (A1 & D1 & ?).
      destruct (H2 f1 eq_refl) as (A2 & D2 & ?). split_and!; [congruence..|lia].
    + unfold advance in E. by destruct (assertAdvance (Some f) p.1 p.2).
Qed.

(** ** Replayed events are processed once *)

Lemma evict_length now g : (length (evict now g) <= maxEntries g)%nat.
Proof. unfold evict. rewrite length_drop. lia. Qed.

(** The log never holds more than one entry over its bound. *)
Lemma admitEvent_bounded id now g : (length (seen (admitEvent id now g).2) <= S (maxEntries g))%nat.
Proof.
  pose proof (evict_length now g). unfold admitEvent. simpl. destruct (some _ _); [lia|]. rewrite length_app. simpl. lia.
Qed.

(** An entry, with at most [n] entries after it. *)
Definition holds (id : string) (at_ : Z) (n : nat) (l : list (string * Z)) : Prop :=
  exists pre post, l = pre ++ (id, at_) :: post /\ (length post <= n)%nat.

Lemma evict_holds id at_ n now g : holds id at_ n (seen g) -> now - at_ <= windowMs g -> (n < maxEntries g)%nat ->
  holds id at_ n (evict now g).
Proof.
  intros (pre & post & E & Hl) Hw Hn. unfold evict. rewrite E, List.filter_app. simpl.
  assert (windowMs g <? now - at_ = false) as -> by (apply Z.ltb_ge; lia). simpl.
  set (f := fun p : string * Z => negb (windowMs g <? now - p.2)).
  assert (length (List.filter f post) <= length post)%nat as Hf by apply List.filter_length_le.
  rewrite length_app. simpl. rewrite drop_app_le by lia.
  eexists _, _. split; [reflexivity|]. lia.
Qed.

Lemma admitEvent_holds id at_ n id' now g : holds id at_ n (seen g) -> now - at_ <= windowMs g -> (n < maxEntries g)%nat ->
  let (b, g') := admitEvent id' now g in
  (b = true -> id' <> id) /\ holds id at_ (if b then S n else n) (seen g').
Proof.
  intros Hg Hw Hn. pose proof (evict_holds _ _ _ _ _ Hg Hw Hn) as H. unfold admitEvent. simpl.
  destruct (some (fun p => streq p.1 id') (evict now g)) eqn:E; simpl; [done|]. split.
  - intros _ ->. destruct H as (pre & post & H & _). rewrite H in E. rewrite some_false in E.
    specialize (E (id, at_) ltac:(set_solver)). simpl in E. by apply streq_false in E.
  - destruct H as (pre & post & -> & Hl). exists pre, (post ++ [(id', now)]). rewrite <- app_assoc. split; [done|].
    rewrite length_app. simpl. lia.
Qed.

(** The number of events processed. *)
Fixpoint count (l : list bool) : nat := match l with [] => 0 | b :: l' => ((if b then 1 else 0) + count l')%nat end.

Lemma admitEvent_fields id now g : windowMs (admitEvent id now g).2 = windowMs g /\ maxEntries (admitEvent id now g).2 = maxEntries g.
Proof. done. Qed.

Definition after (g : ProcessedEventLog) (l : list (string * Z)) : ProcessedEventLog := foldl (fun g p => (admitEvent p.1 p.2 g).2) g l.

Lemma processed_cons g p l : processed g (p :: l) = (admitEvent p.1 p.2 g).1 :: processed (admitEvent p.1 p.2 g).2 l.
Proof. reflexivity. Qed.

Lemma processed_app l : forall g l', processed g (l ++ l') = processed g l ++ processed (after g l) l'.
Proof. induction l as [|p l IH]; intros g l'; [done|]. cbn [app]. by rewrite !processed_cons, IH. Qed.

Lemma lookup_cons_S {A : Type} (x : A) l n : (x :: l) !! S n = l !! n.
Proof. reflexivity. Qed.

Lemma processed_length l : forall g, length (processed g l) = length l.
Proof. induction l as [|p l IH]; intros g; [done|]. rewrite processed_cons. simpl. by rewrite IH. Qed.

Lemma after_fields l : forall g, windowMs (after g l) = windowMs g /\ maxEntries (after g l) = maxEntries g.
Proof. induction l as [|p l IH]; intros g; [done|]. by destruct (IH (admitEvent p.1 p.2 g).2). Qed.

(** An entry stays as long as the window and the capacity allow. *)
Lemma after_holds id at_ l : forall g n, holds id at_ n (seen g) ->
  (forall p, p ∈ l -> p.2 - at_ <= windowMs g) -> (n + count (processed g l) < maxEntries g)%nat ->
  holds id at_ (n + count (processed g l)) (seen (after g l)).
Proof.
  induction l as [|p l IH]; intros g n Hg Hw Hn; [by rewrite Nat.add_0_r|]. rewrite processed_cons in *. cbn [count] in *.
  pose proof (admitEvent_holds id at_ n p.1 p.2 g Hg (Hw p ltac:(left))) as Ha. pose proof (admitEvent_fields p.1 p.2 g) as [Ew Em].
  change (after g (p :: l)) with (after (admitEvent p.1 p.2 g).2 l).
  destruct (admitEvent p.1 p.2 g) as [b g'] eqn:E. cbn [fst snd] in *. destruct (Ha ltac:(lia)) as [_ Hg'].
  assert (n + ((if b then 1 else 0) + count (processed g' l)) = (if b then S n else n) + count (processed g' l))%nat as Ec
    by (destruct b; lia).
  rewrite Ec in *. apply IH; [done| |lia]. intros q Hq. rewrite Ew. apply Hw. by right.
Qed.

Lemma after_seen l : forall g p, p ∈ seen (after g l) -> p ∈ seen g \/ p ∈ l.
Proof.
  induction l as [|q l IH]; intros g p H; [by left|]. apply (IH (admitEvent q.1 q.2 g).2) in H as [H|H]; [|right; by right].
  assert (forall x, x ∈ evict q.2 g -> x ∈ seen g) as He.
  { intros x Hx. apply (subseteq_drop _ _ x) in Hx. by apply list_elem_of_In, List.filter_In in Hx as [Hx%list_elem_of_In _]. }
  unfold admitEvent in H. cbn [snd seen] in H. destruct (some _ _); [left; auto|]. apply elem_of_app in H as [H|H]; [left; auto|].
  right. apply list_elem_of_singleton in H as ->. destruct q. left.
Qed.

(** Of two occurrences of an event in a stream, the later is not processed when the earlier was, the clock has
    not moved past the window in between, and fewer events than the capacity were processed in between. *)
Theorem processed_once w m l1 id at_ l2 t l3 :
  let l := l1 ++ (id, at_) :: l2 ++ (id, t) :: l3 in
  let out := processed (newLog w m) l in
  out !! length l1 = Some true ->
  (forall p, p ∈ l2 ++ [(id, t)] -> p.2 - at_ <= w) ->
  (count (take (length l2) (drop (S (length l1)) out)) < m)%nat ->
  out !! (length l1 + S (length l2))%nat = Some false.
Proof.
  intros l out H Hw Hc. subst out l. rewrite processed_app, processed_cons, processed_app, processed_cons in *. cbn [fst snd] in *.
  set (g := after (newLog w m) l1) in *. set (g1 := (admitEvent id at_ g).2) in *. set (g2 := after g1 l2) in *.
  destruct (after_fields l1 (newLog w m)) as [Ew Em]. destruct (after_fields l2 g1) as [Ew2 Em2]. fold g2 in Ew2, Em2.
  assert (windowMs g1 = w /\ maxEntries g1 = m) as [Ew1 Em1] by done.
  rewrite lookup_app_r in H by (rewrite processed_length; lia). rewrite lookup_app_r by (rewrite processed_length; lia).
  rewrite processed_length in H |- *.
  rewrite Nat.sub_diag in H. injection H as Hb.
  replace (length l1 + S (length l2) - length l1)%nat with (S (length l2)) by lia. rewrite lookup_cons_S.
  rewrite lookup_app_r by (rewrite processed_length; lia). rewrite processed_length, Nat.sub_diag.
  rewrite drop_app_ge in Hc by (rewrite processed_length; lia). rewrite processed_length in Hc.
  replace (S (length l1) - length l1)%nat with 1%nat in Hc by lia. cbn [drop] in Hc. rewrite drop_0 in Hc.
  rewrite take_app_length' in Hc by (by rewrite processed_length).
  assert (holds id at_ 0 (seen g1)) as Hg1.
  { unfold g1, admitEvent in Hb |- *. cbn [fst snd seen] in *. apply negb_true_iff in Hb. rewrite Hb.
    exists (evict at_ g), []. done. }
  assert (holds id at_ (count (processed g1 l2)) (seen g2)) as Hg2.
  { apply (after_holds id at_ l2 g1 0 Hg1); [intros p Hp; rewrite Ew1; apply Hw; set_solver|by rewrite Em1]. }
  pose proof (admitEvent_holds id at_ _ id t g2 Hg2) as Ha. destruct (admitEvent id t g2) as [b g3]. cbn [fst] in *.
  destruct Ha as [Ha _]; [rewrite Ew2, Ew1; apply (Hw (id, t)); set_solver|lia|].
  simpl. destruct b; [by destruct (Ha eq_refl)|done].
Qed.

(** An event the stream did not carry before is processed. *)
Lemma processed_fresh w m l1 id at_ l2 : (forall t, (id, t) ∉ l1) ->
  processed (newLog w m) (l1 ++ (id, at_) :: l2) !! length l1 = Some true.
Proof.
  intros Hn. rewrite processed_app, lookup_app_r by (rewrite processed_length; lia).
  rewrite processed_length, Nat.sub_diag, processed_cons. cbn [fst snd]. apply (f_equal Some).
  unfold admitEvent. cbn [fst]. apply negb_true_iff, some_false. intros [id' t'] Hx. apply streq_false. simpl. intros ->.
  unfold evict in Hx. apply (subseteq_drop _ _ _) in Hx. apply list_elem_of_In, List.filter_In in Hx as [Hx%list_elem_of_In _].
  apply after_seen in Hx as [Hx|Hx]; [by apply elem_of_nil in Hx|by destruct (Hn t')].
Qed.

(** ** The identity of an event *)

Definition notColon (c : ascii) : bool := negb (Ascii.eqb c ":").

Lemma colon_unique u v r s : all_chars notColon u = true -> all_chars notColon v = true ->
  u +:+ String ":" r = v +:+ String ":" s -> u = v /\ r = s.
Proof.
  revert v. induction u as [|a u IH]; intros [|b v]; autorewrite with strings; simpl.
  - intros _ _ [= ->]. done.
  - intros _ [Hb _]%andb_true_iff [= <- _]. done.
  - intros [Ha _]%andb_true_iff _ [= -> _]. done.
  - intros [_ Hu]%andb_true_iff [_ Hv]%andb_true_iff [= -> H]. by destruct (IH v Hu Hv H) as [-> ->].
Qed.

Lemma numchar_notColon c : numchar c = true -> notColon c = true.
Proof. unfold notColon. destruct (Ascii.eqb_spec c ":"); [by subst|done]. Qed.

Lemma pretty_notColon (z : Z) : all_chars notColon (pretty z) = true.
Proof. exact (all_chars_impl _ _ _ numchar_notColon (pretty_Z_chars z)). Qed.
Lemma pretty_N_notColon (n : N) : all_chars notColon (pretty n) = true.
Proof. exact (all_chars_impl _ _ _ numchar_notColon (pretty_N_chars n)). Qed.

Lemma to_lower_notColon s : all_chars notColon s = true -> all_chars notColon (to_lower s) = true.
Proof.
  induction s as [|c s IH]; simpl; [done|]. intros [Hc Hs]%andb_true_iff. rewrite (IH Hs), andb_true_r.
  by destruct c as [[] [] [] [] [] [] [] []].
Qed.

(** Two logs have one identity exactly when they agree on chain, block, position and transaction, the hash up to
    its case: replay protection never takes one event for another. *)
Lemma eventIdOf_inj c b h i c' b' h' i' : all_chars notColon h = true -> all_chars notColon h' = true ->
  eventIdOf c b h i = eventIdOf c' b' h' i' <-> (c = c' /\ b = b' /\ to_lower h = to_lower h' /\ i = i').
Proof.
  intros Hh Hh'. unfold eventIdOf. split; [|by intros (-> & -> & -> & ->)].
  rewrite !(str_app_cons ":"), !str_app_nil.
  intros [E H]%colon_unique; [|apply pretty_notColon..]. apply (inj pretty) in E.
  apply colon_unique in H as [E2 H]; [|apply pretty_N_notColon..]. apply (inj pretty) in E2.
  apply colon_unique in H as [E3 H]; [|by apply to_lower_notColon..]. by apply (inj pretty) in H.
Qed.

End Checkpoint.

Module Health.

Inductive RuntimeHealthState :=
| PROVISIONING | STARTING | HEALTHY | DEGRADED | PAUSED | STOPPING | STOPPED | CRASH_LOOP | FAILED.

Record HealthInputs := {
  processStartedAtMs : Z;
  lastHeartbeatMs : option Z;
  controlPlaneReachable : bool;
  modelGatewayReachable : bool;
  adapterBrokerReachable : bool;
  contextlockBrokerReachable : bool;
  eventCursorAgeMs : option Z;
  paused : bool;
  stopping : bool;
  recentRestarts : Z;
  nowMs : Z
}.

Record HealthPolicy := {
  heartbeatStaleAfterMs : Z; startupGraceMs : Z; eventCursorStaleAfterMs : Z; crashLoopRestarts : Z
}.
Definition DEFAULT_HEALTH_POLICY : HealthPolicy :=
  {| heartbeatStaleAfterMs := 30000; startupGraceMs := 60000; eventCursorStaleAfterMs := 5 * 60000; crashLoopRestarts := 3 |}.

(** What is not satisfied; the texts are left out. *)
Inductive HealthProblem :=
| Restarts | PausedByOperator | NoControlPlane | NoModelGateway | NoAdapterBroker | NoContextLockBroker | StaleCursor
| NoHeartbeatEver | StaleHeartbeat.

Record HealthVerdict := { state : RuntimeHealthState; reasons : list HealthProblem; mayStartNewWork : bool }.

Definition reportIf (b : bool) (p : HealthProblem) : list HealthProblem := if b then [p] else [].
Definition verdict (s : RuntimeHealthState) (l : list HealthProblem) : HealthVerdict :=
  {| state := s; reasons := l; mayStartNewWork := false |}.

(** What the inputs other than the heartbeat say. *)
Definition unsatisfied (i : HealthInputs) (policy : HealthPolicy) : list HealthProblem :=
  reportIf (negb (controlPlaneReachable i)) NoControlPlane ++ reportIf (negb (modelGatewayReachable i)) NoModelGateway ++
  reportIf (negb (adapterBrokerReachable i)) NoAdapterBroker ++
  reportIf (negb (contextlockBrokerReachable i)) NoContextLockBroker ++
  reportIf (match eventCursorAgeMs i with Some a => eventCursorStaleAfterMs policy <? a | None => false end) StaleCursor.

Definition evaluateHealth (i : HealthInputs) (policy : HealthPolicy) : HealthVerdict :=
  if crashLoopRestarts policy <=? recentRestarts i then verdict CRASH_LOOP [Restarts]
  else if stopping i then verdict STOPPING []
  else if paused i then verdict PAUSED [PausedByOperator]
  else
    let problems := unsatisfied i policy in
    match lastHeartbeatMs i with
    | None =>
        if nowMs i - processStartedAtMs i <? startupGraceMs policy then verdict STARTING problems
        else verdict FAILED (problems ++ [NoHeartbeatEver])
    | Some h =>
        let problems := problems ++ reportIf (heartbeatStaleAfterMs policy <? nowMs i - h) StaleHeartbeat in
        match problems with
        | [] => {| state := HEALTHY; reasons := []; mayStartNewWork := true |}
        | _ => verdict DEGRADED problems
        end
    end.

Lemma reportIf_nil b p : reportIf b p = [] <-> b = false.
Proof. by destruct b. Qed.

Lemma unsatisfied_nil i policy : unsatisfied i policy = [] <->
  controlPlaneReachable i = true /\ modelGatewayReachable i = true /\ adapterBrokerReachable i = true /\
  contextlockBrokerReachable i = true /\ forall a, eventCursorAgeMs i = Some a -> a <= eventCursorStaleAfterMs policy.
Proof.
  unfold unsatisfied. rewrite !app_nil, !reportIf_nil, !negb_false_iff.
  destruct (eventCursorAgeMs i) as [a|]; [rewrite Z.ltb_ge|]; naive_solver.
Qed.

(** An agent may start new work exactly when it is reported healthy, and that is exactly when it does not keep
    restarting, is neither stopping nor paused, reaches the control plane and the three brokers, is not behind
    its event cursor's limit, and has a heartbeat within its limit; every other verdict but STOPPING and
    STARTING names what is wrong. *)
Theorem healthy_iff i policy :
  (mayStartNewWork (evaluateHealth i policy) = true <-> state (evaluateHealth i policy) = HEALTHY) /\
  (state (evaluateHealth i policy) = HEALTHY <->
     recentRestarts i < crashLoopRestarts policy /\ stopping i = false /\ paused i = false /\
     controlPlaneReachable i = true /\ modelGatewayReachable i = true /\ adapterBrokerReachable i = true /\
     contextlockBrokerReachable i = true /\
     (forall a, eventCursorAgeMs i = Some a -> a <= eventCursorStaleAfterMs policy) /\
     exists h, lastHeartbeatMs i = Some h /\ nowMs i - h <= heartbeatStaleAfterMs policy) /\
  (reasons (evaluateHealth i policy) = [] ->
     state (evaluateHealth i policy) ∈ [HEALTHY; STOPPING; STARTING]).
Proof.
  unfold evaluateHealth. destruct (crashLoopRestarts policy <=? recentRestarts i) eqn:Er.
  { apply Z.leb_le in Er. simpl. split_and!; [done| |done]. split; [done|lia]. }
  apply Z.leb_gt in Er. destruct (stopping i); [simpl; split_and!; [done|naive_solver|intros _; set_solver]|].
  destruct (paused i); [simpl; split_and!; [done|naive_solver|done]|]. pose proof (unsatisfied_nil i policy) as Hu.
  destruct (lastHeartbeatMs i) as [h|].
  - destruct (heartbeatStaleAfterMs policy <? nowMs i - h) eqn:Eh.
    + apply Z.ltb_lt in Eh. destruct (unsatisfied i policy); simpl; (split_and!; [done| |done]); (split; [done|]);
        intros (_ & _ & _ & _ & _ & _ & _ & _ & h' & [= <-] & ?); lia.
    + apply Z.ltb_ge in Eh. simpl. rewrite app_nil_r. destruct (unsatisfied i policy) as [|p l]; simpl.
      * split_and!; [done| |intros _; left]. split; [|done]. intros _. destruct Hu as [Hu _]. destruct (Hu eq_refl) as (? & ? & ? & ? & ?).
        split_and!; try done. by exists h.
      * split_and!; [done| |done]. split; [done|]. intros (_ & _ & _ & H1 & H2 & H3 & H4 & H5 & _).
        by assert (p :: l = []) by (apply Hu; done).
  - destruct (nowMs i - processStartedAtMs i <? startupGraceMs policy); simpl; (split_and!; [done| |]).
    + split; [done|]. by intros (_ & _ & _ & _ & _ & _ & _ & _ & h & Hh & _).
    + intros _. by right; right; left.
    + split; [done|]. by intros (_ & _ & _ & _ & _ & _ & _ & _ & h & Hh & _).
    + by destruct (unsatisfied i policy).
Qed.

(** ** The process's own state

    What [main.ts] reports from: nothing in the process ever sets a reachability flag. *)

Record ProcessState := { s_lastHeartbeatMs : option Z; s_paused : bool; s_stopping : bool; s_recentRestarts : Z }.

Definition healthInputs (startedAt now : Z) (s : ProcessState) : HealthInputs :=
  {| processStartedAtMs := startedAt; lastHeartbeatMs := s_lastHeartbeatMs s; controlPlaneReachable := false;
     modelGatewayReachable := false; adapterBrokerReachable := false; contextlockBrokerReachable := false;
     eventCursorAgeMs := None; paused := s_paused s; stopping := s_stopping s; recentRestarts := s_recentRestarts s; nowMs := now |}.

(** The heartbeat of the timer, and a signal. *)
Inductive Tick := Heartbeat (now : Z) | Signal.
Definition tick (s : ProcessState) (k : Tick) : ProcessState :=
  match k with
  | Heartbeat now => {| s_lastHeartbeatMs := Some now; s_paused := s_paused s; s_stopping := s_stopping s; s_recentRestarts := s_recentRestarts s |}
  | Signal => {| s_lastHeartbeatMs := s_lastHeartbeatMs s; s_paused := s_paused s; s_stopping := true; s_recentRestarts := s_recentRestarts s |}
  end.

Definition healthStatus (startedAt now : Z) (s : ProcessState) : Z :=
  match state (evaluateHealth (healthInputs startedAt now s) DEFAULT_HEALTH_POLICY) with HEALTHY => 200 | _ => 503 end.

(** The health route of this entrypoint answers 503 in every state it can be in. *)
Lemma never_healthy startedAt now s l : healthStatus startedAt now (foldl tick s l) = 503.
Proof.
  unfold healthStatus, evaluateHealth. set (s' := foldl tick s l). generalize s'. clear. intros s. simpl.
  repeat (case_match; simpl in *; try done).
Qed.

End Health.

(** ** Samples *)

Module Samples.
Import Checkpoint.

Definition cursor (b : N) : EventCursor :=
  {| chainId := 84532; subscriptionId := "s"; eventSource := "x"; lastFinalizedBlock := b; lastProcessedEventId := "e";
     checkpointedAtMs := 1; agentId := "a"; deploymentId := "d" |}.

Definition saves : list (EventCursor * Z) := [(cursor 5, 10); (cursor 12, 10); (cursor 9, 10); (cursor 7, 11)].

Lemma cursor_advances_witness : Z.of_N 9 <= 11.
Proof.
  apply (cursor_advances None saves (cursor 9) 11); [reflexivity| |discriminate].
  intros p Hp. unfold saves in Hp. rewrite !elem_of_cons, elem_of_nil in Hp. destruct Hp as [->|[->|[->|[->|[]]]]]; discriminate.
Defined.

(** The replay of "e1" inside the window is skipped, the one after it is not. *)
Example replay : processed (newLog 100 3) [("e1", 0); ("e2", 10); ("e1", 50); ("e1", 101)] = [true; true; false; true].
Proof. reflexivity. Qed.

Lemma processed_once_witness : processed (newLog 100 3) [("e1", 0); ("e2", 10); ("e1", 50)] !! 2%nat = Some false.
Proof.
  apply (processed_once 100 3 [] "e1" 0 [("e2", 10)] 50 []); [reflexivity| |].
  - intros p Hp. simpl in Hp. rewrite !elem_of_cons, elem_of_nil in Hp. destruct Hp as [->|[->|[]]]; discriminate.
  - apply (bool_decide_unpack _). reflexivity.
Defined.

(** The log may hold one entry more than its bound. *)
Example over_the_bound : length (seen (after (newLog 100 1) [("e1", 0); ("e2", 1)])) = 2%nat.
Proof. reflexivity. Qed.

(** A location outside the container, by another spelling inside it. *)
Example spelled_inside : assertExternalStore "/tmp/cursor" = Err LOCAL_ONLY /\ assertExternalStore "//tmp/cursor" = Ok tt.
Proof. auto. Qed.

Lemma starts_clean_witness : Startup.assertNoForbiddenEnvironment [("CONTEXTLOCK_AGENT_ID", "a"); ("PRIVATE_KEY", "")] = Ok tt.
Proof.
  apply (Startup.starts_clean [("CONTEXTLOCK_AGENT_ID", "a"); ("PRIVATE_KEY", "")]).
  - apply (bool_decide_unpack _). vm_compute. exact I.
  - intros k v. rewrite !elem_of_cons, elem_of_nil. intros [[= -> ->]|[[= -> ->]|[]]]; (split; [|reflexivity]); intros H; [|reflexivity].
    exfalso. revert H. apply (bool_decide_unpack _). vm_compute. exact I.
Defined.

End Samples.
