(* ===== verification/Studio.v ===== *)
(** * The studio's build quotas and pipeline steps

    [apps/studio/src].  [Quota] is [quota.ts]: the budget of a build, spent by reserving the worst case of a
    model call and settling its actual usage, and the other limits of a build.  [Pipeline] has the steps of
    [pipeline.ts] that spend them: creating a build, calling a model, the mandatory simulation pass and the
    repair loop.

    A table is the list of its rows in the order of insertion, an automatic id the row's number, and a
    transaction one operation; the creation time of a build is the moment its text denotes.  What a model, a
    test suite or a clock answers is an input. *)

From S2P Require Import Prelude.
From stdpp Require Import list.
Local Open Scope Z_scope.

Module Quota.

Record StudioQuotaPolicy := {
  newBuildsPerRollingDay : option Z;
  concurrentBuilds : Z;
  modelRequestsPerBuild : Z;
  inputTokensPerBuild : Z;
  outputTokensPerBuild : Z;
  autoRepairLoops : Z;
  userRequestedSimulationsPerBuild : Z;
  maxMandatorySimulationsPerPass : Z;
  maxMandatoryPassesPerBuild : Z;
  sandboxWallClockMs : Z;
  generatedFiles : Z;
  exportBytes : Z;
  reservedOutputTokensPerRequest : Z;
  buildCreationCooldownMs : Z;
  promptInteractionsPerMinute : Z
}.

Definition STANDARD_QUOTA : StudioQuotaPolicy :=
  {| newBuildsPerRollingDay := None; concurrentBuilds := 1; modelRequestsPerBuild := 60; inputTokensPerBuild := 600000;
     outputTokensPerBuild := 100000; autoRepairLoops := 3; userRequestedSimulationsPerBuild := 20;
     maxMandatorySimulationsPerPass := 200; maxMandatoryPassesPerBuild := 8; sandboxWallClockMs := 30 * 60 * 1000;
     generatedFiles := 250; exportBytes := 100 * 1024 * 1024; reservedOutputTokensPerRequest := 4000;
     buildCreationCooldownMs := 30000; promptInteractionsPerMinute := 10 |}.

Inductive QuotaKind :=
| MODEL_REQUESTS | INPUT_TOKENS | OUTPUT_TOKENS | REPAIR_LOOPS | USER_SIMULATIONS | MANDATORY_SIMULATION_CEILING
| MANDATORY_PASS_CEILING | SANDBOX_WALL_CLOCK | GENERATED_FILES | NEW_BUILDS | CONCURRENT_BUILDS | EXPORT_SIZE.

Record QuotaExceededError := { kind : QuotaKind; used : Z; limit : Z }.
Definition exceeded (k : QuotaKind) (u l : Z) : QuotaExceededError := {| kind := k; used := u; limit := l |}.

(** ** The tables *)

Inductive ReservationState := HELD | SETTLED | RELEASED.
#[export] Instance ReservationState_eq_dec : EqDecision ReservationState.
Proof. solve_decision. Defined.
Inductive SimulationClass := MANDATORY_SECURITY | ADAPTER_REGRESSION | USER_REQUESTED.
#[export] Instance SimulationClass_eq_dec : EqDecision SimulationClass.
Proof. solve_decision. Defined.

Record Build := {
  b_id : string; b_user : string; b_status : string; b_createdAt : Z; b_repairCycles : Z; b_idempotencyKey : option string
}.
Record Usage := { requests : Z; inputTokens : Z; outputTokens : Z }.
Record UsageRow := { u_build : string; u_usage : Usage }.
Record Reservation := { r_build : string; r_input : Z; r_output : Z; r_state : ReservationState }.
Record SimulationRow := { s_build : string; s_class : SimulationClass; s_pass : string }.
Record ArtifactRow := { f_build : string; f_revision : Z; f_path : string }.

Record DB := {
  builds : list Build;
  usage : list UsageRow;
  reservations : list Reservation;
  simulations : list SimulationRow;
  artifacts : list ArtifactRow
}.
Definition emptyDB : DB := {| builds := []; usage := []; reservations := []; simulations := []; artifacts := [] |}.

Definition withBuilds (l : list Build) (d : DB) : DB :=
  {| builds := l; usage := usage d; reservations := reservations d; simulations := simulations d; artifacts := artifacts d |}.
Definition withUsage (l : list UsageRow) (d : DB) : DB :=
  {| builds := builds d; usage := l; reservations := reservations d; simulations := simulations d; artifacts := artifacts d |}.
Definition withReservations (l : list Reservation) (d : DB) : DB :=
  {| builds := builds d; usage := usage d; reservations := l; simulations := simulations d; artifacts := artifacts d |}.
Definition withSimulations (l : list SimulationRow) (d : DB) : DB :=
  {| builds := builds d; usage := usage d; reservations := reservations d; simulations := l; artifacts := artifacts d |}.

(** [COUNT] and [SUM] over the rows a [WHERE] selects. *)
Definition countWhere {A : Type} (p : A -> bool) (l : list A) : Z := Z.of_nat (length (List.filter p l)).
Definition sum (l : list Z) : Z := foldr Z.add 0 l.
Definition sumWhere {A : Type} (p : A -> bool) (f : A -> Z) (l : list A) : Z := sum (map f (List.filter p l)).

(** ** Creating a build *)

Definition ACTIVE : list string := ["RUNNING"; "AWAITING_APPROVAL"; "PAUSED"].
Definition charged (d : DB) (b : Build) : bool :=
  some (fun u => streq (u_build u) (b_id b)) (usage d) ||
  some (fun r => streq (r_build r) (b_id b) && negb (bool_decide (r_state r = RELEASED))) (reservations d) ||
  includes (ACTIVE ++ ["COMPLETED"]) (b_status b).

Definition recentBuilds (d : DB) (user : string) (now : Z) : Z :=
  countWhere (fun b => streq (b_user b) user && (now - 24 * 60 * 60 * 1000 <=? b_createdAt b) && charged d b) (builds d).
Definition activeBuilds (d : DB) (user : string) : Z :=
  countWhere (fun b => streq (b_user b) user && includes ACTIVE (b_status b)) (builds d).

Section policy.
Context (p : StudioQuotaPolicy).

Definition assertCanCreateBuild (d : DB) (user : string) (now : Z) : result QuotaExceededError unit :=
  let recent := recentBuilds d user now in
  let* _ := match newBuildsPerRollingDay p with
            | Some l => throw exceeded NEW_BUILDS recent l when l <=? recent ;; Ok tt
            | None => Ok tt
            end in
  let active := activeBuilds d user in
  throw exceeded CONCURRENT_BUILDS active (concurrentBuilds p) when concurrentBuilds p <=? active ;; Ok tt.

(** ** Model spend *)

Definition heldBy (build : string) (r : Reservation) : bool := streq (r_build r) build && bool_decide (r_state r = HELD).
Definition usageOf (build : string) (u : UsageRow) : bool := streq (u_build u) build.

(** Settled usage and what is currently held. *)
Definition totals (d : DB) (build : string) : Usage :=
  {| requests := sumWhere (usageOf build) (fun u => requests (u_usage u)) (usage d) + countWhere (heldBy build) (reservations d);
     inputTokens := sumWhere (usageOf build) (fun u => inputTokens (u_usage u)) (usage d) +
                    sumWhere (heldBy build) r_input (reservations d);
     outputTokens := sumWhere (usageOf build) (fun u => outputTokens (u_usage u)) (usage d) +
                     sumWhere (heldBy build) r_output (reservations d) |}.

(** The row number of the reservation, from 0. *)
Definition reserve (d : DB) (build : string) (estimatedInputTokens : Z) : result QuotaExceededError (nat * DB) :=
  let reserveOut := reservedOutputTokensPerRequest p in
  let t := totals d build in
  throw exceeded MODEL_REQUESTS (requests t) (modelRequestsPerBuild p) when modelRequestsPerBuild p <? requests t + 1 ;;
  throw exceeded INPUT_TOKENS (inputTokens t) (inputTokensPerBuild p)
    when inputTokensPerBuild p <? inputTokens t + estimatedInputTokens ;;
  throw exceeded OUTPUT_TOKENS (outputTokens t) (outputTokensPerBuild p)
    when outputTokensPerBuild p <? outputTokens t + reserveOut ;;
  Ok (length (reservations d),
      withReservations (reservations d ++ [{| r_build := build; r_input := estimatedInputTokens; r_output := reserveOut;
                                              r_state := HELD |}]) d).

Definition setState (s : ReservationState) (r : Reservation) : Reservation :=
  {| r_build := r_build r; r_input := r_input r; r_output := r_output r; r_state := s |}.
Definition updateState (id : nat) (s : ReservationState) (d : DB) : DB :=
  withReservations (alter (setState s) id (reservations d)) d.

Definition settle (id : nat) (build : string) (u : Usage) (d : DB) : DB :=
  let d' := updateState id SETTLED d in withUsage (usage d' ++ [{| u_build := build; u_usage := u |}]) d'.

Definition release (id : nat) (d : DB) : DB := updateState id RELEASED d.

(** ** Other budgets *)

Definition mandatoryOf (build : string) (s : SimulationRow) : bool :=
  streq (s_build s) build && negb (bool_decide (s_class s = USER_REQUESTED)).
(** [COUNT(DISTINCT pass_id)]. *)
Definition passesOf (d : DB) (build : string) : Z :=
  Z.of_nat (length (remove_dups (map s_pass (List.filter (mandatoryOf build) (simulations d))))).

Definition assertCanSimulate (d : DB) (build : string) (cls : SimulationClass) : result QuotaExceededError unit :=
  if bool_decide (cls = USER_REQUESTED) then
    let n := countWhere (fun s => streq (s_build s) build && bool_decide (s_class s = USER_REQUESTED)) (simulations d) in
    throw exceeded USER_SIMULATIONS n (userRequestedSimulationsPerBuild p) when userRequestedSimulationsPerBuild p <=? n ;;
    Ok tt
  else
    let n := passesOf d build in
    throw exceeded MANDATORY_PASS_CEILING n (maxMandatoryPassesPerBuild p) when maxMandatoryPassesPerBuild p <? n ;;
    Ok tt.

Definition assertMandatoryPassSize (planned : Z) : result QuotaExceededError unit :=
  throw exceeded MANDATORY_SIMULATION_CEILING planned (maxMandatorySimulationsPerPass p)
    when maxMandatorySimulationsPerPass p <? planned ;; Ok tt.

Definition findBuild (d : DB) (build : string) : option Build := List.find (fun b => streq (b_id b) build) (builds d).

Definition assertCanRepair (d : DB) (build : string) : result QuotaExceededError unit :=
  let n := match findBuild d build with Some b => b_repairCycles b | None => 0 end in
  throw exceeded REPAIR_LOOPS n (autoRepairLoops p) when autoRepairLoops p <=? n ;; Ok tt.

Definition assertCanWriteFile (d : DB) (build : string) (revision : Z) : result QuotaExceededError unit :=
  let n := countWhere (fun f => streq (f_build f) build && (f_revision f =? revision)) (artifacts d) in
  throw exceeded GENERATED_FILES n (generatedFiles p) when generatedFiles p <=? n ;; Ok tt.

Definition assertSandboxWithinWallClock (startedAt now : Z) : result QuotaExceededError unit :=
  throw exceeded SANDBOX_WALL_CLOCK (now - startedAt) (sandboxWallClockMs p) when sandboxWallClockMs p <? now - startedAt ;; Ok tt.

End policy.

(** ** What a build has spent *)

(** The operations of the spending tables, whoever performs them. *)
Inductive SpendOp :=
| Reserve (build : string) (estimatedInputTokens : Z)
| Settle (id : nat) (build : string) (u : Usage)
| Release (id : nat).

Definition spendOp (p : StudioQuotaPolicy) (d : DB) (o : SpendOp) : DB :=
  match o with
  | Reserve b e => match reserve p d b e with Ok (_, d') => d' | Err _ => d end
  | Settle id b u => settle id b u d
  | Release id => release id d
  end.

(** One measure of spending: what a settled call counts and what a reservation holds. *)
Record Measure := { m_used : Usage -> Z; m_held : Reservation -> Z; m_total : Usage -> Z; m_limit : StudioQuotaPolicy -> Z }.
Definition byRequests : Measure := {| m_used := requests; m_held := fun _ => 1; m_total := requests; m_limit := modelRequestsPerBuild |}.
Definition byInput : Measure := {| m_used := inputTokens; m_held := r_input; m_total := inputTokens; m_limit := inputTokensPerBuild |}.
Definition byOutput : Measure := {| m_used := outputTokens; m_held := r_output; m_total := outputTokens; m_limit := outputTokensPerBuild |}.
Definition measures : list Measure := [byRequests; byInput; byOutput].

(** What a settlement uses beyond what its reservation held for that build. *)
Definition overshootOf (m : Measure) (build : string) (d : DB) (o : SpendOp) : Z :=
  match o with
  | Settle id b u =>
      if streq b build then
        match reservations d !! id with
        | Some r => if heldBy build r then Z.max 0 (m_used m u - m_held m r) else Z.max 0 (m_used m u)
        | None => Z.max 0 (m_used m u)
        end
      else 0
  | _ => 0
  end.

Fixpoint overshoot (m : Measure) (p : StudioQuotaPolicy) (build : string) (d : DB) (l : list SpendOp) : Z :=
  match l with [] => 0 | o :: l' => overshootOf m build d o + overshoot m p build (spendOp p d o) l' end.

Definition spendAll (p : StudioQuotaPolicy) (d : DB) (l : list SpendOp) : DB := foldl (spendOp p) d l.

Lemma sum_app l l' : sum (l ++ l') = sum l + sum l'.
Proof. induction l as [|x l IH]; simpl; lia. Qed.

Lemma sumWhere_app {A : Type} (q : A -> bool) f l l' : sumWhere q f (l ++ l') = sumWhere q f l + sumWhere q f l'.
Proof. unfold sumWhere. by rewrite List.filter_app, map_app, sum_app. Qed.

Lemma sumWhere_one {A : Type} (q : A -> bool) f x : sumWhere q f [x] = if q x then f x else 0.
Proof. unfold sumWhere. simpl. destruct (q x); simpl; lia. Qed.

Lemma sumWhere_cons {A : Type} (q : A -> bool) f x l : sumWhere q f (x :: l) = (if q x then f x else 0) + sumWhere q f l.
Proof. change (x :: l) with ([x] ++ l). by rewrite sumWhere_app, sumWhere_one. Qed.

Lemma countWhere_sum {A : Type} (q : A -> bool) l : countWhere q l = sumWhere q (fun _ => 1) l.
Proof. unfold countWhere, sumWhere. induction (List.filter q l) as [|x k IH]; simpl; lia. Qed.

Lemma sumWhere_alter {A : Type} (q : A -> bool) f g i (l : list A) x : l !! i = Some x ->
  sumWhere q f (alter g i l) = sumWhere q f l - (if q x then f x else 0) + (if q (g x) then f (g x) else 0).
Proof.
  revert i. induction l as [|y l IH]; intros [|i]; [done|done|..]; intros H.
  - injection H as ->. change (alter g 0%nat (x :: l)) with (g x :: l). rewrite !sumWhere_cons. lia.
  - change (alter g (S i) (y :: l)) with (y :: alter g i l). rewrite !sumWhere_cons, (IH i H). lia.
Qed.

Lemma alter_none {A : Type} (g : A -> A) i (l : list A) : l !! i = None -> alter g i l = l.
Proof.
  revert i. induction l as [|y l IH]; intros [|i]; [done|done|done|]. intros H.
  change (alter g (S i) (y :: l)) with (y :: alter g i l). by rewrite (IH i H).
Qed.

(** The spending of a build in one measure. *)
Definition spent (m : Measure) (d : DB) (build : string) : Z :=
  sumWhere (usageOf build) (fun u => m_used m (u_usage u)) (usage d) + sumWhere (heldBy build) (m_held m) (reservations d).

Lemma totals_spent m d build : m ∈ measures -> m_total m (totals d build) = spent m d build.
Proof.
  unfold measures. rewrite !elem_of_cons, elem_of_nil. intros [->|[->|[->|[]]]]; unfold spent; simpl; [|done..].
  by rewrite countWhere_sum.
Qed.

Lemma heldBy_setState build s r : s <> HELD -> heldBy build (setState s r) = false.
Proof. intros Hs. unfold heldBy. simpl. rewrite bool_decide_eq_false_2 by done. apply andb_false_r. Qed.

(** Closing a reservation gives back what it held. *)
Lemma spent_updateState m d build id s : s <> HELD -> spent m (updateState id s d) build =
  spent m d build - match reservations d !! id with Some r => if heldBy build r then m_held m r else 0 | None => 0 end.
Proof.
  intros Hs. unfold spent, updateState. simpl. destruct (reservations d !! id) as [r|] eqn:E.
  - rewrite (sumWhere_alter _ _ _ _ _ _ E), heldBy_setState by done. lia.
  - rewrite alter_none by done. lia.
Qed.

Lemma spent_settle m d build id b u : spent m (settle id b u d) build =
  spent m (updateState id SETTLED d) build + (if streq b build then m_used m u else 0).
Proof. unfold settle, spent. simpl. rewrite sumWhere_app, sumWhere_one. unfold usageOf. simpl. lia. Qed.

Definition held (p : StudioQuotaPolicy) (build : string) (e : Z) : Reservation :=
  {| r_build := build; r_input := e; r_output := reservedOutputTokensPerRequest p; r_state := HELD |}.

Lemma reservation_ok p d b e id d' : reserve p d b e = Ok (id, d') ->
  id = length (reservations d) /\ d' = withReservations (reservations d ++ [held p b e]) d /\
  forall m, m ∈ measures -> spent m d b + m_held m (held p b e) <= m_limit m p.
Proof.
  unfold reserve. rewrite !throw_ok, !Z.ltb_ge. intros (H1 & H2 & H3 & [= <- <-]). split_and!; [done..|]. intros m Hm.
  rewrite <- totals_spent by done. unfold measures in Hm. rewrite !elem_of_cons, elem_of_nil in Hm.
  by destruct Hm as [->|[->|[->|[]]]].
Qed.

Lemma spent_reserve m p d b e build : spent m (withReservations (reservations d ++ [held p b e]) d) build =
  spent m d build + (if streq b build then m_held m (held p b e) else 0).
Proof.
  unfold spent. simpl. rewrite sumWhere_app, sumWhere_one. unfold heldBy. simpl.
  rewrite andb_true_r. lia.
Qed.

(** Estimates are not negative. *)
Definition opOk (o : SpendOp) : Prop := match o with Reserve _ e => 0 <= e | _ => True end.
Definition heldOk (m : Measure) (d : DB) : Prop := Forall (fun r => 0 <= m_held m r) (reservations d).

Lemma held_nonneg m p b e : m ∈ measures -> 0 <= e -> 0 <= reservedOutputTokensPerRequest p -> 0 <= m_held m (held p b e).
Proof.
  unfold measures. rewrite !elem_of_cons, elem_of_nil. by intros [->|[->|[->|[]]]].
Qed.

Lemma heldOk_step m p d o : m ∈ measures -> opOk o -> 0 <= reservedOutputTokensPerRequest p -> heldOk m d ->
  heldOk m (spendOp p d o).
Proof.
  intros Hm Ho Hr Hd. assert (forall id s, heldOk m (updateState id s d)) as Hu.
  { intros id s. apply Forall_alter; [done|]. intros r _ Hx. unfold measures in Hm. rewrite !elem_of_cons, elem_of_nil in Hm.
    by destruct Hm as [->|[->|[->|[]]]]. }
  destruct o as [b e|id b u|id]; [|apply Hu..]. simpl. destruct (reserve p d b e) as [[id d']|] eqn:E; [|done].
  apply reservation_ok in E as (_ & -> & _). apply Forall_app. split; [done|]. constructor; [by apply held_nonneg|constructor].
Qed.

(** What one operation does to the spending. *)
Lemma spent_step m p d build o bound : m ∈ measures -> heldOk m d -> 0 <= bound ->
  spent m d build <= m_limit m p + bound ->
  spent m (spendOp p d o) build <= m_limit m p + (bound + overshootOf m build d o).
Proof.
  intros Hm Hd Hb Hs. destruct o as [b e|id b u|id]; simpl.
  - destruct (reserve p d b e) as [[id d']|] eqn:E; [|lia]. apply reservation_ok in E as (_ & -> & H). rewrite spent_reserve.
    destruct (streq b build) eqn:Eb; [|lia]. apply streq_true in Eb as ->. specialize (H m Hm). lia.
  - rewrite spent_settle, spent_updateState by done. destruct (reservations d !! id) as [r|] eqn:E.
    + pose proof (Forall_lookup_1 _ _ _ _ Hd E) as Hr. simpl in Hr. destruct (heldBy build r), (streq b build); lia.
    + destruct (streq b build); lia.
  - unfold release. rewrite spent_updateState by done. destruct (reservations d !! id) as [r|] eqn:E; [|lia].
    pose proof (Forall_lookup_1 _ _ _ _ Hd E) as Hr. simpl in Hr. destruct (heldBy build r); lia.
Qed.

Lemma overshootOf_nonneg m build d o : 0 <= overshootOf m build d o.
Proof. destruct o as [b e|id b u|id]; simpl; [lia| |lia]. destruct (streq b build); [|lia]. case_match; [case_match|]; lia. Qed.

Lemma spent_bounded m p build l : m ∈ measures -> Forall opOk l -> 0 <= reservedOutputTokensPerRequest p ->
  forall d bound, heldOk m d -> 0 <= bound -> spent m d build <= m_limit m p + bound ->
  spent m (spendAll p d l) build <= m_limit m p + (bound + overshoot m p build d l).
Proof.
  intros Hm Hl Hr. induction Hl as [|o l Ho Hl IH]; intros d bound Hd Hb Hs; simpl; [lia|].
  rewrite (Z.add_assoc bound). apply IH; [by apply heldOk_step|pose proof (overshootOf_nonneg m build d o); lia|by apply spent_step].
Qed.

(** C38: whatever reservations, settlements and releases of whatever builds follow each other, the requests, input
    tokens and output tokens a build has settled and holds stay within its limits, up to what settlements used
    beyond their own reservations; with no such settlement they stay within the limits.  The input a reservation estimates is
    not negative, as it is where the pipeline computes it from a length, nor are the limits. *)
Theorem build_budget p l build : Forall opOk l -> 0 <= reservedOutputTokensPerRequest p ->
  (forall m, m ∈ measures -> 0 <= m_limit m p) ->
  forall m, m ∈ measures ->
  m_total m (totals (spendAll p emptyDB l) build) <= m_limit m p + overshoot m p build emptyDB l /\
  (overshoot m p build emptyDB l <= 0 -> m_total m (totals (spendAll p emptyDB l) build) <= m_limit m p).
Proof.
  intros Hl Hr Hlim m Hm. rewrite totals_spent by done.
  pose proof (spent_bounded m p build l Hm Hl Hr emptyDB 0) as H. specialize (Hlim m Hm).
  assert (spent m emptyDB build = 0) as H0 by done.
  split; [|intros Ho]; (etransitivity; [apply H; [constructor|done|lia]|lia]).
Qed.

End Quota.

Module Pipeline.
Import Quota.

(** ** Creating a build *)

Record CreateArgs := { userId : string; idempotencyKey : option string; newId : string; createdAt : Z }.

(** A key that is present and not empty. *)
Definition keyGiven (a : CreateArgs) : option string :=
  match idempotencyKey a with Some k => if streq k "" then None else Some k | None => None end.
Definition byKey (k : string) (d : DB) : option Build :=
  List.find (fun b => bool_decide (b_idempotencyKey b = Some k)) (builds d).

Definition newBuild (a : CreateArgs) : Build :=
  {| b_id := newId a; b_user := userId a; b_status := "RUNNING"; b_createdAt := createdAt a; b_repairCycles := 0;
     b_idempotencyKey := idempotencyKey a |}.

Inductive CreateError := Quota (e : QuotaExceededError) | UniqueConstraint.

(** The primary key and the unique idempotency key of the table; [NULL]s do not conflict. *)
Definition conflicts (b : Build) (d : DB) : bool :=
  some (fun x => streq (b_id x) (b_id b) ||
                 match b_idempotencyKey b with Some k => bool_decide (b_idempotencyKey x = Some k) | None => false end) (builds d).

(** [newId] is the random identifier, [createdAt] the clock. *)
Definition createBuild (p : StudioQuotaPolicy) (d : DB) (a : CreateArgs) : result CreateError (Build * DB) :=
  match keyGiven a ≫= fun k => byKey k d with
  | Some b => Ok (b, d)
  | None =>
      match assertCanCreateBuild p d (userId a) (createdAt a) with
      | Err e => Err (Quota e)
      | Ok _ =>
          throw UniqueConstraint when conflicts (newBuild a) d ;;
          Ok (newBuild a, withBuilds (builds d ++ [newBuild a]) d)
      end
  end.

(** ** Calling a model *)

(** What the call did. *)
Inductive ModelOutcome := Answered (u : Usage) | RateLimited | CallFailed.
Inductive CallResult := Output | LimitReached (e : QuotaExceededError) | Threw.

Definition setStatus (build status : string) (d : DB) : DB :=
  withBuilds (map (fun b => if streq (b_id b) build
                            then {| b_id := b_id b; b_user := b_user b; b_status := status; b_createdAt := b_createdAt b;
                                    b_repairCycles := b_repairCycles b; b_idempotencyKey := b_idempotencyKey b |}
                            else b) (builds d)) d.

(** [length] is that of the prompt; a third of it, rounded up, is the estimate. *)
Definition estimate (length : Z) : Z := (length + 2) / 3.

Definition callModel (p : StudioQuotaPolicy) (d : DB) (build : string) (length : Z) (fn : DB -> ModelOutcome * DB) : CallResult * DB :=
  match reserve p d build (estimate length) with
  | Err e => (LimitReached e, setStatus build "BUILD_LIMIT_REACHED" d)
  | Ok (id, d1) =>
      let '(o, d2) := fn d1 in
      match o with
      | Answered u => (Output, settle id build u d2)
      | RateLimited => (Threw, setStatus build "BUILD_PAUSED_UPSTREAM_LIMIT" (release id d2))
      | CallFailed => (Threw, release id d2)
      end
  end.

(** ** The mandatory simulation pass *)

Definition simulationRow (build pass : string) : SimulationRow := {| s_build := build; s_class := MANDATORY_SECURITY; s_pass := pass |}.

(** The scenarios that run, in order, each with the clock it is checked at; the rest is reported as not run. *)
Fixpoint simulateAll (p : StudioQuotaPolicy) (build pass : string) (startedAt : Z) (planned : list (string * Z)) (d : DB)
    : list string * list string * DB :=
  match planned with
  | [] => ([], [], d)
  | (s, now) :: rest =>
      match assertCanSimulate p d build MANDATORY_SECURITY, assertSandboxWithinWallClock p startedAt now with
      | Ok _, Ok _ =>
          let d' := withSimulations (simulations d ++ [simulationRow build pass]) d in
          let '(ran, notRun, d2) := simulateAll p build pass startedAt rest d' in (s :: ran, notRun, d2)
      | _, _ => ([], map fst planned, d)
      end
  end.

Definition simulatePass (p : StudioQuotaPolicy) (build pass : string) (startedAt : Z) (planned : list (string * Z)) (d : DB)
    : result QuotaExceededError (list string * list string * DB) :=
  let* _ := assertMandatoryPassSize p (Z.of_nat (length planned)) in Ok (simulateAll p build pass startedAt planned d).

(** ** The repair loop *)

Definition bumpRepairs (build : string) (d : DB) : DB :=
  withBuilds (map (fun b => if streq (b_id b) build
                            then {| b_id := b_id b; b_user := b_user b; b_status := b_status b; b_createdAt := b_createdAt b;
                                    b_repairCycles := b_repairCycles b + 1; b_idempotencyKey := b_idempotencyKey b |}
                            else b) (builds d)) d.

(** [suite n] is the outcome of the test run after [n] repairs.  [None]: the fuel ran out; [Some false]: the
    repairs did. *)
Fixpoint repairLoop (p : StudioQuotaPolicy) (build : string) (suite : nat -> bool) (fuel n : nat) (d : DB) : option (bool * nat * DB) :=
  match fuel with
  | O => None
  | S f =>
      if suite n then Some (true, n, d)
      else match assertCanRepair p d build with
           | Err _ => Some (false, n, setStatus build "BUILD_NEEDS_USER_REVIEW" d)
           | Ok _ => repairLoop p build suite f (S n) (bumpRepairs build d)
           end
  end.

(** ** Theorems *)

Lemma byKey_some k d b : byKey k d = Some b -> b ∈ builds d /\ b_idempotencyKey b = Some k.
Proof. intros H. apply find_true in H as [Hin H]. by apply bool_decide_eq_true in H. Qed.

(** A build is created only below the user's limits, and the same idempotency key answers with the same build
    and changes nothing, however the tables grew in between. *)
Theorem createBuild_once p d a b d' : createBuild p d a = Ok (b, d') ->
  (d' = d \/ (assertCanCreateBuild p d (userId a) (createdAt a) = Ok tt /\ b = newBuild a /\ builds d' = builds d ++ [b])) /\
  forall k a' l, keyGiven a = Some k -> keyGiven a' = Some k ->
    createBuild p (withBuilds (builds d' ++ l) d') a' = Ok (b, withBuilds (builds d' ++ l) d').
Proof.
  assert (forall a k, keyGiven a = Some k -> idempotencyKey a = Some k) as Hkey.
  { intros x k. unfold keyGiven. destruct (idempotencyKey x) as [k'|]; [|done]. by destruct (streq k' ""). }
  assert (forall k l l' x, List.find (fun b => bool_decide (b_idempotencyKey b = Some k)) l = Some x ->
    List.find (fun b => bool_decide (b_idempotencyKey b = Some k)) (l ++ l') = Some x) as Hfind.
  { intros k l l' x. induction l as [|y l IH]; simpl; [done|]. case_bool_decide; [done|exact IH]. }
  assert (forall k a' l, keyGiven a' = Some k -> byKey k d' = Some b ->
    createBuild p (withBuilds (builds d' ++ l) d') a' = Ok (b, withBuilds (builds d' ++ l) d')) as Hagain.
  { intros k a' l Hk Hb. unfold createBuild. rewrite Hk. cbn [mbind option_bind]. unfold byKey. cbn [builds withBuilds].
    by rewrite (Hfind k _ _ b Hb). }
  unfold createBuild. destruct (keyGiven a ≫= fun k => byKey k d) as [b0|] eqn:E.
  - intros [= -> <-]. split; [by left|]. intros k a' l Hk Hk'. rewrite Hk in E. by apply (Hagain k).
  - destruct (assertCanCreateBuild p d (userId a) (createdAt a)) as [[]|e] eqn:Hok; [|done].
    intros [_ [= <- <-]]%throw_ok. split; [by right|]. intros k a' l Hk Hk'. apply (Hagain k); [done|].
    rewrite Hk in E. cbn in E. unfold byKey in *. cbn [builds withBuilds]. clear Hagain. revert E.
    induction (builds d) as [|y m IH]; simpl; [|case_bool_decide; [done|exact IH]].
    intros _. by rewrite bool_decide_eq_true_2 by exact (Hkey a k Hk).
Qed.

(** A call leaves nothing of its own held, whatever happens while the model answers. *)
Lemma callModel_closes p d build length fn id d1 : reserve p d build (estimate length) = Ok (id, d1) ->
  forall r, reservations (callModel p d build length fn).2 !! id = Some r -> r_state r <> HELD.
Proof.
  intros H r. unfold callModel. rewrite H. destruct (fn d1) as [o d2]. destruct o as [u| |]; cbn [snd].
  all: unfold settle, release, updateState; cbn; rewrite list_lookup_alter_eq; intros (r' & _ & ->)%fmap_Some; simpl; done.
Qed.

(** ** Passes *)

Definition recorded (d : DB) (build pass : string) : Prop := pass ∈ map s_pass (List.filter (mandatoryOf build) (simulations d)).

#[export] Instance recorded_dec d build pass : Decision (recorded d build pass).
Proof. unfold recorded. apply _. Defined.

Lemma length_remove_dups_snoc (l : list string) x :
  length (remove_dups (l ++ [x])) = (length (remove_dups l) + if bool_decide (x ∈ l) then 0 else 1)%nat.
Proof.
  induction l as [|y l IH].
  - reflexivity.
  - cbn [app remove_dups]. unfold decide_rel.
    destruct (list_elem_of_dec y (l ++ [x])) as [H1|H1], (list_elem_of_dec y l) as [H2|H2]; simpl; rewrite IH;
      rewrite elem_of_app, list_elem_of_singleton in H1; repeat case_bool_decide;
      rewrite ?elem_of_cons in *; try lia; exfalso; clear IH; naive_solver.
Qed.

Lemma passesOf_add d build pass : passesOf (withSimulations (simulations d ++ [simulationRow build pass]) d) build =
  passesOf d build + (if bool_decide (recorded d build pass) then 0 else 1).
Proof.
  unfold passesOf, recorded. cbn [simulations withSimulations]. rewrite List.filter_app, map_app.
  assert (List.filter (mandatoryOf build) [simulationRow build pass] = [simulationRow build pass]) as ->.
  { simpl. unfold mandatoryOf. simpl. by rewrite streq_refl. }
  cbn [map s_pass simulationRow]. rewrite length_remove_dups_snoc. repeat case_bool_decide; try done; lia.
Qed.

Lemma recorded_add d build pass : recorded (withSimulations (simulations d ++ [simulationRow build pass]) d) build pass.
Proof.
  unfold recorded. cbn [simulations withSimulations]. rewrite List.filter_app, map_app. simpl.
  unfold mandatoryOf at 2. simpl. rewrite streq_refl. simpl. apply elem_of_app. right. left.
Qed.

Definition onTime (p : StudioQuotaPolicy) (startedAt : Z) (planned : list (string * Z)) : Prop :=
  Forall (fun q => q.2 - startedAt <= sandboxWallClockMs p) planned.

Lemma mandatory_ok p d build : assertCanSimulate p d build MANDATORY_SECURITY = Ok tt <-> passesOf d build <= maxMandatoryPassesPerBuild p.
Proof. unfold assertCanSimulate. simpl. rewrite throw_ok, Z.ltb_ge. naive_solver. Qed.

Lemma wallclock_ok p startedAt now : assertSandboxWithinWallClock p startedAt now = Ok tt <-> now - startedAt <= sandboxWallClockMs p.
Proof. unfold assertSandboxWithinWallClock. rewrite throw_ok, Z.ltb_ge. naive_solver. Qed.

Lemma simulateAll_recorded p build pass startedAt planned d : recorded d build pass ->
  passesOf d build <= maxMandatoryPassesPerBuild p -> onTime p startedAt planned ->
  exists d', simulateAll p build pass startedAt planned d = (map fst planned, [], d').
Proof.
  intros Hr Hp Ht. revert d Hr Hp. induction Ht as [|[s now] rest Hq Ht IH]; intros d Hr Hp; simpl; [by eexists|].
  apply mandatory_ok in Hp as Hok. apply wallclock_ok in Hq. simpl in Hq. rewrite Hok, Hq.
  destruct (IH _ (recorded_add d build pass)) as (d' & ->); [|by eexists].
  rewrite passesOf_add, bool_decide_eq_true_2 by done. lia.
Qed.

(** Within the sandbox's time, a mandatory pass runs every planned scenario and reports none left out, as long as
    fewer passes than the ceiling are recorded for the build; the pass after those runs its first scenario
    and reports all the others as not run. *)
Theorem simulate_pass p build pass startedAt planned d : onTime p startedAt planned -> ~ recorded d build pass ->
  (passesOf d build < maxMandatoryPassesPerBuild p ->
     exists d', simulateAll p build pass startedAt planned d = (map fst planned, [], d')) /\
  (passesOf d build = maxMandatoryPassesPerBuild p ->
     exists d', simulateAll p build pass startedAt planned d = (map fst (take 1 planned), map fst (drop 1 planned), d')).
Proof.
  intros Ht Hr. destruct planned as [|[s now] rest]; [by split; eexists|]. apply Forall_cons in Ht as [Hq Ht]. simpl in Hq.
  apply wallclock_ok in Hq. assert (forall d', passesOf d build <= maxMandatoryPassesPerBuild p ->
    d' = withSimulations (simulations d ++ [simulationRow build pass]) d ->
    simulateAll p build pass startedAt ((s, now) :: rest) d =
      let '(ran, notRun, d2) := simulateAll p build pass startedAt rest d' in (s :: ran, notRun, d2)) as Hstep.
  { intros d' Hp ->. simpl. apply mandatory_ok in Hp. by rewrite Hp, Hq. }
  pose proof (passesOf_add d build pass) as Ha. rewrite bool_decide_eq_false_2 in Ha by done. split; intros Hp.
  - rewrite (Hstep _ ltac:(lia) eq_refl).
    destruct (simulateAll_recorded p build pass startedAt rest _ (recorded_add d build pass) ltac:(lia) Ht) as (d' & ->).
    by eexists.
  - rewrite (Hstep _ ltac:(lia) eq_refl). destruct rest as [|[s2 now2] rest]; [by eexists|]. simpl.
    destruct (assertCanSimulate p _ build MANDATORY_SECURITY) as [[]|e] eqn:E; [|by eexists].
    apply mandatory_ok in E. lia.
Qed.

(** ** Repairs *)

Lemma findBuild_bump d build b : findBuild d build = Some b ->
  findBuild (bumpRepairs build d) build =
    Some {| b_id := b_id b; b_user := b_user b; b_status := b_status b; b_createdAt := b_createdAt b;
            b_repairCycles := b_repairCycles b + 1; b_idempotencyKey := b_idempotencyKey b |}.
Proof.
  unfold findBuild, bumpRepairs. cbn [builds withBuilds]. induction (builds d) as [|y l IH]; simpl; [done|].
  destruct (streq (b_id y) build) eqn:E; simpl; rewrite E; [by intros [= ->]|exact IH].
Qed.

(** The repair loop ends: with fuel for one turn more than the repairs the build has left, it returns, after no
    more repairs than that; it reports success exactly when the suite passed, and hands the build to the user
    only after the last repair failed. *)
Theorem repair_terminates p build suite d b fuel : findBuild d build = Some b ->
  let remaining := Z.to_nat (autoRepairLoops p - b_repairCycles b) in
  (remaining < fuel)%nat ->
  exists ok n d', repairLoop p build suite fuel 0 d = Some (ok, n, d') /\ (n <= remaining)%nat /\ suite n = ok /\
    (forall i, (i < n)%nat -> suite i = false) /\ (ok = false -> n = remaining).
Proof.
  intros Hb remaining Hf.
  enough (forall k d b fuel, findBuild d build = Some b -> (Z.to_nat (autoRepairLoops p - b_repairCycles b) + k = remaining)%nat ->
    (remaining < fuel + k)%nat -> (forall i, (i < k)%nat -> suite i = false) ->
    exists ok n d', repairLoop p build suite fuel k d = Some (ok, n, d') /\ (n <= remaining)%nat /\ suite n = ok /\
      (forall i, (i < n)%nat -> suite i = false) /\ (ok = false -> n = remaining)) as H.
  { apply (H 0%nat d b fuel Hb); [lia|lia|lia]. }
  clearbody remaining. clear d b fuel Hb Hf. intros k d b fuel. revert k d b. induction fuel as [|f IH]; intros k d b Hb Hk Hf Hs; [lia|].
  cbn [repairLoop]. destruct (suite k) eqn:Ek; [exists true, k, d; split_and!; try done; lia|].
  unfold assertCanRepair. rewrite Hb. destruct (autoRepairLoops p <=? b_repairCycles b) eqn:El.
  - apply Z.leb_le in El. exists false, k, (setStatus build "BUILD_NEEDS_USER_REVIEW" d). split_and!; try done; lia.
  - apply Z.leb_gt in El. apply (IH (S k) _ _ (findBuild_bump d build b Hb)); simpl; [lia|lia|].
    intros i Hi. destruct (decide (i = k)) as [->|]; [done|]. apply Hs. lia.
Qed.

End Pipeline.

(** ** Samples *)

Module Samples.
Import Quota Pipeline.

Definition tiny : StudioQuotaPolicy :=
  {| newBuildsPerRollingDay := Some 3; concurrentBuilds := 1; modelRequestsPerBuild := 2; inputTokensPerBuild := 100;
     outputTokensPerBuild := 10; autoRepairLoops := 3; userRequestedSimulationsPerBuild := 20;
     maxMandatorySimulationsPerPass := 200; maxMandatoryPassesPerBuild := 1; sandboxWallClockMs := 1000;
     generatedFiles := 250; exportBytes := 100; reservedOutputTokensPerRequest := 5; buildCreationCooldownMs := 0;
     promptInteractionsPerMinute := 10 |}.

(** Three calls of one build: the third is refused; the second used more than it reserved. *)
Definition calls : list SpendOp :=
  [Reserve "b1" 40; Settle 0 "b1" {| requests := 1; inputTokens := 30; outputTokens := 4 |}; Reserve "b1" 40;
   Settle 1 "b1" {| requests := 1; inputTokens := 90; outputTokens := 5 |}; Reserve "b1" 1].

Lemma build_budget_witness :
  m_total byInput (totals (spendAll tiny emptyDB calls) "b1") <= 100 + overshoot byInput tiny "b1" emptyDB calls.
Proof.
  apply (build_budget tiny calls "b1").
  - repeat constructor; discriminate.
  - discriminate.
  - intros m Hm. unfold measures in Hm. rewrite !elem_of_cons, elem_of_nil in Hm. destruct Hm as [->|[->|[->|[]]]]; discriminate.
  - right. left.
Defined.

(** The estimate is what is reserved, so a call that uses more than it overspends the build. *)
Example overspent :
  totals (spendAll tiny emptyDB calls) "b1" = {| requests := 2; inputTokens := 120; outputTokens := 9 |} /\
  overshoot byInput tiny "b1" emptyDB calls = 50.
Proof. vm_compute. auto. Qed.

(** A call that fails after its tokens were spent is accounted with nothing. *)
Example failed_call_is_free :
  totals (callModel tiny emptyDB "b1" 90 (fun d => (CallFailed, d))).2 "b1" = {| requests := 0; inputTokens := 0; outputTokens := 0 |}.
Proof. vm_compute. auto. Qed.

Definition createArgs (k : string) (id : string) : CreateArgs :=
  {| userId := "u"; idempotencyKey := Some k; newId := id; createdAt := 5 |}.

Lemma createBuild_once_witness :
  createBuild tiny (withBuilds [newBuild (createArgs "k" "b1")] emptyDB) (createArgs "k" "b2") =
    Ok (newBuild (createArgs "k" "b1"), withBuilds [newBuild (createArgs "k" "b1")] emptyDB).
Proof.
  apply (createBuild_once tiny emptyDB (createArgs "k" "b1") (newBuild (createArgs "k" "b1"))
           (withBuilds [newBuild (createArgs "k" "b1")] emptyDB) eq_refl) with (k := "k") (l := []); reflexivity.
Defined.

Definition plan2 : list (string * Z) := [("s1", 10); ("s2", 20)].
Definition ranFirst : DB := (simulateAll tiny "b1" "p1" 0 plan2 emptyDB).2.

Lemma simulate_pass_witness : exists d', simulateAll tiny "b1" "p2" 0 plan2 ranFirst = (["s1"], ["s2"], d').
Proof.
  apply (simulate_pass tiny "b1" "p2" 0 plan2 ranFirst).
  - repeat constructor; discriminate.
  - apply (bool_decide_unpack _). vm_compute. exact I.
  - vm_compute. reflexivity.
Defined.

Definition built : DB := withBuilds [newBuild (createArgs "k" "b1")] emptyDB.

Lemma repair_terminates_witness : exists ok n d', repairLoop tiny "b1" (fun n => (2 <=? n)%nat) 4 0 built = Some (ok, n, d') /\
  (n <= 3)%nat.
Proof.
  destruct (repair_terminates tiny "b1" (fun n => (2 <=? n)%nat) built (newBuild (createArgs "k" "b1")) 4 eq_refl)
    as (ok & n & d' & H & Hn & _); [apply (bool_decide_unpack _); reflexivity|]. by exists ok, n, d'.
Defined.

End Samples.
