(* ===== verification/Workflow.v ===== *)
(** * The confidential policy workflow

    [workflows/cre-policy/contextlock-policy/workflow.ts], the handler that runs in the enclave: it reads the
    private policy from a secret, the request from the log of the chain and the market from a risk feed, calls
    the decision function of [Policy], and reports a verdict.  [Conv] has the conversions the handler applies
    to parsed JSON ([String], [Number], [Boolean], [BigInt]); [Handler] is the handler; [Release] states what
    leaves the enclave.

    A run is the list of its interactions and its answer.  The secrets, the feed's answer and the clock are
    the [World]; viem's codecs are the class [Codec].  Every JSON text is parsed, with its numbers rounded to
    doubles and its strings as code units; the documents themselves are texts of characters up to U+00FF.
    The one conversion outside the model is of a text of the policy that has a character above U+00FF (by a
    [\u] escape) where it is kept or compared: the policy's name, its canary, and the items of the lists that are
    lowered to be compared.  It is the error [OutsideModel], and such a run reports nothing. *)

From S2P Require Import Prelude JsNum Regex Json JsonParse Capability Broker Policy.
From stdpp Require Import pretty list.
From Stdlib Require Import Ascii.
Local Open Scope Z_scope.

Module Conv.

Inductive ConvError := TypeError | SyntaxError | OutsideModel.
#[export] Instance ConvError_eq_dec : EqDecision ConvError.
Proof. solve_decision. Defined.

(** ** Parsed documents *)

(** A value [JSON.parse] gives, or [undefined]; texts are lists of code units. *)
Inductive parsed : Type :=
| PUndef
| PNull
| PBool (b : bool)
| PNum (n : jsnum)
| PStr (u : list N)
| PArr (l : list parsed)
| PObj (l : list (list N * parsed)).

(** The double nearest to [m * 10 ^ e]. *)
Definition decimalNum (m e : Z) : jsnum := toDouble (inject_Z m * Qpower 10 e)%Q.

Fixpoint ofTree (t : tree) : parsed :=
  match t with
  | TNull => PNull
  | TBool b => PBool b
  | TNum m e => PNum (decimalNum m e)
  | TStr u => PStr u
  | TArr l => PArr (map ofTree l)
  | TObj l => PObj (map (fun p => (p.1, ofTree p.2)) l)
  end.

(** [JSON.parse(raw)]. *)
Definition parse (raw : string) : result ConvError parsed :=
  match grammar raw with Some t => Ok (ofTree t) | None => Err SyntaxError end.

(** The value of a name: of two members of one name, the last one's. *)
Fixpoint member (k : list N) (l : list (list N * parsed)) : option parsed :=
  match l with
  | [] => None
  | (k', v) :: l' => match member k l' with
                     | Some w => Some w
                     | None => if bool_decide (k = k') then Some v else None
                     end
  end.

(** [v.k], for a name no prototype has. *)
Definition prop (k : string) (v : parsed) : result ConvError parsed :=
  match v with
  | PUndef | PNull => Err TypeError
  | PObj l => Ok (default PUndef (member (units k) l))
  | _ => Ok PUndef
  end.

(** ** Numeric texts *)

(** White space and line terminators. *)
Definition jsSpace (n : N) : bool :=
  ((9 <=? n) && (n <=? 13) || (n =? 32) || (n =? 160) || (n =? 0x1680) || (0x2000 <=? n) && (n <=? 0x200A) ||
   (n =? 0x2028) || (n =? 0x2029) || (n =? 0x202F) || (n =? 0x205F) || (n =? 0x3000) || (n =? 0xFEFF))%N.
Fixpoint trimStart (u : list N) : list N :=
  match u with n :: u' => if jsSpace n then trimStart u' else u | [] => [] end.
Definition trimmed (u : list N) : list N := rev (trimStart (rev (trimStart u))).

(** Digits in a base, at least one. *)
Fixpoint radixGo (base acc : N) (s : string) : option N :=
  match s with
  | EmptyString => Some acc
  | String c s' => match hexVal c with
                   | Some d => if (d <? base)%N then radixGo base (acc * base + d)%N s' else None
                   | None => None
                   end
  end.
Definition radix (base : N) (s : string) : option N := if streq s EmptyString then None else radixGo base 0 s.

(** [0x], [0o] and [0b], in either case, and what follows. *)
Definition prefixed (s : string) : option (N * string) :=
  match s with
  | String z (String x t) =>
      if Ascii.eqb z "0" then
        if Ascii.eqb (ascii_lower x) "x" then Some (16%N, t)
        else if Ascii.eqb (ascii_lower x) "o" then Some (8%N, t)
        else if Ascii.eqb (ascii_lower x) "b" then Some (2%N, t)
        else None
      else None
  | _ => None
  end.

(** An optional sign, and the rest. *)
Definition signed (s : string) : bool * string :=
  match s with
  | String c t => if Ascii.eqb c "-" then (true, t) else if Ascii.eqb c "+" then (false, t) else (false, s)
  | EmptyString => (false, EmptyString)
  end.

(** Digits with an optional fraction and exponent; at least one digit in front of the exponent. *)
Definition decimalText (neg : bool) (s : string) : jsnum :=
  let p := digits s in
  let f := match p.2 with
           | String c s' => if Ascii.eqb c "." then digits s' else (EmptyString, p.2)
           | EmptyString => (EmptyString, EmptyString)
           end in
  if streq (p.1 +:+ f.1) EmptyString then NaN
  else match exponent f.2 with
       | Some (x, EmptyString) =>
           let m := Z.of_N (digitsOf (p.1 +:+ f.1)) in
           decimalNum (if neg then - m else m) (x - Z.of_nat (String.length f.1))
       | _ => NaN
       end.

(** [Number] of a text.  No character above U+00FF is part of a number. *)
Definition numberText (u : list N) : jsnum :=
  match narrow (trimmed u) with
  | None => NaN
  | Some t =>
      if streq t EmptyString then jint 0
      else match prefixed t with
           | Some (base, ds) => match radix base ds with Some n => jnum (Z.of_N n) | None => NaN end
           | None =>
               let s := signed t in
               if streq s.2 "Infinity" then (if s.1 then NInf else PInf) else decimalText s.1 s.2
           end
  end.

(** [BigInt] of a text. *)
Definition bigIntText (u : list N) : result ConvError Z :=
  match narrow (trimmed u) with
  | None => Err SyntaxError
  | Some t =>
      if streq t EmptyString then Ok 0
      else match prefixed t with
           | Some (base, ds) => match radix base ds with Some n => Ok (Z.of_N n) | None => Err SyntaxError end
           | None =>
               let s := signed t in
               match radix 10 s.2 with Some n => Ok (if s.1 then - Z.of_N n else Z.of_N n) | None => Err SyntaxError end
           end
  end.

(** ** The text of a number *)

Fixpoint zeros (n : nat) : string := match n with O => EmptyString | S m => String "0" (zeros m) end.

(** The form of the digits [ds] of an integer that is multiplied by [10 ^ e]: in full up to 10^21, as a fraction from 10^-6, and
    otherwise with an exponent. *)
Definition decimalForm (ds : string) (e : Z) : string :=
  let k := String.length ds in let n := Z.of_nat k + e in
  if (Z.of_nat k <=? n) && (n <=? 21) then ds +:+ zeros (Z.to_nat e)
  else if (0 <? n) && (n <=? 21)
  then String.substring 0 (Z.to_nat n) ds +:+ "." +:+ String.substring (Z.to_nat n) (k - Z.to_nat n) ds
  else if (-6 <? n) && (n <=? 0) then "0." +:+ zeros (Z.to_nat (- n)) +:+ ds
  else String.substring 0 1 ds +:+ (if (k =? 1)%nat then "" else "." +:+ String.substring 1 (k - 1) ds) +:+
       "e" +:+ (if 0 <? n - 1 then "+" else "-") +:+ pretty (Z.abs (n - 1)).

(** The exponent of the first digit, by way of the one of the first bit. *)
Fixpoint decadeUp (fuel : nat) (g : Z) (q : Q) : Z :=
  match fuel with
  | O => g
  | S n => if Qle_bool (Qpower 10 (g + 1)) q then decadeUp n (g + 1) q else g
  end.
Definition decade (q : Q) : Z := decadeUp 3 (ilog2 q * 1233 / 4096 - 1) q.

(** The texts with [k] digits next to a positive number, the nearest first. *)
Definition textsOf (q : Q) (k : nat) : list string :=
  let e := decade q + 1 - Z.of_nat k in let s := nearest (q * Qpower 10 (- e)) in
  map (fun x => if x =? 10 ^ Z.of_nat k then decimalForm "1" (e + Z.of_nat k) else decimalForm (pretty x) e) [s; s + 1; s - 1].

Definition texts (q : Q) : list string :=
  match Qnum q with
  | Z0 => ["0"]
  | Zpos _ => flat_map (textsOf q) (seq 1 17)
  | Zneg _ => map (String "-") (flat_map (textsOf (- q)%Q) (seq 1 17))
  end.

(** [String] of a number: the text of the fewest digits that is read back as the number, of two the nearest; 17 digits always do. *)
Definition numText (n : jsnum) : result ConvError string :=
  match n with
  | Fin q => match List.find (fun t => bool_decide (numberText (units t) = Fin q)) (texts q) with
             | Some t => Ok t
             | None => Err OutsideModel
             end
  | PInf => Ok "Infinity"
  | NInf => Ok "-Infinity"
  | NaN => Ok "NaN"
  end.

(** ** [String(v)], [Number(v)], [Boolean(v)] and [BigInt(String(v))] *)

(** [String] of an object: its own [toString], which JSON cannot make callable, or the inherited one. *)
Definition objectText (l : list (list N * parsed)) : result ConvError (list N) :=
  match member (units "toString") l with Some _ => Err TypeError | None => Ok (units "[object Object]") end.

(** [join(',')]. *)
Definition joined (l : list (list N)) : list N :=
  match l with [] => [] | u :: l' => u ++ flat_map (fun v => units "," ++ v) l' end.

Fixpoint toStr (v : parsed) : result ConvError (list N) :=
  match v with
  | PUndef => Ok (units "undefined")
  | PNull => Ok (units "null")
  | PBool b => Ok (units (if b then "true" else "false"))
  | PNum n => let* s := numText n in Ok (units s)
  | PStr u => Ok u
  | PArr l =>
      let* parts := mapR (fun x => match x with PNull | PUndef => Ok [] | _ => toStr x end) l in Ok (joined parts)
  | PObj l => objectText l
  end.

Definition toNum (v : parsed) : result ConvError jsnum :=
  match v with
  | PUndef => Ok NaN
  | PNull => Ok (jint 0)
  | PBool b => Ok (jint (if b then 1 else 0))
  | PNum n => Ok n
  | PStr u => Ok (numberText u)
  | PArr _ | PObj _ => let* u := toStr v in Ok (numberText u)
  end.

Definition toBool (v : parsed) : bool :=
  match v with
  | PUndef | PNull => false
  | PBool b => b
  | PNum n => match n with Fin q => negb (Qeq_bool q 0) | NaN => false | PInf | NInf => true end
  | PStr u => negb (bool_decide (u = []))
  | PArr _ | PObj _ => true
  end.

Definition toBig (v : parsed) : result ConvError Z := let* u := toStr v in bigIntText u.

(** A text that is kept: one with a character above U+00FF is outside the model. *)
Definition toText (v : parsed) : result ConvError string :=
  let* u := toStr v in match narrow u with Some s => Ok s | None => Err OutsideModel end.

(** ** The texts of two numbers differ *)

Lemma narrow_Some u s : narrow u = Some s -> u = units s.
Proof.
  revert s. induction u as [|n u IH]; intros s; [by intros [= <-]|]. simpl. destruct (n <? 256)%N eqn:E; [|done].
  intros (t & Ht & ->)%fmap_Some. simpl. apply N.ltb_lt in E. by rewrite N_ascii_embedding, (IH t).
Qed.

#[export] Instance units_inj : Inj (=) (=) units.
Proof. intros s t E. pose proof (narrow_units s) as H. rewrite E, narrow_units in H. congruence. Qed.

Lemma numText_read n s : numText n = Ok s -> numberText (units s) = n.
Proof.
  destruct n as [q| | |]; [|by intros [= <-]..]. unfold numText. destruct (List.find _ _) as [t|] eqn:E; [|done].
  intros [= <-]. apply List.find_some in E as [_ E]. by apply bool_decide_eq_true in E.
Qed.

Lemma numText_inj n n' s : numText n = Ok s -> numText n' = Ok s -> n = n'.
Proof. intros H%numText_read H'%numText_read. congruence. Qed.

(** The characters of the text of a number. *)
Definition numeral (c : ascii) : bool := negb (Ascii.eqb c "|").

Lemma zeros_chars n : all_chars numeral (zeros n) = true.
Proof. by induction n. Qed.

Lemma pretty_numeral (z : Z) : all_chars numeral (pretty z) = true.
Proof.
  apply (all_chars_impl numchar); [|apply pretty_Z_chars]. intros c H. unfold numeral. destruct (Ascii.eqb_spec c "|"); [by subst|done].
Qed.

Lemma substring_chars p n m s : all_chars p s = true -> all_chars p (String.substring n m s) = true.
Proof.
  revert n m. induction s as [|c s IH]; intros [|n] [|m] H; try done; simpl in *; apply andb_true_iff in H as [Hc Hs].
  - by rewrite Hc, IH.
  - by apply IH.
  - by apply IH.
Qed.

Lemma decimalForm_chars ds e : all_chars numeral ds = true -> all_chars numeral (decimalForm ds e) = true.
Proof.
  intros Hd. unfold decimalForm. cbv zeta.
  repeat case_match; rewrite ?all_chars_app, ?zeros_chars, ?pretty_numeral, ?substring_chars, ?Hd by done; try done.
Qed.

Lemma textsOf_chars q k t : t ∈ textsOf q k -> all_chars numeral t = true.
Proof.
  unfold textsOf. cbv zeta. intros (x & Hx & _)%list_elem_of_In%in_map_iff. subst t.
  destruct (_ =? _); apply decimalForm_chars; [done|apply pretty_numeral].
Qed.

Lemma numText_chars n s : numText n = Ok s -> all_chars numeral s = true.
Proof.
  destruct n as [q| | |]; [|by intros [= <-]..]. unfold numText. destruct (List.find _ _) as [t|] eqn:E; [|done].
  intros [= <-]. apply List.find_some in E as [E _]. unfold texts in E.
  destruct (Qnum q).
  - by destruct E as [<-|[]].
  - apply in_flat_map in E as (k & _ & E). by eapply textsOf_chars, list_elem_of_In.
  - apply in_map_iff in E as (u & <- & E). apply in_flat_map in E as (k & _ & E). simpl.
    by eapply textsOf_chars, list_elem_of_In.
Qed.

Definition txt (s : string) : parsed := PStr (units s).

Example conversions :
  map toNum [txt "  12 "; txt ""; PArr []; PArr [PNum (jint 7)]; PObj []; txt "0x1F"; txt "-1e3"; txt ".5"; txt "1_000"; PStr [0x2003; 49; 0xFEFF]; PStr [0x661]]%N =
    [Ok (jint 12); Ok (jint 0); Ok (jint 0); Ok (jint 7); Ok NaN; Ok (jint 31); Ok (jint (-1000)); Ok (Fin (1 # 2)); Ok NaN; Ok (jint 1); Ok NaN] /\
  map toBig [txt "12"; txt "-3"; txt "1e3"; PNum (jint 5); PNum (Fin (3 # 2)); PUndef; PArr []] =
    [Ok 12; Ok (-3); Err SyntaxError; Ok 5; Err SyntaxError; Err SyntaxError; Ok 0] /\
  map toBool [txt "false"; PArr []; PNum (jint 0); txt ""; PNum (Fin (1 # 2))] = [true; true; false; false; true].
Proof. vm_compute. auto. Qed.

Example texts_of_numbers :
  map numText [jint 0; jint (-13500); decimalNum 125 (-1); decimalNum 1 (-1); toDouble (1 # 3); decimalNum 1 21; decimalNum 123 20;
               decimalNum 15 (-7); decimalNum 1 (-6); decimalNum 1 23; decimalNum 5 (-324); decimalNum 1 400;
               toDouble (Qpower 2 (-44)); jnum (2 ^ 53 + 1)] =
  map Ok ["0"; "-13500"; "12.5"; "0.1"; "0.3333333333333333"; "1e+21"; "1.23e+22"; "0.0000015"; "0.000001"; "1e+23"; "5e-324"; "Infinity";
          "5.684341886080802e-14"; "9007199254740992"].
Proof. vm_compute. reflexivity. Qed.

End Conv.

Module Handler.
Import Conv.

(** ** What the handler is given *)

(** The event the gateway emits. *)
Record CapabilityRequested := {
  ev_requestHash : string;
  ev_agentIdentityHash : string;
  ev_agent : string;
  ev_ensNode : string;
  ev_target : string;
  ev_value : Z;
  ev_callData : string;
  ev_intentHash : string;
  ev_policyId : string;
  ev_policyVersion : Z;
  ev_actionKind : string
}.

Record RawEvmLog := { topics : list string; data : string }.

Record Config := {
  chainSelector : string;
  gatewayAddress : string;
  consumerAddress : string;
  policySecretId : string;
  riskApiSecretId : string;
  riskApiUrl : string
}.

(** The answer of the feed: the request failed, there is no response, or its status and decoded body. *)
Inductive Reply := RequestFailed | NoResponse | Response (statusCode : option Z) (body : option string).

(** [secrets]: the vault, by secret id; [feed]: the risk feed, by URL and authorization header; [clock]:
    [Date.now()]; [accepted]: does the report go through. *)
Record World := {
  secrets : string -> option string;
  feed : string -> string -> Reply;
  clock : Z;
  accepted : string -> bool
}.

(** viem's and the SDK's codecs. [None]: the decoder throws. *)
Class Codec := {
  toHex : string -> string;
  bytesToHex : string -> string;
  hexToBase64 : string -> string;
  decodeEventLog : list string -> string -> option CapabilityRequested;
  decodeFunctionData : string -> option (string * (string * Z))
}.

(** ** Interactions and errors *)

Inductive Effect :=
| GetSecret (id : string)
| SendRequest (url authorization : string)
| SubmitReport (payload : string).

Inductive HandlerError :=
| SecretUnavailable | Conversion (e : ConvError) | NotDecoded | UnsupportedSelector | FeedFailed | NotEncoded | ReportFailed.

(** A run so far: the interactions and the value, or the error that ended it. *)
Definition M (A : Type) : Type := (list Effect * result HandlerError A)%type.
Definition ret {A : Type} (a : A) : M A := ([], Ok a).
Definition fail {A : Type} (e : HandlerError) : M A := ([], Err e).
Definition emit (e : Effect) : M unit := ([e], Ok tt).
Definition bind {A B : Type} (m : M A) (k : A -> M B) : M B :=
  match m.2 with
  | Ok a => let r := k a in (m.1 ++ r.1, r.2)
  | Err e => (m.1, Err e)
  end.
Notation "'let!' x ':=' m 'in' k" := (bind m (fun x => k)) (at level 10, x name, m at level 100, k at level 200) : ctx_scope.

Definition conv {A : Type} (r : result ConvError A) : M A :=
  match r with Ok a => ret a | Err e => fail (Conversion e) end.
Definition orFail {A : Type} (e : HandlerError) (o : option A) : M A := match o with Some a => ret a | None => fail e end.

(** ** The private policy *)

(** The policy as parsed: the converted fields, and the three lists as whatever values they came. *)
Record ParsedPolicy := {
  scalars : PrivatePolicy;
  kindsValue : parsed;
  targetsValue : parsed;
  agentsValue : parsed
}.

(** The record with given lists. *)
Definition withLists (kinds targets agents : list string) (p : PrivatePolicy) : PrivatePolicy :=
  {| policyId := policyId p; policyVersion := policyVersion p; enabled := enabled p; autoLimit := autoLimit p;
     escalationLimit := escalationLimit p; maxSlippageBps := maxSlippageBps p; maxVolatilityBps := maxVolatilityBps p;
     minLiquidity := minLiquidity p; targetEthAllocationBps := targetEthAllocationBps p;
     rebalanceDriftBps := rebalanceDriftBps p; minHealthFactorBps := minHealthFactorBps p;
     targetHealthFactorBps := targetHealthFactorBps p; proprietaryRiskThreshold := proprietaryRiskThreshold p;
     canary := canary p; allowedActionKinds := kinds; allowedTargets := targets; authorizedAgentIdentityHashes := agents |}.

Definition parsePrivatePolicy (raw : string) : result ConvError ParsedPolicy :=
  let* p := parse raw in
  let* v1 := prop "policyId" p in let* id := toText v1 in
  let* v2 := prop "policyVersion" p in let* version := toNum v2 in
  let* v3 := prop "enabled" p in
  let* v4 := prop "autoLimit" p in let* auto := toBig v4 in
  let* v5 := prop "escalationLimit" p in let* escalation := toBig v5 in
  let* v6 := prop "maxSlippageBps" p in let* slippage := toNum v6 in
  let* v7 := prop "maxVolatilityBps" p in let* volatility := toNum v7 in
  let* v8 := prop "minLiquidity" p in let* liquidity := toBig v8 in
  let* v9 := prop "targetEthAllocationBps" p in let* allocation := toNum v9 in
  let* v10 := prop "rebalanceDriftBps" p in let* drift := toNum v10 in
  let* v11 := prop "minHealthFactorBps" p in let* minHealth := toNum v11 in
  let* v12 := prop "targetHealthFactorBps" p in let* targetHealth := toNum v12 in
  let* v13 := prop "proprietaryRiskThreshold" p in let* threshold := toNum v13 in
  let* v14 := prop "canary" p in let* can := toText v14 in
  let* kinds := prop "allowedActionKinds" p in
  let* targets := prop "allowedTargets" p in
  let* agents := prop "authorizedAgentIdentityHashes" p in
  Ok {| scalars := {| policyId := id; policyVersion := version; enabled := toBool v3; autoLimit := auto;
                      escalationLimit := escalation; maxSlippageBps := slippage; maxVolatilityBps := volatility;
                      minLiquidity := liquidity; targetEthAllocationBps := allocation; rebalanceDriftBps := drift;
                      minHealthFactorBps := minHealth; targetHealthFactorBps := targetHealth;
                      proprietaryRiskThreshold := threshold; canary := can; allowedActionKinds := [];
                      allowedTargets := []; authorizedAgentIdentityHashes := [] |};
        kindsValue := kinds; targetsValue := targets; agentsValue := agents |}.

(** ** The decision over unchecked lists *)

Definition asText (v : parsed) : option (list N) := match v with PStr u => Some u | _ => None end.
(** An array of texts. *)
Definition textList (v : parsed) : option (list (list N)) := match v with PArr l => mapM asText l | _ => None end.
Definition stringList (v : parsed) : option (list string) := textList v ≫= mapM narrow.

(** [l.map(low).includes(low(x))]. *)
Definition listedLower (v : parsed) (x : string) : result ConvError bool :=
  match textList v with
  | None => Err TypeError
  | Some l => match mapM narrow l with
              | Some l' => Ok (includes (map to_lower l') (to_lower x))
              | None => Err OutsideModel
              end
  end.

(** The text [v] is a part of [u]. *)
Fixpoint startsWith (v u : list N) : bool :=
  match v, u with
  | [], _ => true
  | a :: v', b :: u' => (a =? b)%N && startsWith v' u'
  | _ :: _, [] => false
  end.
Fixpoint contains (v u : list N) : bool :=
  startsWith v u || match u with [] => false | _ :: u' => contains v u' end.

(** [l.includes(x)]: of an array, or of a text, which contains its parts. *)
Definition listed (v : parsed) (x : string) : result ConvError bool :=
  match v with
  | PArr l => Ok (some (fun y => match y with PStr u => bool_decide (u = units x) | _ => false end) l)
  | PStr u => Ok (contains (units x) u)
  | _ => Err TypeError
  end.

(** [evaluatePolicy] on a parsed policy: its three list tests, in order, after the guards that come before
    them; with the lists read as the tests answered, the rest is the function of [Policy]. *)
Definition evaluateParsed (req : EvaluationRequest) (p : ParsedPolicy) (ctx : MarketContext) (nowUnix : jsnum)
    : result ConvError PolicyDecision :=
  if negb (enabled (scalars p)) || malformed ctx || stale ctx nowUnix
  then Ok (evaluatePolicy req (scalars p) ctx nowUnix)
  else
    let* agentOk := listedLower (agentsValue p) (agentIdentityHash req) in
    if negb agentOk then Ok (decide_as DENY DENY_AGENT_NOT_AUTHORIZED HIGH 0)
    else
      let* kindOk := listed (kindsValue p) (actionKind req) in
      if negb kindOk then Ok (decide_as DENY DENY_ACTION_NOT_ALLOWED HIGH 0)
      else
        let* targetOk := listedLower (targetsValue p) (target req) in
        if negb targetOk then Ok (decide_as DENY DENY_TARGET_NOT_ALLOWED HIGH 0)
        else Ok (evaluatePolicy req (withLists [actionKind req] [target req] [agentIdentityHash req] (scalars p)) ctx nowUnix).

(** The policy the decision function is typed for. *)
Definition typed (p : ParsedPolicy) : option PrivatePolicy :=
  kinds ← stringList (kindsValue p); targets ← stringList (targetsValue p); agents ← stringList (agentsValue p);
  Some (withLists kinds targets agents (scalars p)).

(** ** The handler *)

Section Workflow.
Context {abi : AbiCodec} {codec : Codec}.

(** [slice(0, 10)]; viem's decoder knows the one function of [TARGET_ABI]. *)
Definition decodeAction (callData : string) : result HandlerError (string * string * Z) :=
  match decodeFunctionData callData with
  | None => Err NotDecoded
  | Some (functionName, (recipient, amount)) =>
      throw UnsupportedSelector when negb (streq functionName "transferTo") ;;
      Ok (String.substring 0 10 callData, recipient, amount)
  end.

Definition decodeCapabilityRequested (log : RawEvmLog) : option CapabilityRequested :=
  decodeEventLog (map bytesToHex (topics log)) (bytesToHex (data log)).

Definition boolText (b : bool) : string := if b then "true" else "false".

Definition commitContext (ctx : MarketContext) : result ConvError string :=
  let* a := numText (observedAtUnix ctx) in
  let* b := numText (slippageBps ctx) in
  let* c := numText (volatilityBps ctx) in
  let* e := numText (healthFactorBps ctx) in
  Ok (keccak256 (toHex ("ctx:" +:+ a +:+ ":" +:+ b +:+ ":" +:+ c +:+ ":" +:+ pretty (liquidity ctx) +:+ ":" +:+ e))).

(** The texts the commitment joins, after the policy's name. *)
Definition committedFields (p : PrivatePolicy) : result ConvError (list string) :=
  mapR id
    [numText (policyVersion p); Ok (boolText (enabled p)); Ok (pretty (autoLimit p)); Ok (pretty (escalationLimit p));
     numText (maxSlippageBps p); numText (maxVolatilityBps p); Ok (pretty (minLiquidity p));
     numText (targetEthAllocationBps p); numText (rebalanceDriftBps p); numText (minHealthFactorBps p);
     numText (targetHealthFactorBps p); numText (proprietaryRiskThreshold p)].

Definition policyCommitment (p : PrivatePolicy) : result ConvError string :=
  let* l := committedFields p in Ok (keccak256 (toHex (String.concat "|" (policyId p :: l)))).

Definition invalidContext : MarketContext :=
  {| observedAtUnix := jint 0; slippageBps := jint (-1); volatilityBps := jint (-1); liquidity := -1;
     healthFactorBps := jint (-1) |}.

(** [j.liquidity ?? '0']. *)
Definition orZero (v : parsed) : parsed := match v with PUndef | PNull => PStr (units "0") | _ => v end.

(** The body of the [try]. *)
Definition parseContext (raw : string) : result ConvError MarketContext :=
  let* j := parse raw in
  let* v1 := prop "observedAtUnix" j in let* observed := toNum v1 in
  let* v2 := prop "slippageBps" j in let* slippage := toNum v2 in
  let* v3 := prop "volatilityBps" j in let* volatility := toNum v3 in
  let* v4 := prop "liquidity" j in let* liq := toBig (orZero v4) in
  let* v5 := prop "healthFactorBps" j in let* health := toNum v5 in
  Ok {| observedAtUnix := observed; slippageBps := slippage; volatilityBps := volatility; liquidity := liq;
        healthFactorBps := health |}.

(** What the handler makes of an answer of the feed. *)
Definition contextOf (r : Reply) : result HandlerError MarketContext :=
  match r with
  | RequestFailed => Err FeedFailed
  | NoResponse => Ok invalidContext
  | Response status body =>
      if negb (bool_decide (status = Some 200)) then Ok invalidContext
      else match parseContext (default "{}" body) with
           | Ok ctx => Ok ctx
           | Err OutsideModel => Err (Conversion OutsideModel)
           | Err _ => Ok invalidContext
           end
  end.

Definition fetchContext (w : World) (url token : string) : M MarketContext :=
  let auth := "Bearer " +:+ token in
  let! _ := emit (SendRequest url auth) in ([], contextOf (feed w url auth)).

Definition getSecret (w : World) (id : string) : M string :=
  let! _ := emit (GetSecret id) in orFail SecretUnavailable (secrets w id).

Definition requestOf (ev : CapabilityRequested) (a : string * string * Z) : EvaluationRequest :=
  {| requestHash := ev_requestHash ev; agentIdentityHash := ev_agentIdentityHash ev; ensNode := ev_ensNode ev;
     agent := ev_agent ev; chainId := jint 11155111; target := ev_target ev; value := ev_value ev;
     calldataHash := keccak256 (ev_callData ev); selector := a.1.1; decodedRecipient := a.1.2; decodedAmount := a.2;
     intentHash := ev_intentHash ev; req_policyId := ev_policyId ev; req_policyVersion := jnum (ev_policyVersion ev);
     actionKind := ev_actionKind ev |}.

Definition verdictText (v : Verdict) : string := match v with ALLOW => "ALLOW" | ESCALATE => "ESCALATE" | DENY => "DENY" end.
Definition reasonText (r : ReasonCode) : string :=
  match r with
  | ALLOW_POLICY_MATCH => "ALLOW_POLICY_MATCH" | DENY_AGENT_NOT_AUTHORIZED => "DENY_AGENT_NOT_AUTHORIZED"
  | DENY_TARGET_NOT_ALLOWED => "DENY_TARGET_NOT_ALLOWED" | DENY_ACTION_NOT_ALLOWED => "DENY_ACTION_NOT_ALLOWED"
  | DENY_AMOUNT_TOO_HIGH => "DENY_AMOUNT_TOO_HIGH" | DENY_CONTEXT_STALE => "DENY_CONTEXT_STALE"
  | DENY_SLIPPAGE => "DENY_SLIPPAGE" | DENY_VOLATILITY => "DENY_VOLATILITY" | DENY_LIQUIDITY => "DENY_LIQUIDITY"
  | DENY_POLICY_DISABLED => "DENY_POLICY_DISABLED" | DENY_MALFORMED_CONTEXT => "DENY_MALFORMED_CONTEXT"
  | ESCALATE_AMOUNT => "ESCALATE_AMOUNT" | ESCALATE_RISK => "ESCALATE_RISK" | ESCALATE_POLICY_RULE => "ESCALATE_POLICY_RULE"
  end.
Definition bandText (b : RiskBand) : string := match b with LOW => "LOW" | MEDIUM => "MEDIUM" | HIGH => "HIGH" end.

Definition REPORT_TYPES : list AbiType := [TBytes32; TBytes32; TBytes32; TUint8; TBytes32; TUint64; TUint64].

(** The values of the report; a time to live of zero is replaced. *)
Definition reportValues (hash policyC ctxC : string) (d : PolicyDecision) (nowUnix : Z) : list AbiValue :=
  [AHex hash; AHex policyC; AHex ctxC; AInt (verdictToUint (verdict d)); AHex (keccak256 (toHex (reasonText (reasonCode d))));
   AInt nowUnix; AInt (nowUnix + (if ttlSeconds d =? 0 then DEFAULT_TTL_SECONDS else ttlSeconds d))].

Definition summary (d : PolicyDecision) : string :=
  verdictText (verdict d) +:+ ":" +:+ reasonText (reasonCode d) +:+ ":" +:+ bandText (riskBand d).

(** The last step, on the nodes of the DON. *)
Definition submit (w : World) (payload : string) : M unit :=
  let! _ := emit (SubmitReport payload) in if accepted w payload then ret tt else fail ReportFailed.

Definition onCapabilityRequested (w : World) (config : Config) (log : RawEvmLog) : M string :=
  let! policyRaw := getSecret w (policySecretId config) in
  let! policy := conv (parsePrivatePolicy policyRaw) in
  let! ev := orFail NotDecoded (decodeCapabilityRequested log) in
  let! decoded := ([], decodeAction (ev_callData ev)) in
  let req := requestOf ev decoded in
  let! riskToken := getSecret w (riskApiSecretId config) in
  let! ctx := fetchContext w (riskApiUrl config) riskToken in
  let nowUnix := clock w / 1000 in
  let! decision := conv (evaluateParsed req policy ctx (jint nowUnix)) in
  let! contextCommitment := conv (commitContext ctx) in
  let! policyC := conv (policyCommitment (scalars policy)) in
  let! encoded := ([], match encodeAbiParameters REPORT_TYPES
                         (reportValues (requestHash req) policyC contextCommitment decision nowUnix) with
                       | Ok b => Ok b
                       | Err _ => Err NotEncoded
                       end) in
  let! _ := submit w (hexToBase64 encoded) in
  ret (summary decision).

(** ** Registration *)

(** The event's signature, hashed to the topic the trigger filters on. *)
Definition CAPABILITY_REQUESTED_TOPIC0 : string :=
  keccak256 (toHex "CapabilityRequested(bytes32,bytes32,address,bytes32,address,uint256,bytes,bytes32,bytes32,uint64,bytes32)").

Record Registration := {
  selector_ : Z;
  addresses : list string;
  triggerTopics : list (list string);
  tee : string;
  regions : list string;
  callback : World -> RawEvmLog -> M string
}.

Definition initWorkflow (config : Config) : result ConvError Registration :=
  let* chain := bigIntText (units (chainSelector config)) in
  Ok {| selector_ := chain; addresses := [gatewayAddress config]; triggerTopics := [[CAPABILITY_REQUESTED_TOPIC0]];
        tee := "nitro"; regions := ["us-west-2"]; callback := fun w log => onCapabilityRequested w config log |}.

(** ** What a run that reports did *)

(** The request was decoded and ruled on: policy, event, action, context, decision and encoded report. *)
Record Evaluated (w : World) (config : Config) (log : RawEvmLog) (p : ParsedPolicy) (ev : CapabilityRequested)
    (a : string * string * Z) (ctx : MarketContext) (d : PolicyDecision) (b : string) : Prop := {
  evl_policy : exists raw, secrets w (policySecretId config) = Some raw /\ parsePrivatePolicy raw = Ok p;
  evl_event : decodeCapabilityRequested log = Some ev;
  evl_action : decodeAction (ev_callData ev) = Ok a;
  evl_context : exists token, secrets w (riskApiSecretId config) = Some token /\
    contextOf (feed w (riskApiUrl config) ("Bearer " +:+ token)) = Ok ctx;
  evl_decision : evaluateParsed (requestOf ev a) p ctx (jint (clock w / 1000)) = Ok d;
  evl_report : exists pc cc, policyCommitment (scalars p) = Ok pc /\ commitContext ctx = Ok cc /\
    encodeAbiParameters REPORT_TYPES (reportValues (ev_requestHash ev) pc cc d (clock w / 1000)) = Ok b
}.

(** Everything the run exchanges. *)
Definition exchanged (config : Config) (token payload : string) : list Effect :=
  [GetSecret (policySecretId config); GetSecret (riskApiSecretId config);
   SendRequest (riskApiUrl config) ("Bearer " +:+ token); SubmitReport payload].

Lemma bind_reports {A B : Type} (m : M A) (k : A -> M B) x : SubmitReport x ∈ (bind m k).1 ->
  SubmitReport x ∉ m.1 -> exists a, m.2 = Ok a /\ SubmitReport x ∈ (k a).1.
Proof.
  unfold bind. destruct m as [t [a|e]]; simpl; [|done]. rewrite elem_of_app. intros [H|H] Hn; [done|]. by exists a.
Qed.

Lemma conv_ok {A : Type} (r : result ConvError A) a : (conv r).2 = Ok a <-> r = Ok a.
Proof. destruct r; simpl; naive_solver. Qed.
Lemma orFail_ok {A : Type} e (o : option A) a : (orFail e o).2 = Ok a <-> o = Some a.
Proof. destruct o; simpl; naive_solver. Qed.
Lemma conv_silent {A : Type} (r : result ConvError A) : (conv r).1 = [].
Proof. by destruct r. Qed.
Lemma orFail_silent {A : Type} e (o : option A) : (orFail e o).1 = [].
Proof. by destruct o. Qed.

Lemma getSecret_ok w k s : (getSecret w k).2 = Ok s <-> secrets w k = Some s.
Proof. unfold getSecret, bind, emit. simpl. by destruct (secrets w k); simpl; naive_solver. Qed.
Lemma getSecret_trace w k : (getSecret w k).1 = [GetSecret k].
Proof. unfold getSecret, bind, emit. simpl. by destruct (secrets w k). Qed.

Lemma fetchContext_ok w url token ctx : (fetchContext w url token).2 = Ok ctx <-> contextOf (feed w url ("Bearer " +:+ token)) = Ok ctx.
Proof. unfold fetchContext, bind, emit. simpl. done. Qed.

Ltac quiet := simpl; rewrite ?getSecret_trace, ?conv_silent, ?orFail_silent; unfold fetchContext, emit; simpl; set_solver.
(** Take the next step of a run that reports. *)
Local Tactic Notation "step" ident(H) ident(a) ident(E) := apply bind_reports in H as (a & E & H); [|quiet].

Lemma decodeAction_ok cd a : decodeAction cd = Ok a -> exists recipient amount,
  decodeFunctionData cd = Some ("transferTo", (recipient, amount)) /\ a = (String.substring 0 10 cd, recipient, amount).
Proof.
  unfold decodeAction. destruct (decodeFunctionData cd) as [[f [r n]]|]; [|done]. intros [H [= <-]]%throw_ok.
  apply negb_false_iff, streq_true in H as ->. by exists r, n.
Qed.

(** A report is only sent by a run that ruled on the request. *)
Lemma run_reports w config log x : SubmitReport x ∈ (onCapabilityRequested w config log).1 ->
  exists p ev a ctx d b, Evaluated w config log p ev a ctx d b /\ x = hexToBase64 b.
Proof.
  unfold onCapabilityRequested. intros H.
  step H raw E1. step H p E2. step H ev E3. step H a E4. step H token E6. step H ctx E7.
  step H d E8. step H cc E9. step H pc E10.
  apply bind_reports in H as (b & E11 & H); [|simpl; destruct (encodeAbiParameters _ _); set_solver].
  apply getSecret_ok in E1, E6. apply conv_ok in E2, E8, E9, E10. apply orFail_ok in E3. apply fetchContext_ok in E7.
  cbn [snd] in E4, E11.
  exists p, ev, a, ctx, d, b. split.
  - split; eauto. exists pc, cc. split_and!; [done|done|]. unfold requestOf in E11. cbn [requestHash] in E11.
    destruct (encodeAbiParameters _ _); [congruence|done].
  - unfold submit, bind, emit, ret, fail in H. simpl in H.
    destruct (accepted w (hexToBase64 b)); simpl in H; rewrite ?app_nil_r in H; set_solver.
Qed.

Lemma bind_eq {A B : Type} (m : M A) (k : A -> M B) t a : m = (t, Ok a) -> bind m k = (t ++ (k a).1, (k a).2).
Proof. by intros ->. Qed.

(** A run that ruled on the request exchanges exactly this and answers with the decision. *)
Lemma run_evaluated w config log p ev a ctx d b token : Evaluated w config log p ev a ctx d b ->
  secrets w (riskApiSecretId config) = Some token ->
  onCapabilityRequested w config log =
    (exchanged config token (hexToBase64 b),
     if accepted w (hexToBase64 b) then Ok (summary d) else Err ReportFailed).
Proof.
  intros [(raw & H1 & H2) H3 H4 (tk & H6 & H7) H8 (pc & cc & H9 & H10 & H11)] Ht.
  rewrite Ht in H6. injection H6 as <-.
  unfold onCapabilityRequested, getSecret, fetchContext, submit. rewrite H1, H3. cbn.
  rewrite H2. cbn. rewrite H4. cbn. rewrite Ht. cbn. rewrite H7. cbn. rewrite H8. cbn.
  rewrite H10. cbn. rewrite H9. cbn. rewrite H11. cbn. unfold exchanged.
  by destruct (accepted w (hexToBase64 b)).
Qed.

(** ** The decision of a typed policy *)

Lemma stringList_listedLower v l x : stringList v = Some l -> listedLower v x = Ok (includes (map to_lower l) (to_lower x)).
Proof. unfold stringList, listedLower. destruct (textList v) as [us|]; [|done]. cbn [mbind option_bind]. by intros ->. Qed.

Lemma stringList_listed v l x : stringList v = Some l -> listed v x = Ok (includes l x).
Proof.
  unfold stringList. destruct v as [| | | | |vs|]; try done. cbn [textList]. intros (us & H%mapM_Some & H'%mapM_Some)%bind_Some.
  cbn [listed]. f_equal. apply eq_true_iff_eq. rewrite some_true, includes_true. split.
  - intros (y & Hy & E). destruct y; try done. apply bool_decide_eq_true in E as ->.
    apply list_elem_of_lookup in Hy as [i Hi]. destruct (Forall2_lookup_l _ _ _ _ _ H Hi) as (u & Hu & [= <-]).
    destruct (Forall2_lookup_l _ _ _ _ _ H' Hu) as (s & Hs & E). rewrite narrow_units in E. injection E as <-.
    by eapply list_elem_of_lookup_2.
  - intros Hx. apply list_elem_of_lookup in Hx as [i Hi]. destruct (Forall2_lookup_r _ _ _ _ _ H' Hi) as (u & Hu & E).
    destruct (Forall2_lookup_r _ _ _ _ _ H Hu) as (y & Hy & E').
    exists y. split; [by eapply list_elem_of_lookup_2|]. destruct y; try done. injection E' as ->.
    apply bool_decide_eq_true. by apply narrow_Some.
Qed.

Lemma includes_self {A : Type} `{EqDecision A} (x : A) : includes [x] x = true.
Proof. apply includes_true. left. Qed.

(** The list guards of [evaluatePolicy] see the lists only through their tests. *)
Lemma evaluatePolicy_lists req P ctx n : enabled P = true -> malformed ctx = false -> stale ctx n = false ->
  evaluatePolicy req P ctx n =
    if negb (includes (map to_lower (authorizedAgentIdentityHashes P)) (to_lower (agentIdentityHash req)))
    then decide_as DENY DENY_AGENT_NOT_AUTHORIZED HIGH 0
    else if negb (includes (allowedActionKinds P) (actionKind req)) then decide_as DENY DENY_ACTION_NOT_ALLOWED HIGH 0
    else if negb (includes (map to_lower (allowedTargets P)) (to_lower (target req)))
    then decide_as DENY DENY_TARGET_NOT_ALLOWED HIGH 0
    else evaluatePolicy req (withLists [actionKind req] [target req] [agentIdentityHash req] P) ctx n.
Proof.
  intros He Hm Hs. unfold evaluatePolicy. cbn [enabled withLists authorizedAgentIdentityHashes allowedActionKinds allowedTargets map].
  rewrite He, Hm, Hs, !includes_self. cbn [negb].
  destruct (includes (map _ (authorizedAgentIdentityHashes P)) _); [|done]. cbn [negb].
  destruct (includes (allowedActionKinds P) _); [|done]. cbn [negb].
  by destruct (includes (map _ (allowedTargets P)) _).
Qed.

(** With lists of texts, the decision is the decision function's. *)
Lemma evaluate_typed req p P ctx n : typed p = Some P -> evaluateParsed req p ctx n = Ok (evaluatePolicy req P ctx n).
Proof.
  unfold typed. destruct (stringList (kindsValue p)) as [kinds|] eqn:Hk; [|done]. simpl.
  destruct (stringList (targetsValue p)) as [targets|] eqn:Ht; [|done]. simpl.
  destruct (stringList (agentsValue p)) as [agents|] eqn:Ha; [|done]. simpl. intros [= <-].
  unfold evaluateParsed. destruct (negb (enabled (scalars p)) || malformed ctx || stale ctx n) eqn:E.
  - f_equal. unfold evaluatePolicy. cbn [enabled withLists]. bool_prop.
    destruct (enabled (scalars p)), (malformed ctx), (stale ctx n); simpl; try done. naive_solver.
  - apply orb_false_iff in E as [[E1 E2]%orb_false_iff E3]. apply negb_false_iff in E1.
    rewrite (evaluatePolicy_lists req (withLists kinds targets agents (scalars p))) by done.
    rewrite (stringList_listedLower _ _ _ Ha), (stringList_listed _ _ _ Hk), (stringList_listedLower _ _ _ Ht). cbn [rbind].
    cbn [authorizedAgentIdentityHashes allowedActionKinds allowedTargets withLists].
    destruct (includes (map _ agents) _); [|done]. cbn [negb].
    destruct (includes kinds _); [|done]. cbn [negb].
    by destruct (includes (map _ targets) _).
Qed.

(** What an ALLOW rests on, whatever the lists are. *)
Definition authorized (p : ParsedPolicy) (req : EvaluationRequest) (ctx : MarketContext) (n : jsnum) : Prop :=
  enabled (scalars p) = true /\ malformed ctx = false /\ stale ctx n = false /\
  listedLower (agentsValue p) (agentIdentityHash req) = Ok true /\ listed (kindsValue p) (actionKind req) = Ok true /\
  listedLower (targetsValue p) (target req) = Ok true /\ req_policyId req = policyId (scalars p) /\
  jeqb (req_policyVersion req) (policyVersion (scalars p)) = true /\
  withinHardLimits req (scalars p) ctx.

Lemma decision_authorized req p ctx n d : evaluateParsed req p ctx n = Ok d -> verdict d <> DENY ->
  authorized p req ctx n /\
  verdict d = if decide (withinAutonomousLimits req (scalars p) ctx) then ALLOW else ESCALATE.
Proof.
  unfold evaluateParsed. destruct (negb (enabled (scalars p)) || malformed ctx || stale ctx n) eqn:E.
  - intros [= <-]. unfold evaluatePolicy.
    destruct (enabled (scalars p)), (malformed ctx), (stale ctx n); simpl in *; try done.
  - apply orb_false_iff in E as [[E1 E2]%orb_false_iff E3]. apply negb_false_iff in E1.
    intros ([] & Ha & H)%rbind_ok; cbn [negb] in H; [|by injection H as <-].
    apply rbind_ok in H as ([] & Hk & H); cbn [negb] in H; [|by injection H as <-].
    apply rbind_ok in H as ([] & Ht & H); cbn [negb] in H; [|by injection H as <-].
    injection H as <-. intros Hd. apply not_deny_tiers in Hd as [Hs Hh]. pose proof Hs as (_ & _ & _ & _ & _ & _ & Hp & Hv).
    split; [unfold authorized; split_and!; done|].
    by rewrite evaluatePolicy_autonomous_tail by done.
Qed.

(** ** What the policy and the context are read from *)

(** Each name's value, converted. *)
Definition converted {A : Type} (f : parsed -> result ConvError A) (j : parsed) : list string -> list A -> Prop :=
  Forall2 (fun k a => exists v, prop k j = Ok v /\ f v = Ok a).

(** The policy has, under each name, what the document has under it. *)
Record policyFrom (raw : string) (p : ParsedPolicy) (j : parsed) : Prop := {
  pf_document : parse raw = Ok j;
  pf_texts : converted toText j ["policyId"; "canary"] [policyId (scalars p); canary (scalars p)];
  pf_enabled : converted (fun v => Ok (toBool v)) j ["enabled"] [enabled (scalars p)];
  pf_amounts : converted toBig j ["autoLimit"; "escalationLimit"; "minLiquidity"]
    [autoLimit (scalars p); escalationLimit (scalars p); minLiquidity (scalars p)];
  pf_numbers : converted toNum j
    ["policyVersion"; "maxSlippageBps"; "maxVolatilityBps"; "targetEthAllocationBps"; "rebalanceDriftBps"; "minHealthFactorBps";
     "targetHealthFactorBps"; "proprietaryRiskThreshold"]
    [policyVersion (scalars p); maxSlippageBps (scalars p); maxVolatilityBps (scalars p); targetEthAllocationBps (scalars p);
     rebalanceDriftBps (scalars p); minHealthFactorBps (scalars p); targetHealthFactorBps (scalars p);
     proprietaryRiskThreshold (scalars p)];
  pf_lists : converted Ok j ["allowedActionKinds"; "allowedTargets"; "authorizedAgentIdentityHashes"]
    [kindsValue p; targetsValue p; agentsValue p]
}.

Lemma parsed_policy raw p : parsePrivatePolicy raw = Ok p -> exists j, policyFrom raw p j.
Proof.
  unfold parsePrivatePolicy. intros (j & Hj & H)%rbind_ok. exists j.
  do 30 (apply rbind_ok in H as (? & ? & H)). injection H as <-.
  split; [done|..]; repeat (constructor; [eexists; split; [eassumption|done || eassumption]|]); constructor.
Qed.

(** The four numbers of a context the feed gave. *)
Definition marketNames : list string := ["observedAtUnix"; "slippageBps"; "volatilityBps"; "healthFactorBps"].
Definition marketNumbers (ctx : MarketContext) : list jsnum :=
  [observedAtUnix ctx; slippageBps ctx; volatilityBps ctx; healthFactorBps ctx].

Lemma contextOf_ok r ctx : contextOf r = Ok ctx ->
  ctx = invalidContext \/ exists body, r = Response (Some 200) body /\ parseContext (default "{}" body) = Ok ctx.
Proof.
  destruct r as [| |status body]; simpl; [done|by intros [= <-]; left|]. case_bool_decide; simpl; [|by intros [= <-]; left].
  subst. destruct (parseContext (default "{}" body)) as [c|[]] eqn:E; try done; intros [= <-]; [right|by left|by left]; eauto.
Qed.

Lemma parseContext_ok text ctx : parseContext text = Ok ctx ->
  exists j, parse text = Ok j /\ converted toNum j marketNames (marketNumbers ctx) /\
    converted (fun v => toBig (orZero v)) j ["liquidity"] [liquidity ctx].
Proof.
  unfold parseContext. intros (j & Hj & H)%rbind_ok. exists j. split; [done|].
  do 10 (apply rbind_ok in H as (? & ? & H)). injection H as <-.
  split; repeat (constructor; [eexists; split; eassumption|]); constructor.
Qed.

(** C3: a report leaves the enclave only as the decision over what the enclave decoded itself.  A run that submits a
    report has read the policy from its secret, each field from the document there; decoded the request from the log,
    and the recipient and the amount from its calldata with viem's decoder; and read the context from the answer of the
    feed.  The request it ruled on has that amount as its amount, whatever native value the event names, and the
    event's agent, target, policy, version and action; on it the decision is the decision function's, which for a policy
    whose lists are texts is the three-tier verdict of the specification.  It is ALLOW or ESCALATE only when agent, action,
    target, policy, version, context and hard limits all pass for the amount in the calldata (so that amount is at most
    the escalation limit), and ALLOW exactly when the autonomous limits pass as well.  The report is the encoding of the request's hash, the
    commitments to the policy and to the context, the number of the verdict, the hash of the reason, the time and the time to which it is
    valid; and the run exchanges nothing but the two secrets, one request to the feed and this one report, and answers with
    the decision. *)
Theorem report_rules_on_calldata w config log x : SubmitReport x ∈ (onCapabilityRequested w config log).1 ->
  exists raw p j ev recipient amount token ctx d pc cc b,
    secrets w (policySecretId config) = Some raw /\ parsePrivatePolicy raw = Ok p /\ policyFrom raw p j /\
    decodeCapabilityRequested log = Some ev /\
    decodeFunctionData (ev_callData ev) = Some ("transferTo", (recipient, amount)) /\
    secrets w (riskApiSecretId config) = Some token /\
    contextOf (feed w (riskApiUrl config) ("Bearer " +:+ token)) = Ok ctx /\
    let req := {| requestHash := ev_requestHash ev; agentIdentityHash := ev_agentIdentityHash ev; ensNode := ev_ensNode ev;
                  agent := ev_agent ev; chainId := jint 11155111; target := ev_target ev; value := ev_value ev;
                  calldataHash := keccak256 (ev_callData ev); selector := String.substring 0 10 (ev_callData ev);
                  decodedRecipient := recipient; decodedAmount := amount; intentHash := ev_intentHash ev;
                  req_policyId := ev_policyId ev; req_policyVersion := jnum (ev_policyVersion ev);
                  actionKind := ev_actionKind ev |} in
    let now := clock w / 1000 in
    evaluateParsed req p ctx (jint now) = Ok d /\
    (forall P, typed p = Some P -> verdict d = specVerdict req P ctx (jint now)) /\
    (verdict d <> DENY -> amount <= escalationLimit (scalars p) /\ authorized p req ctx (jint now) /\
       (verdict d = ALLOW <-> withinAutonomousLimits req (scalars p) ctx)) /\
    policyCommitment (scalars p) = Ok pc /\ commitContext ctx = Ok cc /\
    encodeAbiParameters [TBytes32; TBytes32; TBytes32; TUint8; TBytes32; TUint64; TUint64]
      [AHex (ev_requestHash ev); AHex pc; AHex cc; AInt (match verdict d with ALLOW => 1 | ESCALATE => 2 | DENY => 3 end);
       AHex (keccak256 (toHex (reasonText (reasonCode d)))); AInt now;
       AInt (now + (if ttlSeconds d =? 0 then 60 else ttlSeconds d))] = Ok b /\
    x = hexToBase64 b /\
    onCapabilityRequested w config log =
      ([GetSecret (policySecretId config); GetSecret (riskApiSecretId config);
        SendRequest (riskApiUrl config) ("Bearer " +:+ token); SubmitReport x],
       if accepted w x
       then Ok (verdictText (verdict d) +:+ ":" +:+ reasonText (reasonCode d) +:+ ":" +:+ bandText (riskBand d))
       else Err ReportFailed).
Proof.
  intros (p & ev & a & ctx & d & b & He & ->)%run_reports.
  pose proof He as [(raw & Hs & Hraw) Hev Ha (token & Ht & Hctx) Hd (pc & cc & Hpc & Hcc & Hb)].
  destruct (parsed_policy raw p Hraw) as [j Hj]. destruct (decodeAction_ok _ _ Ha) as (recipient & amount & Hdec & ->).
  exists raw, p, j, ev, recipient, amount, token, ctx, d, pc, cc, b. cbv zeta. split_and!; try done.
  - intros P HP. rewrite (evaluate_typed _ _ P) in Hd by done. injection Hd as <-. apply evaluatePolicy_tiers.
  - intros Hn. destruct (decision_authorized _ _ _ _ _ Hd Hn) as [H1 H2]. pose proof H1 as (_ & _ & _ & _ & _ & _ & _ & _ & H3 & _).
    split; [exact H3|]. split; [done|]. rewrite H2. by destruct (decide _).
  - by eapply run_evaluated.
Qed.

(** ** Failing closed *)

Lemma malformed_denies req p ctx n d : evaluateParsed req p ctx n = Ok d -> malformed ctx = true ->
  verdict d = DENY /\ reasonCode d ∈ [DENY_POLICY_DISABLED; DENY_MALFORMED_CONTEXT].
Proof.
  unfold evaluateParsed. intros H Hm. rewrite Hm, orb_true_r in H. simpl in H. injection H as <-.
  unfold evaluatePolicy. destruct (enabled (scalars p)); simpl; [rewrite Hm|]; simpl; (split; [done|]); set_solver.
Qed.

(** The feed gave no context: no answer, another status, no body, a body that is not JSON or that is null, or one in which one of the
    four numbers is missing. *)
Definition noContext (r : Reply) : Prop :=
  match r with
  | RequestFailed => True
  | NoResponse => True
  | Response status body =>
      status <> Some 200 \/ body = None \/
      exists text, body = Some text /\
        match parse text with
        | Err _ | Ok PNull => True
        | Ok j => exists k, k ∈ marketNames /\ prop k j = Ok PUndef
        end
  end.

Lemma NaN_malformed ctx : observedAtUnix ctx = NaN \/ slippageBps ctx = NaN \/ volatilityBps ctx = NaN \/ healthFactorBps ctx = NaN ->
  malformed ctx = true.
Proof. unfold malformed. intros [E|[E|[E|E]]]; rewrite E; simpl; by rewrite ?orb_true_r. Qed.

Lemma noContext_malformed r ctx : noContext r -> contextOf r = Ok ctx -> malformed ctx = true.
Proof.
  intros Hn [->|(body & -> & Hp)]%contextOf_ok; [reflexivity|]. destruct (parseContext_ok _ _ Hp) as (j & Hj & HF & _).
  destruct Hn as [Hn|[->|(text & -> & Hn)]]; [done| |].
  - simpl in Hp. vm_compute in Hp. injection Hp as <-. reflexivity.
  - simpl in Hj. rewrite Hj in Hn.
    assert (exists k, k ∈ marketNames /\ prop k j = Ok PUndef) as (k & Hk & Hu).
    { destruct j; try done. inversion HF as [|? ? ? ? (v & Hv & _)]; subst. done. }
    apply NaN_malformed. apply list_elem_of_lookup in Hk as [i Hi].
    destruct (Forall2_lookup_l _ _ _ _ _ HF Hi) as (n & Hn' & v & Hv & Hnum).
    rewrite Hu in Hv. injection Hv as <-. injection Hnum as <-.
    destruct i as [|[|[|[|]]]]; simpl in Hn'; try done; injection Hn' as <-; auto.
Qed.

(** C37: the workflow fails closed.  When the feed gives no context (it does not answer, or not with status 200; the body is absent, is not a
    JSON text, or is null; or one of the four market numbers is missing in it), no run reports anything but a denial. *)
Theorem no_context_no_approval w config log x token :
  secrets w (riskApiSecretId config) = Some token -> noContext (feed w (riskApiUrl config) ("Bearer " +:+ token)) ->
  SubmitReport x ∈ (onCapabilityRequested w config log).1 ->
  exists p ev a ctx d b, Evaluated w config log p ev a ctx d b /\ x = hexToBase64 b /\
    verdict d = DENY /\ reasonCode d ∈ [DENY_POLICY_DISABLED; DENY_MALFORMED_CONTEXT].
Proof.
  intros Ht Hn (p & ev & a & ctx & d & b & He & ->)%run_reports.
  exists p, ev, a, ctx, d, b. split; [done|]. split; [done|].
  destruct (evl_context _ _ _ _ _ _ _ _ _ He) as (tk & Htk & Hc). rewrite Ht in Htk. injection Htk as <-.
  eapply malformed_denies; [by eapply evl_decision|by eapply noContext_malformed].
Qed.

(** ** What leaves the enclave *)

(** The reports of a run: all that crosses to the nodes, besides the answer. *)
Definition reportsOf (t : list Effect) : list string :=
  omap (fun e => match e with SubmitReport x => Some x | _ => None end) t.

(** Results that agree up to a relation of values. *)
Definition sameResult {E A : Type} (R : A -> A -> Prop) (r r' : result E A) : Prop :=
  match r, r' with Ok a, Ok a' => R a a' | Err e, Err e' => e = e' | _, _ => False end.
(** Runs that cannot be told apart from outside. *)
Definition lowEq {A : Type} (R : A -> A -> Prop) (m m' : M A) : Prop :=
  reportsOf m.1 = reportsOf m'.1 /\ sameResult R m.2 m'.2.

Lemma sameResult_refl {E A : Type} (r : result E A) : sameResult eq r r.
Proof. by destruct r. Qed.

Lemma lowEq_refl {A : Type} (m : M A) : lowEq eq m m.
Proof. split; [done|apply sameResult_refl]. Qed.

Lemma rbind_same {E A B : Type} (R : B -> B -> Prop) (m : result E A) (k k' : A -> result E B) :
  (forall a, sameResult R (k a) (k' a)) -> sameResult R (rbind m k) (rbind m k').
Proof. intros H. by destruct m; simpl. Qed.

Lemma bind_lowEq {A B : Type} (R : A -> A -> Prop) (S : B -> B -> Prop) (m m' : M A) (k k' : A -> M B) :
  lowEq R m m' -> (forall a a', R a a' -> lowEq S (k a) (k' a')) -> lowEq S (bind m k) (bind m' k').
Proof.
  intros [Ht Hr] Hk. unfold bind. destruct (m.2) as [a|e], (m'.2) as [a'|e']; simpl in Hr; try done.
  destruct (Hk a a' Hr) as [Ht' Hr']. split; [|done]. simpl. unfold reportsOf in *. rewrite !omap_app. congruence.
Qed.

Lemma conv_lowEq {A : Type} (R : A -> A -> Prop) (r r' : result ConvError A) : sameResult R r r' -> lowEq R (conv r) (conv r').
Proof. destruct r, r'; simpl; try done. intros ->. by split. Qed.

Definition setCanary (c : string) (p : PrivatePolicy) : PrivatePolicy :=
  {| policyId := policyId p; policyVersion := policyVersion p; enabled := enabled p; autoLimit := autoLimit p;
     escalationLimit := escalationLimit p; maxSlippageBps := maxSlippageBps p; maxVolatilityBps := maxVolatilityBps p;
     minLiquidity := minLiquidity p; targetEthAllocationBps := targetEthAllocationBps p;
     rebalanceDriftBps := rebalanceDriftBps p; minHealthFactorBps := minHealthFactorBps p;
     targetHealthFactorBps := targetHealthFactorBps p; proprietaryRiskThreshold := proprietaryRiskThreshold p;
     canary := c; allowedActionKinds := allowedActionKinds p; allowedTargets := allowedTargets p;
     authorizedAgentIdentityHashes := authorizedAgentIdentityHashes p |}.

Definition butCanary (p p' : ParsedPolicy) : Prop :=
  exists c, scalars p' = setCanary c (scalars p) /\ kindsValue p' = kindsValue p /\ targetsValue p' = targetsValue p /\
    agentsValue p' = agentsValue p.

(** Two policy documents that differ in their canaries, both of them convertible to text. *)
Definition canaryVariants (raw raw' : string) : Prop :=
  exists j j', parse raw = Ok j /\ parse raw' = Ok j' /\
    (forall k, k <> "canary" -> prop k j = prop k j') /\
    is_ok (let* v := prop "canary" j in toText v) = true /\ is_ok (let* v := prop "canary" j' in toText v) = true.

Lemma parse_canary raw raw' : canaryVariants raw raw' ->
  sameResult butCanary (parsePrivatePolicy raw) (parsePrivatePolicy raw').
Proof.
  intros (j & j' & Hj & Hj' & Hk & Hc & Hc'). unfold parsePrivatePolicy. rewrite Hj, Hj'. cbn [rbind].
  rewrite <- (Hk "allowedActionKinds"), <- (Hk "allowedTargets"), <- (Hk "authorizedAgentIdentityHashes") by done.
  do 25 (try rewrite Hk by done; apply rbind_same; intros ?).
  destruct (prop "canary" j) as [v|]; [|done]. destruct (prop "canary" j') as [v'|]; [|done]. cbn [rbind] in *.
  destruct (toText v) as [c|]; [|done]. destruct (toText v') as [c'|]; [|done]. cbn [rbind].
  do 3 (apply rbind_same; intros ?). by exists c'.
Qed.

Lemma evaluate_canary req p p' ctx n : butCanary p p' -> evaluateParsed req p' ctx n = evaluateParsed req p ctx n.
Proof. intros (c & Hs & Hk & Ht & Ha). unfold evaluateParsed. by rewrite Hs, Hk, Ht, Ha. Qed.

Lemma commitment_canary p p' : butCanary p p' -> policyCommitment (scalars p') = policyCommitment (scalars p).
Proof. by intros (c & -> & _). Qed.

(** C5: the enclave's secrets stay in it.  Two runs on one log whose policies differ in nothing but their canary,
    whose feed tokens are any two for which the feed gives the same answer, and whose clocks agree, send the
    same reports and answer with the same text or error: neither the canary nor the token can be read from
    outside. *)
Theorem secrets_confined w w' config log token token' raw raw' :
  secrets w (policySecretId config) = Some raw -> secrets w' (policySecretId config) = Some raw' -> canaryVariants raw raw' ->
  secrets w (riskApiSecretId config) = Some token -> secrets w' (riskApiSecretId config) = Some token' ->
  feed w (riskApiUrl config) ("Bearer " +:+ token) = feed w' (riskApiUrl config) ("Bearer " +:+ token') ->
  clock w = clock w' -> accepted w = accepted w' ->
  lowEq eq (onCapabilityRequested w config log) (onCapabilityRequested w' config log).
Proof.
  intros Hp Hp' Hc Ht Ht' Hf Hn Hacc. unfold onCapabilityRequested, getSecret, fetchContext. rewrite Hp, Hp', Ht, Ht', Hn.
  apply (bind_lowEq (fun r r' => canaryVariants r r')); [by split|intros r r' Hr].
  apply (bind_lowEq butCanary); [by apply conv_lowEq, parse_canary|intros p p' Hpp].
  apply (bind_lowEq eq); [apply lowEq_refl|intros ev ? <-].
  apply (bind_lowEq eq); [apply lowEq_refl|intros a ? <-].
  cbv zeta.
  apply (bind_lowEq (fun s s' => s = token /\ s' = token')); [by split|intros ? ? [-> ->]].
  apply (bind_lowEq eq); [split; [done|]; simpl; rewrite Hf; apply sameResult_refl|intros ctx ? <-].
  rewrite (evaluate_canary _ p p') by done.
  apply (bind_lowEq eq); [apply lowEq_refl|intros d ? <-].
  apply (bind_lowEq eq); [apply lowEq_refl|intros cc ? <-].
  rewrite (commitment_canary p p') by done.
  apply (bind_lowEq eq); [apply lowEq_refl|intros pc ? <-].
  apply (bind_lowEq eq); [apply lowEq_refl|intros b ? <-].
  apply (bind_lowEq eq); [unfold submit; rewrite Hacc; apply lowEq_refl|intros ? ? _]. apply lowEq_refl.
Qed.

(** ** What the verdict does not look at *)

(** Events that agree in what is looked up in the policy. *)
Definition ruledAlike (ev ev' : CapabilityRequested) : Prop :=
  ev_requestHash ev = ev_requestHash ev' /\ ev_agentIdentityHash ev = ev_agentIdentityHash ev' /\
  ev_target ev = ev_target ev' /\ ev_policyId ev = ev_policyId ev' /\ ev_policyVersion ev = ev_policyVersion ev' /\
  ev_actionKind ev = ev_actionKind ev'.

Lemma bind_ext {A B : Type} (m : M A) (k k' : A -> M B) : (forall a, k a = k' a) -> bind m k = bind m k'.
Proof. intros H. unfold bind. destruct (m.2); [by rewrite H|done]. Qed.

Lemma bind_ret {A B : Type} (a a' : A) (k k' : A -> M B) : k a = k' a' -> bind (ret a) k = bind (ret a') k'.
Proof. unfold bind, ret. simpl. by intros ->. Qed.

(** The native value sent along, the recipient in the calldata, the address of the agent, its ENS node and the
    intent are never ruled on: two logs that agree in the rest and in the decoded amount give the same run. *)
Theorem value_is_not_ruled_on w config log log' ev ev' a a' :
  decodeCapabilityRequested log = Some ev -> decodeCapabilityRequested log' = Some ev' -> ruledAlike ev ev' ->
  decodeAction (ev_callData ev) = Ok a -> decodeAction (ev_callData ev') = Ok a' -> a.2 = a'.2 ->
  onCapabilityRequested w config log = onCapabilityRequested w config log'.
Proof.
  intros He He' (H1 & H2 & H3 & H4 & H5 & H6) Ha Ha' Hamt.
  assert (forall p ctx n, evaluateParsed (requestOf ev a) p ctx n = evaluateParsed (requestOf ev' a') p ctx n) as Hev.
  { intros p ctx n. unfold evaluateParsed, evaluatePolicy, requestOf. cbn. by rewrite H2, H3, H4, H5, H6, Hamt. }
  unfold onCapabilityRequested. rewrite He, He'. apply bind_ext; intros raw. apply bind_ext; intros p.
  cbn [orFail]. apply bind_ret. rewrite Ha, Ha'. apply bind_ret. cbv zeta.
  apply bind_ext; intros token. apply bind_ext; intros ctx. rewrite Hev.
  unfold requestOf. cbn [requestHash]. by rewrite H1.
Qed.

(** ** What the commitment binds *)

Definition noBar (s : string) : bool := all_chars (fun c => negb (Ascii.eqb c "|")) s.

Lemma last_bar u u' v v' : noBar v = true -> noBar v' = true ->
  u +:+ String "|" v = u' +:+ String "|" v' -> u = u' /\ v = v'.
Proof.
  intros Hv Hv'. revert u'. induction u as [|c u IH]; intros [|c' u'] E; cbn in E.
  - by injection E.
  - injection E as <- E. subst v. exfalso. clear -Hv. unfold noBar in Hv.
    induction u'; cbn in Hv; [done|]. by apply andb_true_iff in Hv as [_ ?].
  - injection E as -> E. subst v'. exfalso. clear -Hv'. unfold noBar in Hv'.
    induction u; cbn in Hv'; [done|]. by apply andb_true_iff in Hv' as [_ ?].
  - injection E as -> E. destruct (IH u' E) as [-> ->]. done.
Qed.

Lemma concat_snoc s (l : list string) x : String.concat "|" ((s :: l) ++ [x]) = String.concat "|" (s :: l) +:+ String "|" x.
Proof.
  revert s. induction l as [|y l IH]; intros s; [done|].
  change (s +:+ "|" +:+ String.concat "|" ((y :: l) ++ [x]) = (s +:+ "|" +:+ String.concat "|" (y :: l)) +:+ String "|" x).
  rewrite IH. by rewrite !str_app_assoc.
Qed.

(** The name may hold the separator, the fields may not: the joined text determines both. *)
Lemma joined_inj s s' (l l' : list string) : length l = length l' -> every noBar l = true -> every noBar l' = true ->
  String.concat "|" (s :: l) = String.concat "|" (s' :: l') -> s = s' /\ l = l'.
Proof.
  revert l'. induction l as [|x l IH] using rev_ind; intros l' Hn Hl Hl' E.
  - destruct l'; [|done]. by simpl in E.
  - destruct l' as [|x' l' _] using rev_ind; [by rewrite length_app in Hn; simpl in Hn; lia|].
    rewrite !app_comm_cons, !concat_snoc in E.
    unfold every in Hl, Hl'. rewrite forallb_app in Hl, Hl'.
    apply andb_true_iff in Hl as [Hl [Hx _]%andb_true_iff], Hl' as [Hl' [Hx' _]%andb_true_iff].
    apply last_bar in E as [E ->]; [|done..]. rewrite !length_app in Hn. simpl in Hn.
    destruct (IH l' ltac:(lia) Hl Hl' E) as [-> ->]. done.
Qed.

Lemma noBar_pretty (z : Z) : noBar (pretty z) = true.
Proof. apply pretty_numeral. Qed.

Lemma numText_noBar n s : numText n = Ok s -> noBar s = true.
Proof. apply numText_chars. Qed.

Lemma committedFields_noBar p l : committedFields p = Ok l -> every noBar l = true /\ length l = 12%nat.
Proof.
  unfold committedFields. intros H%mapR_ok. split; [|by apply Forall2_length in H].
  apply every_true. intros s Hs. apply list_elem_of_lookup in Hs as [i Hi].
  destruct (Forall2_lookup_r _ _ _ _ _ H Hi) as (r & Hr & E). unfold id in E. subst r.
  do 12 (destruct i as [|i]; [simpl in Hr; injection Hr as Hr; first [by apply numText_noBar in Hr | subst s; first [apply noBar_pretty | by destruct (enabled p)]]|]). done.
Qed.

(** The fields the commitment covers. *)
Definition sameThresholds (p p' : PrivatePolicy) : Prop :=
  policyId p = policyId p' /\ policyVersion p = policyVersion p' /\ enabled p = enabled p' /\ autoLimit p = autoLimit p' /\
  escalationLimit p = escalationLimit p' /\ maxSlippageBps p = maxSlippageBps p' /\ maxVolatilityBps p = maxVolatilityBps p' /\
  minLiquidity p = minLiquidity p' /\ targetEthAllocationBps p = targetEthAllocationBps p' /\
  rebalanceDriftBps p = rebalanceDriftBps p' /\ minHealthFactorBps p = minHealthFactorBps p' /\
  targetHealthFactorBps p = targetHealthFactorBps p' /\ proprietaryRiskThreshold p = proprietaryRiskThreshold p'.

Lemma committedFields_inj p p' l : committedFields p = Ok l -> committedFields p' = Ok l -> policyId p = policyId p' -> sameThresholds p p'.
Proof.
  unfold committedFields. intros H%mapR_ok H'%mapR_ok Hid. unfold id in *.
  repeat match goal with H : Forall2 _ (_ :: _) _ |- _ => inversion H; clear H; subst end.
  repeat match goal with H : Forall2 _ [] _ |- _ => clear H end.
  assert (forall b b', boolText b = boolText b' -> b = b') as Hb by (by intros [] []).
  unfold sameThresholds.
  split_and!; first [done | eapply numText_inj; eassumption | apply (inj pretty); congruence | apply Hb; congruence].
Qed.

(** The commitment to the policy binds what the decision compares.  Two policies with one commitment have the
    same name, version, switch, limits and thresholds, or keccak256 has a collision; and the commitment of a
    policy says nothing of its lists of agents, actions and targets, nor of its canary: with any others it is
    the same. *)
Theorem policyCommitment_binds {Hinj : Inj (=) (=) toHex} p p' c : policyCommitment p = Ok c ->
  (policyCommitment p' = Ok c -> sameThresholds p p' \/ collision) /\
  forall kinds targets agents can, policyCommitment (setCanary can (withLists kinds targets agents p)) = Ok c.
Proof.
  intros Hc. split; [|done]. unfold policyCommitment in *.
  apply rbind_ok in Hc as (l & Hl & [= E]). intros (l' & Hl' & [= E'])%rbind_ok.
  destruct (decide (String.concat "|" (policyId p :: l) = String.concat "|" (policyId p' :: l'))) as [Eq|Hne].
  - left. destruct (committedFields_noBar _ _ Hl) as [Hb Hn], (committedFields_noBar _ _ Hl') as [Hb' Hn'].
    apply joined_inj in Eq as [Hid ->]; [|congruence|done..]. by eapply committedFields_inj.
  - right. exists (toHex (String.concat "|" (policyId p :: l))), (toHex (String.concat "|" (policyId p' :: l'))).
    split; [by intros ?%(inj toHex)|exact (eq_trans E (eq_sym E'))].
Qed.

(** ** The broker's transactions *)

(** viem's decoder undoes its encoder on the one function of the interface. *)
Class DecodesTransfers {evm : Evm} : Prop := decodes_transfer r n cd :
  Broker.encodeFunctionData "transferTo" [AHex r; AInt n] = Ok cd ->
  exists r', decodeFunctionData cd = Some ("transferTo", (r', n)) /\ to_lower r' = to_lower r.

(** What the enclave rules on is what the broker's adapter encoded: the action decoded from a transaction the
    adapter built has the amount and the recipient of its parameters, whatever a summary says; so a run on a
    log that carries it denies the request whenever that amount is above the policy's escalation limit. *)
Theorem broker_amount_is_ruled_on {evm : Evm} {decodes : DecodesTransfers} params actx tx :
  Adapters.mockTransferBuild params actx = Ok tx ->
  exists a, decodeAction (Adapters.tx_calldata tx) = Ok a /\ a.2 = Adapters.bigintOf (Adapters.amount params) /\
    to_lower a.1.2 = to_lower (Adapters.recipient params) /\
    forall w config log p ev a' ctx d b, Evaluated w config log p ev a' ctx d b ->
      ev_callData ev = Adapters.tx_calldata tx ->
      escalationLimit (scalars p) < Adapters.bigintOf (Adapters.amount params) -> verdict d = DENY.
Proof.
  unfold Adapters.mockTransferBuild. intros (cd & Hcd & [= <-])%rbind_ok. cbn [Adapters.tx_calldata].
  destruct (decodes_transfer _ _ _ Hcd) as (r' & Hd & Hr).
  assert (decodeAction cd = Ok (String.substring 0 10 cd, r', Adapters.bigintOf (Adapters.amount params))) as Ha
    by (unfold decodeAction; by rewrite Hd).
  eexists. split; [exact Ha|]. split_and!; [done|done|].
  intros w config log p ev a' ctx d b He Hev Hlim.
  destruct (decide (verdict d = DENY)) as [|Hd']; [done|].
  pose proof (evl_decision _ _ _ _ _ _ _ _ _ He) as Hdec. pose proof (evl_action _ _ _ _ _ _ _ _ _ He) as Hact.
  rewrite Hev, Ha in Hact. injection Hact as <-.
  destruct (decision_authorized _ _ _ _ _ Hdec Hd') as [(_ & _ & _ & _ & _ & _ & _ & _ & Hh & _) _]. simpl in Hh. lia.
Qed.
End Workflow.

End Handler.

(** ** Samples *)

Module Samples.
Import Conv Handler.

(** Codecs of a model: texts stand for their encodings; a call names its recipient and amount. *)
Definition encodeCall (f : string) (l : list AbiValue) : string := stringify (JArr (JStr f :: map abiJson l)).
Definition decodeCall (cd : string) : option (string * (string * Z)) :=
  match JsonParse.syntax cd with
  | Some (JArr [JStr f; JStr r; JNum n]) => Some (f, (r, n))
  | _ => None
  end.

Definition event (cd : string) (v : Z) (action : string) : CapabilityRequested :=
  {| ev_requestHash := "0x01"; ev_agentIdentityHash := "0xCD"; ev_agent := "0xa"; ev_ensNode := "0xe"; ev_target := "0xAB";
     ev_value := v; ev_callData := cd; ev_intentHash := "0x1"; ev_policyId := "treasury"; ev_policyVersion := 3;
     ev_actionKind := action |}.

(** A log whose topics name the action and whose data is the native value and the calldata. *)
Definition textCodec : Codec :=
  {| toHex := fun s => s; bytesToHex := fun s => s; hexToBase64 := fun s => s;
     decodeEventLog := fun ts s => match ts with
                                   | [action; "0"] => Some (event s 0 action)
                                   | [action; _] => Some (event s 1000000 action)
                                   | _ => None
                                   end;
     decodeFunctionData := decodeCall |}.
#[local] Existing Instance textCodec.
#[local] Existing Instance jsonCodec.

(** The encoder, with the bound on numbers that its texts need. *)
Definition callEvm : Evm :=
  {| isAddress := fun s => starts_with "0x" s; getAddress := fun s => s;
     Broker.encodeFunctionData := fun f l => if every (fun v => match v with AInt n => safe n | AHex _ => true end) l
                                      then Ok (encodeCall f l) else Err EncodeRefused;
     hashTypedData := fun _ _ n l => n |}.
#[local] Existing Instance callEvm.

#[local] Instance callEvm_decodes : DecodesTransfers.
Proof.
  intros r n cd. unfold Broker.encodeFunctionData, callEvm. cbn [every forallb]. rewrite andb_true_r.
  destruct (safe n) eqn:E; [|done]. intros [= <-]. exists (to_lower r). split; [|apply to_lower_idemp].
  unfold decodeFunctionData, textCodec, decodeCall, encodeCall. rewrite syntax_stringify; [done|]. simpl. by rewrite E.
Qed.

Definition text (l : list (string * json)) : string := stringify (JObj l).

Definition policyWith (on kinds : json) (can : string) : string :=
  text [("policyId", JStr "treasury"); ("policyVersion", JNum 3); ("enabled", on); ("autoLimit", JStr "1000");
        ("escalationLimit", JStr "5000"); ("maxSlippageBps", JNum 50); ("maxVolatilityBps", JNum 600);
        ("minLiquidity", JStr "100"); ("targetEthAllocationBps", JNum 5000); ("rebalanceDriftBps", JNum 500);
        ("minHealthFactorBps", JNum 13500); ("targetHealthFactorBps", JNum 16000); ("proprietaryRiskThreshold", JNum 120);
        ("canary", JStr can); ("allowedActionKinds", kinds); ("allowedTargets", JArr [JStr "0xab"]);
        ("authorizedAgentIdentityHashes", JArr [JStr "0xcd"])].
Definition policyText (can : string) : string := policyWith (JBool true) (JArr [JStr "MOCK_TRANSFER"]) can.

Definition contextText (slippage volatility health : json) : string :=
  text [("observedAtUnix", JNum 1000); ("slippageBps", slippage); ("volatilityBps", volatility); ("liquidity", JStr "9000");
        ("healthFactorBps", health)].
Definition calm : string := contextText (JNum 12) (JNum 150) (JNum 18000).

Definition world (policy token : string) (r : Reply) : World :=
  {| secrets := fun k => if streq k "policy" then Some policy else if streq k "token" then Some token else None;
     feed := fun _ _ => r; clock := 1010000; accepted := fun _ => true |}.
Definition config : Config :=
  {| chainSelector := "1"; gatewayAddress := "0xg"; consumerAddress := "0xc"; policySecretId := "policy";
     riskApiSecretId := "token"; riskApiUrl := "https://risk" |}.
Definition logOf (native action : string) (amount : Z) : RawEvmLog :=
  {| topics := [action; native]; data := encodeCall "transferTo" [AHex "0xbob"; AInt amount] |}.
Definition answer (policy : string) (r : Reply) (log : RawEvmLog) : result HandlerError string :=
  (onCapabilityRequested (world policy "t" r) config log).2.
Definition ok (body : string) : Reply := Response (Some 200) (Some body).

(** The handler on the verdicts' cases, a status of 500, an empty body and an unknown log. *)
Example runs :
  [answer (policyText "c") (ok calm) (logOf "0" "MOCK_TRANSFER" 500);
   answer (policyText "c") (ok calm) (logOf "0" "MOCK_TRANSFER" 2000);
   answer (policyText "c") (ok calm) (logOf "0" "MOCK_TRANSFER" 9000);
   answer (policyText "c") (ok calm) (logOf "0" "OTHER" 500);
   answer (policyText "c") (Response (Some 500) None) (logOf "0" "MOCK_TRANSFER" 500);
   answer (policyText "c") (ok "") (logOf "0" "MOCK_TRANSFER" 500);
   answer (policyText "c") RequestFailed (logOf "0" "MOCK_TRANSFER" 500);
   answer "{}" (ok calm) (logOf "0" "MOCK_TRANSFER" 500);
   answer (policyText "c") (ok calm) {| topics := []; data := "" |}] =
  [Ok "ALLOW:ALLOW_POLICY_MATCH:LOW"; Ok "ESCALATE:ESCALATE_AMOUNT:MEDIUM"; Ok "DENY:DENY_AMOUNT_TOO_HIGH:HIGH";
   Ok "DENY:DENY_ACTION_NOT_ALLOWED:HIGH"; Ok "DENY:DENY_MALFORMED_CONTEXT:HIGH"; Ok "DENY:DENY_MALFORMED_CONTEXT:HIGH";
   Err FeedFailed; Err (Conversion SyntaxError); Err NotDecoded].
Proof. vm_compute. reflexivity. Qed.

(** A text in which apostrophes stand for quotation marks. *)
Fixpoint apostrophes (s : string) : string :=
  match s with
  | EmptyString => EmptyString
  | String c s' => String (if Ascii.eqb c "'" then dquote else c) (apostrophes s')
  end.

(** Fractions, exponents, and characters above U+00FF beside the numbers, do not keep a context from being read; a body that is no
    JSON text does. *)
Example written_contexts :
  map (fun body => answer (policyText "c") (ok (apostrophes body)) (logOf "0" "MOCK_TRANSFER" 500))
    ["{'observedAtUnix':1000.5,'slippageBps':12.25,'volatilityBps':1.5e2,'liquidity':'9000','healthFactorBps':18000,'note':'\u2014'}";
     "{'observedAtUnix':1000.5,'slippageBps':50.5,'volatilityBps':1.5e2,'liquidity':'9000','healthFactorBps':18000}";
     "{'observedAtUnix':1e400,'slippageBps':12,'volatilityBps':150,'liquidity':'9000','healthFactorBps':18000}";
     "{'observedAtUnix':1000,'slippageBps':12,'volatilityBps':150,'liquidity':90.5,'healthFactorBps':18000}";
     "{'observedAtUnix':1000,}"] =
  [Ok "ALLOW:ALLOW_POLICY_MATCH:LOW"; Ok "DENY:DENY_SLIPPAGE:HIGH"; Ok "DENY:DENY_MALFORMED_CONTEXT:HIGH";
   Ok "DENY:DENY_MALFORMED_CONTEXT:HIGH"; Ok "DENY:DENY_MALFORMED_CONTEXT:HIGH"].
Proof. vm_compute. reflexivity. Qed.

(** A context that is null where its numbers should be is read as zeros, and approved. *)
Example null_context_allows :
  answer (policyText "c") (ok (contextText JNull JNull JNull)) (logOf "0" "MOCK_TRANSFER" 500) =
    Ok "ALLOW:ALLOW_POLICY_MATCH:LOW".
Proof. vm_compute. reflexivity. Qed.

(** A policy whose switch is the text "false" is on, and one whose actions are one text allows its substrings. *)
Example loose_policy_allows :
  answer (policyWith (JStr "false") (JStr "NO_MOCK_TRANSFER_HERE") "c") (ok calm) (logOf "0" "MOCK_TRANSFER" 500) =
    Ok "ALLOW:ALLOW_POLICY_MATCH:LOW".
Proof. vm_compute. reflexivity. Qed.

Definition sampleWorld : World := world (policyText "c") "t" (ok calm).
Definition sampleLog : RawEvmLog := logOf "0" "MOCK_TRANSFER" 500.
Definition sent (w : World) (log : RawEvmLog) : string := nth 0 (reportsOf (onCapabilityRequested w config log).1) "".

Lemma sent_in w log : reportsOf (onCapabilityRequested w config log).1 <> [] ->
  SubmitReport (sent w log) ∈ (onCapabilityRequested w config log).1.
Proof.
  unfold sent. destruct (onCapabilityRequested w config log) as [tr r]. cbn [fst].
  induction tr as [|[k|u a|x] tr IH]; cbn; intros H; [done|right; by apply IH..|left].
Qed.

(** The amount ruled on is the calldata's 500, also when the event names a native value of a million; and the report says ALLOW. *)
Lemma report_rules_on_calldata_witness : let log := logOf "1" "MOCK_TRANSFER" 500 in let out := onCapabilityRequested sampleWorld config log in
  exists x p d, reportsOf out.1 = [x] /\ verdict d = ALLOW /\ out.2 = Ok "ALLOW:ALLOW_POLICY_MATCH:LOW" /\ 500 <= escalationLimit (scalars p) /\
    parsePrivatePolicy (policyText "c") = Ok p.
Proof.
  cbv zeta. set (log := logOf "1" "MOCK_TRANSFER" 500). set (x := sent sampleWorld log).
  destruct (report_rules_on_calldata sampleWorld config log x ltac:(apply sent_in; apply (bool_decide_unpack _); vm_compute; exact I))
    as (raw & p & j & ev & recipient & amount & token & ctx & d & pc & cc & b & Hs & Hp & _ & Hev & Hdec & _ & _ & _ & _ & Hd & _ & _ & _ & _ & Hout).
  vm_compute in Hev. injection Hev as <-. vm_compute in Hdec. injection Hdec as _ <-. injection Hs as <-.
  assert (Hans : (onCapabilityRequested sampleWorld config log).2 = Ok "ALLOW:ALLOW_POLICY_MATCH:LOW") by (vm_compute; reflexivity).
  assert (Hv : verdict d = ALLOW).
  { rewrite Hout in Hans. cbn [snd] in Hans. change (accepted sampleWorld x) with true in Hans. cbv iota in Hans.
    destruct (verdict d); [done|discriminate Hans..]. }
  exists x, p, d. rewrite Hv in Hd. split_and!; [by rewrite Hout|done|done|by apply Hd|exact Hp].
Defined.

Definition failing : World := world (policyText "c") "t" (Response (Some 500) None).

Lemma no_context_no_approval_witness : exists p ev a ctx d b,
  Evaluated failing config sampleLog p ev a ctx d b /\ verdict d = DENY.
Proof.
  destruct (no_context_no_approval failing config sampleLog (sent failing sampleLog) "t" eq_refl)
    as (p & ev & a & ctx & d & b & He & _ & Hd & _).
  - left. discriminate.
  - apply sent_in. apply (bool_decide_unpack _). vm_compute. exact I.
  - by exists p, ev, a, ctx, d, b.
Defined.

Lemma member_but k0 k l l' : k <> k0 -> Forall2 (fun p p' => p.1 = p'.1 /\ (p.1 = k0 \/ p.2 = p'.2)) l l' -> member k l = member k l'.
Proof.
  intros Hk. induction 1 as [|[n v] [n' v'] l l' [E H] _ IH]; [done|]. simpl in *. subst n'. rewrite IH.
  destruct (member k l'); [done|]. case_bool_decide; [|done]. subst n. by destruct H as [->| ->].
Qed.

Lemma secrets_confined_witness :
  lowEq eq (onCapabilityRequested (world (policyText "canary one") "t" (ok calm)) config sampleLog)
    (onCapabilityRequested (world (policyText "canary two") "u" (ok calm)) config sampleLog).
Proof.
  apply (secrets_confined _ _ _ _ "t" "u" (policyText "canary one") (policyText "canary two")); try reflexivity.
  eexists. eexists. split; [vm_compute; reflexivity|]. split; [vm_compute; reflexivity|].
  split; [|split; vm_compute; reflexivity]. intros k Hk. cbn [prop]. do 2 f_equal.
  apply (member_but (units "canary")); [by intros E%(inj units)|].
  repeat (constructor; [split; [reflexivity|first [right; reflexivity|left; reflexivity]]|]). constructor.
Defined.

Lemma value_is_not_ruled_on_witness :
  onCapabilityRequested sampleWorld config sampleLog = onCapabilityRequested sampleWorld config (logOf "1" "MOCK_TRANSFER" 500).
Proof.
  refine (value_is_not_ruled_on sampleWorld config sampleLog (logOf "1" "MOCK_TRANSFER" 500) _ _ _ _ eq_refl eq_refl _ _ _ _).
  - repeat split.
  - vm_compute. reflexivity.
  - vm_compute. reflexivity.
  - reflexivity.
Defined.

Definition commitmentOf (p : PrivatePolicy) : string := match policyCommitment p with Ok c => c | Err _ => "" end.

Lemma policyCommitment_binds_witness : sameThresholds plainPolicy (setCanary "other" plainPolicy) \/ collision.
Proof.
  apply (@policyCommitment_binds jsonCodec textCodec (fun s t E => E) plainPolicy (setCanary "other" plainPolicy) (commitmentOf plainPolicy));
    vm_compute; reflexivity.
Defined.

Definition payBob : Adapters.MockTransferParams := {| Adapters.recipient := "0xb"; Adapters.amount := "500" |}.
Definition onTreasury : Adapters.AdapterContext := {| Adapters.ctx_chainId := 1; Adapters.ctx_target := "0xt" |}.

Lemma broker_amount_is_ruled_on_witness : exists tx a,
  Adapters.mockTransferBuild payBob onTreasury = Ok tx /\ decodeAction (Adapters.tx_calldata tx) = Ok a /\ a.2 = 500.
Proof.
  destruct (Adapters.mockTransferBuild payBob onTreasury) as [tx|e] eqn:E; [|vm_compute in E; discriminate].
  destruct (broker_amount_is_ruled_on payBob onTreasury tx E) as (a & Ha & Hn & _). by exists tx, a.
Defined.

End Samples.
