(* ===== verification/Blueprint.v ===== *)
(** * The agent blueprint

    [packages/studio-blueprint/src]: the document a design is reviewed as ([unknown.ts], Module [Unknown];
    [schema.ts], Module [Schema]), the deterministic checks that decide whether it may be built
    ([validator.ts], Module [Validator]), the security score ([score.ts], Module [Score]) and the picture of
    the architecture ([graph.ts], Module [Graph]).

    A document has the shape of its schema: [schemaOk] is what the schema checks beyond that, and one issue
    stands for its parse errors.  Fields the schema pins to a literal are kept where the code reads them.
    An issue is its code, severity and path, as in [Org.Validator], which shares the lemmas; message and
    remediation texts are not modelled. *)

From S2P Require Import Prelude Regex Json Scanner Policy Network Org Adapters.
From stdpp Require Import pretty sorting.
From Stdlib Require Import Ascii.
Local Open Scope Z_scope.

Module Unknown.

Inductive BuildPhase := BUILD | DEPLOY.
#[export] Instance BuildPhase_eq_dec : EqDecision BuildPhase.
Proof. solve_decision. Defined.
Definition phaseText (p : BuildPhase) : string := match p with BUILD => "BUILD" | DEPLOY => "DEPLOY" end.

(** A value with the words it came from, or an explicit unknown. *)
Inductive Maybe (A : Type) :=
| Known (value : A) (sourceQuote : string)
| UnknownValue (reason : string) (requiredBefore : BuildPhase).
Arguments Known {A}.
Arguments UnknownValue {A}.

Definition isKnown {A : Type} (m : Maybe A) : bool := match m with Known _ _ => true | _ => false end.
Definition known {A : Type} (m : Maybe A) : option A := match m with Known v _ => Some v | _ => None end.

Inductive UnknownError := StillUnknown (field reason : string).
Definition requireKnown {A : Type} (m : Maybe A) (field : string) : result UnknownError A :=
  match m with Known v _ => Ok v | UnknownValue r _ => Err (StillUnknown field r) end.

Definition quoteOk (s : string) : bool := (1 <=? String.length s)%nat && (String.length s <=? 500)%nat.
Definition maybeOk {A : Type} (inner : A -> bool) (m : Maybe A) : bool :=
  match m with Known v q => inner v && quoteOk q | UnknownValue r _ => quoteOk r end.

Definition maybeValue {A : Type} (f : A -> jsv) (m : Maybe A) : jsv :=
  match m with
  | Known v q => VObj [("known", VBool true); ("value", f v); ("sourceQuote", VStr q)]
  | UnknownValue r p => VObj [("known", VBool false); ("reason", VStr r); ("requiredBefore", VStr (phaseText p))]
  end.

(** An object the walk takes for an unknown, with its reason. *)
Definition unknownReason (l : list (string * jsv)) : option string :=
  match getKey "known" l, getKey "reason" l with
  | Some (VBool false), Some (VStr r) => Some r
  | _, _ => None
  end.
Definition blocksBuild (l : list (string * jsv)) : bool :=
  match getKey "requiredBefore" l with Some (VStr p) => streq p "BUILD" | _ => false end.

Record BlockingUnknown := { u_path : string; u_reason : string }.

Fixpoint walk (v : jsv) (p : list string) : list BlockingUnknown :=
  match v with
  | VArr l =>
      concat ((fix go (i : nat) (l : list jsv) : list (list BlockingUnknown) :=
                 match l with [] => [] | x :: l' => walk x (p ++ [pretty i]) :: go (S i) l' end) 0%nat l)
  | VObj l =>
      match unknownReason l with
      | Some r => if blocksBuild l then [{| u_path := String.concat "." p; u_reason := r |}] else []
      | None =>
          concat ((fix go (l : list (string * jsv)) : list (list BlockingUnknown) :=
                     match l with [] => [] | (k, x) :: l' => walk x (p ++ [k]) :: go l' end) l)
      end
  | _ => []
  end.

Definition collectBuildBlockingUnknowns (v : jsv) : list BlockingUnknown := walk v [].

(** [x] is inside [v], at the end of a way that passes no unknown. *)
Inductive inside : jsv -> jsv -> Prop :=
| inside_here v : inside v v
| inside_arr x y l : y ∈ l -> inside x y -> inside x (VArr l)
| inside_obj x k y l : unknownReason l = None -> (k, y) ∈ l -> inside x y -> inside x (VObj l).

(** What blocks a build: an unknown that is required before it. *)
Definition blocking (v : jsv) : Prop := exists l r, v = VObj l /\ unknownReason l = Some r /\ blocksBuild l = true.

Lemma walk_arr l p : walk (VArr l) p = concat (imap (fun i x => walk x (p ++ [pretty i])) l).
Proof.
  simpl. f_equal. assert (forall k, (fix go (i : nat) (l : list jsv) : list (list BlockingUnknown) :=
    match l with [] => [] | x :: l' => walk x (p ++ [pretty i]) :: go (S i) l' end) k l =
    imap (fun i x => walk x (p ++ [pretty (k + i)%nat])) l) as H; [|apply (H 0%nat)].
  induction l as [|x l IH]; intros k; [done|]. rewrite imap_cons, Nat.add_0_r. f_equal. rewrite IH.
  apply imap_ext. intros i y _. simpl. by rewrite Nat.add_succ_r.
Qed.

Lemma walk_obj l p : unknownReason l = None -> walk (VObj l) p = concat (map (fun q => walk q.2 (p ++ [q.1])) l).
Proof. simpl. intros ->. f_equal. by induction l as [|[k x] l IH]; simpl; [|f_equal]. Qed.

Lemma concat_nil {A : Type} (l : list (list A)) : concat l = [] <-> forall x, x ∈ l -> x = [].
Proof.
  induction l as [|x l IH]; simpl; [by split; [intros _ x ?%not_elem_of_nil|]|].
  setoid_rewrite elem_of_cons. split.
  - intros [-> H]%app_eq_nil y [->|Hy]; [done|by apply IH].
  - intros H. by rewrite (H x (or_introl eq_refl)), (proj2 IH) by auto.
Qed.

Lemma jsv_nested_ind (P : jsv -> Prop) :
  (forall v, (forall l, v = VArr l -> Forall P l) -> (forall l, v = VObj l -> Forall (fun q => P q.2) l) -> P v) ->
  forall v, P v.
Proof.
  intros H. fix IH 1. intros [| | | | | |l|l]; apply H; try done.
  - intros l' [= <-]. induction l as [|x l IHl]; constructor; [apply IH|exact IHl].
  - intros l' [= <-]. induction l as [|[k x] l IHl]; constructor; [apply IH|exact IHl].
Qed.

(** The walk finds nothing exactly when nothing in the document blocks a build. *)
Lemma walk_nil v p : walk v p = [] <-> forall x, inside x v -> ~ blocking x.
Proof.
  revert p. induction v as [v IHa IHo] using jsv_nested_ind. intros p.
  assert ((forall l, v <> VArr l) -> (forall l, v <> VObj l) -> walk v p = [] <-> forall x, inside x v -> ~ blocking x) as Hleaf.
  { intros Ha Ho. split; [|intros _; destruct v; try done; naive_solver].
    intros _ x Hx. inversion Hx; subst; try naive_solver. intros (l & r & -> & _). naive_solver. }
  destruct v as [| | | | | |l|l]; try (apply Hleaf; done); clear Hleaf.
  - rewrite walk_arr, concat_nil. specialize (IHa l eq_refl). rewrite Forall_forall in IHa. setoid_rewrite elem_of_lookup_imap. split.
    + intros H x Hx. inversion Hx as [|? y ? Hy Hin|]; subst; [by intros (? & ? & [=] & _)|].
      apply list_elem_of_lookup in Hy as Hi. destruct Hi as [i Hi].
      apply (IHa y Hy (p ++ [pretty i])); [|done]. apply H. eauto.
    + intros H ? (i & y & -> & Hi). apply list_elem_of_lookup_2 in Hi as Hy. apply IHa; [done|].
      intros x Hx. apply H. by eapply inside_arr.
  - specialize (IHo l eq_refl). rewrite Forall_forall in IHo. destruct (unknownReason l) as [r|] eqn:Er.
    + simpl. rewrite Er. destruct (blocksBuild l) eqn:Eb.
      * split; [done|]. intros H. exfalso. apply (H (VObj l)); [constructor|by exists l, r].
      * split; [|done]. intros _ x Hx (l' & r' & -> & Er' & Eb').
        inversion Hx; subst; congruence.
    + rewrite walk_obj, concat_nil by done. setoid_rewrite list_elem_of_fmap. split.
      * intros H x Hx. inversion Hx as [| |? k y ? _ Hy Hin]; subst; [intros (? & ? & [= <-] & ? & _); congruence|].
        apply (IHo (k, y) Hy (p ++ [k])); [|done]. apply H. by exists (k, y).
      * intros H ? ([k y] & -> & Hy). apply (IHo (k, y) Hy). intros x Hx. apply H. by eapply inside_obj.
Qed.

End Unknown.

Module Schema.
Import Unknown Trust.

Definition CHAIN : Z := 11155111.

Definition addressOk (s : string) : bool := matches (Cat (lit "0x") (rep 40 (Chr is_hex_ci))) s.
Definition kebab (c : ascii) : bool := is_lower_alnum c || Ascii.eqb c "-".
(** [/^[a-z0-9][a-z0-9-]{0,62}$/]. *)
Definition idOk (s : string) : bool := matches (Cat (Chr is_lower_alnum) (repBetween 0 62 (Chr kebab))) s.
Definition upperWord (c : ascii) : bool := upper c || is_digit c || Ascii.eqb c "_".
(** [/^[A-Z][A-Z0-9_]{2,63}$/]. *)
Definition kindOk (s : string) : bool := matches (Cat (Chr upper) (repBetween 2 63 (Chr upperWord))) s.
Definition letter (c : ascii) : bool := lower c || upper c.
Definition atLeast (n : nat) (s : string) : bool := (n <=? String.length s)%nat.
Definition optOk {A : Type} (f : A -> bool) (o : option A) : bool := match o with Some x => f x | None => true end.

(** ** Identity, protocols, assets, triggers *)

(** [network] is the literal "sepolia". *)
Record Identity := { agentId : string; ensName : string; id_chainId : Z; agentAddress : Maybe string }.
Definition identityOk (i : Identity) : bool :=
  idOk (agentId i) && atLeast 3 (ensName i) && (id_chainId i =? CHAIN) && maybeOk addressOk (agentAddress i).

Inductive ProtocolKind := lending | dex | staking | mock.
Definition protocolKindText (k : ProtocolKind) : string :=
  match k with lending => "lending" | dex => "dex" | staking => "staking" | mock => "mock" end.
Record ProtocolContract := { c_role : string; c_address : Maybe string }.
Record Protocol := { p_id : string; p_displayName : string; p_kind : ProtocolKind; p_chainId : Z; contracts : list ProtocolContract }.
Definition protocolOk (p : Protocol) : bool :=
  idOk (p_id p) && atLeast 1 (p_displayName p) && (p_chainId p =? CHAIN) && (1 <=? length (contracts p))%nat &&
  every (fun c => atLeast 1 (c_role c) && maybeOk addressOk (c_address c)) (contracts p).

Record Asset := { symbol : string; as_address : Maybe string; decimals : Z }.
Definition assetOk (a : Asset) : bool :=
  atLeast 1 (symbol a) && (String.length (symbol a) <=? 16)%nat && maybeOk addressOk (as_address a) &&
  (0 <=? decimals a) && (decimals a <=? 36).

Inductive TriggerKind := threshold | schedule | evm_event | manual.
Definition triggerKindText (k : TriggerKind) : string :=
  match k with threshold => "threshold" | schedule => "schedule" | evm_event => "evm-event" | manual => "manual" end.
Record Trigger := {
  t_id : string; t_kind : TriggerKind; t_description : string; thresholdIsConfidential : bool;
  confidentialParameterName : option string; publicThreshold : option (Maybe string)
}.
Definition triggerOk (t : Trigger) : bool :=
  idOk (t_id t) && atLeast 1 (t_description t) && optOk (maybeOk (fun _ => true)) (publicThreshold t).

(** ** Actions *)

Inductive TargetPolicy :=
| TargetAllowlist (allowed : list (Maybe string))
| ProtocolResolved (protocolRef contractRole : string)
| ArbitraryTarget (justification : string).
Definition targetPolicyOk (t : TargetPolicy) : bool :=
  match t with
  | TargetAllowlist l => (1 <=? length l)%nat && every (maybeOk addressOk) l
  | ProtocolResolved p r => idOk p && atLeast 1 r
  | ArbitraryTarget j => atLeast 40 j
  end.

Inductive RecipientPolicy :=
| SelfOnly
| RecipientAllowlist (allowed : list (Maybe string))
| ArbitraryRecipient (justification : string).
Definition recipientPolicyOk (r : RecipientPolicy) : bool :=
  match r with
  | SelfOnly => true
  | RecipientAllowlist l => (1 <=? length l)%nat && every (maybeOk addressOk) l
  | ArbitraryRecipient j => atLeast 40 j
  end.

Inductive MaxAmountPolicy := exact_action_amount | declared_cap.
#[export] Instance MaxAmountPolicy_eq_dec : EqDecision MaxAmountPolicy.
Proof. solve_decision. Defined.
(** [unlimited] is the literal false. *)
Record TokenApproval := { assetSymbol : string; spenderRole : string; unlimited : bool; maxAmountPolicy : MaxAmountPolicy }.

Record Action := {
  a_id : string; a_kind : string; a_displayName : string; a_protocolRef : string; targetPolicy : TargetPolicy;
  recipientPolicy : RecipientPolicy; spendsAssets : list string; approvals : list TokenApproval
}.
Definition actionOk (a : Action) : bool :=
  idOk (a_id a) && kindOk (a_kind a) && atLeast 1 (a_displayName a) && idOk (a_protocolRef a) &&
  targetPolicyOk (targetPolicy a) && recipientPolicyOk (recipientPolicy a) && every (fun ap => negb (unlimited ap)) (approvals a).

(** ** Permissions, autonomy, escalation *)

Record Permission := { pm_id : string; statement : string; actionRef : option string }.
Definition permissionOk (p : Permission) : bool := idOk (pm_id p) && atLeast 1 (statement p) && optOk idOk (actionRef p).

Definition centsOk (m : Maybe Z) : bool := maybeOk (fun n => 0 <=? n) m.

Record AutonomousPolicy := { auto_maxValueUsdCents : Maybe Z; allowedActionRefs : list string }.

Record PerActionLimit := {
  l_actionRef : string; autonomousMaxUsdCents : Maybe Z; escalationMinUsdCents : Maybe Z; escalationMaxUsdCents : Maybe Z;
  l_sourceQuote : string
}.
Definition perActionOk (l : PerActionLimit) : bool :=
  idOk (l_actionRef l) && centsOk (autonomousMaxUsdCents l) && centsOk (escalationMinUsdCents l) &&
  centsOk (escalationMaxUsdCents l) && quoteOk (l_sourceQuote l).

Inductive Mechanism := ledger_device | approval_registry_standin.
#[export] Instance Mechanism_eq_dec : EqDecision Mechanism.
Proof. solve_decision. Defined.
Definition mechanismText (m : Mechanism) : string :=
  match m with ledger_device => "ledger-device" | approval_registry_standin => "approval-registry-standin" end.
Record EscalationPolicy := {
  minValueUsdCents : Maybe Z; maxValueUsdCents : Maybe Z; mechanism : Mechanism; denyIsTerminal : bool
}.

(** ** Confidential policy, context, capability *)

Inductive Placement := cre_confidential_placement | no_placement.
#[export] Instance Placement_eq_dec : EqDecision Placement.
Proof. solve_decision. Defined.
Record ConfidentialPolicy := {
  cp_required : bool; placement : Placement; parameterNames : list string; reasonCodes : list string
}.
Definition parameterNameOk (s : string) : bool :=
  matches (Cat (Chr letter) (repBetween 1 63 (Chr (fun c => letter c || is_digit c || Ascii.eqb c "_")))) s.

Inductive SourcePlacement := in_broker | in_cre_confidential | in_generated_agent.
#[export] Instance SourcePlacement_eq_dec : EqDecision SourcePlacement.
Proof. solve_decision. Defined.
Definition sourcePlacementText (p : SourcePlacement) : string :=
  match p with in_broker => "broker" | in_cre_confidential => "cre-confidential" | in_generated_agent => "generated-agent" end.
Record ContextSource := {
  cs_id : string; dataKind : string; cs_minimumTrustClass : DataTrustClass; cs_maxAgeMs : Z; fallbackAllowed : bool;
  cs_placement : SourcePlacement
}.
Definition contextSourceOk (c : ContextSource) : bool := idOk (cs_id c) && atLeast 1 (dataKind c) && (0 <? cs_maxAgeMs c).

Inductive CapabilityBinding :=
| chainId | target | calldataHash | value | nonce | expiry | agentIdentityHash | policyHash | authorizationId.
#[export] Instance CapabilityBinding_eq_dec : EqDecision CapabilityBinding.
Proof. solve_decision. Defined.
Definition bindingText (b : CapabilityBinding) : string :=
  match b with
  | chainId => "chainId" | target => "target" | calldataHash => "calldataHash" | value => "value" | nonce => "nonce"
  | expiry => "expiry" | agentIdentityHash => "agentIdentityHash" | policyHash => "policyHash" | authorizationId => "authorizationId"
  end.
(** [nonceStrategy] is the literal "on-chain-sequential". *)
Record CapabilityPolicy := { ttlSeconds : Z; bindings : list CapabilityBinding }.

(** ** Sponsor requirements and execution *)

Record EnsRequirements := {
  ens_required : bool; identityReadAt : string; revocationInvalidatesOutstanding : bool; financialPermissionsInEns : bool
}.
Inductive CreMode := official_cli_simulator | cre_live | no_cre.
Definition creModeText (m : CreMode) : string :=
  match m with official_cli_simulator => "official-cli-simulator" | cre_live => "cre-live" | no_cre => "none" end.
Record CreRequirements := { cre_required : bool; cre_mode : CreMode; confidentialHandler : bool; verdicts : list Verdict }.
Record LedgerRequirements := {
  keyRingRequired : bool; humanApprovalRequired : bool; physicalDeviceEvidence : bool; blockerRef : option string
}.
(** [relayerSubmits] is the literal true. *)
Record Execution := {
  ex_chainId : Z; executorAddress : Maybe string; agentHoldsNoKey : bool; agentHoldsCapabilityIssuerKey : bool;
  agentHoldsProtocolAdminKey : bool
}.

(** ** Adapters, data, scenarios, modules, assertions *)

Inductive AdapterRole := EXECUTION | STATE_DATA | VERIFIED_MARKET_DATA | EXTERNAL_CONTEXT | TRIGGER | CROSS_CHAIN.
#[export] Instance AdapterRole_eq_dec : EqDecision AdapterRole.
Proof. solve_decision. Defined.
Definition adapterRoleText (r : AdapterRole) : string :=
  match r with
  | EXECUTION => "EXECUTION" | STATE_DATA => "STATE_DATA" | VERIFIED_MARKET_DATA => "VERIFIED_MARKET_DATA"
  | EXTERNAL_CONTEXT => "EXTERNAL_CONTEXT" | TRIGGER => "TRIGGER" | CROSS_CHAIN => "CROSS_CHAIN"
  end.
Record AdapterBinding := { adapterId : string; adapterVersion : string; ab_role : AdapterRole; configRef : string; rationale : string }.
Definition digits1 : re := Regex.plus (Chr is_digit).
(** [/^\d+\.\d+\.\d+$/]. *)
Definition exactVersion (s : string) : bool := matches (Cat digits1 (Cat (lit ".") (Cat digits1 (Cat (lit ".") digits1)))) s.
Definition adapterIdOk (s : string) : bool := matches (Cat (Chr lower) (repBetween 2 63 (Chr kebab))) s.
Definition bindingOk (b : AdapterBinding) : bool :=
  adapterIdOk (adapterId b) && exactVersion (adapterVersion b) && atLeast 1 (configRef b).

Record Fallback := { f_adapterId : string; f_adapterVersion : string; allowedTrust : DataTrustClass; f_maxAgeMs : Z }.
Record DataRequirement := {
  key : string; dr_kind : string; subject : option string; dr_unit : option string; dr_minimumTrustClass : DataTrustClass;
  dr_maxAgeMs : Z; confidential : bool; historical : bool; fallback : option Fallback
}.
Definition keyOk (s : string) : bool :=
  matches (Cat (Chr letter) (repBetween 0 63 (Chr (fun c => letter c || is_digit c || Ascii.eqb c "_" || Ascii.eqb c "-")))) s.
Definition requirementOk (r : DataRequirement) : bool :=
  keyOk (key r) && atLeast 1 (dr_kind r) && (0 <? dr_maxAgeMs r) && optOk (fun f => 0 <? f_maxAgeMs f) (fallback r).

Definition BASELINE_SCENARIOS : list string :=
  ["NORMAL"; "PROMPT_INJECTION"; "AMOUNT_MUTATION"; "RECIPIENT_MUTATION"; "TARGET_MUTATION"; "REPLAY"; "ENS_REVOCATION";
   "STALE_CONTEXT"; "POLICY_CHANGE"; "RPC_FAILURE"].
Definition AAVE_SCENARIOS : list string := ["HEALTH_FACTOR_DROP"; "FLASH_CRASH"; "COLLATERAL_RECOVERY"; "REPAY_ABOVE_AUTO_LIMIT"].
Definition PRIVATE_CONTEXT_SCENARIOS : list string := ["PRIVATE_CONTEXT_ALLOW"; "PRIVATE_CONTEXT_ESCALATE"; "PRIVATE_CONTEXT_DENY"].
Definition scenarioIdOk (s : string) : bool :=
  includes (BASELINE_SCENARIOS ++ AAVE_SCENARIOS ++ PRIVATE_CONTEXT_SCENARIOS) s ||
  matches (Cat (Chr upper) (repBetween 2 63 (Chr (fun c => upperWord c || Ascii.eqb c "-")))) s.

Inductive Outcome := EXECUTED | BLOCKED | APPROVAL_REQUIRED.
#[export] Instance Outcome_eq_dec : EqDecision Outcome.
Proof. solve_decision. Defined.
Inductive Stage := IDENTITY | POLICY | CRE | APPROVAL | CAPABILITY | EXECUTION_STAGE.
#[export] Instance Stage_eq_dec : EqDecision Stage.
Proof. solve_decision. Defined.
(** [None] is "NO_VERDICT", and the stage "NONE". *)
Record SimulationScenario := {
  scenarioId : string; s_description : string; expectedVerdict : option Verdict; expectedOutcome : Outcome;
  expectedStopStage : option Stage
}.
Definition scenarioOk (s : SimulationScenario) : bool := scenarioIdOk (scenarioId s) && atLeast 1 (s_description s).

Inductive ModuleKind :=
| contextlock_core | ens_identity | cre_confidential_policy | ledger_keyring | ledger_escalation | protocol_adapter
| context_adapter | agent_runtime | tests | adapter_runtime | adapter_types | adapter_tests | adapter_config.
#[export] Instance ModuleKind_eq_dec : EqDecision ModuleKind.
Proof. solve_decision. Defined.
Record GeneratedModule := { moduleId : string; m_kind : ModuleKind; m_path : string; templateRef : string; reusesContextLockCore : bool }.
Definition moduleOk (m : GeneratedModule) : bool := idOk (moduleId m) && atLeast 1 (m_path m) && atLeast 1 (templateRef m).

Record SecurityAssertion := { sa_id : string; sa_statement : string; provenBy : list string }.
Definition assertionOk (s : SecurityAssertion) : bool :=
  matches (Cat (lit "SA-") (rep 3 (Chr is_digit))) (sa_id s) && atLeast 1 (sa_statement s) && (1 <=? length (provenBy s))%nat.

(** ** The whole thing *)

(** [schemaVersion] is a literal. *)
Record Blueprint := {
  blueprintId : string; revision : Z; createdAt : string;
  identity : Identity; objective : string;
  protocols : list Protocol; assets : list Asset; triggers : list Trigger; actions : list Action;
  allowedPermissions : list Permission; deniedPermissions : list Permission;
  autonomousPolicy : AutonomousPolicy; escalationPolicy : EscalationPolicy; perActionLimits : list PerActionLimit;
  confidentialPolicy : ConfidentialPolicy; contextSources : list ContextSource; adapters : list AdapterBinding;
  dataRequirements : list DataRequirement; capabilityPolicy : CapabilityPolicy; ens : EnsRequirements; cre : CreRequirements;
  ledger : LedgerRequirements; execution : Execution; simulationScenarios : list SimulationScenario;
  generatedModules : list GeneratedModule; securityAssertions : list SecurityAssertion
}.

Definition some1 {A : Type} (l : list A) : bool := (1 <=? length l)%nat.

(** The fields the schema pins to a literal. *)
Definition literalsOk (bp : Blueprint) : bool :=
  denyIsTerminal (escalationPolicy bp) && ens_required (ens bp) && streq (identityReadAt (ens bp)) "execution-time" &&
  revocationInvalidatesOutstanding (ens bp) && negb (financialPermissionsInEns (ens bp)) &&
  negb (physicalDeviceEvidence (ledger bp)) && (ex_chainId (execution bp) =? CHAIN) && agentHoldsNoKey (execution bp) &&
  negb (agentHoldsCapabilityIssuerKey (execution bp)) && negb (agentHoldsProtocolAdminKey (execution bp)).

Definition schemaOk (bp : Blueprint) : bool :=
  atLeast 1 (blueprintId bp) && (0 <? revision bp) && identityOk (identity bp) && atLeast 1 (objective bp) &&
  some1 (protocols bp) && every protocolOk (protocols bp) && some1 (assets bp) && every assetOk (assets bp) &&
  some1 (triggers bp) && every triggerOk (triggers bp) && some1 (actions bp) && every actionOk (actions bp) &&
  every permissionOk (allowedPermissions bp) && some1 (deniedPermissions bp) && every permissionOk (deniedPermissions bp) &&
  centsOk (auto_maxValueUsdCents (autonomousPolicy bp)) && every idOk (allowedActionRefs (autonomousPolicy bp)) &&
  centsOk (minValueUsdCents (escalationPolicy bp)) && centsOk (maxValueUsdCents (escalationPolicy bp)) &&
  every perActionOk (perActionLimits bp) && every parameterNameOk (parameterNames (confidentialPolicy bp)) &&
  every kindOk (reasonCodes (confidentialPolicy bp)) && every contextSourceOk (contextSources bp) &&
  every bindingOk (adapters bp) && every requirementOk (dataRequirements bp) && (15 <=? ttlSeconds (capabilityPolicy bp)) &&
  (ttlSeconds (capabilityPolicy bp) <=? 3600) && maybeOk addressOk (executorAddress (execution bp)) && literalsOk bp &&
  some1 (simulationScenarios bp) && every scenarioOk (simulationScenarios bp) && some1 (generatedModules bp) &&
  every moduleOk (generatedModules bp) && some1 (securityAssertions bp) && every assertionOk (securityAssertions bp).

End Schema.

Module Validator.
Import Org.Validator.
Import Unknown Schema Trust.

Record ValidationResult := { ok : bool; buildable : bool; issues : list OrgIssue; unknowns : list BlockingUnknown }.

(** ** The unknowns of a document *)

Definition objs {A : Type} (f : A -> list (string * jsv)) (l : list A) : jsv := VArr (map (fun x => VObj (f x)) l).
Definition maybeStr (m : Maybe string) : jsv := maybeValue VStr m.
Definition maybeCents (m : Maybe Z) : jsv := maybeValue VNum m.

Definition targetPolicyValue (t : TargetPolicy) : jsv :=
  VObj match t with TargetAllowlist l => [("allowed", VArr (map maybeStr l))] | _ => [] end.
Definition recipientPolicyValue (r : RecipientPolicy) : jsv :=
  VObj match r with RecipientAllowlist l => [("allowed", VArr (map maybeStr l))] | _ => [] end.

(** The properties of a document that hold an object or an array with one, in the order of the schema; the
    walk passes over the others, and over lists of plain values. *)
Definition structure (bp : Blueprint) : jsv :=
  VObj [("identity", VObj [("agentAddress", maybeStr (agentAddress (identity bp)))]);
        ("protocols", objs (fun p => [("contracts", objs (fun c => [("address", maybeStr (c_address c))]) (contracts p))]) (protocols bp));
        ("assets", objs (fun a => [("address", maybeStr (as_address a))]) (assets bp));
        ("triggers", objs (fun t => optProp "publicThreshold" maybeStr (publicThreshold t)) (triggers bp));
        ("actions", objs (fun a => [("targetPolicy", targetPolicyValue (targetPolicy a));
                                    ("recipientPolicy", recipientPolicyValue (recipientPolicy a))]) (actions bp));
        ("autonomousPolicy", VObj [("maxValueUsdCents", maybeCents (auto_maxValueUsdCents (autonomousPolicy bp)))]);
        ("escalationPolicy", VObj [("minValueUsdCents", maybeCents (minValueUsdCents (escalationPolicy bp)));
                                   ("maxValueUsdCents", maybeCents (maxValueUsdCents (escalationPolicy bp)))]);
        ("perActionLimits", objs (fun l => [("autonomousMaxUsdCents", maybeCents (autonomousMaxUsdCents l));
                                            ("escalationMinUsdCents", maybeCents (escalationMinUsdCents l));
                                            ("escalationMaxUsdCents", maybeCents (escalationMaxUsdCents l))]) (perActionLimits bp));
        ("execution", VObj [("executorAddress", maybeStr (executorAddress (execution bp)))])].

(** ** Limits and networks *)

(** [a !== null && b !== null && a > b]. *)
Definition above (x y : option Z) : bool := match x, y with Some n, Some m => m <? n | _, _ => false end.

Definition actionIds (bp : Blueprint) : list string := map a_id (actions bp).
Definition globalAuto (bp : Blueprint) : option Z := known (auto_maxValueUsdCents (autonomousPolicy bp)).
Definition globalCap (bp : Blueprint) : option Z := known (maxValueUsdCents (escalationPolicy bp)).

Definition perActionIssues (bp : Blueprint) (l : PerActionLimit) : list OrgIssue :=
  let p := "perActionLimits." +:+ l_actionRef l in
  if negb (includes (actionIds bp) (l_actionRef l)) then [issue "BP-PERACTION" CRITICAL p]
  else
    let auto := known (autonomousMaxUsdCents l) in
    let cap := known (escalationMaxUsdCents l) in
    reportIf (above auto (globalAuto bp)) (issue "BP-PERACTION" CRITICAL (p +:+ ".autonomousMaxUsdCents")) ++
    reportIf (above cap (globalCap bp)) (issue "BP-PERACTION" CRITICAL (p +:+ ".escalationMaxUsdCents")) ++
    reportIf (above auto cap) (issue "BP-PERACTION" CRITICAL p).

Definition executionRef (cid : Z) : Network.Roles.NetworkRef :=
  {| Network.Roles.ref_chainId := cid; Network.Roles.ref_role := Network.Roles.TESTNET_EXECUTION;
     Network.Roles.forkedFrom := None; Network.Roles.forkBlock := None |}.

Definition blueprintExecutionNetworks (bp : Blueprint) : list (string * Network.Roles.NetworkRef) :=
  [("identity.chainId", executionRef (id_chainId (identity bp))); ("execution.chainId", executionRef (ex_chainId (execution bp)))] ++
  map (fun pr => ("protocols." +:+ p_id pr +:+ ".chainId", executionRef (p_chainId pr))) (protocols bp).

Definition networkIssues (bp : Blueprint) : list OrgIssue :=
  flat_map (fun '(p, ref) =>
    reportIf (negb (is_ok (Network.Fences.fenceWrite Network.Fences.BLUEPRINT_VALIDATOR ref Network.Roles.PUBLIC_WRITE)))
      (issue "BP-NETWORK" CRITICAL p)) (blueprintExecutionNetworks bp).

(** ** Actions *)

Definition isArbitraryTarget (t : TargetPolicy) : bool := match t with ArbitraryTarget _ => true | _ => false end.
Definition isArbitraryRecipient (r : RecipientPolicy) : bool := match r with ArbitraryRecipient _ => true | _ => false end.
Definition isSelfOnly (r : RecipientPolicy) : bool := match r with SelfOnly => true | _ => false end.

Definition targetIssues (bp : Blueprint) (a : Action) : list OrgIssue :=
  let p := "actions." +:+ a_id a +:+ ".targetPolicy" in
  reportIf (isArbitraryTarget (targetPolicy a)) (issue "BP-001" HIGH p) ++
  match targetPolicy a with
  | ProtocolResolved pr r =>
      match List.find (fun x => streq (p_id x) pr) (protocols bp) with
      | None => [issue "BP-002" CRITICAL (p +:+ ".protocolRef")]
      | Some proto =>
          reportIf (negb (some (fun c => streq (c_role c) r) (contracts proto))) (issue "BP-002" CRITICAL (p +:+ ".contractRole"))
      end
  | _ => []
  end.

Definition recipientIssues (a : Action) : list OrgIssue :=
  reportIf (isArbitraryRecipient (recipientPolicy a)) (issue "BP-003" CRITICAL ("actions." +:+ a_id a +:+ ".recipientPolicy")).

(** ** Keys, bindings, escalation *)

Definition keyIssues (bp : Blueprint) : list OrgIssue :=
  reportIf (agentHoldsCapabilityIssuerKey (execution bp)) (issue "BP-004" CRITICAL "execution.agentHoldsCapabilityIssuerKey") ++
  reportIf (agentHoldsProtocolAdminKey (execution bp)) (issue "BP-005" CRITICAL "execution.agentHoldsProtocolAdminKey") ++
  reportIf (negb (agentHoldsNoKey (execution bp))) (issue "BP-006" CRITICAL "execution.agentHoldsNoKey").

Definition required : list (CapabilityBinding * string) :=
  [(nonce, "BP-007"); (expiry, "BP-008"); (chainId, "BP-009"); (target, "BP-010"); (calldataHash, "BP-010")].

Definition bindingIssues (bp : Blueprint) : list OrgIssue :=
  flat_map (fun '(b, code) => reportIf (negb (includes (bindings (capabilityPolicy bp)) b))
                                (issue code CRITICAL ("capabilityPolicy.bindings." +:+ bindingText b))) required.

(** [isKnown(a) && isKnown(b) && a.value <= b.value], and the strict one. *)
Definition atMost (x y : option Z) : bool := match x, y with Some n, Some m => n <=? m | _, _ => false end.
Definition under (x y : option Z) : bool := match x, y with Some n, Some m => n <? m | _, _ => false end.

Definition escalationIssues (bp : Blueprint) : list OrgIssue :=
  let e := escalationPolicy bp in
  reportIf (negb (denyIsTerminal e)) (issue "BP-011" CRITICAL "escalationPolicy.denyIsTerminal") ++
  reportIf (atMost (known (maxValueUsdCents e)) (globalAuto bp)) (issue "BP-012" HIGH "escalationPolicy.maxValueUsdCents") ++
  reportIf (under (known (minValueUsdCents e)) (globalAuto bp)) (issue "BP-013" HIGH "escalationPolicy.minValueUsdCents").

(** ** Confidentiality and identity *)

Definition carriesThreshold (t : Trigger) : bool :=
  thresholdIsConfidential t && match publicThreshold t with Some m => isKnown m | None => false end.

Definition confidentialIssues (bp : Blueprint) : list OrgIssue :=
  reportIf (cp_required (confidentialPolicy bp) && bool_decide (placement (confidentialPolicy bp) = no_placement))
    (issue "BP-014" HIGH "confidentialPolicy.placement") ++
  flat_map (fun t => reportIf (carriesThreshold t) (issue "BP-015" CRITICAL ("triggers." +:+ t_id t +:+ ".publicThreshold"))) (triggers bp).

Definition ensIssues (bp : Blueprint) : list OrgIssue :=
  reportIf (financialPermissionsInEns (ens bp)) (issue "BP-016" CRITICAL "ens.financialPermissionsInEns") ++
  reportIf (negb (streq (identityReadAt (ens bp)) "execution-time")) (issue "BP-017" HIGH "ens.identityReadAt").

(** ** Permissions *)

Definition statementsText (l : list Permission) : string := String.concat " | " (map (fun p => to_lower (statement p)) l).

Definition silenceIssues (bp : Blueprint) : list OrgIssue :=
  flat_map (fun hint =>
    reportIf (negb (str_contains hint (statementsText (deniedPermissions bp))) && negb (str_contains hint (statementsText (allowedPermissions bp))))
      (issue "BP-018" MEDIUM "permissions.denied")) ["withdraw"; "arbitrary transfer"; "arbitrary token approval"].

Definition OUTFLOW_HINTS : list string := ["withdraw"; "transfer"; "send"; "approve"; "borrow"; "swap out"].
Definition findAction (bp : Blueprint) (ref : string) : option Action := List.find (fun a => streq (a_id a) ref) (actions bp).

Definition undeclaredIssues (bp : Blueprint) : list OrgIssue :=
  flat_map (fun ref => reportIf (negb (includes (actionIds bp) ref)) (issue "BP-019" CRITICAL "autonomousPolicy.allowedActionRefs"))
    (allowedActionRefs (autonomousPolicy bp)).

Definition movesValueOut (a : Action) : bool :=
  negb (isSelfOnly (recipientPolicy a)) && some (fun h => str_contains h (to_lower (a_displayName a))) OUTFLOW_HINTS.

Definition outflowIssues (bp : Blueprint) : list OrgIssue :=
  flat_map (fun ref =>
    match findAction bp ref with
    | None => []
    | Some a => reportIf (movesValueOut a) (issue "BP-020" HIGH ("autonomousPolicy.allowedActionRefs." +:+ ref))
    end) (allowedActionRefs (autonomousPolicy bp)).

(** A denial scoped to a dangerous shape: one of these words. *)
Definition scoped (t : string) : bool :=
  Scanner.test {| patternKind := "scope"; wordStart := true;
    body := Alt (lit "arbitrary") (Alt (lit "unlimited") (Alt (lit "unbounded") (Alt (lit "infinite") (Alt (lit "blanket") (lit "open-ended")))));
    rest := boundary |} t.

Definition deniesApproval (d : Permission) : bool :=
  let t := to_lower (statement d) in
  (str_contains "approval" t || str_contains "approve" t) && negb (starts_with "unresolved:" t) && negb (scoped t).

Definition approvalIssues (bp : Blueprint) : list OrgIssue :=
  if some deniesApproval (deniedPermissions bp) then
    flat_map (fun a => reportIf (0 <? length (approvals a))%nat (issue "BP-028" CRITICAL ("actions." +:+ a_id a +:+ ".approvals"))) (actions bp)
  else [].

(** The words of a text longer than four characters: [split(/\s+/)], then the filter, which drops empty parts. *)
Fixpoint splitSpace (s : string) : list string :=
  match s with
  | EmptyString => [""]
  | String c s' =>
      if isSpace c then "" :: splitSpace s'
      else match splitSpace s' with
           | [] => [String c ""]
           | u :: l => String c u :: l
           end
  end.
Definition longWords (s : string) : list string := List.filter (fun w => (4 <? String.length w)%nat) (splitSpace s).

Definition coveredBy (bp : Blueprint) (a : Action) (ref : string) : bool :=
  some (fun p => bool_decide (actionRef p = Some ref)) (allowedPermissions bp) ||
  str_contains (to_lower (a_displayName a)) (statementsText (allowedPermissions bp)) ||
  some (fun w => str_contains w (statementsText (allowedPermissions bp))) (longWords (to_lower (a_displayName a))).

Definition coverageIssues (bp : Blueprint) : list OrgIssue :=
  flat_map (fun ref =>
    match findAction bp ref with
    | None => []
    | Some a => reportIf (negb (coveredBy bp a ref)) (issue "BP-029" HIGH ("autonomousPolicy.allowedActionRefs." +:+ ref))
    end) (allowedActionRefs (autonomousPolicy bp)).

Definition capIssues (bp : Blueprint) : list OrgIssue :=
  flat_map (fun a => flat_map (fun ap =>
    reportIf (bool_decide (maxAmountPolicy ap = declared_cap) && negb (isKnown (auto_maxValueUsdCents (autonomousPolicy bp))))
      (issue "BP-021" HIGH ("actions." +:+ a_id a +:+ ".approvals"))) (approvals a)) (actions bp).

(** ** Scenarios, CRE, Ledger, modules *)

Definition scenarioIssues (bp : Blueprint) : list OrgIssue :=
  let missing := List.filter (fun s => negb (includes (map scenarioId (simulationScenarios bp)) s)) BASELINE_SCENARIOS in
  reportIf (0 <? length missing)%nat (issue "BP-022" MEDIUM "simulationScenarios").

Definition creIssues (bp : Blueprint) : list OrgIssue :=
  reportIf (cre_required (cre bp) && (length (verdicts (cre bp)) <? 3)%nat) (issue "BP-023" HIGH "cre.verdicts").

(** A reference that is present and not empty. *)
Definition hasBlocker (bp : Blueprint) : bool := match blockerRef (ledger bp) with Some s => negb (streq s "") | None => false end.

Definition ledgerIssues (bp : Blueprint) : list OrgIssue :=
  reportIf (bool_decide (mechanism (escalationPolicy bp) = ledger_device) && physicalDeviceEvidence (ledger bp))
    (issue "BP-024" CRITICAL "ledger.physicalDeviceEvidence") ++
  reportIf (bool_decide (mechanism (escalationPolicy bp) = approval_registry_standin) && negb (hasBlocker bp))
    (issue "BP-025" MEDIUM "ledger.blockerRef").

Definition coreModule (bp : Blueprint) : option GeneratedModule :=
  List.find (fun m => bool_decide (m_kind m = contextlock_core)) (generatedModules bp).

Definition coreIssues (bp : Blueprint) : list OrgIssue :=
  match coreModule bp with
  | None => [issue "BP-026" HIGH "generatedModules"]
  | Some core => reportIf (negb (reusesContextLockCore core)) (issue "BP-027" CRITICAL "generatedModules.contextlock-core.reusesContextLockCore")
  end.

(** ** Adapters and data *)

Definition adapterIssues (bp : Blueprint) (b : AdapterBinding) : list OrgIssue :=
  reportIf (negb (bool_decide (ab_role b = EXECUTION)) && negb (includes (map key (dataRequirements bp)) (configRef b)))
    (issue "BP-030" HIGH ("adapters." +:+ adapterId b +:+ ".configRef")) ++
  reportIf (negb (exactVersion (adapterVersion b))) (issue "BP-031" CRITICAL ("adapters." +:+ adapterId b +:+ ".adapterVersion")).

Definition requirementIssues (bp : Blueprint) (r : DataRequirement) : list OrgIssue :=
  reportIf (negb (some (fun b => streq (configRef b) (key r)) (adapters bp))) (issue "BP-032" CRITICAL ("dataRequirements." +:+ key r)) ++
  match fallback r with
  | Some f => reportIf (dr_maxAgeMs r * 10 <? f_maxAgeMs f) (issue "BP-033" MEDIUM ("dataRequirements." +:+ key r +:+ ".fallback.maxAgeMs"))
  | None => []
  end.

(** ** The whole validation *)

Definition blueprintIssues (bp : Blueprint) : list OrgIssue :=
  flat_map (perActionIssues bp) (perActionLimits bp) ++ networkIssues bp ++ flat_map (targetIssues bp) (actions bp) ++
  flat_map recipientIssues (actions bp) ++ keyIssues bp ++ bindingIssues bp ++ escalationIssues bp ++ confidentialIssues bp ++
  ensIssues bp ++ silenceIssues bp ++ undeclaredIssues bp ++ outflowIssues bp ++ approvalIssues bp ++ coverageIssues bp ++
  capIssues bp ++ scenarioIssues bp ++ creIssues bp ++ ledgerIssues bp ++ coreIssues bp ++ flat_map (adapterIssues bp) (adapters bp) ++
  flat_map (requirementIssues bp) (dataRequirements bp).

Definition validateBlueprint (bp : Blueprint) : ValidationResult :=
  if schemaOk bp then
    let l := blueprintIssues bp in
    let u := collectBuildBlockingUnknowns (structure bp) in
    {| ok := negb (hasSeverity CRITICAL l);
       buildable := negb (hasSeverity CRITICAL l || hasSeverity HIGH l) && bool_decide (length u = 0%nat);
       issues := l; unknowns := u |}
  else {| ok := false; buildable := false; issues := [issue "BP-SCHEMA" CRITICAL EmptyString]; unknowns := [] |}.

(** ** What may be built *)

(** [m] states the value [v]. *)
Definition states {A : Type} (m : Maybe A) (v : A) : Prop := exists q, m = Known v q.
(** The two numbers, where both are stated, are in this order. *)
Definition ordered (x y : Maybe Z) : Prop := forall n m, states x n -> states y m -> n <= m.
Definition strictly (x y : Maybe Z) : Prop := forall n m, states x n -> states y m -> n < m.
(** The first element of a list with a property. *)
Definition firstOf {A : Type} (P : A -> Prop) (l : list A) (x : A) : Prop :=
  exists before rest, l = before ++ x :: rest /\ P x /\ forall y, y ∈ before -> ~ P y.
(** [w] occurs in [s]; [w] is one of the words of [s], between spaces or its ends. *)
Definition has (w s : string) : Prop := exists u v, s = u +:+ w +:+ v.
Definition startsWord (w s : string) : Prop := exists v, s = w +:+ v /\ all_chars (fun c => negb (isSpace c)) w = true /\
  (v = EmptyString \/ exists c v', v = String c v' /\ isSpace c = true).
Definition wordOf (w s : string) : Prop :=
  startsWord w s \/ exists u c s', s = u +:+ String c s' /\ isSpace c = true /\ startsWord w s'.

(** A limit of one action names an action and is tighter than the global ones and than its own cap. *)
Definition tightens (bp : Blueprint) (l : PerActionLimit) : Prop :=
  (exists a, a ∈ actions bp /\ a_id a = l_actionRef l) /\
  ordered (autonomousMaxUsdCents l) (auto_maxValueUsdCents (autonomousPolicy bp)) /\
  ordered (escalationMaxUsdCents l) (maxValueUsdCents (escalationPolicy bp)) /\
  ordered (autonomousMaxUsdCents l) (escalationMaxUsdCents l).

(** The target is a list, or the role of a contract of the first protocol of the name. *)
Definition boundedTarget (bp : Blueprint) (a : Action) : Prop :=
  match targetPolicy a with
  | TargetAllowlist _ => True
  | ProtocolResolved pr r =>
      exists proto c, firstOf (fun x => p_id x = pr) (protocols bp) proto /\ c ∈ contracts proto /\ c_role c = r
  | ArbitraryTarget _ => False
  end.

(** The action pays the agent itself only, or its name has none of the words for moving value out. *)
Definition keepsValue (a : Action) : Prop :=
  recipientPolicy a = SelfOnly \/
  forall w, w ∈ ["withdraw"; "transfer"; "send"; "approve"; "borrow"; "swap out"] -> ~ has w (to_lower (a_displayName a)).

(** A permission names the action, or the permissions' texts contain its name or a word of it longer than four characters. *)
Definition permitted (bp : Blueprint) (a : Action) (ref : string) : Prop :=
  (exists p, p ∈ allowedPermissions bp /\ actionRef p = Some ref) \/
  exists w, (w = to_lower (a_displayName a) \/ wordOf w (to_lower (a_displayName a)) /\ (4 < String.length w)%nat) /\
    has w (String.concat " | " (map (fun p => to_lower (statement p)) (allowedPermissions bp))).

(** What may run alone: the first action of the name keeps value and is permitted. *)
Definition autonomousOk (bp : Blueprint) (ref : string) : Prop :=
  exists a, firstOf (fun x => a_id x = ref) (actions bp) a /\ keepsValue a /\ permitted bp a ref.

(** A denial that forbids every approval: it speaks of approvals, is no open question and names no dangerous shape. *)
Definition blanketDenial (d : Permission) : Prop :=
  let t := to_lower (statement d) in
  (has "approval" t \/ has "approve" t) /\ ~ (exists v, t = "unresolved:" +:+ v) /\
  forall w, w ∈ ["arbitrary"; "unlimited"; "unbounded"; "infinite"; "blanket"; "open-ended"] -> ~ standsIn w t.

(** The design is sound: what the checks of severity CRITICAL and HIGH require, beyond the schema. *)
Record Sound (bp : Blueprint) : Prop := {
  snd_limits : forall l, l ∈ perActionLimits bp -> tightens bp l;
  snd_targets : forall a, a ∈ actions bp -> boundedTarget bp a;
  snd_recipients : forall a j, a ∈ actions bp -> recipientPolicy a <> ArbitraryRecipient j;
  snd_bindings : forall b, b ∈ [nonce; expiry; chainId; target; calldataHash] -> b ∈ bindings (capabilityPolicy bp);
  snd_ceiling : strictly (auto_maxValueUsdCents (autonomousPolicy bp)) (maxValueUsdCents (escalationPolicy bp));
  snd_floor : ordered (auto_maxValueUsdCents (autonomousPolicy bp)) (minValueUsdCents (escalationPolicy bp));
  snd_placement : cp_required (confidentialPolicy bp) = true -> placement (confidentialPolicy bp) = cre_confidential_placement;
  snd_thresholds : forall t m v, t ∈ triggers bp -> thresholdIsConfidential t = true -> publicThreshold t = Some m -> ~ states m v;
  snd_autonomous : forall ref, ref ∈ allowedActionRefs (autonomousPolicy bp) -> autonomousOk bp ref;
  snd_approvals : forall d a, d ∈ deniedPermissions bp -> blanketDenial d -> a ∈ actions bp -> approvals a = [];
  snd_caps : forall a ap, a ∈ actions bp -> ap ∈ approvals a -> maxAmountPolicy ap = declared_cap ->
    exists n, states (auto_maxValueUsdCents (autonomousPolicy bp)) n;
  snd_verdicts : cre_required (cre bp) = true -> (3 <= length (verdicts (cre bp)))%nat;
  snd_core : exists m, firstOf (fun m => m_kind m = contextlock_core) (generatedModules bp) m /\ reusesContextLockCore m = true;
  snd_bound : forall b, b ∈ adapters bp -> ab_role b <> EXECUTION -> exists r, r ∈ dataRequirements bp /\ key r = configRef b;
  snd_sourced : forall r, r ∈ dataRequirements bp -> exists b, b ∈ adapters bp /\ configRef b = key r
}.

(** [m] is not an unknown that has to be resolved before the build. *)
Definition decided {A : Type} (m : Maybe A) : Prop := forall why, m <> UnknownValue why BUILD.

(** No value of the document is. *)
Record Decided (bp : Blueprint) : Prop := {
  dec_agent : decided (agentAddress (identity bp));
  dec_contracts : forall p c, p ∈ protocols bp -> c ∈ contracts p -> decided (c_address c);
  dec_assets : forall x, x ∈ assets bp -> decided (as_address x);
  dec_thresholds : forall t m, t ∈ triggers bp -> publicThreshold t = Some m -> decided m;
  dec_targets : forall a l m, a ∈ actions bp -> targetPolicy a = TargetAllowlist l -> m ∈ l -> decided m;
  dec_recipients : forall a l m, a ∈ actions bp -> recipientPolicy a = RecipientAllowlist l -> m ∈ l -> decided m;
  dec_auto : decided (auto_maxValueUsdCents (autonomousPolicy bp));
  dec_floor : decided (minValueUsdCents (escalationPolicy bp));
  dec_ceiling : decided (maxValueUsdCents (escalationPolicy bp));
  dec_limits : forall l, l ∈ perActionLimits bp ->
    decided (autonomousMaxUsdCents l) /\ decided (escalationMinUsdCents l) /\ decided (escalationMaxUsdCents l);
  dec_executor : decided (executorAddress (execution bp))
}.

(** *** The checks decide these conditions *)

Lemma known_states {A : Type} (m : Maybe A) v : known m = Some v <-> states m v.
Proof. unfold known, states. destruct m; naive_solver. Qed.
Lemma above_false x y : above (known x) (known y) = false <-> ordered x y.
Proof. unfold above, ordered. setoid_rewrite <- known_states. destruct (known x), (known y); rewrite ?Z.ltb_ge; naive_solver. Qed.
Lemma atMost_false x y : atMost (known y) (known x) = false <-> strictly x y.
Proof. unfold atMost, strictly. setoid_rewrite <- known_states. destruct (known x), (known y); rewrite ?Z.leb_gt; naive_solver. Qed.
Lemma under_false x y : under (known y) (known x) = false <-> ordered x y.
Proof. unfold under, ordered. setoid_rewrite <- known_states. destruct (known x), (known y); rewrite ?Z.ltb_ge; naive_solver. Qed.

Lemma find_first {A : Type} (f : A -> bool) (P : A -> Prop) l x : (forall y, f y = true <-> P y) ->
  List.find f l = Some x <-> firstOf P l x.
Proof.
  intros Hf. unfold firstOf. induction l as [|z l IH]; cbn [List.find].
  - split; [done|]. by intros ([|] & r & ? & _).
  - destruct (f z) eqn:E.
    + split.
      * intros [= ->]. exists [], l. split; [done|]. split; [by apply Hf|]. by intros y ?%not_elem_of_nil.
      * intros ([|w b] & r & [= -> E'] & _ & Hb); [done|]. exfalso. by apply (Hb w); [left|apply Hf].
    + rewrite IH. split.
      * intros (b & r & -> & Hx & Hb). exists (z :: b), r. split; [done|]. split; [done|].
        intros y [->|Hy]%elem_of_cons; [rewrite <- Hf; congruence|by apply Hb].
      * intros ([|w b] & r & E' & Hx & Hb); injection E' as -> ->; [apply Hf in Hx; congruence|].
        exists b, r. split; [done|]. split; [done|]. intros y Hy. apply Hb. by right.
Qed.

Lemma has_contains w s : str_contains w s = true <-> has w s.
Proof. apply str_contains_iff. Qed.

Lemma splitSpace_words s : exists w l, splitSpace s = w :: l /\ (forall x, startsWord x s <-> x = w) /\
  (forall x, x ∈ l <-> exists u c s', s = u +:+ String c s' /\ isSpace c = true /\ startsWord x s').
Proof.
  induction s as [|c s (w & l & E & Hw & Hl)]; cbn [splitSpace].
  - exists "", []. split; [done|]. split.
    + intros x. split; [|intros ->; exists ""; by auto]. intros (v & [-> _]%str_app_empty & _). done.
    + intros x. split; [by intros ?%not_elem_of_nil|]. by intros ([|] & c & s' & ? & _).
  - destruct (isSpace c) eqn:Ec.
    + exists "", (splitSpace s). split; [done|]. split.
      * intros x. split; [|intros ->; exists (String c s); split_and!; [done|done|right; by exists c, s]].
        intros (v & Hv & Hx & _). destruct x as [|d x]; [done|]. rewrite str_app_cons in Hv. injection Hv as <- _.
        cbn in Hx. by rewrite Ec in Hx.
      * intros x. rewrite E, elem_of_cons, <- Hw, Hl. split.
        -- intros [H|(u & d & s' & -> & Hd & H)]; [exists "", c, s; done|]. exists (String c u), d, s'. done.
        -- intros ([|e u] & d & s' & E' & Hd & H); [injection E' as <- <-; by left|].
           rewrite str_app_cons in E'. injection E' as <- ->. right. by exists u, d, s'.
    + rewrite E. exists (String c w), l. split; [done|]. split.
      * intros x. split.
        -- intros (v & Hv & Hx & Ht). destruct x as [|d x].
           { rewrite str_app_nil in Hv. subst v. destruct Ht as [?|(d & v' & [= <- <-] & Hd)]; [done|congruence]. }
           rewrite str_app_cons in Hv. injection Hv as <- Hv. f_equal. apply Hw. exists v. cbn in Hx. rewrite Ec in Hx. done.
        -- intros ->. destruct (proj2 (Hw w) eq_refl) as (v & -> & Hx & Ht). exists v. split; [done|]. split; [|done].
           cbn. by rewrite Ec, Hx.
      * intros x. rewrite Hl. split.
        -- intros (u & d & s' & -> & Hd & H). by exists (String c u), d, s'.
        -- intros ([|e u] & d & s' & E' & Hd & H); [injection E' as <- _; congruence|].
           rewrite str_app_cons in E'. injection E' as <- ->. by exists u, d, s'.
Qed.

Lemma splitSpace_elem w s : w ∈ splitSpace s <-> wordOf w s.
Proof.
  destruct (splitSpace_words s) as (x & l & -> & Hx & Hl). unfold wordOf. by rewrite elem_of_cons, <- Hx, Hl.
Qed.

Lemma movesValueOut_iff a : movesValueOut a = false <-> keepsValue a.
Proof.
  unfold movesValueOut, keepsValue, OUTFLOW_HINTS. rewrite andb_false_iff, negb_false_iff, some_false.
  setoid_rewrite <- has_contains. setoid_rewrite not_true_iff_false.
  assert (isSelfOnly (recipientPolicy a) = true <-> recipientPolicy a = SelfOnly) as -> by (by destruct (recipientPolicy a)).
  done.
Qed.

Lemma coveredBy_iff bp a ref : coveredBy bp a ref = true <-> permitted bp a ref.
Proof.
  unfold coveredBy, permitted, longWords, statementsText. rewrite !orb_true_iff, !some_true.
  setoid_rewrite bool_decide_eq_true. setoid_rewrite has_contains. rewrite Logic.or_assoc. apply or_iff_compat_l. split.
  - intros [H|(w & [Hw Hl]%list_elem_of_In%filter_In & H)]; eexists; [split; [by left|done]|].
    split; [right|exact H]. apply list_elem_of_In in Hw. rewrite <- splitSpace_elem. by apply Nat.ltb_lt in Hl.
  - intros (w & [->|[Hw%splitSpace_elem Hl]] & H); [by left|right]. exists w. split; [|done].
    apply list_elem_of_In, filter_In. split; [by apply list_elem_of_In|by apply Nat.ltb_lt].
Qed.

Lemma scoped_iff t : scoped t = true <->
  exists w, w ∈ ["arbitrary"; "unlimited"; "unbounded"; "infinite"; "blanket"; "open-ended"] /\ standsIn w t.
Proof.
  unfold scoped, Scanner.test. rewrite searchFrom_iff by done. cbn [body]. unfold standsIn.
  assert (forall w, matches (Alt (lit "arbitrary") (Alt (lit "unlimited") (Alt (lit "unbounded") (Alt (lit "infinite")
    (Alt (lit "blanket") (lit "open-ended")))))) w = true <->
    w ∈ ["arbitrary"; "unlimited"; "unbounded"; "infinite"; "blanket"; "open-ended"]) as Hm.
  { intros w. rewrite matches_lang, !lang_Alt, !lang_lit, !elem_of_cons, elem_of_nil. tauto. }
  setoid_rewrite Hm. naive_solver.
Qed.

Lemma deniesApproval_iff d : deniesApproval d = true <-> blanketDenial d.
Proof.
  unfold deniesApproval, blanketDenial. cbv zeta.
  rewrite !andb_true_iff, orb_true_iff, !negb_true_iff, !has_contains, Logic.and_assoc. apply and_iff_compat_l.
  rewrite <- !not_true_iff_false, starts_with_iff, scoped_iff. naive_solver.
Qed.

Lemma perAction_clean bp l : clean (perActionIssues bp l) = true <-> tightens bp l.
Proof.
  unfold perActionIssues, tightens, globalAuto, globalCap.
  assert ((exists a, a ∈ actions bp /\ a_id a = l_actionRef l) <-> l_actionRef l ∈ actionIds bp) as ->.
  { unfold actionIds. rewrite list_elem_of_fmap. naive_solver. }
  destruct (includes (actionIds bp) (l_actionRef l)) eqn:E; simpl.
  - apply includes_true in E. rewrite !clean_app, !clean_block, !above_false by auto. naive_solver.
  - apply includes_false in E. split; [done|naive_solver].
Qed.

Lemma target_clean bp a : clean (targetIssues bp a) = true <-> boundedTarget bp a.
Proof.
  unfold targetIssues, boundedTarget. rewrite clean_app, clean_block by auto.
  destruct (targetPolicy a) as [l|pr r|j]; simpl; [naive_solver| |naive_solver].
  setoid_rewrite <- (find_first (fun x => streq (p_id x) pr)); [|intros y; apply streq_true].
  destruct (List.find _ (protocols bp)) as [proto|]; [|split; [by intros []|naive_solver]].
  rewrite clean_block, negb_false_iff, some_true by auto. setoid_rewrite streq_true. split.
  - intros [_ (c & Hc & <-)]. by exists proto, c.
  - intros (? & c & [= <-] & Hc & <-). split; [done|]. by exists c.
Qed.

Lemma binding_clean bp : clean (bindingIssues bp) = true <-> forall b, b ∈ [nonce; expiry; chainId; target; calldataHash] -> b ∈ bindings (capabilityPolicy bp).
Proof.
  unfold bindingIssues, required. cbn [flat_map]. rewrite !clean_app, !clean_block, !negb_false_iff, !includes_true by auto.
  repeat setoid_rewrite elem_of_cons. setoid_rewrite elem_of_nil. naive_solver.
Qed.

Lemma findAction_none bp ref : findAction bp ref = None <-> ref ∉ actionIds bp.
Proof.
  unfold findAction, actionIds. rewrite find_none_iff, list_elem_of_fmap. setoid_rewrite streq_false. naive_solver.
Qed.

(** The three checks of an autonomous reference, at different places of the validation, are one condition. *)
Lemma autonomous_clean bp :
  clean (undeclaredIssues bp) = true /\ clean (outflowIssues bp) = true /\ clean (coverageIssues bp) = true <->
  forall ref, ref ∈ allowedActionRefs (autonomousPolicy bp) -> autonomousOk bp ref.
Proof.
  unfold undeclaredIssues, outflowIssues, coverageIssues, autonomousOk. rewrite !clean_flat_map.
  setoid_rewrite (clean_block _ "BP-019"); [|by auto].
  assert (forall ref a, firstOf (fun x => a_id x = ref) (actions bp) a <-> findAction bp ref = Some a) as Hfirst
    by (intros ref a; symmetry; apply find_first; intros y; apply streq_true).
  setoid_rewrite Hfirst. setoid_rewrite <- movesValueOut_iff. setoid_rewrite <- coveredBy_iff.
  assert (forall ref, negb (includes (actionIds bp) ref) = false <-> findAction bp ref <> None) as Hf.
  { intros ref. rewrite negb_false_iff, includes_true. pose proof (findAction_none bp ref).
    destruct (decide (ref ∈ actionIds bp)); destruct (findAction bp ref); naive_solver. }
  split.
  - intros (H1 & H2 & H3) ref Hr. specialize (H1 ref Hr). specialize (H2 ref Hr). specialize (H3 ref Hr). apply Hf in H1.
    destruct (findAction bp ref) as [a|]; [|done]. apply clean_block in H2, H3; [|by auto..].
    apply negb_false_iff in H3. by exists a.
  - intros H. split_and!; intros ref Hr; destruct (H ref Hr) as (a & Ha & Ho & Hc).
    + apply Hf. congruence.
    + rewrite Ha, clean_block by auto. done.
    + rewrite Ha, clean_block, negb_false_iff by auto. done.
Qed.

Lemma approval_clean bp : clean (approvalIssues bp) = true <->
  forall d a, d ∈ deniedPermissions bp -> blanketDenial d -> a ∈ actions bp -> approvals a = [].
Proof.
  unfold approvalIssues. setoid_rewrite <- deniesApproval_iff. destruct (some deniesApproval (deniedPermissions bp)) eqn:E.
  - apply some_true in E as (d & Hd & E). rewrite clean_flat_map. setoid_rewrite clean_block; [|by auto].
    setoid_rewrite length_pos. naive_solver.
  - split; [|done]. intros _ d a Hd E'. by rewrite (proj1 (some_false _ _) E d Hd) in E'.
Qed.

Lemma cap_clean bp : clean (capIssues bp) = true <->
  forall a ap, a ∈ actions bp -> ap ∈ approvals a -> maxAmountPolicy ap = declared_cap ->
    exists n, states (auto_maxValueUsdCents (autonomousPolicy bp)) n.
Proof.
  unfold capIssues. rewrite clean_flat_map. setoid_rewrite clean_flat_map. setoid_rewrite clean_block; [|by auto].
  setoid_rewrite andb_false_iff. setoid_rewrite bool_decide_eq_false. setoid_rewrite negb_false_iff. setoid_rewrite <- known_states.
  destruct (auto_maxValueUsdCents (autonomousPolicy bp)); simpl; naive_solver.
Qed.

Lemma core_clean bp : clean (coreIssues bp) = true <->
  exists m, firstOf (fun m => m_kind m = contextlock_core) (generatedModules bp) m /\ reusesContextLockCore m = true.
Proof.
  setoid_rewrite <- (find_first (fun m => bool_decide (m_kind m = contextlock_core))); [|intros y; apply bool_decide_eq_true].
  unfold coreIssues, coreModule. destruct (List.find _ _) as [m|]; [|split; [done|naive_solver]].
  rewrite clean_block, negb_false_iff by auto. naive_solver.
Qed.

Lemma recipient_clean bp : (forall a, a ∈ actions bp -> clean (recipientIssues a) = true) <->
  forall a j, a ∈ actions bp -> recipientPolicy a <> ArbitraryRecipient j.
Proof.
  unfold recipientIssues. setoid_rewrite clean_block; [|by auto]. split.
  - intros H a j Ha E. specialize (H a Ha). by rewrite E in H.
  - intros H a Ha. destruct (recipientPolicy a) as [| |j] eqn:E; [done..|]. by destruct (H a j Ha).
Qed.

Lemma threshold_clean bp : (forall t, t ∈ triggers bp -> carriesThreshold t = false) <->
  forall t m v, t ∈ triggers bp -> thresholdIsConfidential t = true -> publicThreshold t = Some m -> ~ states m v.
Proof.
  unfold carriesThreshold, states. split.
  - intros H t m v Ht Hc E (q & ->). specialize (H t Ht). by rewrite Hc, E in H.
  - intros H t Ht. destruct (thresholdIsConfidential t) eqn:Ec; [|done]. destruct (publicThreshold t) as [[v q|]|] eqn:E; try done.
    exfalso. eapply (H t _ v Ht Ec E). by exists q.
Qed.

(** *** What the schema already guarantees *)

Lemma schema_literals bp : schemaOk bp = true -> literalsOk bp = true /\ id_chainId (identity bp) = CHAIN /\
  (forall p, p ∈ protocols bp -> p_chainId p = CHAIN) /\ every bindingOk (adapters bp) = true.
Proof.
  unfold schemaOk, identityOk. intros H. repeat match goal with H : _ && _ = true |- _ => apply andb_true_iff in H as [H ?] end.
  split_and!; try done; [by apply Z.eqb_eq|].
  intros p Hp. match goal with H : every protocolOk _ = true |- _ => pose proof (proj1 (every_true _ _) H p Hp) as Hq end.
  unfold protocolOk in Hq. repeat match goal with H : _ && _ = true |- _ => apply andb_true_iff in H as [H ?] end.
  by apply Z.eqb_eq.
Qed.

Lemma reportIf_false c i : c = false -> reportIf c i = [].
Proof. by intros ->. Qed.

Lemma networkIssues_nil bp : schemaOk bp = true -> networkIssues bp = [].
Proof.
  intros H. destruct (schema_literals bp H) as (Hl & Hi & Hp & _). unfold literalsOk in Hl.
  repeat match goal with H : _ && _ = true |- _ => apply andb_true_iff in H as [H ?] end.
  assert (ex_chainId (execution bp) = CHAIN) as He by (by apply Z.eqb_eq).
  unfold networkIssues, blueprintExecutionNetworks. rewrite Hi, He.
  assert (forall l, (forall p, p ∈ l -> p_chainId p = CHAIN) ->
    flat_map (fun '(p, ref) => reportIf (negb (is_ok (Network.Fences.fenceWrite Network.Fences.BLUEPRINT_VALIDATOR ref Network.Roles.PUBLIC_WRITE)))
      (issue "BP-NETWORK" CRITICAL p)) (map (fun pr => ("protocols." +:+ p_id pr +:+ ".chainId", executionRef (p_chainId pr))) l) = []) as Hm.
  { induction l as [|pr l IH]; intros Hc; [done|]. cbn [map flat_map]. rewrite (Hc pr) by left. rewrite IH; [|intros; apply Hc; by right].
    rewrite app_nil_r. apply reportIf_false. vm_compute. reflexivity. }
  cbn [app flat_map]. rewrite (Hm _ Hp), app_nil_r, !reportIf_false by (vm_compute; reflexivity). done.
Qed.

Lemma literal_issues bp : schemaOk bp = true ->
  keyIssues bp = [] /\ ensIssues bp = [] /\ denyIsTerminal (escalationPolicy bp) = true /\ physicalDeviceEvidence (ledger bp) = false.
Proof.
  intros (Hl & _)%schema_literals. unfold literalsOk in Hl.
  repeat match goal with H : _ && _ = true |- _ => apply andb_true_iff in H as [H ?] end.
  repeat match goal with H : negb _ = true |- _ => apply negb_true_iff in H end.
  unfold keyIssues, ensIssues. rewrite !reportIf_false by (by rewrite ?negb_false_iff). done.
Qed.

Lemma adapter_clean bp b : bindingOk b = true -> clean (adapterIssues bp b) = true <->
  (ab_role b <> EXECUTION -> exists r, r ∈ dataRequirements bp /\ key r = configRef b).
Proof.
  assert ((exists r, r ∈ dataRequirements bp /\ key r = configRef b) <-> configRef b ∈ map key (dataRequirements bp)) as ->
    by (rewrite list_elem_of_fmap; naive_solver).
  unfold bindingOk, adapterIssues. intros [[_ Hv]%andb_true_iff _]%andb_true_iff. rewrite Hv. cbn [negb].
  rewrite clean_app, clean_block by auto. rewrite andb_false_iff, !negb_false_iff, bool_decide_eq_true, includes_true.
  simpl. destruct (decide (ab_role b = EXECUTION)); naive_solver.
Qed.

Lemma requirement_clean bp r : clean (requirementIssues bp r) = true <-> exists b, b ∈ adapters bp /\ configRef b = key r.
Proof.
  unfold requirementIssues. rewrite clean_app, clean_block, negb_false_iff, some_true by auto. setoid_rewrite streq_true.
  split; [by intros [H _]|intros H]. split; [done|]. destruct (fallback r); [|done]. by apply clean_warn.
Qed.

Lemma issues_clean bp : schemaOk bp = true -> clean (blueprintIssues bp) = true <-> Sound bp.
Proof.
  intros Hs. destruct (literal_issues bp Hs) as (Hk & He & Hd & Hp). destruct (schema_literals bp Hs) as (_ & _ & _ & Hb).
  unfold blueprintIssues. rewrite (networkIssues_nil bp Hs), Hk, He. cbn [app]. rewrite !clean_app, !clean_flat_map.
  unfold escalationIssues, confidentialIssues, silenceIssues, scenarioIssues, creIssues, ledgerIssues, globalAuto. rewrite Hd, Hp, !clean_app, andb_false_r.
  cbn [negb reportIf]. rewrite !(clean_block _ _ _ HIGH), !clean_flat_map, atMost_false, under_false by auto.
  setoid_rewrite perAction_clean. setoid_rewrite target_clean. setoid_rewrite requirement_clean.
  setoid_rewrite (clean_block _ "BP-015"); [|by auto].
  rewrite recipient_clean, threshold_clean, binding_clean, approval_clean, cap_clean, core_clean, andb_false_iff, bool_decide_eq_false,
    andb_false_iff, Nat.ltb_ge.
  assert (forall x, x ∈ adapters bp -> clean (adapterIssues bp x) = true <->
    (ab_role x <> EXECUTION -> exists r, r ∈ dataRequirements bp /\ key r = configRef x)) as Ha.
  { intros x Hx. apply adapter_clean. by apply (proj1 (every_true _ _) Hb). }
  assert (forall c k p, clean (reportIf c (issue k MEDIUM p)) = true) as Hw by (intros; by apply clean_warn).
  pose proof (autonomous_clean bp) as Hauto.
  assert (forall (c : bool) (P : Prop), (c = false \/ P) <-> (c = true -> P)) as Himp by (intros []; naive_solver).
  assert (placement (confidentialPolicy bp) <> no_placement <-> placement (confidentialPolicy bp) = cre_confidential_placement) as ->
    by (by destruct (placement (confidentialPolicy bp))).
  rewrite !Himp. clear Himp. split.
  - intros H. repeat match goal with H : _ /\ _ |- _ => destruct H end.
    split; try assumption; [by apply Hauto|]. intros b Hin. by apply Ha; auto.
  - intros []. destruct (proj2 Hauto snd_autonomous0) as (? & ? & ?).
    split_and!; try assumption; try apply Hw; try done.
    intros b Hin. apply Ha; auto.
Qed.

(** *** What is still open *)

(** Nothing inside a value blocks a build. *)
Definition free (v : jsv) : Prop := forall x, inside x v -> ~ blocking x.

Lemma free_arr l : free (VArr l) <-> forall y, y ∈ l -> free y.
Proof.
  unfold free. split.
  - intros H y Hy x Hx. apply H. by eapply inside_arr.
  - intros H x Hx. inversion Hx; subst; [by intros (? & ? & ? & _)|eauto].
Qed.
Lemma free_obj l : unknownReason l = None -> free (VObj l) <-> forall p, p ∈ l -> free p.2.
Proof.
  unfold free. intros Hu. split.
  - intros H [k y] Hy x Hx. apply H. by eapply inside_obj.
  - intros H x Hx. inversion Hx as [| |? k y ? _ Hy Hin]; subst; [intros (? & ? & [= <-] & ? & _); congruence|by apply (H (k, y))].
Qed.
Lemma free_maybe {A : Type} (f : A -> jsv) m : (forall v, free (f v)) -> free (maybeValue f m) <-> decided m.
Proof.
  intros Hf. destruct m as [v q|r p]; cbn [maybeValue].
  - rewrite free_obj by done. split; [done|]. intros _ p Hp.
    apply elem_of_cons in Hp as [->|Hp]; [by intros x Hx; inversion Hx; subst; intros (? & ? & ? & _)|].
    apply elem_of_cons in Hp as [->|Hp]; [apply Hf|]. apply elem_of_cons in Hp as [->|Hp]; [|by apply elem_of_nil in Hp].
    by intros x Hx; inversion Hx; subst; intros (? & ? & ? & _).
  - unfold free, decided. split.
    + intros H why [= -> ->]. apply (H (VObj [("known", VBool false); ("reason", VStr why); ("requiredBefore", VStr "BUILD")]));
        [constructor|by eexists _, _].
    + intros H x Hx. inversion Hx as [| |? ? ? ? Hu]; subst; [|done]. intros (l & r' & [= <-] & _ & Hb). destruct p; [by destruct (H r)|done].
Qed.
Lemma free_str m : free (maybeStr m) <-> decided m.
Proof. apply free_maybe. intros v x Hx. inversion Hx; subst. by intros (? & ? & ? & _). Qed.
Lemma free_cents m : free (maybeCents m) <-> decided m.
Proof. apply free_maybe. intros v x Hx. inversion Hx; subst. by intros (? & ? & ? & _). Qed.
Lemma free_objs {A : Type} (f : A -> list (string * jsv)) l : (forall x, unknownReason (f x) = None) ->
  free (objs f l) <-> forall x, x ∈ l -> forall p, p ∈ f x -> free p.2.
Proof.
  intros Hu. unfold objs. rewrite free_arr. setoid_rewrite list_elem_of_fmap. split.
  - intros H x Hx. apply (free_obj (f x)); [done|]. apply H. by exists x.
  - intros H y (x & -> & Hx). apply free_obj; [done|]. by apply H.
Qed.
Lemma free_list l : free (VArr (map maybeStr l)) <-> forall m, m ∈ l -> decided m.
Proof.
  rewrite free_arr. setoid_rewrite list_elem_of_fmap. setoid_rewrite <- free_str. naive_solver.
Qed.

Lemma each_cons {A : Type} (P : A -> Prop) x l : (forall y, y ∈ x :: l -> P y) <-> P x /\ forall y, y ∈ l -> P y.
Proof. setoid_rewrite elem_of_cons. naive_solver. Qed.
Lemma each_nil {A : Type} (P : A -> Prop) : (forall y, y ∈ @nil A -> P y) <-> True.
Proof. split; [done|]. by intros _ y ?%not_elem_of_nil. Qed.

Lemma targets_free t : free (targetPolicyValue t) <-> forall l m, t = TargetAllowlist l -> m ∈ l -> decided m.
Proof.
  unfold targetPolicyValue. rewrite free_obj by (by destruct t). destruct t; rewrite ?each_cons, each_nil; cbn [snd];
    rewrite ?free_list; naive_solver.
Qed.
Lemma recipients_free t : free (recipientPolicyValue t) <-> forall l m, t = RecipientAllowlist l -> m ∈ l -> decided m.
Proof.
  unfold recipientPolicyValue. rewrite free_obj by (by destruct t). destruct t; rewrite ?each_cons, ?each_nil; cbn [snd];
    rewrite ?free_list; naive_solver.
Qed.
Lemma threshold_free t : (forall p, p ∈ optProp "publicThreshold" maybeStr (publicThreshold t) -> free p.2) <->
  forall m, publicThreshold t = Some m -> decided m.
Proof. destruct (publicThreshold t) as [m|]; cbn [optProp]; rewrite ?each_cons, each_nil; cbn [snd]; rewrite ?free_str; naive_solver. Qed.

(** The walk over the document meets every value of it that may be unknown. *)
Lemma structure_free bp : free (structure bp) <-> Decided bp.
Proof.
  unfold structure. rewrite free_obj by done. rewrite !each_cons, each_nil. cbn [snd].
  rewrite !free_obj by done. rewrite !each_cons, !each_nil. cbn [snd].
  rewrite !free_objs; [|intros x; unfold optProp; first [reflexivity|by destruct (publicThreshold x)]..].
  repeat setoid_rewrite each_cons. repeat setoid_rewrite each_nil. cbn [snd].
  setoid_rewrite free_objs; [|done]. repeat setoid_rewrite each_cons. repeat setoid_rewrite each_nil. cbn [snd].
  setoid_rewrite targets_free. setoid_rewrite recipients_free. setoid_rewrite threshold_free.
  repeat setoid_rewrite free_str. repeat setoid_rewrite free_cents.
  split; [intros H; split; naive_solver|intros []; naive_solver].
Qed.

(** C20: what the validator lets be built.  A document is buildable exactly when it has the form of its schema, none of its
    values (addresses, thresholds, allowlists, limits) is an unknown that must be resolved before a build, and its design is
    sound, which is this list and no more:
    - a limit of one action names an action and only tightens the global limits and its own cap;
    - every action has a bounded target, on the first protocol of the name, and no arbitrary recipient;
    - capabilities bind nonce, expiry, chain, target and calldata hash;
    - the escalation ceiling is above the autonomous limit and the escalation floor not below it, where they are stated;
    - a required confidential policy has a placement, and a confidential threshold states no value;
    - the first action of each name that may run alone pays only the agent itself or has no word for moving value out in its
      name, and is named by a permission or shares its name, or a long word of it, with the permissions' texts;
    - no action has approvals where a denial forbids approvals altogether, and an approval up to the declared cap needs a
      stated autonomous limit;
    - a required CRE workflow has three verdicts;
    - the first core module reuses the audited core;
    - every adapter that does not execute is bound to a data requirement, and every data requirement has an adapter. *)
Theorem blueprint_buildable bp : buildable (validateBlueprint bp) = true <->
  schemaOk bp = true /\ Decided bp /\ Sound bp.
Proof.
  unfold validateBlueprint. destruct (schemaOk bp) eqn:Hs; cbn [buildable]; [|naive_solver].
  rewrite negb_orb, andb_true_iff. fold (clean (blueprintIssues bp)). rewrite (issues_clean bp Hs), bool_decide_eq_true, length_zero_iff_nil.
  unfold collectBuildBlockingUnknowns. rewrite walk_nil. fold (free (structure bp)). rewrite structure_free. tauto.
Qed.

(** The codes a check can report. *)
Definition within (cs : list string) (l : list OrgIssue) : Prop := forall i, i ∈ l -> code i ∈ cs.

Lemma within_nil cs : within cs [].
Proof. by intros i ?%not_elem_of_nil. Qed.
Lemma within_app cs l l' : within cs l -> within cs l' -> within cs (l ++ l').
Proof. intros H H' i [Hi|Hi]%elem_of_app; auto. Qed.
Lemma within_report cs c k s p : k ∈ cs -> within cs (reportIf c (issue k s p)).
Proof. intros Hk i Hi. destruct c; [|by apply not_elem_of_nil in Hi]. by apply list_elem_of_singleton in Hi as ->. Qed.
Lemma within_one cs k s p : k ∈ cs -> within cs [issue k s p].
Proof. apply (within_report cs true). Qed.
Lemma within_flat {A : Type} cs (f : A -> list OrgIssue) l : (forall x, x ∈ l -> within cs (f x)) -> within cs (flat_map f l).
Proof.
  induction l as [|x l IH]; intros H; [apply within_nil|]. cbn [flat_map]. apply within_app; [apply H; by left|].
  apply IH. intros y Hy. apply H. by right.
Qed.
(** Splits a check into its reports; what is left is the membership of each code. *)
Ltac reports := repeat first [apply within_nil | apply within_app | apply within_report | apply within_one
  | apply within_flat; intros ? ?
  | match goal with |- context [match ?x with _ => _ end] => destruct x end].

(** The codes a document of the schema's form can be reported under. *)
Definition openCodes : list string :=
  ["BP-PERACTION"; "BP-001"; "BP-002"; "BP-003"; "BP-007"; "BP-008"; "BP-009"; "BP-010"; "BP-012"; "BP-013"; "BP-014"; "BP-015";
   "BP-018"; "BP-019"; "BP-020"; "BP-021"; "BP-022"; "BP-023"; "BP-025"; "BP-026"; "BP-027"; "BP-028"; "BP-029"; "BP-030"; "BP-032";
   "BP-033"].

Lemma adapter_codes bp b : bindingOk b = true -> within openCodes (adapterIssues bp b).
Proof.
  unfold bindingOk, adapterIssues. intros [[_ Hv]%andb_true_iff _]%andb_true_iff. rewrite Hv. cbn [negb reportIf].
  rewrite app_nil_r. apply within_report. compute_done.
Qed.

Lemma issues_codes bp : schemaOk bp = true -> within openCodes (blueprintIssues bp).
Proof.
  intros Hs. destruct (literal_issues bp Hs) as (Hk & He & Hd & Hp). destruct (schema_literals bp Hs) as (_ & _ & _ & Hb).
  unfold blueprintIssues, escalationIssues, ledgerIssues. rewrite (networkIssues_nil bp Hs), Hk, He, Hd, Hp, andb_false_r. cbn [negb reportIf app].
  repeat apply within_app; [..|apply within_flat; intros b Hin; apply adapter_codes; by apply (proj1 (every_true _ _) Hb)|];
    unfold perActionIssues, targetIssues, recipientIssues, bindingIssues, required, confidentialIssues, silenceIssues, undeclaredIssues,
      outflowIssues, approvalIssues, coverageIssues, capIssues, scenarioIssues, creIssues, coreIssues, requirementIssues; cbn [flat_map];
    reports; compute_done.
Qed.

(** C39: the checks of what the schema pins never report.  No document of the schema's form, buildable or not, has an
    issue of the network fence, of the agent's keys, of DENY being terminal, of ENS roles and reads, of hardware
    evidence or of an adapter's version. *)
Theorem schema_closes_literals bp i : i ∈ issues (validateBlueprint bp) -> schemaOk bp = true ->
  code i ∉ ["BP-SCHEMA"; "BP-NETWORK"; "BP-004"; "BP-005"; "BP-006"; "BP-011"; "BP-016"; "BP-017"; "BP-024"; "BP-031"].
Proof.
  unfold validateBlueprint. intros Hi Hs. rewrite Hs in Hi. cbn [issues] in Hi. apply (issues_codes bp Hs) in Hi.
  intros Hc. assert (Forall (fun c => c ∉ openCodes) ["BP-SCHEMA"; "BP-NETWORK"; "BP-004"; "BP-005"; "BP-006"; "BP-011"; "BP-016"; "BP-017"; "BP-024"; "BP-031"]) as H by compute_done.
  rewrite Forall_forall in H. exact (H _ Hc Hi).
Qed.

(** ** What was generated *)

(** [p.replace(/^\.?\//, "")]. *)
Definition normPath (p : string) : string :=
  match p with
  | String c s =>
      if Ascii.eqb c "/" then s
      else if Ascii.eqb c "." then match s with String d s' => if Ascii.eqb d "/" then s' else p | EmptyString => p end
      else p
  | EmptyString => p
  end.

Definition hasPath (generated : list string) (p : string) : bool :=
  let norm := normPath p in
  includes (map normPath generated) norm || some (fun x => starts_with (norm +:+ "/") x) (map normPath generated).

(** The longest prefix of characters of a class, and the rest. *)
Fixpoint spanChars (f : ascii -> bool) (s : string) : string * string :=
  match s with
  | String c s' => if f c then let p := spanChars f s' in (String c p.1, p.2) else (EmptyString, s)
  | EmptyString => (EmptyString, EmptyString)
  end.

(** The adapter of a generated path: [/^src\/adapters\/([a-z][a-z0-9-]{2,63})\//]. *)
Definition adapterOfPath (p : string) : option string :=
  let s := normPath p in
  if starts_with "src/adapters/" s then
    let q := spanChars kebab (String.substring 13 (String.length s - 13) s) in
    if adapterIdOk q.1 && starts_with "/" q.2 then Some q.1 else None
  else None.

Definition hasModule (bp : Blueprint) (k : ModuleKind) : bool := some (fun m => bool_decide (m_kind m = k)) (generatedModules bp).

Definition validateBlueprintArtifacts (bp : Blueprint) (generated : list string) : list OrgIssue :=
  flat_map (fun m => reportIf (negb (hasPath generated (m_path m))) (issue "BPA-001" CRITICAL ("generatedModules." +:+ moduleId m)))
    (generatedModules bp) ++
  reportIf (cre_required (cre bp) && negb (hasModule bp cre_confidential_policy)) (issue "BPA-002" CRITICAL "cre") ++
  reportIf (ens_required (ens bp) && negb (hasModule bp ens_identity)) (issue "BPA-003" CRITICAL "ens") ++
  flat_map (fun b => reportIf (negb (hasPath generated ("src/adapters/" +:+ adapterId b)) &&
                               negb (some (fun m => str_contains (adapterId b) (m_path m)) (generatedModules bp)))
                       (issue "BPA-005" CRITICAL ("adapters." +:+ adapterId b))) (adapters bp) ++
  flat_map (fun p => match adapterOfPath p with
                     | Some a => reportIf (negb (includes (map adapterId (adapters bp)) a)) (issue "BPA-006" CRITICAL p)
                     | None => []
                     end) generated ++
  reportIf (humanApprovalRequired (ledger bp) && negb (hasModule bp ledger_escalation)) (issue "BPA-004" CRITICAL "ledger").

(** The generated tree and the document correspond. *)
Record Corresponds (bp : Blueprint) (generated : list string) : Prop := {
  cor_modules : forall m, m ∈ generatedModules bp -> hasPath generated (m_path m) = true;
  cor_cre : cre_required (cre bp) = true -> exists m, m ∈ generatedModules bp /\ m_kind m = cre_confidential_policy;
  cor_ens : ens_required (ens bp) = true -> exists m, m ∈ generatedModules bp /\ m_kind m = ens_identity;
  cor_ledger : humanApprovalRequired (ledger bp) = true -> exists m, m ∈ generatedModules bp /\ m_kind m = ledger_escalation;
  cor_adapters : forall b, b ∈ adapters bp -> hasPath generated ("src/adapters/" +:+ adapterId b) = true \/
    exists m, m ∈ generatedModules bp /\ str_contains (adapterId b) (m_path m) = true;
  cor_undeclared : forall p a, p ∈ generated -> adapterOfPath p = Some a -> a ∈ map adapterId (adapters bp)
}.

Lemma reported_not c i : reportIf c i = [] <-> c = false.
Proof. by destruct c. Qed.

Lemma asks c d : c && negb d = false <-> (c = true -> d = true).
Proof. destruct c, d; naive_solver. Qed.

(** Nothing is reported about the generated tree exactly when it and the document correspond: every module, the
    module each requirement asks for, and every adapter is there, and no adapter is there that the document does
    not declare. *)
Theorem artifacts_correspond bp generated : validateBlueprintArtifacts bp generated = [] <-> Corresponds bp generated.
Proof.
  unfold validateBlueprintArtifacts.
  assert (forall (A : Type) (l l' : list A), l ++ l' = [] <-> l = [] /\ l' = []) as Happ
    by (intros A l l'; split; [apply app_eq_nil|by intros [-> ->]]).
  rewrite !Happ, !flat_map_nil, !reported_not, !asks. setoid_rewrite reported_not. setoid_rewrite negb_false_iff.
  setoid_rewrite andb_false_iff. setoid_rewrite negb_false_iff. setoid_rewrite some_true. setoid_rewrite bool_decide_eq_true. split.
  - intros (H1 & H2 & H3 & H4 & H5 & H6). split; try assumption. intros p a Hp Ha. specialize (H5 p Hp). rewrite Ha in H5.
    by apply reported_not, negb_false_iff, includes_true in H5.
  - intros [H1 H2 H3 H6 H4 H5]. split_and!; try assumption.
    intros p Hp. destruct (adapterOfPath p) as [a|] eqn:Ea; [|done].
    apply reported_not, negb_false_iff, includes_true. by eapply H5.
Qed.

End Validator.

(** [score.ts].  A check is its outcome and its points, and a category the points of the checks that hold; the
    texts of reasons and of what is missing are not modelled. *)
Module Score.
Import Unknown Schema Org.Validator.

Record ScoreEvidence := { passedTests : list string; passedScenarios : list string; ev_issues : list OrgIssue }.
Record CategoryScore := { cat_id : string; points : Z; max : Z }.
Inductive Band := STRONG | ADEQUATE | WEAK | UNSAFE.
#[export] Instance Band_eq_dec : EqDecision Band.
Proof. solve_decision. Defined.
Record SecurityScore := { total : Z; s_max : Z; band : Band; categories : list CategoryScore; criticalOutstanding : Z }.

Definition check : Type := bool * Z.
Definition earned (checks : list check) : Z := fold_right (fun (c : check) n => (if c.1 then c.2 else 0) + n) 0 checks.
Definition cat (id : string) (m : Z) (checks : list check) : CategoryScore :=
  {| cat_id := id; points := Z.min (earned checks) m; max := m |}.

Definition has {A : Type} `{EqDecision A} (l : list A) (x : A) : bool := includes l x.

Definition theCategories (bp : Blueprint) (ev : ScoreEvidence) : list CategoryScore :=
  let passed := has (passedTests ev) in
  let scen := has (passedScenarios ev) in
  let b := has (bindings (capabilityPolicy bp)) in
  [cat "identity-isolation" 10
     [(agentHoldsNoKey (execution bp) && negb (agentHoldsCapabilityIssuerKey (execution bp)), 4);
      (negb (agentHoldsProtocolAdminKey (execution bp)), 3); (passed "STUDIO-014", 3)];
   cat "transaction-binding" 10
     [(b target && b calldataHash && b chainId, 4);
      (scen "AMOUNT_MUTATION" && scen "RECIPIENT_MUTATION" && scen "TARGET_MUTATION", 6)];
   cat "replay-protection" 10 [(b nonce && b expiry, 3); (scen "REPLAY", 7)];
   cat "context-freshness" 10
     [((0 <? length (contextSources bp))%nat && every (fun c => 0 <? cs_maxAgeMs c) (contextSources bp), 3);
      (every (fun c => negb (fallbackAllowed c)) (contextSources bp) || some fallbackAllowed (contextSources bp), 2);
      (scen "STALE_CONTEXT", 5)];
   cat "policy-revocation" 10
     [(streq (identityReadAt (ens bp)) "execution-time" && revocationInvalidatesOutstanding (ens bp), 3);
      (scen "ENS_REVOCATION", 5); (scen "POLICY_CHANGE", 2)];
   cat "human-escalation" 10
     [(denyIsTerminal (escalationPolicy bp), 3); (scen "REPAY_ABOVE_AUTO_LIMIT", 4); (physicalDeviceEvidence (ledger bp), 3)];
   cat "secret-isolation" 10
     [((0 <? length (parameterNames (confidentialPolicy bp)))%nat &&
       bool_decide (placement (confidentialPolicy bp) = cre_confidential_placement), 3);
      (passed "STUDIO-013", 4); (passed "STUDIO-021", 3)];
   cat "protocol-exposure" 10
     [(every (fun a => negb (Validator.isArbitraryTarget (targetPolicy a))) (actions bp), 4);
      (every (fun a => negb (Validator.isArbitraryRecipient (recipientPolicy a))) (actions bp), 4);
      (every (fun a => every (fun ap => negb (unlimited ap)) (approvals a)) (actions bp), 2)];
   cat "test-coverage" 10 [((25 <=? length (passedTests ev))%nat, 6); (passed "STUDIO-006" && passed "STUDIO-022", 4)];
   cat "simulation-coverage" 10
     [(every scen BASELINE_SCENARIOS, 6);
      (scen "PRIVATE_CONTEXT_ALLOW" && scen "PRIVATE_CONTEXT_ESCALATE" && scen "PRIVATE_CONTEXT_DENY", 4)]].

Definition sumOf (f : CategoryScore -> Z) (l : list CategoryScore) : Z := fold_left (fun s c => s + f c) l 0.

(** [total >= max * 0.85] and [total >= max * 0.65], on the integers both sides are. *)
Definition bandOf (critical t m : Z) : Band :=
  if 0 <? critical then UNSAFE
  else if 85 * m <=? 100 * t then STRONG
  else if 65 * m <=? 100 * t then ADEQUATE
  else WEAK.

Definition criticals (l : list OrgIssue) : Z := Z.of_nat (length (List.filter (fun i => bool_decide (severity i = CRITICAL)) l)).

Definition computeSecurityScore (bp : Blueprint) (ev : ScoreEvidence) : SecurityScore :=
  let cs := theCategories bp ev in
  let t := sumOf points cs in
  let m := sumOf max cs in
  let k := criticals (ev_issues ev) in
  {| total := t; s_max := m; band := bandOf k t m; categories := cs; criticalOutstanding := k |}.

(** ** The sum of the checks *)

(** No category can exceed its maximum, so the total is the sum of the points of what holds. *)
Definition pts (c : bool) (n : Z) : Z := if c then n else 0.

Lemma pts_range c n : 0 <= n -> 0 <= pts c n <= n.
Proof. destruct c; simpl; lia. Qed.

Lemma pts_mono (c d : bool) n : 0 <= n -> (c = true -> d = true) -> pts c n <= pts d n.
Proof. destruct c, d; simpl; intros Hn H; [lia| |lia|lia]. by specialize (H eq_refl). Qed.

(** Evidence of the document alone, of the tests and of the scenarios. *)
Definition designPoints (bp : Blueprint) : Z :=
  let b := has (bindings (capabilityPolicy bp)) in
  pts (agentHoldsNoKey (execution bp) && negb (agentHoldsCapabilityIssuerKey (execution bp))) 4 +
  pts (negb (agentHoldsProtocolAdminKey (execution bp))) 3 + pts (b target && b calldataHash && b chainId) 4 +
  pts (b nonce && b expiry) 3 + pts ((0 <? length (contextSources bp))%nat && every (fun c => 0 <? cs_maxAgeMs c) (contextSources bp)) 3 +
  2 + pts (streq (identityReadAt (ens bp)) "execution-time" && revocationInvalidatesOutstanding (ens bp)) 3 +
  pts (denyIsTerminal (escalationPolicy bp)) 3 + pts (physicalDeviceEvidence (ledger bp)) 3 +
  pts ((0 <? length (parameterNames (confidentialPolicy bp)))%nat &&
       bool_decide (placement (confidentialPolicy bp) = cre_confidential_placement)) 3 +
  pts (every (fun a => negb (Validator.isArbitraryTarget (targetPolicy a))) (actions bp)) 4 +
  pts (every (fun a => negb (Validator.isArbitraryRecipient (recipientPolicy a))) (actions bp)) 4 +
  pts (every (fun a => every (fun ap => negb (unlimited ap)) (approvals a)) (actions bp)) 2.

Definition testPoints (l : list string) : Z :=
  pts (has l "STUDIO-014") 3 + pts (has l "STUDIO-013") 4 + pts (has l "STUDIO-021") 3 +
  pts (25 <=? length l)%nat 6 + pts (has l "STUDIO-006" && has l "STUDIO-022") 4.

Definition scenarioPoints (l : list string) : Z :=
  pts (has l "AMOUNT_MUTATION" && has l "RECIPIENT_MUTATION" && has l "TARGET_MUTATION") 6 + pts (has l "REPLAY") 7 +
  pts (has l "STALE_CONTEXT") 5 + pts (has l "ENS_REVOCATION") 5 + pts (has l "POLICY_CHANGE") 2 +
  pts (has l "REPAY_ABOVE_AUTO_LIMIT") 4 + pts (every (has l) BASELINE_SCENARIOS) 6 +
  pts (has l "PRIVATE_CONTEXT_ALLOW" && has l "PRIVATE_CONTEXT_ESCALATE" && has l "PRIVATE_CONTEXT_DENY") 4.

(** The check that a fallback is declared holds of every document. *)
Lemma fallback_check_vacuous {A : Type} (f : A -> bool) l : every (fun c => negb (f c)) l || some f l = true.
Proof.
  induction l as [|x l IH]; [done|]. cbn [every some forallb existsb]. fold (every (fun c => negb (f c)) l) (some f l).
  destruct (f x); simpl; [by rewrite ?orb_true_r|]. exact IH.
Qed.

Lemma cat2 id a b m n : 0 <= m -> 0 <= n -> m + n <= 10 -> points (cat id 10 [(a, m); (b, n)]) = pts a m + pts b n.
Proof. intros. unfold pts. cbn [points cat earned fold_right fst snd]. destruct a, b; lia. Qed.
Lemma cat3 id a b c m n k : 0 <= m -> 0 <= n -> 0 <= k -> m + n + k <= 10 ->
  points (cat id 10 [(a, m); (b, n); (c, k)]) = pts a m + pts b n + pts c k.
Proof. intros. unfold pts. cbn [points cat earned fold_right fst snd]. destruct a, b, c; lia. Qed.

Lemma total_eq bp ev : total (computeSecurityScore bp ev) = designPoints bp + testPoints (passedTests ev) + scenarioPoints (passedScenarios ev).
Proof.
  cbn [total computeSecurityScore]. unfold theCategories, sumOf. cbn [fold_left]. rewrite !cat2, !cat3 by lia.
  rewrite fallback_check_vacuous. unfold designPoints, testPoints, scenarioPoints. change (pts true 2) with 2. lia.
Qed.

Lemma max_eq bp ev : sumOf max (theCategories bp ev) = 100.
Proof. done. Qed.

Lemma band_eq bp ev : band (computeSecurityScore bp ev) = bandOf (criticals (ev_issues ev)) (total (computeSecurityScore bp ev)) 100.
Proof. unfold computeSecurityScore. cbn [band total]. cbv zeta. by rewrite max_eq. Qed.

Ltac range := repeat match goal with |- context [pts ?c ?n] =>
  lazymatch goal with _ : 0 <= pts c n <= n |- _ => fail | _ => pose proof (pts_range c n ltac:(lia)) end end.

Lemma design_range bp : 0 <= designPoints bp <= 41.
Proof. unfold designPoints. cbv zeta. range. lia. Qed.
Lemma design_schema bp : schemaOk bp = true -> designPoints bp <= 38.
Proof.
  intros Hs. destruct (Validator.literal_issues bp Hs) as (_ & _ & _ & Hp). unfold designPoints. cbv zeta. rewrite Hp.
  change (pts false 3) with 0. range. lia.
Qed.
Lemma tests_range l : 0 <= testPoints l <= 20.
Proof. unfold testPoints. range. lia. Qed.
Lemma scenarios_range l : 0 <= scenarioPoints l <= 39.
Proof. unfold scenarioPoints. range. lia. Qed.

Lemma has_mono {A : Type} `{EqDecision A} (l l' : list A) x : l ⊆ l' -> has l x = true -> has l' x = true.
Proof. unfold has. rewrite !includes_true. auto. Qed.

Lemma tests_mono l l' : l ⊆ l' -> (length l <= length l')%nat -> testPoints l <= testPoints l'.
Proof.
  intros Hl Hn. unfold testPoints. repeat apply Z.add_le_mono; apply pts_mono; try lia; rewrite ?andb_true_iff, ?Nat.leb_le; try lia;
    intros; repeat match goal with H : _ /\ _ |- _ => destruct H end; repeat split; eauto using has_mono.
Qed.

Lemma scenarios_mono l l' : l ⊆ l' -> scenarioPoints l <= scenarioPoints l'.
Proof.
  intros Hl. unfold scenarioPoints. repeat apply Z.add_le_mono; apply pts_mono; try lia; rewrite ?andb_true_iff;
    try (intros H; apply every_true; intros x Hx; apply (has_mono l); [done|]; by apply (proj1 (every_true _ _) H));
    intros; repeat match goal with H : _ /\ _ |- _ => destruct H end; repeat split; eauto using has_mono.
Qed.

(** How much a band claims. *)
Definition strength (b : Band) : Z := match b with UNSAFE => 0 | WEAK => 1 | ADEQUATE => 2 | STRONG => 3 end.

Lemma band_mono k t t' m : t <= t' -> strength (bandOf k t m) <= strength (bandOf k t' m).
Proof. intros H. unfold bandOf. repeat case_match; simpl; lia. Qed.

(** The score cannot be earned by the design alone.  Without a passing scenario no design is more than WEAK, without
    a passing test none is STRONG, and no document of the schema's form reaches the last three points of the
    hundred, whatever evidence is brought. *)
Theorem score_is_demonstrated bp ev : schemaOk bp = true ->
  0 <= total (computeSecurityScore bp ev) <= 97 /\
  (passedScenarios ev = [] -> band (computeSecurityScore bp ev) = WEAK \/ band (computeSecurityScore bp ev) = UNSAFE) /\
  (passedTests ev = [] -> band (computeSecurityScore bp ev) <> STRONG).
Proof.
  intros Hs. pose proof (design_range bp) as [Hd _]. pose proof (design_schema bp Hs) as Hd'. pose proof (tests_range (passedTests ev)) as Ht.
  pose proof (scenarios_range (passedScenarios ev)) as Hn. pose proof (total_eq bp ev) as He.
  rewrite band_eq, He. clear He. split; [lia|]. unfold bandOf. split; intros Hnil; rewrite Hnil in *.
  - change (scenarioPoints []) with 0 in *. repeat case_match; auto; lia.
  - change (testPoints []) with 0 in *. repeat case_match; try done; lia.
Qed.

(** Bringing evidence never lowers a score.  With more tests and scenarios passed and the same issues, the total and
    the band are at least what they were; and an issue that is CRITICAL makes the band UNSAFE whatever the total. *)
Theorem score_monotone bp ev ev' : passedTests ev ⊆ passedTests ev' -> (length (passedTests ev) <= length (passedTests ev'))%nat ->
  passedScenarios ev ⊆ passedScenarios ev' -> ev_issues ev = ev_issues ev' ->
  total (computeSecurityScore bp ev) <= total (computeSecurityScore bp ev') /\
  strength (band (computeSecurityScore bp ev)) <= strength (band (computeSecurityScore bp ev')) /\
  (band (computeSecurityScore bp ev) = UNSAFE <-> exists i, i ∈ ev_issues ev /\ severity i = CRITICAL).
Proof.
  intros Ht Hl Hs Hi. pose proof (tests_mono _ _ Ht Hl) as Ht'. pose proof (scenarios_mono _ _ Hs) as Hs'.
  assert (total (computeSecurityScore bp ev) <= total (computeSecurityScore bp ev')) as Hle by (rewrite !total_eq; lia).
  split_and!; [done| |].
  - rewrite !band_eq, <- Hi. by apply band_mono.
  - rewrite band_eq.
    assert (0 < criticals (ev_issues ev) <-> exists i, i ∈ ev_issues ev /\ severity i = CRITICAL) as <-.
    { pose proof (filter_nil (fun i => bool_decide (severity i = CRITICAL)) (ev_issues ev)) as Hf. unfold criticals. split.
      - intros Hn. destruct (some (fun i => bool_decide (severity i = CRITICAL)) (ev_issues ev)) eqn:Es.
        + apply some_true in Es as (i & Hin & ?%bool_decide_eq_true). by exists i.
        + rewrite (proj2 Hf) in Hn by (by apply some_false). simpl in Hn. lia.
      - intros (i & Hin & Hc). destruct (List.filter _ (ev_issues ev)) eqn:El; [|simpl; lia].
        pose proof (proj1 Hf eq_refl i Hin) as Hb. by apply bool_decide_eq_false in Hb. }
    unfold bandOf. repeat case_match; split; intros; try done; lia.
Qed.

End Score.

(** [graph.ts]. *)
Module Graph.
Import Unknown Schema Trust.

Inductive NodeState := PENDING | GENERATING | READY | RUNNING | PASS | WARN | FAIL | BLOCKED.

Inductive NodeKind :=
| KAdapter | User | Agent | EnsIdentity | KBroker | CreWorkflow | PrivatePolicy | DataSource | AuthorizationRegistry | KCapability
| LedgerKeyRing | LedgerApproval | Executor | DefiProtocol.

Record GraphNode := {
  n_id : string; n_kind : NodeKind; label : string; sublabel : option string; rank : Z; position : Z * Z; state : NodeState;
  detail : list (string * string)
}.

Inductive EdgeKind := authority | data | control.
#[export] Instance EdgeKind_eq_dec : EqDecision EdgeKind.
Proof. solve_decision. Defined.
Record GraphEdge := { e_id : string; source : string; e_target : string; e_label : string; e_kind : EdgeKind }.
Record BlueprintGraph := { g_blueprintId : string; g_revision : Z; nodes : list GraphNode; edges : list GraphEdge }.

Definition COL_WIDTH : Z := 260.
Definition ROW_HEIGHT : Z := 130.

Definition RANK (k : NodeKind) : Z :=
  match k with
  | User => 0 | KAdapter => 3 | Agent => 1 | KBroker => 2 | EnsIdentity => 3 | CreWorkflow => 3 | DataSource => 3 | PrivatePolicy => 4
  | LedgerKeyRing => 4 | AuthorizationRegistry => 5 | LedgerApproval => 5 | KCapability => 6 | Executor => 7 | DefiProtocol => 8
  end.

(** [states[id] ?? "PENDING"], and a node before the layout. *)
Definition add (states : gmap string NodeState) (id : string) (k : NodeKind) (l : string) (d : list (string * string)) (sub : option string) :
  GraphNode :=
  {| n_id := id; n_kind := k; label := l; sublabel := sub; rank := RANK k; position := (0, 0);
     state := match states !! id with Some s => s | None => PENDING end; detail := d |}.

Definition edge (s t : string) (k : EdgeKind) (l : string) : GraphEdge :=
  {| e_id := s +:+ "->" +:+ t; source := s; e_target := t; e_label := l; e_kind := k |}.

(** ** Nodes *)

Definition adapterNodeId (b : AdapterBinding) : string := "adapter-" +:+ adapterId b +:+ "-" +:+ configRef b.
Definition ctxNodeId (c : ContextSource) : string := "ctx-" +:+ cs_id c.
Definition protoNodeId (p : Protocol) : string := "proto-" +:+ p_id p.
Definition servedBy (bp : Blueprint) (b : AdapterBinding) : option DataRequirement :=
  List.find (fun r => streq (key r) (configRef b)) (dataRequirements bp).
(** [s || "—"]. *)
Definition orDash (s : string) : string := if streq s "" then "—" else s.
Definition yesNo (b : bool) : string := if b then "yes" else "no".

Definition requirementDetail (r : DataRequirement) : list (string * string) :=
  [("Data kind", dr_kind r); ("Required trust", trustName (dr_minimumTrustClass r)); ("Max age", pretty (dr_maxAgeMs r) +:+ "ms");
   ("Confidential", yesNo (confidential r));
   ("Fallback", match fallback r with
                | Some f => f_adapterId f +:+ "@" +:+ f_adapterVersion f +:+ " (max " +:+ trustName (allowedTrust f) +:+ ", " +:+
                            pretty (f_maxAgeMs f) +:+ "ms)"
                | None => "none declared — no silent downgrade"
                end)].

Definition verdictName (v : Verdict) : string := match v with ALLOW => "ALLOW" | ESCALATE => "ESCALATE" | DENY => "DENY" end.

Section nodes.
Variable states : gmap string NodeState.
Variable bp : Blueprint.
Let add := add states.

Definition adapterNode (b : AdapterBinding) : GraphNode :=
  let req := servedBy bp b in
  add (adapterNodeId b) KAdapter (adapterId b)
    ([("Adapter", adapterId b +:+ "@" +:+ adapterVersion b); ("Role", adapterRoleText (ab_role b)); ("Serves", configRef b)] ++
     match req with Some r => requirementDetail r | None => [] end ++ [("Selected because", orDash (rationale b))])
    (Some match req with Some r => trustName (dr_minimumTrustClass r) | None => adapterRoleText (ab_role b) end).

Definition ctxNode (c : ContextSource) : GraphNode :=
  add (ctxNodeId c) DataSource (dataKind c)
    [("Minimum trust", trustName (cs_minimumTrustClass c)); ("Max age", pretty (cs_maxAgeMs c) +:+ "ms");
     ("Fallback", if fallbackAllowed c then "Allowed (declared)" else "Not allowed"); ("Placement", sourcePlacementText (cs_placement c))]
    (Some (trustName (cs_minimumTrustClass c))).

Definition protoNode (p : Protocol) : GraphNode :=
  add (protoNodeId p) DefiProtocol (p_displayName p)
    [("Kind", protocolKindText (p_kind p)); ("Contracts", String.concat ", " (map c_role (contracts p)));
     ("Actions", orDash (String.concat ", " (map a_kind (List.filter (fun a => streq (a_protocolRef a) (p_id p)) (actions bp)))))]
    (Some (protocolKindText (p_kind p))).

Definition drawn : list GraphNode :=
  [add "user" User "User" [("Objective", objective bp); ("Network", "sepolia (" +:+ pretty (id_chainId (identity bp)) +:+ ")")] None;
   add "agent" Agent "Agent runtime"
     [("Holds a key", if agentHoldsNoKey (execution bp) then "No" else "YES — invalid");
      ("Submits transactions", "No — the relayer does"); ("Trust", "Untrusted by design; assumed compromised")] (Some "untrusted");
   add "broker" KBroker "ContextLock Broker"
     [("Role", "Builds exact calldata, requests evaluation, issues capabilities");
      ("Capability TTL", pretty (ttlSeconds (capabilityPolicy bp)) +:+ "s")] None;
   add "ens" EnsIdentity "ENSv2 identity"
     [("Name", ensName (identity bp)); ("Read at", identityReadAt (ens bp));
      ("Revocation", if revocationInvalidatesOutstanding (ens bp) then "Invalidates outstanding capabilities" else "—");
      ("Financial roles in ENS", if financialPermissionsInEns (ens bp) then "YES — invalid" else "No")] (Some "live")] ++
  (if cre_required (cre bp) then
     [add "cre" CreWorkflow "Chainlink CRE workflow"
        [("Mode", creModeText (cre_mode (cre bp))); ("Confidential handler", if confidentialHandler (cre bp) then "Yes" else "No");
         ("Verdicts", String.concat " / " (map verdictName (verdicts (cre bp))))] (Some (creModeText (cre_mode (cre bp))))] ++
     (if cp_required (confidentialPolicy bp) then
        [add "private-policy" PrivatePolicy "Private policy"
           [("Parameters", String.concat ", " (parameterNames (confidentialPolicy bp))); ("Values", "confidential — never rendered");
            ("Reason codes", String.concat ", " (reasonCodes (confidentialPolicy bp)))] (Some "confidential")]
      else [])
   else []) ++
  map adapterNode (adapters bp) ++ map ctxNode (contextSources bp) ++
  [add "authreg" AuthorizationRegistry "Authorization registry"
     [("Writer", "CRE consumer contract only"); ("Write policy", "Idempotent upsert, bound to a recomputed request hash")] None] ++
  (if keyRingRequired (ledger bp) then
     [add "keyring" LedgerKeyRing "Ledger Key Ring"
        [("Purpose", "Broker credential, unreachable by the agent"); ("Getter", "None — performProtectedAction only");
         ("Provisioned on device", "No")] (Some "software only")]
   else []) ++
  (if humanApprovalRequired (ledger bp) then
     [add "approval" LedgerApproval "Human approval"
        [("Mechanism", mechanismText (mechanism (escalationPolicy bp))); ("Physical device evidence", "None");
         ("Blocker", match blockerRef (ledger bp) with Some s => s | None => "—" end); ("Can override DENY", "No — structurally terminal")]
        (Some (if bool_decide (mechanism (escalationPolicy bp) = ledger_device) then "device" else "STAND-IN"))]
   else []) ++
  [add "capability" KCapability "EIP-712 capability"
     [("Bound fields", String.concat ", " (map bindingText (bindings (capabilityPolicy bp))));
      ("TTL", pretty (ttlSeconds (capabilityPolicy bp)) +:+ "s"); ("Nonce", "on-chain-sequential")] None;
   add "executor" Executor "ContextLock Executor"
     [("Role", "Reference monitor — re-checks every input on-chain"); ("Failure mode", "Fails closed");
      ("Chain", pretty (ex_chainId (execution bp)))] None] ++
  map protoNode (protocols bp).

End nodes.

(** ** Edges *)

Definition isExecution (b : AdapterBinding) : bool := bool_decide (ab_role b = EXECUTION).

Definition ctxEdge (c : ContextSource) : GraphEdge :=
  edge (ctxNodeId c) (if bool_decide (cs_placement c = in_cre_confidential) then "cre" else "broker") data (dataKind c).
Definition adapterEdge (bp : Blueprint) (b : AdapterBinding) : GraphEdge :=
  if isExecution b then edge "executor" (adapterNodeId b) control "prepare + decode"
  else edge (adapterNodeId b) (match servedBy bp b with Some r => if confidential r then "cre" else "broker" | None => "broker" end) data
         (match servedBy bp b with Some r => dr_kind r | None => configRef b end).
(** Without CRE. *)
Definition plainAdapterEdge (b : AdapterBinding) : GraphEdge :=
  if isExecution b then edge "executor" (adapterNodeId b) control "prepare + decode"
  else edge (adapterNodeId b) "broker" data (configRef b).

Definition wired (bp : Blueprint) : list GraphEdge :=
  [edge "user" "agent" control "instructs"; edge "agent" "broker" control "proposes intent"; edge "broker" "ens" data "who is this agent"] ++
  (if cre_required (cre bp) then
     [edge "broker" "cre" control "evaluate"] ++
     (if cp_required (confidentialPolicy bp) then [edge "private-policy" "cre" data "private thresholds"] else []) ++
     map ctxEdge (contextSources bp) ++ map (adapterEdge bp) (adapters bp) ++ [edge "cre" "authreg" authority "verdict"]
   else []) ++
  (if keyRingRequired (ledger bp) then [edge "keyring" "broker" data "protected secret"] else []) ++
  [edge "broker" "capability" authority "issues"] ++
  (if humanApprovalRequired (ledger bp) then
     [edge "authreg" "approval" control "ESCALATE"; edge "approval" "executor" authority "approval record"] else []) ++
  [edge "authreg" "executor" authority "verdict read on-chain"; edge "ens" "executor" authority "identity read live";
   edge "capability" "executor" authority "signed, one transaction"] ++
  map (fun p => edge "executor" (protoNodeId p) control "exact call") (protocols bp) ++
  (if cre_required (cre bp) then [] else map plainAdapterEdge (adapters bp)).

(** ** Layout *)

Section layout.
Variable localeCompare : string -> string -> Z.

(** A stable sort: an element goes before the first of the rest it is at most. *)
Fixpoint place {A : Type} (cmp : A -> A -> Z) (x : A) (l : list A) : list A :=
  match l with
  | y :: l' => if cmp x y <=? 0 then x :: l else y :: place cmp x l'
  | [] => [x]
  end.
Definition sort {A : Type} (cmp : A -> A -> Z) (l : list A) : list A := fold_right (place cmp) [] l.

Definition byId (a b : GraphNode) : Z := localeCompare (n_id a) (n_id b).
(** [a.rank - b.rank || localeCompare]. *)
Definition byRankThenId (a b : GraphNode) : Z := if rank a - rank b =? 0 then byId a b else rank a - rank b.

Definition sameRank (n m : GraphNode) : bool := rank m =? rank n.
(** [Math.round((i - (total - 1) / 2) * ROW_HEIGHT)], a whole number as the height is even. *)
Definition row (i total : Z) : Z := i * ROW_HEIGHT - (total - 1) * (ROW_HEIGHT / 2).

Definition setPosition (n : GraphNode) (p : Z * Z) : GraphNode :=
  {| n_id := n_id n; n_kind := n_kind n; label := label n; sublabel := sublabel n; rank := rank n; position := p; state := state n;
     detail := detail n |}.

(** Gives the nodes of the sorted list their positions: a node's index is the number of those of its rank before it. *)
Fixpoint lay (all before : list GraphNode) (l : list GraphNode) : list GraphNode :=
  match l with
  | n :: l' =>
      setPosition n (rank n * COL_WIDTH,
        row (Z.of_nat (length (List.filter (sameRank n) before))) (Z.of_nat (length (List.filter (sameRank n) all)))) ::
      lay all (before ++ [n]) l'
  | [] => []
  end.

(** The positions are given in the order by id; the sort that follows keeps it within a rank. *)
Definition projectGraph (bp : Blueprint) (states : gmap string NodeState) : BlueprintGraph :=
  let ns := sort byId (drawn states bp) in
  let placed := sort byRankThenId (lay ns [] ns) in
  {| g_blueprintId := blueprintId bp; g_revision := revision bp; nodes := placed;
     edges := List.filter (fun e => some (fun n => streq (n_id n) (source e)) placed && some (fun n => streq (n_id n) (e_target e)) placed)
                (wired bp) |}.

Lemma place_perm {A : Type} (cmp : A -> A -> Z) x l : place cmp x l ≡ₚ x :: l.
Proof. induction l as [|y l IH]; simpl; [done|]. destruct (cmp x y <=? 0); [done|]. rewrite IH. constructor. Qed.

Lemma sort_perm {A : Type} (cmp : A -> A -> Z) l : sort cmp l ≡ₚ l.
Proof. induction l as [|x l IH]; [done|]. cbn [sort fold_right]. by rewrite place_perm, IH. Qed.

Lemma place_sorted {A : Type} (cmp : A -> A -> Z) x l :
  (forall a b, cmp a b <= 0 \/ cmp b a <= 0) -> (forall a b c, cmp a b <= 0 -> cmp b c <= 0 -> cmp a c <= 0) ->
  StronglySorted (fun a b => cmp a b <= 0) l -> StronglySorted (fun a b => cmp a b <= 0) (place cmp x l).
Proof.
  intros Ht Htr. induction l as [|y l IH]; simpl; intros Hs; [by repeat constructor|]. apply StronglySorted_inv in Hs as [Hs Hf].
  destruct (Z.leb_spec (cmp x y) 0) as [Hle|Hgt].
  - constructor; [by constructor|]. constructor; [done|]. eapply Forall_impl; [exact Hf|]. eauto.
  - constructor; [by apply IH|]. rewrite place_perm. constructor; [|done]. destruct (Ht x y); [lia|done].
Qed.

Lemma sort_sorted {A : Type} (cmp : A -> A -> Z) l :
  (forall a b, cmp a b <= 0 \/ cmp b a <= 0) -> (forall a b c, cmp a b <= 0 -> cmp b c <= 0 -> cmp a c <= 0) ->
  StronglySorted (fun a b => cmp a b <= 0) (sort cmp l).
Proof. intros Ht Htr. induction l as [|x l IH]; [constructor|]. by apply place_sorted. Qed.

(** *** Positions *)

Lemma row_inj i j t : row i t = row j t -> i = j.
Proof. unfold row, ROW_HEIGHT. lia. Qed.

Lemma lay_ids all l : forall before, map (fun n => (n_id n, rank n)) (lay all before l) = map (fun n => (n_id n, rank n)) l.
Proof. induction l as [|n l IH]; intros before; [done|]. cbn [lay map]. by rewrite IH. Qed.

Lemma count_app (f : GraphNode -> bool) l l' : length (List.filter f (l ++ l')) = (length (List.filter f l) + length (List.filter f l'))%nat.
Proof. by rewrite List.filter_app, length_app. Qed.

(** A position of the laid out rest has a row not taken before. *)
Lemma lay_later all l : forall before m, m ∈ lay all before l ->
  position m = (rank m * COL_WIDTH, (position m).2) /\
  exists i, (length (List.filter (sameRank m) before) <= i)%nat /\
    (position m).2 = row (Z.of_nat i) (Z.of_nat (length (List.filter (sameRank m) all))).
Proof.
  induction l as [|n l IH]; intros before m Hm; [by apply not_elem_of_nil in Hm|]. cbn [lay] in Hm. apply elem_of_cons in Hm as [->|Hm].
  - cbn [position setPosition rank snd]. split; [done|]. eexists. split; [|reflexivity]. done.
  - destruct (IH _ _ Hm) as (Hp & i & Hi & He). split; [done|]. exists i. split; [|done]. rewrite count_app in Hi. lia.
Qed.

Lemma lay_distinct all l : forall before, NoDup (map position (lay all before l)).
Proof.
  induction l as [|n l IH]; intros before; [constructor|]. cbn [lay map]. apply NoDup_cons. split; [|apply IH].
  cbn [position setPosition]. intros (m & Hm & Hin)%list_elem_of_fmap.
  destruct (lay_later all l _ _ Hin) as (Hp & i & Hi & He). rewrite Hp in Hm. injection Hm as Hr Hy.
  assert (rank m = rank n) as Hrank by (unfold COL_WIDTH in Hr; lia).
  assert (sameRank m = sameRank n) as Hs by (unfold sameRank; by rewrite Hrank).
  rewrite He, Hs in Hy. apply row_inj in Hy. rewrite Hs, count_app in Hi. cbn [List.filter] in Hi.
  assert (sameRank n n = true) as Hnn by apply Z.eqb_refl. rewrite Hnn in Hi. simpl in Hi. lia.
Qed.

End layout.

Lemma StronglySorted_weaken {A : Type} (R R' : A -> A -> Prop) l : (forall a b, R a b -> R' a b) -> StronglySorted R l -> StronglySorted R' l.
Proof. intros HR. induction 1 as [|x l _ IH Hf]; constructor; [done|]. eapply Forall_impl; [exact Hf|]. apply HR. Qed.

Section laws.
Context {localeCompare : string -> string -> Z} `{!Collation localeCompare}.

Lemma byId_total a b : byId localeCompare a b <= 0 \/ byId localeCompare b a <= 0.
Proof. exact (collation_total (n_id a) (n_id b)). Qed.

Lemma byRank_total a b : byRankThenId localeCompare a b <= 0 \/ byRankThenId localeCompare b a <= 0.
Proof.
  unfold byRankThenId. pose proof (byId_total a b). destruct (Z.eqb_spec (rank a - rank b) 0), (Z.eqb_spec (rank b - rank a) 0); lia.
Qed.

Lemma byRank_trans a b c : byRankThenId localeCompare a b <= 0 -> byRankThenId localeCompare b c <= 0 -> byRankThenId localeCompare a c <= 0.
Proof.
  unfold byRankThenId, byId. pose proof (collation_trans (n_id a) (n_id b) (n_id c)).
  destruct (Z.eqb_spec (rank a - rank b) 0), (Z.eqb_spec (rank b - rank c) 0), (Z.eqb_spec (rank a - rank c) 0); lia.
Qed.

(** The picture shows every component once and none over another.  The nodes have exactly the ids and ranks of the
    components the document asks for, no two are at one position, and they are in order of rank and, within a
    rank, of id. *)
Theorem graph_layout bp states : let g := projectGraph localeCompare bp states in
  map (fun n => (n_id n, rank n)) (nodes g) ≡ₚ map (fun n => (n_id n, rank n)) (drawn states bp) /\
  NoDup (map position (nodes g)) /\
  StronglySorted (fun a b => rank a < rank b \/ rank a = rank b /\ localeCompare (n_id a) (n_id b) <= 0) (nodes g).
Proof.
  cbn [projectGraph nodes]. cbv zeta. set (ns := sort (byId localeCompare) (drawn states bp)). split_and!.
  - rewrite sort_perm, lay_ids. unfold ns. by rewrite sort_perm.
  - rewrite sort_perm. apply lay_distinct.
  - apply (StronglySorted_weaken (fun a b => byRankThenId localeCompare a b <= 0)).
    + intros a b. unfold byRankThenId, byId. destruct (Z.eqb_spec (rank a - rank b) 0); intros; [right|left]; lia.
    + apply sort_sorted; [apply byRank_total|apply byRank_trans].
Qed.

End laws.

(** ** What the edges say *)

Definition drawnId (bp : Blueprint) (states : gmap string NodeState) (i : string) : Prop := exists n, n ∈ drawn states bp /\ n_id n = i.

(** The flows of the reference architecture, by the two ends. *)
Inductive flow (bp : Blueprint) : GraphEdge -> Prop :=
| flow_fixed e : e ∈ [edge "user" "agent" control "instructs"; edge "agent" "broker" control "proposes intent";
    edge "broker" "ens" data "who is this agent"; edge "broker" "capability" authority "issues";
    edge "authreg" "executor" authority "verdict read on-chain"; edge "ens" "executor" authority "identity read live";
    edge "capability" "executor" authority "signed, one transaction"] -> flow bp e
| flow_cre e : cre_required (cre bp) = true -> e ∈ [edge "broker" "cre" control "evaluate"; edge "cre" "authreg" authority "verdict"] -> flow bp e
| flow_private : cre_required (cre bp) = true -> cp_required (confidentialPolicy bp) = true ->
    flow bp (edge "private-policy" "cre" data "private thresholds")
| flow_ctx c : cre_required (cre bp) = true -> c ∈ contextSources bp -> flow bp (ctxEdge c)
| flow_adapter b : b ∈ adapters bp -> flow bp (if cre_required (cre bp) then adapterEdge bp b else plainAdapterEdge b)
| flow_keyring : keyRingRequired (ledger bp) = true -> flow bp (edge "keyring" "broker" data "protected secret")
| flow_approval e : humanApprovalRequired (ledger bp) = true ->
    e ∈ [edge "authreg" "approval" control "ESCALATE"; edge "approval" "executor" authority "approval record"] -> flow bp e
| flow_proto p : p ∈ protocols bp -> flow bp (edge "executor" (protoNodeId p) control "exact call").

Ltac member := solve [repeat first [apply list_elem_of_here | apply list_elem_of_further]].

Lemma wired_flow bp e : e ∈ wired bp -> flow bp e.
Proof.
  unfold wired. rewrite !elem_of_app. intros H. repeat match type of H with _ \/ _ => destruct H as [H|H] end;
    repeat case_match; rewrite ?elem_of_app in H; try (by apply not_elem_of_nil in H);
    repeat match type of H with _ \/ _ => destruct H as [H|H] end;
    try (by apply not_elem_of_nil in H);
    try (apply list_elem_of_fmap in H as (x & -> & Hx));
    repeat (apply elem_of_cons in H as [->|H]); try (by apply not_elem_of_nil in H);
    first [by apply flow_fixed; member | by apply flow_cre; [|member] | by apply flow_private | by apply flow_ctx
          | by apply flow_keyring | by apply flow_approval; [|member] | by apply flow_proto | idtac].
  all: match goal with E : cre_required _ = _ |- _ => pose proof (flow_adapter bp x Hx) as Hf; rewrite E in Hf; exact Hf end.
Qed.

(** Both ends of a flow are drawn. *)
Lemma filter_all {A : Type} (f : A -> bool) l : (forall x, x ∈ l -> f x = true) -> List.filter f l = l.
Proof.
  induction l as [|x l IH]; intros H; [done|]. simpl. rewrite (H x) by left. f_equal. apply IH. intros y Hy. apply H. by right.
Qed.

Definition ids (bp : Blueprint) (states : gmap string NodeState) : list string := map n_id (drawn states bp).

Lemma ids_eq bp states : ids bp states =
  ["user"; "agent"; "broker"; "ens"] ++
  (if cre_required (cre bp) then "cre" :: (if cp_required (confidentialPolicy bp) then ["private-policy"] else []) else []) ++
  map adapterNodeId (adapters bp) ++ map ctxNodeId (contextSources bp) ++ ["authreg"] ++
  (if keyRingRequired (ledger bp) then ["keyring"] else []) ++ (if humanApprovalRequired (ledger bp) then ["approval"] else []) ++
  ["capability"; "executor"] ++ map protoNodeId (protocols bp).
Proof.
  unfold ids, drawn. rewrite !map_app, !map_map. cbn [map n_id add app]. repeat case_match; done.
Qed.

Section drawn_ids.
Variables (bp : Blueprint) (states : gmap string NodeState).

(** Finds an element in a sum of lists. *)
Ltac find_it := rewrite ?elem_of_app, ?elem_of_cons;
  first [reflexivity | eassumption | left; find_it | right; find_it].

Lemma id_fixed i : i ∈ ["user"; "agent"; "broker"; "ens"; "authreg"; "capability"; "executor"] -> i ∈ ids bp states.
Proof.
  rewrite ids_eq. intros H. repeat (apply elem_of_cons in H as [->|H]); [..|by apply not_elem_of_nil in H]; find_it.
Qed.
Lemma id_cre : cre_required (cre bp) = true -> "cre" ∈ ids bp states.
Proof. rewrite ids_eq. intros ->. find_it. Qed.
Lemma id_private : cre_required (cre bp) = true -> cp_required (confidentialPolicy bp) = true -> "private-policy" ∈ ids bp states.
Proof. rewrite ids_eq. intros -> ->. find_it. Qed.
Lemma id_adapter b : b ∈ adapters bp -> adapterNodeId b ∈ ids bp states.
Proof. rewrite ids_eq. intros H%(list_elem_of_fmap_2 adapterNodeId). find_it. Qed.
Lemma id_ctx c : c ∈ contextSources bp -> ctxNodeId c ∈ ids bp states.
Proof. rewrite ids_eq. intros H%(list_elem_of_fmap_2 ctxNodeId). find_it. Qed.
Lemma id_keyring : keyRingRequired (ledger bp) = true -> "keyring" ∈ ids bp states.
Proof. rewrite ids_eq. intros ->. find_it. Qed.
Lemma id_approval : humanApprovalRequired (ledger bp) = true -> "approval" ∈ ids bp states.
Proof. rewrite ids_eq. intros ->. find_it. Qed.
Lemma id_proto p : p ∈ protocols bp -> protoNodeId p ∈ ids bp states.
Proof. rewrite ids_eq. intros H%(list_elem_of_fmap_2 protoNodeId). find_it. Qed.

End drawn_ids.

Create HintDb drawn.
#[local] Hint Resolve id_cre id_private id_adapter id_ctx id_keyring id_approval id_proto : drawn.

Lemma flow_ends bp states e : flow bp e -> source e ∈ ids bp states /\ e_target e ∈ ids bp states.
Proof.
  intros []; unfold ctxEdge, adapterEdge, plainAdapterEdge;
    repeat match goal with H : _ ∈ _ :: _ |- _ => apply elem_of_cons in H as [->|H] | H : _ ∈ [] |- _ => by apply not_elem_of_nil in H end;
    repeat case_match; cbn [source e_target edge]; split; first [apply id_fixed; member | eauto with drawn].
Qed.

(** No wire of the architecture is left hanging.  Every edge drawn joins two nodes of the picture, so the last filter
    drops none: the edges are those the document asks for. *)
Theorem graph_closed localeCompare bp states : edges (projectGraph localeCompare bp states) = wired bp.
Proof.
  cbn [edges projectGraph]. apply filter_all. intros e He. apply wired_flow in He. destruct (flow_ends bp states e He) as [Hs Ht].
  assert (forall i, i ∈ ids bp states -> some (fun n => streq (n_id n) i)
    (sort (byRankThenId localeCompare) (lay (sort (byId localeCompare) (drawn states bp)) [] (sort (byId localeCompare) (drawn states bp)))) = true) as Hi.
  { intros i Hi. apply some_true. setoid_rewrite streq_true.
    assert (i ∈ map (fun n => (n_id n, rank n).1) (sort (byRankThenId localeCompare) (lay (sort (byId localeCompare) (drawn states bp)) []
      (sort (byId localeCompare) (drawn states bp))))) as (n & -> & Hn)%list_elem_of_fmap; [|by exists n].
    rewrite sort_perm, <- (map_map (fun n => (n_id n, rank n)) fst), lay_ids, map_map, sort_perm. exact Hi. }
  by rewrite (Hi _ Hs), (Hi _ Ht).
Qed.

(** The parts a wire of the architecture ends at, by the form of their ids. *)
Inductive Part := PFixed (s : string) | PAdapter | PCtx | PProto.
Definition partOf (i : string) : Part :=
  if starts_with "adapter-" i then PAdapter else if starts_with "ctx-" i then PCtx else if starts_with "proto-" i then PProto
  else PFixed i.

Lemma starts_with_app p s : starts_with p (p +:+ s) = true.
Proof.
  unfold starts_with. induction p as [|c p IH]; [by destruct s|]. change (String c p +:+ s) with (String c (p +:+ s)). simpl.
  by destruct (Ascii.ascii_dec c c).
Qed.

Lemma part_adapter b : partOf (adapterNodeId b) = PAdapter.
Proof. unfold partOf, adapterNodeId. by rewrite starts_with_app. Qed.
Lemma part_ctx c : partOf (ctxNodeId c) = PCtx.
Proof. unfold partOf, ctxNodeId. by rewrite starts_with_app. Qed.
Lemma part_proto p : partOf (protoNodeId p) = PProto.
Proof. unfold partOf, protoNodeId. by rewrite starts_with_app. Qed.

(** Who may be joined to whom, and by what. *)
Definition allowedFlow (s : Part) (k : EdgeKind) (t : Part) : Prop :=
  match s with
  | PFixed "user" => t = PFixed "agent" /\ k = control
  | PFixed "agent" => t = PFixed "broker" /\ k = control
  | PFixed "executor" => (t = PAdapter \/ t = PProto) /\ k = control
  | PFixed _ => True
  | PAdapter | PCtx => (t = PFixed "cre" \/ t = PFixed "broker") /\ k = data
  | PProto => False
  end /\
  match t with
  | PFixed "executor" => k = authority /\ s ∈ [PFixed "authreg"; PFixed "approval"; PFixed "ens"; PFixed "capability"]
  | PProto | PAdapter => s = PFixed "executor"
  | PFixed "authreg" => s = PFixed "cre"
  | PFixed "capability" => s = PFixed "broker"
  | _ => True
  end.

(** C24: what the picture says of authority.  The agent reaches nothing but the broker, a data source or a data adapter feeds
    only the broker or the CRE workflow and only as data, protocols and execution adapters are reached by the
    executor alone, the executor is reached by nothing but authority (the registry's verdict, an approval, the
    live identity, a capability), verdicts are written by CRE and capabilities issued by the broker. *)
Theorem graph_authority localeCompare bp states e : e ∈ edges (projectGraph localeCompare bp states) ->
  allowedFlow (partOf (source e)) (e_kind e) (partOf (e_target e)).
Proof.
  cbn [edges projectGraph]. rewrite list_elem_of_In, List.filter_In, <- list_elem_of_In. intros [He%wired_flow _].
  destruct He; unfold ctxEdge, adapterEdge, plainAdapterEdge;
    repeat match goal with H : _ ∈ _ :: _ |- _ => apply elem_of_cons in H as [->|H] | H : _ ∈ [] |- _ => by apply not_elem_of_nil in H end;
    repeat case_match; cbn [source e_target e_kind edge]; rewrite ?part_adapter, ?part_ctx, ?part_proto;
    repeat match goal with |- context [partOf (String ?c ?s)] =>
      let q := eval vm_compute in (partOf (String c s)) in change (partOf (String c s)) with q end;
    cbn [allowedFlow]; repeat split; try reflexivity; try member; auto.
Qed.

End Graph.

(** A document that may be built, and what slips through. *)
Module Samples.
Import Unknown Schema Trust Org.Validator Validator Score Graph.

Definition addr : string := "0x6ae43d3271ff6888e7fc43fd7321a503ff738951".
Definition k (s : string) : Maybe string := Known s "the user's words".
Definition cents (n : Z) : Maybe Z := Known n "the user's words".

Definition repay : Action :=
  {| a_id := "repay"; a_kind := "AAVE_REPAY"; a_displayName := "Repay debt"; a_protocolRef := "aave";
     targetPolicy := ProtocolResolved "aave" "pool"; recipientPolicy := SelfOnly; spendsAssets := ["USDC"];
     approvals := [{| assetSymbol := "USDC"; spenderRole := "pool"; unlimited := false; maxAmountPolicy := exact_action_amount |}] |}.

Definition permission (i s : string) : Permission := {| pm_id := i; statement := s; actionRef := None |}.

Definition scenario (s : string) : SimulationScenario :=
  {| scenarioId := s; s_description := "attack"; expectedVerdict := None; expectedOutcome := Schema.BLOCKED; expectedStopStage := Some IDENTITY |}.

Definition price : DataRequirement :=
  {| key := "ethPrice"; dr_kind := "PRICE"; subject := Some "ETH/USD"; dr_unit := None; dr_minimumTrustClass := VERIFIED_ORACLE; dr_maxAgeMs := 60000;
     confidential := true; historical := false; fallback := None |}.
Definition feed : AdapterBinding :=
  {| adapterId := "chainlink-feed"; adapterVersion := "1.0.0"; ab_role := VERIFIED_MARKET_DATA; configRef := "ethPrice"; rationale := "" |}.

Definition coreMod : GeneratedModule :=
  {| moduleId := "core"; m_kind := contextlock_core; m_path := "contracts/core"; templateRef := "core@1"; reusesContextLockCore := true |}.
Definition genMod (i : string) (mk : ModuleKind) (p : string) : GeneratedModule :=
  {| moduleId := i; m_kind := mk; m_path := p; templateRef := "t@1"; reusesContextLockCore := false |}.

Definition bp : Blueprint :=
  {| blueprintId := "bp-1"; revision := 1; createdAt := "2025-01-01T00:00:00.000Z";
     identity := {| agentId := "guard"; ensName := "guard.agents.eth"; id_chainId := CHAIN; agentAddress := k addr |};
     objective := "keep the position healthy";
     protocols := [{| p_id := "aave"; p_displayName := "Aave"; p_kind := lending; p_chainId := CHAIN;
                      contracts := [{| c_role := "pool"; c_address := k addr |}] |}];
     assets := [{| symbol := "USDC"; as_address := UnknownValue "looked up at deployment" DEPLOY; decimals := 6 |}];
     triggers := [{| t_id := "hf"; t_kind := threshold; t_description := "health factor"; thresholdIsConfidential := true;
                     confidentialParameterName := Some "minHf"; publicThreshold := None |}];
     actions := [repay];
     allowedPermissions := [permission "p-repay" "Repay debt from the wallet"];
     deniedPermissions := [permission "d-1" "Never withdraw collateral"; permission "d-2" "No arbitrary transfer";
                           permission "d-3" "No arbitrary token approval"];
     autonomousPolicy := {| auto_maxValueUsdCents := cents 10000; allowedActionRefs := ["repay"] |};
     escalationPolicy := {| minValueUsdCents := cents 10000; maxValueUsdCents := cents 50000; mechanism := approval_registry_standin;
                            denyIsTerminal := true |};
     perActionLimits := [{| l_actionRef := "repay"; autonomousMaxUsdCents := cents 5000; escalationMinUsdCents := cents 5000;
                            escalationMaxUsdCents := cents 50000; l_sourceQuote := "up to 50" |}];
     confidentialPolicy := {| cp_required := true; placement := cre_confidential_placement; parameterNames := ["minHf"]; reasonCodes := ["HF_LOW"] |};
     contextSources := [{| cs_id := "position"; dataKind := "POSITION"; cs_minimumTrustClass := VERIFIED_ORACLE; cs_maxAgeMs := 30000;
                           fallbackAllowed := false; cs_placement := in_cre_confidential |}];
     adapters := [feed]; dataRequirements := [price];
     capabilityPolicy := {| ttlSeconds := 120; bindings := [chainId; target; calldataHash; value; nonce; expiry] |};
     ens := {| ens_required := true; identityReadAt := "execution-time"; revocationInvalidatesOutstanding := true;
               financialPermissionsInEns := false |};
     cre := {| cre_required := true; cre_mode := official_cli_simulator; confidentialHandler := true; verdicts := [ALLOW; ESCALATE; DENY] |};
     ledger := {| keyRingRequired := true; humanApprovalRequired := true; physicalDeviceEvidence := false; blockerRef := Some "BLK-002" |};
     execution := {| ex_chainId := CHAIN; executorAddress := k addr; agentHoldsNoKey := true; agentHoldsCapabilityIssuerKey := false;
                     agentHoldsProtocolAdminKey := false |};
     simulationScenarios := map scenario BASELINE_SCENARIOS;
     generatedModules := [coreMod; genMod "ens" ens_identity "src/identity"; genMod "cre" cre_confidential_policy "cre/workflow";
                          genMod "esc" ledger_escalation "src/escalation"; genMod "feed" adapter_runtime "src/adapters/chainlink-feed"];
     securityAssertions := [{| sa_id := "SA-001"; sa_statement := "no key"; provenBy := ["STUDIO-014"] |}] |}.

Definition generated : list string :=
  ["/contracts/core/Executor.sol"; "./src/identity/ens.ts"; "cre/workflow/main.ts"; "src/escalation/index.ts"; "src/adapters/chainlink-feed/index.ts"].

Definition withActions (l : list Action) (p : list string) (b : Blueprint) : Blueprint :=
  {| blueprintId := blueprintId b; revision := revision b; createdAt := createdAt b; identity := identity b; objective := objective b;
     protocols := protocols b; assets := assets b; triggers := triggers b; actions := l; allowedPermissions := allowedPermissions b;
     deniedPermissions := deniedPermissions b;
     autonomousPolicy := {| auto_maxValueUsdCents := auto_maxValueUsdCents (autonomousPolicy b); allowedActionRefs := p |};
     escalationPolicy := escalationPolicy b; perActionLimits := perActionLimits b; confidentialPolicy := confidentialPolicy b;
     contextSources := contextSources b; adapters := adapters b; dataRequirements := dataRequirements b;
     capabilityPolicy := capabilityPolicy b; ens := ens b; cre := cre b; ledger := ledger b; execution := execution b;
     simulationScenarios := simulationScenarios b; generatedModules := generatedModules b; securityAssertions := securityAssertions b |}.

Example sample_built : validateBlueprint bp = {| Validator.ok := true; Validator.buildable := true; Validator.issues := []; unknowns := [] |} /\
  validateBlueprintArtifacts bp generated = [].
Proof. vm_compute. done. Qed.

(** Two actions with one id: what may run alone is looked up by id, and only the first is looked at. *)
Definition payOut : Action :=
  {| a_id := "repay"; a_kind := "TOKEN_TRANSFER"; a_displayName := "Transfer out"; a_protocolRef := "aave";
     targetPolicy := ProtocolResolved "aave" "pool"; recipientPolicy := RecipientAllowlist [k addr]; spendsAssets := ["USDC"]; approvals := [] |}.

Example shadowed_action_autonomous : Validator.buildable (validateBlueprint (withActions [repay; payOut] ["repay"] bp)) = true /\
  movesValueOut payOut = true /\ Validator.buildable (validateBlueprint (withActions [payOut; repay] ["repay"] bp)) = false.
Proof. vm_compute. done. Qed.

(** Of two core modules only the first is looked at. *)
Definition rewritten : GeneratedModule :=
  {| moduleId := "core-two"; m_kind := contextlock_core; m_path := "contracts/core"; templateRef := "t@1"; reusesContextLockCore := false |}.
Definition withModules (l : list GeneratedModule) (b : Blueprint) : Blueprint :=
  {| blueprintId := blueprintId b; revision := revision b; createdAt := createdAt b; identity := identity b; objective := objective b;
     protocols := protocols b; assets := assets b; triggers := triggers b; actions := actions b; allowedPermissions := allowedPermissions b;
     deniedPermissions := deniedPermissions b; autonomousPolicy := autonomousPolicy b;
     escalationPolicy := escalationPolicy b; perActionLimits := perActionLimits b; confidentialPolicy := confidentialPolicy b;
     contextSources := contextSources b; adapters := adapters b; dataRequirements := dataRequirements b;
     capabilityPolicy := capabilityPolicy b; ens := ens b; cre := cre b; ledger := ledger b; execution := execution b;
     simulationScenarios := simulationScenarios b; generatedModules := l; securityAssertions := securityAssertions b |}.

Example second_core_unchecked :
  Validator.buildable (validateBlueprint (withModules [coreMod; rewritten] bp)) = true /\
  Validator.buildable (validateBlueprint (withModules [rewritten; coreMod] bp)) = false.
Proof. vm_compute. done. Qed.

(** A denial worded "no token allowances" does not say "approval", and one that says "do not approve swaps" forbids
    every approval. *)
Example approval_denial_by_words :
  deniesApproval (permission "d" "Never grant a token allowance") = false /\
  deniesApproval (permission "d" "Do not approve governance votes") = true /\
  deniesApproval (permission "d" "No arbitrary token approval") = false.
Proof. vm_compute. done. Qed.

(** What the schema closes, at a document with issues. *)
Lemma schema_closes_literals_witness :
  issue "BP-020" HIGH "autonomousPolicy.allowedActionRefs.repay" ∈ Validator.issues (validateBlueprint (withActions [payOut; repay] ["repay"] bp)) /\
  code (issue "BP-020" HIGH "autonomousPolicy.allowedActionRefs.repay") ∉
    ["BP-SCHEMA"; "BP-NETWORK"; "BP-004"; "BP-005"; "BP-006"; "BP-011"; "BP-016"; "BP-017"; "BP-024"; "BP-031"].
Proof.
  assert (issue "BP-020" HIGH "autonomousPolicy.allowedActionRefs.repay" ∈ Validator.issues (validateBlueprint (withActions [payOut; repay] ["repay"] bp))) as Hi
    by (vm_compute; repeat first [apply list_elem_of_here | apply list_elem_of_further]).
  split; [exact Hi|]. apply (schema_closes_literals (withActions [payOut; repay] ["repay"] bp) _ Hi). vm_compute. reflexivity.
Defined.

Definition evidence (tests scenarios : list string) : ScoreEvidence :=
  {| passedTests := tests; passedScenarios := scenarios; ev_issues := [] |}.

Lemma score_is_demonstrated_witness :
  0 <= total (computeSecurityScore bp (evidence [] [])) <= 97 /\
  (@nil string = [] -> band (computeSecurityScore bp (evidence [] [])) = WEAK \/ band (computeSecurityScore bp (evidence [] [])) = UNSAFE) /\
  (@nil string = [] -> band (computeSecurityScore bp (evidence [] [])) <> STRONG).
Proof. apply (score_is_demonstrated bp (evidence [] [])). vm_compute. reflexivity. Defined.

Lemma score_monotone_witness :
  total (computeSecurityScore bp (evidence [] [])) <= total (computeSecurityScore bp (evidence ["STUDIO-014"] ["REPLAY"])) /\
  strength (band (computeSecurityScore bp (evidence [] []))) <= strength (band (computeSecurityScore bp (evidence ["STUDIO-014"] ["REPLAY"]))) /\
  (band (computeSecurityScore bp (evidence [] [])) = UNSAFE <-> exists i, i ∈ ev_issues (evidence [] []) /\ severity i = CRITICAL).
Proof.
  apply (score_monotone bp (evidence [] []) (evidence ["STUDIO-014"] ["REPLAY"])); [intros x Hx; by apply not_elem_of_nil in Hx|simpl; lia
    |intros x Hx; by apply not_elem_of_nil in Hx|reflexivity].
Defined.

(** The score of the document with nothing demonstrated, and with everything. *)
Example sample_scores :
  total (computeSecurityScore bp (evidence [] [])) = 38 /\ band (computeSecurityScore bp (evidence [] [])) = WEAK /\
  total (computeSecurityScore bp (evidence (["STUDIO-014"; "STUDIO-013"; "STUDIO-021"; "STUDIO-006"; "STUDIO-022"] ++ map (fun n => "STUDIO-1" +:+ pretty n) (seq 10 20))
    (BASELINE_SCENARIOS ++ AAVE_SCENARIOS ++ PRIVATE_CONTEXT_SCENARIOS))) = 97.
Proof. vm_compute. done. Qed.

Example sample_graph : let g := projectGraph codeUnitCompare bp ∅ in
  map (fun n => (n_id n, position n)) (nodes g) =
    [("user", (0, 0)); ("agent", (260, 0)); ("broker", (520, 0)); ("adapter-chainlink-feed-ethPrice", (780, -195)); ("cre", (780, -65));
     ("ctx-position", (780, 65)); ("ens", (780, 195)); ("keyring", (1040, -65)); ("private-policy", (1040, 65)); ("approval", (1300, -65));
     ("authreg", (1300, 65)); ("capability", (1560, 0)); ("executor", (1820, 0)); ("proto-aave", (2080, 0))] /\
  length (edges g) = 16%nat.
Proof. vm_compute. done. Qed.

Lemma graph_layout_witness : let g := projectGraph codeUnitCompare bp ∅ in
  map (fun n => (n_id n, rank n)) (nodes g) ≡ₚ map (fun n => (n_id n, rank n)) (drawn ∅ bp) /\
  NoDup (map position (nodes g)) /\
  StronglySorted (fun a b => rank a < rank b \/ rank a = rank b /\ codeUnitCompare (n_id a) (n_id b) <= 0) (nodes g).
Proof. exact (graph_layout bp ∅). Defined.

Lemma graph_authority_witness :
  edge "capability" "executor" authority "signed, one transaction" ∈ edges (projectGraph codeUnitCompare bp ∅) /\
  allowedFlow (PFixed "capability") authority (PFixed "executor").
Proof.
  assert (edge "capability" "executor" authority "signed, one transaction" ∈ edges (projectGraph codeUnitCompare bp ∅)) as He
    by (vm_compute; repeat first [apply list_elem_of_here | apply list_elem_of_further]).
  split; [exact He|]. exact (graph_authority codeUnitCompare bp ∅ _ He).
Defined.

End Samples.
