(* ===== verification/Simulation.v ===== *)
(** * The simulation engine

    [packages/studio-simulation/src/engine.ts]: the fixtures and built-in scenarios (Module [Fixtures]), the engine
    that takes a scenario through the six stages and checks its assertions (Module [Engine]), with the
    scenarios an adapter contributes.  Decisions are [Policy.evaluatePolicy], documents [Blueprint].

    The texts of details and statements are not modelled.  The hash of the fixtures is computed on bytes, which
    are the code units of the ASCII texts it is computed on. *)

From S2P Require Import Prelude JsNum Json Adapters Blueprint Workflow Policy.
From stdpp Require Import pretty.
Local Open Scope Z_scope.

Module Fixtures.
Import Blueprint.Schema Policy.

Definition STAGE_ORDER : list Stage := [IDENTITY; POLICY; CRE; APPROVAL; CAPABILITY; EXECUTION_STAGE].

Definition SIM_NOW : Z := 1760000000.

Fixpoint repeatText (n : nat) (s : string) : string := match n with O => EmptyString | S n' => s +:+ repeatText n' s end.
Definition AGENT_IDENTITY : string := "0x" +:+ repeatText 32 "a1".
Definition POOL : string := "0x00000000000000000000000000000000000000aa".
Definition HOSTILE : string := "0x000000000000000000000000000000000000dead".
Definition SELF : string := "0x0000000000000000000000000000000000005e1f".

Definition SIM_PRIVATE_POLICY : PrivatePolicy :=
  {| policyId := "contextlock-aave-guardian-v1"; policyVersion := jint 1; enabled := true; autoLimit := 1000000000;
     escalationLimit := 5000000000; maxSlippageBps := jint 50; maxVolatilityBps := jint 600; minLiquidity := 1000000000000;
     targetEthAllocationBps := jint 5000; rebalanceDriftBps := jint 500; minHealthFactorBps := jint 16000;
     targetHealthFactorBps := jint 18000; proprietaryRiskThreshold := jint 120; canary := "CTXLOCK_SIM_CANARY_DO_NOT_EXPORT";
     allowedActionKinds := ["AAVE_REPAY"; "AAVE_SUPPLY"]; allowedTargets := [POOL]; authorizedAgentIdentityHashes := [AGENT_IDENTITY] |}.

Definition baseRequest : EvaluationRequest :=
  {| requestHash := "0x" +:+ repeatText 32 "11"; agentIdentityHash := AGENT_IDENTITY; ensNode := "0x" +:+ repeatText 32 "22";
     agent := "0x00000000000000000000000000000000000a6e17"; Policy.chainId := jint 11155111; Policy.target := POOL; Policy.value := 0;
     Policy.calldataHash := "0x" +:+ repeatText 32 "33"; selector := "0x573ade81"; decodedRecipient := SELF; decodedAmount := 500000000;
     intentHash := "0x" +:+ repeatText 32 "44"; req_policyId := policyId SIM_PRIVATE_POLICY; req_policyVersion := jint 1;
     actionKind := "AAVE_REPAY" |}.

Definition benignContext : MarketContext :=
  {| observedAtUnix := jint (SIM_NOW - 5); slippageBps := jint 12; volatilityBps := jint 150; liquidity := 9000000000000;
     healthFactorBps := jint 18000 |}.

(** ** Scenario setup *)

Record World := {
  identityCurrent : bool; rpcAvailable : bool; policyEnabledAtExecution : bool; nonceAlreadyUsed : bool;
  submittedAmount : option Z; submittedRecipient : option string; submittedTarget : option string; approvalRecorded : bool
}.
Record ScenarioSetup := { request : EvaluationRequest; context : MarketContext; policy : PrivatePolicy; world : World }.

Definition defaultWorld : World :=
  {| identityCurrent := true; rpcAvailable := true; policyEnabledAtExecution := true; nonceAlreadyUsed := false;
     submittedAmount := None; submittedRecipient := None; submittedTarget := None; approvalRecorded := false |}.

(** [{ ...baseRequest(), actionKind }], and the two overrides of the request. *)
Definition requestFor (k r : string) (amount : Z) : EvaluationRequest :=
  {| requestHash := requestHash baseRequest; agentIdentityHash := agentIdentityHash baseRequest; ensNode := ensNode baseRequest;
     agent := agent baseRequest; Policy.chainId := Policy.chainId baseRequest; Policy.target := Policy.target baseRequest;
     Policy.value := Policy.value baseRequest; Policy.calldataHash := Policy.calldataHash baseRequest; selector := selector baseRequest;
     decodedRecipient := r; decodedAmount := amount; intentHash := intentHash baseRequest; req_policyId := req_policyId baseRequest;
     req_policyVersion := req_policyVersion baseRequest; actionKind := k |}.
Definition requestOf (k : string) : EvaluationRequest := requestFor k (decodedRecipient baseRequest) (decodedAmount baseRequest).

Definition policyFor (k : string) : PrivatePolicy :=
  let p := SIM_PRIVATE_POLICY in
  {| policyId := policyId p; policyVersion := policyVersion p; enabled := enabled p; autoLimit := autoLimit p;
     escalationLimit := escalationLimit p; maxSlippageBps := maxSlippageBps p; maxVolatilityBps := maxVolatilityBps p;
     minLiquidity := minLiquidity p; targetEthAllocationBps := targetEthAllocationBps p; rebalanceDriftBps := rebalanceDriftBps p;
     minHealthFactorBps := minHealthFactorBps p; targetHealthFactorBps := targetHealthFactorBps p;
     proprietaryRiskThreshold := proprietaryRiskThreshold p; canary := canary p;
     allowedActionKinds := [k; "AAVE_REPAY"; "AAVE_SUPPLY"]; allowedTargets := allowedTargets p;
     authorizedAgentIdentityHashes := authorizedAgentIdentityHashes p |}.

Definition contextWith (at_ slip vol liq : Z) : MarketContext :=
  {| observedAtUnix := jint at_; slippageBps := jint slip; volatilityBps := jint vol; liquidity := liq; healthFactorBps := healthFactorBps benignContext |}.

Definition worldWith (idc rpc pol used : bool) (amount : option Z) (recipient target : option string) : World :=
  {| identityCurrent := idc; rpcAvailable := rpc; policyEnabledAtExecution := pol; nonceAlreadyUsed := used; submittedAmount := amount;
     submittedRecipient := recipient; submittedTarget := target; approvalRecorded := approvalRecorded defaultWorld |}.

Definition BUILT_IN : list string := BASELINE_SCENARIOS ++ AAVE_SCENARIOS ++ PRIVATE_CONTEXT_SCENARIOS.
Definition isBuiltInScenario (i : string) : bool := includes BUILT_IN i.

(** [None] is the throw for an id that is not built in. *)
Definition buildScenario (i k : string) : option ScenarioSetup :=
  let mk r c w := Some {| request := r; context := c; policy := policyFor k; world := w |} in
  let r := requestOf k in let c := benignContext in let w := defaultWorld in
  if streq i "NORMAL" || streq i "HEALTH_FACTOR_DROP" then mk r c w
  else if streq i "PROMPT_INJECTION" then mk (requestFor "AAVE_WITHDRAW" HOSTILE 5000000000) c w
  else if streq i "AMOUNT_MUTATION" then mk r c (worldWith true true true false (Some 4900000000) None None)
  else if streq i "RECIPIENT_MUTATION" then mk r c (worldWith true true true false None (Some HOSTILE) None)
  else if streq i "TARGET_MUTATION" then mk r c (worldWith true true true false None None (Some HOSTILE))
  else if streq i "REPLAY" then mk r c (worldWith true true true true None None None)
  else if streq i "ENS_REVOCATION" then mk r c (worldWith false true true false None None None)
  else if streq i "STALE_CONTEXT" then mk r (contextWith (SIM_NOW - 600) 12 150 9000000000000) w
  else if streq i "POLICY_CHANGE" then mk r c (worldWith true true false false None None None)
  else if streq i "RPC_FAILURE" then mk r c (worldWith true false true false None None None)
  else if streq i "FLASH_CRASH" then mk r (contextWith (SIM_NOW - 5) 12 5000 9000000000000) w
  else if streq i "COLLATERAL_RECOVERY" then mk r (contextWith (SIM_NOW - 5) 12 150 1) w
  else if streq i "REPAY_ABOVE_AUTO_LIMIT" then mk (requestFor k (decodedRecipient baseRequest) 3000000000) c w
  else if streq i "PRIVATE_CONTEXT_ALLOW" then mk r c w
  else if streq i "PRIVATE_CONTEXT_ESCALATE" then mk r (contextWith (SIM_NOW - 5) 12 5000 9000000000000) w
  else if streq i "PRIVATE_CONTEXT_DENY" then mk r (contextWith (SIM_NOW - 5) 900 150 9000000000000) w
  else None.

(** [approvalOverride !== undefined] sets the world of the setup. *)
Definition overridden (o : option bool) (s : ScenarioSetup) : ScenarioSetup :=
  match o with
  | None => s
  | Some b =>
      let w := world s in
      {| request := request s; context := context s; policy := policy s;
         world := {| identityCurrent := identityCurrent w; rpcAvailable := rpcAvailable w; policyEnabledAtExecution := policyEnabledAtExecution w;
                     nonceAlreadyUsed := nonceAlreadyUsed w; submittedAmount := submittedAmount w; submittedRecipient := submittedRecipient w;
                     submittedTarget := submittedTarget w; approvalRecorded := b |} |}
  end.

(** ** Stable hashing *)

Section hash.
Variable localeCompare : string -> string -> Z.

Fixpoint canon (v : jsv) : json :=
  match v with
  | VNull | VUndef => JNull
  | VBool b => JBool b
  | VNum n => JNum n
  | VBig n => JStr (pretty n +:+ "n")
  | VStr s => JStr s
  | VArr l => JArr (map canon l)
  | VObj l => JObj (Graph.sort (fun p q => localeCompare p.1 q.1) (map (fun '(k, x) => (k, canon x)) l))
  end.

Definition stableHash (v : jsv) : string := "0x" +:+ Adapters.Observation.hexPad 8 (Adapters.Observation.fnv 0x811c9dc5 (stringify (canon v))).

(** The numbers of the fixtures are whole. *)
Definition numValue (n : jsnum) : jsv := match n with Fin q => VNum (Qfloor q) | _ => VNull end.

Definition requestValue (r : EvaluationRequest) : jsv :=
  VObj [("requestHash", VStr (requestHash r)); ("agentIdentityHash", VStr (agentIdentityHash r)); ("ensNode", VStr (ensNode r));
        ("agent", VStr (agent r)); ("chainId", numValue (Policy.chainId r)); ("target", VStr (Policy.target r)); ("value", VBig (Policy.value r));
        ("calldataHash", VStr (Policy.calldataHash r)); ("selector", VStr (selector r)); ("decodedRecipient", VStr (decodedRecipient r));
        ("decodedAmount", VBig (decodedAmount r)); ("intentHash", VStr (intentHash r)); ("policyId", VStr (req_policyId r));
        ("policyVersion", numValue (req_policyVersion r)); ("actionKind", VStr (actionKind r))].
Definition contextValue (c : MarketContext) : jsv :=
  VObj [("observedAtUnix", numValue (observedAtUnix c)); ("slippageBps", numValue (slippageBps c)); ("volatilityBps", numValue (volatilityBps c));
        ("liquidity", VBig (liquidity c)); ("healthFactorBps", numValue (healthFactorBps c))].
Definition worldValue (w : World) : jsv :=
  VObj ([("identityCurrent", VBool (identityCurrent w)); ("rpcAvailable", VBool (rpcAvailable w));
         ("policyEnabledAtExecution", VBool (policyEnabledAtExecution w)); ("nonceAlreadyUsed", VBool (nonceAlreadyUsed w));
         ("approvalRecorded", VBool (approvalRecorded w))] ++
        optProp "submittedAmount" VBig (submittedAmount w) ++ optProp "submittedRecipient" VStr (submittedRecipient w) ++
        optProp "submittedTarget" VStr (submittedTarget w)).

Definition fixtureHashOf (s : ScenarioSetup) : string :=
  stableHash (VObj [("request", requestValue (request s)); ("context", contextValue (context s)); ("world", worldValue (world s))]).

End hash.
End Fixtures.

Module Engine.
Import Blueprint.Unknown Blueprint.Schema Fixtures Policy.

Inductive Status := PASS | STOP | SKIPPED.
#[export] Instance Status_eq_dec : EqDecision Status.
Proof. solve_decision. Defined.
Record StageResult := { stage : Stage; status : Status; reason : option string }.
Record SimulationAssertion := { as_id : string; held : bool }.
(** A verdict is [None] for "NO_VERDICT", a stage [None] for "NONE". *)
Record SimulationResult := {
  r_scenarioId : string; blueprintRevision : Z; buildRevision : Z; r_verdict : option Verdict; r_reasonCode : string;
  r_outcome : Outcome; stoppedAt : option Stage; stages : list StageResult; assertions : list SimulationAssertion; passed : bool;
  fixtureHash : string; timeline : list (Z * string)
}.

(** ** The six stages *)

(** The local variables of a run. *)
Record Run := {
  stages_ : list StageResult; timeline_ : list (Z * string); verdict_ : option Verdict; reasonCode_ : string; stopped_ : option Stage;
  outcome_ : Outcome
}.
Definition newRun : Run :=
  {| stages_ := []; timeline_ := []; verdict_ := None; reasonCode_ := "NONE"; stopped_ := None; outcome_ := BLOCKED |}.

Definition tick (l : string) (r : Run) : Run :=
  {| stages_ := stages_ r; timeline_ := timeline_ r ++ [(Z.of_nat (length (timeline_ r)) + 1, l)]; verdict_ := verdict_ r;
     reasonCode_ := reasonCode_ r; stopped_ := stopped_ r; outcome_ := outcome_ r |}.
Definition push (s : Stage) (st : Status) (r : Run) : Run :=
  {| stages_ := stages_ r ++ [{| stage := s; status := st; reason := None |}]; timeline_ := timeline_ r; verdict_ := verdict_ r;
     reasonCode_ := reasonCode_ r; stopped_ := stopped_ r; outcome_ := outcome_ r |}.
Definition rule (v : Verdict) (c : string) (r : Run) : Run :=
  {| stages_ := stages_ r; timeline_ := timeline_ r; verdict_ := Some v; reasonCode_ := c; stopped_ := stopped_ r; outcome_ := outcome_ r |}.
Definition conclude (o : Outcome) (r : Run) : Run :=
  {| stages_ := stages_ r; timeline_ := timeline_ r; verdict_ := verdict_ r; reasonCode_ := reasonCode_ r; stopped_ := stopped_ r; outcome_ := o |}.

(** [STAGE_ORDER.slice(STAGE_ORDER.indexOf(stage) + 1)]. *)
Fixpoint after (s : Stage) (l : list Stage) : list Stage :=
  match l with [] => [] | x :: l' => if bool_decide (x = s) then l' else after s l' end.
Definition skipped (l : list Stage) : list StageResult := map (fun s => {| stage := s; status := SKIPPED; reason := None |}) l.

Definition stop (s : Stage) (why : string) (r : Run) : Run :=
  {| stages_ := stages_ r ++ [{| stage := s; status := STOP; reason := Some why |}] ++ skipped (after s STAGE_ORDER);
     timeline_ := timeline_ r; verdict_ := verdict_ r; reasonCode_ := reasonCode_ r; stopped_ := Some s; outcome_ := outcome_ r |}.

(** [if (stoppedAt === "NONE")]. *)
Definition unlessStopped (f : Run -> Run) (r : Run) : Run := match stopped_ r with None => f r | Some _ => r end.

Definition identityStage (s : ScenarioSetup) (r : Run) : Run :=
  if negb (rpcAvailable (world s)) then tick "identity unavailable → refuse" (stop IDENTITY "IdentityUnavailable" r)
  else if negb (identityCurrent (world s)) then
    tick "ENS identity changed → outstanding capability dies" (stop IDENTITY "IdentityNotCurrent" r)
  else tick "ENS identity verified live" (push IDENTITY PASS r).

Definition declaredKinds (bp : Blueprint) : list string := map a_kind (actions bp).

Definition policyStage (bp : Blueprint) (s : ScenarioSetup) (r : Run) : Run :=
  let k := actionKind (request s) in
  if negb (includes (declaredKinds bp) k) then
    tick ("forbidden action " +:+ k +:+ " → DENY") (stop POLICY "ActionNotPermitted"
      (rule DENY (Workflow.Handler.reasonText DENY_ACTION_NOT_ALLOWED) r))
  else if negb (policyEnabledAtExecution (world s)) then
    tick "policy disabled → refuse" (stop POLICY "PolicyDisabled" (rule DENY (Workflow.Handler.reasonText DENY_POLICY_DISABLED) r))
  else tick "action is structurally permitted" (push POLICY PASS r).

Definition creStage (s : ScenarioSetup) (r : Run) : Run :=
  let d := evaluatePolicy (request s) (policy s) (context s) (jint SIM_NOW) in
  let r := tick ("confidential evaluation → " +:+ Workflow.Handler.verdictText (verdict d))
             (rule (verdict d) (Workflow.Handler.reasonText (reasonCode d)) r) in
  match verdict d with
  | DENY => stop CRE "AuthorizationNotAllow" r
  | _ => push CRE PASS r
  end.

Definition approvalStage (s : ScenarioSetup) (r : Run) : Run :=
  match verdict_ r with
  | Some ESCALATE =>
      if negb (approvalRecorded (world s)) then
        tick "escalation requires a human → held" (conclude APPROVAL_REQUIRED (stop APPROVAL "HumanApprovalRequired" r))
      else tick "human approved the specific transaction" (push APPROVAL PASS r)
  | _ => push APPROVAL SKIPPED r
  end.

Definition capabilityStage (r : Run) : Run := tick "capability minted for exactly this transaction" (push CAPABILITY PASS r).

(** [w.submitted && w.submitted !== signed]: an empty text is not a submission. *)
Definition mutatedText (o : option string) (signed : string) : bool :=
  match o with Some t => negb (streq t "") && negb (streq t signed) | None => false end.
Definition mutatedAmount (o : option Z) (signed : Z) : bool := match o with Some a => negb (a =? signed) | None => false end.

Definition executionStage (s : ScenarioSetup) (r : Run) : Run :=
  let w := world s in
  if nonceAlreadyUsed w then tick "replay rejected" (stop EXECUTION_STAGE "NonceUsed" r)
  else if mutatedAmount (submittedAmount w) (decodedAmount (request s)) then
    tick "mutated amount rejected" (stop EXECUTION_STAGE "CalldataHashMismatch" r)
  else if mutatedText (submittedRecipient w) (decodedRecipient (request s)) then
    tick "mutated recipient rejected" (stop EXECUTION_STAGE "CalldataHashMismatch" r)
  else if mutatedText (submittedTarget w) (Policy.target (request s)) then
    tick "mutated target rejected" (stop EXECUTION_STAGE "TargetMismatch" r)
  else tick "executed" (conclude EXECUTED (push EXECUTION_STAGE PASS r)).

(** [if (stoppedAt !== "NONE" && outcome !== "APPROVAL_REQUIRED") outcome = "BLOCKED"]. *)
Definition settle (r : Run) : Run :=
  match stopped_ r with
  | Some _ => if bool_decide (outcome_ r = APPROVAL_REQUIRED) then r else conclude BLOCKED r
  | None => r
  end.

Definition runStages (bp : Blueprint) (s : ScenarioSetup) : Run :=
  let r := identityStage s (tick "agent proposes an intent" newRun) in
  let r := unlessStopped (policyStage bp s) r in
  let r := unlessStopped (creStage s) r in
  let r := unlessStopped (approvalStage s) r in
  let r := unlessStopped capabilityStage r in
  settle (unlessStopped (executionStage s) r).

(** ** Assertions *)

Definition expectedOf (bp : Blueprint) (i : string) : option SimulationScenario :=
  List.find (fun s => streq (scenarioId s) i) (simulationScenarios bp).

Definition declaredAssertions (e : option SimulationScenario) (r : Run) : list SimulationAssertion :=
  match e with
  | Some e =>
      [{| as_id := "A1"; held := bool_decide (verdict_ r = expectedVerdict e) |};
       {| as_id := "A2"; held := bool_decide (outcome_ r = expectedOutcome e) |};
       {| as_id := "A3"; held := bool_decide (stopped_ r = expectedStopStage e) |}]
  | None => [{| as_id := "A0"; held := false |}]
  end.

Definition gated (g : StageResult) : bool :=
  (bool_decide (stage g = APPROVAL) || bool_decide (stage g = EXECUTION_STAGE)) && bool_decide (status g = PASS).
Definition denyAssertion (r : Run) : SimulationAssertion :=
  {| as_id := "A4"; held := negb (bool_decide (verdict_ r = Some DENY) && some gated (stages_ r)) |}.

(** What the run with an approval on record shows. *)
Definition approvalAssertions (r approved : Run) : list SimulationAssertion :=
  [{| as_id := "A5"; held := bool_decide (outcome_ approved = EXECUTED) && bool_decide (stopped_ approved = None) |};
   {| as_id := "A6"; held := bool_decide (verdict_ approved = verdict_ r) |}].

Definition primaryKind (bp : Blueprint) : string := match actions bp with a :: _ => a_kind a | [] => "AAVE_REPAY" end.

(** ** Adapter scenarios *)

Record AdapterScenarioFixture := {
  fx_scenarioId : string; description : string; accepted : bool; fx_reasonCode : string; fx_stoppedAt : option Stage
}.

Section engine.
Variable localeCompare : string -> string -> Z.

(** The assertions of a built-in scenario: the escalated ones are run once more, with the approval on record. *)
Definition builtInAssertions (bp : Blueprint) (i : string) (s : ScenarioSetup) (o : option bool) (r : Run) : list SimulationAssertion :=
  declaredAssertions (expectedOf bp i) r ++
  (if bool_decide (verdict_ r = Some ESCALATE) && bool_decide (o = None) then approvalAssertions r (runStages bp (overridden (Some true) s)) else []) ++
  [denyAssertion r].

Definition runBuiltIn (bp : Blueprint) (i : string) (rev : Z) (o : option bool) (s0 : ScenarioSetup) : SimulationResult :=
  let s := overridden o s0 in
  let r := runStages bp s in
  let a := builtInAssertions bp i s0 o r in
  {| r_scenarioId := i; blueprintRevision := revision bp; buildRevision := rev; r_verdict := verdict_ r; r_reasonCode := reasonCode_ r;
     r_outcome := outcome_ r; stoppedAt := stopped_ r; stages := stages_ r; assertions := a; passed := every held a;
     fixtureHash := fixtureHashOf localeCompare s; timeline := timeline_ r |}.

Definition stageText (s : Stage) : string :=
  match s with
  | IDENTITY => "IDENTITY" | POLICY => "POLICY" | CRE => "CRE" | APPROVAL => "APPROVAL" | CAPABILITY => "CAPABILITY" | EXECUTION_STAGE => "EXECUTION"
  end.
Definition fixtureValue (f : AdapterScenarioFixture) : jsv :=
  VObj ([("scenarioId", VStr (fx_scenarioId f)); ("description", VStr (description f));
         ("outcome", VStr (if accepted f then "ACCEPTED" else "REJECTED")); ("reasonCode", VStr (fx_reasonCode f))] ++
        optProp "stoppedAt" (fun s => VStr (stageText s)) (fx_stoppedAt f)).

Definition indexOf (s : Stage) : nat :=
  match s with IDENTITY => 0 | POLICY => 1 | CRE => 2 | APPROVAL => 3 | CAPABILITY => 4 | EXECUTION_STAGE => 5 end.

Definition adapterStages (f : AdapterScenarioFixture) (at_ : Stage) : list StageResult :=
  map (fun s =>
    if accepted f then {| stage := s; status := PASS; reason := None |}
    else if (indexOf s <? indexOf at_)%nat then {| stage := s; status := PASS; reason := None |}
    else if (indexOf s =? indexOf at_)%nat then {| stage := s; status := STOP; reason := Some (fx_reasonCode f) |}
    else {| stage := s; status := SKIPPED; reason := None |}) STAGE_ORDER.

Definition adapterAssertions (bp : Blueprint) (i : string) (o : Outcome) (at_ : option Stage) : list SimulationAssertion :=
  match expectedOf bp i with
  | Some e => [{| as_id := "A1"; held := bool_decide (o = expectedOutcome e) |}; {| as_id := "A2"; held := bool_decide (at_ = expectedStopStage e) |}]
  | None => [{| as_id := "A0"; held := false |}]
  end.

Definition runAdapterScenario (bp : Blueprint) (i : string) (rev : Z) (fixtures : gmap string AdapterScenarioFixture) : SimulationResult :=
  match fixtures !! i with
  | None =>
      {| r_scenarioId := i; blueprintRevision := revision bp; buildRevision := rev; r_verdict := None; r_reasonCode := "SCENARIO_UNRUNNABLE";
         r_outcome := BLOCKED; stoppedAt := Some POLICY; stages := skipped STAGE_ORDER; assertions := [{| as_id := "A0"; held := false |}];
         passed := false; fixtureHash := "0x00000000"; timeline := [(1, i +:+ " could not be run")] |}
  | Some f =>
      let at_ := match fx_stoppedAt f with Some s => s | None => EXECUTION_STAGE end in
      let o := if accepted f then EXECUTED else BLOCKED in
      let stopped := if accepted f then None else Some at_ in
      let a := adapterAssertions bp i o stopped in
      {| r_scenarioId := i; blueprintRevision := revision bp; buildRevision := rev; r_verdict := None; r_reasonCode := fx_reasonCode f;
         r_outcome := o; stoppedAt := stopped; stages := adapterStages f at_; assertions := a; passed := every held a;
         fixtureHash := stableHash localeCompare (fixtureValue f);
         timeline := [(1, description f);
                      (2, if accepted f then "adapter validation accepted the action" else "adapter validation refused: " +:+ fx_reasonCode f)] |}
  end.

(** [buildScenario] has a setup for every built-in id ([built_in_setup]). *)
Definition runScenario (bp : Blueprint) (i : string) (rev : Z) (o : option bool) (fixtures : gmap string AdapterScenarioFixture) : SimulationResult :=
  match (if isBuiltInScenario i then buildScenario i (primaryKind bp) else None) with
  | Some s => runBuiltIn bp i rev o s
  | None => runAdapterScenario bp i rev fixtures
  end.

Definition runAllScenarios (bp : Blueprint) (rev : Z) (fixtures : gmap string AdapterScenarioFixture) : list SimulationResult :=
  map (fun s => runScenario bp (scenarioId s) rev None fixtures) (simulationScenarios bp).

End engine.

(** ** What a run is *)

Lemma built_in_setup i k : isBuiltInScenario i = true <-> is_Some (buildScenario i k).
Proof.
  unfold isBuiltInScenario. rewrite includes_true. split.
  - unfold BUILT_IN, BASELINE_SCENARIOS, AAVE_SCENARIOS, PRIVATE_CONTEXT_SCENARIOS. cbn [app]. intros H.
    repeat (apply elem_of_cons in H as [->|H]; [eexists; reflexivity|]). by apply not_elem_of_nil in H.
  - unfold buildScenario. cbv zeta. intros H.
    repeat match type of H with is_Some (if ?c then _ else _) =>
      let E := fresh in destruct c eqn:E;
        [clear H; rewrite ?orb_true_iff, ?streq_true in E; try destruct E as [E|E]; rewrite E;
         unfold BUILT_IN, BASELINE_SCENARIOS, AAVE_SCENARIOS, PRIVATE_CONTEXT_SCENARIOS; cbn [app];
         solve [repeat first [apply list_elem_of_here | apply list_elem_of_further]]|clear E] end.
    by destruct H.
Qed.

(** The status of a stage of a run that stopped at [t]. *)
Definition shapeAt (v : option Verdict) (t : option Stage) (s : Stage) : Status :=
  let open := if bool_decide (s = APPROVAL) && negb (bool_decide (v = Some ESCALATE)) then SKIPPED else PASS in
  match t with
  | None => open
  | Some t => if (indexOf s <? indexOf t)%nat then open else if (indexOf s =? indexOf t)%nat then STOP else SKIPPED
  end.
Definition shape (v : option Verdict) (t : option Stage) : list (Stage * Status) := map (fun s => (s, shapeAt v t s)) STAGE_ORDER.

(** What lets the transaction through each stage. *)
Definition identityHolds (w : World) : bool := rpcAvailable w && identityCurrent w.
Definition permits (bp : Blueprint) (s : ScenarioSetup) : bool := includes (declaredKinds bp) (actionKind (request s)) && policyEnabledAtExecution (world s).
Definition decided (s : ScenarioSetup) : Verdict := verdict (evaluatePolicy (request s) (policy s) (context s) (jint SIM_NOW)).
Definition unmutated (s : ScenarioSetup) : bool :=
  negb (nonceAlreadyUsed (world s)) && negb (mutatedAmount (submittedAmount (world s)) (decodedAmount (request s))) &&
  negb (mutatedText (submittedRecipient (world s)) (decodedRecipient (request s))) &&
  negb (mutatedText (submittedTarget (world s)) (Policy.target (request s))).

Definition stopOf (bp : Blueprint) (s : ScenarioSetup) : option Stage :=
  if negb (identityHolds (world s)) then Some IDENTITY
  else if negb (permits bp s) then Some POLICY
  else match decided s with
       | DENY => Some CRE
       | ESCALATE => if approvalRecorded (world s) then (if unmutated s then None else Some EXECUTION_STAGE) else Some APPROVAL
       | ALLOW => if unmutated s then None else Some EXECUTION_STAGE
       end.
Definition verdictOf (bp : Blueprint) (s : ScenarioSetup) : option Verdict :=
  if negb (identityHolds (world s)) then None else if negb (permits bp s) then Some DENY else Some (decided s).
Definition outcomeOf (t : option Stage) : Outcome := match t with None => EXECUTED | Some APPROVAL => APPROVAL_REQUIRED | Some _ => BLOCKED end.

Lemma runStages_eq bp s : let r := runStages bp s in
  stopped_ r = stopOf bp s /\ verdict_ r = verdictOf bp s /\ outcome_ r = outcomeOf (stopOf bp s) /\
  map (fun g => (stage g, status g)) (stages_ r) = shape (verdictOf bp s) (stopOf bp s).
Proof.
  unfold runStages, stopOf, verdictOf, identityHolds, permits, unmutated, identityStage. cbv zeta.
  destruct (rpcAvailable (world s)); [|by vm_compute]. destruct (identityCurrent (world s)); [|by vm_compute]. cbn [negb andb].
  unfold unlessStopped at 5. cbn [stopped_ tick push newRun]. unfold policyStage.
  destruct (includes _ _); [|by vm_compute]. destruct (policyEnabledAtExecution (world s)); [|by vm_compute]. cbn [negb andb].
  unfold unlessStopped at 4. cbn [stopped_ tick push newRun]. unfold creStage, decided. cbv zeta. destruct (evaluatePolicy _ _ _ _) as [v c b t].
  cbn [verdict reasonCode]. unfold unlessStopped at 3, executionStage, approvalStage. 
  destruct v; [|destruct (approvalRecorded (world s)); [|by vm_compute]|by vm_compute];
    destruct (nonceAlreadyUsed (world s)), (mutatedAmount _ _), (mutatedText (submittedRecipient _) _), (mutatedText (submittedTarget _) _); by vm_compute.
Qed.

(** C29: the six stages of a run are those of the system, in its order.  Whatever the fixtures and the world, each stage is
    reported once, in order; before the stage a run stops at all have passed (the approval stage only when the
    verdict escalates, else it is skipped), and after it none is reached; the outcome says no more than the
    stop does. *)
Theorem stages_in_order bp s : let r := runStages bp s in
  map (fun g => (stage g, status g)) (stages_ r) = shape (verdict_ r) (stopped_ r) /\ outcome_ r = outcomeOf (stopped_ r).
Proof. destruct (runStages_eq bp s) as (E1 & E2 & E3 & E4). cbv zeta. by rewrite E1, E2, E3, E4. Qed.

Lemma executed_iff bp s : stopOf bp s = None <->
  rpcAvailable (world s) = true /\ identityCurrent (world s) = true /\ actionKind (request s) ∈ declaredKinds bp /\
  policyEnabledAtExecution (world s) = true /\ (decided s = ALLOW \/ decided s = ESCALATE /\ approvalRecorded (world s) = true) /\
  unmutated s = true.
Proof.
  unfold stopOf, identityHolds, permits. rewrite <- includes_true.
  destruct (rpcAvailable _), (identityCurrent _); cbn [negb andb]; try (split; [done|intros H; decompose [and] H; done]).
  destruct (includes _ _), (policyEnabledAtExecution _); cbn [negb andb]; try (split; [done|intros H; decompose [and] H; done]).
  destruct (decided s), (approvalRecorded _), (unmutated s); split; intros H; split_and?; auto; try done;
    decompose [and or] H; done.
Qed.

(** C4: a simulated execution is an authorized one.  The run executes exactly when the identity is readable and current,
    the document declares the action and the policy is on, the decision function of the live system allows the
    request, or escalates it and an approval is on record, and what is submitted is what was signed and not
    submitted before. *)
Theorem simulated_execution bp s : let r := runStages bp s in
  outcome_ r = EXECUTED <->
  rpcAvailable (world s) = true /\ identityCurrent (world s) = true /\ actionKind (request s) ∈ declaredKinds bp /\
  policyEnabledAtExecution (world s) = true /\
  (verdict (evaluatePolicy (request s) (policy s) (context s) (jint SIM_NOW)) = ALLOW \/
   verdict (evaluatePolicy (request s) (policy s) (context s) (jint SIM_NOW)) = ESCALATE /\ approvalRecorded (world s) = true) /\
  nonceAlreadyUsed (world s) = false /\ mutatedAmount (submittedAmount (world s)) (decodedAmount (request s)) = false /\
  mutatedText (submittedRecipient (world s)) (decodedRecipient (request s)) = false /\
  mutatedText (submittedTarget (world s)) (Policy.target (request s)) = false.
Proof.
  destruct (runStages_eq bp s) as (_ & _ & E & _). cbv zeta. rewrite E. clear E.
  assert (outcomeOf (stopOf bp s) = EXECUTED <-> stopOf bp s = None) as -> by (destruct (stopOf bp s) as [[]|]; done).
  rewrite executed_iff. fold (decided s). unfold unmutated. rewrite !andb_true_iff, !negb_true_iff. tauto.
Qed.

(** ** Approval *)

Lemma overridden_same o s : request (overridden o s) = request s /\ policy (overridden o s) = policy s /\ context (overridden o s) = context s.
Proof. by destruct o. Qed.

(** An approval changes neither the verdict nor what else is checked. *)
Lemma approved_run bp s : verdictOf bp (overridden (Some true) s) = verdictOf bp s /\
  (verdictOf bp s = Some ESCALATE -> stopOf bp (overridden (Some true) s) = if unmutated s then None else Some EXECUTION_STAGE).
Proof.
  split; [done|]. unfold verdictOf, stopOf. change (identityHolds (world (overridden (Some true) s))) with (identityHolds (world s)).
  change (permits bp (overridden (Some true) s)) with (permits bp s). change (decided (overridden (Some true) s)) with (decided s).
  change (unmutated (overridden (Some true) s)) with (unmutated s).
  destruct (negb (identityHolds _)); [done|]. destruct (negb (permits _ _)); [done|]. by intros [= ->].
Qed.

(** A4 holds of every run. *)
Lemma deny_never_gated bp s : held (denyAssertion (runStages bp s)) = true.
Proof.
  destruct (runStages_eq bp s) as (E1 & E2 & _ & E4). unfold denyAssertion. cbn [held]. rewrite E2.
  destruct (bool_decide (verdictOf bp s = Some DENY)) eqn:Ev; [|done]. apply bool_decide_eq_true in Ev.
  assert (stopOf bp s = Some POLICY \/ stopOf bp s = Some CRE) as Hs.
  { unfold verdictOf, stopOf in *. destruct (negb (identityHolds _)); [done|]. destruct (negb (permits _ _)); [by left|].
    injection Ev as ->. by right. }
  rewrite Ev in E4. apply negb_true_iff, andb_false_iff. right. apply some_false. intros g Hg.
  assert ((stage g, status g) ∈ map (fun g => (stage g, status g)) (stages_ (runStages bp s))) as Hm by (apply list_elem_of_fmap; eauto).
  rewrite E4 in Hm. clear E4 Hg. unfold gated. revert Hm. generalize (stage g), (status g). intros a b Hm. destruct Hs as [Hs|Hs]; rewrite Hs in Hm; vm_compute in Hm;
    repeat (apply elem_of_cons in Hm as [[= -> ->]|Hm]; [reflexivity|]); by apply not_elem_of_nil in Hm.
Qed.

(** DENY is terminal in every scenario.  No run whose verdict is DENY passes the approval or the execution stage,
    whatever is on record; and a run that escalates executes with an approval exactly when nothing was mutated or
    replayed, with the verdict unchanged. *)
Theorem deny_is_terminal bp s o : let r := runStages bp (overridden o s) in
  (verdict_ r = Some DENY -> outcome_ r = BLOCKED /\ forall g, g ∈ stages_ r -> gated g = false) /\
  (verdict_ r = Some ESCALATE ->
     verdict_ (runStages bp (overridden (Some true) s)) = Some ESCALATE /\
     (outcome_ (runStages bp (overridden (Some true) s)) = EXECUTED <-> unmutated s = true)).
Proof.
  cbv zeta. destruct (runStages_eq bp (overridden o s)) as (E1 & E2 & E3 & _). split.
  - intros Hd. pose proof (deny_never_gated bp (overridden o s)) as H4. unfold denyAssertion in H4. cbn [held] in H4. rewrite Hd in H4.
    rewrite bool_decide_eq_true_2 in H4 by done. split.
    + rewrite E3. rewrite E2 in Hd. unfold verdictOf, stopOf in *. destruct (negb (identityHolds _)); [done|].
      destruct (negb (permits _ _)); [done|]. by injection Hd as ->.
    + intros g Hg. apply negb_true_iff in H4. by apply (proj1 (some_false _ _) H4).
  - rewrite E2. intros He. assert (verdictOf bp s = Some ESCALATE) as He' by (by destruct o).
    destruct (approved_run bp s) as [Hv Hs]. destruct (runStages_eq bp (overridden (Some true) s)) as (_ & -> & -> & _).
    rewrite Hv, (Hs He'). split; [done|]. by destruct (unmutated s).
Qed.

(** ** The built-in scenarios *)

(** What the fixtures come to, for a document that declares its primary action: verdict and stop. *)
Definition builtInRuling (bp : Blueprint) (i : string) : option Verdict * option Stage :=
  if includes ["NORMAL"; "HEALTH_FACTOR_DROP"; "PRIVATE_CONTEXT_ALLOW"] i then (Some ALLOW, None)
  else if includes ["AMOUNT_MUTATION"; "RECIPIENT_MUTATION"; "TARGET_MUTATION"; "REPLAY"] i then (Some ALLOW, Some EXECUTION_STAGE)
  else if includes ["ENS_REVOCATION"; "RPC_FAILURE"] i then (None, Some IDENTITY)
  else if streq i "POLICY_CHANGE" then (Some DENY, Some POLICY)
  else if includes ["STALE_CONTEXT"; "COLLATERAL_RECOVERY"; "PRIVATE_CONTEXT_DENY"] i then (Some DENY, Some CRE)
  else if includes ["FLASH_CRASH"; "REPAY_ABOVE_AUTO_LIMIT"; "PRIVATE_CONTEXT_ESCALATE"] i then (Some ESCALATE, Some APPROVAL)
  else if negb (includes (declaredKinds bp) "AAVE_WITHDRAW") then (Some DENY, Some POLICY)
  else if streq (primaryKind bp) "AAVE_WITHDRAW" then (Some ESCALATE, Some APPROVAL)
  else (Some DENY, Some CRE).

Lemma primary_declared bp : actions bp <> [] -> includes (declaredKinds bp) (primaryKind bp) = true.
Proof. unfold declaredKinds, primaryKind. destruct (actions bp) as [|a l]; [done|]. intros _. apply includes_true. left. Qed.

Lemma includes_here {A : Type} `{EqDecision A} (x : A) l : includes (x :: l) x = true.
Proof. apply includes_true. left. Qed.

Definition setupOf (k r : string) (amount : Z) (p : string) (c : MarketContext) (w : World) : ScenarioSetup :=
  {| request := requestFor k r amount; context := c; policy := policyFor p; world := w |}.

(** The decision on a fixture does not depend on the primary action, which its policy allows. *)
Lemma decided_fixture k r amount c w : decided (setupOf k r amount k c w) = decided (setupOf "AAVE_REPAY" r amount "AAVE_REPAY" c w).
Proof.
  unfold decided, setupOf. cbn [request policy context]. unfold evaluatePolicy. cbn [actionKind requestFor allowedActionKinds policyFor].
  rewrite !includes_here. done.
Qed.

Definition rulingFrom (w : World) (v : Verdict) (u : bool) : option Verdict * option Stage :=
  if negb (identityHolds w) then (None, Some IDENTITY)
  else if negb (policyEnabledAtExecution w) then (Some DENY, Some POLICY)
  else (Some v, match v with
                | DENY => Some CRE
                | ESCALATE => if approvalRecorded w then (if u then None else Some EXECUTION_STAGE) else Some APPROVAL
                | ALLOW => if u then None else Some EXECUTION_STAGE
                end).

Lemma ruling_declared bp s : actionKind (request s) ∈ declaredKinds bp ->
  (verdictOf bp s, stopOf bp s) = rulingFrom (world s) (decided s) (unmutated s).
Proof.
  intros Hp%includes_true. unfold verdictOf, stopOf, rulingFrom, permits. rewrite Hp. cbn [andb].
  by destruct (identityHolds (world s)), (policyEnabledAtExecution (world s)).
Qed.

Lemma ruling_own bp r amount c w : actions bp <> [] ->
  (verdictOf bp (setupOf (primaryKind bp) r amount (primaryKind bp) c w), stopOf bp (setupOf (primaryKind bp) r amount (primaryKind bp) c w)) =
  rulingFrom w (decided (setupOf "AAVE_REPAY" r amount "AAVE_REPAY" c w)) (unmutated (setupOf "AAVE_REPAY" r amount "AAVE_REPAY" c w)).
Proof.
  intros Ha%primary_declared%includes_true. rewrite ruling_declared by exact Ha. by rewrite decided_fixture.
Qed.

(** The injected withdrawal is decided by whether the agent's own action is one. *)
Lemma decided_withdrawal k : decided (setupOf "AAVE_WITHDRAW" HOSTILE 5000000000 k benignContext defaultWorld) =
  if streq k "AAVE_WITHDRAW" then ESCALATE else DENY.
Proof.
  destruct (streq k "AAVE_WITHDRAW") eqn:E; [apply streq_true in E as ->; by vm_compute|]. apply streq_false in E.
  unfold decided, setupOf. cbn [request policy context]. unfold evaluatePolicy. cbn [actionKind requestFor allowedActionKinds policyFor].
  assert (includes [k; "AAVE_REPAY"; "AAVE_SUPPLY"] "AAVE_WITHDRAW" = false) as ->; [|by vm_compute].
  apply includes_false. rewrite !elem_of_cons. intros [H|[H|[H|H%not_elem_of_nil]]]; try done.
Qed.

Lemma ruling_injection bp :
  (verdictOf bp (setupOf "AAVE_WITHDRAW" HOSTILE 5000000000 (primaryKind bp) benignContext defaultWorld),
   stopOf bp (setupOf "AAVE_WITHDRAW" HOSTILE 5000000000 (primaryKind bp) benignContext defaultWorld)) =
  builtInRuling bp "PROMPT_INJECTION".
Proof.
  change (builtInRuling bp "PROMPT_INJECTION") with
    (if negb (includes (declaredKinds bp) "AAVE_WITHDRAW") then (Some DENY, Some POLICY)
     else if streq (primaryKind bp) "AAVE_WITHDRAW" then (Some ESCALATE, Some APPROVAL) else (Some DENY, Some CRE)).
  destruct (includes (declaredKinds bp) "AAVE_WITHDRAW") eqn:E; cbn [negb].
  - rewrite ruling_declared by (by apply includes_true). rewrite decided_withdrawal. by destruct (streq _ _).
  - unfold verdictOf, stopOf, permits. cbn [request setupOf actionKind requestFor]. by rewrite E.
Qed.

Lemma ruling_of bp i s : actions bp <> [] -> buildScenario i (primaryKind bp) = Some s -> (verdictOf bp s, stopOf bp s) = builtInRuling bp i.
Proof.
  intros Ha Hb.
  assert (i ∈ BUILT_IN) as Hi by (apply includes_true; change (isBuiltInScenario i = true); apply (built_in_setup i (primaryKind bp)); eauto).
  unfold BUILT_IN, BASELINE_SCENARIOS, AAVE_SCENARIOS, PRIVATE_CONTEXT_SCENARIOS in Hi. cbn [app] in Hi.
  repeat (apply elem_of_cons in Hi as [->|Hi];
    [match type of Hb with ?x = _ => let t := eval hnf in x in change x with t in Hb end; injection Hb as <-;
     first [exact (ruling_injection bp) | etransitivity; [exact (ruling_own bp _ _ _ _ Ha)|vm_compute; reflexivity]]|]).
  by apply not_elem_of_nil in Hi.
Qed.

(** A5 and A6 hold of every built-in scenario: what its world escalates was neither mutated nor replayed. *)
Lemma escalated_unmutated bp i s : actions bp <> [] -> buildScenario i (primaryKind bp) = Some s -> verdictOf bp s = Some ESCALATE -> unmutated s = true.
Proof.
  intros Ha Hb Hv.
  assert (stopOf bp s = Some APPROVAL) as Hs.
  { pose proof (ruling_of bp i s Ha Hb) as Hr. rewrite Hv in Hr. revert Hr. unfold builtInRuling. repeat case_match; congruence. }
  assert (world s = defaultWorld \/ unmutated s = true \/ exists v, builtInRuling bp i = (v, Some EXECUTION_STAGE) \/ v = Some DENY /\ builtInRuling bp i = (v, Some POLICY)) as H.
  { assert (i ∈ BUILT_IN) as Hi by (apply includes_true; change (isBuiltInScenario i = true); apply (built_in_setup i (primaryKind bp)); eauto).
    unfold BUILT_IN, BASELINE_SCENARIOS, AAVE_SCENARIOS, PRIVATE_CONTEXT_SCENARIOS in Hi. cbn [app] in Hi.
    repeat (apply elem_of_cons in Hi as [->|Hi];
      [match type of Hb with ?x = _ => let t := eval hnf in x in change x with t in Hb end; injection Hb as <-;
       first [by left | by right; left | right; right; eexists; left; reflexivity | right; right; eexists; right; split; reflexivity]|]).
    by apply not_elem_of_nil in Hi. }
  destruct H as [Hw|[H|(v & [Hr|[-> Hr]])]]; [|done|..].
  - unfold unmutated. by rewrite Hw.
  - pose proof (ruling_of bp i s Ha Hb). congruence.
  - pose proof (ruling_of bp i s Ha Hb). congruence.
Qed.

Section results.
Context {localeCompare : string -> string -> Z}.
Let runScenario := runScenario localeCompare.

(** What each built-in scenario comes to.  For every document that declares an action, the verdict, the stage it is
    stopped at and the outcome are those of the table: the mutations and the replay stop at execution, revocation
    and an unreachable chain at the identity, a disabled policy at the policy, bad private context at CRE, and
    what exceeds the autonomous limits waits for approval. *)
Theorem built_in_table bp i rev fixtures : actions bp <> [] -> isBuiltInScenario i = true ->
  let r := runScenario bp i rev None fixtures in
  (r_verdict r, stoppedAt r) = builtInRuling bp i /\ r_outcome r = outcomeOf (stoppedAt r).
Proof.
  intros Ha Hi. cbv zeta. unfold runScenario, Engine.runScenario. rewrite Hi.
  destruct (proj1 (built_in_setup i (primaryKind bp)) Hi) as [s Hs]. rewrite Hs. cbn [runBuiltIn overridden r_verdict stoppedAt r_outcome].
  destruct (runStages_eq bp s) as (E1 & E2 & E3 & _). rewrite E1, E2, E3. split; [|done]. by apply ruling_of.
Qed.

(** A pass is a declared expectation met.  A built-in scenario passes exactly when the document declares it and the
    verdict, the outcome and the stop it expects are those of the table: the engine's own assertions (a DENY
    passes no gate, an approval opens the escalated transaction and leaves its verdict) hold in every one. *)
Theorem passed_iff bp i rev fixtures : actions bp <> [] -> isBuiltInScenario i = true ->
  passed (runScenario bp i rev None fixtures) = true <->
  exists e, expectedOf bp i = Some e /\ (expectedVerdict e, expectedStopStage e) = builtInRuling bp i /\
    expectedOutcome e = outcomeOf (expectedStopStage e).
Proof.
  intros Ha Hi. unfold runScenario, Engine.runScenario. rewrite Hi. destruct (proj1 (built_in_setup i (primaryKind bp)) Hi) as [s Hs].
  rewrite Hs. cbn [runBuiltIn passed overridden]. rewrite <- (ruling_of bp i s Ha Hs). destruct (runStages_eq bp s) as (E1 & E2 & E3 & _).
  assert (forall b, every held (if bool_decide (verdict_ (runStages bp s) = Some ESCALATE) && b
    then approvalAssertions (runStages bp s) (runStages bp (overridden (Some true) s)) else []) = true) as Happ.
  { intros b. rewrite E2. destruct (bool_decide (verdictOf bp s = Some ESCALATE)) eqn:Ev; [|done]. apply bool_decide_eq_true in Ev.
    destruct b; cbn [andb]; [|done]. pose proof (escalated_unmutated bp i s Ha Hs Ev) as Hu.
    destruct (approved_run bp s) as [Hv Hst]. destruct (runStages_eq bp (overridden (Some true) s)) as (F1 & F2 & F3 & _).
    unfold approvalAssertions, every. cbn [forallb held]. rewrite F1, F2, F3, Hv, (Hst Ev), Hu, E2. cbn [outcomeOf].
    by rewrite !bool_decide_eq_true_2. }
  unfold builtInAssertions, every in *. rewrite !forallb_app, Happ. cbn [forallb]. rewrite deny_never_gated. cbn [andb]. rewrite andb_true_r.
  unfold declaredAssertions. destruct (expectedOf bp i) as [e|]; cbn [forallb held]; [|split; [done|by intros (e & [=] & _)]].
  rewrite E1, E2, E3, !andb_true_iff, !bool_decide_eq_true. split.
  - intros (Hv & Ho & Hst & _). exists e. rewrite <- Hv, <- Ho, <- Hst. done.
  - intros (e' & [= <-] & [= -> ->] & ->). done.
Qed.

(** An adapter's scenario passes on its fixture alone.  It passes exactly when the adapter supplied a fixture, the
    document declares the scenario, and the outcome and the stop are the ones expected; the verdict the document
    expects is never looked at, and the policy is never evaluated. *)
Theorem adapter_passed_iff bp i rev o fixtures : isBuiltInScenario i = false ->
  let r := runScenario bp i rev o fixtures in
  r_verdict r = None /\
  (passed r = true <-> exists f e, fixtures !! i = Some f /\ expectedOf bp i = Some e /\
     expectedOutcome e = (if accepted f then EXECUTED else BLOCKED) /\
     expectedStopStage e = if accepted f then None else Some (default EXECUTION_STAGE (fx_stoppedAt f))).
Proof.
  intros Hi. cbv zeta. unfold runScenario, Engine.runScenario. rewrite Hi. unfold runAdapterScenario.
  destruct (fixtures !! i) as [f|]; cbn [r_verdict passed]; [|split; [done|]; split; [done|by intros (f & e & [=] & _)]].
  split; [done|]. unfold adapterAssertions, every. destruct (expectedOf bp i) as [e|]; cbn [forallb held].
  - rewrite !andb_true_iff, !bool_decide_eq_true. split.
    + intros (Ho & Hst & _). exists f, e. rewrite <- Ho, <- Hst. destruct (accepted f), (fx_stoppedAt f); done.
    + intros (f' & e' & [= <-] & [= <-] & -> & ->). destruct (accepted f), (fx_stoppedAt f); done.
  - split; [done|]. by intros (f' & e & _ & [=] & _).
Qed.

End results.
End Engine.

Module Samples.
Import Blueprint.Unknown Blueprint.Schema Fixtures Engine Policy.

Definition withScenarios (l : list SimulationScenario) (b : Blueprint) : Blueprint :=
  {| blueprintId := blueprintId b; revision := revision b; createdAt := createdAt b; identity := identity b; objective := objective b;
     protocols := protocols b; assets := assets b; triggers := triggers b; actions := actions b; allowedPermissions := allowedPermissions b;
     deniedPermissions := deniedPermissions b; autonomousPolicy := autonomousPolicy b; escalationPolicy := escalationPolicy b;
     perActionLimits := perActionLimits b; confidentialPolicy := confidentialPolicy b; contextSources := contextSources b;
     adapters := adapters b; dataRequirements := dataRequirements b; capabilityPolicy := capabilityPolicy b; ens := ens b; cre := cre b;
     ledger := ledger b; execution := execution b; simulationScenarios := l; generatedModules := generatedModules b;
     securityAssertions := securityAssertions b |}.

Definition bp : Blueprint := Blueprint.Samples.bp.
Definition expecting (i : string) (v : option Verdict) (o : Outcome) (t : option Stage) : SimulationScenario :=
  {| scenarioId := i; s_description := "scenario"; expectedVerdict := v; expectedOutcome := o; expectedStopStage := t |}.

(** Every built-in scenario with what it comes to. *)
Definition honest (b : Blueprint) : Blueprint :=
  withScenarios (map (fun i => let t := builtInRuling b i in expecting i t.1 (outcomeOf t.2) t.2) BUILT_IN) b.

Definition sim (b : Blueprint) (i : string) : SimulationResult := runScenario Adapters.codeUnitCompare b i 1 None ∅.

Example sample_all_pass : map passed (runAllScenarios Adapters.codeUnitCompare (honest bp) 1 ∅) = repeat true 17.
Proof. vm_compute. done. Qed.

Example sample_replay : let r := sim (honest bp) "REPLAY" in
  map (fun g => (stage g, status g)) (stages r) =
    [(IDENTITY, PASS); (POLICY, PASS); (CRE, PASS); (APPROVAL, SKIPPED); (CAPABILITY, PASS); (EXECUTION_STAGE, STOP)] /\
  map snd (timeline r) = ["agent proposes an intent"; "ENS identity verified live"; "action is structurally permitted";
    "confidential evaluation → ALLOW"; "capability minted for exactly this transaction"; "replay rejected"].
Proof. vm_compute. done. Qed.

(** An agent whose first action is a withdrawal: the injected withdrawal to the attacker's address is the agent's own
    action, and with an approval it executes. *)
Definition withdraw : Action :=
  {| a_id := "repay"; a_kind := "AAVE_WITHDRAW"; a_displayName := "Withdraw"; a_protocolRef := "aave";
     targetPolicy := ProtocolResolved "aave" "pool"; recipientPolicy := SelfOnly; spendsAssets := []; approvals := [] |}.
Definition withdrawing : Blueprint := Blueprint.Samples.withActions [withdraw] [] bp.

Example injection_waits_for_approval :
  r_verdict (sim withdrawing "PROMPT_INJECTION") = Some ESCALATE /\
  r_outcome (runScenario Adapters.codeUnitCompare withdrawing "PROMPT_INJECTION" 1 (Some true) ∅) = EXECUTED /\
  passed (sim (withScenarios [expecting "PROMPT_INJECTION" (Some DENY) BLOCKED (Some POLICY)] withdrawing) "PROMPT_INJECTION") = false.
Proof. vm_compute. done. Qed.

(** The hash of the fixtures is of neither the document nor the policy: two runs with one hash and two results. *)
Example one_hash_two_results :
  fixtureHash (sim bp "PROMPT_INJECTION") = fixtureHash (sim withdrawing "PROMPT_INJECTION") /\
  r_verdict (sim bp "PROMPT_INJECTION") = Some DENY /\ r_verdict (sim withdrawing "PROMPT_INJECTION") = Some ESCALATE.
Proof. vm_compute. done. Qed.

(** Of two declarations of one scenario the first is compared twice. *)
Definition twice : Blueprint :=
  withScenarios [expecting "REPLAY" (Some ALLOW) BLOCKED (Some EXECUTION_STAGE); expecting "REPLAY" (Some DENY) EXECUTED None] bp.
Example second_declaration_unchecked : map passed (runAllScenarios Adapters.codeUnitCompare twice 1 ∅) = [true; true].
Proof. vm_compute. done. Qed.

(** An adapter's scenario expected to be denied passes with no verdict; one without a fixture is blocked at a stage that
    its list of stages says was skipped. *)
Definition fixture : AdapterScenarioFixture :=
  {| fx_scenarioId := "UNI-SLIPPAGE"; description := "quote moved"; accepted := false; fx_reasonCode := "QUOTE_STALE"; fx_stoppedAt := Some CRE |}.
Definition withAdapter : Blueprint := withScenarios [expecting "UNI-SLIPPAGE" (Some DENY) BLOCKED (Some CRE)] bp.
Example adapter_verdict_unchecked :
  let r := runScenario Adapters.codeUnitCompare withAdapter "UNI-SLIPPAGE" 1 None {["UNI-SLIPPAGE" := fixture]} in
  passed r = true /\ r_verdict r = None.
Proof. vm_compute. done. Qed.
Example unrunnable_stages : let r := runScenario Adapters.codeUnitCompare withAdapter "UNI-SLIPPAGE" 1 None ∅ in
  passed r = false /\ stoppedAt r = Some POLICY /\ map status (stages r) = repeat SKIPPED 6.
Proof. vm_compute. done. Qed.

Lemma built_in_table_witness :
  (r_verdict (sim bp "FLASH_CRASH"), stoppedAt (sim bp "FLASH_CRASH")) = builtInRuling bp "FLASH_CRASH" /\
  r_outcome (sim bp "FLASH_CRASH") = outcomeOf (stoppedAt (sim bp "FLASH_CRASH")).
Proof. apply (built_in_table bp "FLASH_CRASH" 1 ∅); [vm_compute; discriminate|vm_compute; reflexivity]. Defined.

Lemma passed_iff_witness : passed (sim (honest bp) "REPLAY") = true <->
  exists e, expectedOf (honest bp) "REPLAY" = Some e /\ (expectedVerdict e, expectedStopStage e) = builtInRuling (honest bp) "REPLAY" /\
    expectedOutcome e = outcomeOf (expectedStopStage e).
Proof. apply (passed_iff (honest bp) "REPLAY" 1 ∅); [vm_compute; discriminate|vm_compute; reflexivity]. Defined.

Lemma adapter_passed_iff_witness :
  let r := runScenario Adapters.codeUnitCompare withAdapter "UNI-SLIPPAGE" 1 None {["UNI-SLIPPAGE" := fixture]} in
  r_verdict r = None /\
  (passed r = true <-> exists f e, ({["UNI-SLIPPAGE" := fixture]} : gmap string AdapterScenarioFixture) !! "UNI-SLIPPAGE" = Some f /\
     expectedOf withAdapter "UNI-SLIPPAGE" = Some e /\ expectedOutcome e = (if accepted f then EXECUTED else BLOCKED) /\
     expectedStopStage e = if accepted f then None else Some (default EXECUTION_STAGE (fx_stoppedAt f))).
Proof. apply (adapter_passed_iff withAdapter "UNI-SLIPPAGE" 1 None {["UNI-SLIPPAGE" := fixture]}). vm_compute. reflexivity. Defined.

End Samples.
