(* ===== verification/Monitor.v ===== *)
(** * Monitoring

    The parts of [packages/studio-control-plane/src] that say whether something works: adapters ([adapters.ts],
    Module [AdapterHealth]), the agent's process ([runtime.ts], Module [RuntimeHealth]), the fence of its
    revisions (Module [Fence]), the LIVE badge (Module [Liveness]) and the CRE panel ([cre.ts], Module [Cre]).
    Readings and their age are [Control.Freshness].

    Times are [Z] in milliseconds.  Reasons are kept as the conditions they name, their texts are not modelled.
    A rate is an exact fraction. *)

From S2P Require Import Prelude JsNum Json Adapters Control.
From stdpp Require Import sorting.
Local Open Scope Z_scope.

Module AdapterHealth.
Import Freshness.

Inductive AdapterHealthState := AH_HEALTHY | AH_DEGRADED | AH_DISABLED | AH_UNKNOWN.
#[export] Instance AdapterHealthState_eq_dec : EqDecision AdapterHealthState.
Proof. solve_decision. Defined.

Record Sample := { atMs : Z; succeeded : bool; latencyMs : Z; dataAtMs : option Z; s_reason : option string }.
Record AdapterHealth := {
  adapterId : string; adapterVersion : string; ah_state : AdapterHealthState; lastSuccessAtMs : option Z; lastFailureAtMs : option Z;
  latencyMsP50 : option Z; latencyMsP95 : option Z; recentErrorRate : Q; dataFreshnessMs : option Z; lastProviderReason : option string;
  lastCheckedAtMs : Z; disabledReason : option string
}.
Record AdapterHealthPolicy := { windowMs : Z; minSamples : nat; degradedErrorRate : Q; staleDataMs : Z; timeoutMs : Z }.
Definition DEFAULT_ADAPTER_POLICY : AdapterHealthPolicy :=
  {| windowMs := 600000; minSamples := 3; degradedErrorRate := 1 # 5; staleDataMs := 300000; timeoutMs := 10000 |}.

(** The maps of the service, [versions] with its keys in the order of their first registration. *)
Record AdapterHealthService := {
  samples : gmap string (list Sample); disabled : gmap string string; versions : gmap string string; order : list string
}.
Definition newService : AdapterHealthService := {| samples := ∅; disabled := ∅; versions := ∅; order := [] |}.

Definition samplesOf (s : AdapterHealthService) (i : string) : list Sample := default [] (samples s !! i).
Definition withSamples (s : AdapterHealthService) (i : string) (l : list Sample) : AdapterHealthService :=
  {| samples := <[i := l]> (samples s); disabled := disabled s; versions := versions s; order := order s |}.

Definition register (s : AdapterHealthService) (i v : string) : AdapterHealthService :=
  {| samples := match samples s !! i with Some _ => samples s | None => <[i := []]> (samples s) end;
     disabled := disabled s; versions := <[i := v]> (versions s);
     order := if includes (order s) i then order s else order s ++ [i] |}.
Definition disable (s : AdapterHealthService) (i why : string) : AdapterHealthService :=
  {| samples := samples s; disabled := <[i := why]> (disabled s); versions := versions s; order := order s |}.
Definition enable (s : AdapterHealthService) (i : string) : AdapterHealthService :=
  {| samples := samples s; disabled := delete i (disabled s); versions := versions s; order := order s |}.

Section service.
Variable policy : AdapterHealthPolicy.

(** A call slower than the timeout is a failure. *)
Definition sampleOf (x : Sample) : Sample :=
  let ok := succeeded x && (latencyMs x <=? timeoutMs policy) in
  {| atMs := atMs x; succeeded := ok; latencyMs := latencyMs x; dataAtMs := dataAtMs x;
     s_reason := match s_reason x with Some r => Some r | None => if ok then None else Some "call failed" end |}.
Definition recent (nowMs : Z) (l : list Sample) : list Sample := List.filter (fun x => nowMs - atMs x <=? windowMs policy) l.

Definition record (s : AdapterHealthService) (i : string) (x : Sample) : AdapterHealthService :=
  withSamples s i (recent (atMs x) (samplesOf s i ++ [sampleOf x])).

Definition newest (l : list Z) : option Z := head (merge_sort (flip Z.le) l).
(** [latencies[Math.min(length - 1, Math.floor(length * q))]], with [q] in hundredths. *)
Definition pick (l : list Z) (q : Z) : option Z :=
  merge_sort Z.le l !! Nat.min (length l - 1) (Z.to_nat (Z.of_nat (length l) * q / 100)).

Definition errorRate (l : list Sample) : Q :=
  match l with
  | [] => 0
  | _ => Z.of_nat (length (List.filter (fun x => negb (succeeded x)) l)) # Pos.of_nat (length l)
  end.

Definition freshnessOf (nowMs : Z) (l : list Sample) : option Z :=
  match newest (omap dataAtMs (List.filter succeeded l)) with Some d => Some (Z.max 0 (nowMs - d)) | None => None end.

Definition stateOf (nowMs : Z) (off : option string) (l : list Sample) : AdapterHealthState :=
  match off with
  | Some _ => AH_DISABLED
  | None =>
      if (length l <? minSamples policy)%nat then AH_UNKNOWN
      else if Qltb (degradedErrorRate policy) (errorRate l) then AH_DEGRADED
      else match freshnessOf nowMs l with
           | Some f => if staleDataMs policy <? f then AH_DEGRADED else AH_HEALTHY
           | None => AH_HEALTHY
           end
  end.

Definition health (s : AdapterHealthService) (i : string) (nowMs : Z) : AdapterHealth :=
  let l := recent nowMs (samplesOf s i) in
  {| adapterId := i; adapterVersion := default "0.0.0" (versions s !! i); ah_state := stateOf nowMs (disabled s !! i) l;
     lastSuccessAtMs := newest (map atMs (List.filter succeeded l));
     lastFailureAtMs := newest (map atMs (List.filter (fun x => negb (succeeded x)) l));
     latencyMsP50 := pick (map latencyMs l) 50; latencyMsP95 := pick (map latencyMs l) 95; recentErrorRate := errorRate l;
     dataFreshnessMs := freshnessOf nowMs l;
     lastProviderReason := match List.find (fun x => bool_decide (is_Some (s_reason x))) (rev l) with Some x => s_reason x | None => None end;
     lastCheckedAtMs := default nowMs (newest (map atMs l)); disabledReason := disabled s !! i |}.

Definition unusable (s : AdapterHealthService) (required : list string) (nowMs : Z) : list AdapterHealth :=
  List.filter (fun h => negb (bool_decide (ah_state h = AH_HEALTHY))) (map (fun i => health s i nowMs) required).

End service.

Record Usage := { mayRead : bool; mayDecideOn : bool }.
Definition adapterUsage (h : AdapterHealth) : Usage :=
  match ah_state h with
  | AH_HEALTHY => {| mayRead := true; mayDecideOn := true |}
  | AH_DEGRADED => {| mayRead := true; mayDecideOn := false |}
  | AH_DISABLED => {| mayRead := false; mayDecideOn := false |}
  | AH_UNKNOWN => {| mayRead := true; mayDecideOn := false |}
  end.

Definition observationState (h : AdapterHealth) : ObservationState :=
  match ah_state h with AH_HEALTHY => HEALTHY | AH_DEGRADED => DEGRADED | AH_DISABLED => BLOCKED | AH_UNKNOWN => NOT_CONFIGURED end.
Definition stateText (s : AdapterHealthState) : string :=
  match s with AH_HEALTHY => "HEALTHY" | AH_DEGRADED => "DEGRADED" | AH_DISABLED => "DISABLED" | AH_UNKNOWN => "UNKNOWN" end.
Definition orElse (o : option string) (p : option string) : option string := match o with Some _ => o | None => p end.
Definition asObservation (h : AdapterHealth) (nowMs ttl : Z) : Presented AdapterHealth :=
  presentable {| state := observationState h; value := Some h; observedAtMs := lastCheckedAtMs h; source := "adapter:" +:+ adapterId h;
                 ttlMs := ttl;
                 reason := if bool_decide (ah_state h = AH_HEALTHY) then None
                           else orElse (disabledReason h) (orElse (lastProviderReason h) (Some (stateText (ah_state h)))) |} nowMs.

(** ** What HEALTHY takes *)

Lemma stateOf_healthy p nowMs off l : stateOf p nowMs off l = AH_HEALTHY <->
  off = None /\ (minSamples p <= length l)%nat /\ (errorRate l <= degradedErrorRate p)%Q /\
  (forall f, freshnessOf nowMs l = Some f -> f <= staleDataMs p).
Proof.
  unfold stateOf. destruct off; [split; [done|by intros [[=] _]]|]. destruct (Nat.ltb_spec (length l) (minSamples p)) as [Hl|Hl].
  { split; [done|]. intros (_ & H & _). lia. }
  unfold Qltb. destruct (Qle_bool (errorRate l) (degradedErrorRate p)) eqn:Eq; cbn [negb].
  - apply Qle_bool_iff in Eq. destruct (freshnessOf nowMs l) as [f|].
    + destruct (Z.ltb_spec (staleDataMs p) f) as [Hf|Hf]; split; try done.
      * intros (_ & _ & _ & H). specialize (H f eq_refl). lia.
      * intros _. split_and!; try done. by intros f' [= <-].
    + split; [|done]. intros _. split_and!; try done.
  - split; [done|]. intros (_ & _ & Hq & _). apply Qle_bool_iff in Hq. congruence.
Qed.

Lemma recent_idem p nowMs x l : x ∈ recent p nowMs l <-> x ∈ l /\ nowMs - atMs x <= windowMs p.
Proof. unfold recent. by rewrite list_elem_of_In, filter_In, <- list_elem_of_In, Z.leb_le. Qed.

(** An adapter is HEALTHY on recent evidence only.  It is exactly when nobody switched it off, enough calls were made
    within the window, few enough of them failed or were too slow, and the newest data is not too old; only then
    may a decision rest on it; and one that is not called for longer than the window is not HEALTHY any more,
    whatever it was. *)
Theorem adapter_health_spec p s i nowMs : (0 < minSamples p)%nat ->
  let h := health p s i nowMs in
  let l := recent p nowMs (samplesOf s i) in
  (ah_state h = AH_HEALTHY <-> disabled s !! i = None /\ (minSamples p <= length l)%nat /\ (errorRate l <= degradedErrorRate p)%Q /\
     (forall f, freshnessOf nowMs l = Some f -> f <= staleDataMs p)) /\
  (mayDecideOn (adapterUsage h) = true <-> ah_state h = AH_HEALTHY) /\
  ((forall x, x ∈ samplesOf s i -> windowMs p < nowMs - atMs x) -> ah_state h = AH_UNKNOWN \/ ah_state h = AH_DISABLED).
Proof.
  intros Hm. cbv zeta. cbn [ah_state health]. split; [apply stateOf_healthy|]. split.
  - unfold adapterUsage. cbn [ah_state health]. by destruct (stateOf _ _ _ _).
  - intros Hold. assert (recent p nowMs (samplesOf s i) = []) as ->.
    { destruct (recent p nowMs (samplesOf s i)) as [|x l] eqn:E; [done|]. exfalso.
      assert (x ∈ recent p nowMs (samplesOf s i)) as [Hx Hw]%recent_idem by (rewrite E; left). specialize (Hold x Hx). lia. }
    unfold stateOf. destruct (disabled s !! i); [by right|]. cbn [length]. by apply Nat.ltb_lt in Hm as ->; left.
Qed.

(** Recording a call keeps the window of the adapter it is of, and nobody else's. *)
Theorem record_measures p s i x : let s' := record p s i x in
  (forall y, y ∈ samplesOf s' i <-> (y ∈ samplesOf s i \/ y = sampleOf p x) /\ atMs x - atMs y <= windowMs p) /\
  (forall j, j <> i -> samplesOf s' j = samplesOf s j) /\ disabled s' = disabled s /\ versions s' = versions s.
Proof.
  cbv zeta. unfold record, samplesOf, withSamples. cbn [samples disabled versions]. split_and!; try done.
  - intros y. rewrite lookup_insert_eq. cbn [from_option id]. rewrite recent_idem, elem_of_app, list_elem_of_singleton. done.
  - intros j Hj. by rewrite lookup_insert_ne.
Qed.

End AdapterHealth.

Module RuntimeHealth.
Import Freshness.

Inductive RuntimeState :=
| PROVISIONING | STARTING | RS_HEALTHY | RS_DEGRADED | PAUSED | STOPPING | STOPPED | CRASH_LOOP | RS_FAILED | UNKNOWN.
#[export] Instance RuntimeState_eq_dec : EqDecision RuntimeState.
Proof. solve_decision. Defined.

Record RuntimeObservationInputs := {
  containerRunning : bool; containerHealth : option string; restartsInWindow : Z; observedImageDigest : option string;
  lastHeartbeatMs : option Z;
  controlPlaneReachable : bool; modelGatewayReachable : bool; adapterBrokerReachable : bool; contextlockBrokerReachable : bool;
  eventCursorAgeMs : option Z; credentialValid : bool; credentialExpiresAtMs : option Z; strategyCheckpointAgeMs : option Z;
  paused : bool; stopping : bool; processStartedAtMs : option Z; nowMs : Z
}.
Record RuntimeHealthPolicy := {
  heartbeatStaleAfterMs : Z; startupGraceMs : Z; eventCursorStaleAfterMs : Z; checkpointStaleAfterMs : Z; crashLoopRestarts : Z
}.
Definition DEFAULT_RUNTIME_POLICY : RuntimeHealthPolicy :=
  {| heartbeatStaleAfterMs := 30000; startupGraceMs := 60000; eventCursorStaleAfterMs := 300000; checkpointStaleAfterMs := 600000;
     crashLoopRestarts := 3 |}.

(** The reasons of a verdict, with the number the text shows. *)
Inductive Why :=
| CrashLooping (restarts : Z) | PausedByOperator | ContainerNotRunning
| BrokerUnreachable | ControlPlaneUnreachable | ModelGatewayUnreachable | AdapterBrokerUnreachable
| CredentialInvalid | CredentialExpired | CursorBehind (ms : Z) | CheckpointOld (ms : Z) | NeverBeat | HeartbeatOld (ms : Z).

Record RuntimeHealthVerdict := { rv_state : RuntimeState; reasons : list Why; mayStartNewWork : bool }.
Definition verdict (st : RuntimeState) (why : list Why) : RuntimeHealthVerdict :=
  {| rv_state := st; reasons := why; mayStartNewWork := false |}.

Definition older (age : option Z) (limit : Z) (w : Z -> Why) : list Why :=
  match age with Some a => flag (limit <? a) (w a) | None => [] end.

Definition credentialWhy (i : RuntimeObservationInputs) : list Why :=
  if negb (credentialValid i) then [CredentialInvalid]
  else match credentialExpiresAtMs i with Some t => flag (t <=? nowMs i) CredentialExpired | None => [] end.

(** What keeps a running container from being healthy, before its heartbeat is looked at. *)
Definition dependencyWhys (i : RuntimeObservationInputs) (p : RuntimeHealthPolicy) : list Why :=
  flag (negb (contextlockBrokerReachable i)) BrokerUnreachable ++
  flag (negb (controlPlaneReachable i)) ControlPlaneUnreachable ++
  flag (negb (modelGatewayReachable i)) ModelGatewayUnreachable ++
  flag (negb (adapterBrokerReachable i)) AdapterBrokerUnreachable ++
  credentialWhy i ++
  older (eventCursorAgeMs i) (eventCursorStaleAfterMs p) CursorBehind ++
  older (strategyCheckpointAgeMs i) (checkpointStaleAfterMs p) CheckpointOld.

Definition uptime (i : RuntimeObservationInputs) : Z := match processStartedAtMs i with Some t => nowMs i - t | None => 0 end.

Definition evaluateRuntime (i : RuntimeObservationInputs) (p : RuntimeHealthPolicy) : RuntimeHealthVerdict :=
  if crashLoopRestarts p <=? restartsInWindow i then verdict CRASH_LOOP [CrashLooping (restartsInWindow i)]
  else if stopping i then verdict STOPPING []
  else if negb (containerRunning i) then
    (if paused i then verdict PAUSED [PausedByOperator] else verdict STOPPED [ContainerNotRunning])
  else if paused i then verdict PAUSED [PausedByOperator]
  else
    let why := dependencyWhys i p in
    match lastHeartbeatMs i with
    | None => if uptime i <? startupGraceMs p then verdict STARTING why else verdict RS_FAILED (why ++ [NeverBeat])
    | Some h =>
        let all := why ++ older (Some (nowMs i - h)) (heartbeatStaleAfterMs p) HeartbeatOld in
        match all with [] => {| rv_state := RS_HEALTHY; reasons := []; mayStartNewWork := true |} | _ => verdict RS_DEGRADED all end
    end.

(** [describe] gives the text of a list of reasons. *)
Definition runtimeObservation (describe : list Why -> string) (v : RuntimeHealthVerdict) (atMs ttl : Z)
    : Observation RuntimeHealthVerdict :=
  let why := match reasons v with [] => None | l => Some (describe l) end in
  match rv_state v with
  | UNKNOWN => unavailable NOT_CONFIGURED atMs "runtime" ttl "the runtime has not been observed"
  | RS_HEALTHY => observed v atMs "runtime" ttl (Some HEALTHY) why
  | PAUSED | STOPPED => observed v atMs "runtime" ttl (Some BLOCKED) why
  | _ => observed v atMs "runtime" ttl (Some DEGRADED) why
  end.

(** ** What HEALTHY takes *)

Lemma older_nil age limit w : older age limit w = [] <-> forall a, age = Some a -> a <= limit.
Proof.
  unfold older. destruct age as [a|]; [|done]. rewrite flag_nil, Z.ltb_ge. split; [by intros H a' [= <-]|by intros H; apply H].
Qed.

Lemma credentialWhy_nil i : credentialWhy i = [] <->
  credentialValid i = true /\ forall t, credentialExpiresAtMs i = Some t -> nowMs i < t.
Proof.
  unfold credentialWhy. destruct (credentialValid i); cbn [negb]; [|by split; [|intros [? _]]].
  destruct (credentialExpiresAtMs i) as [t|]; [|by split].
  rewrite flag_nil, Z.leb_gt. split; [by intros H; split; [|intros t' [= <-]]|intros [_ H]; by apply H].
Qed.

Lemma dependencyWhys_nil i p : dependencyWhys i p = [] <->
  contextlockBrokerReachable i = true /\ controlPlaneReachable i = true /\ modelGatewayReachable i = true /\
  adapterBrokerReachable i = true /\
  (credentialValid i = true /\ forall t, credentialExpiresAtMs i = Some t -> nowMs i < t) /\
  (forall a, eventCursorAgeMs i = Some a -> a <= eventCursorStaleAfterMs p) /\
  (forall a, strategyCheckpointAgeMs i = Some a -> a <= checkpointStaleAfterMs p).
Proof.
  unfold dependencyWhys. rewrite !app_nil, !flag_nil, credentialWhy_nil, !older_nil, !negb_false_iff. done.
Qed.

(** The agent's process is HEALTHY, and may start new work, exactly when it runs, is neither paused nor being stopped, does
    not keep restarting, reaches all four services, holds a credential that is valid and not expired, reads
    events and a checkpoint that are recent enough, and beat recently.  A container that merely runs is not
    enough.  And only a HEALTHY verdict is presented as a current reading. *)
Theorem runtime_health_spec i p describe atMs ttl now :
  let v := evaluateRuntime i p in
  (mayStartNewWork v = true <-> rv_state v = RS_HEALTHY) /\
  (rv_state v = RS_HEALTHY <->
     restartsInWindow i < crashLoopRestarts p /\ stopping i = false /\ containerRunning i = true /\ paused i = false /\
     dependencyWhys i p = [] /\ exists h, lastHeartbeatMs i = Some h /\ nowMs i - h <= heartbeatStaleAfterMs p) /\
  (isCurrent (presentable (runtimeObservation describe v atMs ttl) now) = true <-> rv_state v = RS_HEALTHY /\ now - atMs <= ttl).
Proof.
  cbv zeta.
  assert (Hm : mayStartNewWork (evaluateRuntime i p) = true <-> rv_state (evaluateRuntime i p) = RS_HEALTHY)
    by (unfold evaluateRuntime; repeat case_match; by split).
  split; [exact Hm|]. split.
  - unfold evaluateRuntime. destruct (Z.leb_spec (crashLoopRestarts p) (restartsInWindow i)) as [Hc|Hc]; [split; [done|lia]|].
    destruct (stopping i); [by split; [|intros (_ & [=] & _)]|].
    destruct (containerRunning i); cbn [negb]; [|destruct (paused i); by split; [|intros (_ & _ & [=] & _)]].
    destruct (paused i); [by split; [|intros (_ & _ & _ & [=] & _)]|].
    destruct (lastHeartbeatMs i) as [h|]; [|case_match; by split; [|intros (_ & _ & _ & _ & _ & h & [=] & _)]].
    set (all := dependencyWhys i p ++ older (Some (nowMs i - h)) (heartbeatStaleAfterMs p) HeartbeatOld).
    assert (Ha : all = [] <-> dependencyWhys i p = [] /\ nowMs i - h <= heartbeatStaleAfterMs p).
    { unfold all. rewrite app_nil, older_nil. split; intros [H1 H2]; (split; [exact H1|]); [by apply H2|by intros ? [= <-]]. }
    destruct all as [|w all']; split.
    + intros _. destruct (proj1 Ha eq_refl) as [H1 H2]. split_and!; try done. by exists h.
    + done.
    + done.
    + intros (_ & _ & _ & _ & H1 & h' & [= <-] & H2). by discriminate (proj2 Ha (conj H1 H2)).
  - rewrite presentable_current. unfold runtimeObservation. destruct (rv_state (evaluateRuntime i p)); cbn; naive_solver.
Qed.

End RuntimeHealth.

Module Fence.

Inductive FenceReason := FENCED | NOT_ACTIVE.
#[export] Instance FenceReason_eq_dec : EqDecision FenceReason.
Proof. solve_decision. Defined.

Record FencedRevision := { revisionId : string; fencedAtMs : Z; f_reason : string; supersededBy : string }.

(** [active] by agent, [fenced] by revision in the order of the Map. *)
Record RuntimeRevisionFence := { active : gmap string string; fenced : list FencedRevision }.
Definition newFence : RuntimeRevisionFence := {| active := ∅; fenced := [] |}.

Definition isFenced (s : RuntimeRevisionFence) (r : string) : bool := some (fun f => streq (revisionId f) r) (fenced s).
(** [Map.delete] and [Map.set], which keeps the place of a key it has. *)
Definition unfence (r : string) (l : list FencedRevision) : list FencedRevision :=
  List.filter (fun f => negb (streq (revisionId f) r)) l.
Definition setFenced (f : FencedRevision) (l : list FencedRevision) : list FencedRevision :=
  if some (fun g => streq (revisionId g) (revisionId f)) l
  then map (fun g => if streq (revisionId g) (revisionId f) then f else g) l
  else l ++ [f].

Definition activate (s : RuntimeRevisionFence) (agent r why : string) (nowMs : Z) : RuntimeRevisionFence * option FencedRevision :=
  let active' := <[agent := r]> (active s) in
  let rest := unfence r (fenced s) in
  match active s !! agent with
  | Some p =>
      if streq p "" || streq p r then ({| active := active'; fenced := rest |}, None)
      else let f := {| revisionId := p; fencedAtMs := nowMs; f_reason := why; supersededBy := r |} in
           ({| active := active'; fenced := setFenced f rest |}, Some f)
  | None => ({| active := active'; fenced := rest |}, None)
  end.

Definition activeRevision (s : RuntimeRevisionFence) (agent : string) : option string := active s !! agent.
Definition fencedBefore (a b : FencedRevision) : Prop := fencedAtMs a <= fencedAtMs b.
#[export] Instance fencedBefore_dec a b : Decision (fencedBefore a b).
Proof. unfold fencedBefore. apply _. Defined.
Definition fencedRevisions (s : RuntimeRevisionFence) : list FencedRevision := merge_sort fencedBefore (fenced s).

Definition assertActive (s : RuntimeRevisionFence) (agent r : string) : result FenceReason unit :=
  throw FENCED when isFenced s r ;;
  throw NOT_ACTIVE when negb (bool_decide (active s !! agent = Some r)) ;;
  Ok tt.

(** ** A history of activations *)

Record Activation := { agent : string; revision : string; why : string; at_ : Z }.
Definition step (s : RuntimeRevisionFence) (x : Activation) : RuntimeRevisionFence :=
  fst (activate s (agent x) (revision x) (why x) (at_ x)).
Definition run (h : list Activation) : RuntimeRevisionFence := fold_left step h newFence.

(** The revision the history last made active for an agent. *)
Definition lastOf (h : list Activation) (a : string) : option string :=
  option_map revision (List.find (fun x => streq (agent x) a) (rev h)).

Lemma lastOf_app h x a : lastOf (h ++ [x]) a = if streq (agent x) a then Some (revision x) else lastOf h a.
Proof. unfold lastOf. rewrite rev_app_distr. cbn. by destruct (streq (agent x) a). Qed.

Lemma lastOf_some h a r : lastOf h a = Some r -> exists x, x ∈ h /\ agent x = a /\ revision x = r.
Proof.
  unfold lastOf. destruct (List.find _ _) as [x|] eqn:E; [|done]. intros [= <-].
  apply find_true in E as [Hx Ha%streq_true]. exists x. by rewrite list_elem_of_In, <- in_rev, <- list_elem_of_In in Hx.
Qed.

Lemma isFenced_iff act l r : isFenced {| active := act; fenced := l |} r = true <-> r ∈ map revisionId l.
Proof.
  unfold isFenced. cbn [fenced]. rewrite some_true. setoid_rewrite streq_true. rewrite list_elem_of_fmap. naive_solver.
Qed.

Lemma unfence_ids r0 l r : r ∈ map revisionId (unfence r0 l) <-> r ∈ map revisionId l /\ r <> r0.
Proof.
  unfold unfence. rewrite !list_elem_of_fmap. split.
  - intros (f & -> & Hf). rewrite list_elem_of_In, filter_In, <- list_elem_of_In, negb_true_iff, streq_false in Hf. naive_solver.
  - intros [(f & -> & Hf) Hne]. exists f. split; [done|].
    by rewrite list_elem_of_In, filter_In, <- list_elem_of_In, negb_true_iff, streq_false.
Qed.

Lemma setFenced_ids f l r : r ∈ map revisionId (setFenced f l) <-> r ∈ map revisionId l \/ r = revisionId f.
Proof.
  unfold setFenced. destruct (some _ l) eqn:E.
  - apply some_true in E as (g & Hg & Eg%streq_true).
    rewrite map_map, (map_ext _ revisionId) by (intros h; case_match eqn:Eh; [by apply streq_true in Eh|done]).
    split; [by left|]. intros [Hr | ->]; [done|]. rewrite <- Eg. by apply list_elem_of_fmap_2.
  - rewrite map_app, elem_of_app. cbn. by rewrite list_elem_of_singleton.
Qed.

Lemma step_active s x a : active (step s x) !! a = if streq (agent x) a then Some (revision x) else active s !! a.
Proof.
  assert (active (step s x) = <[agent x := revision x]> (active s)) as ->
    by (unfold step, activate; repeat case_match; done).
  destruct (streq (agent x) a) eqn:E; [apply streq_true in E as <-; by rewrite lookup_insert_eq|].
  apply streq_false in E. by rewrite lookup_insert_ne.
Qed.

Lemma step_fenced s x r : isFenced (step s x) r = true <->
  (isFenced s r = true /\ r <> revision x) \/ (active s !! agent x = Some r /\ r <> "" /\ r <> revision x).
Proof.
  unfold step, activate. destruct s as [act l]. cbn [active fenced]. rewrite !isFenced_iff.
  destruct (act !! agent x) as [p|] eqn:Ep; [|cbn [fst]; rewrite isFenced_iff, unfence_ids; naive_solver].
  destruct (streq p "" || streq p (revision x)) eqn:E; cbn [fst]; rewrite isFenced_iff.
  - rewrite orb_true_iff, !streq_true in E. rewrite unfence_ids. naive_solver.
  - rewrite orb_false_iff, !streq_false in E. rewrite setFenced_ids, unfence_ids. cbn [revisionId]. naive_solver.
Qed.

Section owned.
(** A revision belongs to one agent. *)
Variable owner : string -> string.

Lemma fence_run h : (forall x, x ∈ h -> owner (revision x) = agent x) ->
  (forall a, active (run h) !! a = lastOf h a) /\
  (forall r, isFenced (run h) r = true <->
     r <> "" /\ (exists x, x ∈ h /\ revision x = r) /\ lastOf h (owner r) <> Some r).
Proof.
  induction h as [|x h IH] using rev_ind; intros Ho.
  { split; [intros a; apply lookup_empty|]. intros r. split; [done|]. intros (_ & (x & Hx & _) & _). by apply elem_of_nil in Hx. }
  assert (Hx : owner (revision x) = agent x) by (apply Ho; set_solver).
  destruct IH as [Ha Hf]; [intros y Hy; apply Ho; set_solver|].
  unfold run. rewrite fold_left_app. cbn [fold_left]. fold (run h). split.
  - intros a. by rewrite step_active, lastOf_app, Ha.
  - intros r. rewrite step_fenced, Hf, Ha, lastOf_app. setoid_rewrite elem_of_app. setoid_rewrite list_elem_of_singleton.
    destruct (streq (agent x) (owner r)) eqn:E; [apply streq_true in E|apply streq_false in E].
    + rewrite <- E. split.
      * intros [((Hr & (y & Hy & Ey) & Hl) & Hne) | (Hl & Hr & Hne)]; (split_and!; [done| |congruence]); [by exists y; auto|].
        apply lastOf_some in Hl as (y & Hy & _ & Ey). by exists y; auto.
      * intros (Hr & (y & [Hy | ->] & Ey) & Hne); [|by rewrite Ey in Hne].
        destruct (decide (lastOf h (agent x) = Some r)) as [Hl|Hl]; [right; split_and!; congruence|left].
        split_and!; try done; [by exists y|congruence].
    + assert (r <> revision x) by (intros ->; congruence).
      assert (lastOf h (agent x) <> Some r).
      { intros (y & Hy & Ea & Er)%lastOf_some. apply E. rewrite <- Ea, <- Er. symmetry. apply Ho. set_solver. }
      split; [naive_solver|]. intros (Hr & (y & [Hy | ->] & Ey) & Hl); [left; naive_solver|congruence].
Qed.

(** C28: a superseded runtime can do nothing.  Whatever revisions were made active in whatever order, a rollback to an earlier one
    included, the gateways honour exactly the revision that was made active last for its agent; every other one
    that ever was active is refused as fenced; and one that never was is refused as not active.  Provided a
    revision belongs to one agent. *)
Theorem fence_spec h : (forall x, x ∈ h -> owner (revision x) = agent x) ->
  forall a r, r <> "" -> owner r = a ->
  (assertActive (run h) a r = Ok tt <-> lastOf h a = Some r) /\
  (assertActive (run h) a r = Err FENCED <-> lastOf h a <> Some r /\ exists x, x ∈ h /\ revision x = r) /\
  (assertActive (run h) a r = Err NOT_ACTIVE <-> forall x, x ∈ h -> revision x <> r).
Proof.
  intros Ho a r Hr Ha. destruct (fence_run h Ho) as [Hact Hf]. specialize (Hf r). rewrite Ha in Hf.
  assert (Hl : lastOf h a = Some r -> exists x, x ∈ h /\ revision x = r).
  { intros (y & Hy & _ & Er)%lastOf_some. by exists y. }
  unfold assertActive. rewrite Hact. destruct (isFenced (run h) r); cbn.
  - destruct (proj1 Hf eq_refl) as (_ & He & Hne). naive_solver.
  - assert (Hn : (exists x, x ∈ h /\ revision x = r) -> lastOf h a = Some r).
    { intros He. destruct (decide (lastOf h a = Some r)); [done|]. by assert (false = true) by (apply Hf; auto). }
    destruct (decide (lastOf h a = Some r)) as [E|E].
    + rewrite bool_decide_eq_true_2 by done. cbn. naive_solver.
    + rewrite bool_decide_eq_false_2 by done. cbn. naive_solver.
Qed.

End owned.
End Fence.

Module Liveness.
Import AdapterHealth RuntimeHealth.

Record LivenessInputs := {
  runtime : RuntimeState; policyEnabled : option bool; policyIsCurrent : bool; identityActive : option bool;
  requiredAdapters : list AdapterHealth; creRequired : bool; creActive : option bool
}.

(** The reasons, with what their texts name. *)
Inductive WhyNot :=
| RuntimeIs (s : RuntimeState) | PolicyUnknown | PolicyDisabled | PolicyNotCurrent | IdentityUnknown | IdentityNotActive
| AdapterIs (a : string) (s : AdapterHealthState) | CreUnknown | CreNotActive.

(** Nothing for [Some true], one reason when it is not known and another when it is false. *)
Definition tristate {A : Type} (o : option bool) (unknown no : A) : list A :=
  match o with None => [unknown] | Some false => [no] | Some true => [] end.

Definition livenessReasons (i : LivenessInputs) : list WhyNot :=
  (if bool_decide (runtime i = RS_HEALTHY) then [] else [RuntimeIs (runtime i)]) ++
  tristate (policyEnabled i) PolicyUnknown PolicyDisabled ++
  (if policyIsCurrent i then [] else [PolicyNotCurrent]) ++
  tristate (identityActive i) IdentityUnknown IdentityNotActive ++
  flat_map (fun a => if bool_decide (ah_state a = AH_HEALTHY) then [] else [AdapterIs (adapterId a) (ah_state a)]) (requiredAdapters i) ++
  (if creRequired i then tristate (creActive i) CreUnknown CreNotActive else []).
Definition agentIsLive (i : LivenessInputs) : bool * list WhyNot :=
  (match livenessReasons i with [] => true | _ => false end, livenessReasons i).

Lemma tristate_nil {A : Type} o (u n : A) : tristate o u n = [] <-> o = Some true.
Proof. by destruct o as [[]|]. Qed.

(** The LIVE badge is shown exactly when everything is known and good right now: a healthy runtime, a policy that is enabled
    by a current reading, an active identity, every required adapter healthy, and, where the agent needs one, an
    active CRE workflow.  What is not known counts as not live.  And the reasons shown are never empty otherwise. *)
Theorem live_iff i :
  (fst (agentIsLive i) = true <->
     runtime i = RS_HEALTHY /\ policyEnabled i = Some true /\ policyIsCurrent i = true /\ identityActive i = Some true /\
     (forall a, a ∈ requiredAdapters i -> ah_state a = AH_HEALTHY) /\ (creRequired i = true -> creActive i = Some true)) /\
  (fst (agentIsLive i) = true <-> snd (agentIsLive i) = []).
Proof.
  assert (H : fst (agentIsLive i) = true <-> livenessReasons i = []) by (cbn; destruct (livenessReasons i); by split).
  split; [|exact H]. rewrite H. unfold livenessReasons. rewrite !app_nil, !tristate_nil, flat_map_nil.
  assert (forall a, (if bool_decide (ah_state a = AH_HEALTHY) then [] else [AdapterIs (adapterId a) (ah_state a)]) = [] <->
    ah_state a = AH_HEALTHY) as Ha by (intros a; case_bool_decide; by split).
  setoid_rewrite Ha.
  assert ((if bool_decide (runtime i = RS_HEALTHY) then [] else [RuntimeIs (runtime i)]) = [] <-> runtime i = RS_HEALTHY) as ->
    by (case_bool_decide; by split).
  assert ((if policyIsCurrent i then [] else [PolicyNotCurrent]) = [] <-> policyIsCurrent i = true) as ->
    by (destruct (policyIsCurrent i); by split).
  assert ((if creRequired i then tristate (creActive i) CreUnknown CreNotActive else []) = [] <->
    (creRequired i = true -> creActive i = Some true)) as ->; [|done].
  destruct (creRequired i); [rewrite tristate_nil; naive_solver|naive_solver].
Qed.

End Liveness.

Module Cre.
Import Freshness.

Inductive CreState := C_NOT_CONFIGURED | C_BLOCKED | C_NOT_DEPLOYED | C_PAUSED | C_ACTIVE | C_DEGRADED | C_FAILED | C_STALE.
#[export] Instance CreState_eq_dec : EqDecision CreState.
Proof. solve_decision. Defined.
Inductive Provenance := LIVE | FIXTURE.
#[export] Instance Provenance_eq_dec : EqDecision Provenance.
Proof. solve_decision. Defined.

Record CreConnection := {
  connected : bool; organizationId : option string; organizationName : option string; accountLabel : option string;
  deployAccess : bool; availableRegistryIds : list string; cliVersion : option string
}.
Record CreWorkflow := {
  workflowId : string; workflowName : string; registry : string; status : string; binaryHash : option string;
  lastExecutionAtMs : option Z; totalRuns : option Z; successCount : option Z; failureCount : option Z; provenance : Provenance
}.

Inductive CreReason :=
| NOT_CONNECTED | DEPLOY_ACCESS_REQUIRED | NO_WORKFLOW | TELEMETRY_STALE | BRIDGE_OFFLINE | FIXTURE_IN_LIVE
| CONFIRMATION_MISMATCH | NOT_AVAILABLE.
#[export] Instance CreReason_eq_dec : EqDecision CreReason.
Proof. solve_decision. Defined.

Definition assertDestructiveConfirmation (name typedWorkflowName : string) : result CreReason unit :=
  throw CONFIRMATION_MISMATCH when negb (streq typedWorkflowName name) ;; Ok tt.

Definition FIXTURE_MARKER : string := "fixture-".
Definition assertNotFixture (p : Provenance) (workflow : option string) : result CreReason unit :=
  throw FIXTURE_IN_LIVE when bool_decide (p = FIXTURE) ;;
  throw FIXTURE_IN_LIVE when match workflow with Some w => starts_with FIXTURE_MARKER w | None => false end ;;
  Ok tt.

(** ** The monitor *)

Record Reading := { r_connection : CreConnection; r_workflow : option CreWorkflow }.

(** The provider: its id and the answers of the two calls, an error with its message. *)
Record Provider := {
  providerId : string; getConnectionStatus : result string CreConnection; getWorkflow : string -> result string (option CreWorkflow)
}.

Definition readProvider (p : Provider) (name : option string) : result string Reading :=
  let* c := getConnectionStatus p in
  let* w := match name with
            | Some n => if streq n "" then Ok None else getWorkflow p n
            | None => Ok None
            end in
  Ok {| r_connection := c; r_workflow := w |}.

(** The monitor's state is the last observation kept; the answer is the one returned. *)
Definition Last := option (Observation Reading).
Definition sync (last : Last) (p : option Provider) (name : option string) (nowMs ttl : Z) : Last * Observation Reading :=
  match p with
  | None =>
      let o := unavailable NOT_CONFIGURED nowMs "cre" ttl "no CRE provider is configured for this deployment" in (Some o, o)
  | Some q =>
      match readProvider q name with
      | Ok v => let o := observed v nowMs ("cre:" +:+ providerId q) ttl None None in (Some o, o)
      | Err e =>
          let o := unavailable FAILED nowMs ("cre:" +:+ providerId q) ttl ("CRE could not be reached: " +:+ e) in
          (match last with None => Some o | Some _ => last end, o)
      end
  end.

Record CreStatusView := {
  v_state : CreState; v_connection : option CreConnection; v_workflow : option CreWorkflow; blockedBy : option CreReason;
  lastSyncedAtMs : option Z; v_isCurrent : bool
}.

Definition workflowState (st : string) : CreState :=
  let s := to_upper st in
  if streq s "ACTIVE" then C_ACTIVE else if streq s "PAUSED" then C_PAUSED else if streq s "FAILED" then C_FAILED else C_DEGRADED.

(** The panel for a value that is neither stale nor missing. *)
Definition viewReading (v : Reading) (at_ : Z) (current : bool) : CreStatusView :=
  let c := r_connection v in
  let mk st w b := {| v_state := st; v_connection := Some c; v_workflow := w; blockedBy := b; lastSyncedAtMs := Some at_; v_isCurrent := current |} in
  if negb (connected c) then mk C_NOT_CONFIGURED None (Some NOT_CONNECTED)
  else if negb (deployAccess c) then mk C_BLOCKED (r_workflow v) (Some DEPLOY_ACCESS_REQUIRED)
  else match r_workflow v with
       | None => mk C_NOT_DEPLOYED None (Some NO_WORKFLOW)
       | Some w => mk (workflowState (status w)) (Some w) None
       end.

Definition view (last : Last) (nowMs : Z) : CreStatusView :=
  match last with
  | None => {| v_state := C_NOT_CONFIGURED; v_connection := None; v_workflow := None; blockedBy := None; lastSyncedAtMs := None; v_isCurrent := false |}
  | Some o =>
      let p := presentable o nowMs in
      let off st c w b := {| v_state := st; v_connection := c; v_workflow := w; blockedBy := b; lastSyncedAtMs := Some (observedAtMs o);
                             v_isCurrent := false |} in
      match state (shown p) with
      | NOT_CONFIGURED => off C_NOT_CONFIGURED None None None
      | STALE => off C_STALE (option_map r_connection (value (shown p))) (value (shown p) ≫= r_workflow) (Some TELEMETRY_STALE)
      | FAILED => off C_FAILED None None (Some BRIDGE_OFFLINE)
      | _ => match value (shown p) with
             | None => off C_FAILED None None (Some BRIDGE_OFFLINE)
             | Some v => viewReading v (observedAtMs o) (isCurrent p)
             end
      end
  end.

(** A sequence of syncs, each with its provider, workflow, time and limit. *)
Record Sync := { s_provider : option Provider; s_name : option string; s_at : Z; s_ttl : Z }.
Definition after (l : list Sync) : Last := fold_left (fun s x => fst (sync s (s_provider x) (s_name x) (s_at x) (s_ttl x))) l None.

(** The sync that the kept observation is of: the last that did not fail, or the first when all failed. *)
Definition kept (x : Sync) (o : Observation Reading) : Prop :=
  observedAtMs o = s_at x /\ ttlMs o = s_ttl x /\
  match s_provider x with
  | None => state o = NOT_CONFIGURED /\ value o = None
  | Some p => match readProvider p (s_name x) with
              | Ok v => state o = HEALTHY /\ value o = Some v
              | Err _ => state o = FAILED /\ value o = None
              end
  end.

Lemma after_kept l o : after l = Some o -> exists x, x ∈ l /\ kept x o.
Proof.
  revert o. induction l as [|x l IH] using rev_ind; [done|]. intros o. unfold after. rewrite fold_left_app. cbn [fold_left]. fold (after l).
  unfold sync. destruct (s_provider x) as [p|] eqn:Ep.
  - destruct (readProvider p (s_name x)) as [v|e] eqn:Er; cbn [fst].
    + intros [= <-]. exists x. split; [set_solver|]. unfold kept. by rewrite Ep, Er.
    + destruct (after l) as [o'|] eqn:El; intros [= <-].
      * destruct (IH o' eq_refl) as (y & Hy & Hk). exists y. split; [set_solver|done].
      * exists x. split; [set_solver|]. unfold kept. by rewrite Ep, Er.
  - cbn [fst]. intros [= <-]. exists x. split; [set_solver|]. unfold kept. by rewrite Ep.
Qed.

Lemma workflowState_active st : workflowState st = C_ACTIVE <-> to_upper st = "ACTIVE".
Proof.
  unfold workflowState. destruct (streq (to_upper st) "ACTIVE") eqn:E; [by apply streq_true in E|].
  apply streq_false in E. split; [|done]. by repeat case_match.
Qed.

(** The CRE panel never shows a workflow as ACTIVE without evidence of that.  There was a sync that reached the provider, not longer
    ago than its limit, and it found a session, an organization with deployment access and this workflow with the
    status ACTIVE; and the panel is marked current only then or for the other findings of such a sync. *)
Theorem cre_panel_honest l nowMs :
  (v_state (view (after l) nowMs) = C_ACTIVE -> exists x p v w,
     x ∈ l /\ s_provider x = Some p /\ readProvider p (s_name x) = Ok v /\ nowMs - s_at x <= s_ttl x /\
     connected (r_connection v) = true /\ deployAccess (r_connection v) = true /\ r_workflow v = Some w /\
     to_upper (status w) = "ACTIVE" /\ v_workflow (view (after l) nowMs) = Some w) /\
  (v_isCurrent (view (after l) nowMs) = true -> exists x p v,
     x ∈ l /\ s_provider x = Some p /\ readProvider p (s_name x) = Ok v /\ nowMs - s_at x <= s_ttl x /\
     view (after l) nowMs = viewReading v (s_at x) true).
Proof.
  destruct (after l) as [o|] eqn:E; [|done]. apply after_kept in E as (x & Hx & Ht & Hl & Hk).
  unfold view, presentable, isExpired. rewrite Ht, Hl.
  destruct (s_provider x) as [p|] eqn:Ep; [|destruct Hk as [Hs _]; rewrite Hs, andb_false_r; cbn; by rewrite Hs].
  destruct (readProvider p (s_name x)) as [v|e] eqn:Er; [|destruct Hk as [Hs _]; rewrite Hs, andb_false_r; cbn; by rewrite Hs].
  destruct Hk as [Hs Hv]. destruct (Z.ltb_spec (s_ttl x) (nowMs - s_at x)); rewrite ?Hs; cbn; [done|].
  rewrite Hs, Hv. cbn. split; [|by intros _; exists x, p, v].
  unfold viewReading. destruct (connected (r_connection v)) eqn:Ec; [|done]. destruct (deployAccess (r_connection v)) eqn:Ed; [|done].
  destruct (r_workflow v) as [w|] eqn:Ew; [|done]. cbn. rewrite workflowState_active. intros Ha. by exists x, p, v, w.
Qed.

End Cre.

(** Concrete readings, and what the monitors make of them. *)
Module Samples.
Import Freshness AdapterHealth RuntimeHealth Fence.

Definition good (t : Z) : Sample := {| atMs := t; succeeded := true; latencyMs := 40; dataAtMs := Some t; s_reason := None |}.
Definition slow (t : Z) : Sample := {| atMs := t; succeeded := true; latencyMs := 20000; dataAtMs := None; s_reason := None |}.
Definition fed (l : list Sample) : AdapterHealthService :=
  fold_left (fun s x => record DEFAULT_ADAPTER_POLICY s "feed" x) l (register newService "feed" "1.0.0").

(** Three good calls are HEALTHY; one slow call in four is DEGRADED, and after the window nothing is known. *)
Example sample_adapter : map (fun x => ah_state (health DEFAULT_ADAPTER_POLICY (fed (fst x)) "feed" (snd x)))
    [([good 1000; good 2000], 3000); ([good 1000; good 2000; good 3000], 3000);
     ([good 1000; good 2000; good 3000; slow 4000], 4000); ([good 1000; good 2000; good 3000], 700000);
     ([good 1000; good 2000; good 3000], 400000)]
  = [AH_UNKNOWN; AH_HEALTHY; AH_DEGRADED; AH_UNKNOWN; AH_DEGRADED].
Proof. vm_compute. reflexivity. Qed.

Lemma adapter_health_spec_witness :
  let h := health DEFAULT_ADAPTER_POLICY (fed [good 1000; good 2000; good 3000]) "feed" 3000 in
  mayDecideOn (adapterUsage h) = true <-> ah_state h = AH_HEALTHY.
Proof.
  apply (proj1 (proj2 (adapter_health_spec DEFAULT_ADAPTER_POLICY (fed [good 1000; good 2000; good 3000]) "feed" 3000
    ltac:(cbn; lia)))).
Defined.

Definition up : RuntimeObservationInputs :=
  {| containerRunning := true; containerHealth := Some "healthy"; restartsInWindow := 0; observedImageDigest := Some "sha256:aa";
     lastHeartbeatMs := Some 99000; controlPlaneReachable := true; modelGatewayReachable := true; adapterBrokerReachable := true;
     contextlockBrokerReachable := true; eventCursorAgeMs := Some 10; credentialValid := true; credentialExpiresAtMs := Some 200000;
     strategyCheckpointAgeMs := Some 10; paused := false; stopping := false; processStartedAtMs := Some 0; nowMs := 100000 |}.

(** What the provider says of the container's health, and the image it runs, are not looked at: a container reported
    unhealthy with another image is HEALTHY. *)
Example container_health_unread : let i :=
    {| containerRunning := true; containerHealth := Some "unhealthy"; restartsInWindow := 0; observedImageDigest := Some "sha256:ff";
       lastHeartbeatMs := Some 99000; controlPlaneReachable := true; modelGatewayReachable := true; adapterBrokerReachable := true;
       contextlockBrokerReachable := true; eventCursorAgeMs := Some 10; credentialValid := true; credentialExpiresAtMs := Some 200000;
       strategyCheckpointAgeMs := Some 10; paused := false; stopping := false; processStartedAtMs := Some 0; nowMs := 100000 |} in
  rv_state (evaluateRuntime i DEFAULT_RUNTIME_POLICY) = RS_HEALTHY /\
  evaluateRuntime i DEFAULT_RUNTIME_POLICY = evaluateRuntime up DEFAULT_RUNTIME_POLICY.
Proof. split; reflexivity. Qed.

Definition switch (a r : string) (t : Z) : Activation := {| agent := a; revision := r; why := "superseded"; at_ := t |}.
Definition rollback : list Activation := [switch "alice" "rev1" 10; switch "bob" "rev9" 20; switch "alice" "rev2" 30; switch "alice" "rev1" 40].

Example sample_fenced : map (fun x => assertActive (run rollback) (fst x) (snd x))
    [("alice", "rev1"); ("alice", "rev2"); ("bob", "rev9"); ("bob", "rev1"); ("alice", "rev3")]
  = [Ok tt; Err FENCED; Ok tt; Err NOT_ACTIVE; Err NOT_ACTIVE] /\
  map revisionId (fencedRevisions (run rollback)) = ["rev2"].
Proof. vm_compute. split; reflexivity. Qed.

Lemma fence_spec_witness : assertActive (run rollback) "alice" "rev2" = Err FENCED.
Proof.
  apply (proj1 (proj2 (fence_spec (fun r => if streq r "rev9" then "bob" else "alice") rollback
    ltac:(intros x Hx; repeat (apply elem_of_cons in Hx as [-> | Hx]; [reflexivity|]); by apply elem_of_nil in Hx)
    "alice" "rev2" ltac:(done) eq_refl))).
  split; [done|]. exists (switch "alice" "rev2" 30). split; [|done]. right; right; left.
Defined.

(** The fence is kept by revision alone: when two agents run the same revision, moving one of them on shuts the other out. *)
Example shared_revision_fenced :
  let h := [switch "alice" "rev1" 10; switch "bob" "rev1" 20; switch "alice" "rev2" 30] in
  activeRevision (run h) "bob" = Some "rev1" /\ assertActive (run h) "bob" "rev1" = Err FENCED.
Proof. split; reflexivity. Qed.

Definition session : Cre.CreConnection :=
  {| Cre.connected := true; Cre.organizationId := None; Cre.organizationName := None; Cre.accountLabel := None; Cre.deployAccess := true;
     Cre.availableRegistryIds := []; Cre.cliVersion := None |}.
Definition deployed : Cre.CreWorkflow :=
  {| Cre.workflowId := "w1"; Cre.workflowName := "policy"; Cre.registry := "private"; Cre.status := "Active"; Cre.binaryHash := None;
     Cre.lastExecutionAtMs := None; Cre.totalRuns := None; Cre.successCount := None; Cre.failureCount := None; Cre.provenance := Cre.LIVE |}.
Definition online : Cre.Provider :=
  {| Cre.providerId := "cli"; Cre.getConnectionStatus := Ok session; Cre.getWorkflow := fun _ => Ok (Some deployed) |}.
Definition offline : Cre.Provider :=
  {| Cre.providerId := "cli"; Cre.getConnectionStatus := Err "down"; Cre.getWorkflow := fun _ => Err "down" |}.
Definition sync_at (p : Cre.Provider) (t : Z) : Cre.Sync :=
  {| Cre.s_provider := Some p; Cre.s_name := Some "policy"; Cre.s_at := t; Cre.s_ttl := 120000 |}.

(** After a sync that failed, the panel still shows the earlier answer as ACTIVE and current until its limit runs out. *)
Example failed_sync_still_current :
  let v := Cre.view (Cre.after [sync_at online 1000; sync_at offline 60000]) 60000 in
  (Cre.v_state v, Cre.v_isCurrent v, Cre.blockedBy v) = (Cre.C_ACTIVE, true, None) /\
  Cre.v_state (Cre.view (Cre.after [sync_at online 1000; sync_at offline 60000]) 130000) = Cre.C_STALE /\
  Cre.v_state (Cre.view (Cre.after [sync_at offline 60000]) 60000) = Cre.C_FAILED.
Proof. vm_compute. repeat split; reflexivity. Qed.

End Samples.
