(* ===== verification/Reality.v ===== *)
(** * The reality engine: reading the market without being able to write to it

    [packages/studio-reality/src].  Module [Rpc] is [rpc.ts] with the client of [transport.ts]: the methods that may
    go on the wire, the credentials that may not come in, the endpoints.  Module [Sources] is [sources.ts], the
    selection of a market source and the comparison of readings.  Module [Assets] is [assets.ts], the identity of tokens.  Module
    [Snapshot] is [snapshot.ts], the sealed picture of the market.  Module [RealitySamples] has concrete cases.

    A decimal or a block number stays the string it is where it is hashed.  The readings compared are integers.
    SHA-256 and [localeCompare] are parameters. *)

From S2P Require Import Prelude JsNum Regex Json Scanner Network Adapters.
From stdpp Require Import pretty sorting.
From Stdlib Require Import Ascii.
Local Open Scope Z_scope.

Module Rpc.
Import Network.Roles.

Definition RPC_READ_METHODS : list string :=
  ["eth_blockNumber"; "eth_chainId"; "eth_call"; "eth_getBlockByNumber"; "eth_getBlockByHash"; "eth_getBalance"; "eth_getCode"; "eth_getLogs";
   "eth_getStorageAt"; "eth_getTransactionByHash"; "eth_getTransactionReceipt"; "eth_getTransactionCount";
   "eth_getBlockTransactionCountByNumber"; "eth_feeHistory"; "eth_gasPrice"; "eth_maxPriorityFeePerGas"; "eth_estimateGas"; "net_version";
   "web3_clientVersion"].
Definition RPC_FORBIDDEN_METHODS : list string :=
  ["eth_sendTransaction"; "eth_sendRawTransaction"; "eth_sign"; "eth_signTransaction"; "eth_signTypedData"; "eth_signTypedData_v3";
   "eth_signTypedData_v4"; "eth_accounts"; "eth_requestAccounts"; "eth_sendBundle"; "personal_sign"; "personal_unlockAccount";
   "personal_sendTransaction"; "personal_importRawKey"; "wallet_addEthereumChain"; "wallet_switchEthereumChain";
   "wallet_requestPermissions"; "wallet_sendTransaction"; "miner_start"; "evm_mine"; "anvil_impersonateAccount";
   "hardhat_impersonateAccount"; "debug_traceCall"].
Definition FORBIDDEN_RPC_NAMESPACES : list string :=
  ["personal_"; "wallet_"; "miner_"; "anvil_"; "hardhat_"; "evm_"; "txpool_"; "admin_"].

Inductive RpcFenceReason := WRITE_METHOD | SIGNING_METHOD | UNKNOWN_METHOD | NOT_READ_ONLY | CREDENTIAL_PRESENT.
#[export] Instance RpcFenceReason_eq_dec : EqDecision RpcFenceReason.
Proof. solve_decision. Defined.

(** [/sign|accounts|personal/]. *)
Definition signing (s : string) : bool := str_contains "sign" s || str_contains "accounts" s || str_contains "personal" s.

Definition assertRpcMethodAllowed (method : string) : result RpcFenceReason unit :=
  let lower := to_lower method in
  throw (if signing lower then SIGNING_METHOD else WRITE_METHOD)
    when includes RPC_FORBIDDEN_METHODS method || includes RPC_FORBIDDEN_METHODS lower ;;
  throw WRITE_METHOD when some (fun ns => starts_with ns lower) FORBIDDEN_RPC_NAMESPACES ;;
  throw UNKNOWN_METHOD when negb (includes RPC_READ_METHODS method) ;;
  Ok tt.

(** ** Endpoints *)

Inductive ArchiveDepth := ARCHIVE | RECENT_STATE_ONLY | UNKNOWN_DEPTH.
#[export] Instance ArchiveDepth_eq_dec : EqDecision ArchiveDepth.
Proof. solve_decision. Defined.
Definition RECENT_STATE_BLOCKS : Z := 128.
Definition assertCanServeHistorical (d : ArchiveDepth) (requestedBlock headBlock : Z) : result RpcFenceReason unit :=
  if headBlock - requestedBlock <=? RECENT_STATE_BLOCKS then Ok tt
  else throw NOT_READ_ONLY when negb (bool_decide (d = ARCHIVE)) ;; Ok tt.

Definition SIGNER_CREDENTIAL_FIELDS : list string :=
  ["privateKey"; "private_key"; "privatekey"; "mnemonic"; "seed"; "seedPhrase"; "keystore"; "walletSession"; "signer"; "account";
   "capabilityIssuer"; "ledger"; "derivationPath"; "secretKey"; "apiSecret"].
Definition credentialName (key : string) : bool := some (fun f => streq (to_lower key) (to_lower f)) SIGNER_CREDENTIAL_FIELDS.
(** [/^0x[0-9a-fA-F]{64}$/]. *)
Definition keyShaped (v : jsv) : bool :=
  match v with VStr s => matches (Cat (lit "0x") (rep 64 (Chr is_hex_ci))) s | _ => false end.

(** The path of the first credential of a configuration, in the order of the walk. *)
Fixpoint firstCredential (v : jsv) (p : list string) : option (list string) :=
  match v with
  | VArr l =>
      (fix go (i : nat) (l : list jsv) : option (list string) :=
         match l with
         | [] => None
         | x :: l' => match firstCredential x (p ++ [pretty i]) with Some r => Some r | None => go (S i) l' end
         end) O l
  | VObj o =>
      (fix go (o : list (string * jsv)) : option (list string) :=
         match o with
         | [] => None
         | (k, x) :: o' =>
             if credentialName k || keyShaped x then Some (p ++ [k])
             else match firstCredential x (p ++ [k]) with Some r => Some r | None => go o' end
         end) o
  | _ => None
  end.
Definition assertNoSignerCredential (config : jsv) : result RpcFenceReason unit :=
  match firstCredential config [] with Some _ => Err CREDENTIAL_PRESENT | None => Ok tt end.

Definition assertReadSourceAllowed (cid : Z) : result RpcFenceReason unit :=
  match lookupNetwork cid with
  | None => Err NOT_READ_ONLY
  | Some n =>
      throw NOT_READ_ONLY
        when match rpcCapability n with READ_ONLY => false | READ_WRITE => bool_decide (role n = READ_ONLY_SOURCE) end ;;
      Ok tt
  end.
Definition readSourceRef (cid : Z) : NetworkRef :=
  {| ref_chainId := cid; ref_role := READ_ONLY_SOURCE; forkedFrom := None; forkBlock := None |}.

(** ** The client: one way onto the wire *)

(** What a caller may ask of a client; [Raw] is [request] itself. *)
Inductive Call :=
| GetBlockNumber | GetBlock | GetBalance | EthCall | GetLogs | GetCode | GetStorageAt | GetTransactionReceipt | Raw (method : string).
Definition methodOf (c : Call) : string :=
  match c with
  | GetBlockNumber => "eth_blockNumber" | GetBlock => "eth_getBlockByNumber" | GetBalance => "eth_getBalance" | EthCall => "eth_call"
  | GetLogs => "eth_getLogs" | GetCode => "eth_getCode" | GetStorageAt => "eth_getStorageAt"
  | GetTransactionReceipt => "eth_getTransactionReceipt" | Raw m => m
  end.

(** A client with the methods it has sent; its request counter is their number. *)
Record Client := { c_chainId : Z; sent : list string }.
Definition newClient (endpoint : jsv) (cid : Z) : result RpcFenceReason Client :=
  let* _ := assertNoSignerCredential endpoint in
  let* _ := assertReadSourceAllowed cid in
  Ok {| c_chainId := cid; sent := [] |}.
(** What the node answers is of no matter here. *)
Definition request (c : Client) (k : Call) : Client * result RpcFenceReason unit :=
  match assertRpcMethodAllowed (methodOf k) with
  | Err e => (c, Err e)
  | Ok _ => ({| c_chainId := c_chainId c; sent := sent c ++ [methodOf k] |}, Ok tt)
  end.
Definition requests (c : Client) (l : list Call) : Client := fold_left (fun c k => fst (request c k)) l c.

(** [corroborateBlockNumber] on the answers: the lowest height and the distance to the highest, none when nobody answered. *)
Definition corroborate (answers : list (option Z)) : option (Z * Z) :=
  match omap id answers with
  | [] => None
  | n :: l => let lo := fold_left Z.min l n in Some (lo, fold_left Z.max l n - lo)
  end.

(** ** Two boundaries *)

Lemma read_methods_pass m : m ∈ RPC_READ_METHODS -> assertRpcMethodAllowed m = Ok tt.
Proof.
  assert (every (fun m => is_ok (assertRpcMethodAllowed m)) RPC_READ_METHODS = true) as H by (vm_compute; reflexivity).
  rewrite every_true in H. intros Hm. specialize (H m Hm). by destruct (assertRpcMethodAllowed m) as [[]|].
Qed.

Lemma method_allowed m : assertRpcMethodAllowed m = Ok tt <-> m ∈ RPC_READ_METHODS.
Proof.
  split; [|apply read_methods_pass]. unfold assertRpcMethodAllowed. rewrite !throw_ok.
  intros (_ & _ & H%negb_false_iff & _). by apply includes_true in H.
Qed.

(** Nothing but a read goes on the wire.  The fence lets a method through exactly when it is one of the nineteen of the list,
    so in particular no method of the forbidden names or namespaces, in whatever case it is written; and whatever a caller asks of a
    client, by its own operations or by name, and in whatever order, the methods it sent are those of its requests
    that are reads, in that order. *)
Theorem wire_is_read_only m c l :
  (assertRpcMethodAllowed m = Ok tt <-> m ∈ RPC_READ_METHODS) /\
  (m ∈ RPC_FORBIDDEN_METHODS -> ~ m ∈ RPC_READ_METHODS) /\
  (forall ns, ns ∈ FORBIDDEN_RPC_NAMESPACES -> starts_with ns (to_lower m) = true -> ~ m ∈ RPC_READ_METHODS) /\
  sent (requests c l) = sent c ++ List.filter (fun m => includes RPC_READ_METHODS m) (map methodOf l) /\
  (forall k, is_ok (snd (request c k)) = includes RPC_READ_METHODS (methodOf k)).
Proof.
  assert (Hr : forall c k, request c k =
    if includes RPC_READ_METHODS (methodOf k)
    then ({| c_chainId := c_chainId c; sent := sent c ++ [methodOf k] |}, Ok tt)
    else (c, match assertRpcMethodAllowed (methodOf k) with Ok _ => Ok tt | Err e => Err e end)).
  { intros c' k. unfold request. destruct (includes RPC_READ_METHODS (methodOf k)) eqn:E.
    - apply includes_true in E. by rewrite (read_methods_pass _ E).
    - apply includes_false in E. rewrite <- method_allowed in E. by destruct (assertRpcMethodAllowed (methodOf k)) as [[]|]. }
  split_and!.
  - apply method_allowed.
  - intros Hf Hm. apply method_allowed in Hm. unfold assertRpcMethodAllowed in Hm. rewrite throw_ok in Hm.
    destruct Hm as [H _]. apply includes_true in Hf. by rewrite Hf in H.
  - intros ns Hn Hs Hm. apply method_allowed in Hm. unfold assertRpcMethodAllowed in Hm. rewrite !throw_ok, some_false in Hm.
    destruct Hm as (_ & H & _). by rewrite (H ns Hn) in Hs.
  - revert c. unfold requests. induction l as [|k l IH]; intros c; cbn [fold_left map List.filter]; [by rewrite app_nil_r|].
    rewrite IH, Hr. destruct (includes RPC_READ_METHODS (methodOf k)); cbn [fst sent]; [by rewrite <- app_assoc|done].
  - intros k. rewrite Hr. destruct (includes RPC_READ_METHODS (methodOf k)) eqn:E; [done|]. cbn [snd].
    apply includes_false in E. rewrite <- method_allowed in E. by destruct (assertRpcMethodAllowed (methodOf k)) as [[]|].
Qed.

(** A part of a value, through arrays and objects. *)
Inductive part : jsv -> jsv -> Prop :=
| part_here v : part v v
| part_arr x y l : y ∈ l -> part x y -> part x (VArr l)
| part_obj x k y o : (k, y) ∈ o -> part x y -> part x (VObj o).

(** No object in the value has a field with the name of a credential, or with the shape of a key in it. *)
Definition clean (v : jsv) : Prop :=
  forall o k x, part (VObj o) v -> (k, x) ∈ o -> credentialName k = false /\ keyShaped x = false.

Lemma unsigned_arr l : clean (VArr l) <-> forall x, x ∈ l -> clean x.
Proof.
  split; [intros H x Hx o k y Hp; apply (H o k y); by eapply part_arr|].
  intros H o k y Hp Hin. inversion Hp as [|? z ? Hz Hp'|]; subst. by apply (H z Hz o k y).
Qed.

Lemma unsigned_obj o : clean (VObj o) <-> forall k x, (k, x) ∈ o -> credentialName k = false /\ keyShaped x = false /\ clean x.
Proof.
  split.
  - intros H k x Hin. destruct (H o k x (part_here _) Hin) as [H1 H2]. split_and!; [done..|].
    intros o' k' y Hp Hy. apply (H o' k' y); [by eapply part_obj|done].
  - intros H o' k y Hp Hin. inversion Hp as [|? ? ? ?|? k' z ? Hz Hp']; subst; [by destruct (H k y Hin) as (? & ? & _)|].
    destruct (H k' z Hz) as (_ & _ & Hc). by apply (Hc o' k y).
Qed.

(** A configuration is taken for a client exactly when no object anywhere in it, however deep, has a field that is called like a
    credential, in whatever case, or that holds a value with the shape of a private key. *)
Theorem credential_scan v : assertNoSignerCredential v = Ok tt <-> clean v.
Proof.
  assert (H : forall p, firstCredential v p = None <-> clean v).
  { induction v as [v Hv|l IH|o IH] using Scanner.jsv_nested_ind; intros p.
    - split; [|destruct v; done]. intros _ o k x Hp. destruct v; try done; inversion Hp.
    - rewrite unsigned_arr. cbn [firstCredential]. generalize O. induction IH as [|x l Hx IH IHl]; intros i; [split; [by intros _ x ?%elem_of_nil|done]|].
      setoid_rewrite elem_of_cons. specialize (Hx (p ++ [pretty i])). specialize (IHl (S i)).
      destruct (firstCredential x (p ++ [pretty i])); [split; [done|intros H; by apply Hx, H; left]|]. rewrite IHl. naive_solver.
    - rewrite unsigned_obj. cbn [firstCredential]. induction IH as [|[k x] o Hx IH IHo]; [split; [by intros _ k x ?%elem_of_nil|done]|].
      setoid_rewrite elem_of_cons. cbn [snd] in Hx. specialize (Hx (p ++ [k])).
      destruct (credentialName k || keyShaped x) eqn:Ek.
      { split; [done|]. intros H. destruct (H k x (or_introl eq_refl)) as (H1 & H2 & _). by rewrite H1, H2 in Ek. }
      apply orb_false_iff in Ek as [E1 E2].
      destruct (firstCredential x (p ++ [k])); [split; [done|intros H; by apply Hx; destruct (H k x (or_introl eq_refl)) as (_ & _ & ?)]|].
      rewrite IHo. split; [|intros H k' x' Hin; apply H; by right].
      intros H k' x' [[= -> ->] | Hin]; [split_and!; [done..|by apply Hx]|by apply H]. }
  unfold assertNoSignerCredential. specialize (H []). destruct (firstCredential v []); naive_solver.
Qed.

Lemma fold_extreme (f : Z -> Z -> Z) (R : Z -> Z -> Prop) l n :
  (forall a b, (f a b = a \/ f a b = b) /\ R (f a b) a /\ R (f a b) b) -> Reflexive R -> Transitive R ->
  fold_left f l n ∈ n :: l /\ forall x, x ∈ n :: l -> R (fold_left f l n) x.
Proof.
  intros Hf Hr Ht. revert n. induction l as [|y l IH]; intros n; cbn [fold_left].
  { split; [left|]. by intros x ->%list_elem_of_singleton. }
  destruct (IH (f n y)) as [Hin Hall], (Hf n y) as (Hs & H1 & H2). split.
  - apply elem_of_cons in Hin as [-> | Hin]; [destruct Hs as [-> | ->]; set_solver|set_solver].
  - assert (R (fold_left f l (f n y)) (f n y)) as H3 by (apply Hall; left).
    intros x [-> | [-> | Hx]%elem_of_cons]%elem_of_cons; [by etrans|by etrans|apply Hall; by right].
Qed.

(** The height two or more clients agree on is the lowest anyone answered, so that every one of them has that block, and the skew
    reaches exactly to the highest; those that did not answer count for neither; and there is no height exactly when nobody
    answered. *)
Theorem corroborate_spec answers :
  (corroborate answers = None <-> forall n, Some n ∉ answers) /\
  (forall lo skew, corroborate answers = Some (lo, skew) ->
     Some lo ∈ answers /\ Some (lo + skew) ∈ answers /\ forall n, Some n ∈ answers -> lo <= n <= lo + skew).
Proof.
  assert (Ho : forall n, n ∈ omap id answers <-> Some n ∈ answers).
  { intros n. rewrite list_elem_of_omap. split; [by intros (o & H & <-)|intros H; by exists (Some n)]. }
  unfold corroborate. destruct (omap id answers) as [|n l].
  - split; [|done]. split; [intros _ n Hn%Ho; by apply elem_of_nil in Hn|done].
  - destruct (fold_extreme Z.min Z.le l n) as [Hl Hlo]; [intros a b; lia|intros a; lia|intros a b c; lia|].
    destruct (fold_extreme Z.max Z.ge l n) as [Hh Hhi]; [intros a b; lia|intros a; lia|intros a b c; lia|].
    split.
    + split; [done|]. intros H. destruct (H n). apply Ho. left.
    + intros lo skew [= <- <-]. replace (_ + (_ - _)) with (fold_left Z.max l n) by lia.
      split_and!; [by apply Ho|by apply Ho|]. intros x Hx%Ho. specialize (Hlo x Hx). specialize (Hhi x Hx). lia.
Qed.

End Rpc.

Module Sources.
Import Adapters.Trust.

Inductive SourceLifecycle := ACTIVE | DEPRECATION_SCHEDULED | DEPRECATED | UNAVAILABLE | UNKNOWN.
#[export] Instance SourceLifecycle_eq_dec : EqDecision SourceLifecycle.
Proof. solve_decision. Defined.
(** [LOCAL_FORK_RPC] is a kind of a snapshot's source only. *)
Inductive SourceKind := CHAINLINK_DATA_FEED | CHAINLINK_DATA_STREAM | THE_GRAPH | READ_ONLY_RPC | LOCAL_FORK_RPC | SOURCE_EXTERNAL_API.
#[export] Instance SourceKind_eq_dec : EqDecision SourceKind.
Proof. solve_decision. Defined.
Definition sourceKindText (k : SourceKind) : string :=
  match k with
  | CHAINLINK_DATA_FEED => "CHAINLINK_DATA_FEED" | CHAINLINK_DATA_STREAM => "CHAINLINK_DATA_STREAM" | THE_GRAPH => "THE_GRAPH"
  | READ_ONLY_RPC => "READ_ONLY_RPC" | LOCAL_FORK_RPC => "LOCAL_FORK_RPC" | SOURCE_EXTERNAL_API => "EXTERNAL_API"
  end.

(** Without [verifiedBy], a text. *)
Record MarketSource := {
  sourceId : string; kind : SourceKind; subject : string; chainId : Z; identity : string; trustClass : DataTrustClass; heartbeatMs : Z;
  decimals : Z; lifecycle : SourceLifecycle; deprecationDate : option string; replacedBy : option string; historical : bool;
  requiresAuth : bool; verifiedAt : string
}.

Inductive SourceReason :=
| NO_COMPATIBLE | DEPRECATED_SOURCE | UNVERIFIED | TRUST_NOT_MET | FRESHNESS_NOT_MET | SILENT_MIGRATION | AUTH_MISSING.
#[export] Instance SourceReason_eq_dec : EqDecision SourceReason.
Proof. solve_decision. Defined.

Definition SOURCES : list MarketSource :=
  [{| sourceId := "chainlink-feed-eth-usd-mainnet"; kind := CHAINLINK_DATA_FEED; subject := "weth/usd"; chainId := 1;
      identity := "0x5f4eC3Df9cbd43714FE2740f5E3616155c5b8419"; trustClass := VERIFIED_ORACLE; heartbeatMs := 3600000; decimals := 8;
      lifecycle := ACTIVE; deprecationDate := None; replacedBy := None; historical := true; requiresAuth := false; verifiedAt := "2026-09-10" |};
   {| sourceId := "mainnet-read-rpc"; kind := READ_ONLY_RPC; subject := "ethereum-mainnet:state"; chainId := 1; identity := "ethereum-mainnet";
      trustClass := DIRECT_CHAIN_DATA; heartbeatMs := 60000; decimals := 0; lifecycle := ACTIVE; deprecationDate := None; replacedBy := None;
      historical := true; requiresAuth := false; verifiedAt := "2026-09-10" |};
   {| sourceId := "aave-v3-mainnet-reserves"; kind := READ_ONLY_RPC; subject := "aave-v3:reserves"; chainId := 1;
      identity := "0x87870Bca3F3fD6335C3F4ce8392D69350B4fA4E2"; trustClass := DIRECT_CHAIN_DATA; heartbeatMs := 60000; decimals := 27;
      lifecycle := ACTIVE; deprecationDate := None; replacedBy := None; historical := true; requiresAuth := false; verifiedAt := "2026-09-10" |};
   {| sourceId := "thegraph-uniswap-v3-mainnet"; kind := THE_GRAPH; subject := "uniswap-v3:history"; chainId := 1;
      identity := "gateway.thegraph.com/api/subgraphs/id/5zvR82QoaXYFyDEKLZ9t6v9adgnptxYpKpSbxtgVENFV"; trustClass := INDEXED_CHAIN_DATA;
      heartbeatMs := 300000; decimals := 18; lifecycle := ACTIVE; deprecationDate := None; replacedBy := None; historical := true;
      requiresAuth := true; verifiedAt := "2026-09-12" |}].

(** [new Map(...)]: the last of an id. *)
Definition sourceById (i : string) : option MarketSource := List.find (fun s => streq (sourceId s) i) (rev SOURCES).

(** ** Selection *)

Record SourceRequirement := {
  q_subject : string; q_chainId : Z; requiredTrust : DataTrustClass; maxAgeMs : Z; historicalRequired : bool; availableCredentials : list string
}.
Record SourceSelection := { source : MarketSource; warnings : list MarketSource; rejected : list (string * SourceReason) }.

Inductive Fate := OutOfScope | RejectedFor (r : SourceReason) | Candidate.
#[export] Instance Fate_eq_dec : EqDecision Fate.
Proof. solve_decision. Defined.

(** What the loop makes of one source. *)
Definition fate (q : SourceRequirement) (s : MarketSource) : Fate :=
  if negb (streq (subject s) (q_subject q)) || negb (chainId s =? q_chainId q) then OutOfScope
  else if bool_decide (lifecycle s = DEPRECATED) then RejectedFor DEPRECATED_SOURCE
  else if bool_decide (lifecycle s = UNKNOWN) then RejectedFor UNVERIFIED
  else if bool_decide (lifecycle s = UNAVAILABLE) then RejectedFor NO_COMPATIBLE
  else if negb (satisfiesTrust (trustClass s) (requiredTrust q)) then RejectedFor TRUST_NOT_MET
  else if maxAgeMs q <? heartbeatMs s then RejectedFor FRESHNESS_NOT_MET
  else if historicalRequired q && negb (historical s) then RejectedFor NO_COMPATIBLE
  else if requiresAuth s && negb (includes (availableCredentials q) (sourceId s)) then RejectedFor AUTH_MISSING
  else Candidate.

Section selection.
Context (localeCompare : string -> string -> Z).

(** The comparison function of the sort. *)
Definition compareSources (a b : MarketSource) : Z :=
  if negb (bool_decide (lifecycle a = lifecycle b)) then (if bool_decide (lifecycle a = ACTIVE) then -1 else 1)
  else if negb (heartbeatMs a =? heartbeatMs b) then heartbeatMs a - heartbeatMs b
  else localeCompare (sourceId a) (sourceId b).
Definition source_le (a b : MarketSource) : Prop := compareSources a b <= 0.
#[export] Instance source_le_dec : RelDecision source_le.
Proof. intros a b. unfold source_le. apply _. Defined.

Definition rejection (q : SourceRequirement) (s : MarketSource) : option (string * SourceReason) :=
  match fate q s with RejectedFor r => Some (sourceId s, r) | _ => None end.
Definition candidates (l : list MarketSource) (q : SourceRequirement) : list MarketSource :=
  merge_sort source_le (List.filter (fun s => bool_decide (fate q s = Candidate)) l).

(** The error carries what was considered. *)
Definition selectFrom (l : list MarketSource) (q : SourceRequirement) : result (SourceReason * list (string * SourceReason)) SourceSelection :=
  let rejected := omap (rejection q) l in
  match candidates l q with
  | [] => Err (NO_COMPATIBLE, rejected)
  | chosen :: _ =>
      Ok {| source := chosen;
            warnings := List.filter (fun c => bool_decide (lifecycle c = DEPRECATION_SCHEDULED)) (candidates l q);
            rejected := rejected |}
  end.
Definition selectSource (q : SourceRequirement) : result (SourceReason * list (string * SourceReason)) SourceSelection := selectFrom SOURCES q.

End selection.

Definition assertNoSilentMigration (approved proposed : string) (revalidated : bool) : result SourceReason unit :=
  throw SILENT_MIGRATION when negb (streq approved proposed) && negb revalidated ;; Ok tt.
Definition assertFallbackAuthorized (required fallbackTrust : DataTrustClass) (authorized : bool) : result SourceReason unit :=
  throw TRUST_NOT_MET when negb (satisfiesTrust fallbackTrust required) && negb authorized ;; Ok tt.

(** ** Disagreement *)

Record Reading := { r_sourceId : string; r_value : Z; r_decimals : Z; r_trustClass : DataTrustClass }.
Record Disagreement := { readings : list Reading; spreadBps : Z; disagrees : bool; authoritative : Reading }.
Definition MAX_SAFE_INTEGER : Z := 9007199254740991.

Definition scaledTo (d : Z) (r : Reading) : Z := r_value r * 10 ^ (d - r_decimals r).
Definition maxOf (l : list Z) (n : Z) : Z := fold_left Z.max l n.
Definition minOf (l : list Z) (n : Z) : Z := fold_left Z.min l n.
(** The division is that of bigints, by a positive number; its [Number] is exact below 2^53. *)
Definition spread (lo hi : Z) : Z :=
  if lo =? 0 then (if hi =? 0 then 0 else MAX_SAFE_INTEGER) else (hi - lo) * 10000 ÷ (if lo <? 0 then - lo else lo).

(** The rank readings are sorted by, which is not that of the trust classes. *)
Definition compareRank (t : DataTrustClass) : Z :=
  if satisfiesTrust t VERIFIED_ORACLE then 2 else if satisfiesTrust t INDEXED_CHAIN_DATA then 1 else 0.
Definition higherFirst (a b : Reading) : Prop := compareRank (r_trustClass b) <= compareRank (r_trustClass a).
#[export] Instance higherFirst_dec : RelDecision higherFirst.
Proof. intros a b. unfold higherFirst. apply _. Defined.

Definition compareReadings (l : list Reading) (toleranceBps : Z) : result SourceReason Disagreement :=
  match l with
  | [] => Err NO_COMPATIBLE
  | r :: l' =>
      let d := maxOf (map r_decimals l') (r_decimals r) in
      let values := map (scaledTo d) l' in
      let s := spread (minOf values (scaledTo d r)) (maxOf values (scaledTo d r)) in
      Ok {| readings := l; spreadBps := s; disagrees := toleranceBps <? s;
            authoritative := match merge_sort higherFirst l with a :: _ => a | [] => r end |}
  end.

(** ** Age *)

Definition STALENESS_GRACE_FACTOR : Q := 3 # 2.
Definition mathRound (q : Q) : Z := Qfloor (q + (1 # 2)).
Definition stalenessThresholdMs (s : MarketSource) (grace : Q) : Z := mathRound (inject_Z (heartbeatMs s) * grace).
(** The entries of the map, in the order of the ids; an id twice has one entry, with the same value. *)
Definition sourceAgeLimits (ids : list string) (grace : Q) : list (string * Z) :=
  omap (fun i => match sourceById i with Some s => Some (i, stalenessThresholdMs s grace) | None => None end) ids.

(** ** What is selected *)

Definition qualifies (q : SourceRequirement) (s : MarketSource) : Prop :=
  subject s = q_subject q /\ chainId s = q_chainId q /\ (lifecycle s = ACTIVE \/ lifecycle s = DEPRECATION_SCHEDULED) /\
  satisfiesTrust (trustClass s) (requiredTrust q) = true /\ heartbeatMs s <= maxAgeMs q /\
  (historicalRequired q = true -> historical s = true) /\ (requiresAuth s = true -> sourceId s ∈ availableCredentials q).

Lemma fate_candidate q s : fate q s = Candidate <-> qualifies q s.
Proof.
  unfold fate, qualifies. rewrite <- (streq_true (subject s)), <- (Z.eqb_eq (chainId s)), <- (Z.ltb_ge (maxAgeMs q)), <- includes_true.
  destruct (streq (subject s) (q_subject q)); cbn [negb orb]; [|naive_solver].
  destruct (chainId s =? q_chainId q); cbn [negb]; [|naive_solver].
  destruct (lifecycle s) eqn:El; cbn; [| |naive_solver..].
  all: destruct (satisfiesTrust (trustClass s) (requiredTrust q)); cbn [negb]; [|naive_solver].
  all: destruct (maxAgeMs q <? heartbeatMs s); [naive_solver|].
  all: destruct (historicalRequired q), (historical s), (requiresAuth s), (includes (availableCredentials q) (sourceId s)); cbn; naive_solver.
Qed.

(** *** Sorting by a relation that is total only on what is sorted *)
Section sort_ext.
Context {A : Type} (R R' : relation A) `{!RelDecision R, !RelDecision R'} (P : A -> Prop).
Context (HR : forall a b, P a -> P b -> R a b <-> R' a b).

Lemma list_merge_ext l1 l2 : Forall P l1 -> Forall P l2 -> list_merge R l1 l2 = list_merge R' l1 l2.
Proof.
  intros H1. revert l2. induction H1 as [|x l1 Hx H1 IH1]; intros l2 H2; [by destruct l2|].
  induction H2 as [|y l2 Hy H2 IH2]; [done|]. cbn [list_merge]. rewrite (IH1 (y :: l2)) by (by constructor).
  destruct (decide (R x y)) as [Hr|Hr], (decide (R' x y)) as [Hr'|Hr']; try done; [by apply HR in Hr|by apply HR in Hr'|].
  f_equal. exact IH2.
Qed.

Definition stack_all (st : list (option (list A))) : Prop := Forall (fun o => match o with Some l => Forall P l | None => True end) st.

Lemma Forall_list_merge l1 l2 : Forall P l1 -> Forall P l2 -> Forall P (list_merge R l1 l2).
Proof. intros. rewrite merge_Permutation, Forall_app. done. Qed.

Lemma merge_list_to_stack_ext st l : stack_all st -> Forall P l ->
  merge_list_to_stack R st l = merge_list_to_stack R' st l /\ stack_all (merge_list_to_stack R st l).
Proof.
  intros Hst. revert l. induction Hst as [|[l'|] st Hl' Hst IH]; intros l Hl; cbn [merge_list_to_stack].
  - split; [done|]. by repeat constructor.
  - rewrite <- (list_merge_ext l' l) by done. destruct (IH (list_merge R l' l)) as [-> Hs]; [by apply Forall_list_merge|].
    split; [done|]. by constructor.
  - split; [done|]. by constructor.
Qed.

Lemma merge_stack_ext st : stack_all st -> merge_stack R st = merge_stack R' st /\ Forall P (merge_stack R st).
Proof.
  induction 1 as [|[l|] st Hl Hst [IH Hs]]; cbn [merge_stack]; [by split| |by split].
  rewrite <- IH, <- list_merge_ext by done. split; [done|]. by apply Forall_list_merge.
Qed.

Lemma merge_sort_ext l : Forall P l -> merge_sort R l = merge_sort R' l.
Proof.
  intros Hl. unfold merge_sort. assert (stack_all []) as Hst by constructor. revert Hst.
  generalize (@nil (option (list A))). induction Hl as [|x l Hx Hl IH]; intros st Hst; cbn [merge_sort_aux].
  - by apply merge_stack_ext.
  - destruct (merge_list_to_stack_ext st [x]) as [<- Hs]; [done|by repeat constructor|]. by apply IH.
Qed.
End sort_ext.

Section selected.
Context (localeCompare : string -> string -> Z) `{!Collation localeCompare}.
Abbreviation source_le := (source_le localeCompare).
Abbreviation selectFrom := (selectFrom localeCompare).
Abbreviation candidates := (candidates localeCompare).

Lemma candidates_elem l q s : s ∈ candidates l q <-> s ∈ l /\ qualifies q s.
Proof.
  unfold Sources.candidates. rewrite merge_sort_Permutation, list_elem_of_In, filter_In, <- list_elem_of_In, bool_decide_eq_true.
  by rewrite fate_candidate.
Qed.

(** Only sources that are in use are compared; the first of them are the active ones. *)
Definition inUse (s : MarketSource) : bool := bool_decide (lifecycle s = ACTIVE) || bool_decide (lifecycle s = DEPRECATION_SCHEDULED).
Definition usedRank (s : MarketSource) : Z := if bool_decide (lifecycle s = ACTIVE) then 0 else 1.

Lemma qualifies_inUse q s : qualifies q s -> inUse s = true.
Proof. intros (_ & _ & [H|H] & _); unfold inUse; by rewrite H. Qed.

Lemma source_le_iff a b : inUse a = true -> inUse b = true -> source_le a b <->
  usedRank a < usedRank b \/ (usedRank a = usedRank b /\ (heartbeatMs a < heartbeatMs b \/
    (heartbeatMs a = heartbeatMs b /\ localeCompare (sourceId a) (sourceId b) <= 0))).
Proof.
  unfold Sources.source_le, compareSources, inUse, usedRank. intros Ha Hb.
  destruct (Z.eqb_spec (heartbeatMs a) (heartbeatMs b));
    destruct (lifecycle a), (lifecycle b); try discriminate; repeat case_bool_decide; try done; cbn [negb]; lia.
Qed.

Definition used_le (a b : MarketSource) : Prop :=
  usedRank a < usedRank b \/ (usedRank a = usedRank b /\ (heartbeatMs a < heartbeatMs b \/
    (heartbeatMs a = heartbeatMs b /\ localeCompare (sourceId a) (sourceId b) <= 0))).
#[local] Instance used_le_total : Total used_le.
Proof. intros a b. unfold used_le. destruct (collation_total (sourceId a) (sourceId b)); lia. Qed.
#[local] Instance used_le_trans : Transitive used_le.
Proof. intros a b c. unfold used_le. pose proof (collation_trans (sourceId a) (sourceId b) (sourceId c)). lia. Qed.
#[local] Instance used_le_dec : RelDecision used_le.
Proof. intros a b. unfold used_le. apply _. Defined.

Lemma sorted_head l q c l' : candidates l q = c :: l' ->
  (c ∈ l /\ qualifies q c) /\ forall s, s ∈ l -> qualifies q s -> used_le c s.
Proof.
  intros E. split; [apply candidates_elem; rewrite E; left|]. intros s Hs Hq.
  assert (Hin : s ∈ c :: l') by (rewrite <- E; by apply candidates_elem).
  assert (candidates l q = merge_sort used_le (List.filter (fun s => bool_decide (fate q s = Candidate)) l)) as Eu.
  { apply (merge_sort_ext source_le used_le (fun s => inUse s = true)); [apply source_le_iff|].
    apply Forall_forall. intros x Hx. rewrite list_elem_of_In, filter_In, bool_decide_eq_true in Hx.
    apply (qualifies_inUse q), fate_candidate, Hx. }
  pose proof (StronglySorted_merge_sort used_le (List.filter (fun s => bool_decide (fate q s = Candidate)) l)) as Hsort.
  rewrite <- Eu, E in Hsort. apply StronglySorted_inv in Hsort as [_ Hf]. rewrite Forall_forall in Hf.
  apply elem_of_cons in Hin as [-> | Hin]; [by destruct (used_le_total c c)|by apply Hf].
Qed.

(** A market source is selected exactly when one qualifies: it is for the subject and the chain, in use, trusted enough, updated
    often enough, can answer about the past where that is asked for, and needs no credential that is missing.  The one selected qualifies, and
    comes first: an active one before one whose retirement is scheduled, then the one that updates more often, then by name;
    the trust is never lowered to find one.  Every source that is in scope and not a candidate is reported with a reason.  And the order of
    the registry does not matter. *)
Theorem select_spec l q :
  match selectFrom l q with
  | Err (r, rej) => r = NO_COMPATIBLE /\ (forall s, s ∈ l -> ~ qualifies q s) /\ rej = omap (rejection q) l
  | Ok sel =>
      source sel ∈ l /\ qualifies q (source sel) /\ (forall s, s ∈ l -> qualifies q s -> used_le (source sel) s) /\
      rejected sel = omap (rejection q) l /\ (forall s, s ∈ warnings sel <-> s ∈ l /\ qualifies q s /\ lifecycle s = DEPRECATION_SCHEDULED) /\
      (forall l' sel', l ≡ₚ l' -> NoDup (map sourceId l) -> (forall s, s ∈ l -> all_chars refChar (sourceId s) = true) ->
         selectFrom l' q = Ok sel' -> source sel' = source sel)
  end.
Proof.
  unfold Sources.selectFrom. destruct (candidates l q) as [|c rest] eqn:E.
  - split_and!; try done. intros s Hs Hq. assert (s ∈ candidates l q) as Hin by (by apply candidates_elem). rewrite E in Hin. by apply elem_of_nil in Hin.
  - destruct (sorted_head l q c rest E) as [[Hc Hq] Hmin]. cbn [source rejected warnings]. split_and!; try done.
    + intros s. rewrite list_elem_of_In, filter_In, <- list_elem_of_In, bool_decide_eq_true, <- E, candidates_elem. tauto.
    + intros l' sel' Hp Hnd Hids. destruct (candidates l' q) as [|c' rest'] eqn:E'; [done|]. intros [= <-]. cbn [source].
      destruct (sorted_head l' q c' rest' E') as [[Hc' Hq'] Hmin']. rewrite <- Hp in Hc'.
      assert (H1 : used_le c c') by (by apply Hmin). assert (H2 : used_le c' c) by (apply Hmin'; [by rewrite <- Hp|done]).
      assert (sourceId c = sourceId c') as Ei by (unfold used_le in H1, H2; apply collation_refs; [by apply Hids..|lia|lia]).
      symmetry. by apply (NoDup_map_inj sourceId l).
Qed.

End selected.

(** ** What a comparison says *)

(** [Rpc] has the lemma on folds. *)
Lemma fold_extremes l n :
  (forall x, x ∈ n :: l -> minOf l n <= x <= maxOf l n) /\ minOf l n ∈ n :: l /\ maxOf l n ∈ n :: l.
Proof.
  destruct (Rpc.fold_extreme Z.min Z.le l n) as [H1 H2]; [intros a b; lia|intros a; lia|intros a b c; lia|].
  destruct (Rpc.fold_extreme Z.max Z.ge l n) as [H3 H4]; [intros a b; lia|intros a; lia|intros a b c; lia|].
  split_and!; [|exact H1|exact H3]. intros x Hx. specialize (H2 x Hx). specialize (H4 x Hx). unfold minOf, maxOf. lia.
Qed.

#[local] Instance higherFirst_total : Total higherFirst.
Proof. intros a b. unfold higherFirst. lia. Qed.
#[local] Instance higherFirst_trans : Transitive higherFirst.
Proof. intros a b c. unfold higherFirst. lia. Qed.

Lemma authoritative_max l r : r ∈ l ->
  let a := match merge_sort higherFirst l with a :: _ => a | [] => r end in
  a ∈ l /\ forall x, x ∈ l -> compareRank (r_trustClass x) <= compareRank (r_trustClass a).
Proof.
  intros Hr. cbv zeta. pose proof (StronglySorted_merge_sort higherFirst l) as Hs.
  assert (Hin : forall x, x ∈ merge_sort higherFirst l <-> x ∈ l) by (intros x; apply elem_of_Permutation_proper, merge_sort_Permutation).
  destruct (merge_sort higherFirst l) as [|a rest]; [by apply Hin, elem_of_nil in Hr|].
  split; [apply Hin; left|]. intros x Hx%Hin. apply StronglySorted_inv in Hs as [_ Hf]. rewrite Forall_forall in Hf.
  apply elem_of_cons in Hx as [-> | Hx]; [done|by apply Hf].
Qed.

Lemma compareRank_verified t : compareRank t = 2 <-> satisfiesTrust t VERIFIED_ORACLE = true.
Proof. by destruct t. Qed.

(** Readings of one metric are compared at the largest scale among them and never averaged.  Every reading is kept; the one
    marked authoritative is one of them and is a verified oracle's where there is one; and for readings that are all
    positive, they agree exactly when no two of them are further apart than the tolerance in basis points of the lowest, rounded
    down.  Without a reading there is nothing to compare. *)
Theorem compare_spec l tol :
  (compareReadings l tol = Err NO_COMPATIBLE <-> l = []) /\
  (forall d, compareReadings l tol = Ok d ->
     readings d = l /\ authoritative d ∈ l /\ (disagrees d = true <-> tol < spreadBps d) /\
     ((exists r, r ∈ l /\ satisfiesTrust (r_trustClass r) VERIFIED_ORACLE = true) ->
        satisfiesTrust (r_trustClass (authoritative d)) VERIFIED_ORACLE = true) /\
     exists D, (forall r, r ∈ l -> r_decimals r <= D) /\ (exists r, r ∈ l /\ r_decimals r = D) /\
       exists lo, (exists r, r ∈ l /\ scaledTo D r = lo) /\ (forall r, r ∈ l -> lo <= scaledTo D r) /\
       (0 < lo -> disagrees d = false <-> forall r, r ∈ l -> (scaledTo D r - lo) * 10000 < (tol + 1) * lo)).
Proof.
  split; [by destruct l|]. intros d. unfold compareReadings. destruct l as [|r l']; [done|]. intros [= <-].
  cbn [readings authoritative disagrees spreadBps].
  destruct (fold_extremes (map r_decimals l') (r_decimals r)) as (Hd & _ & Hdin).
  set (D := maxOf (map r_decimals l') (r_decimals r)) in *.
  destruct (fold_extremes (map (scaledTo D) l') (scaledTo D r)) as (Hv & Hlo & Hhi).
  set (lo := minOf (map (scaledTo D) l') (scaledTo D r)) in *. set (hi := maxOf (map (scaledTo D) l') (scaledTo D r)) in *.
  assert (Hmap : forall {B} (f : Reading -> B) x, x ∈ f r :: map f l' <-> exists y, y ∈ r :: l' /\ f y = x).
  { intros B f x. change (f r :: map f l') with (map f (r :: l')). rewrite list_elem_of_fmap. naive_solver. }
  destruct (authoritative_max (r :: l') r ltac:(left)) as [Ha Hmax].
  set (a := match merge_sort higherFirst (r :: l') with a :: _ => a | [] => r end) in *.
  split_and!; [done|exact Ha|apply Z.ltb_lt| |].
  - intros (x & Hx & Ht). specialize (Hmax x Hx). apply compareRank_verified in Ht. apply compareRank_verified.
    unfold compareRank in *. repeat case_match; lia.
  - exists D. split_and!; [intros x Hx; apply Hd, Hmap; by exists x|by apply Hmap|].
    exists lo. split_and!; [by apply Hmap|intros x Hx; apply Hv, Hmap; by exists x|].
    intros Hpos. destruct (Hv hi Hhi) as [Hle _].
    unfold spread. destruct (Z.eqb_spec lo 0); [lia|]. destruct (Z.ltb_spec lo 0); [lia|].
    rewrite Z.quot_div_nonneg by lia. rewrite Z.ltb_ge.
    assert (((hi - lo) * 10000) / lo <= tol <-> (hi - lo) * 10000 < (tol + 1) * lo) as ->.
    { split; intros Hq.
      - pose proof (Z.mul_succ_div_gt ((hi - lo) * 10000) lo Hpos). nia.
      - apply Z.lt_succ_r. apply Z.div_lt_upper_bound; lia. }
    split; [|intros Hall; apply Hmap in Hhi as (x & Hx & <-); by apply Hall].
    intros Hq x Hx. destruct (Hv (scaledTo D x)) as [_ Hxh]; [apply Hmap; by exists x|]. lia.
Qed.

End Sources.

Module Assets.

Inductive AssetRole := NATIVE | WRAPPED_NATIVE | STABLECOIN | COLLATERAL | LP_TOKEN | RECEIPT_TOKEN.
#[export] Instance AssetRole_eq_dec : EqDecision AssetRole.
Proof. solve_decision. Defined.

(** Without [verifiedBy] and the labels, texts. *)
Record AssetDeployment := { chainId : Z; address : string; symbol : string; decimals : Z; role : AssetRole }.
#[export] Instance AssetDeployment_eq_dec : EqDecision AssetDeployment.
Proof. solve_decision. Defined.
Record CanonicalAsset := { a_id : string; displaySymbol : string; deployments : list AssetDeployment }.
#[export] Instance CanonicalAsset_eq_dec : EqDecision CanonicalAsset.
Proof. solve_decision. Defined.

Inductive AssetReason := IDENTITY_MISMATCH | UNKNOWN_ASSET | NO_DEPLOYMENT | CROSS_ENVIRONMENT_ADDRESS | DECIMALS_MISMATCH.
#[export] Instance AssetReason_eq_dec : EqDecision AssetReason.
Proof. solve_decision. Defined.

Definition ASSETS : list CanonicalAsset :=
  [{| a_id := "weth"; displaySymbol := "WETH"; deployments :=
        [{| chainId := 1; address := "0xC02aaA39b223FE8D0A0e5C4F27eAD9083C756Cc2"; symbol := "WETH"; decimals := 18; role := WRAPPED_NATIVE |};
         {| chainId := 11155111; address := "0xfFf9976782d46CC05630D1f6eBAb18b2324d6B14"; symbol := "WETH"; decimals := 18; role := WRAPPED_NATIVE |}] |};
   {| a_id := "usdc"; displaySymbol := "USDC"; deployments :=
        [{| chainId := 1; address := "0xA0b86991c6218b36c1d19D4a2e9Eb0cE3606eB48"; symbol := "USDC"; decimals := 6; role := STABLECOIN |};
         {| chainId := 11155111; address := "0x1c7D4B196Cb0C7B01d743Fbc6116a902379C7238"; symbol := "USDC"; decimals := 6; role := STABLECOIN |}] |};
   {| a_id := "dai"; displaySymbol := "DAI"; deployments :=
        [{| chainId := 1; address := "0x6B175474E89094C44Da98b954EedeAC495271d0F"; symbol := "DAI"; decimals := 18; role := STABLECOIN |}] |}].

(** The maps: the last asset of an id, the last deployment of a chain and an address. *)
Definition assetById (i : string) : option CanonicalAsset := List.find (fun a => streq (a_id a) i) (rev ASSETS).
Definition BY_CHAIN_ADDRESS : list (CanonicalAsset * AssetDeployment) :=
  flat_map (fun a => map (fun d => (a, d)) (deployments a)) ASSETS.
Definition resolveAsset (cid : Z) (addr : string) : option (CanonicalAsset * AssetDeployment) :=
  List.find (fun p => (chainId p.2 =? cid) && eq_ci (address p.2) addr) (rev BY_CHAIN_ADDRESS).

Record ObservedToken := { o_chainId : Z; o_address : string; o_symbol : string; o_decimals : Z }.

Definition assertAssetIdentity (o : ObservedToken) (expectedAssetId : string) : result AssetReason (CanonicalAsset * AssetDeployment) :=
  match assetById expectedAssetId with
  | None => Err UNKNOWN_ASSET
  | Some expected =>
      match resolveAsset (o_chainId o) (o_address o) with
      | None => Err IDENTITY_MISMATCH
      | Some found =>
          throw IDENTITY_MISMATCH when negb (streq (a_id found.1) (a_id expected)) ;;
          throw IDENTITY_MISMATCH when negb (streq (o_symbol o) (symbol found.2)) ;;
          throw DECIMALS_MISMATCH when negb (o_decimals o =? decimals found.2) ;;
          Ok found
      end
  end.

Definition mapAssetToChain (assetId : string) (cid : Z) : result AssetReason AssetDeployment :=
  match assetById assetId with
  | None => Err UNKNOWN_ASSET
  | Some a => match List.find (fun d => chainId d =? cid) (deployments a) with Some d => Ok d | None => Err NO_DEPLOYMENT end
  end.

(** The two refusals differ in their text only. *)
Definition assertAddressBelongsToChain (addr : string) (cid : Z) : result AssetReason unit :=
  match resolveAsset cid addr with Some _ => Ok tt | None => Err CROSS_ENVIRONMENT_ADDRESS end.

(** ** What an identity is *)

Lemma assetById_some i a : assetById i = Some a -> a ∈ ASSETS /\ a_id a = i.
Proof.
  unfold assetById. intros [Hin Hi%streq_true]%find_true. rewrite list_elem_of_In, <- in_rev, <- list_elem_of_In in Hin. done.
Qed.

Lemma BY_CHAIN_ADDRESS_elem p : p ∈ BY_CHAIN_ADDRESS <-> p.1 ∈ ASSETS /\ p.2 ∈ deployments p.1.
Proof.
  destruct p as [a d]. unfold BY_CHAIN_ADDRESS. rewrite list_elem_of_In, in_flat_map. setoid_rewrite in_map_iff.
  setoid_rewrite <- list_elem_of_In. cbn. naive_solver.
Qed.

Lemma resolveAsset_some cid addr p : resolveAsset cid addr = Some p ->
  p.1 ∈ ASSETS /\ p.2 ∈ deployments p.1 /\ chainId p.2 = cid /\ eq_ci (address p.2) addr = true.
Proof.
  unfold resolveAsset. intros [Hin [Hc%Z.eqb_eq Ha]%andb_true_iff]%find_true.
  rewrite list_elem_of_In, <- in_rev, <- list_elem_of_In in Hin. by apply BY_CHAIN_ADDRESS_elem in Hin as [? ?].
Qed.

(** No two deployments share a chain and an address, and no two assets an id: each is found under its own. *)
Lemma registry_unique : every (fun a => bool_decide (assetById (a_id a) = Some a)) ASSETS = true /\
  every (fun p => bool_decide (resolveAsset (chainId p.2) (address p.2) = Some p)) BY_CHAIN_ADDRESS = true.
Proof. split; vm_compute; reflexivity. Qed.

Lemma resolveAsset_own p addr : p ∈ BY_CHAIN_ADDRESS -> eq_ci (address p.2) addr = true ->
  resolveAsset (chainId p.2) addr = Some p.
Proof.
  intros Hp Ha%eq_ci_true. destruct registry_unique as [_ H]. rewrite every_true in H. specialize (H p Hp).
  apply bool_decide_eq_true in H. rewrite <- H. unfold resolveAsset, eq_ci. by rewrite Ha.
Qed.

(** A token is what its address is, never what it calls itself.  It is accepted as an asset exactly when the registry has a
    deployment of that asset on that chain at that address, in whatever case it is written, and the symbol and the
    decimals it reports are the ones recorded for it; a token at any other address is refused before its symbol is
    looked at. *)
Theorem identity_iff o i a d :
  (assertAssetIdentity o i = Ok (a, d) <->
     a ∈ ASSETS /\ a_id a = i /\ d ∈ deployments a /\ chainId d = o_chainId o /\ eq_ci (address d) (o_address o) = true /\
     o_symbol o = symbol d /\ o_decimals o = decimals d) /\
  (resolveAsset (o_chainId o) (o_address o) = None -> forall p, assertAssetIdentity o i <> Ok p).
Proof.
  destruct registry_unique as [Hu _]. rewrite every_true in Hu. unfold assertAssetIdentity. split; [split|].
  - destruct (assetById i) as [x|] eqn:Ei; [|done]. apply assetById_some in Ei as [_ Ei].
    destruct (resolveAsset (o_chainId o) (o_address o)) as [[a' d']|] eqn:Er; [|done].
    apply resolveAsset_some in Er as (H1 & H2 & H3 & H4). rewrite !throw_ok. cbn [fst snd] in *.
    intros (E1%negb_false_iff%streq_true & E2%negb_false_iff%streq_true & E3%negb_false_iff%Z.eqb_eq & [= -> ->]).
    split_and!; congruence.
  - intros (H1 & H2 & H3 & H4 & H5 & H6 & H7). pose proof (Hu a H1) as Ha. apply bool_decide_eq_true in Ha. rewrite H2 in Ha. rewrite Ha.
    pose proof (resolveAsset_own (a, d) (o_address o) ltac:(by apply BY_CHAIN_ADDRESS_elem) H5) as Hr. cbn [snd] in Hr.
    rewrite H4 in Hr. rewrite Hr. rewrite !throw_ok. cbn [fst snd]. by rewrite !streq_refl, H6, H7, Z.eqb_refl, streq_refl.
  - intros E p. rewrite E. by destruct (assetById i).
Qed.

(** What is mapped to a chain is a deployment on that chain. *)
Lemma mapAssetToChain_ok i cid d : mapAssetToChain i cid = Ok d -> exists a, a ∈ ASSETS /\ a_id a = i /\ d ∈ deployments a /\ chainId d = cid.
Proof.
  unfold mapAssetToChain. destruct (assetById i) as [a|] eqn:Ea; [|done]. destruct (List.find _ _) as [x|] eqn:Ef; [|done]. intros [= ->].
  apply assetById_some in Ea as [Ha Hi]. apply find_true in Ef as [Hd Hc%Z.eqb_eq]. by exists a.
Qed.

(** An address never travels from one network to another.  What an asset is mapped to on a chain is that asset's own
    deployment there, at an address that belongs to that chain; an asset with no deployment there is refused, with the address of another
    chain never taken instead; and an address is taken for one of a chain exactly when the registry has it there. *)
Theorem mapping_stays_on_chain i cid d : mapAssetToChain i cid = Ok d ->
  chainId d = cid /\ (exists a, a ∈ ASSETS /\ a_id a = i /\ d ∈ deployments a) /\ assertAddressBelongsToChain (address d) cid = Ok tt /\
  forall addr c, assertAddressBelongsToChain addr c = Ok tt <->
    exists p, p ∈ BY_CHAIN_ADDRESS /\ chainId p.2 = c /\ eq_ci (address p.2) addr = true.
Proof.
  assert (Hb : forall addr c, assertAddressBelongsToChain addr c = Ok tt <->
    exists p, p ∈ BY_CHAIN_ADDRESS /\ chainId p.2 = c /\ eq_ci (address p.2) addr = true).
  { intros addr c. unfold assertAddressBelongsToChain. split.
    - destruct (resolveAsset c addr) as [p|] eqn:E; [|done]. intros _. apply resolveAsset_some in E as (H1 & H2 & H3 & H4).
      exists p. split_and!; [by apply BY_CHAIN_ADDRESS_elem|done..].
    - intros (p & Hp & <- & Ha). by rewrite (resolveAsset_own p addr Hp Ha). }
  intros (a & Ha & Hi & Hd & Hc)%mapAssetToChain_ok. split_and!; [done|by exists a| |exact Hb].
  apply Hb. exists (a, d). split_and!; [by apply BY_CHAIN_ADDRESS_elem|done|apply eq_ci_refl].
Qed.

End Assets.

Module Snapshot.
Import Adapters.Trust Sources.

Definition SNAPSHOT_SCHEMA_VERSION : string := "contextlock.market-snapshot/v1".

Inductive RealityMode := LIVE_MIRROR | HISTORICAL_REPLAY | LOCAL_FORK_MODE.
#[export] Instance RealityMode_eq_dec : EqDecision RealityMode.
Proof. solve_decision. Defined.
Definition modeText (m : RealityMode) : string :=
  match m with LIVE_MIRROR => "LIVE_MIRROR" | HISTORICAL_REPLAY => "HISTORICAL_REPLAY" | LOCAL_FORK_MODE => "LOCAL_FORK" end.
Inductive TimeSupport := BLOCK_SCOPED | TIME_SCOPED | NON_HISTORICAL_SOURCE.
#[export] Instance TimeSupport_eq_dec : EqDecision TimeSupport.
Proof. solve_decision. Defined.
Definition timeSupportText (t : TimeSupport) : string :=
  match t with BLOCK_SCOPED => "BLOCK_SCOPED" | TIME_SCOPED => "TIME_SCOPED" | NON_HISTORICAL_SOURCE => "NON_HISTORICAL_SOURCE" end.
Inductive DataType := PRICE | RATE | AMOUNT | RATIO | BPS | TIMESTAMP | COUNT | HEALTH_FACTOR.
#[export] Instance DataType_eq_dec : EqDecision DataType.
Proof. solve_decision. Defined.
Definition dataTypeText (d : DataType) : string :=
  match d with
  | PRICE => "PRICE" | RATE => "RATE" | AMOUNT => "AMOUNT" | RATIO => "RATIO" | BPS => "BPS" | TIMESTAMP => "TIMESTAMP" | COUNT => "COUNT"
  | HEALTH_FACTOR => "HEALTH_FACTOR"
  end.

Record SnapshotSource := {
  s_sourceId : string; s_kind : SourceKind; s_adapterId : string; s_adapterVersion : string; s_trustClass : DataTrustClass;
  s_sourceChainId : Z; timeSupport : TimeSupport; observedBlock : option string; lagBlocks : option Z; healthy : bool; s_detail : option string
}.
Record MarketObservation := {
  observationId : string; metric : string; o_value : string; o_decimals : Z; unit_ : string; dataType : DataType;
  canonicalAssetId : option string; o_sourceId : string; o_sourceChainId : Z; blockNumber : option string;
  sourceTimestampMs : option Z; retrievedAtMs : Z; o_trustClass : DataTrustClass; o_adapterId : string; o_adapterVersion : string;
  derivedFrom : option string; o_provenance : string
}.

Inductive Problem := NoObservations | TimeSpan (ms : Z) | StaleSources (l : list string) | UnhealthySources (l : list string).
Record SnapshotCoherence := {
  oldestObservationMs : Z; newestObservationMs : Z; maxTimeSkewMs : Z; maxBlockSkew : option Z; staleSources : list string;
  incomparableSources : list string; coherent : bool; problems : list Problem
}.

(** Everything of a snapshot but its hash; [schemaVersion] is a literal. *)
Record SnapshotBody := {
  snapshotId : string; mode : RealityMode; observedAtMs : Z; anchorChainId : Z; anchorBlock : string; anchorBlockHash : string;
  anchorBlockTimestampMs : Z; sources : list SnapshotSource; observations : list MarketObservation; canonicalAssetIds : list string;
  coherence : SnapshotCoherence; provenance : list string; supersedes : option string
}.
Record MarketSnapshot := { body : SnapshotBody; snapshotHash : string }.

Inductive SnapshotReason := IMMUTABLE | SNAPSHOT_STALE | NO_VALID_CONTEXT | SNAPSHOT_INCOHERENT | HASH_MISMATCH.
#[export] Instance SnapshotReason_eq_dec : EqDecision SnapshotReason.
Proof. solve_decision. Defined.

(** ** The text that is hashed *)

Definition jopt {A : Type} (f : A -> json) (o : option A) : json := match o with Some x => f x | None => JNull end.
Definition sourceFields (s : SnapshotSource) : list (string * json) :=
  [("sourceId", JStr (s_sourceId s)); ("kind", JStr (sourceKindText (s_kind s))); ("adapterId", JStr (s_adapterId s));
   ("adapterVersion", JStr (s_adapterVersion s)); ("trustClass", JStr (trustName (s_trustClass s)));
   ("sourceChainId", JNum (s_sourceChainId s)); ("timeSupport", JStr (timeSupportText (timeSupport s)));
   ("observedBlock", jopt JStr (observedBlock s)); ("lagBlocks", jopt JNum (lagBlocks s)); ("healthy", JBool (healthy s))].
Definition observationFields (o : MarketObservation) : list (string * json) :=
  [("observationId", JStr (observationId o)); ("metric", JStr (metric o)); ("value", JStr (o_value o)); ("decimals", JNum (o_decimals o));
   ("unit", JStr (unit_ o)); ("dataType", JStr (dataTypeText (dataType o))); ("canonicalAssetId", jopt JStr (canonicalAssetId o));
   ("sourceId", JStr (o_sourceId o)); ("sourceChainId", JNum (o_sourceChainId o)); ("blockNumber", jopt JStr (blockNumber o));
   ("sourceTimestampMs", jopt JNum (sourceTimestampMs o)); ("retrievedAtMs", JNum (retrievedAtMs o));
   ("trustClass", JStr (trustName (o_trustClass o))); ("adapterId", JStr (o_adapterId o)); ("adapterVersion", JStr (o_adapterVersion o));
   ("derivedFrom", jopt JStr (derivedFrom o)); ("provenance", JStr (o_provenance o))].

Definition fieldText (p : string * json) : string := p.1 +:+ "=" +:+ stringify p.2.
Definition line (l : list (string * json)) : string := String.concat "|" (map fieldText l).
Definition boolText (b : bool) : string := if b then "true" else "false".

Section hashing.
Context (localeCompare : string -> string -> Z) (sha256Hex : string -> string).

Definition sourceBefore (a b : SnapshotSource) : Prop := localeCompare (s_sourceId a) (s_sourceId b) <= 0.
#[export] Instance sourceBefore_dec : RelDecision sourceBefore.
Proof. intros a b. unfold sourceBefore. apply _. Defined.
Definition observationBefore (a b : MarketObservation) : Prop := localeCompare (observationId a) (observationId b) <= 0.
#[export] Instance observationBefore_dec : RelDecision observationBefore.
Proof. intros a b. unfold observationBefore. apply _. Defined.

(** The parts that are joined by "&". *)
Definition bodyParts (s : SnapshotBody) : list string :=
  ["schemaVersion=" +:+ SNAPSHOT_SCHEMA_VERSION; "snapshotId=" +:+ snapshotId s; "mode=" +:+ modeText (mode s);
   "observedAtMs=" +:+ pretty (observedAtMs s); "anchorChainId=" +:+ pretty (anchorChainId s); "anchorBlock=" +:+ anchorBlock s;
   "anchorBlockHash=" +:+ anchorBlockHash s; "anchorBlockTimestampMs=" +:+ pretty (anchorBlockTimestampMs s);
   "supersedes=" +:+ stringify (jopt JStr (supersedes s));
   "canonicalAssetIds=" +:+ String.concat "," (merge_sort str_le (canonicalAssetIds s));
   "coherenceMaxTimeSkewMs=" +:+ pretty (maxTimeSkewMs (coherence s));
   "coherenceMaxBlockSkew=" +:+ stringify (jopt JNum (maxBlockSkew (coherence s)));
   "coherenceStaleSources=" +:+ String.concat "," (merge_sort str_le (staleSources (coherence s)));
   "coherenceCoherent=" +:+ boolText (coherent (coherence s));
   "sources=[" +:+ String.concat ";" (map (fun x => line (sourceFields x)) (merge_sort sourceBefore (sources s))) +:+ "]";
   "observations=[" +:+ String.concat ";" (map (fun x => line (observationFields x)) (merge_sort observationBefore (observations s))) +:+ "]"].
Definition canonicalSnapshotBody (s : SnapshotBody) : string := String.concat "&" (bodyParts s).
Definition computeSnapshotHash (s : SnapshotBody) : string := "sha256:" +:+ sha256Hex (canonicalSnapshotBody s).

Definition verifySnapshotHash (s : MarketSnapshot) : result SnapshotReason unit :=
  throw HASH_MISMATCH when negb (streq (computeSnapshotHash (body s)) (snapshotHash s)) ;; Ok tt.
End hashing.

(** ** Coherence *)

(** [[...new Set(l)]]. *)
Definition distinct (l : list string) : list string := foldl (fun s a => if includes s a then s else s ++ [a]) [] l.
(** The time of an observation: the source's own where it has one. *)
Definition timeOf (o : MarketObservation) : Z := default (retrievedAtMs o) (sourceTimestampMs o).
(** [Number(s.observedBlock)] of a string of digits. *)
Definition blockValue (s : string) : Z := Z.of_N (default 0%N (decimal 0 s)).

Record CoherenceOptions := { opt_maxTimeSkewMs : Z; opt_anchorChainId : Z; opt_nowMs : Z; opt_maxSourceAgeMs : Z; sourceMaxAgeMs : list (string * Z) }.

Definition ageLimit (opts : CoherenceOptions) (i : string) : Z := default (opt_maxSourceAgeMs opts) (getKey i (sourceMaxAgeMs opts)).
Definition isStale (opts : CoherenceOptions) (o : MarketObservation) : bool := ageLimit opts (o_sourceId o) <? opt_nowMs opts - timeOf o.
Definition comparable (opts : CoherenceOptions) (s : SnapshotSource) : bool :=
  (s_sourceChainId s =? opt_anchorChainId opts) && bool_decide (is_Some (observedBlock s)).
Definition blockSkew (l : list Z) : option Z :=
  match l with n :: (_ :: _) as l' => Some (maxOf (tail l') n - minOf (tail l') n) | _ => None end.

Definition computeCoherence (obs : list MarketObservation) (srcs : list SnapshotSource) (opts : CoherenceOptions) : SnapshotCoherence :=
  match obs with
  | [] => {| oldestObservationMs := 0; newestObservationMs := 0; maxTimeSkewMs := 0; maxBlockSkew := None; staleSources := [];
             incomparableSources := map s_sourceId srcs; coherent := false; problems := [NoObservations] |}
  | o :: obs' =>
      let oldest := minOf (map timeOf obs') (timeOf o) in
      let newest := maxOf (map timeOf obs') (timeOf o) in
      let stale := merge_sort str_le (distinct (map o_sourceId (List.filter (isStale opts) obs))) in
      let unhealthy := map s_sourceId (List.filter (fun s => negb (healthy s)) srcs) in
      let ps := (if opt_maxTimeSkewMs opts <? newest - oldest then [TimeSpan (newest - oldest)] else []) ++
                (match stale with [] => [] | _ => [StaleSources stale] end) ++
                (match unhealthy with [] => [] | _ => [UnhealthySources unhealthy] end) in
      {| oldestObservationMs := oldest; newestObservationMs := newest; maxTimeSkewMs := newest - oldest;
         maxBlockSkew := blockSkew (map (fun s => blockValue (default "" (observedBlock s))) (List.filter (comparable opts) srcs));
         staleSources := stale; incomparableSources := map s_sourceId (List.filter (fun s => negb (comparable opts s)) srcs);
         coherent := match ps with [] => true | _ => false end; problems := ps |}
  end.

(** ** Sealing *)

Definition digitsRe : re := Regex.plus (Chr is_digit).
Definition lowerHex (c : ascii) : bool := is_digit c || Ascii.eqb c "a" || Ascii.eqb c "b" || Ascii.eqb c "c" || Ascii.eqb c "d" || Ascii.eqb c "e" || Ascii.eqb c "f".
Definition nonempty (s : string) : bool := negb (streq s "").
Definition optAll {A : Type} (f : A -> bool) (o : option A) : bool := match o with Some x => f x | None => true end.
Definition digitsOk (s : string) : bool := matches digitsRe s.
Definition valueOk (s : string) : bool := matches (Alt digitsRe (Cat (lit "-") digitsRe)) s.
Definition hash32Ok (s : string) : bool := matches (Cat (lit "0x") (rep 64 (Chr lowerHex))) s.

Definition sourceOk (s : SnapshotSource) : bool :=
  nonempty (s_sourceId s) && nonempty (s_adapterId s) && nonempty (s_adapterVersion s) && (0 <? s_sourceChainId s) &&
  optAll digitsOk (observedBlock s) && optAll (fun n => 0 <=? n) (lagBlocks s).
Definition observationOk (o : MarketObservation) : bool :=
  nonempty (observationId o) && nonempty (metric o) && valueOk (o_value o) && (0 <=? o_decimals o) && (o_decimals o <=? 36) &&
  nonempty (unit_ o) && nonempty (o_sourceId o) && (0 <? o_sourceChainId o) && optAll digitsOk (blockNumber o) &&
  optAll (fun n => 0 <=? n) (sourceTimestampMs o) && (0 <? retrievedAtMs o) && nonempty (o_adapterId o) && nonempty (o_adapterVersion o) &&
  nonempty (o_provenance o).
Definition coherenceOk (c : SnapshotCoherence) : bool :=
  (0 <=? oldestObservationMs c) && (0 <=? newestObservationMs c) && (0 <=? maxTimeSkewMs c) && optAll (fun n => 0 <=? n) (maxBlockSkew c).
Definition bodyOk (b : SnapshotBody) : bool :=
  nonempty (snapshotId b) && (0 <? observedAtMs b) && (0 <? anchorChainId b) && digitsOk (anchorBlock b) && hash32Ok (anchorBlockHash b) &&
  (0 <? anchorBlockTimestampMs b) && bool_decide (sources b <> []) && every sourceOk (sources b) && every observationOk (observations b) &&
  coherenceOk (coherence b) && bool_decide (provenance b <> []).

Record SnapshotInput := {
  i_snapshotId : string; i_mode : RealityMode; i_observedAtMs : Z; i_anchorChainId : Z; i_anchorBlock : string; i_anchorBlockHash : string;
  i_anchorBlockTimestampMs : Z; i_sources : list SnapshotSource; i_observations : list MarketObservation; i_provenance : list string;
  i_supersedes : option string; i_maxTimeSkewMs : option Z; i_maxSourceAgeMs : option Z; i_sourceMaxAgeMs : list (string * Z); i_nowMs : option Z
}.

Definition assetsOf (l : list MarketObservation) : list string := merge_sort str_le (distinct (omap canonicalAssetId l)).
Definition bodyOf (i : SnapshotInput) : SnapshotBody :=
  {| snapshotId := i_snapshotId i; mode := i_mode i; observedAtMs := i_observedAtMs i; anchorChainId := i_anchorChainId i;
     anchorBlock := i_anchorBlock i; anchorBlockHash := i_anchorBlockHash i; anchorBlockTimestampMs := i_anchorBlockTimestampMs i;
     sources := i_sources i; observations := i_observations i; canonicalAssetIds := assetsOf (i_observations i);
     coherence := computeCoherence (i_observations i) (i_sources i)
       {| opt_maxTimeSkewMs := default 60000 (i_maxTimeSkewMs i); opt_anchorChainId := i_anchorChainId i;
          opt_nowMs := default (i_observedAtMs i) (i_nowMs i); opt_maxSourceAgeMs := default 3600000 (i_maxSourceAgeMs i);
          sourceMaxAgeMs := i_sourceMaxAgeMs i |};
     provenance := i_provenance i; supersedes := i_supersedes i |}.

(** The refusal of the schema. *)
Inductive SealError := SchemaRefused.

Section sealing.
Context (localeCompare : string -> string -> Z) (sha256Hex : string -> string).

(** The last line of the schema, the form of the hash, is for what [sha256Hex] answers. *)
Definition sealSnapshot (i : SnapshotInput) : result SealError MarketSnapshot :=
  let b := bodyOf i in
  if bodyOk b then Ok {| body := b; snapshotHash := computeSnapshotHash localeCompare sha256Hex b |} else Err SchemaRefused.

(** [correctSnapshot] without other changes than the observations and the times given. *)
Definition correctSnapshot (o : MarketSnapshot) (change : SnapshotInput -> SnapshotInput) (newId : string) : result SealError MarketSnapshot :=
  let b := body o in
  let i := change {| i_snapshotId := newId; i_mode := mode b; i_observedAtMs := observedAtMs b; i_anchorChainId := anchorChainId b;
                     i_anchorBlock := anchorBlock b; i_anchorBlockHash := anchorBlockHash b; i_anchorBlockTimestampMs := anchorBlockTimestampMs b;
                     i_sources := sources b; i_observations := observations b;
                     i_provenance := provenance b ++ ["corrects " +:+ snapshotId b +:+ " (" +:+ snapshotHash o +:+ ")"];
                     i_supersedes := None; i_maxTimeSkewMs := None; i_maxSourceAgeMs := None; i_sourceMaxAgeMs := []; i_nowMs := None |} in
  sealSnapshot {| i_snapshotId := i_snapshotId i; i_mode := i_mode i; i_observedAtMs := i_observedAtMs i; i_anchorChainId := i_anchorChainId i;
                  i_anchorBlock := i_anchorBlock i; i_anchorBlockHash := i_anchorBlockHash i;
                  i_anchorBlockTimestampMs := i_anchorBlockTimestampMs i; i_sources := i_sources i; i_observations := i_observations i;
                  i_provenance := i_provenance i; i_supersedes := Some (snapshotId b); i_maxTimeSkewMs := i_maxTimeSkewMs i;
                  i_maxSourceAgeMs := i_maxSourceAgeMs i; i_sourceMaxAgeMs := i_sourceMaxAgeMs i; i_nowMs := i_nowMs i |}.
End sealing.

(** ** Freshness *)

Inductive SnapshotState := FRESH | STALE | INCOHERENT | INCOMPLETE.
#[export] Instance SnapshotState_eq_dec : EqDecision SnapshotState.
Proof. solve_decision. Defined.

Definition snapshotState (s : MarketSnapshot) (nowMs maxAgeMs : Z) : SnapshotState * Z :=
  let age := nowMs - observedAtMs (body s) in
  (if maxAgeMs <? age then STALE
   else match observations (body s) with
        | [] => INCOMPLETE
        | _ => if coherent (coherence (body s)) then FRESH else INCOHERENT
        end, age).
Definition assertSnapshotUsable (s : MarketSnapshot) (nowMs maxAgeMs : Z) : result SnapshotReason unit :=
  throw NO_VALID_CONTEXT when negb (bool_decide (fst (snapshotState s nowMs maxAgeMs) = FRESH)) ;; Ok tt.

(** ** What a sealed snapshot says *)

Lemma sealSnapshot_ok lc sha i s : sealSnapshot lc sha i = Ok s <->
  bodyOk (bodyOf i) = true /\ s = {| body := bodyOf i; snapshotHash := computeSnapshotHash lc sha (bodyOf i) |}.
Proof. unfold sealSnapshot. destruct (bodyOk (bodyOf i)); [|by split; [|intros [? _]]]. split; [by intros [= <-]|by intros [_ ->]]. Qed.

Lemma distinct_elem l x : x ∈ distinct l <-> x ∈ l.
Proof.
  unfold distinct. assert (forall s, x ∈ foldl (fun s a => if includes s a then s else s ++ [a]) s l <-> x ∈ s \/ x ∈ l) as H.
  { induction l as [|a l IH]; intros s; cbn [foldl]; [set_solver|]. rewrite IH. destruct (includes s a) eqn:E.
    - apply includes_true in E. set_solver.
    - set_solver. }
  rewrite H. set_solver.
Qed.

Lemma stale_elem opts obs i : i ∈ merge_sort str_le (distinct (map o_sourceId (List.filter (isStale opts) obs))) <->
  exists o, o ∈ obs /\ o_sourceId o = i /\ ageLimit opts i < opt_nowMs opts - timeOf o.
Proof.
  rewrite merge_sort_Permutation, distinct_elem, list_elem_of_fmap. setoid_rewrite list_elem_of_In. setoid_rewrite filter_In.
  setoid_rewrite <- list_elem_of_In. unfold isStale. setoid_rewrite Z.ltb_lt. naive_solver.
Qed.

(** C19: a picture of the market is not coherent because all requests succeeded.  It is exactly when there is an observation, no two of
    them are further apart in time than allowed, none is older than what its own source allows, and every source
    is healthy; and it may be acted on exactly when it is coherent and the snapshot itself is young enough. *)
Theorem usable_iff lc sha i s nowMs maxAgeMs : sealSnapshot lc sha i = Ok s ->
  let obs := i_observations i in
  let opts := {| opt_maxTimeSkewMs := default 60000 (i_maxTimeSkewMs i); opt_anchorChainId := i_anchorChainId i;
                 opt_nowMs := default (i_observedAtMs i) (i_nowMs i); opt_maxSourceAgeMs := default 3600000 (i_maxSourceAgeMs i);
                 sourceMaxAgeMs := i_sourceMaxAgeMs i |} in
  assertSnapshotUsable s nowMs maxAgeMs = Ok tt <->
    nowMs - i_observedAtMs i <= maxAgeMs /\ obs <> [] /\
    (forall a b, a ∈ obs -> b ∈ obs -> timeOf a - timeOf b <= opt_maxTimeSkewMs opts) /\
    (forall o, o ∈ obs -> opt_nowMs opts - timeOf o <= ageLimit opts (o_sourceId o)) /\
    (forall x, x ∈ i_sources i -> healthy x = true).
Proof.
  intros [_ ->]%sealSnapshot_ok. cbv zeta. set (opts := Build_CoherenceOptions _ _ _ _ _).
  unfold assertSnapshotUsable, snapshotState. rewrite throw_ok, negb_false_iff, bool_decide_eq_true. cbn [fst body observations coherence observedAtMs bodyOf].
  destruct (Z.ltb_spec maxAgeMs (nowMs - i_observedAtMs i)) as [Ha|Ha]; [split; [by intros [? _]|lia]|].
  destruct (i_observations i) as [|o obs] eqn:Eo; [split; [by intros [? _]|by intros (_ & ? & _)]|]. fold opts.
  cbn [computeCoherence coherent].
  destruct (fold_extremes (map timeOf obs) (timeOf o)) as (Hb & Hlo & Hhi). set (lo := minOf _ _) in *. set (hi := maxOf _ _) in *.
  assert (Hm : forall x, x ∈ timeOf o :: map timeOf obs <-> exists y, y ∈ o :: obs /\ timeOf y = x).
  { intros x. change (timeOf o :: map timeOf obs) with (map timeOf (o :: obs)). rewrite list_elem_of_fmap. naive_solver. }
  set (stale := merge_sort str_le _).
  assert (Hst : stale = [] <-> forall x, x ∈ o :: obs -> opt_nowMs opts - timeOf x <= ageLimit opts (o_sourceId x)).
  { split.
    - intros Hn x Hx. apply Z.nlt_ge. intros Hlt. assert (o_sourceId x ∈ stale) as Hin by (apply stale_elem; by exists x).
      rewrite Hn in Hin. by apply elem_of_nil in Hin.
    - intros H. destruct stale as [|i' l] eqn:E; [done|]. assert (i' ∈ stale) as (x & Hx & <- & Hlt)%stale_elem by (rewrite E; left).
      specialize (H x Hx). lia. }
  assert (Hsk : hi - lo <= opt_maxTimeSkewMs opts <-> forall a b, a ∈ o :: obs -> b ∈ o :: obs -> timeOf a - timeOf b <= opt_maxTimeSkewMs opts).
  { split.
    - intros H a b Hain Hbin. destruct (Hb (timeOf a)) as [_ ?]; [apply Hm; by exists a|]. destruct (Hb (timeOf b)) as [? _]; [apply Hm; by exists b|]. lia.
    - intros H. apply Hm in Hlo as (a & Ha' & <-). apply Hm in Hhi as (b & Hb' & <-). by apply H. }
  assert (Hun : map s_sourceId (List.filter (fun s => negb (healthy s)) (i_sources i)) = [] <-> forall x, x ∈ i_sources i -> healthy x = true).
  { clear. induction (i_sources i) as [|x l IH]; cbn; [split; [by intros _ x ?%elem_of_nil|done]|]. setoid_rewrite elem_of_cons.
    destruct (healthy x) eqn:E; cbn; [rewrite IH; naive_solver|]. split; [done|]. intros H. rewrite (H x) in E by by left. done. }
  rewrite <- Hsk, <- Hst, <- Hun. clearbody stale lo hi.
  destruct (Z.ltb_spec (opt_maxTimeSkewMs opts) (hi - lo)) as [Hs|Hs]; [cbn [app]; split; [by intros [? _]|intros (_ & _ & ? & _); lia]|].
  destruct stale; cbn; [|split; [by intros [? _]|by intros (_ & _ & _ & ? & _)]].
  destruct (map s_sourceId _); cbn; [by split|split; [by intros [? _]|by intros (_ & _ & _ & _ & ?)]].
Qed.

(** ** What the hash binds *)

Lemma concat_cons sep u l : String.concat sep (u :: l) = match l with [] => u | _ => u +:+ sep +:+ String.concat sep l end.
Proof. by destruct l. Qed.

Lemma fieldText_eq k v : fieldText (k, v) = k +:+ String "=" (stringify v).
Proof. unfold fieldText. cbn [fst snd]. by autorewrite with strings. Qed.

(** A line of named JSON values determines the values, wherever it is followed by something that ends a number. *)
Lemma line_split l l' r s : map fst l = map fst l' -> stops r = true -> stops s = true ->
  line l +:+ r = line l' +:+ s -> l = l' /\ r = s.
Proof.
  revert l'. induction l as [|[k v] l IH]; intros [|[k' v'] l'] Hk Hr Hs; try done.
  cbn [map fst] in Hk. injection Hk as <- Hk. unfold line. cbn [map]. rewrite !concat_cons, !fieldText_eq.
  assert (Hl : map fieldText l = [] <-> map fieldText l' = []) by (by destruct l, l').
  destruct (map fieldText l) as [|x m] eqn:E, (map fieldText l') as [|x' m'] eqn:E'; autorewrite with strings.
  - intros H%Json.app_inv_head. autorewrite with strings in H. injection H as H. apply stringify_splits in H as [-> ->]; [|done..].
    destruct l, l'; try done.
  - naive_solver.
  - naive_solver.
  - intros H%Json.app_inv_head. autorewrite with strings in H. injection H as H. apply stringify_splits in H as [-> H]; [|done..].
    autorewrite with strings in H. injection H as H. destruct (IH l' Hk Hr Hs) as [-> ->]; [|done].
    unfold line. rewrite E, E'. exact H.
Qed.

Section lines.
Context {A : Type} (fields : A -> list (string * json)) (k0 : string) (c0 : ascii) (ks : list string).
Context (Hkeys : forall x, map fst (fields x) = String c0 k0 :: ks) (Hc0 : c0 <> "]"%char).
Let text (x : A) : string := line (fields x).

Lemma text_head x : exists u, text x = String c0 u.
Proof.
  unfold text, line. specialize (Hkeys x). destruct (fields x) as [|[k v] l]; [done|]. cbn [map fst] in Hkeys. injection Hkeys as -> _.
  cbn [map]. rewrite concat_cons, fieldText_eq. autorewrite with strings. case_match; autorewrite with strings; by eexists.
Qed.

Lemma lines_split l l' r s : String.concat ";" (map text l) +:+ String "]" r = String.concat ";" (map text l') +:+ String "]" s ->
  map fields l = map fields l' /\ r = s.
Proof.
  revert l'. induction l as [|x l IH]; intros [|x' l']; cbn [map].
  - cbn [String.concat]. autorewrite with strings. by intros [= ->].
  - rewrite concat_cons. destruct (text_head x') as [u ->]. cbn [String.concat]. case_match; autorewrite with strings; intros [= E _]; by destruct Hc0.
  - rewrite concat_cons. destruct (text_head x) as [u ->]. cbn [String.concat]. case_match; autorewrite with strings; intros [= E _]; by destruct Hc0.
  - rewrite !concat_cons. specialize (IH l').
    assert (Hsep : forall y m t, exists c w, match map text m with [] => text y | _ :: _ => text y +:+ ";" +:+ String.concat ";" (map text m) end +:+ String "]" t
        = text y +:+ String c w /\ numchar c = false /\ (c = "]"%char -> m = [] /\ w = t) /\
          (c <> "]"%char -> m <> [] /\ w = String.concat ";" (map text m) +:+ String "]" t)).
    { intros y [|z m] t; cbn [map]; [by exists "]"%char, t|]. exists ";"%char. eexists. autorewrite with strings.
      split; [done|]. split_and!; [done|discriminate|done]. }
    destruct (Hsep x l r) as (c & w & -> & Hn & Ha & Hb), (Hsep x' l' s) as (c' & w' & -> & Hn' & Ha' & Hb').
    intros H. apply line_split in H as [-> [= <- <-]]; [|by rewrite !Hkeys|by cbn; rewrite ?Hn, ?Hn'..].
    destruct (decide (c = "]"%char)) as [E|E].
    + destruct (Ha E) as [-> ->], (Ha' E) as [-> ->]. done.
    + destruct (Hb E) as [_ ->], (Hb' E) as [_ Hw]. destruct (IH Hw) as [-> ->]. done.
Qed.
End lines.

Definition amp (c : ascii) : bool := negb (Ascii.eqb c "&").
(** A text without an ampersand. *)
Definition plain (s : string) : bool := all_chars amp s.

Lemma amp_split u v r s : plain u = true -> plain v = true -> u +:+ String "&" r = v +:+ String "&" s -> u = v /\ r = s.
Proof.
  revert v. induction u as [|a u IH]; intros [|b v]; autorewrite with strings; unfold plain; cbn [all_chars].
  - by intros _ _ [= ->].
  - intros _ [Hb _]%andb_true_iff [= <- _]. discriminate.
  - intros [Ha _]%andb_true_iff _ [= -> _]. discriminate.
  - intros [_ Hu]%andb_true_iff [_ Hv]%andb_true_iff [= -> H]. by destruct (IH v Hu Hv H) as [-> ->].
Qed.

(** One part of the text, named and without an ampersand, at a time. *)
Lemma part_split k u v x l y m : plain u = true -> plain v = true ->
  String.concat "&" ((k +:+ u) :: x :: l) = String.concat "&" ((k +:+ v) :: y :: m) ->
  u = v /\ String.concat "&" (x :: l) = String.concat "&" (y :: m).
Proof.
  intros Hu Hv. rewrite !(concat_cons "&" (k +:+ _)). autorewrite with strings. intros H%Json.app_inv_head. by apply amp_split in H.
Qed.

Lemma json_part_split k u v x l y m :
  String.concat "&" ((k +:+ stringify u) :: x :: l) = String.concat "&" ((k +:+ stringify v) :: y :: m) ->
  u = v /\ String.concat "&" (x :: l) = String.concat "&" (y :: m).
Proof.
  rewrite !(concat_cons "&" (k +:+ _)). autorewrite with strings. intros H%Json.app_inv_head.
  apply stringify_splits in H as [-> [= H]]; done.
Qed.

Section list_parts.
Context {A : Type} (fields : A -> list (string * json)) (k0 : string) (c0 : ascii) (ks : list string).
Context (Hkeys : forall x, map fst (fields x) = String c0 k0 :: ks) (Hc0 : c0 <> "]"%char).

Lemma list_part_split k u v l m :
  String.concat "&" ((k +:+ String.concat ";" (map (fun x => line (fields x)) u) +:+ "]") :: l) =
  String.concat "&" ((k +:+ String.concat ";" (map (fun x => line (fields x)) v) +:+ "]") :: m) ->
  map fields u = map fields v /\ (l <> [] -> m <> [] -> String.concat "&" l = String.concat "&" m).
Proof.
  assert (Hc : forall w l, exists t, String.concat "&" ((k +:+ String.concat ";" (map (fun x => line (fields x)) w) +:+ "]") :: l) =
    k +:+ String.concat ";" (map (fun x => line (fields x)) w) +:+ String "]" t /\ (l <> [] -> t = String "&" (String.concat "&" l))).
  { intros w l0. rewrite concat_cons. destruct l0; autorewrite with strings; by eexists. }
  destruct (Hc u l) as (t & -> & Ht), (Hc v m) as (t' & -> & Ht'). intros H%Json.app_inv_head.
  apply (lines_split fields k0 c0 ks Hkeys Hc0) in H as [-> ->]. split; [done|]. intros Hl Hm. rewrite (Ht Hl) in Ht'. by injection (Ht' Hm).
Qed.
End list_parts.

Lemma plain_pretty (z : Z) : plain (pretty z) = true.
Proof. apply (all_chars_impl numchar); [|apply pretty_Z_chars]. intros c. by destruct c as [[] [] [] [] [] [] [] []]. Qed.

Lemma plain_concat sep l : plain sep = true -> (forall s, s ∈ l -> plain s = true) -> plain (String.concat sep l) = true.
Proof.
  intros Hs. induction l as [|u l IH]; intros H; [done|]. rewrite concat_cons.
  assert (plain u = true) as Hu by (apply H; left). assert (plain (String.concat sep l) = true) as Hl by (apply IH; intros s Hin; apply H; by right).
  unfold plain in *. destruct l; [done|]. by rewrite !all_chars_app, Hu, Hs, Hl.
Qed.

Lemma plain_matched p r s : (forall c, p c = true -> amp c = true) -> re_within p r = true -> matches r s = true -> plain s = true.
Proof. intros Hp Hr Hm. apply (all_chars_impl p); [done|]. by apply (matched_chars p r). Qed.

(** Everything of a source but its prose. *)
Definition undetailed (s : SnapshotSource) : SnapshotSource :=
  {| s_sourceId := s_sourceId s; s_kind := s_kind s; s_adapterId := s_adapterId s; s_adapterVersion := s_adapterVersion s;
     s_trustClass := s_trustClass s; s_sourceChainId := s_sourceChainId s; timeSupport := timeSupport s; observedBlock := observedBlock s;
     lagBlocks := lagBlocks s; healthy := healthy s; s_detail := None |}.

Lemma jopt_inj {A : Type} (f : A -> json) o o' : (forall x y, f x = f y -> x = y) -> (forall x, f x <> JNull) -> jopt f o = jopt f o' -> o = o'.
Proof. intros Hf Hn. destruct o as [x|], o' as [y|]; cbn; [by intros H%Hf; f_equal|by intros ?%Hn|by intros H; symmetry in H; apply Hn in H|done]. Qed.
Lemma jopt_str o o' : jopt JStr o = jopt JStr o' -> o = o'.
Proof. apply jopt_inj; [by intros x y [= ->]|done]. Qed.
Lemma jopt_num o o' : jopt JNum o = jopt JNum o' -> o = o'.
Proof. apply jopt_inj; [by intros x y [= ->]|done]. Qed.

Lemma sourceFields_inj s s' : sourceFields s = sourceFields s' -> undetailed s = undetailed s'.
Proof.
  unfold sourceFields. intros [= H1 H2 H3 H4 H5 H6 H7 H8 H9 H10]. apply jopt_str in H8. apply jopt_num in H9.
  assert (s_kind s = s_kind s') by (by destruct (s_kind s), (s_kind s')).
  assert (s_trustClass s = s_trustClass s') by (by destruct (s_trustClass s), (s_trustClass s')).
  assert (timeSupport s = timeSupport s') by (by destruct (timeSupport s), (timeSupport s')).
  unfold undetailed. congruence.
Qed.

Lemma observationFields_inj o o' : observationFields o = observationFields o' -> o = o'.
Proof.
  unfold observationFields. intros [= H1 H2 H3 H4 H5 H6 H7 H8 H9 H10 H11 H12 H13 H14 H15 H16 H17].
  apply jopt_str in H7, H10, H16. apply jopt_num in H11.
  assert (dataType o = dataType o') by (by destruct (dataType o), (dataType o')).
  assert (o_trustClass o = o_trustClass o') by (by destruct (o_trustClass o), (o_trustClass o')).
  clear H6 H13. destruct o, o'. cbn in *. by subst.
Qed.

(** Two bodies say the same: the same identity and anchor, the same measurements from the same sources, the same verdict. *)
Definition sameBody (b b' : SnapshotBody) : Prop :=
  snapshotId b = snapshotId b' /\ mode b = mode b' /\ observedAtMs b = observedAtMs b' /\ anchorChainId b = anchorChainId b' /\
  anchorBlock b = anchorBlock b' /\ anchorBlockHash b = anchorBlockHash b' /\ anchorBlockTimestampMs b = anchorBlockTimestampMs b' /\
  supersedes b = supersedes b' /\ observations b ≡ₚ observations b' /\ map undetailed (sources b) ≡ₚ map undetailed (sources b') /\
  maxTimeSkewMs (coherence b) = maxTimeSkewMs (coherence b') /\ maxBlockSkew (coherence b) = maxBlockSkew (coherence b') /\
  coherent (coherence b) = coherent (coherence b').

(** The identifiers that are written without quotes hold no ampersand. *)
Definition plainIds (i : SnapshotInput) : Prop :=
  plain (i_snapshotId i) = true /\
  forall o, o ∈ i_observations i -> plain (o_sourceId o) = true /\ optAll plain (canonicalAssetId o) = true.

Lemma plain_assets i : plainIds i -> plain (String.concat "," (merge_sort str_le (canonicalAssetIds (bodyOf i)))) = true.
Proof.
  intros [_ H]. apply plain_concat; [done|]. intros s. cbn [canonicalAssetIds bodyOf]. unfold assetsOf.
  rewrite !merge_sort_Permutation, distinct_elem, list_elem_of_omap. intros (o & Ho & E). destruct (H o Ho) as [_ Hp]. by rewrite E in Hp.
Qed.

Lemma plain_stale i : plainIds i -> plain (String.concat "," (merge_sort str_le (staleSources (coherence (bodyOf i))))) = true.
Proof.
  intros [_ H]. apply plain_concat; [done|]. intros s. rewrite merge_sort_Permutation. cbn [coherence bodyOf]. unfold computeCoherence.
  destruct (i_observations i) as [|o l] eqn:E; [by intros ?%elem_of_nil|]. cbn [staleSources].
  intros (x & Hx & <- & _)%stale_elem. by apply (H x).
Qed.

Section binding.
Context (localeCompare : string -> string -> Z).

Lemma sorted_fields {A : Type} (R : relation A) `{!RelDecision R} {B : Type} (f : A -> B) (g : A -> list (string * json)) l l' :
  (forall x y, g x = g y -> f x = f y) -> map g (merge_sort R l) = map g (merge_sort R l') -> map f l ≡ₚ map f l'.
Proof.
  intros Hg H. rewrite <- (merge_sort_Permutation R l), <- (merge_sort_Permutation R l').
  revert H. generalize (merge_sort R l'). induction (merge_sort R l) as [|x m IH]; intros [|y m']; cbn; try done.
  intros [= H1 H2]. rewrite (Hg x y H1). constructor. by apply IH.
Qed.

Lemma text_binds i i' : bodyOk (bodyOf i) = true -> bodyOk (bodyOf i') = true -> plainIds i -> plainIds i' ->
  canonicalSnapshotBody localeCompare (bodyOf i) = canonicalSnapshotBody localeCompare (bodyOf i') -> sameBody (bodyOf i) (bodyOf i').
Proof.
  intros Hok Hok' Hp Hp'. pose proof (plain_assets i Hp) as Ha. pose proof (plain_assets i' Hp') as Ha'.
  pose proof (plain_stale i Hp) as Hs. pose proof (plain_stale i' Hp') as Hs'. destruct Hp as [Hid _], Hp' as [Hid' _].
  change (i_snapshotId i) with (snapshotId (bodyOf i)) in Hid. change (i_snapshotId i') with (snapshotId (bodyOf i')) in Hid'.
  revert Hok Hok' Ha Ha' Hs Hs' Hid Hid'. generalize (bodyOf i) (bodyOf i'). clear i i'. intros b b' Hok Hok' Ha Ha' Hs Hs' Hid Hid'.
  assert (Hanchor : forall b, bodyOk b = true -> plain (anchorBlock b) = true /\ plain (anchorBlockHash b) = true).
  { clear. intros b Hok. unfold bodyOk in Hok. repeat match goal with H : _ && _ = true |- _ => apply andb_true_iff in H as [? ?] end. split.
    - apply (plain_matched is_digit digitsRe); [intros c; by destruct c as [[] [] [] [] [] [] [] []]|done|done].
    - apply (plain_matched (fun c => lowerHex c || Ascii.eqb c "x") (Cat (lit "0x") (rep 64 (Chr lowerHex))));
        [intros c; by destruct c as [[] [] [] [] [] [] [] []]|vm_compute; reflexivity|done]. }
  destruct (Hanchor b Hok) as [Hb Hh], (Hanchor b' Hok') as [Hb' Hh'].
  assert (Hmode : forall m, plain (modeText m) = true) by (by intros []).
  assert (Hskew : forall o, plain (stringify (jopt JNum o)) = true) by (intros [z|]; [apply plain_pretty|done]).
  assert (Hbool : forall c, plain (boolText c) = true) by (by intros []).
  unfold canonicalSnapshotBody, bodyParts, sameBody.
  intros [_ H]%part_split; [|done..]. apply part_split in H as [E1 H]; [|done..]. apply part_split in H as [E2 H]; [|done..].
  apply part_split in H as [E3 H]; [|apply plain_pretty..]. apply part_split in H as [E4 H]; [|apply plain_pretty..].
  apply part_split in H as [E5 H]; [|done..]. apply part_split in H as [E6 H]; [|done..].
  apply part_split in H as [E7 H]; [|apply plain_pretty..].
  apply json_part_split in H as [E8%jopt_str H]. apply part_split in H as [_ H]; [|done..].
  apply part_split in H as [E10 H]; [|apply plain_pretty..]. apply json_part_split in H as [E11%jopt_num H].
  apply part_split in H as [_ H]; [|done..]. apply part_split in H as [E13 H]; [|done..].
  apply (list_part_split sourceFields "ourceId" "s" (tail (map fst (sourceFields (Build_SnapshotSource "" CHAINLINK_DATA_FEED "" "" USER_UNTRUSTED 0 BLOCK_SCOPED None None true None)))))
    in H as [E14 H]; [|done..]. specialize (H ltac:(done) ltac:(done)).
  apply (list_part_split observationFields "bservationId" "o" (tail (map fst (observationFields (Build_MarketObservation "" "" "" 0 "" PRICE None "" 0 None None 0 USER_UNTRUSTED "" "" None "")))))
    in H as [E15 _]; [|done..].
  apply (inj pretty) in E3, E4, E7, E10.
  split_and!; try done; [by destruct (mode b), (mode b')| | |by destruct (coherent (coherence b)), (coherent (coherence b'))].
  - apply (sorted_fields _ id) in E15; [|apply observationFields_inj]. by rewrite !map_id in E15.
  - by apply (sorted_fields _ undetailed) in E14; [|apply sourceFields_inj].
Qed.

(** C18: the hash of a snapshot is of what it says, when its unquoted identifiers hold no ampersand.  Take two sealed snapshots
    whose snapshot id, observation sources and asset ids hold no "&", the separator of the hashed text ([plainIds]; the schema
    refuses no such identifier, and with one the claim fails, see [ampersand_ids_share_a_text]).  If they have the same hash,
    they have the same identity, anchor and predecessor, the same measurements down to the last field, the same sources but for
    their prose, and the same verdict on their coherence, or SHA-256 has a collision; so a record cannot be changed under the
    hash a decision cites.  What is sealed verifies. *)
Theorem hash_binds sha i i' s s' : sealSnapshot localeCompare sha i = Ok s -> sealSnapshot localeCompare sha i' = Ok s' ->
  plainIds i -> plainIds i' ->
  verifySnapshotHash localeCompare sha s = Ok tt /\
  (snapshotHash s = snapshotHash s' -> sameBody (body s) (body s') \/ collides sha) /\
  (verifySnapshotHash localeCompare sha {| body := body s'; snapshotHash := snapshotHash s |} = Ok tt ->
     sameBody (body s) (body s') \/ collides sha).
Proof.
  intros [Hok ->]%sealSnapshot_ok [Hok' ->]%sealSnapshot_ok Hp Hp'. cbn [body snapshotHash].
  assert (H : computeSnapshotHash localeCompare sha (bodyOf i) = computeSnapshotHash localeCompare sha (bodyOf i') ->
    sameBody (bodyOf i) (bodyOf i') \/ collides sha).
  { unfold computeSnapshotHash. intros H%Json.app_inv_head.
    destruct (decide (canonicalSnapshotBody localeCompare (bodyOf i) = canonicalSnapshotBody localeCompare (bodyOf i'))) as [E|E].
    - left. by apply text_binds.
    - right. by exists (canonicalSnapshotBody localeCompare (bodyOf i)), (canonicalSnapshotBody localeCompare (bodyOf i')). }
  split_and!; [|exact H|].
  - unfold verifySnapshotHash. cbn [body snapshotHash]. by rewrite streq_refl.
  - unfold verifySnapshotHash. rewrite throw_ok, negb_false_iff, streq_true. cbn [body snapshotHash]. intros [E _]. by apply H.
Qed.

Context `{!Collation localeCompare}.

#[local] Instance sourceBefore_total : Total (sourceBefore localeCompare).
Proof. intros a b. apply collation_total. Qed.
#[local] Instance sourceBefore_trans : Transitive (sourceBefore localeCompare).
Proof. intros a b c. apply collation_trans. Qed.
#[local] Instance observationBefore_total : Total (observationBefore localeCompare).
Proof. intros a b. apply collation_total. Qed.
#[local] Instance observationBefore_trans : Transitive (observationBefore localeCompare).
Proof. intros a b c. apply collation_trans. Qed.

Lemma sorted_perm {A : Type} (R : relation A) `{!RelDecision R, !Total R, !Transitive R} l l' :
  (forall x y, x ∈ l -> y ∈ l -> R x y -> R y x -> x = y) -> l ≡ₚ l' -> merge_sort R l = merge_sort R l'.
Proof.
  intros Ha Hp. apply (StronglySorted_unique_strong R); try apply StronglySorted_merge_sort; try done.
  - intros x y Hx Hy. rewrite merge_sort_Permutation in Hx, Hy. rewrite <- Hp in Hy. by apply Ha.
  - by rewrite !merge_sort_Permutation.
Qed.

Lemma by_id {A : Type} (f : A -> string) l : NoDup (map f l) -> (forall x, x ∈ l -> all_chars refChar (f x) = true) ->
  forall x y, x ∈ l -> y ∈ l -> localeCompare (f x) (f y) <= 0 -> localeCompare (f y) (f x) <= 0 -> x = y.
Proof. intros Hnd Hr x y Hx Hy H1 H2. apply (NoDup_map_inj f l); try done. by apply collation_refs; [apply Hr..| |]. Qed.

(** The hash is a measure of what a snapshot says, not of the order in which it was put together: with the sources and the
    measurements of a snapshot in any other order its hash is the same, as long as they have names of their own. *)
Theorem hash_order_free sha b srcs obs : srcs ≡ₚ sources b -> obs ≡ₚ observations b ->
  NoDup (map s_sourceId (sources b)) -> NoDup (map observationId (observations b)) ->
  (forall x, x ∈ sources b -> all_chars refChar (s_sourceId x) = true) ->
  (forall x, x ∈ observations b -> all_chars refChar (observationId x) = true) ->
  computeSnapshotHash localeCompare sha {| snapshotId := snapshotId b; mode := mode b; observedAtMs := observedAtMs b; anchorChainId := anchorChainId b;
    anchorBlock := anchorBlock b; anchorBlockHash := anchorBlockHash b; anchorBlockTimestampMs := anchorBlockTimestampMs b; sources := srcs;
    observations := obs; canonicalAssetIds := canonicalAssetIds b; coherence := coherence b; provenance := provenance b;
    supersedes := supersedes b |} = computeSnapshotHash localeCompare sha b.
Proof.
  intros Hs Ho Hns Hno Hrs Hro. unfold computeSnapshotHash, canonicalSnapshotBody, bodyParts. cbn [sources observations].
  rewrite (sorted_perm (sourceBefore localeCompare) (sources b) srcs); [|by apply (by_id s_sourceId)|done].
  by rewrite (sorted_perm (observationBefore localeCompare) (observations b) obs); [|by apply (by_id observationId)|].
Qed.

End binding.
End Snapshot.

(** Concrete sources, readings and snapshots. *)
Module RealitySamples.
Import Adapters.Trust Rpc Sources Snapshot.

Definition KEY : string := "0x1111111111111111111111111111111111111111111111111111111111111111".

(** A key in a list is not found, under a name of its own it is. *)
Example key_in_list_unseen :
  assertNoSignerCredential (VObj [("url", VStr "http://node"); ("keys", VArr [VStr KEY])]) = Ok tt /\
  assertNoSignerCredential (VObj [("url", VStr "http://node"); ("note", VStr KEY)]) = Err CREDENTIAL_PRESENT /\
  firstCredential (VObj [("nodes", VArr [VNull; VObj [("Mnemonic", VNull)]])]) [] = Some ["nodes"; "1"; "Mnemonic"].
Proof. vm_compute. repeat split; reflexivity. Qed.

Example sample_methods : map assertRpcMethodAllowed ["eth_call"; "eth_sendRawTransaction"; "personal_sign"; "ANVIL_setBalance"; "ETH_CALL"; "trace_block"]
  = [Ok tt; Err WRITE_METHOD; Err SIGNING_METHOD; Err WRITE_METHOD; Err UNKNOWN_METHOD; Err UNKNOWN_METHOD].
Proof. vm_compute. reflexivity. Qed.

(** Networks that may be written to are read sources too. *)
Example testnets_are_read_sources : map assertReadSourceAllowed [1; 11155111; 31337; 10] = [Ok tt; Ok tt; Ok tt; Err NOT_READ_ONLY].
Proof. vm_compute. reflexivity. Qed.

Definition reading (i : string) (v d : Z) (t : DataTrustClass) : Reading := {| r_sourceId := i; r_value := v; r_decimals := d; r_trustClass := t |}.

(** Below the indexers all classes rank the same, and the first of them is authoritative: here what a user typed, over what was
    read from the chain. *)
Example untrusted_authoritative :
  match compareReadings [reading "typed" 100 0 USER_UNTRUSTED; reading "chain" 200 0 DIRECT_CHAIN_DATA] 100 with
  | Ok d => (r_sourceId (authoritative d), disagrees d, spreadBps d) = ("typed", true, 10000)
  | Err _ => False
  end.
Proof. vm_compute. reflexivity. Qed.

Example sample_compare :
  match compareReadings [reading "graph" 2100000000000000000000 18 INDEXED_CHAIN_DATA; reading "feed" 243442066354 8 VERIFIED_ORACLE] 100 with
  | Ok d => (r_sourceId (authoritative d), disagrees d, spreadBps d) = ("feed", true, 1592)
  | Err _ => False
  end.
Proof. vm_compute. reflexivity. Qed.

Definition priceOf (s : string) (t : DataTrustClass) (age : Z) : SourceRequirement :=
  {| q_subject := s; q_chainId := 1; requiredTrust := t; maxAgeMs := age; historicalRequired := false; availableCredentials := [] |}.
Example sample_select : map (fun q => match selectSource codeUnitCompare q with Ok s => Some (sourceId (source s)) | Err _ => None end)
    [priceOf "weth/usd" VERIFIED_ORACLE 3600000; priceOf "weth/usd" VERIFIED_ORACLE 60000; priceOf "uniswap-v3:history" EXTERNAL_API 600000]
  = [Some "chainlink-feed-eth-usd-mainnet"; None; None].
Proof. vm_compute. reflexivity. Qed.

Lemma select_spec_witness :
  match selectFrom codeUnitCompare SOURCES (priceOf "weth/usd" VERIFIED_ORACLE 3600000) with
  | Ok s => qualifies (priceOf "weth/usd" VERIFIED_ORACLE 3600000) (source s)
  | Err _ => True
  end.
Proof.
  pose proof (select_spec codeUnitCompare SOURCES (priceOf "weth/usd" VERIFIED_ORACLE 3600000)) as H.
  destruct (selectFrom _ _ _) as [s|e]; [apply (proj1 (proj2 H))|exact I].
Defined.

Definition sepoliaUsdc : Assets.AssetDeployment :=
  {| Assets.chainId := 11155111; Assets.address := "0x1c7D4B196Cb0C7B01d743Fbc6116a902379C7238"; Assets.symbol := "USDC";
     Assets.decimals := 6; Assets.role := Assets.STABLECOIN |}.
Lemma mapping_stays_on_chain_witness :
  Assets.assertAddressBelongsToChain (Assets.address sepoliaUsdc) 11155111 = Ok tt.
Proof. exact (proj1 (proj2 (proj2 (Assets.mapping_stays_on_chain "usdc" 11155111 sepoliaUsdc eq_refl)))). Defined.

Definition src (i : string) : SnapshotSource :=
  {| s_sourceId := i; s_kind := READ_ONLY_RPC; s_adapterId := "a"; s_adapterVersion := "1.0.0"; s_trustClass := DIRECT_CHAIN_DATA;
     s_sourceChainId := 1; timeSupport := BLOCK_SCOPED; observedBlock := Some "25963602"; lagBlocks := Some 0; healthy := true; s_detail := None |}.
(** A source with a detail, and one that did not answer well. *)
Definition detailed (d : string) (s : SnapshotSource) : SnapshotSource :=
  {| s_sourceId := s_sourceId s; s_kind := s_kind s; s_adapterId := s_adapterId s; s_adapterVersion := s_adapterVersion s;
     s_trustClass := s_trustClass s; s_sourceChainId := s_sourceChainId s; timeSupport := timeSupport s; observedBlock := observedBlock s;
     lagBlocks := lagBlocks s; healthy := healthy s; s_detail := Some d |}.
Definition unwell (s : SnapshotSource) : SnapshotSource :=
  {| s_sourceId := s_sourceId s; s_kind := s_kind s; s_adapterId := s_adapterId s; s_adapterVersion := s_adapterVersion s;
     s_trustClass := s_trustClass s; s_sourceChainId := s_sourceChainId s; timeSupport := timeSupport s; observedBlock := observedBlock s;
     lagBlocks := lagBlocks s; healthy := false; s_detail := s_detail s |}.
Definition obs (i s : string) (t : Z) : MarketObservation :=
  {| observationId := i; metric := "weth/usd:price"; o_value := "243442066354"; o_decimals := 8; unit_ := "USD"; dataType := PRICE;
     canonicalAssetId := Some "weth"; o_sourceId := s; o_sourceChainId := 1; blockNumber := Some "25963602"; sourceTimestampMs := Some t;
     retrievedAtMs := 1000000; o_trustClass := VERIFIED_ORACLE; o_adapterId := "a"; o_adapterVersion := "1.0.0"; derivedFrom := None;
     o_provenance := "read" |}.
Definition input (srcs : list SnapshotSource) (l : list MarketObservation) : SnapshotInput :=
  {| i_snapshotId := "snap-1"; i_mode := LIVE_MIRROR; i_observedAtMs := 1000000; i_anchorChainId := 1; i_anchorBlock := "25963602";
     i_anchorBlockHash := KEY; i_anchorBlockTimestampMs := 999000; i_sources := srcs; i_observations := l; i_provenance := ["live"];
     i_supersedes := None; i_maxTimeSkewMs := None; i_maxSourceAgeMs := None; i_sourceMaxAgeMs := []; i_nowMs := None |}.
Definition two : SnapshotInput := input [src "feed"; src "rpc"] [obs "o1" "feed" 990000; obs "o2" "rpc" 999000].
Definition digest (s : string) : string := s.
Definition sealed (i : SnapshotInput) : MarketSnapshot :=
  {| body := bodyOf i; snapshotHash := computeSnapshotHash codeUnitCompare digest (bodyOf i) |}.

Example sample_seal : sealSnapshot codeUnitCompare digest two = Ok (sealed two) /\
  assertSnapshotUsable (sealed two) 1030000 60000 = Ok tt /\ assertSnapshotUsable (sealed two) 1600000 60000 = Err NO_VALID_CONTEXT /\
  fst (snapshotState (sealed (input [src "feed"] [obs "o1" "feed" 900000; obs "o2" "feed" 999000])) 1000000 60000) = INCOHERENT /\
  fst (snapshotState (sealed (input [src "feed"] [])) 1000000 60000) = INCOMPLETE.
Proof. vm_compute. repeat split; reflexivity. Qed.

Lemma usable_iff_witness : assertSnapshotUsable (sealed two) 1030000 60000 = Ok tt.
Proof.
  apply (usable_iff codeUnitCompare digest two (sealed two) 1030000 60000 (proj1 sample_seal)).
  split_and!; [cbn; lia|discriminate| | |].
  - cbn [i_observations two input opt_maxTimeSkewMs]. intros a b Ha Hb.
    repeat (apply elem_of_cons in Ha as [-> | Ha]); try (by apply elem_of_nil in Ha);
      repeat (apply elem_of_cons in Hb as [-> | Hb]); try (by apply elem_of_nil in Hb); vm_compute; discriminate.
  - intros o Ho. cbn [i_observations two input] in Ho. repeat (apply elem_of_cons in Ho as [-> | Ho]); try (by apply elem_of_nil in Ho); vm_compute; discriminate.
  - intros x Hx. cbn [i_sources two input] in Hx. repeat (apply elem_of_cons in Hx as [-> | Hx]); try (by apply elem_of_nil in Hx); reflexivity.
Defined.

Lemma two_plain : plainIds two.
Proof.
  split; [reflexivity|]. intros o Ho. cbn [i_observations two input] in Ho.
  repeat (apply elem_of_cons in Ho as [-> | Ho]); try (by apply elem_of_nil in Ho); by split.
Qed.

(** The same measurements in another order, a source that words its detail otherwise, and other provenance. *)
Definition reworded : SnapshotInput :=
  {| i_snapshotId := "snap-1"; i_mode := LIVE_MIRROR; i_observedAtMs := 1000000; i_anchorChainId := 1; i_anchorBlock := "25963602";
     i_anchorBlockHash := KEY; i_anchorBlockTimestampMs := 999000; i_sources := [src "rpc"; detailed "primary feed" (src "feed")];
     i_observations := [obs "o2" "rpc" 999000; obs "o1" "feed" 990000]; i_provenance := ["copied"]; i_supersedes := None;
     i_maxTimeSkewMs := None; i_maxSourceAgeMs := None; i_sourceMaxAgeMs := []; i_nowMs := None |}.

Example reworded_seal : sealSnapshot codeUnitCompare digest reworded = Ok (sealed reworded) /\
  snapshotHash (sealed two) = snapshotHash (sealed reworded) /\ sources (bodyOf two) <> sources (bodyOf reworded) /\
  observations (bodyOf two) <> observations (bodyOf reworded) /\ provenance (bodyOf two) <> provenance (bodyOf reworded).
Proof. split; [vm_compute; reflexivity|]. split; [vm_compute; reflexivity|]. by split_and!. Qed.

Lemma reworded_plain : plainIds reworded.
Proof.
  split; [reflexivity|]. intros o Ho. cbn [i_observations reworded] in Ho.
  repeat (apply elem_of_cons in Ho as [-> | Ho]); try (by apply elem_of_nil in Ho); by split.
Qed.

Lemma hash_binds_witness : sameBody (body (sealed two)) (body (sealed reworded)) \/ collides digest.
Proof.
  exact (proj1 (proj2 (hash_binds codeUnitCompare digest two reworded (sealed two) (sealed reworded) (proj1 sample_seal) (proj1 reworded_seal)
    two_plain reworded_plain)) (proj1 (proj2 reworded_seal))).
Defined.

(** The hashed text of a body between its id and its stale sources. *)
Definition middle (i : SnapshotInput) : string := String.concat "&" (take 10 (drop 2 (bodyParts codeUnitCompare (bodyOf i)))).
(** One observation of a source that does not answer, in a snapshot of a given id, mode and age limit. *)
Definition lone (i : string) (m : RealityMode) (source : string) (age : option Z) : SnapshotInput :=
  {| i_snapshotId := i; i_mode := m; i_observedAtMs := 1000000; i_anchorChainId := 1; i_anchorBlock := "25963602";
     i_anchorBlockHash := KEY; i_anchorBlockTimestampMs := 999000; i_sources := [unwell (src "feed")];
     i_observations := [obs "o1" source 990000]; i_provenance := ["live"]; i_supersedes := None; i_maxTimeSkewMs := None;
     i_maxSourceAgeMs := age; i_sourceMaxAgeMs := []; i_nowMs := None |}.
(** A source named like the rest of a text, and an id named like the start of one. *)
Definition longSource : string := "x&" +:+ middle (lone "a" HISTORICAL_REPLAY "x" None) +:+ "&coherenceStaleSources=".
Definition longId : string := "a&" +:+ middle (lone "a" LIVE_MIRROR "x" None) +:+ "&coherenceStaleSources=x".

(** Identifiers with ampersands are sealed, and two snapshots of different ids, modes and stale sources then have one hashed text. *)
Example ampersand_ids_share_a_text :
  let one := lone "a" LIVE_MIRROR longSource (Some 1) in let other := lone longId HISTORICAL_REPLAY longSource None in
  sealSnapshot codeUnitCompare digest one = Ok (sealed one) /\ sealSnapshot codeUnitCompare digest other = Ok (sealed other) /\
  canonicalSnapshotBody codeUnitCompare (bodyOf one) = canonicalSnapshotBody codeUnitCompare (bodyOf other) /\
  snapshotId (bodyOf one) <> snapshotId (bodyOf other) /\ mode (bodyOf one) <> mode (bodyOf other).
Proof. vm_compute. split_and!; [reflexivity..|discriminate|discriminate]. Qed.

Lemma hash_order_free_witness :
  computeSnapshotHash codeUnitCompare digest (bodyOf (input [src "rpc"; src "feed"] [obs "o1" "feed" 990000; obs "o2" "rpc" 999000]))
  = computeSnapshotHash codeUnitCompare digest (bodyOf two).
Proof.
  refine (hash_order_free codeUnitCompare digest (bodyOf two) [src "rpc"; src "feed"] [obs "o1" "feed" 990000; obs "o2" "rpc" 999000] _ _ _ _ _ _).
  - apply Permutation_swap.
  - reflexivity.
  - apply (bool_decide_eq_true (NoDup ["feed"; "rpc"])). vm_compute. reflexivity.
  - apply (bool_decide_eq_true (NoDup ["o1"; "o2"])). vm_compute. reflexivity.
  - intros x Hx. cbn in Hx. repeat (apply elem_of_cons in Hx as [-> | Hx]); try (by apply elem_of_nil in Hx); reflexivity.
  - intros x Hx. cbn in Hx. repeat (apply elem_of_cons in Hx as [-> | Hx]); try (by apply elem_of_nil in Hx); reflexivity.
Defined.

End RealitySamples.
