(* ===== verification/Shadow.v ===== *)
(** * Scenarios, replays, forks and the shadow agent

    The rest of [packages/studio-reality/src].  Module [Overlay] is [overlay.ts], a market picture with one thing
    changed.  Module [Replay] is [replay.ts], a block for a moment of the past and what may be read about it.  Module
    [Fork] is [fork.ts], the local copy of a chain and its life.  Module [Agent] is [shadow.ts], the agent that watches the
    real market and acts elsewhere.  Module [Audit] is [audit.ts].  Module [ShadowSamples] has concrete cases.

    A client and a node are what they answer.  The parser of URLs, SHA-256 and [localeCompare] are parameters. *)

From S2P Require Import Prelude JsNum Regex Json Network Adapters Reality.
From stdpp Require Import pretty sorting.
From Stdlib Require Import Ascii.
Local Open Scope Z_scope.

Module Overlay.
Import Adapters.Trust Reality.Sources Reality.Snapshot.

Definition OVERLAY_SCHEMA_VERSION : string := "contextlock.scenario-overlay/v1".

Inductive OverlayOp := PERCENT | ADD_BPS | SET | AGE_BY_MS | LAG_BY_BLOCKS.
#[export] Instance OverlayOp_eq_dec : EqDecision OverlayOp.
Proof. solve_decision. Defined.
Definition opText (o : OverlayOp) : string :=
  match o with PERCENT => "PERCENT" | ADD_BPS => "ADD_BPS" | SET => "SET" | AGE_BY_MS => "AGE_BY_MS" | LAG_BY_BLOCKS => "LAG_BY_BLOCKS" end.

Record OverlayMutation := { m_metric : string; op : OverlayOp; operand : Z; note : string }.
(** [schemaVersion] is a literal. *)
Record ScenarioOverlay := { overlayId : string; name : string; description : string; mutations : list OverlayMutation }.

Inductive OverlayReason := IMPOSSIBLE_VALUE | UNKNOWN_METRIC | WRONG_OP | BASE_MUTATED | SCHEMA_REFUSED.
#[export] Instance OverlayReason_eq_dec : EqDecision OverlayReason.
Proof. solve_decision. Defined.

Definition simulatedTrustLabel (t : DataTrustClass) : string := "SIMULATED_FROM_" +:+ trustName t.
Definition SYNTHETIC_TRUST_CLASS : DataTrustClass := USER_UNTRUSTED.

Definition NON_NEGATIVE_TYPES : list DataType := [PRICE; AMOUNT; COUNT; HEALTH_FACTOR; TIMESTAMP].
Definition OP_ALLOWED (o : OverlayOp) : list DataType :=
  match o with
  | PERCENT => [PRICE; AMOUNT; RATE; RATIO; COUNT; HEALTH_FACTOR]
  | ADD_BPS => [BPS; RATE; RATIO]
  | SET => [PRICE; AMOUNT; RATE; RATIO; BPS; COUNT; HEALTH_FACTOR]
  | AGE_BY_MS => [PRICE; AMOUNT; RATE; RATIO; BPS; COUNT; HEALTH_FACTOR; TIMESTAMP]
  | LAG_BY_BLOCKS => [PRICE; AMOUNT; RATE; RATIO; BPS; COUNT; HEALTH_FACTOR]
  end.

(** [BigInt] of an optional minus and digits. *)
Definition valueZ (s : string) : Z :=
  match s with String "-" r => - blockValue r | _ => blockValue s end.
(** [Number.isFinite(Number(v))]: below the point where a double rounds to infinity. *)
Definition finite (v : Z) : bool := Z.abs v <? 2 ^ 1024 - 2 ^ 970.

Definition newValue (m : OverlayMutation) (v : Z) : Z :=
  match op m with
  | PERCENT => v * (100 + operand m) ÷ 100
  | ADD_BPS => v + operand m
  | SET => operand m
  | AGE_BY_MS | LAG_BY_BLOCKS => v
  end.

Definition applyMutation (o : MarketObservation) (m : OverlayMutation) : result OverlayReason MarketObservation :=
  throw WRONG_OP when negb (includes (OP_ALLOWED (op m)) (dataType o)) ;;
  let v := newValue m (valueZ (o_value o)) in
  throw IMPOSSIBLE_VALUE when includes NON_NEGATIVE_TYPES (dataType o) && (v <? 0) ;;
  throw IMPOSSIBLE_VALUE when negb (finite v) ;;
  Ok {| observationId := observationId o; metric := metric o; o_value := pretty v; o_decimals := o_decimals o; unit_ := unit_ o;
        dataType := dataType o; canonicalAssetId := canonicalAssetId o; o_sourceId := o_sourceId o; o_sourceChainId := o_sourceChainId o;
        blockNumber := match op m with
                       | LAG_BY_BLOCKS => option_map (fun b => pretty (Z.max 0 (blockValue b - operand m))) (blockNumber o)
                       | _ => blockNumber o
                       end;
        sourceTimestampMs := match op m with
                             | AGE_BY_MS => option_map (fun t => Z.max 0 (t - operand m)) (sourceTimestampMs o)
                             | _ => sourceTimestampMs o
                             end;
        retrievedAtMs := retrievedAtMs o; o_trustClass := SYNTHETIC_TRUST_CLASS; o_adapterId := o_adapterId o;
        o_adapterVersion := o_adapterVersion o;
        derivedFrom := Some (observationId o +:+ "@" +:+ simulatedTrustLabel (o_trustClass o));
        o_provenance := simulatedTrustLabel (o_trustClass o) +:+ ": " +:+ note m +:+ " (" +:+ opText (op m) +:+ " " +:+ pretty (operand m) +:+
                        " applied to " +:+ observationId o +:+ ", originally " +:+ o_provenance o +:+ ")" |}.

Definition applyMutations (ms : list OverlayMutation) (o : MarketObservation) : result OverlayReason MarketObservation :=
  fold_left (fun acc m => let* x := acc in applyMutation x m) ms (Ok o).

Definition mutationsOf (ov : ScenarioOverlay) (o : MarketObservation) : list OverlayMutation :=
  List.filter (fun m => streq (m_metric m) (metric o)) (mutations ov).

Definition overlayOk (ov : ScenarioOverlay) : bool :=
  nonempty (overlayId ov) && nonempty (name ov) && nonempty (description ov) && bool_decide (mutations ov <> []) &&
  every (fun m => nonempty (m_metric m) && nonempty (note m)) (mutations ov).

Definition overlaySource (base : MarketSnapshot) (ov : ScenarioOverlay) : SnapshotSource :=
  {| s_sourceId := "overlay:" +:+ overlayId ov; s_kind := SOURCE_EXTERNAL_API; s_adapterId := "contextlock-scenario-overlay";
     s_adapterVersion := OVERLAY_SCHEMA_VERSION; s_trustClass := SYNTHETIC_TRUST_CLASS; s_sourceChainId := anchorChainId (body base);
     timeSupport := NON_HISTORICAL_SOURCE; observedBlock := Some (anchorBlock (body base)); lagBlocks := None; healthy := true;
     s_detail := Some ("synthetic: " +:+ name ov) |}.

Record ScenarioResult := {
  overlay : ScenarioOverlay; baseSnapshotHash : string; scenarioHash : string; snapshot : MarketSnapshot; mutatedMetrics : list string
}.

Section application.
Context (localeCompare : string -> string -> Z) (sha256Hex : string -> string).

Definition scenarioText (baseHash : string) (ov : ScenarioOverlay) : string :=
  String.concat "&" (["base=" +:+ baseHash; "overlay=" +:+ overlayId ov; "schema=" +:+ OVERLAY_SCHEMA_VERSION] ++
    map (fun m => "m:" +:+ m_metric m +:+ "|" +:+ opText (op m) +:+ "|" +:+ pretty (operand m)) (mutations ov)).
Definition computeScenarioHash (baseHash : string) (ov : ScenarioOverlay) : string := "sha256:" +:+ sha256Hex (scenarioText baseHash ov).

Definition mutatedOf (ov : ScenarioOverlay) (l : list MarketObservation) : list string :=
  map metric (List.filter (fun o => bool_decide (mutationsOf ov o <> [])) l).

Definition overlayInput (base : MarketSnapshot) (ov : ScenarioOverlay) (obs : list MarketObservation) (newId : string) (nowMs : option Z) : SnapshotInput :=
  let b := body base in
  let mutated := String.concat ", " (mutatedOf ov (observations b)) in
  {| i_snapshotId := newId; i_mode := mode b; i_observedAtMs := observedAtMs b; i_anchorChainId := anchorChainId b; i_anchorBlock := anchorBlock b;
     i_anchorBlockHash := anchorBlockHash b; i_anchorBlockTimestampMs := anchorBlockTimestampMs b;
     i_sources := sources b ++ [overlaySource base ov]; i_observations := obs;
     i_provenance := provenance b ++
       ["scenario overlay " +:+ String dquote "" +:+ name ov +:+ String dquote "" +:+ " (" +:+ overlayId ov +:+ ") applied to " +:+ snapshotId b +:+ " (" +:+ snapshotHash base +:+ ")";
        "mutated: " +:+ (if streq mutated "" then "nothing" else mutated)];
     i_supersedes := None; i_maxTimeSkewMs := Some MAX_SAFE_INTEGER; i_maxSourceAgeMs := Some MAX_SAFE_INTEGER; i_sourceMaxAgeMs := [];
     i_nowMs := Some (default (observedAtMs b) nowMs) |}.

Definition applyOverlay (base : MarketSnapshot) (ov : ScenarioOverlay) (newId : string) (nowMs : option Z) : result OverlayReason ScenarioResult :=
  throw SCHEMA_REFUSED when negb (overlayOk ov) ;;
  throw UNKNOWN_METRIC when some (fun m => negb (some (fun o => streq (metric o) (m_metric m)) (observations (body base)))) (mutations ov) ;;
  let* obs := mapR (fun o => applyMutations (mutationsOf ov o) o) (observations (body base)) in
  match sealSnapshot localeCompare sha256Hex (overlayInput base ov obs newId nowMs) with
  | Err _ => Err SCHEMA_REFUSED
  | Ok s => Ok {| overlay := ov; baseSnapshotHash := snapshotHash base; scenarioHash := computeScenarioHash (snapshotHash base) ov; snapshot := s;
                  mutatedMetrics := mutatedOf ov (observations (body base)) |}
  end.
End application.

Definition assertBaseUnchanged (base : MarketSnapshot) (hashBefore : string) : result OverlayReason unit :=
  throw BASE_MUTATED when negb (streq (snapshotHash base) hashBefore) ;; Ok tt.

Definition FLASH_CRASH : ScenarioOverlay :=
  {| overlayId := "flash-crash-20"; name := "Flash crash";
     description := "A 20% drawdown with volatility spiking and liquidity halving — the shape of a cascade, not a drift.";
     mutations := [{| m_metric := "weth/usd:price"; op := PERCENT; operand := -20; note := "price falls 20%" |};
                   {| m_metric := "market:volatilityBps"; op := SET; operand := 5000; note := "volatility to 5000bps" |};
                   {| m_metric := "market:liquidity"; op := PERCENT; operand := -50; note := "liquidity halves" |}] |}.
Definition STALE_ORACLE : ScenarioOverlay :=
  {| overlayId := "stale-oracle-120s"; name := "Stale oracle";
     description := "The price is unchanged and two minutes old. Tests whether freshness is checked or assumed.";
     mutations := [{| m_metric := "weth/usd:price"; op := AGE_BY_MS; operand := 120000; note := "the feed last updated two minutes ago" |}] |}.

(** ** What an overlay does *)

Lemma valueZ_pretty (z : Z) : valueZ (pretty z) = z.
Proof.
  destruct z as [|p|p]; [done| |].
  - change (pretty (Zpos p)) with (pretty (Npos p)). unfold valueZ, blockValue. rewrite decimal_pretty.
    pose proof (decimal_digits _ _ _ (decimal_pretty (Npos p))) as H. destruct (pretty (Npos p)) as [|c r] eqn:E; [by destruct (pretty_N_nonempty (Npos p))|].
    destruct c as [[] [] [] [] [] [] [] []]; try done; cbn in H; done.
  - change (pretty (Zneg p)) with (String "-" (pretty (Npos p))). cbn [valueZ]. unfold blockValue. by rewrite decimal_pretty.
Qed.

(** What one mutation makes of a measurement, written out: which kinds of data it is for, the new value, timestamp and block, the class and
    the trace of what it was derived from; the rest is as it was, and a value that cannot be negative is not. *)
Record changed (m : OverlayMutation) (o o' : MarketObservation) : Prop := {
  chg_what :
    match op m with
    | PERCENT => dataType o ∈ [PRICE; AMOUNT; RATE; RATIO; COUNT; HEALTH_FACTOR] /\
        o_value o' = pretty ((valueZ (o_value o) * (100 + operand m)) ÷ 100) /\
        sourceTimestampMs o' = sourceTimestampMs o /\ blockNumber o' = blockNumber o
    | ADD_BPS => dataType o ∈ [BPS; RATE; RATIO] /\ o_value o' = pretty (valueZ (o_value o) + operand m) /\
        sourceTimestampMs o' = sourceTimestampMs o /\ blockNumber o' = blockNumber o
    | SET => dataType o ∈ [PRICE; AMOUNT; RATE; RATIO; BPS; COUNT; HEALTH_FACTOR] /\ o_value o' = pretty (operand m) /\
        sourceTimestampMs o' = sourceTimestampMs o /\ blockNumber o' = blockNumber o
    | AGE_BY_MS => dataType o ∈ [PRICE; AMOUNT; RATE; RATIO; BPS; COUNT; HEALTH_FACTOR; TIMESTAMP] /\
        o_value o' = pretty (valueZ (o_value o)) /\
        match sourceTimestampMs o with
        | Some t => sourceTimestampMs o' = Some (Z.max 0 (t - operand m))
        | None => sourceTimestampMs o' = None
        end /\ blockNumber o' = blockNumber o
    | LAG_BY_BLOCKS => dataType o ∈ [PRICE; AMOUNT; RATE; RATIO; BPS; COUNT; HEALTH_FACTOR] /\
        o_value o' = pretty (valueZ (o_value o)) /\ sourceTimestampMs o' = sourceTimestampMs o /\
        match blockNumber o with
        | Some b => blockNumber o' = Some (pretty (Z.max 0 (blockValue b - operand m)))
        | None => blockNumber o' = None
        end
    end;
  chg_trust : o_trustClass o' = USER_UNTRUSTED;
  chg_derived : derivedFrom o' = Some (observationId o +:+ "@SIMULATED_FROM_" +:+ trustName (o_trustClass o));
  chg_possible : dataType o ∈ [PRICE; AMOUNT; COUNT; HEALTH_FACTOR; TIMESTAMP] -> 0 <= valueZ (o_value o');
  chg_same : observationId o' = observationId o /\ metric o' = metric o /\ o_decimals o' = o_decimals o /\ unit_ o' = unit_ o /\
    dataType o' = dataType o /\ canonicalAssetId o' = canonicalAssetId o /\ o_sourceId o' = o_sourceId o /\
    o_sourceChainId o' = o_sourceChainId o /\ retrievedAtMs o' = retrievedAtMs o /\ o_adapterId o' = o_adapterId o /\
    o_adapterVersion o' = o_adapterVersion o
}.

(** The mutations in turn, each on what the one before it left. *)
Inductive changes : list OverlayMutation -> MarketObservation -> MarketObservation -> Prop :=
| changes_nil o : changes [] o o
| changes_cons m ms o x o' : changed m o x -> changes ms x o' -> changes (m :: ms) o o'.

Lemma applyMutation_ok o m o' : applyMutation o m = Ok o' -> changed m o o'.
Proof.
  unfold applyMutation. rewrite !throw_ok, negb_false_iff, includes_true, andb_false_iff, includes_false, Z.ltb_ge.
  intros (Hop & Hneg & _ & [= <-]). unfold newValue, OP_ALLOWED, NON_NEGATIVE_TYPES in *. split; cbn; [|done|done| |by split_and!].
  - destruct (op m); (split; [exact Hop|]); split_and!; try done; by destruct (sourceTimestampMs o), (blockNumber o).
  - rewrite valueZ_pretty. intros Hin. by destruct Hneg.
Qed.

Lemma applyMutations_ok ms o o' : applyMutations ms o = Ok o' -> changes ms o o'.
Proof.
  unfold applyMutations. revert o. induction ms as [|m ms IH]; intros o; cbn [fold_left].
  - intros [= <-]. constructor.
  - cbn [rbind]. destruct (applyMutation o m) as [x|e] eqn:E.
    + intros H. eapply changes_cons; [by apply applyMutation_ok|by apply IH].
    + intros H. exfalso. revert H. clear. by induction ms.
Qed.

Lemma mutationsOf_metric ov o : mutationsOf ov o = List.filter (fun m => bool_decide (m_metric m = metric o)) (mutations ov).
Proof. apply filter_ext. intros m. apply eq_true_iff_eq. by rewrite streq_true, bool_decide_eq_true. Qed.

Lemma mutationsOf_nil ov o : mutationsOf ov o = [] <-> forall m, m ∈ mutations ov -> m_metric m <> metric o.
Proof.
  unfold mutationsOf. induction (mutations ov) as [|m l IH]; cbn; [split; [by intros _ x ?%elem_of_nil|done]|].
  setoid_rewrite elem_of_cons. destruct (streq (m_metric m) (metric o)) eqn:E.
  - apply streq_true in E. split; [done|]. intros H. by destruct (H m (or_introl eq_refl)).
  - apply streq_false in E. rewrite IH. naive_solver.
Qed.

(** C34: a scenario is the base with the named things changed, and changed as the mutations say.  The base is what it was.  Every
    measurement of the result is the measurement at its place in the base after the mutations that name its metric, in their
    order, each applied to what the one before it left, with the value, timestamp or block that its operation gives
    ([changed]): a percentage of the value, truncated; basis points added; a value set; an older timestamp or a lower block,
    neither below zero.  So one that no mutation names is as it was, field by field; one that is named is of the untrusted class,
    traced to its id and the class it had before its last mutation, and never a negative value of a type that has none.
    No measurement is added or lost, and no mutation names a metric the base does not have. *)
Theorem overlay_spec localeCompare sha base ov newId nowMs r : applyOverlay localeCompare sha base ov newId nowMs = Ok r ->
  baseSnapshotHash r = snapshotHash base /\
  assertBaseUnchanged base (baseSnapshotHash r) = Ok tt /\
  mutations ov <> [] /\
  (forall m, m ∈ mutations ov -> exists o, o ∈ observations (body base) /\ metric o = m_metric m) /\
  Forall2 (fun o o' => changes (List.filter (fun m => bool_decide (m_metric m = metric o)) (mutations ov)) o o')
    (observations (body base)) (observations (body (snapshot r))) /\
  (forall z, valueZ (pretty z) = z) /\
  sources (body (snapshot r)) = sources (body base) ++ [overlaySource base ov] /\
  anchorBlock (body (snapshot r)) = anchorBlock (body base) /\ anchorBlockHash (body (snapshot r)) = anchorBlockHash (body base) /\
  verifySnapshotHash localeCompare sha (snapshot r) = Ok tt /\
  (forall k, k ∈ mutatedMetrics r <-> exists o m, o ∈ observations (body base) /\ m ∈ mutations ov /\ metric o = k /\ m_metric m = k).
Proof.
  unfold applyOverlay. rewrite !throw_ok, negb_false_iff, some_false, rbind_ok. intros (Hok & Hknown & obs & Hobs & H).
  apply mapR_ok in Hobs. destruct (sealSnapshot _ _ _) as [s|] eqn:E; [|done]. injection H as <-.
  apply sealSnapshot_ok in E as [_ ->]. cbn [baseSnapshotHash snapshot mutatedMetrics body overlayInput bodyOf observations sources anchorBlock anchorBlockHash
    i_observations i_sources i_anchorBlock i_anchorBlockHash].
  split_and!; try done.
  - unfold assertBaseUnchanged. by rewrite streq_refl.
  - unfold overlayOk in Hok. rewrite !andb_true_iff, bool_decide_eq_true in Hok. by destruct Hok as [[_ ?] _].
  - intros m Hm. specialize (Hknown m Hm). apply negb_false_iff, some_true in Hknown as (o & Ho & E%streq_true). by exists o.
  - eapply Forall2_impl; [exact Hobs|]. cbn. intros o o' H%applyMutations_ok. by rewrite <- mutationsOf_metric.
  - exact valueZ_pretty.
  - unfold verifySnapshotHash. cbn [body snapshotHash]. by rewrite streq_refl.
  - intros k. unfold mutatedOf. rewrite list_elem_of_fmap. setoid_rewrite list_elem_of_In. setoid_rewrite filter_In.
    setoid_rewrite bool_decide_eq_true. setoid_rewrite <- list_elem_of_In. split.
    + intros (o & -> & Ho & Hn). destruct (decide (Exists (fun m => m_metric m = metric o) (mutations ov))) as [(m & Hm & E)%Exists_exists|Hne].
      * by exists o, m.
      * destruct Hn. apply mutationsOf_nil. intros m Hm E. apply Hne, Exists_exists. by exists m.
    + intros (o & m & Ho & Hm & <- & E). exists o. split_and!; [done|done|]. rewrite mutationsOf_nil. intros Hn. by apply (Hn m).
Qed.

End Overlay.

Module Replay.
Import Adapters.Trust Reality.Sources Reality.Snapshot.

Inductive ReplayPolicy := EXCLUDE_NON_HISTORICAL | ALLOW_MIXED_TIME.
#[export] Instance ReplayPolicy_eq_dec : EqDecision ReplayPolicy.
Proof. solve_decision. Defined.

(** The reasons of [REPLAY_REASONS] that are thrown, a read that fails, and the schema's refusal. *)
Inductive ReplayReason := NO_EXACT_BLOCK | MIXED_TIME_NOT_ALLOWED | UNRESOLVABLE_TIMESTAMP | ReadFailed | TargetRefused.
#[export] Instance ReplayReason_eq_dec : EqDecision ReplayReason.
Proof. solve_decision. Defined.

Inductive ResolvedFrom := EXPLICIT_BLOCK | TIMESTAMP_SEARCH.
Record ReplayTarget := {
  t_blockNumber : string; blockHash : string; blockTimestampMs : Z; t_chainId : Z; resolvedFrom : ResolvedFrom; requestedTimestampMs : option Z
}.
(** A block a provider answers with; the time is in seconds. *)
Record Block := { number : Z; hash : string; timestamp : Z }.
Definition msOf (b : Block) : Z := timestamp b * 1000.

Definition targetOk (t : ReplayTarget) : bool :=
  digitsOk (t_blockNumber t) && hash32Ok (blockHash t) && (0 <? blockTimestampMs t) && (0 <? t_chainId t) &&
  optAll (fun n => 0 <? n) (requestedTimestampMs t).
Definition parseTarget (t : ReplayTarget) : result ReplayReason ReplayTarget := throw TargetRefused when negb (targetOk t) ;; Ok t.

Section provider.
(** [provider.getBlock], which may throw; and the chain it is of. *)
Context (getBlock : Z -> option Block) (providerChainId : Z).

Definition read (n : Z) : result ReplayReason Block := match getBlock n with Some b => Ok b | None => Err ReadFailed end.

(** The loop; [None] when the fuel runs out. *)
Fixpoint search (fuel : nat) (targetMs lo hi best : Z) : option (result ReplayReason Z) :=
  match fuel with
  | O => None
  | S fuel =>
      if hi <? lo then Some (Ok best)
      else
        let mid := lo + (hi - lo) / 2 in
        match read mid with
        | Err e => Some (Err e)
        | Ok block =>
            if msOf block <=? targetMs then search fuel targetMs (mid + 1) hi mid
            else if mid =? 0 then Some (Ok best) else search fuel targetMs lo (mid - 1) best
        end
  end.

(** One more than the bits of the number of blocks, and one to see that none is left. *)
Definition fuelFor (lo hi : Z) : nat := 2 + Z.to_nat (Z.log2 (Z.max 1 (hi - lo + 1))).

Definition describe (b : Block) (from : ResolvedFrom) (asked : option Z) : ReplayTarget :=
  {| t_blockNumber := pretty (number b); blockHash := to_lower (hash b); blockTimestampMs := msOf b; t_chainId := providerChainId;
     resolvedFrom := from; requestedTimestampMs := asked |}.

(** [lo] and [hi] are the bounds given, or 1 and the head. *)
Definition resolveBlockForTimestamp (targetMs lo hi : Z) : option (result ReplayReason ReplayTarget) :=
  match read hi with
  | Err e => Some (Err e)
  | Ok head =>
      if msOf head <? targetMs then Some (Err UNRESOLVABLE_TIMESTAMP)
      else
        match search (fuelFor lo hi) targetMs lo hi lo with
        | None => None
        | Some (Err e) => Some (Err e)
        | Some (Ok best) => Some (let* chosen := read best in parseTarget (describe chosen TIMESTAMP_SEARCH (Some targetMs)))
        end
  end.

Definition pinBlock (blockNumber : string) : result ReplayReason ReplayTarget :=
  throw NO_EXACT_BLOCK when negb (digitsOk blockNumber) ;;
  let* b := read (blockValue blockNumber) in parseTarget (describe b EXPLICIT_BLOCK None).

(** ** The search *)

Lemma search_returns fuel targetMs lo hi best : hi - lo + 1 < 2 ^ Z.of_nat fuel -> is_Some (search (S fuel) targetMs lo hi best).
Proof.
  revert lo hi best. induction fuel as [|fuel IH]; intros lo hi best Hn.
  - cbn [search]. destruct (Z.ltb_spec hi lo); [done|]. change (2 ^ Z.of_nat 0) with 1 in Hn. lia.
  - rewrite Nat2Z.inj_succ, Z.pow_succ_r in Hn by lia. remember (S fuel) as f eqn:Ef. cbn [search]. subst f. destruct (Z.ltb_spec hi lo) as [|Hle]; [done|].
    destruct (read _) as [b|e]; [|done]. pose proof (Z.div_mod (hi - lo) 2 ltac:(lia)) as Hd. pose proof (Z.mod_pos_bound (hi - lo) 2 ltac:(lia)).
    destruct (_ <=? _); [apply IH; lia|]. destruct (_ =? 0); [done|]. apply IH. lia.
Qed.

Lemma fuelFor_enough lo hi : hi - lo + 1 < 2 ^ Z.of_nat (1 + Z.to_nat (Z.log2 (Z.max 1 (hi - lo + 1)))).
Proof.
  pose proof (Z.log2_spec (Z.max 1 (hi - lo + 1)) ltac:(lia)) as [_ H]. pose proof (Z.log2_nonneg (Z.max 1 (hi - lo + 1))).
  rewrite Nat2Z.inj_add, Z2Nat.id by lia. replace (Z.of_nat 1 + _) with (Z.succ (Z.log2 (Z.max 1 (hi - lo + 1)))) by lia. lia.
Qed.

(** Blocks that are all there and never go back in time. *)
Definition chain (lo hi : Z) : Prop :=
  (forall n, lo <= n <= hi -> is_Some (getBlock n)) /\
  (forall m n a b, lo <= m -> m <= n -> n <= hi -> getBlock m = Some a -> getBlock n = Some b -> timestamp a <= timestamp b).

(** Whether the block [n] is at or before the time. *)
Definition before (targetMs n : Z) : Prop := exists b, getBlock n = Some b /\ msOf b <= targetMs.

Lemma search_spec lo0 hi0 targetMs fuel lo hi best r : chain lo0 hi0 -> 0 <= lo0 -> lo0 <= lo -> hi <= hi0 -> lo <= hi + 1 ->
  ((best = lo0 /\ lo = lo0) \/ (best + 1 = lo /\ before targetMs best /\ lo0 <= best)) ->
  (forall n, hi < n <= hi0 -> ~ before targetMs n) ->
  search fuel targetMs lo hi best = Some r ->
  exists k, r = Ok k /\ lo0 <= k <= Z.max lo0 hi0 /\ (forall n, k < n <= hi0 -> ~ before targetMs n) /\
    (before targetMs k \/ (k = lo0 /\ forall n, lo0 <= n <= hi0 -> ~ before targetMs n)).
Proof.
  intros [Hall Hmono] H0. revert lo hi best. induction fuel as [|fuel IH]; intros lo hi best Hlo Hhi Hlh Hb Ha; [done|]. cbn [search].
  destruct (Z.ltb_spec hi lo) as [Hlt|Hle].
  - intros [= <-]. exists best. split_and!; [done|lia|lia| |].
    + intros n Hn. apply Ha. lia.
    + destruct Hb as [[-> ->]|(Hb1 & Hb2 & _)]; [|by left]. right. split; [done|]. intros n Hn. apply Ha. lia.
  - pose proof (Z.div_mod (hi - lo) 2 ltac:(lia)). pose proof (Z.mod_pos_bound (hi - lo) 2 ltac:(lia)).
    set (mid := lo + (hi - lo) / 2) in *. unfold read. destruct (Hall mid ltac:(lia)) as [b Eb]. rewrite Eb.
    destruct (Z.leb_spec (msOf b) targetMs) as [Hm|Hm].
    + apply IH; [lia|lia|lia| |done]. right. split_and!; [lia|by exists b|lia].
    + assert (forall n, mid - 1 < n <= hi0 -> ~ before targetMs n) as Ha'.
      { intros n Hn (c & Ec & Hc). pose proof (Hmono mid n b c ltac:(lia) ltac:(lia) ltac:(lia) Eb Ec). unfold msOf in *. lia. }
      destruct (Z.eqb_spec mid 0) as [Hz|Hz].
      * intros [= <-]. assert (lo = 0 /\ lo0 = 0) as [-> ->] by lia. destruct Hb as [[-> _]|(? & _ & ?)]; [|lia]. exists 0. split_and!; [done|lia|lia| |].
        -- intros n Hn. apply Ha'. lia.
        -- right. split; [done|]. intros n Hn. apply Ha'. lia.
      * apply IH; [lia|lia|lia| |done]. destruct Hb as [Hb|Hb]; [by left|by right].
Qed.

End provider.

(** The search of a block ends: whatever the bounds, however disordered the chain and whichever reads fail, it answers after
    no more rounds than the number of blocks has bits, and two. *)
Theorem resolve_terminates getBlock cid targetMs lo hi : is_Some (resolveBlockForTimestamp getBlock cid targetMs lo hi).
Proof.
  unfold resolveBlockForTimestamp. destruct (read getBlock hi) as [head|]; [|done]. destruct (_ <? _); [done|].
  destruct (search_returns getBlock (1 + Z.to_nat (Z.log2 (Z.max 1 (hi - lo + 1)))) targetMs lo hi lo (fuelFor_enough lo hi)) as [r Er].
  unfold fuelFor. change (2 + ?n)%nat with (S (1 + n)). rewrite Er. by destruct r.
Qed.

(** C33: a moment of the past names one block.  On a chain that does not go back in time the search refuses exactly a moment after the
    head; otherwise the block it describes is within the bounds, every later one is after the moment, and it is itself at
    or before it, or all of the bounds are after the moment and it is the first of them.  It fails for nothing but a
    block whose description the schema refuses. *)
Theorem resolve_spec getBlock cid targetMs lo hi : 0 <= lo <= hi -> chain getBlock lo hi ->
  exists r, resolveBlockForTimestamp getBlock cid targetMs lo hi = Some r /\
    (r = Err UNRESOLVABLE_TIMESTAMP <-> exists head, getBlock hi = Some head /\ msOf head < targetMs) /\
    (forall e, r = Err e -> e = UNRESOLVABLE_TIMESTAMP \/ e = TargetRefused) /\
    (forall t, r = Ok t -> exists k b, lo <= k <= hi /\ getBlock k = Some b /\ t = describe cid b TIMESTAMP_SEARCH (Some targetMs) /\
       (forall n c, k < n <= hi -> getBlock n = Some c -> targetMs < msOf c) /\
       (msOf b <= targetMs \/ (k = lo /\ forall n c, lo <= n <= hi -> getBlock n = Some c -> targetMs < msOf c))).
Proof.
  intros Hb Hc. destruct (proj1 Hc hi ltac:(lia)) as [head Eh]. unfold resolveBlockForTimestamp, read at 1. rewrite Eh.
  destruct (Z.ltb_spec (msOf head) targetMs) as [Hlt|Hge].
  { exists (Err UNRESOLVABLE_TIMESTAMP). split_and!; [done|split; [by exists head|done]|naive_solver|done]. }
  destruct (search_returns getBlock (1 + Z.to_nat (Z.log2 (Z.max 1 (hi - lo + 1)))) targetMs lo hi lo (fuelFor_enough lo hi)) as [r Er].
  unfold fuelFor. change (2 + ?n)%nat with (S (1 + n)). rewrite Er.
  apply (search_spec getBlock lo hi) in Er as (k & -> & Hk & Hafter & Hbest); [|done|lia|lia|lia|lia|by left|lia].
  unfold read. destruct (proj1 Hc k ltac:(lia)) as [b Eb]. rewrite Eb. cbn [rbind].
  assert (Hlater : forall P : Z -> Prop, (forall n, P n -> ~ before getBlock targetMs n) -> forall n c, P n -> getBlock n = Some c -> targetMs < msOf c).
  { intros P HP n c Hn Ec. apply Z.nle_gt. intros Hle. apply (HP n Hn). by exists c. }
  eexists. split; [done|]. unfold parseTarget. split_and!.
  - split; [destruct (negb _); done|]. intros (h & Eh2 & ?). simplify_eq. lia.
  - intros e. destruct (negb _); [|done]. intros [= <-]. by right.
  - intros t [_ [= <-]]%throw_ok. exists k, b. split_and!; [lia|lia|done|done| |].
    + apply (Hlater (fun n => k < n <= hi)). exact Hafter.
    + destruct Hbest as [(c & Ec & Hcb)|[-> Hn]]; [left; congruence|]. right. split; [done|]. by apply (Hlater (fun n => lo <= n <= hi)).
Qed.

(** ** What a replay reads *)

Record ReplaySourcePlan := { included : list MarketSource; mixedTime : list MarketSource; excluded : list string; mixedTimeSnapshot : bool }.

Inductive ReplayFate := Included (s : MarketSource) | MixedTime (s : MarketSource) | Excluded (i : string).
(** What the loop makes of one id. *)
Definition replayFate (byId : string -> option MarketSource) (policy : ReplayPolicy) (i : string) : ReplayFate :=
  match byId i with
  | None => Excluded i
  | Some s =>
      if bool_decide (lifecycle s = UNAVAILABLE \/ lifecycle s = DEPRECATED) then Excluded i
      else if historical s then Included s
      else if bool_decide (policy = EXCLUDE_NON_HISTORICAL) then Excluded i
      else MixedTime s
  end.
Definition planWith (byId : string -> option MarketSource) (sourceIds : list string) (policy : ReplayPolicy) : ReplaySourcePlan :=
  let fates := map (replayFate byId policy) sourceIds in
  let mixed := omap (fun f => match f with MixedTime s => Some s | _ => None end) fates in
  {| included := omap (fun f => match f with Included s => Some s | _ => None end) fates; mixedTime := mixed;
     excluded := omap (fun f => match f with Excluded i => Some i | _ => None end) fates;
     mixedTimeSnapshot := bool_decide (mixed <> []) |}.
Definition planReplaySources : list string -> ReplayPolicy -> ReplaySourcePlan := planWith sourceById.

Definition assertSourcePinnable (s : MarketSource) (policy : ReplayPolicy) : result ReplayReason unit :=
  if historical s then Ok tt else if bool_decide (policy = ALLOW_MIXED_TIME) then Ok tt else Err MIXED_TIME_NOT_ALLOWED.

Definition markNonHistorical (o : MarketObservation) (replayBlock : string) : MarketObservation :=
  {| observationId := observationId o; metric := metric o; o_value := o_value o; o_decimals := o_decimals o; unit_ := unit_ o;
     dataType := dataType o; canonicalAssetId := canonicalAssetId o; o_sourceId := o_sourceId o; o_sourceChainId := o_sourceChainId o;
     blockNumber := None; sourceTimestampMs := sourceTimestampMs o; retrievedAtMs := retrievedAtMs o; o_trustClass := o_trustClass o;
     o_adapterId := o_adapterId o; o_adapterVersion := o_adapterVersion o; derivedFrom := derivedFrom o;
     o_provenance := "NON_HISTORICAL_SOURCE: " +:+ o_provenance o +:+ ". This value is CURRENT and is presented alongside state from block " +:+
                     replayBlock +:+ "; it is not what this source said at that block." |}.

Definition replaySourceDescriptor (s : MarketSource) (t : ReplayTarget) (pinned : bool) : SnapshotSource :=
  {| s_sourceId := sourceId s; s_kind := kind s; s_adapterId := sourceId s; s_adapterVersion := "1.0.0"; s_trustClass := trustClass s;
     s_sourceChainId := chainId s; timeSupport := if pinned then BLOCK_SCOPED else NON_HISTORICAL_SOURCE;
     observedBlock := if pinned then Some (t_blockNumber t) else None; lagBlocks := None; healthy := true;
     s_detail := Some (if pinned then "pinned to block " +:+ t_blockNumber t
                       else "current value; this source cannot be pinned to a past block") |}.

(** A replay does not take the present for the past.  What it reads as of the block is a source that can answer about a past block
    and is neither gone nor deprecated; what cannot be pinned is left out, or, where mixed times are allowed, listed
    apart with the whole plan marked; every source asked for is in exactly one of the three lists, and what is read at
    all is what [assertSourcePinnable] lets pass. *)
Theorem replay_plan_spec byId ids policy (p := planWith byId ids policy) :
  (forall s, s ∈ included p -> historical s = true /\ lifecycle s <> UNAVAILABLE /\ lifecycle s <> DEPRECATED) /\
  (forall s, s ∈ mixedTime p -> historical s = false /\ policy = ALLOW_MIXED_TIME /\ lifecycle s <> UNAVAILABLE /\ lifecycle s <> DEPRECATED) /\
  (forall s, s ∈ included p ++ mixedTime p -> assertSourcePinnable s policy = Ok tt /\ exists i, i ∈ ids /\ byId i = Some s) /\
  (mixedTimeSnapshot p = true <-> mixedTime p <> []) /\
  (forall i, i ∈ ids -> byId i = None -> i ∈ excluded p) /\
  (length (included p) + length (mixedTime p) + length (excluded p) = length ids)%nat.
Proof.
  assert (Hin : forall s, s ∈ included p <-> exists i, i ∈ ids /\ replayFate byId policy i = Included s).
  { intros s. unfold p, planWith. cbn. setoid_rewrite list_elem_of_omap. setoid_rewrite list_elem_of_fmap. split.
    - intros (f & (i & -> & Hi) & E). exists i. split; [done|]. by destruct (replayFate _ _ i); simplify_eq.
    - intros (i & Hi & E). exists (Included s). split; [by exists i|done]. }
  assert (Hmix : forall s, s ∈ mixedTime p <-> exists i, i ∈ ids /\ replayFate byId policy i = MixedTime s).
  { intros s. unfold p, planWith. cbn. setoid_rewrite list_elem_of_omap. setoid_rewrite list_elem_of_fmap. split.
    - intros (f & (i & -> & Hi) & E). exists i. split; [done|]. by destruct (replayFate _ _ i); simplify_eq.
    - intros (i & Hi & E). exists (MixedTime s). split; [by exists i|done]. }
  assert (Hf : forall i s, (replayFate byId policy i = Included s -> byId i = Some s /\ historical s = true /\ lifecycle s <> UNAVAILABLE /\ lifecycle s <> DEPRECATED) /\
    (replayFate byId policy i = MixedTime s -> byId i = Some s /\ historical s = false /\ policy = ALLOW_MIXED_TIME /\ lifecycle s <> UNAVAILABLE /\ lifecycle s <> DEPRECATED)).
  { intros i s. unfold replayFate. destruct (byId i) as [x|]; [|done]. case_bool_decide as Hl; [done|].
    destruct (historical x) eqn:Eh; [split; intros [= <-]; tauto|]. case_bool_decide as Hp; [done|]. split; intros [= <-]. split_and!; try tauto. by destruct policy. }
  split_and!.
  - intros s (i & _ & E)%Hin. by apply Hf in E as [_ ?].
  - intros s (i & _ & E)%Hmix. by apply Hf in E as [_ ?].
  - intros s [(i & Hi & E)%Hin|(i & Hi & E)%Hmix]%elem_of_app; apply Hf in E as (Ei & Eh & E); (split; [|by exists i]); unfold assertSourcePinnable; rewrite Eh; [done|].
    destruct E as [-> _]. done.
  - apply bool_decide_eq_true.
  - intros i Hi E. unfold p, planWith. cbn. apply list_elem_of_omap. exists (Excluded i). split; [|done]. apply list_elem_of_fmap. exists i. split; [|done].
    unfold replayFate. by rewrite E.
  - unfold p, planWith. cbn. clear. induction ids as [|i ids IH]; [done|]. cbn. destruct (replayFate byId policy i); cbn; lia.
Qed.

(** ** Reproducibility *)

Record Replayed := { target : ReplayTarget; r_observations : list MarketObservation }.
Definition pinned (r : Replayed) : list MarketObservation := List.filter (fun o => bool_decide (is_Some (blockNumber o))) (r_observations r).
(** The map by metric: the last measurement of a metric, at the place of the first. *)
Definition lastOf (l : list MarketObservation) (m : string) : option MarketObservation := List.find (fun o => streq (metric o) m) (rev l).
Definition metricsOf (l : list MarketObservation) : list string := distinct (map metric l).

Inductive Difference := DBlock | DHash | OnlyFirst (m : string) | OnlySecond (m : string) | DValue (m : string) | DMetricBlock (m : string) | DTrust (m : string).

Definition metricDifferences (la lb : list MarketObservation) (m : string) : list Difference :=
  match lastOf la m, lastOf lb m with
  | Some oa, Some ob =>
      flag (negb (streq (o_value oa) (o_value ob))) (DValue m) ++ flag (negb (bool_decide (blockNumber oa = blockNumber ob))) (DMetricBlock m) ++
      flag (negb (bool_decide (o_trustClass oa = o_trustClass ob))) (DTrust m)
  | Some _, None => [OnlyFirst m]
  | None, _ => []
  end.
Definition differences (a b : Replayed) : list Difference :=
  flag (negb (streq (t_blockNumber (target a)) (t_blockNumber (target b)))) DBlock ++
  flag (negb (streq (blockHash (target a)) (blockHash (target b)))) DHash ++
  flat_map (metricDifferences (pinned a) (pinned b)) (metricsOf (pinned a)) ++
  flat_map (fun m => flag (negb (includes (metricsOf (pinned a)) m)) (OnlySecond m)) (metricsOf (pinned b)).
Definition agree (a b : Replayed) : bool := bool_decide (length (differences a b) = 0%nat).

(** What of a measurement is compared. *)
Definition compared (o : MarketObservation) : string * option string * DataTrustClass := (o_value o, blockNumber o, o_trustClass o).

Lemma lastOf_none l m : lastOf l m = None <-> m ∉ metricsOf l.
Proof.
  unfold lastOf, metricsOf. rewrite find_none_iff, distinct_elem, list_elem_of_fmap. setoid_rewrite list_elem_of_In. setoid_rewrite <- in_rev.
  setoid_rewrite <- list_elem_of_In. setoid_rewrite streq_false. naive_solver.
Qed.

Lemma metricDifferences_nil la lb m : m ∈ metricsOf la ->
  metricDifferences la lb m = [] <-> option_map compared (lastOf la m) = option_map compared (lastOf lb m).
Proof.
  intros Hm. unfold metricDifferences. destruct (lastOf la m) as [oa|] eqn:Ea; [|by apply lastOf_none in Ea].
  destruct (lastOf lb m) as [ob|]; [|done]. rewrite !app_nil, !flag_nil, !negb_false_iff, streq_true, !bool_decide_eq_true. cbn. unfold compared.
  split; [by intros (-> & -> & ->)|by intros [= -> -> ->]].
Qed.

(** Two replays agree exactly when they are of the same block with the same hash and, for every metric, the last pinned measurement
    of the one and of the other say the same value at the same block with the same trust, or neither has one. *)
Theorem replays_agree_iff a b : agree a b = true <->
  t_blockNumber (target a) = t_blockNumber (target b) /\ blockHash (target a) = blockHash (target b) /\
  forall m, option_map compared (lastOf (pinned a) m) = option_map compared (lastOf (pinned b) m).
Proof.
  unfold agree, differences. rewrite bool_decide_eq_true, length_zero_iff_nil, !app_nil, !flag_nil, !negb_false_iff, !streq_true, !flat_map_nil.
  setoid_rewrite flag_nil. setoid_rewrite negb_false_iff. setoid_rewrite includes_true. split; intros (Hb & Hh & H); (split_and!; [done|done|..]).
  - destruct H as [H1 H2]. intros m. destruct (decide (m ∈ metricsOf (pinned a))) as [Hm|Hm]; [by apply metricDifferences_nil, H1|].
    rewrite (proj2 (lastOf_none _ m) Hm). destruct (decide (m ∈ metricsOf (pinned b))) as [Hm'|Hm']; [by destruct Hm; apply H2|].
    by rewrite (proj2 (lastOf_none _ m) Hm').
  - intros m Hm. by apply metricDifferences_nil.
  - intros m Hm. destruct (decide (m ∈ metricsOf (pinned a))) as [Ha|Ha]; [done|]. specialize (H m).
    rewrite (proj2 (lastOf_none _ m) Ha) in H. cbn in H. destruct (lastOf (pinned b) m) eqn:E; [done|]. by apply lastOf_none in E.
Qed.

End Replay.

Module Fork.
Import Network.Roles Reality.Snapshot.

Inductive ForkState := CREATING | VERIFYING_ANCHOR | READY | FS_ANCHOR_MISMATCH | FAILED | DESTROYED.
#[export] Instance ForkState_eq_dec : EqDecision ForkState.
Proof. solve_decision. Defined.
(** The reasons of [FORK_REASONS] that are thrown, the write guard's refusal, a call to the node that fails, and the
    schema's refusal. *)
Inductive ForkReason :=
| NOT_LOCAL | ANCHOR_MISMATCH | NO_EXACT_BLOCK | NOT_READY | FR_DESTROYED | ENVIRONMENT_MISMATCH | KEY_ESCAPED
| IMPERSONATION_OUTSIDE_FORK | LIMIT | GuardRefused (e : NetworkGuardError) | CallFailed | TransactionRefused.

(** ** The endpoint *)

Definition LOCAL_FORK_HOSTS : list string := ["127.0.0.1"; "localhost"; "::1"; "[::1]"; "0.0.0.0"; "anvil"; "reality-fork-worker"].

Record Url := { protocol : string; hostname : string }.

Section endpoint.
(** [new URL(url)], which throws on what is not one. *)
Context (parseUrl : string -> option Url).

Definition assertLocalForkEndpoint (url : string) : result ForkReason Url :=
  match parseUrl url with
  | None => Err NOT_LOCAL
  | Some u =>
      throw NOT_LOCAL when negb (streq (protocol u) "http:") && negb (streq (protocol u) "ws:") ;;
      throw NOT_LOCAL when negb (includes LOCAL_FORK_HOSTS (to_lower (hostname u))) ;;
      Ok u
  end.
End endpoint.

(** ** Descriptors, labels, keys and bindings *)

(** [chainId] is the literal 31337. *)
Record ForkDescriptor := {
  forkId : string; sourceChainId : Z; forkBlock : string; forkBlockHash : string; sourceProviderId : string; anvilVersion : string;
  endpoint : string; createdAtMs : Z; expiresAtMs : Z; state : ForkState
}.
Definition setState (d : ForkDescriptor) (s : ForkState) : ForkDescriptor :=
  {| forkId := forkId d; sourceChainId := sourceChainId d; forkBlock := forkBlock d; forkBlockHash := forkBlockHash d;
     sourceProviderId := sourceProviderId d; anvilVersion := anvilVersion d; endpoint := endpoint d; createdAtMs := createdAtMs d;
     expiresAtMs := expiresAtMs d; state := s |}.

Definition forkNetworkRef (d : ForkDescriptor) : NetworkRef :=
  {| ref_chainId := 31337; ref_role := LOCAL_FORK; forkedFrom := Some (sourceChainId d); Roles.forkBlock := Some (forkBlock d) |}.

Definition LOCAL_FORK_TX_LABEL : string := "LOCAL FORK TRANSACTION".
Definition FORBIDDEN_TX_LABELS : list string := ["MAINNET TRANSACTION"; "MAINNET"; "Ethereum Mainnet"; "CONFIRMED ON MAINNET"; "LIVE TRANSACTION"].

(** [chainId] and [label] are literals of the schema. *)
Record ForkTransaction := {
  tx_hash : string; tx_forkId : string; tx_forkedFrom : Z; tx_forkBlock : string; tx_blockNumber : string; tx_from : string; tx_to : string;
  success : bool; gasUsed : string; impersonated_ : bool
}.

Definition explorerUrlFor (chainId : Z) (hash : string) : option string :=
  if chainId =? 31337 then None
  else if chainId =? 11155111 then Some ("https://sepolia.etherscan.io/tx/" +:+ hash)
  else if chainId =? 84532 then Some ("https://sepolia.basescan.org/tx/" +:+ hash)
  else None.

Definition KEY_FORBIDDEN_STORES : list string :=
  ["user-wallet-store"; "deployment-signer-store"; "testnet-signer-store"; "production-credentials"; "capability-issuer"].
Definition assertDevKeyStoreAllowed (store : string) : result ForkReason unit :=
  throw KEY_ESCAPED when includes KEY_FORBIDDEN_STORES store ;; Ok tt.

Definition assertImpersonationAllowed (r : NetworkRef) : result ForkReason unit :=
  throw IMPERSONATION_OUTSIDE_FORK when negb (bool_decide (ref_role r = LOCAL_FORK)) ;; Ok tt.

Inductive ExecutionEnvironment := ENV_LOCAL_FORK | ENV_TESTNET | ENV_CRE_SIMULATION.
#[export] Instance ExecutionEnvironment_eq_dec : EqDecision ExecutionEnvironment.
Proof. solve_decision. Defined.
Record EnvironmentBinding := {
  executionEnvironment : ExecutionEnvironment; environmentId : string; e_chainId : Z; e_forkedFrom : option Z; e_forkBlock : option string
}.
Definition assertEnvironmentBinding (b current : EnvironmentBinding) : result ForkReason unit :=
  throw ENVIRONMENT_MISMATCH when negb (bool_decide (executionEnvironment b = executionEnvironment current)) ;;
  throw ENVIRONMENT_MISMATCH when negb (streq (environmentId b) (environmentId current)) ;;
  throw ENVIRONMENT_MISMATCH when negb (e_chainId b =? e_chainId current) ;;
  Ok tt.

Definition DEFAULT_MAX_FORKS : Z := 2.
Definition MAX_LIFETIME_MS : Z := 30 * 60000.
Definition assertForkQuota (current limit : Z) : result ForkReason unit := throw LIMIT when limit <=? current ;; Ok tt.

(** ** The provider *)

(** The child is there until it is killed.  [ref] tells the object from another one that is later stored under its id. *)
Record LiveFork := { ref : nat; descriptor : ForkDescriptor; child : bool; actors : list string }.
(** A call of [verifyAnchor] that waits for its answers: its own number; the fork and the object [f] it was begun on; [mutable], the
    descriptor it holds; and the hash it was given. *)
Record Verification := { v_call : nat; v_fork : string; v_ref : nat; v_mutable : ForkDescriptor; v_expected : option string }.
(** The map in insertion order; the verifications begun and not ended, any number of them on one fork; and the next number of an
    object or a call. *)
Record Provider := { forks : list (string * LiveFork); inFlight : list Verification; fresh : nat }.
Definition emptyProvider : Provider := {| forks := []; inFlight := []; fresh := 0 |}.

Definition find (p : Provider) (i : string) : option LiveFork := getKey i (forks p).
Definition update (p : Provider) (i : string) (f : LiveFork -> LiveFork) : Provider :=
  {| forks := map (fun kv => if streq kv.1 i then (kv.1, f kv.2) else kv) (forks p); inFlight := inFlight p; fresh := fresh p |}.
(** [f.descriptor = d] for the object [r]: nothing to see when another object took its place in the map. *)
Definition assign (p : Provider) (i : string) (r : nat) (d : ForkDescriptor) : Provider :=
  update p i (fun f => if (ref f =? r)%nat then {| ref := ref f; descriptor := d; child := child f; actors := actors f |} else f).
Definition mustFind (p : Provider) (i : string) : result ForkReason LiveFork :=
  match find p i with
  | None => Err NOT_READY
  | Some f => throw FR_DESTROYED when bool_decide (state (descriptor f) = DESTROYED) ;; Ok f
  end.
Definition get (p : Provider) (i : string) : option ForkDescriptor := option_map descriptor (find p i).
Definition list_ (p : Provider) : list ForkDescriptor := map (fun kv => descriptor kv.2) (forks p).

Record ForkCreateRequest := { f_sourceChainId : Z; f_forkBlock : string; f_sourceProviderId : string; port : option Z; lifetimeMs : option Z }.

(** What the node and the independent reader answer while an anchor is verified.  A chain id or a block that could not
    be read is [None]; a block that is not there is [Some None]; [a_upstream] is the reader's answer, [None] when it
    throws, where one is configured. *)
Record Answers := { a_chainId : option Z; a_block : option (option (Z * string)); a_version : string; a_upstream : option (option string) }.

Section provider.
Context (parseUrl : string -> option Url) (maxConcurrentForks : option Z).

Definition readyCount (p : Provider) : Z :=
  Z.of_nat (length (List.filter (fun d => bool_decide (state d = READY)) (list_ p))).

Definition endpointOf (p : Provider) (req : ForkCreateRequest) : string :=
  "http://127.0.0.1:" +:+ pretty (default (8545 + Z.of_nat (length (forks p))) (port req)).
Definition newDescriptor (p : Provider) (req : ForkCreateRequest) (newId : string) (now : Z) : ForkDescriptor :=
  {| forkId := newId; sourceChainId := f_sourceChainId req; forkBlock := f_forkBlock req;
     forkBlockHash := "0x0000000000000000000000000000000000000000000000000000000000000000"; sourceProviderId := f_sourceProviderId req;
     anvilVersion := "unknown"; endpoint := endpointOf p req; createdAtMs := now;
     expiresAtMs := now + default MAX_LIFETIME_MS (lifetimeMs req); state := CREATING |}.

(** [newId] is what [newForkId] makes, a random id. *)
Definition create (p : Provider) (req : ForkCreateRequest) (newId : string) (now : Z) : result ForkReason (Provider * ForkDescriptor) :=
  throw NO_EXACT_BLOCK when negb (digitsOk (f_forkBlock req)) ;;
  let* _ := assertForkQuota (readyCount p) (default DEFAULT_MAX_FORKS maxConcurrentForks) in
  let* _ := assertLocalForkEndpoint parseUrl (endpointOf p req) in
  let d := newDescriptor p req newId now in
  Ok ({| forks := mapSet newId {| ref := fresh p; descriptor := d; child := true; actors := [] |} (forks p); inFlight := inFlight p;
         fresh := S (fresh p) |}, d).

Definition destroy (p : Provider) (i : string) : Provider :=
  update p i (fun f => {| ref := ref f; descriptor := setState (descriptor f) DESTROYED; child := false; actors := actors f |}).

(** [verifyAnchor] up to its first [await]; the number of the call is [fresh p]. *)
Definition verifyBegin (p : Provider) (i : string) (expected : option string) : result ForkReason Provider :=
  let* f := mustFind p i in
  let d := setState (descriptor f) VERIFYING_ANCHOR in
  let p' := assign p i (ref f) d in
  Ok {| forks := forks p';
        inFlight := inFlight p ++ [{| v_call := fresh p; v_fork := i; v_ref := ref f; v_mutable := d; v_expected := expected |}];
        fresh := S (fresh p) |}.

(** What the answers say of the anchor of [d]. *)
Definition checkAnchor (d : ForkDescriptor) (expected : option string) (a : Answers) : result ForkReason ForkDescriptor :=
  match a_chainId a, a_block a with
  | Some chain, Some (Some (num, hash)) =>
      throw ANCHOR_MISMATCH when negb (chain =? 31337) ;;
      throw ANCHOR_MISMATCH when negb (num =? blockValue (forkBlock d)) ;;
      let* expected := match expected with
                       | Some e => Ok (Some e)
                       | None => match a_upstream a with None => Err CallFailed | Some e => Ok e end
                       end in
      throw ANCHOR_MISMATCH when match expected with Some e => nonempty e && negb (eq_ci e hash) | None => false end ;;
      Ok {| forkId := forkId d; sourceChainId := sourceChainId d; forkBlock := forkBlock d; forkBlockHash := to_lower hash;
            sourceProviderId := sourceProviderId d; anvilVersion := a_version a; endpoint := endpoint d; createdAtMs := createdAtMs d;
            expiresAtMs := expiresAtMs d; state := READY |}
  | Some _, Some None => Err ANCHOR_MISMATCH
  | _, _ => Err CallFailed
  end.

(** The rest of the call of number [c], whichever other calls are under way: its object is ready, or its object gets the state of the
    failure and what then is stored under the id is destroyed, and the error is thrown on. *)
Definition verifyEnd (p : Provider) (c : nat) (a : Answers) : Provider * result ForkReason ForkDescriptor :=
  match List.find (fun v => (v_call v =? c)%nat) (inFlight p) with
  | None => (p, Err NOT_READY)
  | Some v =>
      let p := {| forks := forks p; inFlight := List.filter (fun v => negb (v_call v =? c)%nat) (inFlight p); fresh := fresh p |} in
      match checkAnchor (v_mutable v) (v_expected v) a with
      | Ok ready => (assign p (v_fork v) (v_ref v) ready, Ok ready)
      | Err e =>
          let failed := setState (v_mutable v) (match e with ANCHOR_MISMATCH => FS_ANCHOR_MISMATCH | _ => FAILED end) in
          (destroy (assign p (v_fork v) (v_ref v) failed) (v_fork v), Err e)
      end
  end.

Definition expired (now : Z) (f : LiveFork) : bool :=
  negb (bool_decide (state (descriptor f) = DESTROYED)) && (expiresAtMs (descriptor f) <? now).
Definition reapExpired (p : Provider) (now : Z) : Provider * list string :=
  let ids := map fst (List.filter (fun kv => expired now kv.2) (forks p)) in (foldl destroy p ids, ids).

(** [ok] is whether the node takes the call. *)
Definition impersonate (p : Provider) (i address : string) (ok : bool) : result ForkReason Provider :=
  let* f := mustFind p i in
  let* _ := assertImpersonationAllowed (forkNetworkRef (descriptor f)) in
  throw CallFailed when negb ok ;;
  Ok (update p i (fun f => {| ref := ref f; descriptor := descriptor f; child := child f; actors := to_lower address :: actors f |})).

Record Tx := { from_ : string; to_ : string; data : string; value_ : option Z; wantsImpersonation : bool }.
(** The receipt: [None] when there is none. *)
Record Receipt := { rc_blockNumber : Z; rc_status : string; rc_gasUsed : Z }.

Definition hexDigit (c : ascii) : bool := lowerHex (ascii_lower c).
Definition addressOk (s : string) : bool := matches (Cat (lit "0x") (rep 40 (Chr hexDigit))) s.

(** Whether a transaction may go to the node: all that is checked before the first call. *)
Definition mayExecute (p : Provider) (i : string) : result ForkReason LiveFork :=
  let* f := mustFind p i in
  throw NOT_READY when negb (bool_decide (state (descriptor f) = READY)) ;;
  let* _ := assertLocalForkEndpoint parseUrl (endpoint (descriptor f)) in
  match assertExecutionAllowed (forkNetworkRef (descriptor f)) LOCAL_WRITE ("fork " +:+ i) with
  | Err e => Err (GuardRefused e)
  | Ok _ => Ok f
  end.

(** [hash] is what the node answers to the transaction, and [receipt] to the question for its receipt. *)
Definition execute (p : Provider) (i : string) (tx : Tx) (hash : option string) (receipt : option Receipt) : result ForkReason ForkTransaction :=
  let* f := mayExecute p i in
  match hash with
  | None => Err CallFailed
  | Some hash =>
      match receipt with
      | None => Err NOT_READY
      | Some r =>
          throw TransactionRefused when negb (hash32Ok (to_lower hash)) || negb (addressOk (from_ tx)) || negb (addressOk (to_ tx)) ||
                                        negb (0 <? sourceChainId (descriptor f)) || (rc_blockNumber r <? 0) || (rc_gasUsed r <? 0) ;;
          Ok {| tx_hash := to_lower hash; tx_forkId := i; tx_forkedFrom := sourceChainId (descriptor f); tx_forkBlock := forkBlock (descriptor f);
                tx_blockNumber := pretty (rc_blockNumber r); tx_from := from_ tx; tx_to := to_ tx; success := streq (rc_status r) "0x1";
                gasUsed := pretty (rc_gasUsed r); impersonated_ := wantsImpersonation tx || includes (actors f) (to_lower (from_ tx)) |}
      end
  end.

(** ** Runs *)

(** The steps of the program between its [await]s, in any order. *)
Inductive op :=
| OCreate (req : ForkCreateRequest) (newId : string) (now : Z) | OVerifyBegin (i : string) (expected : option string)
| OVerifyEnd (c : nat) (a : Answers) | ODestroy (i : string) | OReapNext (i : string) (now : Z) | OReap (now : Z)
| OImpersonate (i address : string) (ok : bool).

(** What throws leaves the provider as it was.  Between two turns of the reaper's loop, which awaits, anything may happen:
    [OReapNext] is one turn of it, and [OReap] a reaping that nothing interrupts. *)
Definition apply (p : Provider) (o : op) : Provider :=
  match o with
  | OCreate req newId now => match create p req newId now with Ok r => r.1 | Err _ => p end
  | OVerifyBegin i expected => match verifyBegin p i expected with Ok p' => p' | Err _ => p end
  | OVerifyEnd c a => (verifyEnd p c a).1
  | ODestroy i => destroy p i
  | OReapNext i now => match find p i with Some f => if expired now f then destroy p i else p | None => p end
  | OReap now => (reapExpired p now).1
  | OImpersonate i address ok => match impersonate p i address ok with Ok p' => p' | Err _ => p end
  end.
Definition run (l : list op) : Provider := foldl apply emptyProvider l.

End provider.

(** ** What a run keeps *)

Lemma find_update p i f k : find (update p i f) k = if streq k i then option_map f (find p k) else find p k.
Proof.
  unfold find, update. cbn [forks]. induction (forks p) as [|[x v] l IH]; cbn [map getKey fst snd]; [by destruct (streq k i)|].
  destruct (streq x i) eqn:Ex; cbn [getKey]; rewrite IH; destruct (streq k x) eqn:Ek; try done.
  - apply streq_true in Ek as ->. by rewrite Ex.
  - apply streq_true in Ek as ->. by rewrite Ex.
Qed.

Lemma update_domain p i f : map fst (forks (update p i f)) = map fst (forks p).
Proof. unfold update. cbn [forks]. rewrite map_map. apply map_ext. intros [x v]. cbn [fst snd]. by destruct (streq x i). Qed.

Lemma mustFind_ok p i f : mustFind p i = Ok f <-> find p i = Some f /\ state (descriptor f) <> DESTROYED.
Proof.
  unfold mustFind. destruct (find p i) as [x|]; [|by split; [|intros [? _]]]. rewrite throw_ok, bool_decide_eq_false.
  split; [by intros [? [= <-]]|by intros [[= <-] ?]].
Qed.

(** The anchor of [d] was seen where it should be. *)
Definition anchored (d : ForkDescriptor) (expected : option string) (a : Answers) : Prop :=
  a_chainId a = Some 31337 /\
  exists hash, a_block a = Some (Some (blockValue (forkBlock d), hash)) /\ forkBlockHash d = to_lower hash /\
    exists e, match expected with Some e' => e = Some e' | None => a_upstream a = Some e end /\
      forall h, e = Some h -> h <> "" -> eq_ci h hash = true.

Lemma checkAnchor_ok d expected a r : checkAnchor d expected a = Ok r ->
  anchored r expected a /\ forkBlock r = forkBlock d /\ endpoint r = endpoint d /\ sourceChainId r = sourceChainId d /\ state r = READY.
Proof.
  unfold checkAnchor, anchored. destruct (a_chainId a) as [c|]; [|done]. destruct (a_block a) as [[[num hash]|]|]; [|done|done].
  rewrite !throw_ok, !negb_false_iff, !Z.eqb_eq. intros (-> & -> & H). apply rbind_ok in H as (e & He & H).
  apply throw_ok in H as [Hh [= <-]]. cbn. split_and!; try done. exists hash. split_and!; [done|done|]. exists e. split.
  - destruct expected as [e'|]; [by injection He as ->|]. destruct (a_upstream a); [by injection He as ->|done].
  - intros h ->  Hne. apply andb_false_iff in Hh as [Hn|Hn]; [|by apply negb_false_iff in Hn].
    unfold nonempty in Hn. by apply negb_false_iff, streq_true in Hn.
Qed.

Section runs.
Context (parseUrl : string -> option Url) (limit : option Z).
Abbreviation run := (run parseUrl limit).
Abbreviation apply := (apply parseUrl limit).

(** A verification of [i] was begun with [expected], and this very call later ended with the answers [a]. *)
Definition verified (l : list op) (i : string) (expected : option string) (a : Answers) : Prop :=
  exists l1 l2 l3, l = l1 ++ OVerifyBegin i expected :: l2 ++ OVerifyEnd (fresh (run l1)) a :: l3 /\
    is_ok (verifyBegin (run l1) i expected) = true.

Definition pinnedLocal (d : ForkDescriptor) : Prop :=
  digitsOk (forkBlock d) = true /\ exists u, assertLocalForkEndpoint parseUrl (endpoint d) = Ok u.

Record sound (l : list op) (p : Provider) : Prop := {
  sound_ready : forall i f, find p i = Some f -> state (descriptor f) = READY ->
    exists e a, verified l i e a /\ anchored (descriptor f) e a;
  sound_flight : forall v, v ∈ inFlight p -> state (v_mutable v) = VERIFYING_ANCHOR /\ pinnedLocal (v_mutable v) /\
    exists l1 l2, l = l1 ++ OVerifyBegin (v_fork v) (v_expected v) :: l2 /\ v_call v = fresh (run l1) /\
      is_ok (verifyBegin (run l1) (v_fork v) (v_expected v)) = true;
  sound_pinned : forall i f, find p i = Some f -> pinnedLocal (descriptor f);
  sound_keys : NoDup (map fst (forks p))
}.

Lemma verified_snoc l i e a o : verified l i e a -> verified (l ++ [o]) i e a.
Proof. intros (l1 & l2 & l3 & -> & Hb). exists l1, l2, (l3 ++ [o]). by rewrite <- !app_assoc, <- app_comm_cons, <- app_assoc. Qed.

Lemma sound_weaken l o p : sound l p -> sound (l ++ [o]) p.
Proof.
  intros [H1 H2 H3 H4]. split; [| |done|done].
  - intros i f Hf Hr. destruct (H1 i f Hf Hr) as (e & a & Hv & Ha). exists e, a. split; [by apply verified_snoc|done].
  - intros v Hin. destruct (H2 v Hin) as (? & ? & l1 & l2 & -> & Hc & Hb). split_and!; [done|done|]. exists l1, (l2 ++ [o]). by rewrite <- app_assoc.
Qed.

(** Changing an entry without making it ready. *)
Lemma sound_update l p i f : sound l p ->
  (forall x, find p i = Some x -> pinnedLocal (descriptor x) ->
     pinnedLocal (descriptor (f x)) /\ (state (descriptor (f x)) = READY -> descriptor (f x) = descriptor x)) -> sound l (update p i f).
Proof.
  intros [H1 H2 H3 H4] Hf. split; [| |intros k x|by rewrite update_domain].
  - intros k x. rewrite find_update. destruct (streq k i) eqn:E; [|apply H1]. apply streq_true in E as ->.
    destruct (find p i) as [y|] eqn:Ey; [|done]. intros [= <-] Hr. destruct (Hf y eq_refl (H3 i y Ey)) as [_ Heq]. specialize (Heq Hr). rewrite Heq in Hr |- *. by apply (H1 i y).
  - exact H2.
  - rewrite find_update. destruct (streq k i) eqn:E; [|apply H3]. apply streq_true in E as ->.
    destruct (find p i) as [y|] eqn:Ey; [|done]. intros [= <-]. by destruct (Hf y eq_refl (H3 i y Ey)).
Qed.

Lemma sound_assign l p i r d : sound l p -> pinnedLocal d -> state d <> READY -> sound l (assign p i r d).
Proof. intros H Hd Hn. apply sound_update; [done|]. intros x _ Hx. by destruct (ref x =? r)%nat. Qed.

Lemma sound_destroy l p i : sound l p -> sound l (destroy p i).
Proof. intros H. apply sound_update; [done|]. intros x _ Hx. by split. Qed.

Lemma sound_create l p req i now r : sound l p -> create parseUrl limit p req i now = Ok r -> sound l r.1.
Proof.
  intros [H1 H2 H3 H4]. unfold create. rewrite throw_ok, negb_false_iff. intros (Hd & H).
  apply rbind_ok in H as (_ & _ & H). apply rbind_ok in H as (u & Hu & [= <-]). cbn [fst]. split.
  - intros k f. unfold find. cbn [forks]. rewrite getKey_mapSet. destruct (streq k i); [by intros [= <-]|apply H1].
  - exact H2.
  - intros k f. unfold find. cbn [forks]. rewrite getKey_mapSet. destruct (streq k i); [|apply H3]. intros [= <-]. split; [done|by exists u].
  - cbn [forks]. clear -H4. induction (forks p) as [|[x v] m IH]; cbn; [apply NoDup_singleton|].
    apply NoDup_cons in H4 as [Hx Hm]. destruct (streq i x) eqn:E; cbn; [by apply NoDup_cons|]. apply NoDup_cons. split; [|by apply IH].
    apply streq_false in E. intros Hin. assert (forall m : list (string * LiveFork), x ∈ map fst (mapSet i {| ref := fresh p; descriptor := newDescriptor p req i now; child := true; actors := [] |} m) -> x = i \/ x ∈ map fst m) as Hk.
    { clear. induction m as [|[y w] m IH]; cbn; [set_solver|]. destruct (streq i y) eqn:E; cbn; set_solver. }
    apply Hk in Hin as [->|?]; [done|]. done.
Qed.

Lemma sound_apply l o : sound l (run l) -> sound (l ++ [o]) (apply (run l) o).
Proof.
  set (p := run l). intros Hs. pose proof (sound_weaken l o p Hs) as Hw. destruct o as [req i now|i e|c a|i|i now|now|i addr ok]; cbn [Fork.apply].
  - destruct (create _ _ _ _ _ _) as [r|] eqn:E; [|done]. by eapply sound_create.
  - destruct (verifyBegin p i e) as [p'|] eqn:Eb; [|done]. pose proof Eb as E. unfold verifyBegin in E. apply rbind_ok in E as (f & Hf & [= <-]).
    apply mustFind_ok in Hf as [Hf Hd]. pose proof (sound_pinned _ _ Hw i f Hf) as Hp.
    destruct (sound_assign _ _ i (ref f) (setState (descriptor f) VERIFYING_ANCHOR) Hw Hp ltac:(done)) as [U1 U2 U3 U4].
    split; [exact U1| |exact U3|exact U4]. cbn [inFlight]. intros v [Hin|Hin%list_elem_of_singleton]%elem_of_app; [by apply (sound_flight _ _ Hw)|].
    subst v. cbn [v_mutable v_fork v_expected v_call]. split_and!; [done|done|]. exists l, []. fold p. by rewrite Eb.
  - unfold verifyEnd. destruct (List.find _ (inFlight p)) as [v|] eqn:E; [|done]. apply find_true in E as [Hin Hc%Nat.eqb_eq]. subst c.
    match goal with |- context [assign ?q _ _ _] => set (p' := q) end.
    assert (Hs' : sound (l ++ [OVerifyEnd (v_call v) a]) p').
    { destruct Hw as [W1 W2 W3 W4]. split; [exact W1| |exact W3|exact W4]. intros u Hu. apply W2. unfold p' in Hu. cbn [inFlight] in Hu.
      rewrite list_elem_of_In, filter_In, <- list_elem_of_In in Hu. by destruct Hu. }
    destruct (sound_flight _ _ Hs v Hin) as (_ & Hp & l1 & l2 & El & Hc & Hb).
    destruct (checkAnchor _ _ a) as [ready|e] eqn:Ec; cbn [fst]; [|by apply sound_destroy, sound_assign; [| |destruct e]].
    apply checkAnchor_ok in Ec as (Ha & Hbl & He & _ & _).
    destruct Hs' as [S1 S2 S3 S4]. split; [|exact S2| |unfold assign; by rewrite update_domain].
    + intros k x. unfold assign. rewrite find_update. destruct (streq k (v_fork v)) eqn:Ek; [|apply S1]. apply streq_true in Ek as ->.
      destruct (find p' (v_fork v)) as [y|] eqn:Ey; [|done]. intros [= <-]. destruct (ref y =? v_ref v)%nat; [|by apply S1]. intros _. cbn [descriptor].
      exists (v_expected v), a. split; [|done]. exists l1, l2, []. split; [|exact Hb]. rewrite <- Hc. by rewrite El at 1; rewrite <- app_assoc.
    + intros k x. unfold assign. rewrite find_update. destruct (streq k (v_fork v)) eqn:Ek; [|apply S3]. apply streq_true in Ek as ->.
      destruct (find p' (v_fork v)) as [y|] eqn:Ey; [|done]. intros [= <-]. destruct (ref y =? v_ref v)%nat; [|by apply (S3 (v_fork v))].
      cbn [descriptor]. unfold pinnedLocal. by rewrite Hbl, He.
  - by apply sound_destroy.
  - destruct (find p i) as [f|]; [|done]. destruct (expired now f); [by apply sound_destroy|done].
  - unfold reapExpired. cbn [fst]. revert Hw. generalize (map fst (List.filter (fun kv => expired now kv.2) (forks p))). intros ids. generalize p.
    induction ids as [|i ids IH]; intros q Hq; [done|]. cbn [foldl]. by apply IH, sound_destroy.
  - destruct (impersonate p i addr ok) as [p'|] eqn:E; [|done]. unfold impersonate in E. apply rbind_ok in E as (f & Hf & E).
    apply rbind_ok in E as (_ & _ & E). apply throw_ok in E as [_ [= <-]]. apply sound_update; [done|]. intros x _ Hx. by split.
Qed.

Lemma run_sound l : sound l (run l).
Proof.
  induction l as [|o l IH] using rev_ind; [split; [done|by intros v ?%elem_of_nil|done|apply NoDup_nil_2]|].
  replace (run (l ++ [o])) with (apply (run l) o) by (unfold Fork.run; by rewrite foldl_app). by apply sound_apply.
Qed.

Lemma mayExecute_ok p i f : mayExecute parseUrl p i = Ok f <->
  find p i = Some f /\ state (descriptor f) = READY /\ exists u, assertLocalForkEndpoint parseUrl (endpoint (descriptor f)) = Ok u.
Proof.
  unfold mayExecute. rewrite rbind_ok. setoid_rewrite mustFind_ok. setoid_rewrite throw_ok. setoid_rewrite negb_false_iff. setoid_rewrite bool_decide_eq_true. split.
  - intros (g & [Hg _] & Hr & H). apply rbind_ok in H as (u & Hu & H). destruct (assertExecutionAllowed _ _ _); [|done]. injection H as <-.
    split_and!; [done|done|by exists u].
  - intros (Hf & Hr & u & Hu). exists f. split_and!; [done|by rewrite Hr|done|]. rewrite Hu. cbn [rbind].
    assert (assertExecutionAllowed (forkNetworkRef (descriptor f)) LOCAL_WRITE ("fork " +:+ i) = assertExecutionAllowed (forkNetworkRef (descriptor f)) LOCAL_WRITE "") as -> by done.
    unfold assertExecutionAllowed, forkNetworkRef. cbn [ref_chainId ref_role]. by vm_compute.
Qed.
End runs.

(** C12: a transaction goes to a fork only where it is safe.  In whatever order forks were made, verifications begun and ended,
    any number of them on one fork and each on its own, and forks destroyed and reaped: a fork is sent a transaction exactly when
    it is there, ready and at a local address; and a ready fork was asked for an exact block, and one call of its verification was
    begun, and ended with answers in which the node said chain 31337 and that very block, with the hash the fork now shows, and
    with the hash that was expected where one was. *)
Theorem executes_only_anchored parseUrl limit ops i f (p := run parseUrl limit ops) :
  (mayExecute parseUrl p i = Ok f <-> find p i = Some f /\ state (descriptor f) = READY) /\
  (mayExecute parseUrl p i = Ok f ->
     digitsOk (forkBlock (descriptor f)) = true /\ (exists u, assertLocalForkEndpoint parseUrl (endpoint (descriptor f)) = Ok u) /\
     exists expected a, verified parseUrl limit ops i expected a /\ anchored (descriptor f) expected a).
Proof.
  pose proof (run_sound parseUrl limit ops) as [Hr _ Hp _]. fold p in Hr, Hp. rewrite mayExecute_ok. split.
  - split; [tauto|]. intros [Hf Hs]. split_and!; [done|done|]. by destruct (Hp i f Hf).
  - intros (Hf & Hs & Hu). destruct (Hp i f Hf) as [Hd _]. split_and!; [done|done|]. by apply Hr.
Qed.

(** A transaction of a fork says so: it carries the fork's id, the chain and the exact block the fork was made from, and an id that
    was impersonated is marked; no explorer has a page for it, nor for any chain but the two test networks; and it was
    let through by the guard of all writes. *)
Theorem fork_transaction_honest parseUrl p i tx hash receipt t : execute parseUrl p i tx hash receipt = Ok t ->
  (exists f, mayExecute parseUrl p i = Ok f /\ tx_forkId t = i /\ tx_forkedFrom t = sourceChainId (descriptor f) /\
     tx_forkBlock t = forkBlock (descriptor f) /\
     (impersonated_ t = true <-> wantsImpersonation tx = true \/ to_lower (from_ tx) ∈ actors f) /\
     exists n, assertExecutionAllowed (forkNetworkRef (descriptor f)) LOCAL_WRITE ("fork " +:+ i) = Ok n /\ Roles.chainId n = 31337) /\
  explorerUrlFor 31337 (tx_hash t) = None /\
  (forall chain h, explorerUrlFor chain h <> None -> chain = 11155111 \/ chain = 84532) /\
  includes FORBIDDEN_TX_LABELS LOCAL_FORK_TX_LABEL = false.
Proof.
  unfold execute. rewrite rbind_ok. intros (f & Hf & H). destruct hash as [h|]; [|done]. destruct receipt as [r|]; [|done].
  apply throw_ok in H as [_ [= <-]]. split_and!; [|done| |done].
  - exists f. cbn. split_and!; try done; [by rewrite orb_true_iff, includes_true|]. unfold mayExecute in Hf.
    apply rbind_ok in Hf as (g & _ & Hf). apply throw_ok in Hf as [_ Hf]. apply rbind_ok in Hf as (_ & _ & Hf).
    destruct (assertExecutionAllowed _ _ _) as [n|] eqn:E; [|done]. injection Hf as <-. exists n. split; [done|].
    apply assertExecutionAllowed_ok in E as (_ & E & _). done.
  - intros chain h'. unfold explorerUrlFor. repeat case_match; try done; intros _; [left|right]; by apply Z.eqb_eq.
Qed.

(** A fork that is gone, with no verification of it under way. *)
Definition gone (p : Provider) (i : string) : Prop :=
  (forall v, v ∈ inFlight p -> v_fork v <> i) /\ exists f, find p i = Some f /\ state (descriptor f) = DESTROYED.

Lemma gone_update p k i f : gone p i -> (k = i -> forall x, state (descriptor x) = DESTROYED -> state (descriptor (f x)) = DESTROYED) -> gone (update p k f) i.
Proof.
  intros (Hn & x & Hx & Hd) Hf. split; [done|]. rewrite find_update. destruct (streq i k) eqn:E; [|by exists x].
  apply streq_true in E as ->. exists (f x). rewrite Hx. split; [done|]. by apply Hf.
Qed.
Lemma gone_destroy p k i : gone p i -> gone (destroy p k) i.
Proof. intros H. by apply gone_update. Qed.
Lemma gone_assign p k i r d : gone p i -> k <> i -> gone (assign p k r d) i.
Proof. intros H Hk. by apply gone_update. Qed.

Lemma gone_apply parseUrl limit p i o : gone p i -> (forall req now, o <> OCreate req i now) -> gone (apply parseUrl limit p o) i.
Proof.
  intros Hg Ho. pose proof Hg as (Hn & x & Hx & Hd). destruct o as [req k now|k e|c a|k|k now|now|k addr ok]; cbn [apply].
  - destruct (create _ _ _ _ _ _) as [r|] eqn:E; [|done]. unfold create in E. apply throw_ok in E as [_ E].
    apply rbind_ok in E as (_ & _ & E). apply rbind_ok in E as (_ & _ & [= <-]). split; [done|]. exists x. split; [|done].
    unfold find. cbn [fst forks]. rewrite getKey_mapSet. destruct (streq i k) eqn:Ek; [|done]. apply streq_true in Ek as ->. by destruct (Ho req now).
  - destruct (verifyBegin p k e) as [p'|] eqn:E; [|done]. unfold verifyBegin in E. apply rbind_ok in E as (f & Hf & [= <-]).
    apply mustFind_ok in Hf as [Hf Hfd]. assert (k <> i) as Hne by congruence.
    destruct (gone_assign p k i (ref f) (setState (descriptor f) VERIFYING_ANCHOR) Hg Hne) as [_ Hg']. split; [|exact Hg'].
    cbn [inFlight]. intros v [Hin|Hin%list_elem_of_singleton]%elem_of_app; [by apply Hn|by subst v].
  - unfold verifyEnd. destruct (List.find _ (inFlight p)) as [v|] eqn:E; [|done]. apply find_true in E as [Hin _].
    match goal with |- context [assign ?q _ _ _] => set (p' := q) end.
    assert (Hg' : gone p' i).
    { split; [|by exists x]. intros u Hu. apply Hn. unfold p' in Hu. cbn [inFlight] in Hu.
      rewrite list_elem_of_In, filter_In, <- list_elem_of_In in Hu. by destruct Hu. }
    destruct (checkAnchor _ _ a); cbn [fst]; [|apply gone_destroy]; apply gone_assign; auto.
  - by apply gone_destroy.
  - destruct (find p k) as [f|]; [|done]. destruct (expired now f); [by apply gone_destroy|done].
  - unfold reapExpired. cbn [fst]. revert Hg. generalize (map fst (List.filter (fun kv => expired now kv.2) (forks p))). intros ids. clear. revert p.
    induction ids as [|k ids IH]; intros p Hg; [done|]. cbn [foldl]. by apply IH, gone_destroy.
  - destruct (impersonate p k addr ok) as [p'|] eqn:E; [|done]. unfold impersonate in E. apply rbind_ok in E as (f & Hf & E).
    apply rbind_ok in E as (_ & _ & E). apply throw_ok in E as [_ [= <-]]. by apply gone_update.
Qed.

(** Destruction is final: a fork destroyed with no verification under way stays destroyed through everything that is done to the
    provider but making a fork of the same id, and is refused every transaction. *)
Theorem destroyed_is_final parseUrl limit p i ops : gone p i -> (forall req now, OCreate req i now ∉ ops) ->
  gone (foldl (apply parseUrl limit) p ops) i /\ mayExecute parseUrl (foldl (apply parseUrl limit) p ops) i = Err FR_DESTROYED.
Proof.
  intros Hg Ho. assert (gone (foldl (apply parseUrl limit) p ops) i) as H.
  { revert p Hg Ho. induction ops as [|o ops IH]; intros p Hg Ho; [done|]. cbn [foldl]. apply IH; [|set_solver].
    apply gone_apply; [done|]. intros req now ->. apply (Ho req now). left. }
  split; [done|]. destruct H as (_ & f & Hf & Hd). unfold mayExecute, mustFind. rewrite Hf. by rewrite bool_decide_eq_true_2.
Qed.

Lemma destroy_all ids p i f : find p i = Some f ->
  get (foldl destroy p ids) i = Some (if includes ids i then setState (descriptor f) DESTROYED else descriptor f).
Proof.
  revert p f. induction ids as [|k ids IH]; intros p f Hf; cbn [foldl]; [unfold get; by rewrite Hf|].
  assert (Hk : find (destroy p k) i = Some (if streq i k then {| ref := ref f; descriptor := setState (descriptor f) DESTROYED; child := false; actors := actors f |} else f))
    by (unfold destroy; rewrite find_update, Hf; by destruct (streq i k)).
  rewrite (IH _ _ Hk). unfold includes. destruct (streq i k) eqn:E.
  - apply streq_true in E as ->. rewrite (bool_decide_eq_true_2 (k ∈ k :: ids)) by left. cbn [descriptor]. by case_bool_decide.
  - apply streq_false in E. rewrite (bool_decide_ext (i ∈ k :: ids) (i ∈ ids)); [done|]. rewrite elem_of_cons. tauto.
Qed.

(** The reaper destroys exactly the forks that are past their lifetime, and tells of them; no other fork changes. *)
Theorem reap_spec parseUrl limit ops now i f (p := run parseUrl limit ops) : find p i = Some f ->
  get (reapExpired p now).1 i = Some (if expired now f then setState (descriptor f) DESTROYED else descriptor f) /\
  (i ∈ (reapExpired p now).2 <-> state (descriptor f) <> DESTROYED /\ expiresAtMs (descriptor f) < now).
Proof.
  intros Hf. pose proof (sound_keys _ _ _ _ (run_sound parseUrl limit ops)) as Hk. fold p in Hk.
  assert (Hi : i ∈ map fst (List.filter (fun kv => expired now kv.2) (forks p)) <-> expired now f = true).
  { apply getKey_elem in Hf. rewrite list_elem_of_fmap. setoid_rewrite list_elem_of_In. setoid_rewrite filter_In. setoid_rewrite <- list_elem_of_In. split.
    - intros ([k g] & -> & Hg & He). cbn in *. by assert ((k, g) = (k, f)) as [= <-] by by apply (NoDup_map_inj fst (forks p)).
    - intros He. by exists (i, f). }
  unfold reapExpired. cbn [fst snd]. rewrite (destroy_all _ _ _ _ Hf). split.
  - unfold includes. rewrite (bool_decide_ext _ _ Hi). by destruct (expired now f).
  - rewrite Hi. unfold expired. by rewrite andb_true_iff, negb_true_iff, bool_decide_eq_false, Z.ltb_lt.
Qed.

End Fork.

Module Agent.
Import Network.Roles Network.Fences Reality.Snapshot Fork.

Inductive SemanticActionKind := SUPPLY | WITHDRAW | BORROW | REPAY | SWAP | TRANSFER | APPROVE | NONE.
Record SemanticAction := {
  kind : SemanticActionKind; assetId : string; counterAssetId : option string; amount : string; decimals : Z; protocol : string; rationale : string
}.
Definition actionOk (a : SemanticAction) : bool :=
  nonempty (assetId a) && digitsOk (amount a) && (0 <=? decimals a) && (decimals a <=? 36) && nonempty (protocol a) && nonempty (rationale a).

Inductive ShadowVerdict := ALLOW | ESCALATE | DENY | V_NO_VALID_CONTEXT.
#[export] Instance ShadowVerdict_eq_dec : EqDecision ShadowVerdict.
Proof. solve_decision. Defined.

(** The reasons of [SHADOW_REASONS], the errors of what is called, the schema's refusal, and an executor that throws. *)
Inductive ShadowError :=
| CANNOT_EXECUTE_MAINNET | CALLDATA_REWRITE | NOT_RECOMPILED | NO_TARGET | NO_PUBLIC_MAINNET_PATH | ShadowGuard (e : NetworkGuardError)
| ShadowAsset (e : Assets.AssetReason) | ShadowSchema | ExecutorFailed.

Definition lift {E A : Type} (f : E -> ShadowError) (m : result E A) : result ShadowError A := match m with Ok a => Ok a | Err e => Err (f e) end.

(** ** The target *)

Inductive ShadowTarget := T_LOCAL_FORK | T_TESTNET.
#[export] Instance ShadowTarget_eq_dec : EqDecision ShadowTarget.
Proof. solve_decision. Defined.

Definition shadowExecutionRef (t : ShadowTarget) (fork : option ForkDescriptor) (testnetChainId : option Z) : result ShadowError NetworkRef :=
  match t with
  | T_LOCAL_FORK => match fork with None => Err NO_TARGET | Some f => Ok (forkNetworkRef f) end
  | T_TESTNET =>
      let cid := default 11155111 testnetChainId in
      match lookupNetwork cid with
      | Some net =>
          throw NO_TARGET when negb (bool_decide (role net = TESTNET_EXECUTION)) ;;
          Ok {| ref_chainId := cid; ref_role := TESTNET_EXECUTION; forkedFrom := None; Roles.forkBlock := None |}
      | None => Err NO_TARGET
      end
  end.

Definition assertShadowTargetAllowed (r : NetworkRef) (context : string) : result ShadowError unit :=
  throw CANNOT_EXECUTE_MAINNET when isProductionChain (ref_chainId r) && negb (bool_decide (ref_role r = LOCAL_FORK)) ;;
  let* _ := lift ShadowGuard (assertExecutionAllowed r (if bool_decide (ref_role r = LOCAL_FORK) then LOCAL_WRITE else PUBLIC_WRITE) context) in
  Ok tt.

(** ** Recompilation *)

Record CompiledIntent := {
  network : NetworkRef; c_protocol : string; assetAddress : string; counterAssetAddress : option string; c_amount : string; c_decimals : Z;
  c_kind : SemanticActionKind; compiledFor : Z; environmentBinding : EnvironmentBinding
}.

Definition assertNoChainIdRewrite (intentChainId targetChainId : Z) : result ShadowError unit :=
  if intentChainId =? targetChainId then Ok tt else Err CALLDATA_REWRITE.

(** The chain whose addresses are right. *)
Definition addressChain (r : NetworkRef) : Z :=
  if bool_decide (ref_role r = LOCAL_FORK) then default (ref_chainId r) (forkedFrom r) else ref_chainId r.
Definition bindingFor (r : NetworkRef) (fork : option ForkDescriptor) : EnvironmentBinding :=
  if bool_decide (ref_role r = LOCAL_FORK)
  then {| executionEnvironment := ENV_LOCAL_FORK; environmentId := match fork with Some f => forkId f | None => "unknown-fork" end;
          e_chainId := ref_chainId r; e_forkedFrom := forkedFrom r; e_forkBlock := Roles.forkBlock r |}
  else {| executionEnvironment := ENV_TESTNET; environmentId := "testnet-" +:+ pretty (ref_chainId r); e_chainId := ref_chainId r;
          e_forkedFrom := None; e_forkBlock := None |}.

Section compile.
Context (protocolAddressFor : string -> Z -> option string).

(** [compiledFrom] names the chain; here it is the chain. *)
Definition compileForNetwork (a : SemanticAction) (r : NetworkRef) (fork : option ForkDescriptor) : result ShadowError CompiledIntent :=
  let* _ := assertShadowTargetAllowed r "compile" in
  let chain := addressChain r in
  let* asset := lift ShadowAsset (Assets.mapAssetToChain (assetId a) chain) in
  let* counter := match counterAssetId a with
                  | None => Ok None
                  | Some c => if streq c "" then Ok None else let* d := lift ShadowAsset (Assets.mapAssetToChain c chain) in Ok (Some d)
                  end in
  throw NOT_RECOMPILED when match protocolAddressFor (protocol a) chain with Some p => streq p "" | None => true end ;;
  let* _ := if bool_decide (ref_role r = TESTNET_EXECUTION)
            then let* _ := lift ShadowAsset (Assets.assertAddressBelongsToChain (Assets.address asset) (ref_chainId r)) in
                 match counter with
                 | Some c => lift ShadowAsset (Assets.assertAddressBelongsToChain (Assets.address c) (ref_chainId r))
                 | None => Ok tt
                 end
            else Ok tt in
  Ok {| network := r; c_protocol := protocol a; assetAddress := Assets.address asset; counterAssetAddress := option_map Assets.address counter;
        c_amount := amount a; c_decimals := Assets.decimals asset; c_kind := kind a; compiledFor := chain; environmentBinding := bindingFor r fork |}.
End compile.

Definition submitToPublicMainnet {I : Type} (_ : I) : result ShadowError unit := Err NO_PUBLIC_MAINNET_PATH.

(** ** The agent *)

Inductive Where := AT_LOCAL_FORK | AT_TESTNET | AT_NONE.
#[export] Instance Where_eq_dec : EqDecision Where.
Proof. solve_decision. Defined.
(** Without [creSimulationId] and the texts; the execution is the hash of a transaction, where there was one. *)
Record ShadowDecision := {
  decisionId : string; marketSnapshotHash : string; scenarioHash : option string; strategyRevision : Z; blueprintRevision : Z;
  verdict : ShadowVerdict; reasonCode : string; proposed : SemanticAction; environment : Where; d_environmentId : option string;
  executionChainId : option Z; txHash : option string; decidedAtMs : Z
}.
Definition executed (d : ShadowDecision) : bool := bool_decide (is_Some (txHash d)).

Record ShadowRunInput := {
  i_decisionId : string; snapshot : MarketSnapshot; i_scenarioHash : option string; i_strategyRevision : Z; i_blueprintRevision : Z;
  maxContextAgeMs : Z; nowMs : Z; target : ShadowTarget; fork : option ForkDescriptor; testnetChainId : option Z
}.

Definition shaOk (s : string) : bool := matches (Cat (lit "sha256:") (rep 64 (Chr lowerHex))) s.
Definition decisionOk (d : ShadowDecision) : bool :=
  nonempty (decisionId d) && shaOk (marketSnapshotHash d) && optAll shaOk (scenarioHash d) && (0 <=? strategyRevision d) &&
  (0 <=? blueprintRevision d) && nonempty (reasonCode d) && actionOk (proposed d) && optAll (fun n => 0 <? n) (executionChainId d) && (0 <? decidedAtMs d).
Definition parseDecision (d : ShadowDecision) : result ShadowError ShadowDecision := throw ShadowSchema when negb (decisionOk d) ;; Ok d.

Definition NO_ACTION (why : string) : SemanticAction :=
  {| kind := NONE; assetId := "none"; counterAssetId := None; amount := "0"; decimals := 0; protocol := "none"; rationale := why |}.

Section agent.
(** The policy, the registry of protocols, and what performs a write: [None] where none is supplied, and a write that
    fails answers [None]. *)
Context (evaluate : MarketSnapshot -> ShadowVerdict * string * SemanticAction) (protocolAddressFor : string -> Z -> option string)
  (executeOnTarget : option (CompiledIntent -> option string)).

Definition decisionFor (i : ShadowRunInput) (v : ShadowVerdict) (reason : string) (a : SemanticAction) (w : Where) (env : option string)
    (chain : option Z) (tx : option string) : ShadowDecision :=
  {| decisionId := i_decisionId i; marketSnapshotHash := snapshotHash (snapshot i); scenarioHash := i_scenarioHash i;
     strategyRevision := i_strategyRevision i; blueprintRevision := i_blueprintRevision i; verdict := v; reasonCode := reason; proposed := a;
     environment := w; d_environmentId := env; executionChainId := chain; txHash := tx; decidedAtMs := nowMs i |}.

(** Everything between a verdict and a write. *)
Definition prepare (i : ShadowRunInput) (a : SemanticAction) : result ShadowError CompiledIntent :=
  let* r := shadowExecutionRef (target i) (fork i) (testnetChainId i) in
  let* _ := assertShadowTargetAllowed r ("shadow decision " +:+ i_decisionId i) in
  let* _ := lift ShadowGuard (fenceWriteByChain (if bool_decide (ref_role r = LOCAL_FORK) then AGENT_RUNTIME else RELAYER) (ref_chainId r) (forkedFrom r) (Roles.forkBlock r)) in
  compileForNetwork protocolAddressFor a r (fork i).

(** The intents that were sent, and the outcome. *)
Definition runShadowDecision (i : ShadowRunInput) : list CompiledIntent * result ShadowError ShadowDecision :=
  match assertSnapshotUsable (snapshot i) (nowMs i) (maxContextAgeMs i) with
  | Err _ => ([], parseDecision (decisionFor i V_NO_VALID_CONTEXT "NO_VALID_CONTEXT" (NO_ACTION "NO_VALID_CONTEXT") AT_NONE None None None))
  | Ok _ =>
      let '(v, reason, a) := evaluate (snapshot i) in
      if negb (actionOk a) then ([], Err ShadowSchema)
      else if negb (bool_decide (v = ALLOW)) then ([], parseDecision (decisionFor i v reason a AT_NONE None None None))
      else
        match prepare i a with
        | Err e => ([], Err e)
        | Ok intent =>
            let decision tx :=
              parseDecision (decisionFor i ALLOW reason a
                (if bool_decide (executionEnvironment (environmentBinding intent) = ENV_LOCAL_FORK) then AT_LOCAL_FORK else AT_TESTNET)
                (Some (environmentId (environmentBinding intent))) (Some (ref_chainId (network intent))) tx) in
            match executeOnTarget with
            | None => ([], decision None)
            | Some exec => ([intent], match exec intent with None => Err ExecutorFailed | Some h => decision (Some h) end)
            end
        end
  end.
End agent.

(** ** What is sent *)

Lemma shadow_lift_ok {E A : Type} (f : E -> ShadowError) (m : result E A) a : lift f m = Ok a <-> m = Ok a.
Proof. destruct m; cbn; naive_solver. Qed.

(** A place a shadow agent may write to. *)
Definition target_ (r : NetworkRef) (f : option ForkDescriptor) : Prop :=
  (ref_role r = LOCAL_FORK /\ ref_chainId r = 31337 /\ exists d, f = Some d /\ r = forkNetworkRef d) \/
  (ref_role r = TESTNET_EXECUTION /\ (ref_chainId r = 11155111 \/ ref_chainId r = 84532)).

Lemma shadowExecutionRef_ok t f c r : shadowExecutionRef t f c = Ok r ->
  target_ r f /\ (t = T_LOCAL_FORK <-> ref_role r = LOCAL_FORK).
Proof.
  destruct t; cbn [shadowExecutionRef].
  - destruct f as [d|]; [|done]. intros [= <-]. split; [|done]. left. split_and!; [done|done|by exists d].
  - destruct (lookupNetwork _) as [n|] eqn:E; [|done]. intros [H [= <-]]%throw_ok. apply negb_false_iff, bool_decide_eq_true in H.
    apply BY_CHAIN_ID_lookup in E as [Hin <-]. split; [|done]. right. split; [done|]. by apply public_write_chains.
Qed.

(** What an intent made for [r] from [a] is. *)
Definition compiled (protocolAddressFor : string -> Z -> option string) (a : SemanticAction) (r : NetworkRef) (f : option ForkDescriptor) (t : CompiledIntent) : Prop :=
  network t = r /\ compiledFor t = addressChain r /\ environmentBinding t = bindingFor r f /\ c_kind t = kind a /\ c_amount t = amount a /\
  (exists d, Assets.mapAssetToChain (assetId a) (addressChain r) = Ok d /\ assetAddress t = Assets.address d /\ c_decimals t = Assets.decimals d) /\
  (forall x, counterAssetAddress t = Some x -> exists c d, counterAssetId a = Some c /\ Assets.mapAssetToChain c (addressChain r) = Ok d /\ x = Assets.address d) /\
  (exists p, protocolAddressFor (protocol a) (addressChain r) = Some p /\ p <> "") /\
  (ref_role r = TESTNET_EXECUTION ->
     Assets.assertAddressBelongsToChain (assetAddress t) (ref_chainId r) = Ok tt /\
     forall x, counterAssetAddress t = Some x -> Assets.assertAddressBelongsToChain x (ref_chainId r) = Ok tt).

Lemma compileForNetwork_ok pa a r f t : compileForNetwork pa a r f = Ok t ->
  assertShadowTargetAllowed r "compile" = Ok tt /\ compiled pa a r f t.
Proof.
  unfold compileForNetwork. rewrite !rbind_ok. intros ([] & Hr & H). split; [done|]. apply rbind_ok in H as (d & Hd & H). rewrite shadow_lift_ok in Hd.
  apply rbind_ok in H as (co & Hco & H). apply throw_ok in H as [Hp H]. apply rbind_ok in H as (u & Hu & [= <-]).
  unfold compiled. cbn. split_and!; try done.
  - by exists d.
  - destruct (counterAssetId a) as [c|]; [|by injection Hco as <-]. destruct (streq c ""); [by injection Hco as <-|].
    apply rbind_ok in Hco as (d' & Hd' & [= <-]). rewrite shadow_lift_ok in Hd'. intros x [= <-]. by exists c, d'.
  - destruct (pa _ _) as [p|]; [|done]. exists p. split; [done|]. by apply streq_false.
  - intros Hrole. rewrite bool_decide_eq_true_2 in Hu by done. apply rbind_ok in Hu as ([] & Hu1 & Hu2). rewrite shadow_lift_ok in Hu1. split; [done|].
    intros x Hx. destruct co as [c'|]; [|done]. injection Hx as <-. rewrite shadow_lift_ok in Hu2. by destruct u.
Qed.

Lemma prepare_ok pa i a t : prepare pa i a = Ok t ->
  exists r, target_ r (fork i) /\ (target i = T_LOCAL_FORK <-> ref_role r = LOCAL_FORK) /\ compiled pa a r (fork i) t.
Proof.
  unfold prepare. rewrite rbind_ok. intros (r & Hr & H). apply rbind_ok in H as (_ & _ & H). apply rbind_ok in H as (_ & _ & H).
  apply shadowExecutionRef_ok in Hr as [? ?]. apply compileForNetwork_ok in H as [_ H]. by exists r.
Qed.

(** C11: the shadow agent never trades on what it watches.  It sends at most one intent, and only on a picture of the market that is
    usable now and a verdict ALLOW of the policy on that very picture.  The intent is for the kind of place that was asked for:
    the fork that was given, bound to its id, or Sepolia or Base Sepolia; never a production chain.  Its addresses are those the
    registry has on the chain they are read on, and on a test network they are of that network.  What the decision then says
    is what happened: the hash of that picture, the place of that intent, and nothing executed where nothing was sent. *)
Theorem shadow_never_trades evaluate pa exec i (out := runShadowDecision evaluate pa exec i) :
  (length (fst out) <= 1)%nat /\
  (forall t, t ∈ fst out ->
     assertSnapshotUsable (snapshot i) (nowMs i) (maxContextAgeMs i) = Ok tt /\
     exists reason a, evaluate (snapshot i) = (ALLOW, reason, a) /\ actionOk a = true /\
       compiled pa a (network t) (fork i) t /\ target_ (network t) (fork i) /\ isProductionChain (ref_chainId (network t)) = false /\
       (target i = T_LOCAL_FORK <-> ref_role (network t) = LOCAL_FORK)) /\
  (forall d, snd out = Ok d ->
     marketSnapshotHash d = snapshotHash (snapshot i) /\ decidedAtMs d = nowMs i /\
     (verdict d <> ALLOW -> fst out = [] /\ environment d = AT_NONE /\ executed d = false) /\
     (executed d = true <-> fst out <> []) /\
     (forall t, t ∈ fst out -> executionChainId d = Some (ref_chainId (network t)) /\
        d_environmentId d = Some (environmentId (environmentBinding t)) /\
        (environment d = AT_LOCAL_FORK <-> ref_role (network t) = LOCAL_FORK))).
Proof.
  unfold out, runShadowDecision. destruct (assertSnapshotUsable _ _ _) as [[]|e] eqn:Es.
  2: { cbn [fst snd]. split_and!; [cbn; lia|intros t Ht; inversion Ht|]. intros d [_ [= <-]]%throw_ok. split_and!; try done. intros t Ht; inversion Ht. }
  destruct (evaluate (snapshot i)) as [[v reason] a] eqn:Ee. destruct (actionOk a) eqn:Ea; cbn [negb].
  2: { cbn [fst snd]. split_and!; [cbn; lia|intros t Ht; inversion Ht|done]. }
  case_bool_decide as Hv; cbn [negb].
  2: { cbn [fst snd]. split_and!; [cbn; lia|intros t Ht; inversion Ht|]. intros d [_ [= <-]]%throw_ok. split_and!; try done. intros t Ht; inversion Ht. }
  subst v. destruct (prepare pa i a) as [t|e] eqn:Ep.
  2: { cbn [fst snd]. split_and!; [cbn; lia|intros t Ht; inversion Ht|done]. }
  apply prepare_ok in Ep as (r & Htarget & Hkind & Hc). pose proof Hc as (Hn & _ & Hb & _). subst r.
  assert (Hprod : isProductionChain (ref_chainId (network t)) = false).
  { destruct Htarget as [(_ & -> & _)|[_ [-> | ->]]]; done. }
  assert (Hwhere : (if bool_decide (executionEnvironment (environmentBinding t) = ENV_LOCAL_FORK) then AT_LOCAL_FORK else AT_TESTNET) = AT_LOCAL_FORK <->
    ref_role (network t) = LOCAL_FORK).
  { rewrite Hb. unfold bindingFor. destruct (decide (ref_role (network t) = LOCAL_FORK)) as [E|E];
      [rewrite (bool_decide_eq_true_2 _ E)|rewrite (bool_decide_eq_false_2 _ E)]; cbn [executionEnvironment]; done. }
  destruct exec as [ex|]; cbn [fst snd].
  - split_and!; [cbn; lia| |].
    + intros t' ->%list_elem_of_singleton. split; [done|]. by exists reason, a.
    + destruct (ex t) as [h|]; [|done]. intros d [_ [= <-]]%throw_ok. split_and!; try done. by intros t' ->%list_elem_of_singleton.
  - split_and!; [cbn; lia|intros t' Ht; inversion Ht|]. intros d [_ [= <-]]%throw_ok. split_and!; try done. intros t' Ht; inversion Ht.
Qed.

(** An intent does not cross a network.  One that was compiled for a chain passes the check of a retargeting only to that chain;
    and an authorization is taken only in the kind of environment, the one environment and the chain it was issued for, so
    no two forks share one, and none is good both on a fork and on a test network. *)
Theorem no_crossing intentChain targetChain b current :
  (assertNoChainIdRewrite intentChain targetChain = Ok tt <-> intentChain = targetChain) /\
  (assertEnvironmentBinding b current = Ok tt <->
     executionEnvironment b = executionEnvironment current /\ environmentId b = environmentId current /\ e_chainId b = e_chainId current) /\
  (forall d d', assertEnvironmentBinding (bindingFor (forkNetworkRef d) (Some d)) (bindingFor (forkNetworkRef d') (Some d')) = Ok tt <-> forkId d = forkId d') /\
  (forall r r' f, ref_role r = LOCAL_FORK -> ref_role r' = TESTNET_EXECUTION ->
     assertEnvironmentBinding (bindingFor r f) (bindingFor r' f) = Err ENVIRONMENT_MISMATCH /\
     assertEnvironmentBinding (bindingFor r' f) (bindingFor r f) = Err ENVIRONMENT_MISMATCH).
Proof.
  assert (Hb : forall x y, assertEnvironmentBinding x y = Ok tt <->
    executionEnvironment x = executionEnvironment y /\ environmentId x = environmentId y /\ e_chainId x = e_chainId y).
  { intros x y. unfold assertEnvironmentBinding. rewrite !throw_ok, !negb_false_iff, bool_decide_eq_true, streq_true, Z.eqb_eq. tauto. }
  split_and!.
  - unfold assertNoChainIdRewrite. destruct (Z.eqb_spec intentChain targetChain); naive_solver.
  - apply Hb.
  - intros d d'. rewrite Hb. cbn. naive_solver.
  - intros r r' f Hr Hr'. unfold bindingFor. rewrite Hr, Hr'. done.
Qed.

End Agent.

Module Audit.
Import Reality.Snapshot.

Definition AUDIT_QUESTIONS : list string :=
  ["What real-world state was seen?"; "From where?"; "At what block or time?"; "How fresh was it?"; "What trust did each source have?";
   "What modifications were synthetic?"; "Where was execution actually performed?"].

Definition ZERO_HASH : string := "0x0000000000000000000000000000000000000000000000000000000000000000".

(** Whether each question is answered.  A trust class is never the empty text, and a decision always has an
    environment. *)
Definition answered (s : MarketSnapshot) (d : option Agent.ShadowDecision) : list bool :=
  let b := body s in
  [bool_decide (observations b <> []);
   bool_decide (sources b <> []) && bool_decide (provenance b <> []);
   digitsOk (anchorBlock b) && negb (streq (anchorBlockHash b) ZERO_HASH);
   true;
   bool_decide (observations b <> []);
   true;
   bool_decide (is_Some d)].
Definition unanswered (s : MarketSnapshot) (d : option Agent.ShadowDecision) : list string :=
  map snd (List.filter (fun p => negb p.1) (combine (answered s d) AUDIT_QUESTIONS)).
Definition auditable (s : MarketSnapshot) (d : option Agent.ShadowDecision) : bool := bool_decide (length (unanswered s d) = 0%nat).
Definition assertAuditable (s : MarketSnapshot) (d : option Agent.ShadowDecision) : result (list string) unit :=
  throw unanswered s d when negb (auditable s d) ;; Ok tt.

(** Of a sealed picture the gate asks three things only, the rest its schema has settled: that something was measured, that the
    anchor is not the hash of no block, and that there is a decision.  A refusal names a question that is not answered. *)
Theorem auditable_iff lc sha i s d : sealSnapshot lc sha i = Ok s ->
  (assertAuditable s d = Ok tt <-> i_observations i <> [] /\ i_anchorBlockHash i <> ZERO_HASH /\ is_Some d) /\
  (forall l, assertAuditable s d = Err l -> l <> [] /\ l ⊆ AUDIT_QUESTIONS).
Proof.
  intros [Hok ->]%sealSnapshot_ok. unfold bodyOk in Hok. rewrite !andb_true_iff in Hok.
  destruct Hok as [[[[[[[[[[_ _] _] Hd] _] _] Hs] _] _] _] Hp]. rewrite bool_decide_eq_true in Hs, Hp. split.
  - unfold assertAuditable, auditable. rewrite throw_ok, negb_false_iff, bool_decide_eq_true. unfold unanswered, answered. cbn [body].
    rewrite (bool_decide_eq_true_2 _ Hs), (bool_decide_eq_true_2 _ Hp), Hd. cbn [bodyOf observations anchorBlockHash]. cbn [andb combine AUDIT_QUESTIONS List.filter negb fst snd map length].
    destruct (bool_decide_reflect (i_observations i <> [])) as [Ho|Ho], (streq (i_anchorBlockHash i) ZERO_HASH) eqn:Eh,
      (bool_decide_reflect (is_Some d)) as [Hsd|Hsd]; cbn; (first [apply streq_true in Eh|apply streq_false in Eh]); split; try (by intros [? _]); try tauto; try done.
  - intros l. unfold assertAuditable. rewrite throw_err. intros [[H <-]|[_ H]]; [|done]. apply negb_true_iff, bool_decide_eq_false in H.
    split; [intros E; by rewrite E in H|]. unfold unanswered. intros x. rewrite list_elem_of_fmap. intros ([b y] & -> & Hy). apply list_elem_of_In, filter_In in Hy as [Hy _].
    apply in_combine_r in Hy. by apply list_elem_of_In.
Qed.

End Audit.

(** Concrete scenarios, chains, forks and decisions. *)
Module ShadowSamples.
Import Adapters.Trust Reality.Sources Reality.Snapshot Reality.RealitySamples.

(** ** Scenarios *)

Definition onBase (base : MarketSnapshot) (ov : Overlay.ScenarioOverlay) : result Overlay.OverlayReason Overlay.ScenarioResult :=
  Overlay.applyOverlay codeUnitCompare digest base ov "snap-2" None.
Definition oneMetric (l : list Overlay.OverlayMutation) : Overlay.ScenarioOverlay :=
  {| Overlay.overlayId := "ov"; Overlay.name := "n"; Overlay.description := "d"; Overlay.mutations := l |}.
Definition fall (n : Z) : Overlay.OverlayMutation :=
  {| Overlay.m_metric := "weth/usd:price"; Overlay.op := Overlay.PERCENT; Overlay.operand := n; Overlay.note := "falls" |}.
Definition shown (r : result Overlay.OverlayReason Overlay.ScenarioResult) : list (string * option string) :=
  match r with Ok s => map (fun o => (o_value o, derivedFrom o)) (observations (body (Overlay.snapshot s))) | Err _ => [] end.

Example sample_overlay : onBase (sealed two) (oneMetric [fall (-101)]) = Err Overlay.IMPOSSIBLE_VALUE /\
  onBase (sealed two) Overlay.FLASH_CRASH = Err Overlay.UNKNOWN_METRIC /\
  shown (onBase (sealed two) (oneMetric [fall (-20)])) =
    [("194753653083", Some "o1@SIMULATED_FROM_VERIFIED_ORACLE"); ("194753653083", Some "o2@SIMULATED_FROM_VERIFIED_ORACLE")].
Proof. vm_compute. repeat split; reflexivity. Qed.

Definition scenario (i : SnapshotInput) (ov : Overlay.ScenarioOverlay) : MarketSnapshot :=
  match onBase (sealed i) ov with Ok r => Overlay.snapshot r | Err _ => sealed i end.
Definition apart : SnapshotInput := input [src "feed"] [obs "o1" "feed" 900000; obs "o2" "feed" 999000].

(** A picture that may not be acted on, its parts being too far apart in time, may be acted on once something else in it was
    made up. *)
Example scenario_is_coherent : assertSnapshotUsable (sealed apart) 1000000 60000 = Err NO_VALID_CONTEXT /\
  assertSnapshotUsable (scenario apart (oneMetric [fall (-20)])) 1000000 60000 = Ok tt.
Proof. vm_compute. split; reflexivity. Qed.

(** Changed twice, a measurement no longer tells which class it was of. *)
Example trust_lost_in_label : shown (onBase (sealed two) (oneMetric [fall (-20); fall (-20)])) =
  [("155802922466", Some "o1@SIMULATED_FROM_USER_UNTRUSTED"); ("155802922466", Some "o2@SIMULATED_FROM_USER_UNTRUSTED")].
Proof. vm_compute. reflexivity. Qed.

Lemma overlay_spec_witness : exists r, onBase (sealed two) (oneMetric [fall (-20)]) = Ok r /\
  verifySnapshotHash codeUnitCompare digest (Overlay.snapshot r) = Ok tt /\
  Forall2 (fun o o' => Overlay.changes (List.filter (fun m => bool_decide (Overlay.m_metric m = metric o)) [fall (-20)]) o o')
    (observations (body (sealed two))) (observations (body (Overlay.snapshot r))).
Proof.
  destruct (onBase (sealed two) (oneMetric [fall (-20)])) as [r|e] eqn:E; [|vm_compute in E; discriminate E].
  exists r. split; [reflexivity|].
  destruct (Overlay.overlay_spec codeUnitCompare digest (sealed two) (oneMetric [fall (-20)]) "snap-2" None r E)
    as (_ & _ & _ & _ & Hall & _ & _ & _ & _ & H & _).
  exact (conj H Hall).
Defined.

(** ** Replays *)

Definition blockAt (n : Z) : option Replay.Block := Some {| Replay.number := n; Replay.hash := KEY; Replay.timestamp := 100 + 12 * n |}.
Definition resolvedAt (ms lo hi : Z) : option string :=
  match Replay.resolveBlockForTimestamp blockAt 1 ms lo hi with Some (Ok t) => Some (Replay.t_blockNumber t) | _ => None end.
Example sample_resolve : map (fun ms => resolvedAt ms 1 1000) [160000; 159999; 112000; 12100000; 12101000] =
  [Some "5"; Some "4"; Some "1"; Some "1000"; None].
Proof. vm_compute. reflexivity. Qed.

(** Of a moment before the bounds the first block is taken, which is later. *)
Example block_after_the_moment : resolvedAt 50000 5 1000 = Some "5" /\ Replay.msOf {| Replay.number := 5; Replay.hash := KEY; Replay.timestamp := 160 |} = 160000.
Proof. vm_compute. split; reflexivity. Qed.

Lemma blockAt_chain : Replay.chain blockAt 1 1000.
Proof. split; [by intros n _; eexists|]. intros m n a b _ Hmn _ [= <-] [= <-]. cbn [Replay.timestamp]. lia. Qed.
Lemma resolve_spec_witness : exists r, Replay.resolveBlockForTimestamp blockAt 1 160000 1 1000 = Some r /\ forall e, r = Err e -> e = Replay.UNRESOLVABLE_TIMESTAMP \/ e = Replay.TargetRefused.
Proof.
  destruct (Replay.resolve_spec blockAt 1 160000 1 1000 ltac:(lia) blockAt_chain) as (r & H1 & _ & H2 & _). exists r. exact (conj H1 H2).
Defined.

Definition replayed (l : list MarketObservation) : Replay.Replayed :=
  {| Replay.target := {| Replay.t_blockNumber := "25963602"; Replay.blockHash := KEY; Replay.blockTimestampMs := 999000; Replay.t_chainId := 1;
       Replay.resolvedFrom := Replay.EXPLICIT_BLOCK; Replay.requestedTimestampMs := None |}; Replay.r_observations := l |}.
Definition priced (i s v : string) : MarketObservation :=
  {| observationId := i; metric := "weth/usd:price"; o_value := v; o_decimals := 8; unit_ := "USD"; dataType := PRICE; canonicalAssetId := None;
     o_sourceId := s; o_sourceChainId := 1; blockNumber := Some "25963602"; sourceTimestampMs := None; retrievedAtMs := 1; o_trustClass := VERIFIED_ORACLE;
     o_adapterId := "a"; o_adapterVersion := "1"; derivedFrom := None; o_provenance := "read" |}.
(** Of two sources of a metric only the second is compared. *)
Example first_source_uncompared :
  Replay.agree (replayed [priced "a" "feed" "100"; priced "b" "rpc" "300"]) (replayed [priced "a" "feed" "900"; priced "b" "rpc" "300"]) = true /\
  Replay.differences (replayed [priced "a" "feed" "100"]) (replayed [priced "a" "feed" "900"]) = [Replay.DValue "weth/usd:price"].
Proof. vm_compute. split; reflexivity. Qed.

(** ** Forks *)

Definition localUrl (u : string) : option Fork.Url :=
  if String.prefix "http://127.0.0.1:" u then Some {| Fork.protocol := "http:"; Fork.hostname := "127.0.0.1" |} else None.
Definition request : Fork.ForkCreateRequest :=
  {| Fork.f_sourceChainId := 1; Fork.f_forkBlock := "100"; Fork.f_sourceProviderId := "p"; Fork.port := None; Fork.lifetimeMs := None |}.
Definition answers (h : string) : Fork.Answers :=
  {| Fork.a_chainId := Some 31337; Fork.a_block := Some (Some (100, h)); Fork.a_version := "anvil/1.2.3"; Fork.a_upstream := Some None |}.
Definition ran (l : list Fork.op) : Fork.Provider := Fork.run localUrl None l.
Definition stateOf (p : Fork.Provider) (i : string) : option (Fork.ForkState * bool) :=
  option_map (fun f => (Fork.state (Fork.descriptor f), Fork.child f)) (Fork.find p i).
Definition made (i : string) : Fork.op := Fork.OCreate request i 1000.

(** The calls are numbered with the objects: the fork is object 0, its first verification call 1. *)
Example sample_fork : let p := ran [made "a"; Fork.OVerifyBegin "a" (Some KEY); Fork.OVerifyEnd 1 (answers KEY)] in
  stateOf p "a" = Some (Fork.READY, true) /\
  stateOf (ran [made "a"; Fork.OVerifyBegin "a" (Some "0x"); Fork.OVerifyEnd 1 (answers KEY)]) "a" = Some (Fork.DESTROYED, false) /\
  (Fork.reapExpired p 1801000).2 = [] /\ (Fork.reapExpired p 1801001).2 = ["a"].
Proof. vm_compute. repeat split; reflexivity. Qed.

(** Two verifications of one fork, under way together: the one that ends last decides, whichever was begun first; a failure
    destroys a fork another call made ready, and a success makes a fork ready that another call destroyed, without a node. *)
Example overlapping_verifications :
  let l := [made "a"; Fork.OVerifyBegin "a" (Some KEY); Fork.OVerifyBegin "a" (Some "0x")] in
  let good := Fork.OVerifyEnd 1 (answers KEY) in let bad := Fork.OVerifyEnd 2 (answers KEY) in
  stateOf (ran (l ++ [good])) "a" = Some (Fork.READY, true) /\
  stateOf (ran (l ++ [good; bad])) "a" = Some (Fork.DESTROYED, false) /\
  stateOf (ran (l ++ [bad])) "a" = Some (Fork.DESTROYED, false) /\
  stateOf (ran (l ++ [bad; good])) "a" = Some (Fork.READY, false).
Proof. vm_compute. repeat split; reflexivity. Qed.

(** Destroyed while its anchor was being verified, a fork is ready again, without a node. *)
Example destroyed_and_ready : let p := ran [made "a"; Fork.OVerifyBegin "a" None; Fork.ODestroy "a"; Fork.OVerifyEnd 1 (answers KEY)] in
  stateOf p "a" = Some (Fork.READY, false) /\ match Fork.mayExecute localUrl p "a" with Ok _ => True | Err _ => False end.
Proof. vm_compute. split; [reflexivity|exact I]. Qed.

(** The quota of two counts the ready ones only, so that three are made and made ready. *)
Example three_of_two : let p := ran [made "a"; made "b"; made "c"; Fork.OVerifyBegin "a" None; Fork.OVerifyBegin "b" None;
    Fork.OVerifyBegin "c" None; Fork.OVerifyEnd 5 (answers KEY); Fork.OVerifyEnd 3 (answers KEY); Fork.OVerifyEnd 4 (answers KEY)] in
  Fork.readyCount p = 3 /\ Fork.DEFAULT_MAX_FORKS = 2.
Proof. vm_compute. split; reflexivity. Qed.

(** With no hash to expect and no independent reader, any hash is an anchor. *)
Example unverified_anchor : stateOf (ran [made "a"; Fork.OVerifyBegin "a" None; Fork.OVerifyEnd 1 (answers "0xWHATEVER")]) "a" = Some (Fork.READY, true).
Proof. vm_compute. reflexivity. Qed.

Definition ready : Fork.Provider := ran [made "a"; Fork.OVerifyBegin "a" (Some KEY); Fork.OVerifyEnd 1 (answers KEY)].
Definition DEV : string := "0xf39Fd6e51aad88F6F4ce6aB8827279cffFb92266".
Definition transfer : Fork.Tx := {| Fork.from_ := DEV; Fork.to_ := DEV; Fork.data := "0x"; Fork.value_ := None; Fork.wantsImpersonation := false |}.
Definition receipt : Fork.Receipt := {| Fork.rc_blockNumber := 101; Fork.rc_status := "0x1"; Fork.rc_gasUsed := 21000 |}.
Definition sentOnFork : Fork.ForkTransaction :=
  {| Fork.tx_hash := KEY; Fork.tx_forkId := "a"; Fork.tx_forkedFrom := 1; Fork.tx_forkBlock := "100"; Fork.tx_blockNumber := "101"; Fork.tx_from := DEV;
     Fork.tx_to := DEV; Fork.success := true; Fork.gasUsed := "21000"; Fork.impersonated_ := false |}.
Lemma fork_transaction_honest_witness : Fork.explorerUrlFor 31337 (Fork.tx_hash sentOnFork) = None.
Proof.
  exact (proj1 (proj2 (Fork.fork_transaction_honest localUrl ready "a" transfer (Some KEY) (Some receipt) sentOnFork ltac:(vm_compute; reflexivity)))).
Defined.

Lemma gone_sample : Fork.gone (ran [made "a"; Fork.ODestroy "a"]) "a".
Proof. split; [by intros v ?%elem_of_nil|]. eexists. split; vm_compute; reflexivity. Qed.
Lemma destroyed_is_final_witness :
  Fork.mayExecute localUrl (foldl (Fork.apply localUrl None) (ran [made "a"; Fork.ODestroy "a"]) [Fork.OVerifyBegin "a" None; Fork.OVerifyEnd 1 (answers KEY)]) "a" = Err Fork.FR_DESTROYED.
Proof.
  refine (proj2 (Fork.destroyed_is_final localUrl None _ "a" [Fork.OVerifyBegin "a" None; Fork.OVerifyEnd 1 (answers KEY)] gone_sample _)).
  intros req now H. apply elem_of_cons in H as [H|H]; [discriminate H|]. apply elem_of_cons in H as [H|H]; [discriminate H|]. by apply elem_of_nil in H.
Defined.
Definition newest : Fork.LiveFork :=
  {| Fork.ref := 0; Fork.descriptor := Fork.newDescriptor Fork.emptyProvider request "a" 1000; Fork.child := true; Fork.actors := [] |}.
Lemma reap_spec_witness : Fork.get (Fork.reapExpired (ran [made "a"]) 1801001).1 "a" = Some (Fork.setState (Fork.descriptor newest) Fork.DESTROYED).
Proof. exact (proj1 (Fork.reap_spec localUrl None [made "a"] 1801001 "a" newest ltac:(vm_compute; reflexivity))). Defined.

(** ** The agent *)

Definition action (asset : string) : Agent.SemanticAction :=
  {| Agent.kind := Agent.SUPPLY; Agent.assetId := asset; Agent.counterAssetId := None; Agent.amount := "1000000000000000000"; Agent.decimals := 18;
     Agent.protocol := "aave-v3"; Agent.rationale := "r" |}.
Definition everywhere (p : string) (c : Z) : option string := Some DEV.
Definition digest64 (_ : string) : string := "1111111111111111111111111111111111111111111111111111111111111111".
Definition watched : MarketSnapshot := {| body := bodyOf two; snapshotHash := computeSnapshotHash codeUnitCompare digest64 (bodyOf two) |}.
Definition decisionInput (i : string) : Agent.ShadowRunInput :=
  {| Agent.i_decisionId := i; Agent.snapshot := watched; Agent.i_scenarioHash := None; Agent.i_strategyRevision := 1; Agent.i_blueprintRevision := 1;
     Agent.maxContextAgeMs := 60000; Agent.nowMs := 1000000; Agent.target := Agent.T_TESTNET; Agent.fork := None; Agent.testnetChainId := None |}.
Definition decided (asset i : string) : list Agent.CompiledIntent * result Agent.ShadowError Agent.ShadowDecision :=
  Agent.runShadowDecision (fun _ => (Agent.ALLOW, "WITHIN_LIMITS", action asset)) everywhere (Some (fun _ => Some KEY)) (decisionInput i).

(** One unit of eighteen decimals is compiled to a million million of six. *)
Example amount_rescaled : map (fun t => (Agent.c_amount t, Agent.c_decimals t)) (fst (decided "usdc" "d")) = [("1000000000000000000", 6)] /\
  Agent.decimals (action "usdc") = 18.
Proof. vm_compute. split; reflexivity. Qed.

(** What the schema of a decision refuses is found only after the write: it is done, and no decision records it. *)
Example executed_unrecorded : length (fst (decided "weth" "")) = 1%nat /\ snd (decided "weth" "") = Err Agent.ShadowSchema /\
  match snd (decided "weth" "d") with Ok d => (Agent.executed d, Agent.executionChainId d) = (true, Some 11155111) | Err _ => False end.
Proof. vm_compute. repeat split; reflexivity. Qed.

(** A token with no deployment there, and a chain that is no test network. *)
Example sample_not_compiled : fst (decided "dai" "d") = [] /\ snd (decided "dai" "d") = Err (Agent.ShadowAsset Assets.NO_DEPLOYMENT) /\
  Agent.shadowExecutionRef Agent.T_TESTNET None (Some 1) = Err Agent.NO_TARGET /\ Agent.shadowExecutionRef Agent.T_LOCAL_FORK None None = Err Agent.NO_TARGET.
Proof. vm_compute. repeat split; reflexivity. Qed.

Lemma auditable_iff_witness : Audit.assertAuditable (sealed two) None <> Ok tt.
Proof.
  intros H. apply (proj1 (Audit.auditable_iff codeUnitCompare digest two (sealed two) None (proj1 sample_seal))) in H as (_ & _ & [? H]). discriminate H.
Defined.

End ShadowSamples.
