(* ===== verification/Lab.v ===== *)
(** * The lab: one lifecycle, revisions, the two decisions

    [packages/studio-lab/src].  Module [Lifecycle] is [lifecycle.ts], the one state a user sees, computed from what
    the build, the deployment, the runtime, CRE and the chain report.  Modules [Revisions] and [SecurityDiff] are [revisions.ts],
    what a change makes stale and the diff shown before it ships.  Module [DeployGate] is [deploy-ux.ts], the gates
    of a deployment, its cost and the order of an activation.  Module [LabSamples] has the concrete cases.  The attacks and the
    report are in [AttackLab]. *)

From S2P Require Import Prelude JsNum Regex Json Network Deploy Control Monitor Blueprint Adapters.
From stdpp Require Import pretty.
From Stdlib Require Import Ascii.
Local Open Scope Z_scope.

Module Lifecycle.
Import Deploy.Machine Monitor.RuntimeHealth Monitor.Cre.

Inductive LabProjectState :=
| L_DRAFT | L_ARCHITECTURE_READY | L_REVIEW_REQUIRED | L_BUILDING | L_BUILD_READY | L_SIMULATION_READY | L_PREFLIGHT_REQUIRED
| L_READY_TO_DEPLOY | L_DEPLOYING | L_READY_TO_ACTIVATE | L_LAB_ACTIVE | L_PAUSED | L_EMERGENCY_LOCKED | L_DEGRADED | L_FAILED.
#[export] Instance LabProjectState_eq_dec : EqDecision LabProjectState.
Proof. solve_decision. Defined.

Record PolicyAuthority := { enabled : bool; observedAtBlock : option string; observedAtMs : Z; source : string }.

Inductive BuildStage :=
| INTAKE | REQUIREMENTS | BLUEPRINT | SECURITY_REVIEW | STAGE_AWAITING_APPROVAL | BUILD | TEST | SIMULATE | REPAIR | FINAL_VERIFY | EXPORT_READY.
#[export] Instance BuildStage_eq_dec : EqDecision BuildStage.
Proof. solve_decision. Defined.
Inductive BuildStatus :=
| RUNNING | AWAITING_APPROVAL | COMPLETED | FAILED | BUILD_PAUSED | BUILD_LIMIT_REACHED | BUILD_NEEDS_USER_REVIEW
| BUILD_PAUSED_UPSTREAM_LIMIT | ABANDONED.
#[export] Instance BuildStatus_eq_dec : EqDecision BuildStatus.
Proof. solve_decision. Defined.
Record Build := { stage : BuildStage; b_status : BuildStatus }.

Record LabInputs := {
  build : option Build; deterministicSimulationsPassed : bool; creSimulationPassed : bool; preflightPassed : bool;
  deployment : option DeploymentState; runtime : option RuntimeState; cre : option CreState; policy : option PolicyAuthority;
  emergencyLockActive : bool; degradedDependencies : list string
}.

(** What decided the state, with what the text names. *)
Inductive Because :=
| LockEngaged | DeploymentIs (d : DeploymentState) | BuildStatusIs (s : BuildStatus) | DeployedPolicyDisabled | RuntimePausedPolicyEnabled
| PolicyEnabledAnd (runtimeNot : option (option RuntimeState)) (creNot : option (option CreState)) (unhealthy : list string)
| AllHealthy | NoBuild | ReviewNeeded | BuildAt (s : BuildStage) | SimulationsMissing (deterministic creSimulation : bool)
| PreflightMissing | GatesPassed | SimulationsPassed.

Record LabProjection := {
  l_state : LabProjectState; because : Because; hasFinancialAuthority : bool; nextAction : option string; p_degraded : list string
}.

Definition DEPLOYING_STATES : list DeploymentState :=
  [DEPLOYMENT_APPROVED; DEPLOYING_CHAIN_COMPONENTS; CONFIGURING_POLICY_DISABLED; DEPLOYING_CRE; PAUSING_OR_CONFIRMING_CRE_STATE;
   BUILDING_RUNTIME_IMAGE; VERIFYING_DEPLOYMENT].
Definition FAILED_DEPLOYMENT_STATES : list DeploymentState :=
  [DEPLOYMENT_FAILED_TERMINAL; DEPLOYMENT_FAILED_RECOVERABLE; DEPLOYMENT_PARTIAL; DEPLOYMENT_PAUSED_USER; DEPLOYMENT_PAUSED_SIGNER;
   DEPLOYMENT_PAUSED_CRE_AUTH].
Definition RUNTIME_NOT_WORKING : list RuntimeState := [CRASH_LOOP; RS_FAILED; STOPPED; UNKNOWN].

Definition inSet {A : Type} `{EqDecision A} (l : list A) (o : option A) : bool := match o with Some x => includes l x | None => false end.

Definition policyEnabled (i : LabInputs) : bool := match policy i with Some p => enabled p | None => false end.
Definition runtimeBroken (i : LabInputs) : bool := inSet RUNTIME_NOT_WORKING (runtime i).
Definition runtimeDegraded (i : LabInputs) : bool := inSet [RS_DEGRADED] (runtime i).
Definition creBroken (i : LabInputs) : bool := inSet [C_DEGRADED; C_FAILED; C_STALE] (cre i).
Definition hasDegraded (i : LabInputs) : bool := match degradedDependencies i with [] => false | _ => true end.

Section projection.
Variable i : LabInputs.

Definition project (st : LabProjectState) (why : Because) (authority : bool) (next : option string) : LabProjection :=
  {| l_state := st; because := why; hasFinancialAuthority := authority; nextAction := next; p_degraded := degradedDependencies i |}.

(** A verified deployment. *)
Definition projectDeployed : LabProjection :=
  if negb (policyEnabled i) then project L_READY_TO_ACTIVATE DeployedPolicyDisabled false (Some "Activate the testnet agent")
  else if inSet [PAUSED] (runtime i) then
    project L_PAUSED RuntimePausedPolicyEnabled true (Some "Disable the policy if you intend to remove financial authority")
  else if runtimeBroken i || creBroken i || runtimeDegraded i || hasDegraded i then
    project L_DEGRADED
      (PolicyEnabledAnd (if runtimeBroken i || runtimeDegraded i then Some (runtime i) else None)
         (if creBroken i then Some (cre i) else None) (degradedDependencies i))
      true (Some "Disable the policy or repair the dependency")
  else project L_LAB_ACTIVE AllHealthy true (Some "Monitor activity, or run the Attack Lab").

(** A build that finished. *)
Definition projectCompleted : LabProjection :=
  if negb (deterministicSimulationsPassed i) || negb (creSimulationPassed i) then
    project L_BUILD_READY (SimulationsMissing (negb (deterministicSimulationsPassed i)) (negb (creSimulationPassed i))) false
      (Some "Run the simulations")
  else if negb (preflightPassed i) then project L_PREFLIGHT_REQUIRED PreflightMissing false (Some "Run the deployment preflight")
  else match deployment i with
       | None => project L_READY_TO_DEPLOY GatesPassed false (Some "Deploy to Testnet Lab")
       | Some _ => project L_SIMULATION_READY SimulationsPassed false (Some "Run the deployment preflight")
       end.

(** Before a deployment. *)
Definition projectBuild : LabProjection :=
  match build i with
  | None => project L_DRAFT NoBuild false (Some "Describe the agent you want")
  | Some b =>
      if bool_decide (b_status b = AWAITING_APPROVAL) || bool_decide (stage b = STAGE_AWAITING_APPROVAL) then
        project L_REVIEW_REQUIRED ReviewNeeded false (Some "Review what this agent can and cannot do")
      else if negb (bool_decide (b_status b = COMPLETED)) then
        if includes [INTAKE; REQUIREMENTS] (stage b) then project L_DRAFT (BuildAt (stage b)) false None
        else if includes [BLUEPRINT; SECURITY_REVIEW] (stage b) then project L_ARCHITECTURE_READY (BuildAt (stage b)) false None
        else project L_BUILDING (BuildAt (stage b)) false None
      else projectCompleted
  end.

Definition buildOver : option BuildStatus :=
  match build i with
  | Some b => if includes [FAILED; ABANDONED] (b_status b) then Some (b_status b) else None
  | None => None
  end.

Definition projectLabState : LabProjection :=
  if emergencyLockActive i then
    project L_EMERGENCY_LOCKED LockEngaged false (Some "Review the emergency lock before doing anything else")
  else match deployment i, buildOver with
       | Some d, over =>
           if includes FAILED_DEPLOYMENT_STATES d then project L_FAILED (DeploymentIs d) false (Some "Inspect the deployment receipt")
           else match over with
                | Some s => project L_FAILED (BuildStatusIs s) false (Some "Start a new build")
                | None =>
                    if bool_decide (d = READY_TO_ACTIVATE) then projectDeployed
                    else if includes DEPLOYING_STATES d then project L_DEPLOYING (DeploymentIs d) false None
                    else projectBuild
                end
       | None, Some s => project L_FAILED (BuildStatusIs s) false (Some "Start a new build")
       | None, None => projectBuild
       end.

End projection.

Definition AUTHORITY_STATES : list LabProjectState := [L_LAB_ACTIVE; L_PAUSED; L_DEGRADED].

(** [labStateLabel]: the headline and the detail. *)
Definition labStateLabel (s : LabProjectState) : string * string :=
  match s with
  | L_DRAFT => ("DRAFT", "Nothing has been compiled yet")
  | L_ARCHITECTURE_READY => ("ARCHITECTURE READY", "A Blueprint exists and can be reviewed")
  | L_REVIEW_REQUIRED => ("REVIEW REQUIRED", "The security review needs a human decision")
  | L_BUILDING => ("BUILDING", "Generating and testing code")
  | L_BUILD_READY => ("BUILD READY", "Code passes its own tests; nothing has been simulated")
  | L_SIMULATION_READY => ("SIMULATION READY", "Deterministic and CRE simulations passed")
  | L_PREFLIGHT_REQUIRED => ("PREFLIGHT REQUIRED", "The deployment preflight has not passed")
  | L_READY_TO_DEPLOY => ("READY TO DEPLOY", "Every gate upstream of deployment has passed")
  | L_DEPLOYING => ("DEPLOYING", "Deploying to the testnet lab")
  | L_READY_TO_ACTIVATE => ("READY TO ACTIVATE", "Deployed and verified. The policy is DISABLED")
  | L_LAB_ACTIVE => ("TESTNET LAB ACTIVE", "The ContextLock policy is enabled on an approved execution network — a testnet or a local fork, never mainnet")
  | L_PAUSED => ("RUNTIME PAUSED", "The container is stopped. The ContextLock policy is still ENABLED — pausing a runtime is an operational stop, not a financial one")
  | L_EMERGENCY_LOCKED => ("EMERGENCY LOCKED", "An emergency lock is engaged")
  | L_DEGRADED => ("DEGRADED", "The policy is enabled and something it depends on is unhealthy")
  | L_FAILED => ("FAILED", "See the failure reason")
  end.

(** ** Where the authority is *)

(** Every state of a deployment is one of the three kinds the projection asks for. *)
Lemma deployment_states_covered d :
  includes FAILED_DEPLOYMENT_STATES d = false -> includes DEPLOYING_STATES d = false -> d = READY_TO_ACTIVATE.
Proof. by destruct d. Qed.

(** The states before a deployment are none of those after one. *)
Definition earlyStates : list LabProjectState :=
  [L_DRAFT; L_ARCHITECTURE_READY; L_REVIEW_REQUIRED; L_BUILDING; L_BUILD_READY; L_PREFLIGHT_REQUIRED; L_READY_TO_DEPLOY].
Lemma projectBuild_early i : deployment i = None ->
  l_state (projectBuild i) ∈ earlyStates /\ hasFinancialAuthority (projectBuild i) = false.
Proof. intros E. unfold projectBuild, projectCompleted. rewrite E. repeat case_match; cbn; split; try done; set_solver. Qed.

(** What is left of the decision once the lock, the failed deployment and the finished build are out of the way. *)
Lemma projectLabState_cases i :
  (emergencyLockActive i = true /\ l_state (projectLabState i) = L_EMERGENCY_LOCKED /\ hasFinancialAuthority (projectLabState i) = false) \/
  (emergencyLockActive i = false /\ l_state (projectLabState i) = L_FAILED /\ hasFinancialAuthority (projectLabState i) = false /\
     ((exists d, deployment i = Some d /\ d ∈ FAILED_DEPLOYMENT_STATES) \/ buildOver i <> None)) \/
  (emergencyLockActive i = false /\ buildOver i = None /\ deployment i = Some READY_TO_ACTIVATE /\ projectLabState i = projectDeployed i) \/
  (emergencyLockActive i = false /\ buildOver i = None /\ (exists d, deployment i = Some d /\ d ∈ DEPLOYING_STATES) /\
     l_state (projectLabState i) = L_DEPLOYING /\ hasFinancialAuthority (projectLabState i) = false) \/
  (emergencyLockActive i = false /\ buildOver i = None /\ deployment i = None /\ projectLabState i = projectBuild i).
Proof.
  unfold projectLabState. destruct (emergencyLockActive i); [by left|right].
  destruct (deployment i) as [d|] eqn:Ed.
  - destruct (includes FAILED_DEPLOYMENT_STATES d) eqn:Ef.
    { left. split_and!; try done. left. exists d. by apply includes_true in Ef. }
    destruct (buildOver i); [left; split_and!; try done; by right|right].
    destruct (bool_decide_reflect (d = READY_TO_ACTIVATE)) as [-> | Hne]; [by left|right; left].
    destruct (includes DEPLOYING_STATES d) eqn:Edep; [|by destruct Hne; apply deployment_states_covered].
    split_and!; try done. exists d. by apply includes_true in Edep.
  - destruct (buildOver i); [left; split_and!; try done; by right|]. by right; right; right.
Qed.

Lemma projectDeployed_cases i :
  (policyEnabled i = false /\ l_state (projectDeployed i) = L_READY_TO_ACTIVATE /\ hasFinancialAuthority (projectDeployed i) = false) \/
  (policyEnabled i = true /\ hasFinancialAuthority (projectDeployed i) = true /\
   ((runtime i = Some PAUSED /\ l_state (projectDeployed i) = L_PAUSED) \/
    (runtime i <> Some PAUSED /\ runtimeBroken i || creBroken i || runtimeDegraded i || hasDegraded i = true /\
       l_state (projectDeployed i) = L_DEGRADED) \/
    (runtime i <> Some PAUSED /\ runtimeBroken i || creBroken i || runtimeDegraded i || hasDegraded i = false /\
       l_state (projectDeployed i) = L_LAB_ACTIVE))).
Proof.
  unfold projectDeployed. destruct (policyEnabled i); cbn [negb]; [right|by left]. split; [done|].
  assert (inSet [PAUSED] (runtime i) = true <-> runtime i = Some PAUSED) as Hp.
  { unfold inSet. destruct (runtime i) as [r|]; [|done]. rewrite includes_true, list_elem_of_singleton. naive_solver. }
  destruct (inSet [PAUSED] (runtime i)).
  { split; [done|left]. split; [by apply Hp|done]. }
  assert (runtime i <> Some PAUSED) by (intros H; by apply Hp in H).
  destruct (_ || _ || _ || _); (split; [done|right]); [left|right]; done.
Qed.

Local Ltac close_iffs := split_and!; try (split; [|]); try done; try (by intros (? & _)); try set_solver.

(** C21: the one state a user sees says whether the agent holds financial authority, and it says so exactly in the three authority
    states.  The authority is claimed exactly when no emergency lock is engaged, the deployment is verified, the
    build has neither failed nor been abandoned, and the chain says that the policy is enabled; pausing the
    runtime does not change that.  LAB_ACTIVE is shown exactly when, on top, nothing was reported broken.  The lock
    outranks everything.  And SIMULATION_READY is never shown, since no state of a deployment leads to it. *)
Theorem authority_iff i : let p := projectLabState i in
  (hasFinancialAuthority p = true <-> l_state p ∈ AUTHORITY_STATES) /\
  (hasFinancialAuthority p = true <->
     emergencyLockActive i = false /\ deployment i = Some READY_TO_ACTIVATE /\ buildOver i = None /\ policyEnabled i = true) /\
  (l_state p = L_LAB_ACTIVE <-> hasFinancialAuthority p = true /\ runtime i <> Some PAUSED /\ runtimeBroken i = false /\
     runtimeDegraded i = false /\ creBroken i = false /\ hasDegraded i = false) /\
  (l_state p = L_EMERGENCY_LOCKED <-> emergencyLockActive i = true) /\ l_state p <> L_SIMULATION_READY.
Proof.
  cbv zeta. destruct (projectLabState_cases i) as [(El & -> & ->) | [(El & -> & -> & Hf) | [(El & Eb & Ed & ->) |
    [(El & Eb & (d & Ed & Hd) & -> & ->) | (El & Eb & Ed & ->)]]]].
  - rewrite El. close_iffs.
  - rewrite El. close_iffs.
  - rewrite El, Eb, Ed.
    destruct (projectDeployed_cases i) as [(-> & -> & ->) | (-> & -> & [(-> & ->) | [(Hr & Hb & ->) | (Hr & Hb & ->)]])];
      rewrite ?orb_true_iff, ?orb_false_iff in *;
      close_iffs.
    intros (_ & _ & H1 & H2 & H3 & H4). exfalso. destruct Hb as [[[Hb|Hb]|Hb]|Hb]; congruence.
  - rewrite El, Ed. close_iffs.
  - destruct (projectBuild_early i Ed) as [Hs ->]. rewrite El, Ed.
    assert (l_state (projectBuild i) ∉ AUTHORITY_STATES /\ l_state (projectBuild i) <> L_LAB_ACTIVE /\
      l_state (projectBuild i) <> L_EMERGENCY_LOCKED /\ l_state (projectBuild i) <> L_SIMULATION_READY) as (H1 & H2 & H3 & H4).
    { clear -Hs. apply includes_true in Hs.
      destruct (l_state (projectBuild i)); try discriminate Hs; (split; [by intros H%includes_true|done]). }
    clear Hs. naive_solver.
Qed.

End Lifecycle.

Module Revisions.
Import Unknown Blueprint.Schema.

Inductive RevisionKind := BLUEPRINT | STRATEGY | BUILD | DEPLOYMENT | RUNTIME | CRE_ARTIFACT | MARKET_SNAPSHOT.
#[export] Instance RevisionKind_eq_dec : EqDecision RevisionKind.
Proof. solve_decision. Defined.
Definition REVISION_KINDS : list RevisionKind := [BLUEPRINT; STRATEGY; BUILD; DEPLOYMENT; RUNTIME; CRE_ARTIFACT; MARKET_SNAPSHOT].
Definition kindText (k : RevisionKind) : string :=
  match k with
  | BLUEPRINT => "BLUEPRINT" | STRATEGY => "STRATEGY" | BUILD => "BUILD" | DEPLOYMENT => "DEPLOYMENT" | RUNTIME => "RUNTIME"
  | CRE_ARTIFACT => "CRE_ARTIFACT" | MARKET_SNAPSHOT => "MARKET_SNAPSHOT"
  end.

Record Revision := { kind : RevisionKind; r_value : string; stale : bool; staleBecause : option string }.

Definition DEPENDS_ON (k : RevisionKind) : list RevisionKind :=
  match k with
  | BLUEPRINT => []
  | STRATEGY => [BLUEPRINT]
  | BUILD => [BLUEPRINT; STRATEGY]
  | CRE_ARTIFACT => [BLUEPRINT; STRATEGY; BUILD]
  | DEPLOYMENT => [BLUEPRINT; STRATEGY; BUILD; CRE_ARTIFACT]
  | RUNTIME => [BUILD; DEPLOYMENT]
  | MARKET_SNAPSHOT => []
  end.

(** The kinds that name the changed one. *)
Definition direct (changed : RevisionKind) : list RevisionKind :=
  List.filter (fun k => negb (bool_decide (k = changed)) && includes (DEPENDS_ON k) changed) REVISION_KINDS.

(** One turn of the loop, over all kinds in order; a kind added early in the turn counts for the later ones. *)
Definition grow (affected : list RevisionKind) : list RevisionKind * bool :=
  fold_left (fun '(s, grew) k =>
      if includes s k then (s, grew) else if some (fun d => includes s d) (DEPENDS_ON k) then (s ++ [k], true) else (s, grew))
    REVISION_KINDS (affected, false).
Fixpoint growAll (fuel : nat) (affected : list RevisionKind) : option (list RevisionKind) :=
  match fuel with
  | O => None
  | S n => let '(s, grew) := grow affected in if grew then growAll n s else Some s
  end.
(** Each turn but the last adds a kind, and there are seven. *)
Definition affectedBy (changed : RevisionKind) : option (list RevisionKind) := growAll 8 (direct changed).

(** [.toLowerCase().replace(/_/g, " ")]. *)
Fixpoint spaced (s : string) : string :=
  match s with EmptyString => EmptyString | String c s' => String (if Ascii.eqb c "_" then " "%char else c) (spaced s') end.

Definition marked (changed : RevisionKind) (affected : list RevisionKind) (r : Revision) : Revision :=
  if includes affected (kind r)
  then {| kind := kind r; r_value := r_value r; stale := true;
          staleBecause := Some ("the " +:+ spaced (to_lower (kindText changed)) +:+ " changed") |}
  else r.
Definition markStale (revisions : list Revision) (changed : RevisionKind) : option (list Revision) :=
  option_map (fun s => map (marked changed s) revisions) (affectedBy changed).

Inductive RevisionReason := LIVE_MUTATION | STALE_ARTIFACT | OLD_REVISION.
#[export] Instance RevisionReason_eq_dec : EqDecision RevisionReason.
Proof. solve_decision. Defined.

Definition assertNotLiveMutation (isLive createsRevision : bool) : result RevisionReason unit :=
  throw LIVE_MUTATION when isLive && negb createsRevision ;; Ok tt.
Definition assertNoStaleArtifacts (revisions : list Revision) : result RevisionReason unit :=
  throw STALE_ARTIFACT when some stale revisions ;; Ok tt.
Definition assertCurrentRevision (presented current : string) : result RevisionReason unit :=
  throw OLD_REVISION when negb (streq presented current) ;; Ok tt.

(** What depends on a kind, directly or through others. *)
Inductive downstream (c : RevisionKind) : RevisionKind -> Prop :=
| DownDirect k : c ∈ DEPENDS_ON k -> downstream c k
| DownVia d k : downstream c d -> d ∈ DEPENDS_ON k -> downstream c k.

Lemma affectedBy_closed c s : affectedBy c = Some s ->
  (forall k, c ∈ DEPENDS_ON k -> k ∈ s) /\ (forall d k, d ∈ s -> d ∈ DEPENDS_ON k -> k ∈ s).
Proof.
  assert (match affectedBy c with
          | Some s => every (fun k => implb (includes (DEPENDS_ON k) c) (includes s k) &&
                                      every (fun d => implb (includes (DEPENDS_ON k) d) (includes s k)) s) REVISION_KINDS
          | None => false
          end = true) as H by (destruct c; vm_compute; reflexivity).
  intros E. rewrite E in H. rewrite every_true in H.
  assert (forall k, k ∈ REVISION_KINDS) as Hall by (intros k; apply includes_true; by destruct k).
  split; [intros k Hk|intros d k Hd Hk]; specialize (H k (Hall k)); apply andb_true_iff in H as [H1 H2].
  - apply includes_true in Hk. rewrite Hk in H1. by apply includes_true in H1.
  - rewrite every_true in H2. specialize (H2 d Hd). apply includes_true in Hk. rewrite Hk in H2. by apply includes_true in H2.
Qed.

Lemma affectedBy_sound c s : affectedBy c = Some s -> forall k, k ∈ s -> downstream c k.
Proof.
  assert (forall k d, includes (DEPENDS_ON k) d = true -> d ∈ DEPENDS_ON k) as Hin by (intros k d; apply includes_true).
  intros E k Hk. destruct c; vm_compute in E; injection E as <-; repeat (apply elem_of_cons in Hk as [-> | Hk]);
    try (by apply elem_of_nil in Hk); try (by apply DownDirect, Hin);
    first [by apply (DownVia _ BUILD); [apply DownDirect, Hin|apply Hin] | by apply (DownVia _ DEPLOYMENT); [apply DownDirect, Hin|apply Hin]].
Qed.

Lemma affectedBy_spec c : exists s, affectedBy c = Some s /\ forall k, k ∈ s <-> downstream c k.
Proof.
  destruct (affectedBy c) as [s|] eqn:E; [|by destruct c]. exists s. split; [done|]. intros k.
  destruct (affectedBy_closed c s E) as [Hd Hv]. split; [by apply (affectedBy_sound c)|].
  induction 1 as [k Hk|d k Hdk IH Hk]; [by apply Hd|by apply (Hv d)].
Qed.

(** A change makes stale exactly what depends on it, directly or through something that does.  The marking always ends; a
    revision comes out stale exactly when it was or its kind is downstream of the change; nothing else of it
    changes; and an activation afterwards is accepted exactly when nothing was stale and nothing present
    is downstream. *)
Theorem markStale_spec l c : exists l', markStale l c = Some l' /\
  map kind l' = map kind l /\ map r_value l' = map r_value l /\
  Forall2 (fun r r' => (stale r' = true <-> stale r = true \/ downstream c (kind r)) /\ (~ downstream c (kind r) -> r' = r)) l l' /\
  (assertNoStaleArtifacts l' = Ok tt <-> forall r, r ∈ l -> stale r = false /\ ~ downstream c (kind r)).
Proof.
  destruct (affectedBy_spec c) as (s & E & Hs). exists (map (marked c s) l). unfold markStale. rewrite E.
  assert (Hm : forall r, (stale (marked c s r) = true <-> stale r = true \/ downstream c (kind r)) /\ (~ downstream c (kind r) -> marked c s r = r)).
  { intros r. unfold marked. destruct (includes s (kind r)) eqn:Ei.
    - apply includes_true, Hs in Ei. cbn. naive_solver.
    - apply includes_false in Ei. rewrite Hs in Ei. naive_solver. }
  split_and!; try done.
  - rewrite map_map. apply map_ext. intros r. unfold marked. by case_match.
  - rewrite map_map. apply map_ext. intros r. unfold marked. by case_match.
  - induction l as [|r l IH]; constructor; auto.
  - unfold assertNoStaleArtifacts. rewrite throw_ok, some_false. split.
    + intros [H _] r Hr. specialize (H (marked c s r) (list_elem_of_fmap_2 _ _ _ Hr)). destruct (Hm r) as [Hi _].
      split; [destruct (stale r); [by rewrite (proj2 Hi (or_introl eq_refl)) in H|done]|].
      intros Hd. by rewrite (proj2 Hi (or_intror Hd)) in H.
    + intros H. split; [|done]. intros r' (r & -> & Hr)%list_elem_of_fmap. destruct (H r Hr) as [Hf Hd].
      destruct (Hm r) as [_ Heq]. by rewrite (Heq Hd).
Qed.

End Revisions.

Module SecurityDiff.
Import Unknown Blueprint.Schema Adapters.Trust.

Inductive ChangeImpact := AUTHORITY_EXPANDED | AUTHORITY_REDUCED | AUTHORITY_UNCHANGED | SOURCE_CHANGED | SCOPE_CHANGED.
#[export] Instance ChangeImpact_eq_dec : EqDecision ChangeImpact.
Proof. solve_decision. Defined.

(** What a change shows: dollars as cents ([None] is UNKNOWN), or a text. *)
Inductive Shown := Cents (c : option Z) | Text (s : string).
Record SecurityChange := { field : string; label : string; before : Shown; after : Shown; impact : ChangeImpact }.

Definition compareLimit (field label : string) (b a : Maybe Z) : list SecurityChange :=
  let bv := known b in
  let av := known a in
  if bool_decide (bv = av) then []
  else [{| field := field; label := label; before := Cents bv; after := Cents av;
           impact := match bv, av with
                     | _, None => AUTHORITY_EXPANDED
                     | None, Some _ => SCOPE_CHANGED
                     | Some x, Some y => if x <? y then AUTHORITY_EXPANDED else AUTHORITY_REDUCED
                     end |}].

(** The statements of a Set of permissions, in the order they were first added. *)
Fixpoint firsts (seen l : list string) : list string :=
  match l with
  | [] => []
  | x :: l' => if includes seen x then firsts seen l' else x :: firsts (x :: seen) l'
  end.
Definition statements (l : list Permission) : list string := firsts [] (map statement l).

(** One change for each element of [l] that is not in [l']. *)
Definition missingFrom (l' l : list string) (mk : string -> SecurityChange) : list SecurityChange :=
  map mk (List.filter (fun s => negb (includes l' s)) l).
Definition gained (field label : string) (i : ChangeImpact) (s : string) : SecurityChange :=
  {| field := field; label := label; before := Text "—"; after := Text s; impact := i |}.
Definition lost (field label : string) (i : ChangeImpact) (s : string) : SecurityChange :=
  {| field := field; label := label; before := Text s; after := Text "—"; impact := i |}.

Definition bindingText (a : AdapterBinding) : string := adapterId a +:+ "@" +:+ adapterVersion a.
(** [new Map(...)]: the last binding of a reference. *)
Definition adapterOf (l : list AdapterBinding) (ref : string) : option AdapterBinding :=
  List.find (fun a => streq (configRef a) ref) (rev l).
Definition adapterChange (before_ : list AdapterBinding) (a : AdapterBinding) : list SecurityChange :=
  match adapterOf before_ (configRef a) with
  | None => [gained ("adapters." +:+ configRef a) "Adapter added" SOURCE_CHANGED (bindingText a)]
  | Some b =>
      if negb (streq (adapterId b) (adapterId a)) || negb (streq (adapterVersion b) (adapterVersion a)) then
        [{| field := "adapters." +:+ configRef a; label := "Adapter changed"; before := Text (bindingText b); after := Text (bindingText a);
            impact := SOURCE_CHANGED |}]
      else []
  end.

Definition sourceChange (before_ : list ContextSource) (s : ContextSource) : list SecurityChange :=
  match List.find (fun x => streq (cs_id x) (cs_id s)) before_ with
  | None => []
  | Some b =>
      (if bool_decide (cs_minimumTrustClass b = cs_minimumTrustClass s) then [] else
         [{| field := "contextSources." +:+ cs_id s +:+ ".minimumTrustClass"; label := "Required trust changed";
             before := Text (trustName (cs_minimumTrustClass b)); after := Text (trustName (cs_minimumTrustClass s));
             impact := AUTHORITY_EXPANDED |}]) ++
      (if fallbackAllowed s && negb (fallbackAllowed b) then
         [{| field := "contextSources." +:+ cs_id s +:+ ".fallbackAllowed"; label := "Fallback enabled"; before := Text "false";
             after := Text "true"; impact := AUTHORITY_EXPANDED |}] else [])
  end.

Definition securityDiff (b a : Blueprint) : list SecurityChange :=
  let beforeAllowed := statements (allowedPermissions b) in
  let afterAllowed := statements (allowedPermissions a) in
  let beforeDenied := statements (deniedPermissions b) in
  let afterDenied := statements (deniedPermissions a) in
  compareLimit "autonomousPolicy.maxValueUsdCents" "Autonomous limit"
    (auto_maxValueUsdCents (autonomousPolicy b)) (auto_maxValueUsdCents (autonomousPolicy a)) ++
  compareLimit "escalationPolicy.maxValueUsdCents" "Hard cap"
    (maxValueUsdCents (escalationPolicy b)) (maxValueUsdCents (escalationPolicy a)) ++
  compareLimit "escalationPolicy.minValueUsdCents" "Escalation floor"
    (minValueUsdCents (escalationPolicy b)) (minValueUsdCents (escalationPolicy a)) ++
  missingFrom beforeAllowed afterAllowed (gained "permissions.allowed" "Permission added" AUTHORITY_EXPANDED) ++
  missingFrom afterAllowed beforeAllowed (lost "permissions.allowed" "Permission removed" AUTHORITY_REDUCED) ++
  missingFrom afterDenied beforeDenied (lost "permissions.denied" "Denial removed" AUTHORITY_EXPANDED) ++
  missingFrom beforeDenied afterDenied (gained "permissions.denied" "Denial added" AUTHORITY_REDUCED) ++
  flat_map (adapterChange (adapters b)) (adapters a) ++
  flat_map (sourceChange (contextSources b)) (contextSources a).

Definition authorityExpansions (l : list SecurityChange) : list SecurityChange :=
  List.filter (fun c => bool_decide (impact c = AUTHORITY_EXPANDED)) l.

(** ** What leads the screen *)

Lemma firsts_elem seen l s : s ∈ firsts seen l <-> s ∈ l /\ s ∉ seen.
Proof.
  revert seen. induction l as [|x l IH]; intros seen; cbn [firsts]; [set_solver|].
  destruct (includes seen x) eqn:E; [apply includes_true in E|apply includes_false in E].
  - rewrite IH. set_solver.
  - rewrite !elem_of_cons, IH. destruct (decide (s = x)) as [-> |]; set_solver.
Qed.

Lemma statements_elem l s : s ∈ statements l <-> s ∈ map statement l.
Proof. unfold statements. rewrite firsts_elem. set_solver. Qed.

Lemma authorityExpansions_app l l' : authorityExpansions (l ++ l') = authorityExpansions l ++ authorityExpansions l'.
Proof. apply List.filter_app. Qed.

Lemma authorityExpansions_flat_map {A : Type} (f : A -> list SecurityChange) l :
  authorityExpansions (flat_map f l) = flat_map (fun x => authorityExpansions (f x)) l.
Proof. induction l as [|x l IH]; [done|]. cbn. by rewrite authorityExpansions_app, IH. Qed.

(** A limit is not widened: one that was established still is, and is not higher. *)
Definition limitKept (b a : Maybe Z) : Prop := forall x, known b = Some x -> exists y, known a = Some y /\ y <= x.

Lemma limit_expansions f lb b a : authorityExpansions (compareLimit f lb b a) = [] <-> limitKept b a.
Proof.
  unfold compareLimit, limitKept. destruct (known b) as [x|] eqn:Eb, (known a) as [y|] eqn:Ea; case_bool_decide as E; cbn.
  - injection E as ->. split; [intros _ z [= <-]; exists y; split; [done|lia]|done].
  - destruct (Z.ltb_spec x y); cbn; (split; [|]); try done.
    + intros H'. destruct (H' x eq_refl) as (z & [= <-] & Hz). lia.
    + intros _ z [= <-]. exists y. split; [done|lia].
  - done.
  - split; [done|]. intros H'. by destruct (H' x eq_refl) as (z & ? & _).
  - done.
  - by split.
  - by split.
  - done.
Qed.

Lemma missing_expansions l' l mk i : (forall s, impact (mk s) = i) ->
  authorityExpansions (missingFrom l' l mk) = [] <-> (i = AUTHORITY_EXPANDED -> forall s, s ∈ l -> s ∈ l').
Proof.
  intros Hi. unfold missingFrom. induction l as [|x l IH]; cbn; [split; [by intros _ _ s ?%elem_of_nil|done]|].
  destruct (includes l' x) eqn:E; cbn; [apply includes_true in E|apply includes_false in E].
  - rewrite IH. setoid_rewrite elem_of_cons. naive_solver.
  - rewrite Hi. case_bool_decide; [split; [done|]|rewrite IH; by split].
    intros H'. by destruct E; apply H'; [|left].
Qed.

Lemma adapter_expansions l a : authorityExpansions (adapterChange l a) = [].
Proof. unfold adapterChange, authorityExpansions. repeat case_match; done. Qed.

(** A source that was there asks for the same trust as before and has no new fallback. *)
Definition sourceKept (l : list ContextSource) (s : ContextSource) : Prop :=
  forall b, List.find (fun x => streq (cs_id x) (cs_id s)) l = Some b ->
    cs_minimumTrustClass b = cs_minimumTrustClass s /\ (fallbackAllowed s = true -> fallbackAllowed b = true).

Lemma source_expansions l s : authorityExpansions (sourceChange l s) = [] <-> sourceKept l s.
Proof.
  unfold sourceChange, sourceKept. destruct (List.find _ l) as [b|]; [|by split].
  rewrite authorityExpansions_app, app_nil. case_bool_decide as E.
  - destruct (fallbackAllowed s), (fallbackAllowed b) eqn:Eb; cbn; (split; [intros [_ H]|intros H]); try done;
      try (intros b' [= <-]; by split); try (by destruct (H b eq_refl) as [_ H']; specialize (H' eq_refl); congruence).
  - split; [by intros [? _]|]. intros H. by destruct (H b eq_refl).
Qed.

(** C23: the expansions the diff leads with are exactly these.  None is shown exactly when each of the three limits that was
    established still is and is not higher, no statement was added to what is allowed, none was taken from what is
    denied, and every context source that was there before asks for the same trust and allows no fallback it did
    not.  Whatever is widened among these shows; what is not among these does not. *)
Theorem expansions_iff b a : authorityExpansions (securityDiff b a) = [] <->
  limitKept (auto_maxValueUsdCents (autonomousPolicy b)) (auto_maxValueUsdCents (autonomousPolicy a)) /\
  limitKept (maxValueUsdCents (escalationPolicy b)) (maxValueUsdCents (escalationPolicy a)) /\
  limitKept (minValueUsdCents (escalationPolicy b)) (minValueUsdCents (escalationPolicy a)) /\
  (forall s, s ∈ map statement (allowedPermissions a) -> s ∈ map statement (allowedPermissions b)) /\
  (forall s, s ∈ map statement (deniedPermissions b) -> s ∈ map statement (deniedPermissions a)) /\
  (forall s, s ∈ contextSources a -> sourceKept (contextSources b) s).
Proof.
  unfold securityDiff. cbv zeta. rewrite !authorityExpansions_app, !app_nil, !limit_expansions, !authorityExpansions_flat_map.
  rewrite !flat_map_nil.
  do 2 (rewrite (missing_expansions _ _ _ AUTHORITY_EXPANDED) by done; rewrite (missing_expansions _ _ _ AUTHORITY_REDUCED) by done).
  setoid_rewrite source_expansions. setoid_rewrite statements_elem.
  assert (forall x, x ∈ adapters a -> authorityExpansions (adapterChange (adapters b) x) = []) by (intros; apply adapter_expansions).
  split.
  - intros (H1 & H2 & H3 & H4 & _ & H5 & _ & _ & H6). by split_and!; auto.
  - intros (H1 & H2 & H3 & H4 & H5 & H6). split_and!; auto; discriminate.
Qed.

End SecurityDiff.

Module DeployGate.
Import Network.Roles Network.Fences.

(** ** The gates of a deployment *)

Inductive GateStatus := G_PASS | G_FAIL | G_BLOCKED | G_NOT_RUN.
#[export] Instance GateStatus_eq_dec : EqDecision GateStatus.
Proof. solve_decision. Defined.
Record Gate := { g_label : string; g_status : GateStatus }.

Record DeployInputs := {
  architecturePassed : bool; securityTestsPassed : bool; creSimulationPassed : bool; realityTestPassed : bool; preflightPassed : bool;
  executionChainId : Z; runtimeImageDigest : option string; estimatedGas : option Z; walletBalanceWei : option Z; requiredBalanceWei : option Z
}.
Record DeployReadiness := {
  gates : list Gate; canDeploy : bool; blockedBy : list string; networkName : string; networkRole : option NetworkRole
}.

(** No caller names a blocker, so a gate that does not pass is FAIL. *)
Definition gate (label : string) (ok : bool) : Gate := {| g_label := label; g_status := if ok then G_PASS else G_FAIL |}.

Definition testnetChain (cid : Z) : bool :=
  match lookupNetwork cid with Some n => bool_decide (role n = TESTNET_EXECUTION) | None => false end.
Definition balanceOk (i : DeployInputs) : bool :=
  match walletBalanceWei i, requiredBalanceWei i with Some b, Some r => r <=? b | _, _ => false end.

Definition gatesOf (i : DeployInputs) : list Gate :=
  [gate "Architecture" (architecturePassed i); gate "Security tests" (securityTestsPassed i); gate "CRE simulation" (creSimulationPassed i);
   gate "Reality test" (realityTestPassed i); gate "Deployment preflight" (preflightPassed i);
   gate "Execution network" (testnetChain (executionChainId i)); gate "Runtime image" (bool_decide (is_Some (runtimeImageDigest i)));
   gate "Wallet balance" (balanceOk i); gate "Mainnet writes" true; gate "Policy" true].

Definition deployReadiness (i : DeployInputs) : DeployReadiness :=
  let blocked := map g_label (List.filter (fun g => negb (bool_decide (g_status g = G_PASS))) (gatesOf i)) in
  {| gates := gatesOf i; canDeploy := match blocked with [] => true | _ => false end; blockedBy := blocked;
     networkName := match lookupNetwork (executionChainId i) with Some n => name n | None => "chain " +:+ pretty (executionChainId i) end;
     networkRole := option_map role (lookupNetwork (executionChainId i)) |}.

(** ** What it costs *)

Definition DEPLOY_SAFETY_BUFFER_PERCENT : Z := 20.
Record DeploymentCost := {
  estimatedWei : Z; safetyBufferPercent : Z; recommendedWei : Z; currentBalanceWei : option Z; asset : string; perActionEstimateWei : option Z
}.
(** [None] is the schema's refusal: the four amounts are written as digits, without a sign. *)
Definition costBreakdown (gas gasPriceWei : Z) (balance : option Z) (cid : Z) (perActionGas : option Z) : option DeploymentCost :=
  let wei := gas * gasPriceWei in
  if (gas <? 0) || (wei <? 0) || match balance with Some b => b <? 0 | None => false end then None else
  Some {| estimatedWei := wei; safetyBufferPercent := DEPLOY_SAFETY_BUFFER_PERCENT;
     recommendedWei := wei * (100 + DEPLOY_SAFETY_BUFFER_PERCENT) / 100; currentBalanceWei := balance;
     asset := match lookupNetwork cid with Some n => name n +:+ " " +:+ nativeSymbol n | None => "chain " +:+ pretty cid +:+ " ETH" end;
     perActionEstimateWei := match perActionGas with Some g => if g =? 0 then None else Some (g * gasPriceWei) | None => None end |}.

(** ** The activation *)

Inductive ActivationCheck :=
| DEPLOYMENT_VERIFIED | CURRENT_REVISION | RUNTIME_HEALTHY | CRE_MODE_CONFIRMED | DATA_REQUIREMENTS_MET | NO_CRITICAL_DRIFT
| TESTNET_SIGNER_PRESENT | MAINNET_FENCES_INTACT.
#[export] Instance ActivationCheck_eq_dec : EqDecision ActivationCheck.
Proof. solve_decision. Defined.
Definition ACTIVATION_CHECKS : list ActivationCheck :=
  [DEPLOYMENT_VERIFIED; CURRENT_REVISION; RUNTIME_HEALTHY; CRE_MODE_CONFIRMED; DATA_REQUIREMENTS_MET; NO_CRITICAL_DRIFT;
   TESTNET_SIGNER_PRESENT; MAINNET_FENCES_INTACT].

Record CheckOutcome := { passed : bool; detail : string }.
Record ActivationResult := { checks : list (ActivationCheck * CheckOutcome); policyEnabled : bool; verifiedAtBlock : option string }.

(** The call that enables the policy and the read of it, in the order they are made. *)
Inductive ChainCall := EnablePolicy | ReadPolicy.
#[export] Instance ChainCall_eq_dec : EqDecision ChainCall.
Proof. solve_decision. Defined.

Inductive ActivationError :=
| ProductionNetwork | Fenced (e : NetworkGuardError) | ChecksFailed (l : list ActivationCheck) | CallThrew (c : ChainCall) (message : string)
| NotVerifiedFromChain (block : string).

(** The chain: what enabling answers, and what the read after it reports, enabled and the block. *)
Record Chain := { enableAnswer : result string unit; readAnswer : result string (bool * string) }.

Section activation.
Variable check : ActivationCheck -> CheckOutcome.

Definition failedChecks : list ActivationCheck := List.filter (fun c => negb (passed (check c))) ACTIVATION_CHECKS.

Definition activate (cid : Z) (chain : Chain) : list ChainCall * result ActivationError ActivationResult :=
  if isProductionChain cid then ([], Err ProductionNetwork)
  else match fenceWriteByChain DEPLOYMENT_PREFLIGHT cid None None with
       | Err e => ([], Err (Fenced e))
       | Ok _ =>
           match failedChecks with
           | [] =>
               match enableAnswer chain with
               | Err m => ([EnablePolicy], Err (CallThrew EnablePolicy m))
               | Ok _ =>
                   ([EnablePolicy; ReadPolicy],
                    match readAnswer chain with
                    | Err m => Err (CallThrew ReadPolicy m)
                    | Ok (false, b) => Err (NotVerifiedFromChain b)
                    | Ok (true, b) =>
                        Ok {| checks := map (fun c => (c, check c)) ACTIVATION_CHECKS; policyEnabled := true; verifiedAtBlock := Some b |}
                    end)
               end
           | l => ([], Err (ChecksFailed l))
           end
       end.
End activation.

(** ** The screen before it *)

Record ActivationReadinessInput := {
  contractsVerified : bool; runtimeHealthy : bool; creSimulatorHealthy : bool; realityDataHealthy : bool; r_policyEnabled : bool;
  r_executionChainId : Z
}.
Inductive RowStatus := READY | NOT_READY | STATEMENT.
#[export] Instance RowStatus_eq_dec : EqDecision RowStatus.
Proof. solve_decision. Defined.
Record Row := { row_label : string; row_value : string; row_status : RowStatus }.
Record ActivationReadiness := { rows : list Row; canActivate : bool; r_blockedBy : list string }.

Definition row (label : string) (ok : bool) (yes no : string) : Row :=
  {| row_label := label; row_value := if ok then yes else no; row_status := if ok then READY else NOT_READY |}.
Definition rowsOf (i : ActivationReadinessInput) : list Row :=
  [row "Contracts" (contractsVerified i) "VERIFIED" "NOT VERIFIED"; row "Runtime" (runtimeHealthy i) "HEALTHY" "NOT HEALTHY";
   row "CRE" (creSimulatorHealthy i) "SIMULATOR HEALTHY" "SIMULATOR NOT HEALTHY"; row "Reality data" (realityDataHealthy i) "HEALTHY" "DEGRADED";
   row "Policy" (negb (r_policyEnabled i)) "DISABLED" "ALREADY ENABLED";
   let production := isProductionChain (r_executionChainId i) in
   {| row_label := "Mainnet execution"; row_value := if production then "POSSIBLE — STOP" else "IMPOSSIBLE";
      row_status := if production then NOT_READY else STATEMENT |}].
Definition activationReadiness (i : ActivationReadinessInput) : ActivationReadiness :=
  let blocked := map row_label (List.filter (fun r => bool_decide (row_status r = NOT_READY)) (rowsOf i)) in
  {| rows := rowsOf i; canActivate := match blocked with [] => true | _ => false end; r_blockedBy := blocked |}.

(** ** The test assets *)

Record TokenRequirementsInput := { tr_executionChainId : Z; spendsAssets : list string; needsNativeGas : bool }.
Definition nativeOf (cid : Z) : string := match lookupNetwork cid with Some n => nativeSymbol n | None => "ETH" end.
Fixpoint newSymbols (seen l : list string) : list string :=
  match l with
  | [] => []
  | s :: l' => let k := to_upper s in if includes seen k then newSymbols seen l' else s :: newSymbols (k :: seen) l'
  end.
(** The symbols of the rows. *)
Definition tokenRequirements (i : TokenRequirementsInput) : list string :=
  let native := nativeOf (tr_executionChainId i) in
  (if needsNativeGas i then [native] else []) ++ newSymbols [to_upper native] (spendsAssets i).

(** ** Two decisions *)

Lemma failedChecks_nil check : failedChecks check = [] <-> forall c, passed (check c) = true.
Proof.
  unfold failedChecks. split.
  - intros H c. destruct (passed (check c)) eqn:E; [done|]. exfalso.
    assert (c ∈ List.filter (fun c => negb (passed (check c))) ACTIVATION_CHECKS) as Hc; [|rewrite H in Hc; by apply elem_of_nil in Hc].
    apply list_elem_of_In, filter_In. rewrite <- list_elem_of_In, E. split; [apply includes_true; by destruct c|done].
  - intros H. induction ACTIVATION_CHECKS as [|c l IH]; [done|]. cbn. by rewrite H.
Qed.

(** What has to hold before the policy may be touched. *)
Definition mayEnable (check : ActivationCheck -> CheckOutcome) (cid : Z) : Prop :=
  cid ∈ writableChains /\ forall c, passed (check c) = true.

Lemma writable_not_production cid : cid ∈ writableChains -> isProductionChain cid = false.
Proof. unfold writableChains. rewrite !elem_of_cons, elem_of_nil. intros [-> | [-> | [-> | []]]]; reflexivity. Qed.

(** C22: the policy is enabled last, and only when everything before it passed.  The call that enables it is made exactly when
    the chain is one of the three that may be written to and all eight checks passed; it is never made twice, and nothing is
    read before it; and the activation succeeds exactly when, on top, the call returned and a read of the chain
    after it says that the policy is enabled, at the block that read names.  A refusal before touches nothing. *)
Theorem activate_order check cid chain : let '(calls, r) := activate check cid chain in
  (EnablePolicy ∈ calls <-> mayEnable check cid) /\ calls `prefix_of` [EnablePolicy; ReadPolicy] /\
  (forall a, r = Ok a <-> mayEnable check cid /\ enableAnswer chain = Ok tt /\ (exists b, readAnswer chain = Ok (true, b) /\
     a = {| checks := map (fun c => (c, check c)) ACTIVATION_CHECKS; policyEnabled := true; verifiedAtBlock := Some b |})).
Proof.
  unfold activate, mayEnable.
  destruct (decide (cid ∈ writableChains)) as [Hw|Hw].
  - rewrite (writable_not_production cid Hw), (fenceWriteByChain_ok _ _ _ _ Hw).
    destruct (failedChecks check) as [|f l] eqn:Ef.
    + assert (Hall := proj1 (failedChecks_nil check) Ef). destruct (enableAnswer chain) as [[]|m] eqn:Ee.
      * split_and!; [split; [done|intros _; left]|done|]. intros a.
        destruct (readAnswer chain) as [[[] b]|m] eqn:Er; naive_solver.
      * split_and!; [split; [done|intros _; left]|by exists [ReadPolicy]|]. naive_solver.
    + assert (~ forall c, passed (check c) = true) as Hn by (rewrite <- failedChecks_nil; congruence).
      split_and!; [split; [by intros ?%elem_of_nil|naive_solver]|by eexists|naive_solver].
  - rewrite (fenceWriteByChain_refused _ _ _ _ Hw).
    destruct (isProductionChain cid); (split_and!; [split; [by intros ?%elem_of_nil|naive_solver]|by eexists|naive_solver]).
Qed.

Lemma gatesOf_blocked l : map g_label (List.filter (fun g => negb (bool_decide (g_status g = G_PASS))) l) = [] <->
  forall g, g ∈ l -> g_status g = G_PASS.
Proof.
  induction l as [|g l IH]; cbn; [split; [by intros _ g ?%elem_of_nil|done]|].
  setoid_rewrite elem_of_cons. case_bool_decide; cbn; [rewrite IH; naive_solver|]. split; [done|]. naive_solver.
Qed.

Lemma testnetChain_true cid : testnetChain cid = true -> cid ∈ writableChains.
Proof.
  unfold testnetChain. destruct (lookupNetwork cid) as [n|] eqn:E; [|done]. intros Hr%bool_decide_eq_true.
  apply (lookup_writable cid n E). by rewrite Hr.
Qed.

(** A deployment is offered exactly when every gate passes: the design, the tests, the simulation, the reality test and the
    preflight passed, the chain is a public testnet of the registry, an image was built, and the wallet holds what is
    required.  Every gate that does not pass is named, not only the first; and a chain that a deployment is offered
    for is one that the fences let through. *)
Theorem deploy_iff i : let d := deployReadiness i in
  (canDeploy d = true <->
     architecturePassed i = true /\ securityTestsPassed i = true /\ creSimulationPassed i = true /\ realityTestPassed i = true /\
     preflightPassed i = true /\ testnetChain (executionChainId i) = true /\ is_Some (runtimeImageDigest i) /\ balanceOk i = true) /\
  (forall g, g ∈ gates d -> g_status g <> G_PASS -> g_label g ∈ blockedBy d) /\
  (canDeploy d = true -> forall f, fenceWriteByChain f (executionChainId i) None None = Ok tt).
Proof.
  assert (Hc : canDeploy (deployReadiness i) = true <-> forall g, g ∈ gatesOf i -> g_status g = G_PASS).
  { rewrite <- gatesOf_blocked. unfold deployReadiness. cbn [canDeploy]. case_match eqn:E; by rewrite ?E; split. }
  assert (Hg : forall b l, g_status (gate l b) = G_PASS <-> b = true) by (intros [] l; by split).
  assert (Hiff : canDeploy (deployReadiness i) = true <->
     architecturePassed i = true /\ securityTestsPassed i = true /\ creSimulationPassed i = true /\ realityTestPassed i = true /\
     preflightPassed i = true /\ testnetChain (executionChainId i) = true /\ is_Some (runtimeImageDigest i) /\ balanceOk i = true).
  { rewrite Hc, <- Forall_forall. unfold gatesOf. generalize (testnetChain (executionChainId i)) (balanceOk i). intros t w.
    rewrite !Forall_cons, Forall_nil, !Hg, bool_decide_eq_true. tauto. }
  split; [exact Hiff|]. split.
  - intros g Hin Hne. cbn [blockedBy deployReadiness]. apply list_elem_of_fmap_2, list_elem_of_In, filter_In.
    rewrite <- list_elem_of_In. split; [exact Hin|]. by rewrite bool_decide_eq_false_2.
  - intros H f. apply Hiff in H as (_ & _ & _ & _ & _ & Ht & _). by apply fenceWriteByChain_ok, testnetChain_true.
Qed.

Lemma rowsOf_blocked l : map row_label (List.filter (fun r => bool_decide (row_status r = NOT_READY)) l) = [] <->
  forall r, r ∈ l -> row_status r <> NOT_READY.
Proof.
  induction l as [|r l IH]; cbn; [split; [by intros _ r ?%elem_of_nil|done]|].
  setoid_rewrite elem_of_cons. case_bool_decide; cbn; [split; [done|naive_solver]|rewrite IH; naive_solver].
Qed.

(** The button is offered exactly when the contracts are verified, the runtime, the simulator and the data are healthy, the
    policy is still disabled, and the chain is not a known production one.  On a chain of the registry the fences
    then let the activation through; on any other the screen says that execution on mainnet is impossible and
    offers the button, and the activation refuses. *)
Theorem readiness_iff i check chain : let d := activationReadiness i in
  (canActivate d = true <->
     contractsVerified i = true /\ runtimeHealthy i = true /\ creSimulatorHealthy i = true /\ realityDataHealthy i = true /\
     r_policyEnabled i = false /\ isProductionChain (r_executionChainId i) = false) /\
  (canActivate d = true -> lookupNetwork (r_executionChainId i) <> None -> (forall c, passed (check c) = true) ->
     EnablePolicy ∈ fst (activate check (r_executionChainId i) chain)) /\
  (canActivate d = true -> r_executionChainId i ∉ writableChains ->
     activate check (r_executionChainId i) chain = ([], Err (Fenced (guardError NOT_APPROVED (r_executionChainId i))))).
Proof.
  cbv zeta.
  assert (Hiff : canActivate (activationReadiness i) = true <->
     contractsVerified i = true /\ runtimeHealthy i = true /\ creSimulatorHealthy i = true /\ realityDataHealthy i = true /\
     r_policyEnabled i = false /\ isProductionChain (r_executionChainId i) = false).
  { assert (canActivate (activationReadiness i) = true <-> forall r, r ∈ rowsOf i -> row_status r <> NOT_READY) as ->.
    { rewrite <- rowsOf_blocked. unfold activationReadiness. cbn [canActivate]. case_match eqn:E; by rewrite ?E; split. }
    rewrite <- Forall_forall. unfold rowsOf. generalize (isProductionChain (r_executionChainId i)). intros prod.
    assert (Hr : forall l b y n, row_status (row l b y n) <> NOT_READY <-> b = true) by (intros l [] y n; by split).
    rewrite !Forall_cons, Forall_nil, !Hr, negb_true_iff. destruct prod; cbn; naive_solver. }
  split; [exact Hiff|]. split.
  - intros (_ & _ & _ & _ & _ & Hp)%Hiff Hl Hall.
    assert (Hw : r_executionChainId i ∈ writableChains).
    { destruct (lookupNetwork (r_executionChainId i)) as [n|] eqn:E; [|done]. apply (lookup_writable _ n E). intros Hr.
      by rewrite (lookup_readonly _ n E Hr) in Hp. }
    unfold activate. rewrite Hp, (fenceWriteByChain_ok _ _ _ _ Hw), (proj2 (failedChecks_nil check) Hall).
    destruct (enableAnswer chain); left.
  - intros (_ & _ & _ & _ & _ & Hp)%Hiff Hw. unfold activate. by rewrite Hp, (fenceWriteByChain_refused _ _ _ _ Hw), Hp.
Qed.

Lemma newSymbols_spec seen l :
  (forall s, s ∈ l -> to_upper s ∈ seen \/ exists r, r ∈ newSymbols seen l /\ to_upper r = to_upper s) /\
  NoDup (map to_upper (newSymbols seen l)) /\ (forall r, r ∈ newSymbols seen l -> to_upper r ∉ seen /\ r ∈ l).
Proof.
  revert seen. induction l as [|x l IH]; intros seen; cbn [newSymbols].
  { split_and!; [by intros s ?%elem_of_nil|constructor|by intros r ?%elem_of_nil]. }
  destruct (includes seen (to_upper x)) eqn:E; [apply includes_true in E|apply includes_false in E].
  - destruct (IH seen) as (H1 & H2 & H3). split_and!; [|done|naive_solver (set_solver)].
    intros s [-> | Hs]%elem_of_cons; [by left|by apply H1].
  - destruct (IH (to_upper x :: seen)) as (H1 & H2 & H3). split_and!.
    + intros s [-> | Hs]%elem_of_cons; [right; exists x; split; [left|done]|].
      destruct (H1 s Hs) as [[Hu|Hu]%elem_of_cons | (r & Hr & Eu)]; [|by left|].
      * right. exists x. split; [left|done].
      * right. exists r. split; [by right|done].
    + cbn. constructor; [|done]. intros (r & Er & Hr)%list_elem_of_fmap. destruct (H3 r Hr) as [Hn _]. apply Hn. rewrite <- Er. left.
    + intros r [-> | Hr]%elem_of_cons; [split; [done|left]|]. destruct (H3 r Hr) as [Hn Hl]. set_solver.
Qed.

(** The list of test assets has one row for each asset, whatever the case it is written in, and every asset the strategy
    spends is on it, but for the chain's own one when no gas is asked for; and nothing is on it that the strategy does
    not spend, but for the gas. *)
Theorem token_rows i :
  NoDup (map to_upper (tokenRequirements i)) /\
  (forall s, s ∈ spendsAssets i -> (exists r, r ∈ tokenRequirements i /\ to_upper r = to_upper s) \/
     (needsNativeGas i = false /\ to_upper s = to_upper (nativeOf (tr_executionChainId i)))) /\
  (forall r, r ∈ tokenRequirements i -> r ∈ spendsAssets i \/ (needsNativeGas i = true /\ r = nativeOf (tr_executionChainId i))).
Proof.
  unfold tokenRequirements. generalize (nativeOf (tr_executionChainId i)). intros n.
  destruct (newSymbols_spec [to_upper n] (spendsAssets i)) as (H1 & H2 & H3). destruct (needsNativeGas i); cbn [app].
  - split_and!.
    + cbn. constructor; [|done]. intros (r & Er & Hr)%list_elem_of_fmap. destruct (H3 r Hr) as [Hn _]. apply Hn. rewrite <- Er. left.
    + intros s Hs. left. destruct (H1 s Hs) as [E%list_elem_of_singleton | (r & Hr & Er)]; [exists n|exists r]; (split; [set_solver|done]).
    + intros r [-> | Hr]%elem_of_cons; [by right|left; by apply H3].
  - split_and!; [done| |intros r Hr; left; by apply H3].
    intros s Hs. destruct (H1 s Hs) as [E%list_elem_of_singleton | (r & Hr & Er)]; [by right|left; by exists r].
Qed.

(** The recommended balance is the estimate with a fifth on top, rounded down to the wei and never below the estimate. *)
Theorem cost_buffer gas price balance cid act c : costBreakdown gas price balance cid act = Some c ->
  estimatedWei c = gas * price /\ estimatedWei c <= recommendedWei c /\
  100 * recommendedWei c <= 120 * estimatedWei c < 100 * recommendedWei c + 100.
Proof.
  unfold costBreakdown, DEPLOY_SAFETY_BUFFER_PERCENT. destruct (Z.ltb_spec gas 0), (Z.ltb_spec (gas * price) 0); cbn; try done.
  case_match; [done|]. intros [= <-]. cbn [estimatedWei recommendedWei]. split; [done|].
  revert H0. generalize (gas * price). intros w Hw. change (100 + 20) with 120.
  pose proof (Z.div_mod (w * 120) 100 ltac:(lia)). pose proof (Z.mod_pos_bound (w * 120) 100 ltac:(lia)). lia.
Qed.

End DeployGate.

(** Concrete projects, changes and activations. *)
Module LabSamples.
Import Deploy.Machine Monitor.RuntimeHealth Monitor.Cre Lifecycle Blueprint.Unknown Blueprint.Schema SecurityDiff.

Definition live (b : option Build) (lock : bool) (d : option DeploymentState) (r : option RuntimeState) (c : option CreState) (on : bool) : LabInputs :=
  {| build := b; deterministicSimulationsPassed := true; creSimulationPassed := true; preflightPassed := true; deployment := d; runtime := r; Lifecycle.cre := c;
     policy := Some {| enabled := on; observedAtBlock := Some "100"; observedAtMs := 1; source := "read" |}; emergencyLockActive := lock;
     degradedDependencies := [] |}.
Definition done_ : option Build := Some {| stage := EXPORT_READY; b_status := COMPLETED |}.
Definition shown (i : LabInputs) : LabProjectState * bool := (l_state (projectLabState i), hasFinancialAuthority (projectLabState i)).

(** The policy is enabled on chain, and the projection says that there is no financial authority: behind a lock, with a deployment
    that failed after it, and with a build that was abandoned after it. *)
Example authority_denied : map (fun i => (policyEnabled i, shown i))
    [live done_ true (Some READY_TO_ACTIVATE) (Some RS_HEALTHY) (Some C_ACTIVE) true;
     live done_ false (Some DEPLOYMENT_PAUSED_USER) (Some RS_HEALTHY) (Some C_ACTIVE) true;
     live (Some {| stage := Lifecycle.BUILD; b_status := ABANDONED |}) false (Some READY_TO_ACTIVATE) (Some RS_HEALTHY) (Some C_ACTIVE) true] =
  [(true, (L_EMERGENCY_LOCKED, false)); (true, (L_FAILED, false)); (true, (L_FAILED, false))].
Proof. vm_compute. reflexivity. Qed.

(** A runtime that was never seen, or is only starting, and a workflow that was never deployed count as healthy. *)
Example active_unseen : map shown
    [live done_ false (Some READY_TO_ACTIVATE) None None true; live done_ false (Some READY_TO_ACTIVATE) (Some STARTING) None true] =
  [(L_LAB_ACTIVE, true); (L_LAB_ACTIVE, true)] /\
  because (projectLabState (live done_ false (Some READY_TO_ACTIVATE) None None true)) = AllHealthy.
Proof. vm_compute. split; reflexivity. Qed.

(** The authority is claimed outside of LAB_ACTIVE too. *)
Example authority_while_paused : shown (live done_ false (Some READY_TO_ACTIVATE) (Some PAUSED) (Some C_ACTIVE) true) = (L_PAUSED, true) /\
  shown (live done_ false (Some READY_TO_ACTIVATE) (Some CRASH_LOOP) (Some C_ACTIVE) true) = (L_DEGRADED, true).
Proof. vm_compute. split; reflexivity. Qed.

Definition base : Blueprint := Blueprint.Samples.bp.
Definition sourcesAt (t : Adapters.Trust.DataTrustClass) (l : list AdapterBinding) (acts : list Action) : Blueprint :=
  {| blueprintId := blueprintId base; revision := revision base; createdAt := createdAt base; identity := identity base; objective := objective base;
     protocols := protocols base; assets := assets base; triggers := triggers base; actions := acts; allowedPermissions := allowedPermissions base;
     deniedPermissions := deniedPermissions base; autonomousPolicy := autonomousPolicy base; escalationPolicy := escalationPolicy base;
     perActionLimits := perActionLimits base; confidentialPolicy := confidentialPolicy base;
     contextSources := map (fun s => {| cs_id := cs_id s; dataKind := dataKind s; cs_minimumTrustClass := t; cs_maxAgeMs := cs_maxAgeMs s;
                                        fallbackAllowed := fallbackAllowed s; cs_placement := cs_placement s |}) (contextSources base);
     adapters := l; dataRequirements := dataRequirements base; capabilityPolicy := capabilityPolicy base; ens := ens base; cre := Schema.cre base;
     ledger := ledger base; execution := execution base; simulationScenarios := simulationScenarios base; generatedModules := generatedModules base;
     securityAssertions := securityAssertions base |}.
Definition atTrust (t : Adapters.Trust.DataTrustClass) : Blueprint := sourcesAt t (adapters base) (actions base).

(** Asking for more trust is an expansion as much as asking for less. *)
Example stricter_is_expanded :
  map impact (securityDiff (atTrust Adapters.Trust.USER_UNTRUSTED) (atTrust Adapters.Trust.VERIFIED_ORACLE)) = [AUTHORITY_EXPANDED] /\
  map impact (securityDiff (atTrust Adapters.Trust.VERIFIED_ORACLE) (atTrust Adapters.Trust.USER_UNTRUSTED)) = [AUTHORITY_EXPANDED].
Proof. vm_compute. split; reflexivity. Qed.

Definition anyone : Action :=
  {| a_id := "repay"; a_kind := "AAVE_REPAY"; a_displayName := "Repay debt"; a_protocolRef := "aave"; targetPolicy := ArbitraryTarget "any contract";
     recipientPolicy := ArbitraryRecipient "anyone at all"; spendsAssets := ["USDC"; "WETH"]; approvals := [] |}.
(** An action that may now call any contract for any recipient, and an adapter that is gone, are no change at all. *)
Example open_action_unseen : securityDiff base (sourcesAt Adapters.Trust.VERIFIED_ORACLE [] [anyone]) = [].
Proof. vm_compute. reflexivity. Qed.

Definition ready (cid : Z) : DeployGate.ActivationReadinessInput :=
  {| DeployGate.contractsVerified := true; DeployGate.runtimeHealthy := true; DeployGate.creSimulatorHealthy := true; DeployGate.realityDataHealthy := true;
     DeployGate.r_policyEnabled := false; DeployGate.r_executionChainId := cid |}.
Definition ok_ (c : DeployGate.ActivationCheck) : DeployGate.CheckOutcome := {| DeployGate.passed := true; DeployGate.detail := "ok" |}.
Definition answering (r : result string (bool * string)) : DeployGate.Chain := {| DeployGate.enableAnswer := Ok tt; DeployGate.readAnswer := r |}.
(** On a chain nobody registered the button is offered, and the activation refuses. *)
Example button_on_unknown_chain : DeployGate.canActivate (DeployGate.activationReadiness (ready 12345)) = true /\
  map DeployGate.row_value (DeployGate.rows (DeployGate.activationReadiness (ready 12345))) = ["VERIFIED"; "HEALTHY"; "SIMULATOR HEALTHY"; "HEALTHY"; "DISABLED"; "IMPOSSIBLE"] /\
  fst (DeployGate.activate ok_ 12345 (answering (Ok (true, "100")))) = [].
Proof. vm_compute. repeat split; reflexivity. Qed.

(** Once the call was made, a read that fails or says no ends the activation with an error and nothing is taken back. *)
Example enabled_and_refused : DeployGate.activate ok_ 11155111 (answering (Err "timeout")) =
    ([DeployGate.EnablePolicy; DeployGate.ReadPolicy], Err (DeployGate.CallThrew DeployGate.ReadPolicy "timeout")) /\
  DeployGate.activate ok_ 11155111 (answering (Ok (false, "100"))) =
    ([DeployGate.EnablePolicy; DeployGate.ReadPolicy], Err (DeployGate.NotVerifiedFromChain "100")).
Proof. vm_compute. split; reflexivity. Qed.

Definition cost : DeployGate.DeploymentCost :=
  {| DeployGate.estimatedWei := 37; DeployGate.safetyBufferPercent := 20; DeployGate.recommendedWei := 44; DeployGate.currentBalanceWei := None;
     DeployGate.asset := "Ethereum Sepolia ETH"; DeployGate.perActionEstimateWei := None |}.
Lemma cost_buffer_witness : 100 * DeployGate.recommendedWei cost <= 120 * DeployGate.estimatedWei cost.
Proof. exact (proj1 (proj2 (proj2 (DeployGate.cost_buffer 37 1 None 11155111 None cost eq_refl)))). Defined.

End LabSamples.
