(* ===== verification/AttackLab.v ===== *)
(** * The attack lab and the safety report

    The parts of [packages/studio-lab/src] that say whether an agent is safe.  Module [Path] is [attack-lab.ts]: the
    layers, the catalogue of attacks and the assembly of a run.  Module [Runner] is [attack-runner.ts]: each attack put to the
    guard it is meant for, which are [Policy.evaluatePolicy], the fences of [Network] and [Reality], the snapshots and readings of [Reality],
    and the digest of [Capability].  Module [Report] is the hash, the privacy claims and the public view of
    [safety-report.ts].  Module [AttackSamples] has the concrete cases.

    The sentences of a path and the values shown in a diff are not modelled, a diff is the names of its fields.  The
    scan of a report for secrets is not modelled.  viem's hashes, SHA-256 and [localeCompare] are parameters. *)

From S2P Require Import Prelude JsNum Regex Json JsonParse Network Capability Adapters Blueprint Workflow Reality Policy.
From stdpp Require Import pretty sorting.
From Stdlib Require Import Ascii Lqa.
Local Open Scope Z_scope.

Module Path.

Inductive SecurityLayer :=
| PROMPT | REQUIREMENTS | BLUEPRINT | STRATEGY_COMPILER | EXECUTION_PLANNER | ADAPTER_RESOLVER | REALITY_ENGINE | CRE_SIMULATION
| CONTEXTLOCK_POLICY | CAPABILITY_ISSUER | SIGNER | RELAYER | RPC_TRANSPORT | EXECUTOR.
#[export] Instance SecurityLayer_eq_dec : EqDecision SecurityLayer.
Proof. solve_decision. Defined.
Definition SECURITY_LAYERS : list SecurityLayer :=
  [PROMPT; REQUIREMENTS; BLUEPRINT; STRATEGY_COMPILER; EXECUTION_PLANNER; ADAPTER_RESOLVER; REALITY_ENGINE; CRE_SIMULATION;
   CONTEXTLOCK_POLICY; CAPABILITY_ISSUER; SIGNER; RELAYER; RPC_TRANSPORT; EXECUTOR].

Inductive LayerOutcome := PASS | LO_DENY | NOT_REACHED | NOT_APPLICABLE.
#[export] Instance LayerOutcome_eq_dec : EqDecision LayerOutcome.
Proof. solve_decision. Defined.
Record SecurityPathStep := { layer : SecurityLayer; outcome : LayerOutcome; step_reason : option string }.

Inductive AttackScenario :=
| PROMPT_INJECTION | AMOUNT_MUTATION | RECIPIENT_MUTATION | TARGET_MUTATION | REPLAY | EXPIRED_CAPABILITY | ENS_REVOCATION | POLICY_CHANGE
| STALE_ORACLE | ORACLE_DISAGREEMENT | GRAPH_STALENESS | CRE_SIMULATOR_FAILURE | RUNTIME_COMPROMISE | WRONG_CHAIN
| MAINNET_WRITE_ATTEMPT | CROSS_AGENT_FAKE_APPROVAL | CCIP_WRONG_DESTINATION.
#[export] Instance AttackScenario_eq_dec : EqDecision AttackScenario.
Proof. solve_decision. Defined.
Inductive AppliesWhen := ALWAYS | HAS_RECIPIENT | HAS_ORACLE | HAS_CCIP | HAS_ENS | HAS_CRE | HAS_GRAPH | MULTI_AGENT.

(** Without the description and the mutated field, texts. *)
Record AttackDefinition := {
  scenario : AttackScenario; title : string; expectedStoppedBy : SecurityLayer; expectedReasonCode : string; appliesWhen : AppliesWhen
}.
Definition attack (s : AttackScenario) (t : string) (l : SecurityLayer) (r : string) (w : AppliesWhen) : AttackDefinition :=
  {| scenario := s; title := t; expectedStoppedBy := l; expectedReasonCode := r; appliesWhen := w |}.
Definition ATTACKS : list AttackDefinition :=
  [attack PROMPT_INJECTION "Prompt injection" CONTEXTLOCK_POLICY "RECIPIENT_NOT_ALLOWED" ALWAYS;
   attack AMOUNT_MUTATION "Amount mutation" CONTEXTLOCK_POLICY "DENY_AMOUNT_TOO_HIGH" ALWAYS;
   attack RECIPIENT_MUTATION "Recipient mutation" CONTEXTLOCK_POLICY "RECIPIENT_NOT_ALLOWED" HAS_RECIPIENT;
   attack TARGET_MUTATION "Target contract mutation" CONTEXTLOCK_POLICY "TARGET_NOT_ALLOWED" ALWAYS;
   attack REPLAY "Capability replay" EXECUTOR "AuthorizationAlreadyUsed" ALWAYS;
   attack EXPIRED_CAPABILITY "Expired capability" EXECUTOR "AuthorizationStale" ALWAYS;
   attack ENS_REVOCATION "Revoked agent identity" CAPABILITY_ISSUER "AGENT_IDENTITY_REVOKED" HAS_ENS;
   attack POLICY_CHANGE "Policy changed mid-flight" EXECUTOR "PolicyVersionMismatch" ALWAYS;
   attack STALE_ORACLE "Stale oracle" REALITY_ENGINE "NO_VALID_CONTEXT" HAS_ORACLE;
   attack ORACLE_DISAGREEMENT "Sources disagree" REALITY_ENGINE "SOURCE_DISAGREEMENT" HAS_ORACLE;
   attack GRAPH_STALENESS "Indexer falls behind" REALITY_ENGINE "MARKET_SOURCE_TOO_SLOW_FOR_POLICY" HAS_GRAPH;
   attack CRE_SIMULATOR_FAILURE "CRE evaluation unavailable" CRE_SIMULATION "CRE_EVALUATION_UNAVAILABLE" HAS_CRE;
   attack RUNTIME_COMPROMISE "Compromised runtime" CONTEXTLOCK_POLICY "DENY_AMOUNT_TOO_HIGH" ALWAYS;
   attack WRONG_CHAIN "Wrong execution chain" EXECUTOR "ChainMismatch" ALWAYS;
   attack MAINNET_WRITE_ATTEMPT "Mainnet write attempt" STRATEGY_COMPILER "PRODUCTION_NETWORK_WRITE_PROHIBITED" ALWAYS;
   attack CROSS_AGENT_FAKE_APPROVAL "Forged peer approval" CAPABILITY_ISSUER "APPROVAL_SIGNATURE_INVALID" MULTI_AGENT;
   attack CCIP_WRONG_DESTINATION "Wrong cross-chain destination" EXECUTION_PLANNER "DESTINATION_NOT_APPROVED" HAS_CCIP].

Section applicable.
Import Adapters.Trust Blueprint.Schema.
Definition applies (bp : Blueprint) (w : AppliesWhen) : bool :=
  match w with
  | ALWAYS => true
  | HAS_ORACLE => some (fun s => bool_decide (cs_minimumTrustClass s = VERIFIED_ORACLE \/ cs_minimumTrustClass s = CONFIDENTIAL_VERIFIED_COMPUTE)) (contextSources bp) ||
                  some (fun a => bool_decide (ab_role a = VERIFIED_MARKET_DATA)) (adapters bp)
  | HAS_GRAPH => some (fun a => starts_with "thegraph" (adapterId a)) (adapters bp)
  | HAS_CCIP => some (fun a => bool_decide (ab_role a = CROSS_CHAIN)) (adapters bp)
  | HAS_ENS => ens_required (ens bp)
  | HAS_CRE => cre_required (cre bp)
  | HAS_RECIPIENT => some (fun a => match recipientPolicy a with SelfOnly => false | _ => true end) (actions bp)
  | MULTI_AGENT => false
  end.
Definition applicableAttacks (bp : Blueprint) : list AttackDefinition := List.filter (fun a => applies bp (appliesWhen a)) ATTACKS.
End applicable.

(** ** The path *)

Record Observed := { o_layer : SecurityLayer; o_outcome : LayerOutcome; o_reason : option string }.
(** The map: the last observation of a layer. *)
Definition seen (l : list Observed) (x : SecurityLayer) : option Observed := List.find (fun o => bool_decide (o_layer o = x)) (rev l).

(** The loop over the layers, with the flag. *)
Fixpoint steps (l : list Observed) (denied : bool) (layers : list SecurityLayer) : list SecurityPathStep :=
  match layers with
  | [] => []
  | x :: rest =>
      match seen l x with
      | None => steps l denied rest
      | Some o =>
          if denied then {| layer := x; outcome := NOT_REACHED; step_reason := None |} :: steps l denied rest
          else {| layer := x; outcome := o_outcome o; step_reason := o_reason o |} :: steps l (bool_decide (o_outcome o = LO_DENY)) rest
      end
  end.
Definition buildSecurityPath (l : list Observed) : list SecurityPathStep := steps l false SECURITY_LAYERS.

(** ** Runs *)

Inductive RunResult := DENIED | ALLOWED | NOT_RUN.
#[export] Instance RunResult_eq_dec : EqDecision RunResult.
Proof. solve_decision. Defined.
Record AttackRun := {
  r_scenario : AttackScenario; r_result : RunResult; stoppedBy : option SecurityLayer; r_reasonCode : option string;
  stoppedWhereExpected : bool; diffs : list string; path : list SecurityPathStep; capabilityIssued : bool; transactionSubmitted : bool;
  additionalDefenses : list (SecurityLayer * string)
}.
Inductive AttackReason := UNEXERCISED_DEFENSE | PATH_INCONSISTENT | SchemaRefusedRun | GuardThrew.
#[export] Instance AttackReason_eq_dec : EqDecision AttackReason.
Proof. solve_decision. Defined.

(** [SECURITY_LAYERS.indexOf]. *)
Fixpoint position (x : SecurityLayer) (l : list SecurityLayer) : nat :=
  match l with [] => 0%nat | y :: l' => if bool_decide (x = y) then 0%nat else S (position x l') end.
Definition indexOf (x : SecurityLayer) : nat := position x SECURITY_LAYERS.

Definition denial (p : list SecurityPathStep) : option SecurityPathStep := List.find (fun s => bool_decide (outcome s = LO_DENY)) p.

Definition assembleAttackRun (d : AttackDefinition) (p : list SecurityPathStep) (fields : list string) (issued submitted : bool)
    (more : list (SecurityLayer * string)) : result AttackReason AttackRun :=
  let den := denial p in
  throw PATH_INCONSISTENT when match den with Some s => bool_decide (step_reason s = None) | None => false end ;;
  throw PATH_INCONSISTENT when match den with Some s => issued && (indexOf (layer s) <? indexOf CAPABILITY_ISSUER)%nat | None => false end ;;
  throw PATH_INCONSISTENT when submitted && negb issued ;;
  throw SchemaRefusedRun when bool_decide (p = []) ;;
  Ok {| r_scenario := scenario d; r_result := match den with Some _ => DENIED | None => ALLOWED end; stoppedBy := option_map layer den;
        r_reasonCode := match den with Some s => step_reason s | None => None end;
        stoppedWhereExpected := match den with Some s => bool_decide (layer s = expectedStoppedBy d) | None => false end; diffs := fields; path := p;
        capabilityIssued := issued; transactionSubmitted := submitted; additionalDefenses := more |}.

Definition assertDefensesExercised (claimed : list (SecurityLayer * string)) (exercised : list SecurityLayer) : result AttackReason unit :=
  throw UNEXERCISED_DEFENSE when some (fun c => negb (includes exercised c.1)) claimed ;; Ok tt.

(** ** What a path says *)

Lemma seen_some l x o : seen l x = Some o -> o ∈ l /\ o_layer o = x.
Proof.
  unfold seen. intros [Hin Hx%bool_decide_eq_true]%find_true. by rewrite list_elem_of_In, <- in_rev, <- list_elem_of_In in Hin.
Qed.

Lemma steps_layers l b layers : map layer (steps l b layers) = List.filter (fun x => bool_decide (is_Some (seen l x))) layers.
Proof.
  revert b. induction layers as [|x rest IH]; intros b; [done|]. cbn. destruct (seen l x) as [o|]; cbn; [|by rewrite IH].
  destruct b; cbn; by rewrite IH.
Qed.

Lemma steps_denied l layers s : s ∈ steps l true layers -> outcome s = NOT_REACHED.
Proof.
  induction layers as [|x rest IH]; cbn; [by intros ?%elem_of_nil|]. destruct (seen l x); [|done]. by intros [-> | ?]%elem_of_cons; [|apply IH].
Qed.

Lemma steps_live l layers : (forall o, o ∈ l -> o_outcome o <> NOT_REACHED) ->
  exists front back, steps l false layers = front ++ back /\
    (forall s, s ∈ front -> outcome s <> LO_DENY /\ outcome s <> NOT_REACHED /\ exists o, seen l (layer s) = Some o /\ outcome s = o_outcome o /\ step_reason s = o_reason o) /\
    (back = [] \/ exists d rest o, back = d :: rest /\ outcome d = LO_DENY /\ seen l (layer d) = Some o /\ o_outcome o = LO_DENY /\ step_reason d = o_reason o /\
       forall s, s ∈ rest -> outcome s = NOT_REACHED).
Proof.
  intros Hl. induction layers as [|x rest IH]; cbn [steps]; [exists [], []; split_and!; [done|by intros s ?%elem_of_nil|by left]|].
  destruct (seen l x) as [o|] eqn:E; [|done]. case_bool_decide as Hd.
  - exists [], ({| layer := x; outcome := o_outcome o; step_reason := o_reason o |} :: steps l true rest). split_and!; [done|by intros s ?%elem_of_nil|].
    right. exists {| layer := x; outcome := o_outcome o; step_reason := o_reason o |}, (steps l true rest), o. split_and!; try done. apply steps_denied.
  - destruct IH as (front & back & -> & Hf & Hb). exists ({| layer := x; outcome := o_outcome o; step_reason := o_reason o |} :: front), back. split_and!; [done| |done].
    intros s [-> | Hs]%elem_of_cons; [|by apply Hf]. cbn. split_and!; [done|apply Hl; by apply (seen_some l x)|by exists o].
Qed.

(** A path of the attack lab credits no control that did no work.  It lists exactly the layers that were observed, in the order a request meets
    them, each once; up to the first denial every step says what was last observed of its layer; and behind it
    nothing passes: every later step is NOT_REACHED, so that a path has one denial at most. *)
Theorem security_path_honest l : (forall o, o ∈ l -> o_outcome o <> NOT_REACHED) ->
  map layer (buildSecurityPath l) = List.filter (fun x => bool_decide (is_Some (seen l x))) SECURITY_LAYERS /\
  exists front back, buildSecurityPath l = front ++ back /\
    (forall s, s ∈ front -> outcome s <> LO_DENY /\ outcome s <> NOT_REACHED /\
       exists o, seen l (layer s) = Some o /\ outcome s = o_outcome o /\ step_reason s = o_reason o) /\
    (back = [] \/ exists d rest o, back = d :: rest /\ outcome d = LO_DENY /\ seen l (layer d) = Some o /\ o_outcome o = LO_DENY /\ step_reason d = o_reason o /\
       forall s, s ∈ rest -> outcome s = NOT_REACHED).
Proof. intros Hl. split; [apply steps_layers|]. by apply steps_live. Qed.

(** A run is reported only if it holds together: a denial has a reason, no capability was issued below a denial that came before the
    issuer, no transaction was submitted without a capability, and the path is not empty; and then it is DENIED
    exactly when some step denied, by the first that did. *)
Theorem assemble_iff d p fields issued submitted more r : assembleAttackRun d p fields issued submitted more = Ok r <->
  (forall s, denial p = Some s -> step_reason s <> None /\ (issued = true -> (indexOf CAPABILITY_ISSUER <= indexOf (layer s))%nat)) /\
  (submitted = true -> issued = true) /\ p <> [] /\
  r = {| r_scenario := scenario d; r_result := if some (fun s => bool_decide (outcome s = LO_DENY)) p then DENIED else ALLOWED;
         stoppedBy := option_map layer (denial p); r_reasonCode := match denial p with Some s => step_reason s | None => None end;
         stoppedWhereExpected := match denial p with Some s => bool_decide (layer s = expectedStoppedBy d) | None => false end; diffs := fields;
         path := p; capabilityIssued := issued; transactionSubmitted := submitted; additionalDefenses := more |}.
Proof.
  assert (Hd : match denial p with Some _ => DENIED | None => ALLOWED end = if some (fun s => bool_decide (outcome s = LO_DENY)) p then DENIED else ALLOWED).
  { unfold denial. destruct (List.find _ p) as [s|] eqn:E.
    - apply find_true in E as [Hs Ho]. by rewrite (proj2 (some_true _ p)) by by exists s.
    - by rewrite (proj2 (some_false _ p)) by by apply find_none_iff. }
  unfold assembleAttackRun. rewrite <- Hd, !throw_ok. generalize (denial p). intros den. split.
  - intros (H1 & H2 & H3 & H4 & [= <-]). split_and!; [|by destruct submitted, issued|by apply bool_decide_eq_false in H4|done].
    intros s ->. split; [by apply bool_decide_eq_false in H1|]. intros ->. apply Nat.ltb_ge. by destruct (_ <? _)%nat.
  - intros (H1 & H2 & H3 & ->). split_and!; [| |by destruct submitted, issued; try done; specialize (H2 eq_refl)|by apply bool_decide_eq_false|done].
    + destruct den as [s|]; [|done]. apply bool_decide_eq_false. by apply H1.
    + destruct den as [s|]; [|done]. destruct issued; [|done]. cbn [andb]. apply Nat.ltb_ge. by apply (H1 s).
Qed.

End Path.

Module Runner.
Import Path Blueprint.Unknown Blueprint.Schema Policy.

Definition AGENT : string := "0xe109686a0a10b0FC8f090F2bBd1424C50fE2920a".
Definition TREASURY : string := "0x93e0FCb0F71e83F3340264339BC5983C474635c5".
Definition ATTACKER : string := "0xdEaD00000000000000000000000000000000BEEF".
Definition AAVE_POOL : string := "0x6Ae43d3271ff6888e7Fc43Fd7321a503ff738951".
Definition UNKNOWN_TARGET : string := "0x00000000000000000000000000000000DeaDBeef".

Section runner.
(** [keccak256(toHex(s))], EIP-712's [hashTypedData], and what seals a snapshot. *)
Context (keccakText : string -> string)
  (hashTypedData : Capability.Eip712Domain -> list (string * Capability.AbiType) -> string -> list Capability.AbiValue -> string)
  (localeCompare : string -> string -> Z) (sha256Hex : string -> string).

Definition policyFromBlueprint (bp : Blueprint) : PrivatePolicy :=
  let auto := default 0 (known (auto_maxValueUsdCents (autonomousPolicy bp))) in
  let esc := default auto (known (maxValueUsdCents (escalationPolicy bp))) in
  {| policyId := "contextlock-lab-policy"; policyVersion := jint (revision bp); enabled := true; autoLimit := auto * 10000;
     escalationLimit := esc * 10000; maxSlippageBps := jint 100; maxVolatilityBps := jint 3000; minLiquidity := 1000000;
     targetEthAllocationBps := jint 4500; rebalanceDriftBps := jint 500; minHealthFactorBps := jint 13500; targetHealthFactorBps := jint 16000;
     proprietaryRiskThreshold := jint 42; canary := "CONTEXTLOCK_LAB_CANARY"; allowedActionKinds := map a_kind (actions bp);
     allowedTargets := [AAVE_POOL]; authorizedAgentIdentityHashes := [keccakText (agentId (identity bp))] |}.

(** What an attack changes of the baseline. *)
Record Mutation := {
  mu_amount : option Z; mu_target : option string; mu_recipient : option string; mu_version : option jsnum; mu_identity : option string
}.
Definition unchanged : Mutation := {| mu_amount := None; mu_target := None; mu_recipient := None; mu_version := None; mu_identity := None |}.

Definition baselineRequest (bp : Blueprint) (policy : PrivatePolicy) : EvaluationRequest :=
  {| requestHash := keccakText "lab-request"; agentIdentityHash := keccakText (agentId (identity bp)); ensNode := keccakText (ensName (identity bp));
     agent := AGENT; chainId := jint 11155111; target := AAVE_POOL; value := 0; calldataHash := keccakText "baseline-calldata";
     selector := "0x573ade81"; decodedRecipient := TREASURY; decodedAmount := autoLimit policy ÷ 2; intentHash := keccakText "baseline-intent";
     req_policyId := policyId policy; req_policyVersion := policyVersion policy;
     actionKind := match actions bp with a :: _ => a_kind a | [] => "AAVE_REPAY" end |}.
(** [{...base, ...mutation.req}]. *)
Definition mutate (r : EvaluationRequest) (m : Mutation) : EvaluationRequest :=
  {| requestHash := requestHash r; agentIdentityHash := default (agentIdentityHash r) (mu_identity m); ensNode := ensNode r; agent := agent r;
     chainId := chainId r; target := default (target r) (mu_target m); value := value r; calldataHash := calldataHash r; selector := selector r;
     decodedRecipient := default (decodedRecipient r) (mu_recipient m); decodedAmount := default (decodedAmount r) (mu_amount m);
     intentHash := intentHash r; req_policyId := req_policyId r; req_policyVersion := default (req_policyVersion r) (mu_version m);
     actionKind := actionKind r |}.

Definition freshContext (now : Z) : MarketContext :=
  {| observedAtUnix := jint now; slippageBps := jint 12; volatilityBps := jint 150; liquidity := 9000000000000; healthFactorBps := jint 18000 |}.

Definition CHAIN_REQUIRED : list AttackScenario := [REPLAY; EXPIRED_CAPABILITY; ENS_REVOCATION].

(** The texts of the reasons of [roles.ts], [rpc.ts], [snapshot.ts] and [cre-lab.ts]. *)
Definition networkReasonText (r : Network.Roles.ApprovedNetworkReason) : string :=
  match r with
  | Network.Roles.PRODUCTION_WRITE => "PRODUCTION_NETWORK_WRITE_PROHIBITED"
  | Network.Roles.NOT_APPROVED => "EXECUTION_NETWORK_NOT_APPROVED"
  | Network.Roles.ROLE_MISMATCH => "NETWORK_ROLE_MISMATCH"
  | Network.Roles.READ_ONLY_WRITE => "READ_ONLY_SOURCE_CANNOT_EXECUTE"
  | Network.Roles.FORK_PUBLIC_WRITE => "LOCAL_FORK_CANNOT_PUBLICLY_WRITE"
  | Network.Roles.UNKNOWN_NETWORK => "NETWORK_NOT_IN_REGISTRY"
  end.
Definition rpcReasonText (r : Rpc.RpcFenceReason) : string :=
  match r with
  | Rpc.WRITE_METHOD => "RPC_WRITE_METHOD_PROHIBITED" | Rpc.SIGNING_METHOD => "RPC_SIGNING_METHOD_PROHIBITED"
  | Rpc.UNKNOWN_METHOD => "RPC_METHOD_NOT_ON_READ_ALLOWLIST" | Rpc.NOT_READ_ONLY => "RPC_ENDPOINT_NOT_READ_ONLY"
  | Rpc.CREDENTIAL_PRESENT => "RPC_CREDENTIALLED_SIGNER_PRESENT"
  end.
Definition snapshotReasonText (r : Snapshot.SnapshotReason) : string :=
  match r with
  | Snapshot.IMMUTABLE => "MARKET_SNAPSHOT_IS_IMMUTABLE" | Snapshot.SNAPSHOT_STALE => "MARKET_SNAPSHOT_STALE"
  | Snapshot.NO_VALID_CONTEXT => "NO_VALID_CONTEXT" | Snapshot.SNAPSHOT_INCOHERENT => "MARKET_SNAPSHOT_INCOHERENT"
  | Snapshot.HASH_MISMATCH => "MARKET_SNAPSHOT_HASH_MISMATCH"
  end.

Definition fenceReason (f : Network.Fences.WriteFence) : option string :=
  match Network.Fences.fenceWriteByChain f 1 None None with Err e => Some (networkReasonText (Network.Roles.err_reason e)) | Ok _ => None end.
Definition rpcReason (m : string) : option string :=
  match Rpc.assertRpcMethodAllowed m with Err r => Some (rpcReasonText r) | Ok _ => None end.
(** [assertNoSilentFailover] of [cre-lab.ts]; the mode asked for is the deployed one or another. *)
Definition assertNoSilentFailover (deployedAvailable deployedAsked userSwitched : bool) : result string unit :=
  if deployedAvailable then Ok tt else if negb deployedAsked then Ok tt else if userSwitched then Ok tt else Err "CRE_DEPLOYED_UNAVAILABLE".

Definition definitionOf (s : AttackScenario) : option AttackDefinition := List.find (fun a => bool_decide (scenario a = s)) ATTACKS.

Definition notRun (d : AttackDefinition) : AttackRun :=
  {| r_scenario := scenario d; r_result := NOT_RUN; stoppedBy := None; r_reasonCode := None; stoppedWhereExpected := false; diffs := [];
     path := [{| layer := expectedStoppedBy d; outcome := NOT_APPLICABLE; step_reason := None |}]; capabilityIssued := false;
     transactionSubmitted := false; additionalDefenses := [] |}.
Definition saw (l : SecurityLayer) (o : LayerOutcome) (r : option string) : Observed := {| o_layer := l; o_outcome := o; o_reason := r |}.
(** One layer that denies with a reason or passes. *)
Definition single (d : AttackDefinition) (l : SecurityLayer) (r : option string) (fields : list string) : result AttackReason AttackRun :=
  assembleAttackRun d (buildSecurityPath [saw l (match r with Some _ => LO_DENY | None => PASS end) r]) fields false false [].

Definition mainnetAttack (d : AttackDefinition) : result AttackReason AttackRun :=
  let primary := fenceReason Network.Fences.STRATEGY_COMPILER in
  let defenses :=
    omap (fun p => option_map (pair p.1) p.2)
      [(EXECUTION_PLANNER, fenceReason Network.Fences.EXECUTION_PLAN_VALIDATOR); (RELAYER, fenceReason Network.Fences.RELAYER);
       (SIGNER, fenceReason Network.Fences.SIGNER); (RPC_TRANSPORT, rpcReason "eth_sendRawTransaction")] in
  let* _ := assertDefensesExercised defenses (STRATEGY_COMPILER :: map fst defenses) in
  assembleAttackRun d (buildSecurityPath [saw STRATEGY_COMPILER LO_DENY (Some (default "NOT_REFUSED" primary))]) ["chainId"] false false defenses.

Definition labCapability (bp : Blueprint) (now chain : Z) : Capability.Capability :=
  {| Capability.version := 1; Capability.agentIdentityHash := keccakText (agentId (identity bp)); Capability.agent := AGENT;
     Capability.chainId := chain; Capability.executor := AGENT; Capability.tgt := AAVE_POOL; Capability.value := 0;
     Capability.calldataHash := keccakText "baseline-calldata"; Capability.intentHash := keccakText "baseline-intent";
     Capability.policyHash := keccakText "contextlock-lab-policy"; Capability.authorizationId := keccakText "lab-authorization";
     Capability.contextCommitment := keccakText "lab-context"; Capability.issuedAt := now; Capability.expiresAt := now + 600;
     Capability.nonce := 7 |}.
Definition wrongChainAttack (d : AttackDefinition) (bp : Blueprint) (now : Z) : result AttackReason AttackRun :=
  let digest c := Capability.capabilityDigest hashTypedData (labCapability bp now c) in
  let differs := negb (streq (digest 11155111) (digest 1)) in
  assembleAttackRun d
    (buildSecurityPath [saw CONTEXTLOCK_POLICY PASS None; saw CAPABILITY_ISSUER PASS None;
                        saw EXECUTOR (if differs then LO_DENY else PASS) (if differs then Some "ChainMismatch" else None)])
    ["chainId"; "capabilityDigest"] true false [].

Definition staleInput (now : Z) : Snapshot.SnapshotInput :=
  {| Snapshot.i_snapshotId := "attack-stale"; Snapshot.i_mode := Snapshot.LIVE_MIRROR; Snapshot.i_observedAtMs := now * 1000; Snapshot.i_anchorChainId := 1;
     Snapshot.i_anchorBlock := "1"; Snapshot.i_anchorBlockHash := "0x0000000000000000000000000000000000000000000000000000000000000001";
     Snapshot.i_anchorBlockTimestampMs := now * 1000;
     Snapshot.i_sources := [{| Snapshot.s_sourceId := "s"; Snapshot.s_kind := Sources.CHAINLINK_DATA_FEED; Snapshot.s_adapterId := "a";
        Snapshot.s_adapterVersion := "1.0.0"; Snapshot.s_trustClass := Adapters.Trust.VERIFIED_ORACLE; Snapshot.s_sourceChainId := 1; Snapshot.timeSupport := Snapshot.BLOCK_SCOPED;
        Snapshot.observedBlock := Some "1"; Snapshot.lagBlocks := Some 0; Snapshot.healthy := true; Snapshot.s_detail := None |}];
     Snapshot.i_observations := [{| Snapshot.observationId := "o"; Snapshot.metric := "weth/usd:price"; Snapshot.o_value := "1"; Snapshot.o_decimals := 8;
        Snapshot.unit_ := "USD"; Snapshot.dataType := Snapshot.PRICE; Snapshot.canonicalAssetId := Some "weth"; Snapshot.o_sourceId := "s"; Snapshot.o_sourceChainId := 1;
        Snapshot.blockNumber := Some "1"; Snapshot.sourceTimestampMs := Some (now * 1000); Snapshot.retrievedAtMs := now * 1000; Snapshot.o_trustClass := Adapters.Trust.VERIFIED_ORACLE;
        Snapshot.o_adapterId := "a"; Snapshot.o_adapterVersion := "1.0.0"; Snapshot.derivedFrom := None; Snapshot.o_provenance := "attack lab baseline" |}];
     Snapshot.i_provenance := ["attack lab"]; Snapshot.i_supersedes := None; Snapshot.i_maxTimeSkewMs := None; Snapshot.i_maxSourceAgeMs := None;
     Snapshot.i_sourceMaxAgeMs := []; Snapshot.i_nowMs := Some (now * 1000) |}.
(** Ten minutes past a tolerance of one. *)
Definition staleReason (s : Snapshot.MarketSnapshot) : option string :=
  match Snapshot.assertSnapshotUsable s (Snapshot.observedAtMs (Snapshot.body s) + 600000) 60000 with
  | Err r => Some (snapshotReasonText r) | Ok _ => None
  end.
Definition staleAttack (d : AttackDefinition) (now : Z) (snapshot : option Snapshot.MarketSnapshot) : result AttackReason AttackRun :=
  let* s := match snapshot with
            | Some s => Ok s
            | None => match Snapshot.sealSnapshot localeCompare sha256Hex (staleInput now) with Ok s => Ok s | Err _ => Err GuardThrew end
            end in
  single d REALITY_ENGINE (staleReason s) ["sourceTimestampMs"].

Definition disagreementAttack (d : AttackDefinition) : result AttackReason AttackRun :=
  match Sources.compareReadings
    [{| Sources.r_sourceId := "chainlink-feed-eth-usd-mainnet"; Sources.r_value := 243442066354; Sources.r_decimals := 8; Sources.r_trustClass := Adapters.Trust.VERIFIED_ORACLE |};
     {| Sources.r_sourceId := "thegraph-uniswap-v3-mainnet"; Sources.r_value := 210000000000; Sources.r_decimals := 8; Sources.r_trustClass := Adapters.Trust.INDEXED_CHAIN_DATA |}] 100 with
  | Err _ => Err GuardThrew
  | Ok x => single d REALITY_ENGINE (if Sources.disagrees x then Some "SOURCE_DISAGREEMENT" else None) ["price"]
  end.

Definition mutationOf (s : AttackScenario) (policy : PrivatePolicy) (bp : Blueprint) : option (Mutation * list string) :=
  let esc := escalationLimit policy in
  match s with
  | AMOUNT_MUTATION => Some ({| mu_amount := Some (esc * 2); mu_target := None; mu_recipient := None; mu_version := None; mu_identity := None |}, ["amount"])
  | RECIPIENT_MUTATION => Some ({| mu_amount := None; mu_target := None; mu_recipient := Some ATTACKER; mu_version := None; mu_identity := None |}, ["recipient"])
  | TARGET_MUTATION => Some ({| mu_amount := None; mu_target := Some UNKNOWN_TARGET; mu_recipient := None; mu_version := None; mu_identity := None |}, ["target"])
  | PROMPT_INJECTION => Some ({| mu_amount := Some (esc * 3); mu_target := None; mu_recipient := Some ATTACKER; mu_version := None; mu_identity := None |},
                              ["recipient (via injected model context)"; "amount"])
  | RUNTIME_COMPROMISE => Some ({| mu_amount := Some (esc * 10); mu_target := Some UNKNOWN_TARGET; mu_recipient := Some ATTACKER; mu_version := None; mu_identity := None |},
                                ["amount"; "target"; "recipient"])
  | POLICY_CHANGE => Some ({| mu_amount := None; mu_target := None; mu_recipient := None; mu_version := Some (jint (revision bp + 1)); mu_identity := None |}, ["policyVersion"])
  | CROSS_AGENT_FAKE_APPROVAL => Some ({| mu_amount := None; mu_target := None; mu_recipient := None; mu_version := None; mu_identity := Some (keccakText "some-other-agent") |},
                                       ["agentIdentityHash"])
  | CCIP_WRONG_DESTINATION => Some ({| mu_amount := None; mu_target := Some UNKNOWN_TARGET; mu_recipient := None; mu_version := None; mu_identity := None |},
                                    ["destinationChainSelector"])
  | _ => None
  end.

Definition decisionOn (bp : Blueprint) (now : Z) (m : Mutation) : PolicyDecision :=
  let policy := policyFromBlueprint bp in evaluatePolicy (mutate (baselineRequest bp policy) m) policy (freshContext now) (jint now).
Definition policyAttack (d : AttackDefinition) (bp : Blueprint) (now : Z) (m : Mutation) (fields : list string) : result AttackReason AttackRun :=
  let x := decisionOn bp now m in
  let denied := bool_decide (verdict x = DENY) in
  assembleAttackRun d
    (buildSecurityPath [saw CRE_SIMULATION PASS None;
                        saw CONTEXTLOCK_POLICY (if denied then LO_DENY else PASS) (if denied then Some (Workflow.Handler.reasonText (reasonCode x)) else None);
                        saw CAPABILITY_ISSUER PASS None; saw EXECUTOR PASS None]) fields false false [].

Definition runAttack (s : AttackScenario) (bp : Blueprint) (now : Z) (snapshot : option Snapshot.MarketSnapshot) : result AttackReason AttackRun :=
  match definitionOf s with
  | None => Err GuardThrew
  | Some d =>
      if includes CHAIN_REQUIRED s then Ok (notRun d)
      else if bool_decide (s = MAINNET_WRITE_ATTEMPT) then mainnetAttack d
      else if bool_decide (s = WRONG_CHAIN) then wrongChainAttack d bp now
      else if bool_decide (s = STALE_ORACLE) then staleAttack d now snapshot
      else if bool_decide (s = ORACLE_DISAGREEMENT) then disagreementAttack d
      else if bool_decide (s = GRAPH_STALENESS) then single d REALITY_ENGINE (Some "MARKET_SOURCE_TOO_SLOW_FOR_POLICY") ["lagBlocks"]
      else if bool_decide (s = CRE_SIMULATOR_FAILURE)
      then single d CRE_SIMULATION (match assertNoSilentFailover false true false with Err r => Some r | Ok _ => None end) []
      else match mutationOf s (policyFromBlueprint bp) bp with
           | None => Ok (notRun d)
           | Some (m, fields) => policyAttack d bp now m fields
           end
  end.

End runner.

(** ** What the policy stops *)

Section outcomes.
Context (keccakText : string -> string) (hashTypedData : Capability.Eip712Domain -> list (string * Capability.AbiType) -> string -> list Capability.AbiValue -> string)
  (localeCompare : string -> string -> Z) (sha256Hex : string -> string).
Abbreviation runAttack := (runAttack keccakText hashTypedData localeCompare sha256Hex).
Abbreviation policyFromBlueprint := (policyFromBlueprint keccakText).
Abbreviation decisionOn := (decisionOn keccakText).
Abbreviation mutationOf := (mutationOf keccakText).

(** A time in seconds that doubles hold exactly, with room for the tolerances. *)
Definition exactTime (now : Z) : Prop := Z.abs now <= 2 ^ 52.

Lemma fresh_ok now : exactTime now -> malformed (freshContext now) = false /\ stale (freshContext now) (jint now) = false.
Proof.
  unfold exactTime. intros Hn. split; [reflexivity|]. unfold stale, freshContext. cbn [observedAtUnix].
  rewrite jsub_int, jadd_int by lia. apply orb_false_iff.
  split; apply jgt_fin; rewrite <- Zle_Qle; unfold MAX_CONTEXT_AGE_SECONDS; lia.
Qed.

(** With a first action, the baseline is refused for nothing but what the mutation changes. *)
Lemma decisionOn_deny bp now m : actions bp <> [] -> exactTime now ->
  verdict (decisionOn bp now m) = DENY <->
  ~ (to_lower (default (keccakText (agentId (identity bp))) (mu_identity m)) = to_lower (keccakText (agentId (identity bp))) /\
     to_lower (default AAVE_POOL (mu_target m)) = to_lower AAVE_POOL /\
     jeqb (default (jint (revision bp)) (mu_version m)) (jint (revision bp)) = true /\
     default (autoLimit (policyFromBlueprint bp) ÷ 2) (mu_amount m) <= escalationLimit (policyFromBlueprint bp)).
Proof.
  intros Ha Hnow. unfold Runner.decisionOn. cbv zeta. rewrite evaluatePolicy_tiers. unfold specVerdict.
  destruct (fresh_ok now Hnow) as [Hm Hs].
  assert (Hiff : structurallyAuthorized (mutate (baselineRequest keccakText bp (policyFromBlueprint bp)) m) (policyFromBlueprint bp) (freshContext now) (jint now) /\
    withinHardLimits (mutate (baselineRequest keccakText bp (policyFromBlueprint bp)) m) (policyFromBlueprint bp) (freshContext now) <->
    to_lower (default (keccakText (agentId (identity bp))) (mu_identity m)) = to_lower (keccakText (agentId (identity bp))) /\
     to_lower (default AAVE_POOL (mu_target m)) = to_lower AAVE_POOL /\
     jeqb (default (jint (revision bp)) (mu_version m)) (jint (revision bp)) = true /\
     default (autoLimit (policyFromBlueprint bp) ÷ 2) (mu_amount m) <= escalationLimit (policyFromBlueprint bp)).
  { unfold structurallyAuthorized, withinHardLimits. rewrite Hm, Hs.
    cbn [enabled mutate baselineRequest agentIdentityHash authorizedAgentIdentityHashes Runner.policyFromBlueprint map actionKind allowedActionKinds target allowedTargets
         req_policyId policyId req_policyVersion policyVersion decodedAmount liquidity minLiquidity freshContext]. rewrite !list_elem_of_singleton.
    split; [tauto|]. intros (? & ? & ? & ?). split_and!; try done. destruct (actions bp) as [|a l]; [done|]. left. }
  destruct (decide _) as [Hd|Hd]; [|by rewrite Hiff in Hd]. apply Hiff in Hd. destruct (decide _); (split; [done|tauto]).
Qed.

(** The attack was reported as stopped by the policy. *)
Definition stopped (s : AttackScenario) (bp : Blueprint) (now : Z) (snap : option Snapshot.MarketSnapshot) : Prop :=
  exists r, runAttack s bp now snap = Ok r /\ r_result r = DENIED /\ stoppedBy r = Some CONTEXTLOCK_POLICY.

Lemma policyAttack_result d bp now m fields : exists r, policyAttack keccakText d bp now m fields = Ok r /\
  (r_result r = DENIED /\ stoppedBy r = Some CONTEXTLOCK_POLICY <-> verdict (decisionOn bp now m) = DENY) /\
  (r_result r = ALLOWED <-> verdict (decisionOn bp now m) <> DENY).
Proof.
  unfold policyAttack. cbv zeta. generalize (Workflow.Handler.reasonText (reasonCode (decisionOn bp now m))). intros why.
  destruct (decide (verdict (decisionOn bp now m) = DENY)) as [E|E];
    [rewrite !(bool_decide_eq_true_2 _ E)|rewrite !(bool_decide_eq_false_2 _ E)]; eexists; (split; [reflexivity|]); cbn [r_result stoppedBy].
  - split; (split; [|done]); [done|]. intros H. discriminate H.
  - split; (split; [|done]); [|done]. intros [H _]. discriminate H.
Qed.

Lemma runAttack_policy s bp now snap m fields : mutationOf s (policyFromBlueprint bp) bp = Some (m, fields) ->
  (exists r, runAttack s bp now snap = Ok r /\ (r_result r = ALLOWED <-> ~ stopped s bp now snap)) /\
  (stopped s bp now snap <-> verdict (decisionOn bp now m) = DENY).
Proof.
  intros Hm. assert (exists d, runAttack s bp now snap = policyAttack keccakText d bp now m fields) as [d Hd].
  { destruct s; try discriminate Hm; injection Hm as <- <-; eexists; reflexivity. }
  unfold stopped. rewrite Hd. destruct (policyAttack_result d bp now m fields) as (r & -> & H1 & H2).
  assert (Hs : (exists r0, @Ok AttackReason _ r = Ok r0 /\ r_result r0 = DENIED /\ stoppedBy r0 = Some CONTEXTLOCK_POLICY) <-> verdict (decisionOn bp now m) = DENY).
  { rewrite <- H1. split; [by intros (r0 & [= <-] & ?)|]. intros. by exists r. }
  split; [exists r; split; [done|]; by rewrite H2, Hs|exact Hs].
Qed.

Lemma only_amount {A B C : Type} (a : A) (b : B) (c : C) x y : ~ (a = a /\ b = b /\ c = c /\ x <= y) <-> y < x.
Proof. split; [intros H; apply Z.nle_gt; intros Hle; by apply H|intros H (_ & _ & _ & Hle); lia]. Qed.

(** The limits an attack is measured against, in US cents: the autonomous limit, zero where the blueprint does not know it; and
    the escalation limit or, where that is not known, the autonomous one. *)
Definition autoCents (bp : Blueprint) : Z :=
  match auto_maxValueUsdCents (autonomousPolicy bp) with Known a _ => a | UnknownValue _ _ => 0 end.
Definition escCents (bp : Blueprint) : Z :=
  match maxValueUsdCents (escalationPolicy bp) with Known e _ => e | UnknownValue _ _ => autoCents bp end.

Lemma limits_cents bp : autoLimit (policyFromBlueprint bp) = autoCents bp * 10000 /\ escalationLimit (policyFromBlueprint bp) = escCents bp * 10000.
Proof.
  unfold Runner.policyFromBlueprint, escCents, autoCents, known. cbn [autoLimit escalationLimit].
  by destruct (auto_maxValueUsdCents _), (maxValueUsdCents _).
Qed.

(** C25: what of the attack lab the policy stops.  An attack put to the policy engine is always reported, stopped by the policy or as not
    stopped.  For every blueprint with an action, a call to another contract, a fully compromised runtime, a changed policy version and a
    redirected message are stopped.  A raised amount (alone, or by an injected prompt) is stopped exactly when the limit it is raised over
    is more than zero: the escalation limit the blueprint knows or, where it knows none, the autonomous limit; with neither known, it is
    not stopped.  Another agent's identity is stopped unless the two hashes are the same up to case and the untouched amount passes;
    and another recipient is not seen at all: that attack is reported as stopped exactly when the untouched request is denied, which is
    when the escalation limit is less than half of the autonomous one.  The clock is a number of seconds that doubles hold exactly (for
    one they do not, the sample's own freshness would be a matter of rounding). *)
Theorem policy_attacks bp now snap : actions bp <> [] -> exactTime now ->
  let policy := policyFromBlueprint bp in
  (forall s, is_Some (mutationOf s policy bp) -> exists r, runAttack s bp now snap = Ok r /\ (r_result r = ALLOWED <-> ~ stopped s bp now snap)) /\
  (forall s, s ∈ [TARGET_MUTATION; RUNTIME_COMPROMISE; POLICY_CHANGE; CCIP_WRONG_DESTINATION] -> stopped s bp now snap) /\
  (forall s, s ∈ [AMOUNT_MUTATION; PROMPT_INJECTION] -> stopped s bp now snap <->
     match maxValueUsdCents (escalationPolicy bp), auto_maxValueUsdCents (autonomousPolicy bp) with
     | Known esc _, _ => 0 < esc
     | UnknownValue _ _, Known auto _ => 0 < auto
     | UnknownValue _ _, UnknownValue _ _ => False
     end) /\
  (stopped CROSS_AGENT_FAKE_APPROVAL bp now snap <->
     2 * escCents bp < autoCents bp \/ to_lower (keccakText "some-other-agent") <> to_lower (keccakText (agentId (identity bp)))) /\
  (stopped RECIPIENT_MUTATION bp now snap <-> verdict (decisionOn bp now unchanged) = DENY) /\
  (stopped RECIPIENT_MUTATION bp now snap <-> 2 * escCents bp < autoCents bp).
Proof.
  intros Ha Hnow. cbv zeta. destruct (limits_cents bp) as [Hauto Hesc].
  assert (Hhalf : escCents bp * 10000 < (autoCents bp * 10000) ÷ 2 <-> 2 * escCents bp < autoCents bp).
  { replace (autoCents bp * 10000) with (autoCents bp * 5000 * 2) by lia. rewrite Z.quot_mul by done. lia. }
  assert (Hv : jeqb (jint (revision bp)) (jint (revision bp)) = true) by (cbn; apply Qeq_bool_iff; reflexivity).
  assert (Hv' : jeqb (jint (revision bp + 1)) (jint (revision bp)) = false).
  { cbn. apply not_true_is_false. rewrite Qeq_bool_iff, inject_Z_injective. lia. }
  assert (Hrun : forall s, is_Some (mutationOf s (policyFromBlueprint bp) bp) ->
    exists m, (exists fields, mutationOf s (policyFromBlueprint bp) bp = Some (m, fields)) /\ (stopped s bp now snap <-> verdict (decisionOn bp now m) = DENY)).
  { intros s [[m fields] E]. exists m. split; [by exists fields|]. by apply (runAttack_policy s bp now snap m fields). }
  assert (Hrec : stopped RECIPIENT_MUTATION bp now snap <-> 2 * escCents bp < autoCents bp).
  { destruct (Hrun RECIPIENT_MUTATION) as (m & (f & [= <- <-]) & ->); [by eexists|]. rewrite decisionOn_deny by done. cbn [mu_identity mu_target mu_version mu_amount default from_option id].
    by rewrite Hv, only_amount, Hauto, Hesc. }
  split_and!.
  - intros s [[m fields] E]. by apply (runAttack_policy s bp now snap m fields).
  - intros s Hs. rewrite !elem_of_cons, elem_of_nil in Hs. destruct Hs as [-> | [-> | [-> | [-> | []]]]];
      (match goal with |- stopped ?x _ _ _ => destruct (Hrun x) as (m & (f & [= <- <-]) & ->); [by eexists|] end);
      apply decisionOn_deny; [done|done| |done|done| |done|done| |done|done|]; cbn [mu_identity mu_target mu_version mu_amount default from_option id];
      [intros (_ & H & _); discriminate H|intros (_ & H & _); discriminate H|rewrite Hv'; intros (_ & _ & H & _); discriminate H|intros (_ & H & _); discriminate H].
  - intros s Hs. rewrite !elem_of_cons, elem_of_nil in Hs. destruct Hs as [-> | [-> | []]];
      (match goal with |- stopped ?x _ _ _ <-> _ => destruct (Hrun x) as (m & (f & [= <- <-]) & ->); [by eexists|] end);
      rewrite decisionOn_deny by done; cbn [mu_identity mu_target mu_version mu_amount default from_option id]; rewrite Hv, only_amount;
      unfold Runner.policyFromBlueprint, known; cbn [escalationLimit]; destruct (maxValueUsdCents _), (auto_maxValueUsdCents _);
      cbn [default from_option id]; lia.
  - destruct (Hrun CROSS_AGENT_FAKE_APPROVAL) as (m & (f & [= <- <-]) & ->); [by eexists|]. rewrite decisionOn_deny by done.
    cbn [mu_identity mu_target mu_version mu_amount default from_option id]. rewrite Hv.
    destruct (decide (to_lower (keccakText "some-other-agent") = to_lower (keccakText (agentId (identity bp))))) as [E|E]; [|naive_solver].
    rewrite E, only_amount, Hauto, Hesc, Hhalf. naive_solver.
  - rewrite Hrec, decisionOn_deny by done. cbn [mu_identity mu_target mu_version mu_amount unchanged default from_option id].
    by rewrite Hv, only_amount, Hauto, Hesc, Hhalf.
  - exact Hrec.
Qed.

End outcomes.
End Runner.

Module Report.
Import Path.

Definition SAFETY_REPORT_SCHEMA_VERSION : string := "contextlock.safety-report/v1".

Inductive PrivacyAnswer := VERIFIED | NO | NOT_ESTABLISHED.
#[export] Instance PrivacyAnswer_eq_dec : EqDecision PrivacyAnswer.
Proof. solve_decision. Defined.
Definition answerText (a : PrivacyAnswer) : string := match a with VERIFIED => "VERIFIED" | NO => "NO" | NOT_ESTABLISHED => "NOT_ESTABLISHED" end.
Record PrivacyClaim := { claim : string; answer : PrivacyAnswer; evidence : option string; blocker : option string }.
Definition PRIVACY_CLAIMS : list string :=
  ["Agent cannot access CRE credential"; "Private policy absent from agent prompt"; "CRE official simulation"; "CRE DON execution";
   "CRE hardware TEE"; "Physical Ledger"].

Inductive ReportReason := UNEVIDENCED_CLAIM | COLLAPSED.
#[export] Instance ReportReason_eq_dec : EqDecision ReportReason.
Proof. solve_decision. Defined.

Definition unevidenced (c : PrivacyClaim) : bool :=
  bool_decide (answer c = VERIFIED) && match evidence c with None => true | Some e => (length (Workflow.Conv.trimmed (units e)) <? 10)%nat end.
Definition assertPrivacyClaimsEvidenced (l : list PrivacyClaim) : result ReportReason unit :=
  throw UNEVIDENCED_CLAIM when some unevidenced l ;;
  throw COLLAPSED when some (fun n => negb (some (fun c => streq (claim c) n) l)) PRIVACY_CLAIMS ;;
  Ok tt.

(** ** The report *)

Record ReportAgent := { goal : string; ensIdentity : option string; blueprintHash : string; strategyHash : string; ra_blueprintRevision : Z }.
Record ReportNetwork := { rn_chainId : Z; rn_name : string; rn_role : string }.
Record ReportSource := { rs_sourceId : string; rs_kind : string; rs_trustClass : string; rs_status : string; rs_blocker : option string }.
Record ReportReality := {
  rr_sources : list ReportSource; chainlinkSource : option string; theGraphState : string; archiveReplayState : string;
  marketSnapshotHash : option string; rr_anchorBlock : option string
}.
Record ReportCre := {
  rc_mode : string; rc_executionMode : string; wasmHash : option string; productionLimits : string; donDeployment : bool; hardwareTee : bool;
  teeAttestation : bool; deployAccess : string
}.
Record ReportAttack := { at_scenario : string; at_result : string; at_stoppedBy : option string; at_reasonCode : option string }.
Record ReportDeployment := { rd_name : string; rd_address : string; rd_chainId : Z; rd_txHash : string; explorerUrl : option string }.
(** Without the hash; [schemaVersion] and [productionChainExecution] are literals. *)
Record SafetyReport := {
  reportId : string; generatedAtMs : Z; r_agent : ReportAgent; networks : list ReportNetwork; productionWriteEvidence : list string;
  reality : ReportReality; r_cre : ReportCre; imageDigest : option string; adapterVersions : list string; simulationsPassed : Z;
  simulationsTotal : Z; attacks : list ReportAttack; deployments : list ReportDeployment; privacy : list PrivacyClaim;
  knownBlockers : list (string * string)
}.

Definition jo (o : option string) : json := match o with Some s => JStr s | None => JNull end.
Definition yn (b : bool) : json := JStr (if b then "YES" else "NO").
Definition reportFields (r : SafetyReport) : list (string * json) :=
  let a := r_agent r in let y := reality r in let c := r_cre r in
  [("reportId", JStr (reportId r)); ("generatedAtMs", JNum (generatedAtMs r));
   ("agent", JObj [("goal", JStr (goal a)); ("ensIdentity", jo (ensIdentity a)); ("blueprintHash", JStr (blueprintHash a));
                   ("strategyHash", JStr (strategyHash a)); ("blueprintRevision", JNum (ra_blueprintRevision a))]);
   ("execution", JObj [("networks", JArr (map (fun n => JObj [("chainId", JNum (rn_chainId n)); ("name", JStr (rn_name n)); ("role", JStr (rn_role n))]) (networks r)));
                       ("productionChainExecution", JStr "DISABLED"); ("productionWriteEvidence", JArr (map JStr (productionWriteEvidence r)))]);
   ("reality", JObj [("sources", JArr (map (fun s => JObj [("sourceId", JStr (rs_sourceId s)); ("kind", JStr (rs_kind s)); ("trustClass", JStr (rs_trustClass s));
                                                           ("status", JStr (rs_status s)); ("blocker", jo (rs_blocker s))]) (rr_sources y)));
                     ("chainlinkSource", jo (chainlinkSource y)); ("theGraphState", JStr (theGraphState y)); ("archiveReplayState", JStr (archiveReplayState y));
                     ("marketSnapshotHash", jo (marketSnapshotHash y)); ("anchorBlock", jo (rr_anchorBlock y))]);
   ("cre", JObj [("mode", JStr (rc_mode c)); ("executionMode", JStr (rc_executionMode c)); ("wasmHash", jo (wasmHash c)); ("productionLimits", JStr (productionLimits c));
                 ("donDeployment", yn (donDeployment c)); ("hardwareTee", yn (hardwareTee c)); ("teeAttestation", yn (teeAttestation c)); ("deployAccess", JStr (deployAccess c))]);
   ("runtime", JObj [("imageDigest", jo (imageDigest r)); ("adapterVersions", JArr (map JStr (adapterVersions r)))]);
   ("testing", JObj [("securitySimulations", JObj [("passed", JNum (simulationsPassed r)); ("total", JNum (simulationsTotal r))]);
                     ("attacks", JArr (map (fun t => JObj [("scenario", JStr (at_scenario t)); ("result", JStr (at_result t)); ("stoppedBy", jo (at_stoppedBy t)); ("reasonCode", jo (at_reasonCode t))]) (attacks r)))]);
   ("deployments", JArr (map (fun d => JObj [("name", JStr (rd_name d)); ("address", JStr (rd_address d)); ("chainId", JNum (rd_chainId d)); ("txHash", JStr (rd_txHash d)); ("explorerUrl", jo (explorerUrl d))]) (deployments r)));
   ("privacy", JArr (map (fun p => JObj [("claim", JStr (claim p)); ("answer", JStr (answerText (answer p))); ("evidence", jo (evidence p)); ("blocker", jo (blocker p))]) (privacy r)));
   ("knownBlockers", JArr (map (fun b => JObj [("id", JStr b.1); ("effect", JStr b.2)]) (knownBlockers r)));
   ("schemaVersion", JStr SAFETY_REPORT_SCHEMA_VERSION)].

(** What [JSON.stringify] keeps when it is given a list of names: of every object, at whatever depth, the properties of
    the list, in the order of the list. *)
Fixpoint onlyKeys (ks : list string) (j : json) : json :=
  match j with
  | JObj l =>
      let l' := map (fun '(k, v) => (k, onlyKeys ks v)) l in
      JObj (omap (fun k => option_map (pair k) (getKey k l')) ks)
  | JArr l => JArr (map (onlyKeys ks) l)
  | _ => j
  end.

Definition reportText (r : SafetyReport) : string :=
  stringify (onlyKeys (merge_sort str_le (map fst (reportFields r))) (JObj (reportFields r))).
Definition computeReportHash (sha256Hex : string -> string) (r : SafetyReport) : string := "sha256:" +:+ sha256Hex (reportText r).

(** ** The public view *)

Record PublicSafetyView := {
  v_reportId : string; v_goal : string; v_ensIdentity : option string; v_blueprintHash : string; v_networks : list ReportNetwork; v_mode : string;
  v_donDeployment : bool; v_hardwareTee : bool; v_testing : Z * Z * list ReportAttack; v_privacy : list PrivacyClaim; v_reportHash : string
}.
Definition publicSafetyView (r : SafetyReport) (hash : string) : PublicSafetyView :=
  {| v_reportId := reportId r; v_goal := goal (r_agent r); v_ensIdentity := ensIdentity (r_agent r); v_blueprintHash := blueprintHash (r_agent r);
     v_networks := networks r; v_mode := rc_mode (r_cre r); v_donDeployment := donDeployment (r_cre r); v_hardwareTee := hardwareTee (r_cre r);
     v_testing := (simulationsPassed r, simulationsTotal r, attacks r); v_privacy := privacy r; v_reportHash := hash |}.

(** The names of layers and of attacks as they are written. *)
Definition layerText (l : SecurityLayer) : string :=
  match l with
  | PROMPT => "PROMPT" | REQUIREMENTS => "REQUIREMENTS" | BLUEPRINT => "BLUEPRINT" | STRATEGY_COMPILER => "STRATEGY_COMPILER"
  | EXECUTION_PLANNER => "EXECUTION_PLANNER" | ADAPTER_RESOLVER => "ADAPTER_RESOLVER" | REALITY_ENGINE => "REALITY_ENGINE"
  | CRE_SIMULATION => "CRE_SIMULATION" | CONTEXTLOCK_POLICY => "CONTEXTLOCK_POLICY" | CAPABILITY_ISSUER => "CAPABILITY_ISSUER"
  | SIGNER => "SIGNER" | RELAYER => "RELAYER" | RPC_TRANSPORT => "RPC_TRANSPORT" | EXECUTOR => "EXECUTOR"
  end.
Definition attacksForReport (scenarioText : AttackScenario -> string) (l : list AttackRun) : list ReportAttack :=
  map (fun r => {| at_scenario := scenarioText (r_scenario r);
                   at_result := match r_result r with DENIED => "DENIED" | ALLOWED => "ALLOWED" | NOT_RUN => "NOT_RUN" end;
                   at_stoppedBy := option_map layerText (stoppedBy r); at_reasonCode := r_reasonCode r |}) l.

(** ** What the hash is of *)

(** The keys of a report, sorted. *)
Definition REPORT_KEYS : list string :=
  ["agent"; "cre"; "deployments"; "execution"; "generatedAtMs"; "knownBlockers"; "privacy"; "reality"; "reportId"; "runtime"; "schemaVersion"; "testing"].
Definition empties (n : nat) : json := JArr (repeat (JObj []) n).

Lemma report_keys r : merge_sort str_le (map fst (reportFields r)) = REPORT_KEYS.
Proof. cbv [reportFields map fst]. vm_compute. reflexivity. Qed.

Lemma emptied {A : Type} (ks : list string) (f : A -> json) l : (forall a, onlyKeys ks (f a) = JObj []) -> map (onlyKeys ks) (map f l) = repeat (JObj []) (length l).
Proof. intros H. induction l as [|a l IH]; [done|]. cbn. by rewrite H, IH. Qed.

Lemma reportText_eq r : reportText r = stringify (JObj
  [("agent", JObj []); ("cre", JObj []); ("deployments", empties (length (deployments r))); ("execution", JObj []); ("generatedAtMs", JNum (generatedAtMs r));
   ("knownBlockers", empties (length (knownBlockers r))); ("privacy", empties (length (privacy r))); ("reality", JObj []); ("reportId", JStr (reportId r));
   ("runtime", JObj []); ("schemaVersion", JStr SAFETY_REPORT_SCHEMA_VERSION); ("testing", JObj [])]).
Proof.
  unfold reportText. rewrite report_keys. f_equal. unfold empties.
  rewrite <- (emptied REPORT_KEYS (fun d => JObj [("name", JStr (rd_name d)); ("address", JStr (rd_address d)); ("chainId", JNum (rd_chainId d)); ("txHash", JStr (rd_txHash d)); ("explorerUrl", jo (explorerUrl d))])) by reflexivity.
  rewrite <- (emptied REPORT_KEYS (fun b : string * string => JObj [("id", JStr b.1); ("effect", JStr b.2)])) by reflexivity.
  rewrite <- (emptied REPORT_KEYS (fun p => JObj [("claim", JStr (claim p)); ("answer", JStr (answerText (answer p))); ("evidence", jo (evidence p)); ("blocker", jo (blocker p))])) by reflexivity.
  reflexivity.
Qed.

(** What the hash depends on. *)
Definition hashed (r : SafetyReport) : string * Z * nat * nat * nat :=
  (reportId r, generatedAtMs r, length (deployments r), length (knownBlockers r), length (privacy r)).

Lemma repeat_length_inj {A : Type} (x : A) m n : repeat x m = repeat x n -> m = n.
Proof. intros H. apply (f_equal length) in H. by rewrite !repeat_length in H. Qed.

(** The hash of a safety report is of its id, its time and three counts, and of nothing else.  Two reports with the same id, the same time and as many
    deployments, blockers and privacy claims have the same hash, whatever agent, networks, verdicts, attacks, addresses or answers they
    tell of; and two with the same hash agree on those five, or SHA-256 has a collision. *)
Theorem report_hash_of sha r r' :
  (hashed r = hashed r' -> computeReportHash sha r = computeReportHash sha r') /\
  (computeReportHash sha r = computeReportHash sha r' -> hashed r = hashed r' \/ collides sha).
Proof.
  unfold computeReportHash. rewrite !reportText_eq. unfold hashed. split.
  - by intros [= -> -> -> -> ->].
  - intros H%Json.app_inv_head. destruct (decide (hashed r = hashed r')) as [E|E]; [by left|]. right.
    eexists _, _. split; [|exact H]. intros Hs. apply E. apply stringify_inj in Hs. unfold hashed.
    injection Hs as H1 H2 H3 H4 H5. apply repeat_length_inj in H1, H3, H4. congruence.
Qed.

(** A report may be sealed as to privacy exactly when each of the six questions is answered by some claim, and whatever is called verified has
    evidence of ten characters. *)
Theorem privacy_iff l : assertPrivacyClaimsEvidenced l = Ok tt <->
  (forall c, c ∈ l -> answer c = VERIFIED -> exists e, evidence c = Some e /\ (10 <= length (Workflow.Conv.trimmed (units e)))%nat) /\
  (forall n, n ∈ PRIVACY_CLAIMS -> exists c, c ∈ l /\ claim c = n).
Proof.
  unfold assertPrivacyClaimsEvidenced. rewrite !throw_ok, !some_false. split.
  - intros (H1 & H2 & _). split.
    + intros c Hc Ha. specialize (H1 c Hc). unfold unevidenced in H1. rewrite bool_decide_eq_true_2 in H1 by done. cbn [andb] in H1.
      destruct (evidence c) as [e|]; [|done]. exists e. split; [done|]. by apply Nat.ltb_ge.
    + intros n Hn. specialize (H2 n Hn). apply negb_false_iff, some_true in H2 as (c & Hc & <-%streq_true). by exists c.
  - intros [H1 H2]. split_and!; [| |done].
    + intros c Hc. unfold unevidenced. case_bool_decide as Ha; [|done]. destruct (H1 c Hc Ha) as (e & -> & He). by apply Nat.ltb_ge.
    + intros n Hn. apply negb_false_iff, some_true. destruct (H2 n Hn) as (c & Hc & <-). exists c. split; [done|]. by apply streq_true.
Qed.

End Report.

(** Concrete attacks and reports. *)
Module AttackSamples.
Import Path Runner Report Blueprint.Unknown Blueprint.Schema.

Definition idText (s : string) : string := s.
Definition typed (d : Capability.Eip712Domain) (_ : list (string * Capability.AbiType)) (_ : string) (_ : list Capability.AbiValue) : string :=
  pretty (Capability.domain_chainId d).
Definition bp : Blueprint := Blueprint.Samples.bp.
Definition attacked (s : AttackScenario) (b : Blueprint) : option (RunResult * option SecurityLayer * option string * bool) :=
  match runAttack idText typed Adapters.codeUnitCompare idText s b 1760000000 None with
  | Ok r => Some (r_result r, stoppedBy r, r_reasonCode r, stoppedWhereExpected r)
  | Err _ => None
  end.
Definition byPolicy (s : string) (expected : bool) : option (RunResult * option SecurityLayer * option string * bool) :=
  Some (DENIED, Some CONTEXTLOCK_POLICY, Some s, expected).

Example sample_attacks : map (fun s => attacked s bp) [PROMPT_INJECTION; TARGET_MUTATION; RUNTIME_COMPROMISE; MAINNET_WRITE_ATTEMPT; WRONG_CHAIN; REPLAY; STALE_ORACLE] =
  [byPolicy "DENY_AMOUNT_TOO_HIGH" true; byPolicy "DENY_TARGET_NOT_ALLOWED" true; byPolicy "DENY_TARGET_NOT_ALLOWED" true;
   Some (DENIED, Some STRATEGY_COMPILER, Some "PRODUCTION_NETWORK_WRITE_PROHIBITED", true); Some (DENIED, Some EXECUTOR, Some "ChainMismatch", true);
   Some (NOT_RUN, None, None, false); Some (DENIED, Some REALITY_ENGINE, Some "NO_VALID_CONTEXT", true)].
Proof. vm_compute. reflexivity. Qed.

(** The catalogue expects the policy to refuse another recipient; the policy does not look at recipients. *)
Example recipient_not_stopped : attacked RECIPIENT_MUTATION bp = Some (ALLOWED, None, None, false) /\
  option_map (fun d => (expectedStoppedBy d, expectedReasonCode d)) (definitionOf RECIPIENT_MUTATION) = Some (CONTEXTLOCK_POLICY, "RECIPIENT_NOT_ALLOWED").
Proof. vm_compute. split; reflexivity. Qed.

(** Three attacks are refused by the policy for a reason of its own, and so always somewhere else than where the catalogue expects it. *)
Example stopped_elsewhere : map (fun s => attacked s bp) [POLICY_CHANGE; CROSS_AGENT_FAKE_APPROVAL; CCIP_WRONG_DESTINATION] =
  [byPolicy "DENY_POLICY_DISABLED" false; byPolicy "DENY_AGENT_NOT_AUTHORIZED" false; byPolicy "DENY_TARGET_NOT_ALLOWED" false].
Proof. vm_compute. reflexivity. Qed.

Definition withLimits (auto esc : Maybe Z) (b : Blueprint) : Blueprint :=
  {| blueprintId := blueprintId b; revision := revision b; createdAt := createdAt b; identity := identity b; objective := objective b;
     protocols := protocols b; assets := assets b; triggers := triggers b; actions := actions b; allowedPermissions := allowedPermissions b;
     deniedPermissions := deniedPermissions b;
     autonomousPolicy := {| auto_maxValueUsdCents := auto; allowedActionRefs := allowedActionRefs (autonomousPolicy b) |};
     escalationPolicy := {| minValueUsdCents := minValueUsdCents (escalationPolicy b); maxValueUsdCents := esc; mechanism := mechanism (escalationPolicy b);
                            denyIsTerminal := denyIsTerminal (escalationPolicy b) |};
     perActionLimits := perActionLimits b; confidentialPolicy := confidentialPolicy b;
     contextSources := contextSources b; adapters := adapters b; dataRequirements := dataRequirements b;
     capabilityPolicy := capabilityPolicy b; ens := ens b; cre := cre b; ledger := ledger b; execution := execution b;
     simulationScenarios := simulationScenarios b; generatedModules := generatedModules b; securityAssertions := securityAssertions b |}.
Definition open_ : Maybe Z := UnknownValue "the user has not said" DEPLOY.

(** With limits that are not known, twice nothing is nothing, and the attack on the amount goes through; an autonomous limit stands in
    for the escalation limit. *)
Example amount_not_stopped : attacked AMOUNT_MUTATION (withLimits open_ open_ bp) = Some (ALLOWED, None, None, false) /\
  attacked AMOUNT_MUTATION (withLimits (Known 500 "five dollars") open_ bp) = byPolicy "DENY_AMOUNT_TOO_HIGH" true /\
  attacked AMOUNT_MUTATION bp = byPolicy "DENY_AMOUNT_TOO_HIGH" true.
Proof. vm_compute. repeat split; reflexivity. Qed.

(** The lagging indexer is reported as refused whatever the agent and the sources are: nothing is asked. *)
Example staleness_unexercised kk ht lc sha b now snap : exists r, runAttack kk ht lc sha GRAPH_STALENESS b now snap = Ok r /\
  r_result r = DENIED /\ stoppedBy r = Some REALITY_ENGINE.
Proof. eexists. split; [reflexivity|]. by split. Qed.

(** A signer that denied and a transaction that was submitted are taken for a run that holds together. *)
Example submitted_after_denial :
  match definitionOf REPLAY with
  | Some d => match assembleAttackRun d (buildSecurityPath [saw SIGNER LO_DENY (Some "NO")]) [] true true [] with
              | Ok r => r_result r = DENIED /\ stoppedBy r = Some SIGNER /\ transactionSubmitted r = true
              | Err _ => False
              end
  | None => False
  end.
Proof. vm_compute. repeat split; reflexivity. Qed.

Lemma policy_attacks_witness :
  let stopped := stopped idText typed Adapters.codeUnitCompare idText in
  stopped TARGET_MUTATION bp 1760000000 None /\ stopped AMOUNT_MUTATION (withLimits (Known 500 "five dollars") open_ bp) 1760000000 None /\
  ~ stopped AMOUNT_MUTATION (withLimits open_ open_ bp) 1760000000 None.
Proof.
  split; [|split].
  - apply (proj1 (proj2 (policy_attacks idText typed Adapters.codeUnitCompare idText bp 1760000000 None ltac:(discriminate) ltac:(by apply Z.leb_le)))). left.
  - apply (proj1 (proj2 (proj2 (policy_attacks idText typed Adapters.codeUnitCompare idText (withLimits (Known 500 "five dollars") open_ bp) 1760000000 None
             ltac:(discriminate) ltac:(by apply Z.leb_le)))) AMOUNT_MUTATION); [left|reflexivity].
  - intros H. apply (proj1 (proj2 (proj2 (policy_attacks idText typed Adapters.codeUnitCompare idText (withLimits open_ open_ bp) 1760000000 None
             ltac:(discriminate) ltac:(by apply Z.leb_le)))) AMOUNT_MUTATION) in H; [exact H|left].
Defined.

Lemma security_path_honest_witness :
  map layer (buildSecurityPath [saw CONTEXTLOCK_POLICY LO_DENY (Some "NO"); saw EXECUTOR PASS None]) = [CONTEXTLOCK_POLICY; EXECUTOR].
Proof.
  refine (proj1 (security_path_honest [saw CONTEXTLOCK_POLICY LO_DENY (Some "NO"); saw EXECUTOR PASS None] _)).
  intros o Ho. apply elem_of_cons in Ho as [-> | Ho]; [discriminate|]. apply elem_of_cons in Ho as [-> | Ho]; [discriminate|]. by apply elem_of_nil in Ho.
Defined.

Definition report (g : string) (don : bool) (a : PrivacyAnswer) (chain : Z) : SafetyReport :=
  {| reportId := "r-1"; generatedAtMs := 1;
     r_agent := {| goal := g; ensIdentity := None; blueprintHash := g; strategyHash := g; ra_blueprintRevision := 1 |};
     networks := [{| rn_chainId := chain; rn_name := "n"; rn_role := "TESTNET_EXECUTION" |}]; productionWriteEvidence := ["fenced"];
     reality := {| rr_sources := []; chainlinkSource := None; theGraphState := "s"; archiveReplayState := "s"; marketSnapshotHash := None; rr_anchorBlock := None |};
     r_cre := {| rc_mode := "m"; rc_executionMode := "e"; wasmHash := None; productionLimits := "l"; donDeployment := don; hardwareTee := don;
                 teeAttestation := don; deployAccess := "a" |};
     imageDigest := None; adapterVersions := []; simulationsPassed := 17; simulationsTotal := 17; attacks := []; deployments := [];
     privacy := map (fun n => {| claim := n; answer := a; evidence := Some "see the evidence"; blocker := None |}) PRIVACY_CLAIMS; knownBlockers := [] |}.

(** A report of another agent on another chain, with DON, TEE and every privacy claim turned round, has the same hash. *)
Example two_reports_one_hash :
  computeReportHash idText (report "hold" false NO 1) = computeReportHash idText (report "trade" true VERIFIED 11155111) /\
  reportText (report "hold" false NO 1) <> EmptyString.
Proof. split; [vm_compute; reflexivity|discriminate]. Qed.

Example sample_privacy : assertPrivacyClaimsEvidenced (privacy (report "hold" false VERIFIED 1)) = Ok tt /\
  assertPrivacyClaimsEvidenced [{| claim := "Physical Ledger"; answer := VERIFIED; evidence := Some "   yes   "; blocker := None |}] = Err UNEVIDENCED_CLAIM /\
  assertPrivacyClaimsEvidenced [] = Err COLLAPSED.
Proof. vm_compute. repeat split; reflexivity. Qed.

End AttackSamples.
